(* ===== verification/_CoqProject ===== *)
-Q . S2P
Prelude.v
Card.v
Deck.v
HandEvaluator.v
Table.v
TableLib.v
TableInv.v
TableBetting.v
TablePots.v
TableAdvance.v
TableAct.v
TableDeal.v
TableStart.v
TableChips.v
TableLife.v
CardTheorems.v
TableTheorems.v
AccountStore.v
Auth.v
GameStore.v
GameStoreLib.v
GameStoreInv.v
GameStoreTheorems.v
Codec.v
TokenBucket.v
IdempotencyCache.v
RoomExecutor.v
RoomManager.v
RoomTheorems.v
Cluster.v
ClusterTheorems.v
ReaperTheorems.v
ServerConfig.v
Metrics.v
BlockingExecutor.v
ConnectionPool.v
Protocol.v
TcpServer.v
TcpInv.v
TcpDelivery.v
TcpTheorems.v
Settlement.v
GameStoreSpec.v
MySqlDatabase.v
MySqlClient.v
MySqlGameStore.v
MySqlCalls.v
MySqlCommits.v
MySqlInv.v
MySqlSpecs.v
MySqlTheorems.v
MySqlAccountStore.v
MySqlAccounts.v
MySqlStores.v
MySqlCalm.v
MySqlRefinement.v
MySqlStoresRefinement.v
MySqlDemo.v
SodiumProvider.v
SodiumTheorems.v
RedisServer.v
HiredisNodeRegistry.v
RedisValues.v
RedisWorld.v
RedisInv.v
RedisTheorems.v
RedisDemo.v
ProtocolService.v
ProtocolInv.v
ProtocolBodies.v
ProtocolRuns.v
ProtocolTheorems.v
ProtocolDemo.v
ProtocolOutput.v
ServerStack.v
ServerMain.v
ServerMainTheorems.v
NetworkClient.v
ClientMessages.v
ClientTheorems.v
