(* ===== verification/Prelude.v ===== *)
(** * The poker server: a verification development

    The program is a multi-player no-limit hold'em server in C++
    (namespaces [poker::domain], [application], [net], [security], [storage],
    [cluster], [config], [observability] under [src/src/poker] and
    [src/include/poker], the server application under [src/apps/server] and the
    network side of the desktop client under [src/apps/client]).
    This library models its logic as executable Rocq definitions and proves the
    properties that make it correct.

    ** How the parts interact

    A frame of bytes from a client is cut out of the TCP stream by the codec,
    checked by the idempotency cache, authenticated by the authentication
    service, and turned into a task that a room of the room manager runs on its
    table, in the shard of the executor that serves the table. The table decides
    poker: seats, hands, betting, pots, showdowns with the hand evaluator on
    cards from a shuffled deck. Money enters and leaves tables through the game
    store; accounts and sessions live in the account store. Both stores exist in
    memory and on MySQL; nodes of a cluster find each other, lease tables and hand
    players over through a registry, in memory or on Redis. The server process
    gives back what an earlier run left behind, reports its health and sweeps for
    failed nodes. The desktop client numbers its commands the way the cache checks
    them.

    ** Files and the code they model

    - [Prelude]: results of C++ calls ([result], [M], total correctness [wp]),
      machine integers, sums over lists and finite maps, clockwise scans, the
      tactic [guards].
    - [Card], [Deck], [HandEvaluator]: domain/card, deck, hand_evaluator;
      [CardTheorems] their properties.
    - [Table]: every function of domain/table.hpp and table.cpp, on a record
      with the fields of the class. [TableLib], [TableInv] (well-formedness and
      the four states between calls: idle, awaiting, stalled, settled),
      [TableBetting] (one action), [TablePots] (side pots against an abstract
      specification of levels), [TableAdvance] (streets and settlement),
      [TableAct], [TableDeal], [TableStart], [TableChips] (conservation,
      rollback, termination), [TableLife] (seating, reachable tables, and that every
      call keeps the configuration) prove the method contracts; [TableTheorems]
      states the properties.
    - [AccountStore]: storage/account_store.hpp as a class of operations and a
      class of laws, in_memory_account_store.cpp as an instance of both.
    - [Auth]: security/auth_service.cpp over any store and any
      [CryptoProvider] that satisfy the laws.
    - [GameStore]: storage/game_store.hpp, game_store_validation.hpp and
      in_memory_game_store.cpp; [GameStoreLib], [GameStoreInv],
      [GameStoreTheorems] their properties.
    - [Codec]: net/length_field_codec.
    - [IdempotencyCache]: application/idempotency_cache.
    - [RoomExecutor]: application/room_executor, generic in the type of tasks.
    - [RoomManager]: application/room_manager; rooms are shared objects on an
      explicit heap, tasks are data, callbacks are numbered; [RoomTheorems] its
      properties, by induction over the interleavings of callers and workers, while
      callers promise what the manager does not check ([table_promise]).
    - [Cluster]: cluster/node_registry.hpp as a class, in_memory_node_registry,
      lobby_router, node_failure_reaper; [ClusterTheorems] and [ReaperTheorems]
      their properties over all histories of calls.
    - [ServerConfig]: config/server_config; [Metrics]: observability/metrics;
      [BlockingExecutor]: application/blocking_executor, each with its property.
    - [TokenBucket]: net/token_bucket, in IEEE doubles with their rounding.
    - [ConnectionPool]: storage/mysql_connection_pool, over a client library that
      answers arbitrarily; a handle is a number, the open ones are a set.
    - [TcpServer]: apps/server/poker_tcp_server over any service behind it
      ([SessionService]); [TcpInv] its invariant, [TcpDelivery] that answers are
      not lost, and [TcpTheorems] the properties, with a small service to compute
      runs with.
    - [Protocol]: protocol/poker.proto and the conversions at the top and the end
      of apps/server/protocol_service.cpp; [Settlement] takes a settled table
      through [handSettlement] to the check of the store.
    - [GameStoreSpec]: what clients may rely on of the two stores, which share one
      state, as a class, and the in-memory stores as an instance.
    - [MySqlDatabase] (the tables of the schema and the SQL statements),
      [MySqlClient] (the library, whose calls fail at will while other clients
      work), [MySqlGameStore] and [MySqlAccountStore]: infrastructure/
      mysql_game_store and mysql_account_store, every method. [MySqlCalls] the
      rules for a call, [MySqlCommits] what each method commits, [MySqlInv],
      [MySqlSpecs] and [MySqlAccounts] the invariants and contracts, [MySqlStores]
      both stores on one database, [MySqlTheorems] the store as a whole,
      [MySqlCalm] the runs without failures, [MySqlRefinement] and
      [MySqlStoresRefinement] the in-memory stores as specification, [MySqlDemo]
      runs computed.
    - [SodiumProvider]: infrastructure/sodium_crypto_provider over a class that
      stands for libsodium; [SodiumTheorems] puts it on top of the MySQL stores.
    - [RedisServer] (commands, replies, scripts), [HiredisNodeRegistry]:
      infrastructure/hiredis_node_registry as programs of commands;
      [RedisValues] keys and values, [RedisWorld] registries of many processes on
      one server, [RedisInv] what the server holds, [RedisTheorems] the
      properties, [RedisDemo] a server and histories.
    - [ProtocolService]: apps/server/protocol_service, the composition of all
      components. Every lambda is a constructor of a type of closures
      ([StorageTask] for the storage executor, [Continuation] for callbacks of
      rooms, [Timer]), with its captured values as arguments, and its body is the
      branch of [run_storage_task], [run_continuation] or [fire]; sessions and
      table operations, which closures share, live in heaps; what is sent,
      pushed and scheduled is logged. [service_step] runs one body at a time, in
      any order, with other nodes' use of the shared stores in between;
      [inner_step] are its steps that are not caused by the network.
    - [ProtocolInv]: the invariant that accounts for every request and table
      operation, and the rules of a small program logic for it;
      [ProtocolBodies]: a triple for every function; [ProtocolRuns]: every step
      keeps the invariant; [ProtocolTheorems]: the properties; [ProtocolDemo]: the
      in-memory components put together, and a whole session of two players
      computed from registration to leaving the table. [ProtocolOutput]: what is
      sent only gets more.
    - [ServerStack]: [PokerTcpServer] over [ProtocolService], as main.cpp builds
      them: the service keeps the laws of [SessionService].
    - [ServerMain]: apps/server/main.cpp and health_http_server;
      [ServerMainTheorems] its properties.
    - [NetworkClient] and [ClientMessages]: apps/client/network_client, every
      method and slot, as a transition system; [ClientTheorems] its properties.

    ** What the theorems show

    Table: every operation on a reachable table returns normally, refuses
    without effect or leaves a well-formed table; commands never create chips
    and conserve them while the largest commitment is held by a player in the
    hand; side pots are paid by the rules; a hand ends after finitely many
    commands; an aborted hand restores the stacks; snapshots hide cards.
    Evaluation: a five-card hand is valued by the rules of poker, and the best
    of seven is the maximum over all choices. Stores: chips are conserved over
    any calls, keys make buy-ins and cash-outs idempotent, a hand is settled
    once. Authentication: only the right password logs in, tokens live until
    refresh, logout or expiry. Codec: framing round-trips under every chunking whose
    chunks find room in the buffer, and others are refused. Rooms: every
    interleaving keeps every table reachable and answers every callback once;
    timeouts always move the game on.

    A table is reachable ([reachable], by way of [history]) if calls of its methods
    lead to it from a new table, where hands are dealt from full decks of the 52
    cards and a settled hand is not aborted when a player it paid has left and sat
    down again since. The code checks neither; the findings say what happens
    otherwise. The service keeps to both: it gives no decks, and a room it asks to
    abort a hand is not listening, so the abort does not run.
    Cluster: a join ticket is redeemed once, a table is leased to one node at a
    time, players are routed to the node that holds the lease, and a node's
    listed tables are given up only after the grace period. Service: every request is
    answered exactly once once the queues are empty, no body throws or is
    undefined (but for the blinds above), at most one storing command per table is
    under way and no table stays locked, chips change only by the grants of new
    wallets and tables keep their invariants, commands without a live
    session or with a wrong number have no effect, refunds are retried a bounded
    number of times, and a settled hand passes the check of the store exactly
    when no chips were lost. TCP server: answers and pushes go to the connections they
    are meant for, a connection has at most one user and the newest connection of a
    user wins, clients decode what was sent. Both together: a request received on a
    connection is answered on it, once, and nowhere else. MySQL: a call commits
    nothing or exactly one change, which is what the same call does in memory when
    both take it;
    the ledger balances, receipts are backed by rows, and calls succeed while
    nothing fails; with libsodium registered users are found and logged in. Redis:
    the answers are those due after the history of commands, whatever failed, so
    tickets are redeemed once and tables leased to one node. Process: start-up
    refunds the node's own tables among the first 10,000 open ones, and readiness is
    honest. Client: its numbers are the ones the server's cache waits for, until it
    drops a message. Connection pool: a connection has one
    user at a time and all come back. Token bucket: its level and what it admits.
    Configuration, metrics, storage executor: what
    each promises.

    ** Conventions, bounds and fuel

    64- and 32-bit counters wrap where the source lets them ([u64_succ]); chips
    are exact integers and [chips_in_range] and [games_conserve] bound them.
    Undefined behaviour (a null dereference, an index out of range, a signed
    overflow) is the outcome [Undef], an exception is [Throw]; the theorems show
    that reachable states produce neither, with one exception: the blinds of a table
    are doubled in signed 64 bits ([i64] in [Table.validateConfig],
    [Protocol.validConfig] and [GameStore.createTable]), and a request to open a table
    can ask for a small blind that has no double. Then the check of the request is
    undefined, and [bodies_return] names that case. Tables of the service never have
    such blinds ([blinds_fit]). Other sums of chips are on amounts that the total of
    the table bounds. Loops are structural where the source
    iterates over a container; [advance_loop] has fuel for the streets that are
    left, [reveal_rest] for the cards missing from a board of five, the decoding
    loop for the bytes in the buffer, the rejection sampler for as many words as
    are supplied; each comes with a theorem that the fuel suffices. A mutex makes
    an operation one step; where a method releases it and takes it again the
    model has one step per critical section ([ConnectionPool], [TcpServer]). In the
    service a body is one step:
    interleavings of two bodies between their calls of components are not
    modelled. A callback runs some time after its room's task instead of at its
    end, which allows more orders than the source has.

    ** Parameters

    Entropy (std::random_device, libsodium), password and token hashing, and the
    clock are inputs or class parameters with the laws clients rely on; the service's
    clock is assumed to stay below the largest timestamp minus a session's life.
    The account store and the game store of the service are one state, the
    database that main.cpp gives to both ([StoreLaws] in [GameStoreSpec]): an account is
    opened with a wallet, and only that makes chips. The MySQL stores on one
    connection are an instance ([MySqlStores.mysql_laws]), whatever fails, and so are
    the in-memory stores, whose wallets the tests seed by hand.
    The wire format of protobuf is a pair of functions ([EnvelopeCodec]).
    [CryptoReturns] excludes that hashing a password throws, which the service
    does not handle. libsodium is [Sodium] with [SodiumLaws], a Redis server
    [RedisServer] with [RedisLaws], and Qt a class of text functions and of what
    aborting a socket emits. Of MySQL the statements are modelled; [Collation],
    [SessionValues] and [HexLaws] say how the server compares texts, measures them
    and reads hexadecimal digits, and [Weather] which calls fail and what other
    clients do meanwhile; an inserted row is refused first for its values, then for
    a key it repeats, then for a row it refers to. Every class has an instance in a
    demo, so the laws can hold.

    ** Not modelled

    - Tests and fuzzing: exercise the code, no logic of their own.
    - In the modelled parts: logging, the user interface in QML and the signals
      to it, the wiring of event loops and signal handlers in the two main
      functions, times of rows that nothing reads. The bodies of the service run
      one at a time (see above).
*)
From Corelib Require Export ssreflect.
From stdpp Require Export base numbers list gmap strings sorting.

Declare Scope poker_scope.
Delimit Scope poker_scope with poker.
Global Open Scope Z_scope.
Global Open Scope general_if_scope.

(** ** Outcomes of C++ calls *)

(** The standard exceptions the sources throw, with their [what()] text. *)
Inductive exn :=
  | invalid_argument (what : string)
  | out_of_range (what : string)
  | length_error (what : string)
  | logic_error (what : string)
  | runtime_error (what : string)
  | bad_optional_access.

(** A call returns, throws, or has undefined behaviour (an out-of-range
    [operator[]], a null dereference). *)
Inductive result (A : Type) :=
  | Ok (a : A)
  | Throw (e : exn)
  | Undef.
Arguments Ok {A} a.
Arguments Throw {A} e.
Arguments Undef {A}.

#[global] Instance result_ret : MRet result := @Ok.
#[global] Instance result_bind : MBind result := λ A B f m,
  match m with
  | Ok a => f a
  | Throw e => Throw e
  | Undef => Undef
  end.
#[global] Instance result_fmap : FMap result := λ A B f m,
  match m with
  | Ok a => Ok (f a)
  | Throw e => Throw e
  | Undef => Undef
  end.

(** ** Methods that mutate an object *)

(** A method of an object of type [S]: it returns a value (or throws) and
    leaves the object in a new state, also when it throws. *)
Definition M (S A : Type) : Type := S → result A * S.

#[global] Instance M_ret {S} : MRet (M S) := λ A a s, (Ok a, s).
#[global] Instance M_bind {S} : MBind (M S) := λ A B f m s,
  match m s with
  | (Ok a, s') => f a s'
  | (Throw e, s') => (Throw e, s')
  | (Undef, s') => (Undef, s')
  end.

Definition mget {S} : M S S := λ s, (Ok s, s).
Definition mmodify {S} (f : S → S) : M S unit := λ s, (Ok tt, f s).
Definition mthrow {S A} (e : exn) : M S A := λ s, (Throw e, s).
Definition mundef {S A} : M S A := λ s, (Undef, s).
(** A call to a free function whose outcome does not touch the object. *)
Definition mlift {S A} (r : result A) : M S A := λ s, (r, s).
(** Dereference of a pointer, iterator or optional. *)
Definition mderef {S A} (o : option A) : M S A :=
  match o with Some a => mret a | None => mundef end.

(** [for (x : l) body(x)] *)
Fixpoint mfor {S A} (l : list A) (body : A → M S unit) : M S unit :=
  match l with
  | [] => mret tt
  | x :: l => body x ≫= λ _, mfor l body
  end.

(** Total correctness: the method returns normally and its result and final
    state satisfy [Q]. *)
Definition wp {S A} (m : M S A) (Q : A → S → Prop) (s : S) : Prop :=
  match m s with
  | (Ok a, s') => Q a s'
  | _ => False
  end.

Section wp_rules.
  Context {S : Type}.
  Implicit Types s : S.

Lemma wp_ret {A} (a : A) (Q : A → S → Prop) s : Q a s → wp (mret a) Q s.
Proof. done. Qed.

Lemma wp_bind {A B} (m : M S A) (f : A → M S B) Q s :
  wp m (λ a s', wp (f a) Q s') s → wp (m ≫= f) Q s.
Proof.
  rw /wp /mbind /M_bind. by destruct (m s) as [[a| |] s'].
Qed.

Lemma wp_get (Q : S → S → Prop) s : Q s s → wp mget Q s.
Proof. done. Qed.

Lemma wp_modify (f : S → S) (Q : unit → S → Prop) s :
  Q tt (f s) → wp (mmodify f) Q s.
Proof. done. Qed.

Lemma wp_deref {A} (o : option A) a (Q : A → S → Prop) s :
  o = Some a → Q a s → wp (mderef o) Q s.
Proof. by intros ->. Qed.

Lemma wp_lift {A} (r : result A) a (Q : A → S → Prop) s :
  r = Ok a → Q a s → wp (mlift r) Q s.
Proof. by intros ->. Qed.

Lemma wp_mono {A} (m : M S A) (Q Q' : A → S → Prop) s :
  (∀ a s', Q a s' → Q' a s') → wp m Q s → wp m Q' s.
Proof. rw /wp. destruct (m s) as [[a| |] s']; naive_solver. Qed.

Lemma wp_inv {A} (m : M S A) (Q : A → S → Prop) s :
  wp m Q s → ∃ a s', m s = (Ok a, s') ∧ Q a s'.
Proof. rw /wp. destruct (m s) as [[a| |] s']; naive_solver. Qed.

Lemma wp_result {A} (m : M S A) (Q : A → S → Prop) s a s' :
  wp m Q s → m s = (Ok a, s') → Q a s'.
Proof. rw /wp. intros Hm Heq. by rw Heq in Hm. Qed.

(** Loop rule: an invariant over the processed prefix. *)
Lemma wp_for {A} (body : A → M S unit) (I : list A → S → Prop) l :
  (∀ done x s, done ++ [x] `prefix_of` l → I done s →
     wp (body x) (λ _ s', I (done ++ [x]) s') s) →
  ∀ s, I [] s → wp (mfor l body) (λ _ s', I l s') s.
Proof.
  intros Hbody.
  cut (∀ rest done s, done ++ rest = l → I done s →
         wp (mfor rest body) (λ _ s', I l s') s).
  { intros H s Hs. by apply (H l []). }
  induction rest as [|x rest IH]; intros done s Heq HI; simpl.
  { apply wp_ret. by rw -Heq app_nil_r. }
  apply wp_bind. eapply wp_mono, (Hbody done).
  - intros [] s' Hs'. apply (IH (done ++ [x])); last done.
    by rw -app_assoc.
  - exists rest. by rw -app_assoc -Heq.
  - done.
Qed.

(** The same, or the method is undefined and [U] is why. *)
Definition wp_unless {A} (U : Prop) (m : M S A) (Q : A → S → Prop) (s : S) : Prop :=
  wp m Q s ∨ ((m s).1 = Undef ∧ U).

Lemma wp_unless_wp {A} U (m : M S A) Q s : wp m Q s → wp_unless U m Q s.
Proof. by left. Qed.

Lemma wp_unless_bind {A B} U (m : M S A) (f : A → M S B) Q s :
  wp m (λ a s', wp_unless U (f a) Q s') s → wp_unless U (m ≫= f) Q s.
Proof.
  intros (a & s' & Heq & Hf)%wp_inv. by rw /wp_unless /wp /mbind /M_bind Heq.
Qed.

Lemma wp_unless_then {A B} U (m : M S A) (f : A → M S B) Q s :
  wp_unless U m (λ a s', wp (f a) Q s') s → wp_unless U (m ≫= f) Q s.
Proof.
  intros [Hm|[Hu HU]]; [left; by apply wp_bind|right]. split; [|done]. revert Hu.
  rw /mbind /M_bind. by destruct (m s) as [[a|e|] s'].
Qed.

Lemma wp_unless_mono {A} U (m : M S A) (Q Q' : A → S → Prop) s :
  (∀ a s', Q a s' → Q' a s') → wp_unless U m Q s → wp_unless U m Q' s.
Proof. intros HQ [Hm|Hu]; [left; by eapply wp_mono|by right]. Qed.

Lemma wp_unless_result {A} U (m : M S A) (Q : A → S → Prop) s a s' :
  wp_unless U m Q s → m s = (Ok a, s') → Q a s'.
Proof. intros [Hm|[Hu _]] Heq; [by eapply wp_result|by rw Heq in Hu]. Qed.
End wp_rules.

(** ** Machine integers *)

Definition u8 (x : Z) : Z := x `mod` 2 ^ 8.
Definition u32 (x : Z) : Z := x `mod` 2 ^ 32.
Definition u64 (x : Z) : Z := x `mod` 2 ^ 64.
Definition u64_max : Z := 2 ^ 64 - 1.
Definition u32_max : Z := 2 ^ 32 - 1.
Definition i64_max : Z := 2 ^ 63 - 1.
Definition i64_min : Z := - 2 ^ 63.
Definition fits_i64 (x : Z) : Prop := i64_min ≤ x ≤ i64_max.
(** The result of an operation on signed 64-bit numbers; an overflow is undefined. *)
Definition i64 (x : Z) : result Z := if (i64_min <=? x) && (x <=? i64_max) then Ok x else Undef.
Definition fits_u64 (x : Z) : Prop := 0 ≤ x ≤ u64_max.
(** [++x] on a [std::uint64_t]. *)
Definition u64_succ (x : Z) : Z := u64 (x + 1).

Lemma u64_small x : fits_u64 x → u64 x = x.
Proof. rw /fits_u64 /u64_max /u64. intros. apply Z.mod_small. lia. Qed.

Lemma u64_range x : fits_u64 (u64 x).
Proof.
  rw /fits_u64 /u64 /u64_max. pose proof (Z.mod_pos_bound x (2 ^ 64)). lia.
Qed.

Lemma u8_small x : 0 ≤ x < 256 → u8 x = x.
Proof. intros. apply Z.mod_small. lia. Qed.

(** ** Lists *)

(** Sum of a measure over a list. *)
Definition sumZ {A} (f : A → Z) (l : list A) : Z := foldr (λ x acc, f x + acc) 0 l.

Section sumZ_lemmas.
  Context {A : Type}.
  Implicit Types (f g : A → Z) (l : list A).

Lemma sumZ_app f l1 l2 : sumZ f (l1 ++ l2) = sumZ f l1 + sumZ f l2.
Proof. induction l1 as [|x l1 IH]; simpl; lia. Qed.

Lemma sumZ_insert f l i x y :
  l !! i = Some x → sumZ f (<[i:=y]> l) = sumZ f l - f x + f y.
Proof.
  revert i. induction l as [|z l IH]; intros [|i] Hi; simplify_eq/=; [lia|].
  rw (IH i) //. lia.
Qed.

Lemma sumZ_ext f g l : (∀ x, x ∈ l → f x = g x) → sumZ f l = sumZ g l.
Proof.
  induction l as [|x l IH]; intros H; simpl; [done|].
  f_equal; [apply H; left|apply IH; intros y Hy; apply H; by right].
Qed.

Lemma sumZ_nonneg f l : (∀ x, x ∈ l → 0 ≤ f x) → 0 ≤ sumZ f l.
Proof.
  induction l as [|x l IH]; intros H; simpl; [done|].
  assert (0 ≤ f x) by (apply H; left).
  assert (0 ≤ sumZ f l) by (apply IH; intros; apply H; by right). lia.
Qed.

Lemma sumZ_elem_le f l x :
  (∀ y, y ∈ l → 0 ≤ f y) → x ∈ l → f x ≤ sumZ f l.
Proof.
  induction l as [|z l IH]; intros H Hx; [by apply not_elem_of_nil in Hx|].
  assert (0 ≤ f z) by (apply H; left).
  assert (∀ y, y ∈ l → 0 ≤ f y) as Hl by (intros; apply H; by right).
  pose proof (sumZ_nonneg f l Hl). simpl.
  apply elem_of_cons in Hx as [->|Hx]; [lia|]. specialize (IH Hl Hx). lia.
Qed.

Lemma sumZ_add f g l : sumZ (λ x, f x + g x) l = sumZ f l + sumZ g l.
Proof. induction l as [|x l IH]; simpl; lia. Qed.

Lemma sumZ_le f g l : (∀ x, x ∈ l → f x ≤ g x) → sumZ f l ≤ sumZ g l.
Proof.
  induction l as [|x l IH]; intros H; simpl; [done|].
  assert (f x ≤ g x) by (apply H; left).
  assert (sumZ f l ≤ sumZ g l) by (apply IH; intros; apply H; by right). lia.
Qed.

Lemma sumZ_fmap {B} f (h : B → A) (l : list B) : sumZ f (h <$> l) = sumZ (f ∘ h) l.
Proof. induction l as [|x l IH]; simpl; [done|]. by rw IH. Qed.

#[export] Instance sumZ_Permutation f : Proper ((≡ₚ) ==> (=)) (sumZ f).
Proof. induction 1; simpl; lia. Qed.
End sumZ_lemmas.

(** [std::swap(l[i], l[j])] *)
Definition list_swap {A} (i j : nat) (l : list A) : option (list A) :=
  a ← l !! i; b ← l !! j; Some (<[i:=b]> (<[j:=a]> l)).

Lemma insert_cons_Permutation {A} (l : list A) i a x :
  l !! i = Some a → x :: l ≡ₚ a :: <[i:=x]> l.
Proof.
  revert i. induction l as [|y l IH]; intros [|i] Hi; simplify_eq/=.
  - by constructor.
  - rw Permutation_swap. rw (IH i) //. by rw Permutation_swap.
Qed.

Lemma list_swap_Permutation {A} i j (l l' : list A) :
  list_swap i j l = Some l' → l' ≡ₚ l.
Proof.
  rw /list_swap. destruct (l !! i) as [a|] eqn:Hi; simpl; [|done].
  destruct (l !! j) as [b|] eqn:Hj; simpl; intros [= <-].
  symmetry. apply (Permutation_cons_inv (a:=a)).
  rw (insert_cons_Permutation l j b a) //.
  apply insert_cons_Permutation. rw list_lookup_insert.
  case_decide; naive_solver.
Qed.

Lemma list_swap_is_Some {A} i j (l : list A) :
  (i < length l)%nat → (j < length l)%nat → is_Some (list_swap i j l).
Proof.
  intros [a Ha]%lookup_lt_is_Some [b Hb]%lookup_lt_is_Some.
  rw /list_swap Ha /= Hb /=. by eexists.
Qed.

(** The first index that satisfies [ok] among [(from + 1) % n], ...,
    [(from + n) % n]: the sources' seat loops. *)
Definition scan_clockwise (n from : nat) (ok : nat → bool) : option nat :=
  List.find ok ((λ offset, (from + offset) `mod` n)%nat <$> seq 1 n).

Lemma scan_clockwise_Some n from ok i :
  scan_clockwise n from ok = Some i → (i < n)%nat ∧ ok i = true.
Proof.
  intros [Hin Hok]%find_some. split; [|done].
  apply list_elem_of_In, list_elem_of_fmap in Hin as (o & -> & Ho).
  apply elem_of_seq in Ho. apply Nat.mod_upper_bound. lia.
Qed.

Lemma scan_clockwise_None n from ok :
  scan_clockwise n from ok = None → ∀ i, (i < n)%nat → ok i = false.
Proof.
  intros H i Hi. apply (find_none _ _ H), list_elem_of_In, list_elem_of_fmap.
  assert (n ≠ 0%nat) as Hn by lia.
  set (f := (from `mod` n)%nat). assert (f < n)%nat by by apply Nat.mod_upper_bound.
  exists (if (i <=? f)%nat then n - f + i else i - f)%nat.
  rw elem_of_seq.
  rw Nat.Div0.add_mod -/f. destruct (Nat.leb_spec i f); split; try lia.
  - destruct (decide (i = f)) as [->|].
    + replace (n - f + f)%nat with n by lia. rw Nat.Div0.mod_same Nat.add_0_r.
      rw Nat.mod_small; lia.
    + rw (Nat.mod_small (n - f + i)); [lia|].
      replace (f + (n - f + i))%nat with (i + 1 * n)%nat by lia.
      rw Nat.Div0.mod_add Nat.mod_small; lia.
  - rw (Nat.mod_small (i - f)); [lia|]. rw Nat.mod_small; lia.
Qed.

(** The index found is the closest one: no admissible index lies strictly
    between. *)
Lemma scan_clockwise_first n from ok i :
  scan_clockwise n from ok = Some i →
  ∃ d, (1 ≤ d ≤ n)%nat ∧ i = ((from + d) `mod` n)%nat ∧
    ∀ e, (1 ≤ e < d)%nat → ok ((from + e) `mod` n)%nat = false.
Proof.
  rw /scan_clockwise. intros Hf.
  cut (∀ s k, List.find ok ((λ o, (from + o) `mod` n)%nat <$> seq s k) = Some i →
    ∃ d, (s ≤ d < s + k)%nat ∧ i = ((from + d) `mod` n)%nat ∧
      ∀ e, (s ≤ e < d)%nat → ok ((from + e) `mod` n)%nat = false).
  { intros H. destruct (H _ _ Hf) as (d & ? & ? & ?). exists d. split_and!; [lia..|done|done]. }
  clear Hf. intros s k. revert s. induction k as [|k IH]; intros s; simpl; [done|].
  destruct (ok ((from + s) `mod` n)%nat) eqn:Hok.
  - intros [= <-]. exists s. split_and!; [lia..|done|]. intros e ?. lia.
  - intros (d & ? & ? & Hd)%IH. exists d. split_and!; [lia..|done|].
    intros e ?. destruct (decide (e = s)) as [->|]; [done|]. apply Hd. lia.
Qed.

(** ** Sums over finite maps *)

(** Sum of a measure over the values of a finite map. *)
Definition sumM `{MapFold K A MA} (f : A → Z) (m : MA) : Z :=
  sumZ (λ e, f e.2) (map_to_list m).

Section sumM_lemmas.
  Context `{Countable K} {A : Type}.
  Implicit Types (f : A → Z) (m : gmap K A).

Lemma sumM_empty f : sumM f (∅ : gmap K A) = 0.
Proof. by rw /sumM map_to_list_empty. Qed.

Lemma sumM_insert_new f m i x : m !! i = None → sumM f (<[i:=x]> m) = f x + sumM f m.
Proof. intros Hi. rw /sumM. by rw (map_to_list_insert m i x Hi). Qed.

Lemma sumM_delete f m i x : m !! i = Some x → sumM f m = f x + sumM f (delete i m).
Proof. intros Hi. rw /sumM. by rw -(map_to_list_delete m i x Hi). Qed.

Lemma sumM_insert_old f m i x y :
  m !! i = Some x → sumM f (<[i:=y]> m) = sumM f m - f x + f y.
Proof.
  intros Hi. rw (sumM_delete f m i x Hi).
  rw -(insert_delete_eq m i y) sumM_insert_new ?lookup_delete_eq //. lia.
Qed.

Lemma sumM_nonneg f m : (∀ i x, m !! i = Some x → 0 ≤ f x) → 0 ≤ sumM f m.
Proof.
  intros Hm. apply sumZ_nonneg. intros [i x] Hx%elem_of_map_to_list. by apply (Hm i).
Qed.

Lemma sumM_lookup_le f m i x :
  (∀ j y, m !! j = Some y → 0 ≤ f y) → m !! i = Some x → f x ≤ sumM f m.
Proof.
  intros Hm Hi. apply (sumZ_elem_le (λ e, f e.2) _ (i, x)); [|by apply elem_of_map_to_list].
  intros [j y] Hy%elem_of_map_to_list. by apply (Hm j).
Qed.
End sumM_lemmas.

(** A standing hypothesis that a boolean guard built with [||] did not fire. *)
Ltac guards :=
  repeat match goal with
  | H : _ || _ = false |- _ => apply orb_false_iff in H as [? ?]
  | H : negb _ = false |- _ => apply negb_false_iff in H
  | H : negb _ = true |- _ => apply negb_true_iff in H
  | H : _ && _ = true |- _ => apply andb_true_iff in H as [? ?]
  | H : bool_decide _ = true |- _ => apply bool_decide_eq_true in H
  | H : bool_decide _ = false |- _ => apply bool_decide_eq_false in H
  | H : (_ =? _)%Z = true |- _ => apply Z.eqb_eq in H
  | H : (_ =? _)%Z = false |- _ => apply Z.eqb_neq in H
  | H : (_ <? _)%Z = true |- _ => apply Z.ltb_lt in H
  | H : (_ <? _)%Z = false |- _ => apply Z.ltb_ge in H
  | H : (_ <=? _)%Z = true |- _ => apply Z.leb_le in H
  | H : (_ <=? _)%Z = false |- _ => apply Z.leb_gt in H
  | H : (_ =? _)%nat = true |- _ => apply Nat.eqb_eq in H
  | H : (_ =? _)%nat = false |- _ => apply Nat.eqb_neq in H
  | H : (_ <? _)%nat = true |- _ => apply Nat.ltb_lt in H
  | H : (_ <? _)%nat = false |- _ => apply Nat.ltb_ge in H
  | H : (_ <=? _)%nat = true |- _ => apply Nat.leb_le in H
  | H : (_ <=? _)%nat = false |- _ => apply Nat.leb_gt in H
  end.

(** Guards of the source that do not hold, one after the other; [pass_guard] takes
    the other branch. *)
Ltac guard_false :=
  repeat (apply orb_false_iff; split);
  first [done | apply Z.eqb_neq; lia | apply Z.leb_gt; lia | apply Z.ltb_ge; lia | apply Nat.ltb_ge; lia
        | apply Nat.leb_gt; lia | apply bool_decide_eq_false_2; done
        | apply bool_decide_eq_false_2; intros [? ?]; congruence ].

Ltac pass_guard :=
  match goal with
  | |- context [if ?c then _ else _] =>
      let Hc := fresh in assert (c = false) as Hc by guard_false; rewrite Hc; clear Hc
  end.
