(* ===== verification/Card.v ===== *)
(** * Cards

    Model of [include/poker/domain/card.hpp] and [src/poker/domain/card.cpp].
    [Suit] and [Rank] are scoped enumerations over [std::uint8_t]: an object
    of such a type may hold any 8-bit value, and the sources do test for
    values outside the enumerators, so both are 8-bit integers here and
    [valid_card] says that both fields are enumerators. *)
From S2P Require Import Prelude.

Notation Suit := Z (only parsing).
Definition clubs : Suit := 0.
Definition diamonds : Suit := 1.
Definition hearts : Suit := 2.
Definition spades : Suit := 3.

Notation Rank := Z (only parsing).
Definition two : Rank := 2.
Definition three : Rank := 3.
Definition four : Rank := 4.
Definition five : Rank := 5.
Definition six : Rank := 6.
Definition seven : Rank := 7.
Definition eight : Rank := 8.
Definition nine : Rank := 9.
Definition ten : Rank := 10.
Definition jack : Rank := 11.
Definition queen : Rank := 12.
Definition king : Rank := 13.
Definition ace : Rank := 14.

Record Card := mkCard { rank : Rank; suit : Suit }.

#[export] Instance Card_eq_dec : EqDecision Card.
Proof. solve_decision. Defined.

(** [operator==] *)
Definition Card_eqb (lhs rhs : Card) : bool :=
  (rank lhs =? rank rhs) && (suit lhs =? suit rhs).

Definition rankValue (r : Rank) : Z := r.

Definition cardIndex (card : Card) : Z :=
  u8 (suit card * 13 + rankValue (rank card) - 2).

Definition orderedDeck : list Card :=
  s ← seqZ 0 4; r ← seqZ 2 13; [mkCard r s].

Definition rank_names : list string :=
  [""; ""; "2"; "3"; "4"; "5"; "6"; "7"; "8"; "9"; "T"; "J"; "Q"; "K"; "A"]%string.
Definition suit_names : list string := ["c"; "d"; "h"; "s"]%string.

(** [toString(Card)]; an index outside a name table would be undefined
    behaviour, which the guard excludes. *)
Definition Card_toString (card : Card) : result string :=
  let r := rankValue (rank card) in
  let s := suit card in
  if (r <? 2) || (r >? 14) || (s >? 3) then Throw (invalid_argument "invalid card")
  else
    match rank_names !! Z.to_nat r, suit_names !! Z.to_nat s with
    | Some rn, Some sn => Ok (rn +:+ sn)
    | _, _ => Undef
    end.

(** Both fields hold enumerators. *)
Definition valid_card (card : Card) : Prop :=
  2 ≤ rank card ≤ 14 ∧ 0 ≤ suit card ≤ 3.

(** Both fields hold values of the underlying type. *)
Definition u8_card (card : Card) : Prop :=
  0 ≤ rank card < 256 ∧ 0 ≤ suit card < 256.

#[export] Instance valid_card_dec card : Decision (valid_card card).
Proof. rw /valid_card. apply _. Defined.

(** The duplicate test that [Deck::Deck], [evaluateFive] and [evaluateBest]
    share: [seen] is a [std::array<bool, 52>]; [None] is their [throw]. *)
Definition mark_seen (seen : list bool) (card : Card) : option (list bool) :=
  let index := cardIndex card in
  if 52 <=? index then None
  else match seen !! Z.to_nat index with
       | Some false => Some (<[Z.to_nat index := true]> seen)
       | _ => None
       end.

Fixpoint mark_all (seen : list bool) (cards : list Card) : option (list bool) :=
  match cards with
  | [] => Some seen
  | card :: cards => seen' ← mark_seen seen card; mark_all seen' cards
  end.

Definition no_cards_seen : list bool := replicate 52 false.

(** The loop does not throw. *)
Definition all_distinct (cards : list Card) : bool :=
  match mark_all no_cards_seen cards with Some _ => true | None => false end.

(** ** Facts *)

Lemma Card_eqb_spec c d : Card_eqb c d = true ↔ c = d.
Proof.
  destruct c, d. rw /Card_eqb /= andb_true_iff !Z.eqb_eq.
  split; [intros [-> ->]|intros [= -> ->]]; done.
Qed.

Lemma cardIndex_valid c :
  valid_card c → cardIndex c = suit c * 13 + rank c - 2.
Proof. intros [??]. rw /cardIndex u8_small /rankValue; lia. Qed.

Lemma cardIndex_range c : 0 ≤ cardIndex c < 256.
Proof. apply Z.mod_pos_bound. lia. Qed.

Lemma cardIndex_valid_lt c : valid_card c → 0 ≤ cardIndex c < 52.
Proof. intros Hc. rw cardIndex_valid //. destruct Hc. lia. Qed.

Lemma cardIndex_inj c d :
  valid_card c → valid_card d → cardIndex c = cardIndex d → c = d.
Proof.
  intros Hc Hd. rw !cardIndex_valid //.
  destruct c as [r s], d as [r' s'], Hc, Hd; simpl in *.
  intros. assert (s = s') by lia. f_equal; lia.
Qed.

Lemma orderedDeck_spec c : c ∈ orderedDeck ↔ valid_card c.
Proof.
  rw /orderedDeck list_elem_of_bind. split.
  - intros (s & [r [Hc Hr]]%list_elem_of_bind & Hs).
    apply list_elem_of_singleton in Hc as ->.
    apply elem_of_seqZ in Hr, Hs. split; simpl; lia.
  - intros [??]. exists (suit c). rw list_elem_of_bind elem_of_seqZ.
    split; [|lia]. exists (rank c). rw elem_of_seqZ. split; [|lia].
    destruct c. by apply list_elem_of_singleton.
Qed.

Lemma orderedDeck_NoDup : NoDup orderedDeck.
Proof. apply (bool_decide_unpack _). by vm_compute. Qed.

Lemma orderedDeck_length : length orderedDeck = 52%nat.
Proof. done. Qed.

(** The cards already marked in [seen]. *)
Definition marked (seen : list bool) (i : Z) : Prop := seen !! Z.to_nat i = Some true.

Lemma mark_seen_Some seen c seen' :
  length seen = 52%nat →
  mark_seen seen c = Some seen' ↔
  cardIndex c < 52 ∧ ¬ marked seen (cardIndex c) ∧
  seen' = <[Z.to_nat (cardIndex c) := true]> seen.
Proof.
  intros Hlen. rw /mark_seen /marked. pose proof (cardIndex_range c).
  destruct (Z.leb_spec 52 (cardIndex c)); [naive_solver lia|].
  destruct (lookup_lt_is_Some_2 seen (Z.to_nat (cardIndex c))) as [b Hb]; [lia|].
  rw Hb. destruct b; naive_solver.
Qed.

Lemma mark_all_spec seen cards :
  length seen = 52%nat →
  is_Some (mark_all seen cards) ↔
  (∀ c, c ∈ cards → cardIndex c < 52 ∧ ¬ marked seen (cardIndex c)) ∧
  NoDup (cardIndex <$> cards).
Proof.
  revert seen. induction cards as [|c cards IH]; intros seen Hlen; simpl.
  { split; [|by eauto]. intros _. split; [|constructor]. set_solver. }
  rw NoDup_cons. pose proof (cardIndex_range c) as Hr.
  destruct (mark_seen seen c) as [seen'|] eqn:Hm; simpl.
  - apply mark_seen_Some in Hm as (Hlt & Hnm & ->); [|done].
    rw IH; [by rw length_insert|].
    assert (∀ d, marked (<[Z.to_nat (cardIndex c):=true]> seen) (cardIndex d) ↔
                 cardIndex d = cardIndex c ∨ marked seen (cardIndex d)) as Hmk.
    { intros d. pose proof (cardIndex_range d). rw /marked list_lookup_insert.
      case_decide as Hd; [naive_solver lia|].
      assert (cardIndex d ≠ cardIndex c) by (intros E; rw E in Hd; lia).
      naive_solver. }
    setoid_rewrite Hmk. setoid_rewrite elem_of_cons.
    setoid_rewrite list_elem_of_fmap. split; intros [H1 H2]; split_and!; naive_solver.
  - split; [by intros []|]. intros [H1 _]. exfalso.
    destruct (H1 c) as [??]; [left|].
    assert (is_Some (mark_seen seen c)) as [? ?]; [|congruence].
    eexists. apply mark_seen_Some; eauto.
Qed.

(** On enumerator-valued cards the duplicate test is exactly distinctness. *)
Lemma all_distinct_spec cards :
  Forall valid_card cards → all_distinct cards = true ↔ NoDup cards.
Proof.
  intros Hv. rw Forall_forall in Hv. rw /all_distinct.
  transitivity (is_Some (mark_all no_cards_seen cards)).
  { destruct (mark_all _ _); rw is_Some_alt; naive_solver. }
  rw mark_all_spec //. split.
  - intros [_ Hnd]. exact (NoDup_fmap_1 _ _ Hnd).
  - intros Hnd. split.
    + intros c Hc. pose proof (cardIndex_valid_lt c (Hv c Hc)). split; [lia|].
      rw /marked lookup_replicate. naive_solver.
    + apply NoDup_fmap_2_strong; [|done]. intros c d Hc Hd. apply cardIndex_inj; auto.
Qed.
