(* ===== verification/Deck.v ===== *)
(** * Random sources and the deck

    Model of [include/poker/domain/deck.hpp] and [src/poker/domain/deck.cpp]:
    the [RandomSource] interface with its two implementations, and [Deck],
    whose shuffling constructor is a client of the interface only. *)
From S2P Require Import Prelude Card.

(** ** The interface *)

(** [RandomSource::uniform] *)
Class RandomSource (R : Type) := {
  uniform : Z → M R Z;
}.

(** What a client may rely on: for a positive 64-bit bound the call returns a
    value below it. *)
Class RandomSourceLaws (R : Type) `{!RandomSource R} := {
  random_inv : R → Prop;
  uniform_spec : ∀ r bound,
    random_inv r → 0 < bound ≤ u64_max →
    wp (uniform bound) (λ v r', 0 ≤ v < bound ∧ random_inv r') r;
}.

Definition zero_bound : exn := invalid_argument "random upper bound must be positive".

(** ** [DeterministicRandomSource]: xorshift64* *)

Record DeterministicRandomSource := mkDeterministic { state_ : Z }.

Definition DeterministicRandomSource_new (seed : Z) : DeterministicRandomSource :=
  mkDeterministic (if seed =? 0 then 0x9e3779b97f4a7c15 else seed).

Definition xorshift (s : Z) : Z :=
  let s := Z.lxor s (Z.shiftr s 12) in
  let s := Z.lxor s (u64 (Z.shiftl s 25)) in
  Z.lxor s (Z.shiftr s 27).

Definition deterministic_uniform (exclusive_upper_bound : Z) : M DeterministicRandomSource Z :=
  if exclusive_upper_bound =? 0 then mthrow zero_bound
  else
    r ← mget;
    let s := xorshift (state_ r) in
    mmodify (λ _, mkDeterministic s) ;;
    mret (u64 (s * 2685821657736338717) `mod` exclusive_upper_bound).

#[export] Instance deterministic_source : RandomSource DeterministicRandomSource :=
  { uniform := deterministic_uniform }.

(** ** [SystemRandomSource]: rejection sampling *)

(** [limit = maximum - (maximum % exclusive_upper_bound)] *)
Definition rejection_limit (exclusive_upper_bound : Z) : Z :=
  u64_max - u64_max `mod` exclusive_upper_bound.

(** The [do ... while (value >= limit)] loop over the 64-bit values the
    entropy source delivers; [None] when the list ends before a value is
    accepted. *)
Fixpoint reject_loop (limit : Z) (values : list Z) : option (Z * list Z) :=
  match values with
  | [] => None
  | value :: values =>
      if limit <=? value then reject_loop limit values else Some (value, values)
  end.

(** [(device() << 32) ^ device()] on two 32-bit outputs. *)
Definition device_value (high low : Z) : Z := Z.lxor (u64 (Z.shiftl high 32)) low.

(** The build without libsodium. The state lists the outputs
    [std::random_device] will deliver, in pairs. *)
Definition system_uniform (exclusive_upper_bound : Z) (device : list (Z * Z))
    : result (option (Z * list Z)) :=
  if exclusive_upper_bound =? 0 then Throw zero_bound
  else
    match reject_loop (rejection_limit exclusive_upper_bound)
            ((λ p, device_value p.1 p.2) <$> device) with
    | None => Ok None
    | Some (value, rest) => Ok (Some (value `mod` exclusive_upper_bound, rest))
    end.

(** The libsodium build: [small] is the answer of [randombytes_uniform] and
    [large] the values [randombytes_buf] fills in, both external. *)
Definition sodium_uniform (exclusive_upper_bound : Z)
    (small : Z) (large : list Z) : result (option (Z * list Z)) :=
  if exclusive_upper_bound =? 0 then Throw zero_bound
  else if exclusive_upper_bound <=? u32_max then Ok (Some (small, large))
  else
    match reject_loop (rejection_limit exclusive_upper_bound) large with
    | None => Ok None
    | Some (value, rest) => Ok (Some (value `mod` exclusive_upper_bound, rest))
    end.

(** ** [Deck] *)

Record Deck := mkDeck { cards_ : list Card; next_ : nat }.

(** The Fisher-Yates loop [for (index = size; index > 1; --index)];
    [std::swap] with an index past the end is undefined. *)
Fixpoint shuffle `{!RandomSource R} (index : nat) (cards : list Card) : M R (list Card) :=
  match index with
  | S (S _ as index') =>
      chosen ← uniform (Z.of_nat index);
      cards ← mderef (list_swap index' (Z.to_nat chosen) cards);
      shuffle index' cards
  | _ => mret cards
  end.

(** [Deck::Deck(RandomSource&)] *)
Definition Deck_random `{!RandomSource R} : M R Deck :=
  cards ← shuffle (length orderedDeck) orderedDeck;
  mret (mkDeck cards 0).

(** [Deck::Deck(std::vector<Card>)] *)
Definition Deck_of_cards (cards : list Card) : result Deck :=
  if negb (length cards =? 52)%nat then
    Throw (invalid_argument "a poker deck must contain 52 cards")
  else if all_distinct cards then Ok (mkDeck cards 0)
  else Throw (invalid_argument "deck contains an invalid or duplicate card").

Definition draw : M Deck Card :=
  d ← mget;
  match cards_ d !! next_ d with
  | None => mthrow (out_of_range "deck is empty")
  | Some card => mmodify (λ d, mkDeck (cards_ d) (S (next_ d))) ;; mret card
  end.

Definition burn : M Deck unit := draw ;; mret tt.

Definition remaining (d : Deck) : nat := length (cards_ d) - next_ d.

(** ** Facts about the sources *)

Lemma xorshift_right_nonzero s k : 0 < s → 0 < k → Z.lxor s (Z.shiftr s k) ≠ 0.
Proof.
  intros Hs Hk Hx. apply Z.lxor_eq in Hx.
  rw Z.shiftr_div_pow2 in Hx; [lia|]. revert Hx.
  assert (1 < 2 ^ k) by (apply Z.pow_gt_1; lia).
  pose proof (Z.div_lt s (2 ^ k)). lia.
Qed.

Lemma xorshift_left_nonzero s :
  0 < s < 2 ^ 64 → Z.lxor s (u64 (Z.shiftl s 25)) ≠ 0.
Proof.
  intros Hs Hx. apply Z.lxor_eq in Hx. rw Z.shiftl_mul_pow2 in Hx; [lia|].
  assert ((2 ^ 64 | (2 ^ 25 - 1) * s)) as Hd.
  { exists (s * 2 ^ 25 / 2 ^ 64). rw /u64 in Hx.
    pose proof (Z.div_mod (s * 2 ^ 25) (2 ^ 64)). lia. }
  apply Z.gauss in Hd; [|done]. apply Z.divide_pos_le in Hd; lia.
Qed.

Lemma lxor_u64 a b : fits_u64 a → fits_u64 b → fits_u64 (Z.lxor a b).
Proof.
  rw /fits_u64 /u64_max. intros Ha Hb.
  assert (0 ≤ Z.lxor a b) by (apply Z.lxor_nonneg; lia). split; [done|].
  destruct (decide (Z.lxor a b = 0)) as [->|]; [lia|].
  assert (Z.lxor a b < 2 ^ 64); [|lia]. apply Z.log2_lt_pow2; [lia|].
  pose proof (Z.log2_lxor a b). pose proof (Z.log2_le_mono a u64_max).
  pose proof (Z.log2_le_mono b u64_max). rw /u64_max in H1 H2.
  change (Z.log2 (2 ^ 64 - 1)) with 63 in *. lia.
Qed.

Lemma shiftr_u64 a k : 0 ≤ k → fits_u64 a → fits_u64 (Z.shiftr a k).
Proof.
  rw /fits_u64. intros Hk Ha. rw Z.shiftr_div_pow2 //.
  assert (0 < 2 ^ k) by (apply Z.pow_pos_nonneg; lia).
  pose proof (Z.div_pos a (2 ^ k)). pose proof (Z.div_le_upper_bound a (2 ^ k) a). nia.
Qed.

(** The generator never falls into the all-zero state it could not leave. *)
Lemma xorshift_nonzero s : 0 < s ≤ u64_max → 0 < xorshift s ≤ u64_max.
Proof.
  intros Hs. rw /xorshift.
  set (s1 := Z.lxor s (Z.shiftr s 12)).
  assert (fits_u64 s1) as H1 by (apply lxor_u64; [|apply shiftr_u64]; rw /fits_u64; lia).
  assert (s1 ≠ 0) as N1 by (apply xorshift_right_nonzero; lia).
  set (s2 := Z.lxor s1 _).
  assert (fits_u64 s2) as H2 by (apply lxor_u64; [done|apply u64_range]).
  rw /fits_u64 /u64_max in H1 H2.
  assert (s2 ≠ 0) as N2 by (apply xorshift_left_nonzero; lia).
  assert (fits_u64 (Z.lxor s2 (Z.shiftr s2 27))) as H3
    by (apply lxor_u64; [|apply shiftr_u64]; rw /fits_u64 /u64_max; lia).
  pose proof (xorshift_right_nonzero s2 27). rw /fits_u64 in H3. lia.
Qed.

#[export] Instance deterministic_laws : RandomSourceLaws DeterministicRandomSource.
Proof.
  refine {| random_inv r := 0 < state_ r ≤ u64_max |}.
  intros [s] bound Hs Hb. simpl. rw /deterministic_uniform.
  destruct (Z.eqb_spec bound 0); [lia|].
  rw /wp /=. split; [apply Z.mod_pos_bound; lia|]. by apply xorshift_nonzero.
Defined.

Lemma reject_loop_Some limit values v rest :
  reject_loop limit values = Some (v, rest) → v < limit ∧ v ∈ values.
Proof.
  induction values as [|x values IH]; simpl; [done|].
  destruct (Z.leb_spec limit x); intros Hr; simplify_eq.
  - destruct (IH Hr). split; [done|by right].
  - split; [lia|left].
Qed.

Lemma reject_loop_is_Some limit values v :
  v ∈ values → v < limit → is_Some (reject_loop limit values).
Proof.
  induction values as [|x values IH]; [by intros ?%not_elem_of_nil|].
  intros [->|Hv]%elem_of_cons Hlt; simpl.
  - destruct (Z.leb_spec limit x); [lia|by eauto].
  - destruct (Z.leb_spec limit x); by eauto.
Qed.

(** The limit is a multiple of the bound and no more than one bound below
    the maximum, so accepted values are free of modulo bias. *)
Lemma rejection_limit_spec b :
  0 < b ≤ u64_max →
  rejection_limit b `mod` b = 0 ∧ u64_max - b < rejection_limit b ≤ u64_max.
Proof.
  intros Hb. rw /rejection_limit. pose proof (Z.mod_pos_bound u64_max b).
  split; [|lia]. replace (u64_max - u64_max `mod` b) with (u64_max `div` b * b).
  { apply Z.mod_mul. lia. }
  pose proof (Z.div_mod u64_max b). lia.
Qed.

(** ** Facts about the deck *)

Section shuffle.
  Context `{!RandomSource R, !RandomSourceLaws R}.

Lemma shuffle_spec index cards r :
  (index ≤ length cards)%nat → Z.of_nat index ≤ u64_max → random_inv r →
  wp (shuffle index cards) (λ cards' r', cards' ≡ₚ cards ∧ random_inv r') r.
Proof.
  revert cards r. induction index as [|index IH]; intros cards r Hlen Hmax Hr; [by split|].
  destruct index as [|index]; [by split|]. apply wp_bind.
  eapply wp_mono, uniform_spec; [|exact Hr|lia]. intros v r' [Hv Hr']. simpl.
  destruct (list_swap_is_Some (S index) (Z.to_nat v) cards) as [cards' Hs]; [lia..|].
  apply wp_bind. eapply wp_deref; [exact Hs|].
  pose proof (list_swap_Permutation _ _ _ _ Hs) as Hp.
  eapply wp_mono, IH; [|rw Hp; lia|lia|exact Hr'].
  intros cards'' r'' [-> ?]. done.
Qed.

Lemma Deck_random_spec r :
  random_inv r →
  wp Deck_random (λ d r', cards_ d ≡ₚ orderedDeck ∧ next_ d = 0%nat ∧ random_inv r') r.
Proof.
  intros Hr. apply wp_bind. eapply wp_mono, shuffle_spec; [|done..].
  intros cards r' [Hp Hr']. by apply wp_ret.
Qed.
End shuffle.

(** A deck all of whose cards are distinct enumerator-valued cards. *)
Definition good_deck (d : Deck) : Prop :=
  length (cards_ d) = 52%nat ∧ Forall valid_card (cards_ d) ∧ NoDup (cards_ d).

Lemma good_deck_permutation cards n : cards ≡ₚ orderedDeck → good_deck (mkDeck cards n).
Proof.
  intros Hp. split_and!; simpl.
  - by rw Hp.
  - rw Hp. apply Forall_forall. by intros c ?%orderedDeck_spec.
  - rw Hp. apply orderedDeck_NoDup.
Qed.

Lemma good_deck_is_permutation d : good_deck d → cards_ d ≡ₚ orderedDeck.
Proof.
  intros (Hlen & Hv & Hnd). apply submseteq_length_Permutation.
  - apply NoDup_submseteq; [done|]. rw Forall_forall in Hv.
    intros c Hc. by apply orderedDeck_spec, Hv.
  - by rw Hlen.
Qed.

Lemma Deck_of_cards_good cards :
  length cards = 52%nat → Forall valid_card cards → NoDup cards →
  Deck_of_cards cards = Ok (mkDeck cards 0) ∧ good_deck (mkDeck cards 0).
Proof.
  intros Hl Hv Hnd. rw /Deck_of_cards Hl /=.
  destruct (all_distinct_spec cards Hv) as [_ ->]; [done|]. done.
Qed.

Lemma draw_spec d :
  (next_ d < length (cards_ d))%nat →
  wp draw (λ c d', cards_ d !! next_ d = Some c ∧ d' = mkDeck (cards_ d) (S (next_ d))) d.
Proof.
  intros [c Hc]%lookup_lt_is_Some. rw /wp /draw /= /mbind /M_bind /=. by rw Hc.
Qed.
