(* ===== verification/HandEvaluator.v ===== *)
(** * Hand evaluation

    Model of [include/poker/domain/hand_evaluator.hpp] and
    [src/poker/domain/hand_evaluator.cpp], with a specification of the nine
    hand categories by rank pattern that does not mention the counting
    arrays, and the proof that the evaluator implements it. *)
From S2P Require Import Prelude Card.

(** ** Data *)

Inductive HandCategory :=
  | high_card
  | one_pair
  | two_pair
  | three_of_a_kind
  | straight
  | flush
  | full_house
  | four_of_a_kind
  | straight_flush.

#[export] Instance HandCategory_eq_dec : EqDecision HandCategory.
Proof. solve_decision. Defined.

(** The underlying value of the enumerator, by which [operator<] compares. *)
Definition category_value (c : HandCategory) : Z :=
  match c with
  | high_card => 0
  | one_pair => 1
  | two_pair => 2
  | three_of_a_kind => 3
  | straight => 4
  | flush => 5
  | full_house => 6
  | four_of_a_kind => 7
  | straight_flush => 8
  end.

Record HandValue := mkHandValue { category : HandCategory; tiebreak : list Z }.

#[export] Instance HandValue_eq_dec : EqDecision HandValue.
Proof. solve_decision. Defined.

(** [HandValue best{}] *)
Definition HandValue_default : HandValue := mkHandValue high_card [0; 0; 0; 0; 0].

Definition HandValue_eqb (lhs rhs : HandValue) : bool :=
  bool_decide (category lhs = category rhs) && bool_decide (tiebreak lhs = tiebreak rhs).

(** [operator<] of [std::array], lexicographic. *)
Fixpoint array_ltb (l r : list Z) : bool :=
  match l, r with
  | _, [] => false
  | [], _ :: _ => true
  | x :: l, y :: r => (x <? y) || (negb (y <? x) && array_ltb l r)
  end.

(** [std::tie(category, tiebreak) < std::tie(category, tiebreak)] *)
Definition HandValue_ltb (lhs rhs : HandValue) : bool :=
  let l := category_value (category lhs) in
  let r := category_value (category rhs) in
  (l <? r) || (negb (r <? l) && array_ltb (tiebreak lhs) (tiebreak rhs)).

Definition HandValue_gtb (lhs rhs : HandValue) : bool := HandValue_ltb rhs lhs.
Definition HandValue_leb (lhs rhs : HandValue) : bool := negb (HandValue_ltb rhs lhs).
Definition HandValue_geb (lhs rhs : HandValue) : bool := negb (HandValue_ltb lhs rhs).

(** ** Evaluation of five cards *)

(** [for (int rank = 14; rank >= 2; --rank)] *)
Definition descending : list Z := [14; 13; 12; 11; 10; 9; 8; 7; 6; 5; 4; 3; 2].

(** [counts[rank]] for a loop rank, which is always in range. *)
Definition count_at (counts : list Z) (r : Z) : Z := default 0 (counts !! Z.to_nat r).

Fixpoint straight_scan (counts : list Z) (ranks : list Z) (consecutive : Z) : option Z :=
  match ranks with
  | [] => None
  | r :: ranks =>
      if count_at counts r >? 0 then
        let consecutive := consecutive + 1 in
        if consecutive =? 5 then Some (r + 4)
        else straight_scan counts ranks consecutive
      else straight_scan counts ranks 0
  end.

Definition straightHigh (counts : list Z) : Z :=
  match straight_scan counts descending 0 with
  | Some high => high
  | None =>
      if (count_at counts 14 >? 0) && (count_at counts 2 >? 0) && (count_at counts 3 >? 0)
         && (count_at counts 4 >? 0) && (count_at counts 5 >? 0)
      then 5 else 0
  end.

(** A [std::array<std::uint8_t, 5>] filled from the front, rest zero. *)
Definition array5 (l : list Z) : list Z := take 5 (l ++ replicate 5 0).

Definition descendingRanks (counts : list Z) : list Z :=
  array5 (r ← descending; replicate (Z.to_nat (count_at counts r)) r).

(** The locals [four], [three], [pairs] and [pair_count] (the length). *)
Record Groups := mkGroups { g_four : Z; g_three : Z; g_pairs : list Z }.

Definition group_step (counts : list Z) (g : Groups) (r : Z) : Groups :=
  let count := count_at counts r in
  if count =? 4 then mkGroups r (g_three g) (g_pairs g)
  else if count =? 3 then mkGroups (g_four g) r (g_pairs g)
  else if (count =? 2) && (length (g_pairs g) <? 2)%nat
       then mkGroups (g_four g) (g_three g) (g_pairs g ++ [r])
  else g.

Definition groups (counts : list Z) : Groups :=
  foldl (group_step counts) (mkGroups 0 0 []) descending.

(** The first [n] ranks that occur exactly once, from the top. *)
Definition kickers (counts : list Z) (n : nat) : list Z :=
  take n (filter (λ r, count_at counts r = 1) descending).

(** [evaluateFive] after the counting loop and the [any_of] over the suits. *)
Definition classify (counts : list Z) (is_flush : bool) : HandValue :=
  let high := straightHigh counts in
  if is_flush && negb (high =? 0) then mkHandValue straight_flush (array5 [high])
  else
    let g := groups counts in
    let pair_count := length (g_pairs g) in
    if negb (g_four g =? 0) then
      mkHandValue four_of_a_kind (array5 (g_four g :: kickers counts 1))
    else if negb (g_three g =? 0) && (0 <? pair_count)%nat then
      mkHandValue full_house (array5 (g_three g :: take 1 (g_pairs g)))
    else if is_flush then mkHandValue flush (descendingRanks counts)
    else if negb (high =? 0) then mkHandValue straight (array5 [high])
    else if negb (g_three g =? 0) then
      mkHandValue three_of_a_kind (array5 (g_three g :: kickers counts 2))
    else if (2 <=? pair_count)%nat then
      mkHandValue two_pair (array5 (g_pairs g ++ kickers counts 1))
    else if (pair_count =? 1)%nat then
      mkHandValue one_pair (array5 (g_pairs g ++ kickers counts 3))
    else mkHandValue high_card (descendingRanks counts).

Definition duplicate_card : exn :=
  invalid_argument "hand contains an invalid or duplicate card".

(** [++array[i]]; past the end it is undefined. *)
Definition array_incr (i : Z) (a : list Z) : result (list Z) :=
  match a !! Z.to_nat i with
  | Some x => Ok (<[Z.to_nat i := x + 1]> a)
  | None => Undef
  end.

(** The counting loop of [evaluateFive]. *)
Fixpoint tally (cards : list Card) (seen : list bool) (counts suit_counts : list Z)
    : result (list Z * list Z) :=
  match cards with
  | [] => Ok (counts, suit_counts)
  | card :: cards =>
      match mark_seen seen card with
      | None => Throw duplicate_card
      | Some seen =>
          counts ← array_incr (rankValue (rank card)) counts;
          suit_counts ← array_incr (suit card) suit_counts;
          tally cards seen counts suit_counts
      end
  end.

Definition evaluateFive (cards : list Card) : result HandValue :=
  '(counts, suit_counts) ← tally cards no_cards_seen (replicate 15 0) (replicate 4 0);
  Ok (classify counts (existsb (λ count, count =? 5) suit_counts)).

(** ** Best of five to seven cards *)

(** The index tuples of the five nested loops, in loop order. *)
Definition five_indices (count : nat) : list (list nat) :=
  a ← seq 0 (count - 4);
  b ← seq (a + 1) (count - 3 - (a + 1));
  c ← seq (b + 1) (count - 2 - (b + 1));
  d ← seq (c + 1) (count - 1 - (c + 1));
  e ← seq (d + 1) (count - (d + 1));
  [[a; b; c; d; e]].

Definition pick (cards : list Card) (indices : list nat) : list Card :=
  omap (λ i, cards !! i) indices.

(** The loop body: [best] is [None] until [initialized]. *)
Fixpoint best_of (hands : list (list Card)) (best : option HandValue) : result HandValue :=
  match hands with
  | [] => Ok (default HandValue_default best)
  | hand :: hands =>
      value ← evaluateFive hand;
      match best with
      | Some b => best_of hands (Some (if HandValue_ltb b value then value else b))
      | None => best_of hands (Some value)
      end
  end.

Definition evaluateBest (cards : list Card) : result HandValue :=
  if (length cards <? 5)%nat || (7 <? length cards)%nat then
    Throw (invalid_argument "best-hand evaluation requires five to seven cards")
  else if negb (all_distinct cards) then Throw duplicate_card
  else best_of (pick cards <$> five_indices (length cards)) None.

Definition HandCategory_toString (c : HandCategory) : string :=
  match c with
  | high_card => "high card"
  | one_pair => "one pair"
  | two_pair => "two pair"
  | three_of_a_kind => "three of a kind"
  | straight => "straight"
  | flush => "flush"
  | full_house => "full house"
  | four_of_a_kind => "four of a kind"
  | straight_flush => "straight flush"
  end.

(** ** The order on hand values *)

Definition value_key (v : HandValue) : list Z := category_value (category v) :: tiebreak v.

Lemma value_key_inj v w : value_key v = value_key w → v = w.
Proof.
  destruct v as [c t], w as [c' t']. rw /value_key /=.
  intros [= Hc ->]. f_equal. by destruct c, c'.
Qed.

Lemma HandValue_ltb_key v w : HandValue_ltb v w = array_ltb (value_key v) (value_key w).
Proof. done. Qed.

Lemma array_ltb_irrefl l : array_ltb l l = false.
Proof. induction l as [|x l IH]; simpl; [done|]. by rw Z.ltb_irrefl IH. Qed.

Lemma array_ltb_trans l m r :
  array_ltb l m = true → array_ltb m r = true → array_ltb l r = true.
Proof.
  revert m r. induction l as [|x l IH]; intros [|y m] [|z r]; simpl; try done.
  rw !orb_true_iff !andb_true_iff !negb_true_iff !Z.ltb_lt !Z.ltb_ge.
  intros [?|[? ?]] [?|[? ?]]; [left; lia..|]. right. split; [lia|by apply (IH m)].
Qed.

Lemma array_ltb_total l r : array_ltb l r = true ∨ l = r ∨ array_ltb r l = true.
Proof.
  revert r. induction l as [|x l IH]; intros [|y r]; simpl; [by auto..|].
  rw !orb_true_iff !andb_true_iff !negb_true_iff !Z.ltb_lt !Z.ltb_ge.
  destruct (Z.lt_trichotomy x y) as [?|[->|?]]; [by auto| |by auto].
  destruct (IH r) as [?|[->|?]]; [left|by auto|do 2 right]; right; (split; [lia|done]).
Qed.

Lemma HandValue_leb_refl v : HandValue_leb v v = true.
Proof. by rw /HandValue_leb HandValue_ltb_key array_ltb_irrefl. Qed.

Lemma HandValue_leb_trans u v w :
  HandValue_leb u v = true → HandValue_leb v w = true → HandValue_leb u w = true.
Proof.
  rw /HandValue_leb !negb_true_iff !HandValue_ltb_key -!not_true_iff_false.
  intros H1 H2 H3.
  destruct (array_ltb_total (value_key u) (value_key v)) as [Huv|[Huv|?]]; [|rw Huv in H3; done|done].
  apply H2. by apply (array_ltb_trans _ (value_key u)).
Qed.

Lemma HandValue_leb_antisym v w :
  HandValue_leb v w = true → HandValue_leb w v = true → v = w.
Proof.
  rw /HandValue_leb !negb_true_iff !HandValue_ltb_key. intros H1 H2.
  apply value_key_inj.
  destruct (array_ltb_total (value_key v) (value_key w)) as [?|[?|?]]; congruence.
Qed.

Lemma HandValue_ltb_leb v w : HandValue_ltb v w = true → HandValue_leb v w = true.
Proof.
  rw /HandValue_leb negb_true_iff !HandValue_ltb_key -not_true_iff_false.
  intros H1 H2. pose proof (array_ltb_trans _ _ _ H1 H2) as H.
  by rw array_ltb_irrefl in H.
Qed.

(** ** Counting *)

(** Occurrences of [i]. *)
Definition occ (i : Z) (l : list Z) : Z := Z.of_nat (length (filter (λ x, x = i) l)).

(** The array of occurrence counts of the indices below [n]. *)
Definition tab (n : Z) (l : list Z) : list Z := (λ i, occ i l) <$> seqZ 0 n.

#[export] Instance occ_Permutation i : Proper ((≡ₚ) ==> (=)) (occ i).
Proof. intros l l' Hl. rw /occ. by rw Hl. Qed.

Lemma tab_Permutation n l l' : l ≡ₚ l' → tab n l = tab n l'.
Proof. intros Hl. rw /tab. apply list_fmap_ext. intros _ i _. by rw Hl. Qed.

Lemma occ_app i l l' : occ i (l ++ l') = occ i l + occ i l'.
Proof. rw /occ filter_app length_app. lia. Qed.

Lemma occ_singleton i r : occ i [r] = if decide (r = i) then 1 else 0.
Proof. rw /occ filter_cons filter_nil. by case_decide. Qed.

Lemma occ_cons i x l : occ i (x :: l) = (if decide (x = i) then 1 else 0) + occ i l.
Proof. rw (occ_app i [x] l) occ_singleton. done. Qed.

Lemma occ_le_length i l : occ i l ≤ Z.of_nat (length l).
Proof. rw /occ. pose proof (length_filter (λ x, x = i) l). lia. Qed.

Lemma occ_full i l : occ i l = Z.of_nat (length l) ↔ ∀ x, x ∈ l → x = i.
Proof.
  induction l as [|x l IH]; [split; [set_solver|done]|].
  rw occ_cons /=. setoid_rewrite elem_of_cons. pose proof (occ_le_length i l).
  case_decide; subst.
  - split; [intros H' y [->|Hy]; [done|]; apply IH; [lia|done]|].
    intros H'. rw (proj2 IH); [naive_solver|lia].
  - split; [lia|]. intros H'. by destruct H0; apply H'; left.
Qed.

Lemma tab_lookup n l (i : nat) :
  Z.of_nat i < n → tab n l !! i = Some (occ (Z.of_nat i) l).
Proof.
  intros Hi. rw /tab list_lookup_fmap. apply fmap_Some. exists (Z.of_nat i).
  split; [|done]. rw lookup_seqZ. lia.
Qed.

Lemma tab_length n l : length (tab n l) = Z.to_nat n.
Proof. by rw /tab length_fmap length_seqZ. Qed.

Lemma tab_incr n l r :
  0 ≤ r < n → array_incr r (tab n l) = Ok (tab n (l ++ [r])).
Proof.
  intros Hr. rw /array_incr tab_lookup; [lia|]. f_equal.
  apply list_eq. intros i. rw list_lookup_insert.
  destruct (decide (Z.of_nat i < n)) as [Hi|Hi].
  - rw !tab_lookup //. rw occ_app occ_singleton.
    case_decide as Hc; case_decide; simpl; try (f_equal; lia).
    + by destruct Hc as [<- _].
    + exfalso. apply Hc. rw tab_length. lia.
  - rw !lookup_ge_None_2; [rw tab_length; lia..|].
    case_decide; [lia|done].
Qed.

Lemma tally_spec cards seen done_r done_s :
  length seen = 52%nat → is_Some (mark_all seen cards) → Forall valid_card cards →
  tally cards seen (tab 15 done_r) (tab 4 done_s) =
  Ok (tab 15 (done_r ++ (rank <$> cards)), tab 4 (done_s ++ (suit <$> cards))).
Proof.
  revert seen done_r done_s.
  induction cards as [|c cards IH]; intros seen dr ds Hlen Hm Hv; simpl.
  { by rw !app_nil_r. }
  apply Forall_cons in Hv as [[Hr Hs] Hv]. simpl in Hm.
  destruct (mark_seen seen c) as [seen'|] eqn:Hc; [|by destruct Hm]. simpl in Hm.
  rw /rankValue tab_incr /=; [lia|]. rw tab_incr /=; [lia|].
  rw IH //; [|by rw -!app_assoc].
  apply mark_seen_Some in Hc as (_ & _ & ->); [|done]. by rw length_insert.
Qed.

(** A hand: five distinct enumerator-valued cards. *)
Definition good_hand (cards : list Card) : Prop :=
  length cards = 5%nat ∧ Forall valid_card cards ∧ NoDup cards.

Definition suited (cards : list Card) : bool :=
  existsb (λ count, count =? 5) (tab 4 (suit <$> cards)).

Lemma evaluateFive_eq cards :
  Forall valid_card cards → NoDup cards →
  evaluateFive cards = Ok (classify (tab 15 (rank <$> cards)) (suited cards)).
Proof.
  intros Hv Hnd. rw /evaluateFive.
  change (replicate 15 0) with (tab 15 []). change (replicate 4 0) with (tab 4 []).
  rw tally_spec //. apply all_distinct_spec in Hnd; [|done]. rw /all_distinct in Hnd.
  destruct (mark_all _ _); naive_solver.
Qed.

Lemma suited_Permutation c d : c ≡ₚ d → suited c = suited d.
Proof. intros H. rw /suited. by rw (tab_Permutation 4 _ (suit <$> d)) // H. Qed.

Lemma evaluateFive_Permutation c d :
  Forall valid_card c → NoDup c → c ≡ₚ d → evaluateFive c = evaluateFive d.
Proof.
  intros Hv Hnd H. rw !evaluateFive_eq //; [by rw -H..|].
  rw (suited_Permutation c d) //. by rw (tab_Permutation 15 _ (rank <$> d)) // H.
Qed.

(** ** Specification: rank patterns *)

(** The ranks of a straight by its highest card; the wheel is A-2-3-4-5. *)
Definition straight_ranks (high : Z) : list Z :=
  if high =? 5 then [14; 5; 4; 3; 2] else [high; high - 1; high - 2; high - 3; high - 4].

Definition is_straight (ranks : list Z) (high : Z) : Prop :=
  5 ≤ high ≤ 14 ∧ ranks ≡ₚ straight_ranks high.

(** The rules of the game: the value of a hand with the given ranks, whose
    cards share one suit or not. *)
Inductive hand_class (ranks : list Z) (one_suit : bool) : HandValue → Prop :=
  | class_straight_flush h :
      one_suit = true → is_straight ranks h →
      hand_class ranks one_suit (mkHandValue straight_flush [h; 0; 0; 0; 0])
  | class_four a k :
      a ≠ k → ranks ≡ₚ [a; a; a; a; k] →
      hand_class ranks one_suit (mkHandValue four_of_a_kind [a; k; 0; 0; 0])
  | class_full a b :
      a ≠ b → ranks ≡ₚ [a; a; a; b; b] →
      hand_class ranks one_suit (mkHandValue full_house [a; b; 0; 0; 0])
  | class_flush a b c d e :
      one_suit = true → a > b ∧ b > c ∧ c > d ∧ d > e → ranks ≡ₚ [a; b; c; d; e] →
      (∀ h, ¬ is_straight ranks h) →
      hand_class ranks one_suit (mkHandValue flush [a; b; c; d; e])
  | class_straight h :
      one_suit = false → is_straight ranks h →
      hand_class ranks one_suit (mkHandValue straight [h; 0; 0; 0; 0])
  | class_three a x y :
      a ≠ x ∧ a ≠ y ∧ x > y → ranks ≡ₚ [a; a; a; x; y] →
      hand_class ranks one_suit (mkHandValue three_of_a_kind [a; x; y; 0; 0])
  | class_two_pair a b k :
      a > b ∧ k ≠ a ∧ k ≠ b → ranks ≡ₚ [a; a; b; b; k] →
      hand_class ranks one_suit (mkHandValue two_pair [a; b; k; 0; 0])
  | class_pair a x y z :
      a ≠ x ∧ a ≠ y ∧ a ≠ z ∧ x > y ∧ y > z → ranks ≡ₚ [a; a; x; y; z] →
      hand_class ranks one_suit (mkHandValue one_pair [a; x; y; z; 0])
  | class_high a b c d e :
      one_suit = false → a > b ∧ b > c ∧ c > d ∧ d > e → ranks ≡ₚ [a; b; c; d; e] →
      (∀ h, ¬ is_straight ranks h) →
      hand_class ranks one_suit (mkHandValue high_card [a; b; c; d; e]).

(** *** The exhaustive check *)

Definition sort_desc (l : list Z) : list Z := merge_sort Z.ge l.

#[export] Instance ge_total : Total Z.ge.
Proof. intros x y. lia. Qed.
#[export] Instance ge_trans : Transitive Z.ge.
Proof. intros x y z. lia. Qed.
#[export] Instance ge_antisym : AntiSymm (=) Z.ge.
Proof. intros x y. lia. Qed.

Lemma sort_desc_Permutation l : sort_desc l ≡ₚ l.
Proof. apply merge_sort_Permutation. Qed.

Lemma sort_desc_sorted l : StronglySorted Z.ge (sort_desc l).
Proof. apply (StronglySorted_merge_sort _). Qed.

Lemma sort_desc_eq l l' : l ≡ₚ l' ↔ sort_desc l = sort_desc l'.
Proof.
  split; intros H.
  - apply (StronglySorted_unique Z.ge); [apply sort_desc_sorted..|].
    by rw !sort_desc_Permutation.
  - by rw -(sort_desc_Permutation l) H sort_desc_Permutation.
Qed.

(** Every descending list of [n] ranks from [2..high]. *)
Fixpoint desc_lists (n : nat) (high : Z) : list (list Z) :=
  match n with
  | O => [[]]
  | S n => r ← seqZ 2 (high - 1); cons r <$> desc_lists n r
  end.

Lemma desc_lists_complete n high l :
  length l = n → StronglySorted Z.ge l → Forall (λ r, 2 ≤ r ≤ high) l →
  l ∈ desc_lists n high.
Proof.
  revert high l. induction n as [|n IH]; intros high [|r l]; simpl; try done.
  { intros. by left. }
  intros [= Hl] [Hs Hr]%StronglySorted_inv [Hb Hf]%Forall_cons.
  apply list_elem_of_bind. exists r. split; [|by apply elem_of_seqZ; lia].
  apply list_elem_of_fmap. exists l. split; [done|]. apply IH; [done..|].
  rw !Forall_forall in Hr Hf |- *. intros x Hx. specialize (Hr x Hx).
  specialize (Hf x Hx). lia.
Qed.

Definition same_ranks (rs l : list Z) : bool := bool_decide (sort_desc l = rs).
Definition straight_free (rs : list Z) : bool :=
  forallb (λ h, negb (same_ranks rs (straight_ranks h))) (seqZ 5 10).
Definition descends (l : list Z) : bool :=
  match l with
  | [a; b; c; d; e] => (b <? a) && (c <? b) && (d <? c) && (e <? d)
  | _ => false
  end.

(** [classify] agrees with the rules on one descending rank list. *)
Definition class_check (rs : list Z) (s : bool) : bool :=
  match classify (tab 15 rs) s with
  | mkHandValue straight_flush [h; 0; 0; 0; 0] =>
      s && (5 <=? h) && (h <=? 14) && same_ranks rs (straight_ranks h)
  | mkHandValue four_of_a_kind [a; k; 0; 0; 0] =>
      negb (a =? k) && same_ranks rs [a; a; a; a; k]
  | mkHandValue full_house [a; b; 0; 0; 0] =>
      negb (a =? b) && same_ranks rs [a; a; a; b; b]
  | mkHandValue flush l => s && descends l && same_ranks rs l && straight_free rs
  | mkHandValue straight [h; 0; 0; 0; 0] =>
      negb s && (5 <=? h) && (h <=? 14) && same_ranks rs (straight_ranks h)
  | mkHandValue three_of_a_kind [a; x; y; 0; 0] =>
      negb (a =? x) && negb (a =? y) && (y <? x) && same_ranks rs [a; a; a; x; y]
  | mkHandValue two_pair [a; b; k; 0; 0] =>
      (b <? a) && negb (k =? a) && negb (k =? b) && same_ranks rs [a; a; b; b; k]
  | mkHandValue one_pair [a; x; y; z; 0] =>
      negb (a =? x) && negb (a =? y) && negb (a =? z) && (y <? x) && (z <? y)
      && same_ranks rs [a; a; x; y; z]
  | mkHandValue high_card l => negb s && descends l && same_ranks rs l && straight_free rs
  | _ => false
  end.

(** No rank occurs more than [n] times. *)
Definition at_most (n : Z) (rs : list Z) : bool := forallb (λ c, c <=? n) (tab 15 rs).

Lemma class_check_all :
  forallb (λ rs, (negb (at_most 4 rs) || class_check rs false)
                 && (negb (at_most 1 rs) || class_check rs true)) (desc_lists 5 14) = true.
Proof. by vm_compute. Qed.

Lemma same_ranks_sound ranks l :
  same_ranks (sort_desc ranks) l = true → ranks ≡ₚ l.
Proof. intros H%bool_decide_eq_true. by apply sort_desc_eq. Qed.

Lemma straight_free_sound ranks :
  straight_free (sort_desc ranks) = true → ∀ h, ¬ is_straight ranks h.
Proof.
  rw /straight_free forallb_forall. intros H h [Hh Hp].
  assert (In h (seqZ 5 10)) as Hin by (apply list_elem_of_In, elem_of_seqZ; lia).
  specialize (H h Hin). apply negb_true_iff, bool_decide_eq_false in H.
  apply H. symmetry. by apply sort_desc_eq.
Qed.

Lemma descends_sound l :
  descends l = true →
  ∃ a b c d e, l = [a; b; c; d; e] ∧ a > b ∧ b > c ∧ c > d ∧ d > e.
Proof.
  rw /descends. repeat (case_match; try done; []).
  rw !andb_true_iff !Z.ltb_lt. intros. do 5 eexists. split; [done|lia].
Qed.

Lemma class_check_sound ranks s :
  class_check (sort_desc ranks) s = true →
  hand_class ranks s (classify (tab 15 ranks) s).
Proof.
  rw /class_check (tab_Permutation 15 (sort_desc ranks) ranks).
  { apply sort_desc_Permutation. }
  destruct (classify (tab 15 ranks) s) as [c t].
  pose proof (same_ranks_sound ranks) as Hs. pose proof (straight_free_sound ranks) as Hf.
  revert Hs Hf. generalize (same_ranks (sort_desc ranks)) as same.
  generalize (straight_free (sort_desc ranks)) as free. intros free same Hs Hf.
  destruct c; repeat (case_match; try done; []); intros Hc;
    rewrite ?andb_true_iff ?negb_true_iff ?Z.ltb_lt ?Z.leb_le ?Z.eqb_neq in Hc;
    destruct_and?; subst;
    try match goal with
        | H : descends _ = true |- _ => apply descends_sound in H as (?&?&?&?&?&->&?)
        end;
    constructor; try (split; [lia|]); try naive_solver lia.
Qed.

(** *** From cards to rank lists *)

Lemma occ_fmap {A} (f : A → Z) i (l : list A) :
  occ i (f <$> l) = Z.of_nat (length (filter (λ x, f x = i) l)).
Proof.
  induction l as [|x l IH]; [done|]. rw fmap_cons occ_cons filter_cons IH.
  repeat case_decide; simpl; lia.
Qed.

Lemma occ_rank_bound cards r :
  NoDup cards → Forall valid_card cards → occ r (rank <$> cards) ≤ 4.
Proof.
  intros Hnd Hv. rw occ_fmap. set (cs := filter _ cards).
  assert (length cs ≤ length ((λ s, mkCard r s) <$> seqZ 0 4))%nat; [|by simpl in *; lia].
  apply submseteq_length, NoDup_submseteq; [by apply NoDup_filter|].
  rw Forall_forall in Hv. intros c [Hr Hc]%list_elem_of_filter. destruct (Hv c Hc).
  apply list_elem_of_fmap. exists (suit c). rw elem_of_seqZ. destruct c; simpl in *.
  subst. split; [done|lia].
Qed.

Lemma suited_spec cards :
  length cards = 5%nat → Forall valid_card cards →
  suited cards = true ↔ ∃ s, ∀ c, c ∈ cards → suit c = s.
Proof.
  intros Hlen Hv. rw Forall_forall in Hv. rw /suited existsb_exists.
  assert (∀ s, occ s (suit <$> cards) = 5 ↔ ∀ c, c ∈ cards → suit c = s) as Hocc.
  { intros s. change 5 with (Z.of_nat 5). rw -Hlen -(length_fmap suit cards) occ_full.
    setoid_rewrite list_elem_of_fmap. naive_solver. }
  split.
  - intros (n & Hin & Hn%Z.eqb_eq). apply list_elem_of_In in Hin. subst n.
    apply list_elem_of_fmap in Hin as (s & Hs & _). exists s. by apply Hocc.
  - intros (s & Hs). exists 5. split; [|done]. apply list_elem_of_In, list_elem_of_fmap.
    exists s. split; [by symmetry; apply Hocc|]. apply elem_of_seqZ.
    destruct cards as [|c cards]; [done|]. rw -(Hs c); [left|].
    destruct (Hv c); [left|lia].
Qed.

Lemma suited_ranks_NoDup cards :
  length cards = 5%nat → Forall valid_card cards → NoDup cards → suited cards = true →
  NoDup (rank <$> cards).
Proof.
  intros Hlen Hv Hnd [s Hs]%suited_spec; [|done..].
  apply NoDup_fmap_2_strong; [|done]. intros [r1 s1] [r2 s2] H1%Hs H2%Hs.
  simpl in *. by intros ->; subst.
Qed.

Lemma occ_NoDup i l : NoDup l → occ i l ≤ 1.
Proof.
  induction 1 as [|x l Hx Hnd IH]; [done|]. rw occ_cons. case_decide; subst; [|lia].
  assert (occ i l = 0); [|lia]. rw /occ.
  destruct (filter _ l) as [|y l'] eqn:Hf; [done|]. destruct Hx.
  assert (y ∈ filter (λ x, x = i) l) as [-> ?]%list_elem_of_filter; [|done].
  rw Hf. left.
Qed.

Lemma at_most_spec n rs : (∀ r, occ r rs ≤ n) → at_most n rs = true.
Proof.
  intros H. apply forallb_forall. intros c Hc%list_elem_of_In.
  apply list_elem_of_fmap in Hc as (r & -> & _). by apply Z.leb_le.
Qed.

Lemma class_check_hand cards :
  good_hand cards → class_check (sort_desc (rank <$> cards)) (suited cards) = true.
Proof.
  intros (Hlen & Hv & Hnd). set (rs := sort_desc (rank <$> cards)).
  assert (rs ≡ₚ rank <$> cards) as Hp by apply sort_desc_Permutation.
  assert (rs ∈ desc_lists 5 14) as Hin.
  { apply desc_lists_complete; [by rw Hp length_fmap|apply sort_desc_sorted|].
    rw Hp. apply Forall_fmap. eapply Forall_impl; [exact Hv|]. by intros ? [??]. }
  pose proof class_check_all as Hall. rw forallb_forall in Hall.
  specialize (Hall rs). rw andb_true_iff !orb_true_iff !negb_true_iff in Hall.
  destruct Hall as [Hf Ht]; [by apply list_elem_of_In|].
  destruct (suited cards) eqn:Hs.
  - destruct Ht as [Ht|]; [|done]. rw at_most_spec // in Ht.
    intros r. rw Hp. by apply occ_NoDup, suited_ranks_NoDup.
  - destruct Hf as [Hf|]; [|done]. rw at_most_spec // in Hf.
    intros r. rw Hp. by apply occ_rank_bound.
Qed.

(** Five distinct cards are evaluated, and to the value the rules give. *)
Lemma evaluateFive_hand_class cards :
  good_hand cards →
  ∃ v, evaluateFive cards = Ok v ∧ hand_class (rank <$> cards) (suited cards) v.
Proof.
  intros Hg. pose proof Hg as (_ & Hv & Hnd). rw evaluateFive_eq //.
  eexists. split; [done|]. by apply class_check_sound, class_check_hand.
Qed.

(** *** Values determine hands up to order *)

(** The ranks a value stands for. *)
Definition value_ranks (v : HandValue) : list Z :=
  match category v, tiebreak v with
  | (straight | straight_flush), h :: _ => straight_ranks h
  | four_of_a_kind, [a; k; _; _; _] => [a; a; a; a; k]
  | full_house, [a; b; _; _; _] => [a; a; a; b; b]
  | three_of_a_kind, [a; x; y; _; _] => [a; a; a; x; y]
  | two_pair, [a; b; k; _; _] => [a; a; b; b; k]
  | one_pair, [a; x; y; z; _] => [a; a; x; y; z]
  | _, l => l
  end.

Lemma hand_class_ranks ranks s v : hand_class ranks s v → ranks ≡ₚ value_ranks v.
Proof. intros []; rw /value_ranks /=; by repeat match goal with H : is_straight _ _ |- _ => destruct H end. Qed.

Lemma hand_class_suited cards v :
  good_hand cards → hand_class (rank <$> cards) (suited cards) v →
  suited cards = bool_decide (category v = flush ∨ category v = straight_flush).
Proof.
  intros (Hlen & Hv & Hnd) Hc. pose proof (hand_class_ranks _ _ _ Hc) as Hr.
  assert (suited cards = true → NoDup (value_ranks v)) as Hs.
  { intros H. rw -Hr. by apply suited_ranks_NoDup. }
  destruct (suited cards); [specialize (Hs eq_refl)|clear Hs];
    inversion Hc; subst; try done; exfalso; rw /value_ranks /= in Hs;
    by rw !NoDup_cons in Hs; set_solver.
Qed.

Lemma evaluateFive_tie_iff c d :
  good_hand c → good_hand d →
  evaluateFive c = evaluateFive d ↔
  (rank <$> c) ≡ₚ (rank <$> d) ∧ suited c = suited d.
Proof.
  intros Hc Hd. split.
  - destruct (evaluateFive_hand_class c Hc) as (v & -> & Hvc).
    destruct (evaluateFive_hand_class d Hd) as (w & -> & Hwd). intros [= <-]. split.
    + by rw (hand_class_ranks _ _ _ Hvc) (hand_class_ranks _ _ _ Hwd).
    + by rw (hand_class_suited c v) // (hand_class_suited d v).
  - intros [Hr Hs]. destruct Hc as (? & ? & ?), Hd as (? & ? & ?).
    rw !evaluateFive_eq // Hs. by rw (tab_Permutation _ _ _ Hr).
Qed.

(** ** The best hand is the maximum over all five-card subsets *)

(** The sublists of length [k], in the order of the nested loops. *)
Fixpoint subs {A} (k : nat) (l : list A) : list (list A) :=
  match k, l with
  | O, _ => [[]]
  | S k, [] => []
  | S k, x :: l => (cons x <$> subs k l) ++ subs (S k) l
  end.

Lemma subs_spec {A} k (l h : list A) :
  h ∈ subs k l ↔ h `sublist_of` l ∧ length h = k.
Proof.
  revert k h. induction l as [|x l IH]; intros [|k] h; simpl.
  - rw list_elem_of_singleton. split; [intros ->; done|].
    intros [_ ?%nil_length_inv]. done.
  - split; [by intros ?%not_elem_of_nil|]. by intros [->%sublist_nil_r ?].
  - rw list_elem_of_singleton. split; [intros ->|].
    + split; [apply sublist_nil_l|done].
    + intros [_ ?%nil_length_inv]. done.
  - rw elem_of_app list_elem_of_fmap. setoid_rewrite IH. split.
    + intros [(h' & -> & ? & <-)|[? <-]]; (split; [by constructor|done]).
    + intros [Hs Hl]. apply sublist_cons_r in Hs as [Hs|(h' & -> & Hs)]; [by right|].
      left. exists h'. naive_solver.
Qed.

Lemma five_hands cards :
  (5 ≤ length cards ≤ 7)%nat → pick cards <$> five_indices (length cards) = subs 5 cards.
Proof.
  intros Hl. destruct cards as [|c1 [|c2 [|c3 [|c4 [|c5 cards]]]]]; simpl in Hl; try lia.
  destruct cards as [|c6 [|c7 [|c8 cards]]]; simpl in Hl; try lia; reflexivity.
Qed.

Lemma best_of_Some hands b :
  (∀ h, h ∈ hands → ∃ v, evaluateFive h = Ok v) →
  ∃ m, best_of hands (Some b) = Ok m ∧
    (m = b ∨ ∃ h, h ∈ hands ∧ evaluateFive h = Ok m) ∧
    HandValue_leb b m = true ∧
    ∀ h v, h ∈ hands → evaluateFive h = Ok v → HandValue_leb v m = true.
Proof.
  revert b. induction hands as [|h hands IH]; intros b Hev; simpl.
  { exists b. split_and!; [done|by left|apply HandValue_leb_refl|set_solver]. }
  destruct (Hev h) as [v Hv]; [left|]. rw Hv /=.
  destruct (IH (if HandValue_ltb b v then v else b)) as (m & -> & Hm & Hbm & Hall);
    [intros; apply Hev; by right|].
  exists m. split; [done|].
  assert (HandValue_leb b m = true ∧ HandValue_leb v m = true) as [Hb Hvm].
  { destruct (HandValue_ltb b v) eqn:Hlt; (split; [|done]) || (split; [done|]).
    - apply (HandValue_leb_trans _ v); [by apply HandValue_ltb_leb|done].
    - apply (HandValue_leb_trans _ b); [|done]. by rw /HandValue_leb Hlt. }
  split_and!; [|done|].
  - destruct Hm as [->|(h' & ? & ?)]; [|by right; exists h'; split; [right|]].
    destruct (HandValue_ltb b v); [|by left]. right. exists h. split; [left|done].
  - intros h' v' [->|Hh]%elem_of_cons Hev'; [rw Hv in Hev'; by simplify_eq|by apply (Hall h')].
Qed.

Lemma good_hand_of cards hand :
  Forall valid_card cards → NoDup cards → hand ⊆+ cards → length hand = 5%nat →
  good_hand hand.
Proof.
  intros Hv Hnd Hs Hl. destruct (submseteq_Permutation _ _ Hs) as [k Hk].
  rw Hk in Hv Hnd. apply Forall_app in Hv as [? _]. by apply NoDup_app in Hnd as [? _].
Qed.

Lemma evaluateBest_spec cards :
  (5 ≤ length cards ≤ 7)%nat → Forall valid_card cards → NoDup cards →
  ∃ best, evaluateBest cards = Ok best ∧
    (∃ hand, hand ⊆+ cards ∧ length hand = 5%nat ∧ evaluateFive hand = Ok best) ∧
    ∀ hand, hand ⊆+ cards → length hand = 5%nat →
      ∃ v, evaluateFive hand = Ok v ∧ HandValue_leb v best = true.
Proof.
  intros Hl Hv Hnd. rw /evaluateBest.
  destruct (Nat.ltb_spec (length cards) 5); [lia|].
  destruct (Nat.ltb_spec 7 (length cards)); [lia|].
  rw (proj2 (all_distinct_spec cards Hv) Hnd) /= five_hands //.
  assert (∀ h, h ∈ subs 5 cards → ∃ v, evaluateFive h = Ok v) as Hev.
  { intros h [Hs Hh]%subs_spec.
    destruct (evaluateFive_hand_class h) as (v & ? & _); [|by eauto].
    apply (good_hand_of cards); [done..|by apply sublist_submseteq|done]. }
  destruct (subs 5 cards) as [|h0 hands] eqn:Hsubs.
  { exfalso. assert (take 5 cards ∈ subs 5 cards) as Hin.
    { apply subs_spec. split; [apply sublist_take|]. rw length_take. lia. }
    rw Hsubs in Hin. by apply not_elem_of_nil in Hin. }
  destruct (Hev h0) as [v0 Hv0]; [left|]. simpl. rw Hv0 /=.
  destruct (best_of_Some hands v0) as (m & Hm & Hfrom & Hge0 & Hge);
    [intros; apply Hev; by right|].
  exists m. split; [done|].
  assert (∀ h, h ∈ h0 :: hands → h ⊆+ cards ∧ length h = 5%nat) as Hin.
  { rw -Hsubs. intros h [??]%subs_spec. split; [by apply sublist_submseteq|done]. }
  split.
  - destruct Hfrom as [->|(h & Hh & ?)].
    + exists h0. destruct (Hin h0); [left|]. done.
    + exists h. destruct (Hin h); [by right|]. done.
  - intros hand Hsub Hh.
    assert (∃ l, hand ≡ₚ l ∧ l ∈ h0 :: hands) as (l & Hp & Hlin).
    { apply submseteq_sublist_r in Hsub as (l & Hp & Hs). exists l. split; [done|].
      rw -Hsubs. apply subs_spec. split; [done|by rw -Hp]. }
    rw (evaluateFive_Permutation hand l) //; [by apply (good_hand_of cards)..|].
    apply elem_of_cons in Hlin as [->|Hlin]; [by eauto|].
    destruct (Hev l) as [v Hv']; [by right|]. eauto.
Qed.
