(* ===== verification/Table.v ===== *)
(** * The table state machine: data and operations

    Model of [include/poker/domain/table.hpp] and [src/poker/domain/table.cpp].
    Method names are the source's. A method that cannot throw is a function on
    the table; a method that can throw, or whose dereferences are undefined
    when a seat is empty, is in the monad [M Table]. [PlayerId] and the
    sequence counters are 64-bit unsigned, [Chips] is [std::int64_t]; chip
    arithmetic is exact here and the development proves it stays in range. *)
From S2P Require Import Prelude Card Deck HandEvaluator.

(** ** Data *)

Notation PlayerId := Z (only parsing).
Notation Chips := Z (only parsing).

Inductive Street :=
  | Street_waiting
  | Street_preflop
  | Street_flop
  | Street_turn
  | Street_river
  | Street_showdown
  | Street_settled.

Inductive PlayerStatus :=
  | Status_waiting
  | Status_active
  | Status_folded
  | Status_all_in
  | Status_disconnected.

Inductive ActionType :=
  | Action_fold
  | Action_check
  | Action_call
  | Action_bet
  | Action_raise
  | Action_all_in.

Inductive TableError :=
  | Error_ok
  | Error_invalid_configuration
  | Error_seat_out_of_range
  | Error_seat_occupied
  | Error_player_already_seated
  | Error_player_not_found
  | Error_invalid_buy_in
  | Error_hand_in_progress
  | Error_not_enough_players
  | Error_player_not_ready
  | Error_not_players_turn
  | Error_player_cannot_act
  | Error_action_not_allowed
  | Error_invalid_amount
  | Error_minimum_raise_not_met
  | Error_service_unavailable.

#[export] Instance Street_eq_dec : EqDecision Street.
Proof. solve_decision. Defined.
#[export] Instance PlayerStatus_eq_dec : EqDecision PlayerStatus.
Proof. solve_decision. Defined.
#[export] Instance ActionType_eq_dec : EqDecision ActionType.
Proof. solve_decision. Defined.
#[export] Instance TableError_eq_dec : EqDecision TableError.
Proof. solve_decision. Defined.

(** The underlying value, for the comparisons of [handIsRunning]. *)
Definition street_value (s : Street) : Z :=
  match s with
  | Street_waiting => 0
  | Street_preflop => 1
  | Street_flop => 2
  | Street_turn => 3
  | Street_river => 4
  | Street_showdown => 5
  | Street_settled => 6
  end.

Record TableConfig := mkConfig {
  min_players : nat;
  max_players : nat;
  small_blind : Chips;
  big_blind : Chips;
  min_buy_in : Chips;
  max_buy_in : Chips;
}.

(** The small blind can be doubled in 64 bits. *)
Definition blinds_fit (c : TableConfig) : Prop := small_blind c * 2 ≤ i64_max.

Definition TableConfig_default : TableConfig := mkConfig 2 6 50 100 2000 20000.

Record PlayerView := mkPlayerView {
  view_id : PlayerId;
  view_seat : nat;
  view_stack : Chips;
  view_street_commitment : Chips;
  view_hand_commitment : Chips;
  view_status : PlayerStatus;
  view_ready : bool;
  view_connected : bool;
  view_hole_cards : list Card;
}.

Record TableSnapshot := mkSnapshot {
  snap_street : Street;
  snap_hand_id : Z;
  snap_server_sequence : Z;
  snap_dealer : option PlayerId;
  snap_acting_player : option PlayerId;
  snap_current_bet : Chips;
  snap_minimum_raise : Chips;
  snap_pot : Chips;
  snap_board : list Card;
  snap_players : list PlayerView;
}.

(** [TableSnapshot{}] *)
Definition TableSnapshot_default : TableSnapshot :=
  mkSnapshot Street_waiting 0 0 None None 0 0 0 [] [].

Record ActionCommand := mkCommand {
  cmd_player_id : PlayerId;
  cmd_type : ActionType;
  cmd_amount : Chips;
}.

Record PotAward := mkAward {
  pot_size : Chips;
  winners : list PlayerId;
  equal_share : Chips;
  odd_chips : Chips;
}.

Record ActionResult := mkResult {
  res_error : TableError;
  res_message : string;
  res_server_sequence : Z;
  res_awards : list PotAward;
  res_action_street : Street;
}.

Record Player := mkPlayer {
  pl_id : PlayerId;
  pl_seat : nat;
  pl_stack : Chips;
  pl_street_commitment : Chips;
  pl_hand_commitment : Chips;
  pl_status : PlayerStatus;
  pl_ready : bool;
  pl_connected : bool;
  pl_hole : Card * Card;
  pl_has_hole : bool;
}.

Record Table := mkTable {
  config_ : TableConfig;
  seats_ : list (option Player);
  street_ : Street;
  dealer_seat_ : option nat;
  acting_seat_ : option nat;
  current_bet_ : Chips;
  minimum_raise_ : Chips;
  pending_action_ : gset Z;
  raise_allowed_ : gset Z;
  board_ : list Card;
  deck_ : option Deck;
  hand_id_ : Z;
  server_sequence_ : Z;
  last_awards_ : list PotAward;
}.

(** ** Field updates *)

Definition with_seats v t := mkTable (config_ t) v (street_ t) (dealer_seat_ t) (acting_seat_ t)
  (current_bet_ t) (minimum_raise_ t) (pending_action_ t) (raise_allowed_ t) (board_ t) (deck_ t)
  (hand_id_ t) (server_sequence_ t) (last_awards_ t).
Definition with_street v t := mkTable (config_ t) (seats_ t) v (dealer_seat_ t) (acting_seat_ t)
  (current_bet_ t) (minimum_raise_ t) (pending_action_ t) (raise_allowed_ t) (board_ t) (deck_ t)
  (hand_id_ t) (server_sequence_ t) (last_awards_ t).
Definition with_dealer_seat v t := mkTable (config_ t) (seats_ t) (street_ t) v (acting_seat_ t)
  (current_bet_ t) (minimum_raise_ t) (pending_action_ t) (raise_allowed_ t) (board_ t) (deck_ t)
  (hand_id_ t) (server_sequence_ t) (last_awards_ t).
Definition with_acting_seat v t := mkTable (config_ t) (seats_ t) (street_ t) (dealer_seat_ t) v
  (current_bet_ t) (minimum_raise_ t) (pending_action_ t) (raise_allowed_ t) (board_ t) (deck_ t)
  (hand_id_ t) (server_sequence_ t) (last_awards_ t).
(** [current_bet_] and [minimum_raise_] *)
Definition with_bets b m t := mkTable (config_ t) (seats_ t) (street_ t) (dealer_seat_ t)
  (acting_seat_ t) b m (pending_action_ t) (raise_allowed_ t) (board_ t) (deck_ t)
  (hand_id_ t) (server_sequence_ t) (last_awards_ t).
(** [pending_action_] and [raise_allowed_] *)
Definition with_action_sets p r t := mkTable (config_ t) (seats_ t) (street_ t) (dealer_seat_ t)
  (acting_seat_ t) (current_bet_ t) (minimum_raise_ t) p r (board_ t) (deck_ t)
  (hand_id_ t) (server_sequence_ t) (last_awards_ t).
Definition with_board v t := mkTable (config_ t) (seats_ t) (street_ t) (dealer_seat_ t)
  (acting_seat_ t) (current_bet_ t) (minimum_raise_ t) (pending_action_ t) (raise_allowed_ t)
  v (deck_ t) (hand_id_ t) (server_sequence_ t) (last_awards_ t).
Definition with_deck v t := mkTable (config_ t) (seats_ t) (street_ t) (dealer_seat_ t)
  (acting_seat_ t) (current_bet_ t) (minimum_raise_ t) (pending_action_ t) (raise_allowed_ t)
  (board_ t) v (hand_id_ t) (server_sequence_ t) (last_awards_ t).
Definition with_hand_id v t := mkTable (config_ t) (seats_ t) (street_ t) (dealer_seat_ t)
  (acting_seat_ t) (current_bet_ t) (minimum_raise_ t) (pending_action_ t) (raise_allowed_ t)
  (board_ t) (deck_ t) v (server_sequence_ t) (last_awards_ t).
(** [++server_sequence_] *)
Definition bump_sequence t := mkTable (config_ t) (seats_ t) (street_ t) (dealer_seat_ t)
  (acting_seat_ t) (current_bet_ t) (minimum_raise_ t) (pending_action_ t) (raise_allowed_ t)
  (board_ t) (deck_ t) (hand_id_ t) (u64_succ (server_sequence_ t)) (last_awards_ t).
Definition with_last_awards v t := mkTable (config_ t) (seats_ t) (street_ t) (dealer_seat_ t)
  (acting_seat_ t) (current_bet_ t) (minimum_raise_ t) (pending_action_ t) (raise_allowed_ t)
  (board_ t) (deck_ t) (hand_id_ t) (server_sequence_ t) v.

Definition with_stack v p := mkPlayer (pl_id p) (pl_seat p) v (pl_street_commitment p)
  (pl_hand_commitment p) (pl_status p) (pl_ready p) (pl_connected p) (pl_hole p) (pl_has_hole p).
Definition with_commitments s h p := mkPlayer (pl_id p) (pl_seat p) (pl_stack p) s h (pl_status p)
  (pl_ready p) (pl_connected p) (pl_hole p) (pl_has_hole p).
Definition with_status v p := mkPlayer (pl_id p) (pl_seat p) (pl_stack p) (pl_street_commitment p)
  (pl_hand_commitment p) v (pl_ready p) (pl_connected p) (pl_hole p) (pl_has_hole p).
Definition with_ready v p := mkPlayer (pl_id p) (pl_seat p) (pl_stack p) (pl_street_commitment p)
  (pl_hand_commitment p) (pl_status p) v (pl_connected p) (pl_hole p) (pl_has_hole p).
Definition with_connected v p := mkPlayer (pl_id p) (pl_seat p) (pl_stack p)
  (pl_street_commitment p) (pl_hand_commitment p) (pl_status p) (pl_ready p) v (pl_hole p)
  (pl_has_hole p).
Definition with_hole h b p := mkPlayer (pl_id p) (pl_seat p) (pl_stack p)
  (pl_street_commitment p) (pl_hand_commitment p) (pl_status p) (pl_ready p) (pl_connected p) h b.

(** ** Access to seats *)

(** [seats_[i]] as an optional. Every index the sources use is below
    [seats_.size()] (a loop index, or a seat number kept in range). *)
Definition seat_at (t : Table) (i : nat) : option Player := mjoin (seats_ t !! i).

(** Store into an occupied seat. *)
Definition set_seat (i : nat) (p : Player) (t : Table) : Table :=
  with_seats (<[i := Some p]> (seats_ t)) t.

(** [for (auto& seat : seats_) if (seat.has_value()) ...] *)
Definition map_players (f : Player → Player) (t : Table) : Table :=
  with_seats (fmap (M:=option) f <$> seats_ t) t.

(** The seated players in seat order. *)
Definition players (t : Table) : list Player := omap id (seats_ t).

(** [std::count_if] over the occupied seats. *)
Definition count_players (ok : Player → bool) (t : Table) : nat :=
  length (List.filter ok (players t)).

Definition seat_is (id : PlayerId) (seat : option Player) : bool :=
  match seat with Some p => pl_id p =? id | None => false end.

Definition seatOf (t : Table) (id : PlayerId) : option nat :=
  fst <$> list_find (λ seat, Is_true (seat_is id seat)) (seats_ t).

(** The player with the given id, and the seat the returned pointer is into. *)
Definition findPlayer (t : Table) (id : PlayerId) : option (nat * Player) :=
  '(i, seat) ← list_find (λ seat, Is_true (seat_is id seat)) (seats_ t);
  p ← seat;
  Some (i, p).

(** ** Queries *)

Definition handIsRunning (s : Street) : bool :=
  (street_value Street_preflop <=? street_value s)
  && (street_value s <=? street_value Street_showdown).

Definition validateConfig (t : Table) : result TableError :=
  let c := config_ t in
  if (min_players c <? 2)%nat || (max_players c <? min_players c)%nat
     || (6 <? max_players c)%nat || (small_blind c <=? 0)
  then mret Error_invalid_configuration
  else
    doubled ← i64 (small_blind c * 2);
    mret (if (big_blind c <? doubled) || (min_buy_in c <=? 0) || (max_buy_in c <? min_buy_in c)
          then Error_invalid_configuration
          else Error_ok).

Definition canAct (p : Player) : bool :=
  bool_decide (pl_status p = Status_active) && (pl_stack p >? 0).

Definition is_contender (p : Player) : bool :=
  match pl_status p with
  | Status_active | Status_all_in | Status_disconnected => true
  | _ => false
  end.

Definition contenders (t : Table) : nat := count_players is_contender t.

(** [std::count_if] with [canAct], the local [actionable]. *)
Definition actionable (t : Table) : nat := count_players canAct t.

Definition is_pending (t : Table) (p : Player) : bool :=
  bool_decide (pl_id p ∈ pending_action_ t).

(** A test on the player in a seat; false for an empty seat. *)
Definition seat_ok (t : Table) (ok : Player → bool) (i : nat) : bool :=
  match seat_at t i with Some p => ok p | None => false end.

Definition participatingSeats (t : Table) : list nat :=
  List.filter (seat_ok t (λ p, bool_decide (pl_status p = Status_active)))
              (seq 0 (length (seats_ t))).

(** Dealt in and not sitting out. *)
Definition in_hand (p : Player) : bool :=
  match pl_status p with
  | Status_active | Status_all_in | Status_folded => true
  | _ => false
  end.

Definition nextParticipatingSeat (t : Table) (from : nat) : option nat :=
  scan_clockwise (length (seats_ t)) from (seat_ok t in_hand).

Definition nextCanActSeat (t : Table) (from : nat) : option nat :=
  scan_clockwise (length (seats_ t)) from (seat_ok t (λ p, canAct p && is_pending t p)).

Definition firstPostflopActor (t : Table) : option nat :=
  match dealer_seat_ t with
  | None => None
  | Some dealer => nextCanActSeat t dealer
  end.

Definition bettingRoundComplete (t : Table) : bool :=
  (contenders t <=? 1)%nat
  || forallb (λ p, negb (canAct p)
                   || negb (is_pending t p || negb (pl_street_commitment p =? current_bet_ t)))
             (players t).

Definition potSize (t : Table) : Chips := sumZ pl_hand_commitment (players t).

Definition totalChips (t : Table) : Chips :=
  sumZ (λ p, pl_stack p + (if decide (street_ t = Street_settled) then 0
                           else pl_hand_commitment p)) (players t).

Definition lastAwards (t : Table) : list PotAward := last_awards_ t.

(** ** Seating and flags *)

(** [Table::Table] *)
Definition Table_new (config : TableConfig) : Table :=
  mkTable config (replicate (max_players config) None) Street_waiting None None 0
    (big_blind config) ∅ ∅ [] None 0 0 [].

(** A [Player] with its default member initialisers. *)
Definition Player_new (id : PlayerId) (seat : nat) (stack : Chips) : Player :=
  mkPlayer id seat stack 0 0 Status_waiting false true
    (mkCard two clubs, mkCard two clubs) false.

Definition seatPlayer (id : PlayerId) (seat : nat) (buy_in : Chips) : M Table TableError :=
  t ← mget;
  valid ← mlift (validateConfig t);
  if negb (bool_decide (valid = Error_ok)) then mret Error_invalid_configuration
  else if handIsRunning (street_ t) then mret Error_hand_in_progress
  else if (length (seats_ t) <=? seat)%nat then mret Error_seat_out_of_range
  else if findPlayer t id then mret Error_player_already_seated
  else if seat_at t seat then mret Error_seat_occupied
  else if (buy_in <? min_buy_in (config_ t)) || (buy_in >? max_buy_in (config_ t))
       then mret Error_invalid_buy_in
  else
    mmodify (λ t, bump_sequence (set_seat seat (Player_new id seat buy_in) t)) ;;
    mret Error_ok.

Definition removePlayer (id : PlayerId) (t : Table) : TableError * Table :=
  match findPlayer t id with
  | None => (Error_player_not_found, t)
  | Some (seat, p) =>
      if handIsRunning (street_ t) && negb (bool_decide (pl_status p = Status_waiting))
      then (Error_hand_in_progress, t)
      else
        let t := with_seats (<[seat := None]> (seats_ t)) t in
        let t := if decide (dealer_seat_ t = Some seat) then with_dealer_seat None t else t in
        (Error_ok, bump_sequence t)
  end.

Definition setReady (id : PlayerId) (ready : bool) (t : Table) : TableError * Table :=
  if handIsRunning (street_ t) then (Error_hand_in_progress, t)
  else match findPlayer t id with
  | None => (Error_player_not_found, t)
  | Some (seat, p) =>
      if ready && (pl_stack p <=? 0) then (Error_invalid_buy_in, t)
      else (Error_ok, bump_sequence (set_seat seat (with_ready ready p) t))
  end.

Definition setConnected (id : PlayerId) (connected : bool) (t : Table) : TableError * Table :=
  match findPlayer t id with
  | None => (Error_player_not_found, t)
  | Some (seat, p) => (Error_ok, bump_sequence (set_seat seat (with_connected connected p) t))
  end.

(** ** Aborting a hand *)

(** [share + (index < odd ? 1 : 0)] *)
Definition award_share (award : PotAward) (index : nat) : Chips :=
  equal_share award + (if Z.of_nat index <? odd_chips award then 1 else 0).

(** Add [f index] to the stack of each listed winner that is still seated. *)
Fixpoint adjust_winners (f : nat → Chips) (ids : list PlayerId) (index : nat) (t : Table) : Table :=
  match ids with
  | [] => t
  | id :: ids =>
      let t := match findPlayer t id with
               | Some (seat, p) => set_seat seat (with_stack (pl_stack p + f index) p) t
               | None => t
               end in
      adjust_winners f ids (S index) t
  end.

(** The loop over [last_awards_] of [abortHand]. *)
Definition revert_awards (t : Table) : Table :=
  foldl (λ t award, adjust_winners (λ i, - award_share award i) (winners award) 0 t)
        t (last_awards_ t).

Definition refund_player (p : Player) : Player :=
  with_hole (pl_hole p) false (with_ready false (with_status Status_waiting
    (with_commitments 0 0 (with_stack (pl_stack p + pl_hand_commitment p) p)))).

Definition abortHand (t : Table) : TableError * Table :=
  if decide (street_ t = Street_waiting) then (Error_action_not_allowed, t)
  else
    let t := if decide (street_ t = Street_settled) then revert_awards t else t in
    let t := map_players refund_player t in
    let t := with_acting_seat None (with_street Street_waiting t) in
    let t := with_action_sets ∅ ∅ (with_bets 0 (big_blind (config_ t)) t) in
    let t := with_last_awards [] (with_deck None (with_board [] t)) in
    (Error_ok, bump_sequence t).

(** ** Dealing *)

(** Run a deck method on [*deck_]; a null deck is undefined. *)
Definition on_deck {A} (m : M Deck A) : M Table A := λ t,
  match deck_ t with
  | None => (Undef, t)
  | Some d => let '(r, d) := m d in (r, with_deck (Some d) t)
  end.

(** [hole[round] = card; has_hole = true] *)
Definition give_card (round : nat) (card : Card) (p : Player) : Player :=
  with_hole (match round with
             | O => (card, snd (pl_hole p))
             | _ => (fst (pl_hole p), card)
             end) true p.

(** [*seats_[i]] *)
Definition seat_ref (i : nat) : M Table Player := λ t, mderef (seat_at t i) t.

(** One round of [dealHoleCards]; returns the next seat to deal to. *)
Fixpoint deal_round (round : nat) (dealt : nat) (seat : option nat) : M Table (option nat) :=
  match dealt with
  | O => mret seat
  | S dealt =>
      i ← mderef seat;
      p ← seat_ref i;
      card ← on_deck draw;
      mmodify (set_seat i (give_card round card p)) ;;
      t ← mget;
      deal_round round dealt (nextParticipatingSeat t i)
  end.

Definition dealHoleCards (seats : list nat) : M Table unit :=
  t ← mget;
  match dealer_seat_ t with
  | None => mthrow (logic_error "dealer must be selected before dealing")
  | Some dealer =>
      seat ← deal_round 0 (length seats) (nextParticipatingSeat t dealer);
      deal_round 1 (length seats) seat ;;
      mret tt
  end.

Definition revealOne : M Table unit :=
  on_deck burn ;;
  card ← on_deck draw;
  mmodify (λ t, with_board (board_ t ++ [card]) t).

Definition revealFlop : M Table unit :=
  on_deck burn ;;
  a ← on_deck draw;
  mmodify (λ t, with_board (board_ t ++ [a]) t) ;;
  b ← on_deck draw;
  mmodify (λ t, with_board (board_ t ++ [b]) t) ;;
  c ← on_deck draw;
  mmodify (λ t, with_board (board_ t ++ [c]) t).

(** ** Betting bookkeeping *)

(** The common body of [postBlind] and of [payTo] in [act]. *)
Definition pay (payment : Chips) (p : Player) : Player :=
  let p := with_stack (pl_stack p - payment) p in
  let p := with_commitments (pl_street_commitment p + payment)
             (pl_hand_commitment p + payment) p in
  if pl_stack p =? 0 then with_status Status_all_in p else p.

Definition postBlind (blind : Chips) (p : Player) : Player := pay (Z.min blind (pl_stack p)) p.

Definition payTo (target : Chips) (p : Player) : Player :=
  pay (target - pl_street_commitment p) p.

Definition setInitialActor (big_blind_seat : nat) (participant_count : nat) (t : Table) : Table :=
  match dealer_seat_ t with
  | Some dealer =>
      if (participant_count =? 2)%nat then
        if seat_ok t (λ p, canAct p && is_pending t p) dealer
        then with_acting_seat (Some dealer) t
        else with_acting_seat (nextCanActSeat t dealer) t
      else with_acting_seat (nextCanActSeat t big_blind_seat) t
  | None => with_acting_seat (nextCanActSeat t big_blind_seat) t
  end.

Definition removeFromActionSets (id : PlayerId) (t : Table) : Table :=
  with_action_sets (pending_action_ t ∖ {[id]}) (raise_allowed_ t ∖ {[id]}) t.

(** The ids of the players that satisfy [ok], as the set the insert loops
    build. *)
Definition ids_where (ok : Player → bool) (t : Table) : gset Z :=
  list_to_set (pl_id <$> List.filter ok (players t)).

Definition resetAfterFullRaise (raiser : PlayerId) (t : Table) : Table :=
  let ids := ids_where (λ p, negb ((pl_id p =? raiser) || negb (canAct p))) t in
  with_action_sets ids ids t.

Definition addUnderCalledPlayers (actor : PlayerId) (t : Table) : Table :=
  let ids := ids_where (λ p, negb ((pl_id p =? actor) || negb (canAct p))
                             && (pl_street_commitment p <? current_bet_ t)) t in
  with_action_sets (pending_action_ t ∪ ids) (raise_allowed_ t) t.

Definition selectNextActor (previous_seat : nat) (t : Table) : Table :=
  with_acting_seat (nextCanActSeat t previous_seat) t.

(** ** Settlement *)

Definition markSettled (t : Table) : Table :=
  let t := map_players (with_ready false) t in
  let t := with_acting_seat None (with_street Street_settled t) in
  bump_sequence (with_bets 0 (minimum_raise_ t) (with_action_sets ∅ ∅ t)).

Definition with_awards (awards : list PotAward) (r : ActionResult) : ActionResult :=
  mkResult (res_error r) (res_message r) (res_server_sequence r) awards (res_action_street r).

Definition settleFoldWin (result : ActionResult) : M Table ActionResult :=
  t ← mget;
  match list_find (λ seat, Is_true (from_option is_contender false seat)) (seats_ t) with
  | Some (i, Some winner) =>
      let pot := potSize t in
      let awards := [mkAward pot [pl_id winner] pot 0] in
      mmodify (λ t, markSettled (with_last_awards awards
                      (set_seat i (with_stack (pl_stack winner + pot) winner) t))) ;;
      mret (with_awards awards result)
  | _ => mthrow (logic_error "fold settlement has no winner")
  end.

(** [std::unique] on a sorted range. *)
Fixpoint unique (l : list Z) : list Z :=
  match l with
  | x :: (y :: _) as l => if x =? y then unique l else x :: unique l
  | _ => l
  end.

(** The distinct positive commitments in ascending order. *)
Definition pot_levels (t : Table) : list Chips :=
  unique (merge_sort Z.le (List.filter (λ c, c >? 0) (pl_hand_commitment <$> players t))).

(** Distance clockwise from the dealer, the dealer itself last. *)
Definition clockwise_distance (t : Table) (seat : nat) : nat :=
  let n := length (seats_ t) in
  let origin := default 0%nat (dealer_seat_ t) in
  let d := ((seat + n - origin) `mod` n)%nat in
  if (d =? 0)%nat then n else d.

Definition seat_distance (t : Table) (id : PlayerId) : result (nat * PlayerId) :=
  match seatOf t id with
  | Some seat => Ok (clockwise_distance t seat, id)
  | None => Throw bad_optional_access
  end.

Fixpoint result_map {A B} (f : A → result B) (l : list A) : result (list B) :=
  match l with
  | [] => Ok []
  | x :: l => y ← f x; ys ← result_map f l; Ok (y :: ys)
  end.

Definition closer (a b : nat * PlayerId) : Prop := (fst a ≤ fst b)%nat.
#[export] Instance closer_dec a b : Decision (closer a b).
Proof. rw /closer. apply _. Defined.

(** [std::sort] by distance; its comparator, and so [seatOf(..).value()], is
    called only when there are two ids or more. *)
Definition orderedClockwise (t : Table) (ids : list PlayerId) : result (list PlayerId) :=
  if (length ids <=? 1)%nat then Ok ids
  else keyed ← result_map (seat_distance t) ids; Ok (snd <$> merge_sort closer keyed).

Definition player_cards (t : Table) (p : Player) : list Card :=
  board_ t ++ [fst (pl_hole p); snd (pl_hole p)].

(** The loop over [eligible]: the best value so far ([None] until
    [initialized]) and the ids that hold it. *)
Fixpoint best_players (t : Table) (eligible : list Player) (best : option HandValue)
    (ids : list PlayerId) : result (list PlayerId) :=
  match eligible with
  | [] => Ok ids
  | p :: eligible =>
      value ← evaluateBest (player_cards t p);
      match best with
      | None => best_players t eligible (Some value) [pl_id p]
      | Some b =>
          if HandValue_ltb b value then best_players t eligible (Some value) [pl_id p]
          else if HandValue_eqb value b then best_players t eligible best (ids ++ [pl_id p])
          else best_players t eligible best ids
      end
  end.

(** Pay [share + (index < odd)] to each winner; [findPlayer] returning null
    is undefined. *)
Fixpoint pay_winners (award : PotAward) (ids : list PlayerId) (index : nat) : M Table unit :=
  match ids with
  | [] => mret tt
  | id :: ids =>
      t ← mget;
      '(seat, p) ← mderef (findPlayer t id);
      mmodify (set_seat seat (with_stack (pl_stack p + award_share award index) p)) ;;
      pay_winners award ids (S index)
  end.

(** Paid into the layer up to [level], and not out of the hand. *)
Definition contributed (level : Chips) (p : Player) : bool := negb (pl_hand_commitment p <? level).
Definition eligible (level : Chips) (p : Player) : bool :=
  contributed level p
  && negb (bool_decide (pl_status p = Status_folded))
  && negb (bool_decide (pl_status p = Status_waiting)).

(** The body of the loop over [levels] from the evaluation on. *)
Definition award_pot (pot : Chips) (level : Chips) : M Table PotAward :=
  t ← mget;
  ids ← mlift (best_players t (List.filter (eligible level) (players t)) None []);
  ids ← mlift (orderedClockwise t ids);
  let n := Z.of_nat (length ids) in
  let award := mkAward pot ids (Z.quot pot n) (Z.rem pot n) in
  pay_winners award ids 0 ;;
  mret award.

Fixpoint award_levels (levels : list Chips) (previous : Chips) : M Table (list PotAward) :=
  match levels with
  | [] => mret []
  | level :: levels =>
      t ← mget;
      let pot := (level - previous) * Z.of_nat (count_players (contributed level) t) in
      if (pot <=? 0) || (count_players (eligible level) t =? 0)%nat
      then award_levels levels level
      else award ← award_pot pot level; awards ← award_levels levels level; mret (award :: awards)
  end.

Definition buildAndAwardPots : M Table (list PotAward) :=
  t ← mget; award_levels (pot_levels t) 0.

(** [while (board_.size() < 5)]; every iteration adds a card, so five suffice. *)
Fixpoint reveal_rest (fuel : nat) : M Table unit :=
  t ← mget;
  if (5 <=? length (board_ t))%nat then mret tt
  else match fuel with
  | O => mundef
  | S fuel => (if decide (board_ t = []) then revealFlop else revealOne) ;; reveal_rest fuel
  end.

Definition settleShowdown (result : ActionResult) : M Table ActionResult :=
  mmodify (with_street Street_showdown) ;;
  reveal_rest 5 ;;
  awards ← buildAndAwardPots;
  mmodify (λ t, markSettled (with_last_awards awards t)) ;;
  mret (with_awards awards result).

(** ** Streets *)

Definition advanceStreet : M Table unit :=
  mmodify (λ t,
    let t := map_players (λ p, with_commitments 0 (pl_hand_commitment p) p) t in
    with_action_sets ∅ ∅ (with_bets 0 (big_blind (config_ t)) t)) ;;
  t ← mget;
  match street_ t with
  | Street_preflop => mmodify (with_street Street_flop) ;; revealFlop
  | Street_flop => mmodify (with_street Street_turn) ;; revealOne
  | Street_turn => mmodify (with_street Street_river) ;; revealOne
  | _ => mthrow (logic_error "cannot advance the current street")
  end ;;
  mmodify (λ t, let ids := ids_where canAct t in with_action_sets ids ids t).

(** The [while (true)] loop. Each iteration that does not return advances the
    street, which fails past the river: four iterations suffice from any
    state. *)
Fixpoint advance_loop (fuel : nat) (result : ActionResult) : M Table ActionResult :=
  match fuel with
  | O => mundef
  | S fuel =>
      t ← mget;
      if (contenders t <=? 1)%nat then settleFoldWin result
      else if negb (bettingRoundComplete t) then
        match acting_seat_ t with
        | Some _ => mret result
        | None =>
            mmodify (with_acting_seat
              match street_ t, dealer_seat_ t with
              | Street_preflop, Some dealer => nextCanActSeat t dealer
              | _, _ => firstPostflopActor t
              end) ;;
            mret result
        end
      else if decide (street_ t = Street_river) then settleShowdown result
      else
        advanceStreet ;;
        t ← mget;
        if (actionable t <=? 1)%nat then
          mmodify (λ t, with_acting_seat None (with_action_sets ∅ (raise_allowed_ t) t)) ;;
          advance_loop fuel result
        else
          mmodify (with_acting_seat (firstPostflopActor t)) ;;
          mret result
  end.

Definition advanceUntilActionOrSettlement (result : ActionResult) : M Table ActionResult :=
  advance_loop 4 result.

(** ** Starting a hand *)

Definition ready_to_play (p : Player) : bool := pl_ready p && (pl_stack p >? 0).

(** The reset loop over the seats. *)
Definition enter_hand (p : Player) : Player :=
  with_status (if ready_to_play p then Status_active else Status_waiting)
    (with_hole (pl_hole p) false (with_commitments 0 0 p)).

(** The assignments from [deck_ = std::move(deck)] to [++server_sequence_]. *)
Definition open_hand (deck : Deck) (t : Table) : Table :=
  let t := with_last_awards [] (with_board [] (with_deck (Some deck) (map_players enter_hand t))) in
  let t := with_action_sets ∅ ∅ (with_bets 0 (big_blind (config_ t)) t) in
  let t := with_street Street_preflop (with_acting_seat None t) in
  bump_sequence (with_hand_id (u64_succ (hand_id_ t)) t).

(** The dealer button moves to the next participant. *)
Definition choose_dealer (participants : list nat) (t : Table) : Table :=
  match dealer_seat_ t with
  | None => with_dealer_seat (head participants) t
  | Some dealer =>
      match nextParticipatingSeat t dealer with
      | Some next => with_dealer_seat (Some next) t
      | None => with_dealer_seat (head participants) t
      end
  end.

Definition post_blind_at (seat : nat) (blind : Chips) : M Table unit :=
  p ← seat_ref seat; mmodify (set_seat seat (postBlind blind p)).

(** From [dealHoleCards(participants)] to the blinds being posted; returns
    the big blind's seat. *)
Definition deal_and_post (participants : list nat) : M Table nat :=
  dealHoleCards participants ;;
  t ← mget;
  dealer ← mderef (dealer_seat_ t);
  small_blind_seat ← (if (2 <? length participants)%nat
                      then mderef (nextParticipatingSeat t dealer) else mret dealer);
  big_blind_seat ← mderef (nextParticipatingSeat t small_blind_seat);
  post_blind_at small_blind_seat (small_blind (config_ t)) ;;
  post_blind_at big_blind_seat (big_blind (config_ t)) ;;
  small ← seat_ref small_blind_seat;
  big ← seat_ref big_blind_seat;
  mmodify (λ t, with_bets (Z.max (pl_street_commitment small) (pl_street_commitment big))
                          (minimum_raise_ t) t) ;;
  mret big_blind_seat.

(** The ids inserted by the loop over [participants]. *)
Definition actors_among (participants : list nat) (t : Table) : gset Z :=
  list_to_set (pl_id <$> List.filter canAct (omap (seat_at t) participants)).

Definition no_result : ActionResult := mkResult Error_ok "" 0 [] Street_waiting.

(** From the loop that fills the action sets on. *)
Definition begin_play (big_blind_seat : nat) (participants : list nat) : M Table unit :=
  mmodify (λ t, let ids := actors_among participants t in
                with_action_sets (pending_action_ t ∪ ids) (raise_allowed_ t ∪ ids) t) ;;
  mmodify (setInitialActor big_blind_seat (length participants)) ;;
  t ← mget;
  if (actionable t <=? 1)%nat then
    mmodify (λ t, with_acting_seat None (with_action_sets ∅ (raise_allowed_ t) t)) ;;
    advanceUntilActionOrSettlement no_result ;;
    mret tt
  else mret tt.

(** [Table::startHand(std::unique_ptr<Deck>)] *)
Definition startHand (deck : Deck) : M Table TableError :=
  t ← mget;
  valid ← mlift (validateConfig t);
  if negb (bool_decide (valid = Error_ok)) then mret Error_invalid_configuration
  else if handIsRunning (street_ t) then mret Error_hand_in_progress
  else if (count_players ready_to_play t <? min_players (config_ t))%nat
       then mret Error_not_enough_players
  else
    mmodify (open_hand deck) ;;
    t ← mget;
    let participants := participatingSeats t in
    if (length participants <? min_players (config_ t))%nat then
      mmodify (with_street Street_waiting) ;; mret Error_not_enough_players
    else
      mmodify (choose_dealer participants) ;;
      big_blind_seat ← deal_and_post participants;
      begin_play big_blind_seat participants ;;
      mret Error_ok.

(** [Table::startHand(RandomSource&)]: the table and the source. *)
Definition startHand_random `{!RandomSource R} : M (Table * R) TableError := λ '(t, r),
  match Deck_random r with
  | (Ok deck, r) => let '(e, t) := startHand deck t in (e, (t, r))
  | (Throw e, r) => (Throw e, (t, r))
  | (Undef, r) => (Undef, (t, r))
  end.

(** [Table::startHandWithDeck]: the handler catches every
    [std::invalid_argument] of the call, keeping the table as it is then. *)
Definition startHandWithDeck (cards : list Card) : M Table TableError := λ t,
  match Deck_of_cards cards with
  | Ok deck =>
      match startHand deck t with
      | (Throw (invalid_argument _), t) => (Ok Error_invalid_configuration, t)
      | r => r
      end
  | Throw (invalid_argument _) => (Ok Error_invalid_configuration, t)
  | Throw e => (Throw e, t)
  | Undef => (Undef, t)
  end.

(** ** Actions *)

(** What the [switch] of [act] does with a command of the acting player:
    a refusal, or the updated table. *)
Inductive switch_result :=
  | Refused (error : TableError) (message : string)
  | Applied (t : Table).

(** After a bet: a full raise reopens the action, a short one only asks the
    players who owe chips. *)
Definition after_raise (full : bool) (raise_size : Chips) (id : PlayerId) (t : Table) : Table :=
  if full then resetAfterFullRaise id (with_bets (current_bet_ t) raise_size t)
  else removeFromActionSets id (addUnderCalledPlayers id t).

Definition pay_and_bet (seat : nat) (p : Player) (target : Chips) (t : Table) : Table :=
  with_bets target (minimum_raise_ t) (set_seat seat (payTo target p) t).

Definition act_fold (seat : nat) (p : Player) (t : Table) : switch_result :=
  Applied (removeFromActionSets (pl_id p) (set_seat seat (with_status Status_folded p) t)).

Definition act_check (seat : nat) (p : Player) (t : Table) : switch_result :=
  if negb (pl_street_commitment p =? current_bet_ t)
  then Refused Error_action_not_allowed "check is only legal when no chips are owed"
  else Applied (removeFromActionSets (pl_id p) t).

Definition act_call (seat : nat) (p : Player) (t : Table) : switch_result :=
  let available := pl_street_commitment p + pl_stack p in
  if current_bet_ t <=? pl_street_commitment p
  then Refused Error_action_not_allowed "there is no bet to call"
  else Applied (removeFromActionSets (pl_id p)
         (set_seat seat (payTo (Z.min (current_bet_ t) available) p) t)).

Definition act_bet (seat : nat) (p : Player) (amount : Chips) (t : Table) : switch_result :=
  let available := pl_street_commitment p + pl_stack p in
  if negb (current_bet_ t =? 0)
  then Refused Error_action_not_allowed "an existing bet must be raised, not bet again"
  else if (amount <=? pl_street_commitment p) || (amount >? available)
  then Refused Error_invalid_amount "bet target is outside the player's available stack"
  else if (amount <? minimum_raise_ t) && negb (amount =? available)
  then Refused Error_minimum_raise_not_met "bet is below the table minimum"
  else Applied (after_raise (minimum_raise_ t <=? amount) amount (pl_id p)
                  (pay_and_bet seat p amount t)).

Definition act_raise (seat : nat) (p : Player) (amount : Chips) (t : Table) : switch_result :=
  let available := pl_street_commitment p + pl_stack p in
  let raise_size := amount - current_bet_ t in
  if current_bet_ t =? 0
  then Refused Error_action_not_allowed "raise requires an existing bet"
  else if negb (bool_decide (pl_id p ∈ raise_allowed_ t))
  then Refused Error_action_not_allowed "a short all-in did not reopen raising"
  else if (amount <=? current_bet_ t) || (amount >? available)
  then Refused Error_invalid_amount "raise target must exceed the current bet and fit the stack"
  else if (raise_size <? minimum_raise_ t) && negb (amount =? available)
  then Refused Error_minimum_raise_not_met "raise increment is below the minimum raise"
  else Applied (after_raise (minimum_raise_ t <=? raise_size) raise_size (pl_id p)
                  (pay_and_bet seat p amount t)).

Definition act_all_in (seat : nat) (p : Player) (t : Table) : switch_result :=
  let target := pl_street_commitment p + pl_stack p in
  let raise_size := target - current_bet_ t in
  if pl_stack p <=? 0
  then Refused Error_player_cannot_act "the player has no chips left"
  else if target <=? current_bet_ t
  then Applied (removeFromActionSets (pl_id p) (set_seat seat (payTo target p) t))
  else if negb (bool_decide (pl_id p ∈ raise_allowed_ t))
  then Refused Error_action_not_allowed "raising was not reopened for this player"
  else Applied (after_raise (minimum_raise_ t <=? raise_size) raise_size (pl_id p)
                  (pay_and_bet seat p target t)).

Definition act_switch (seat : nat) (p : Player) (command : ActionCommand) (t : Table)
    : switch_result :=
  match cmd_type command with
  | Action_fold => act_fold seat p t
  | Action_check => act_check seat p t
  | Action_call => act_call seat p t
  | Action_bet => act_bet seat p (cmd_amount command) t
  | Action_raise => act_raise seat p (cmd_amount command) t
  | Action_all_in => act_all_in seat p t
  end.

Definition fail (error : TableError) (message : string) (t : Table) : ActionResult :=
  mkResult error message (server_sequence_ t) [] Street_waiting.

(** [Table::succeed], which also counts the event. *)
Definition succeed : M Table ActionResult :=
  mmodify bump_sequence ;;
  t ← mget;
  mret (mkResult Error_ok "" (server_sequence_ t) [] Street_waiting).

Definition with_sequence (n : Z) (r : ActionResult) : ActionResult :=
  mkResult (res_error r) (res_message r) n (res_awards r) (res_action_street r).

(** [act] from [succeed()] on. *)
Definition act_finish (action_street : Street) (previous_seat : nat) : M Table ActionResult :=
  r ← succeed;
  let result := mkResult (res_error r) (res_message r) (res_server_sequence r) (res_awards r)
                  action_street in
  t ← mget;
  if (contenders t <=? 1)%nat then
    result ← settleFoldWin result;
    t ← mget;
    mret (with_sequence (server_sequence_ t) result)
  else
    result ← (if bettingRoundComplete t then
                mmodify (with_acting_seat None) ;; advanceUntilActionOrSettlement result
              else mmodify (selectNextActor previous_seat) ;; mret result);
    t ← mget;
    let result := with_sequence (server_sequence_ t) result in
    mret (if decide (street_ t = Street_settled) then with_awards (last_awards_ t) result
          else result).

Definition act (command : ActionCommand) : M Table ActionResult := λ t,
  if negb (handIsRunning (street_ t)) || bool_decide (street_ t = Street_showdown)
  then (Ok (fail Error_action_not_allowed "no betting round is active" t), t)
  else
    let not_turn := fail Error_not_players_turn
                      "the command was not sent by the acting player" t in
    match acting_seat_ t with
    | None => (Ok not_turn, t)
    | Some seat =>
        match seats_ t !! seat with
        | None => (Undef, t)
        | Some None => (Ok not_turn, t)
        | Some (Some p) =>
            if negb (pl_id p =? cmd_player_id command) then (Ok not_turn, t)
            else if negb (canAct p) || negb (is_pending t p)
            then (Ok (fail Error_player_cannot_act
                        "the player cannot act in this betting round" t), t)
            else
              match act_switch seat p command t with
              | Refused error message => (Ok (fail error message t), t)
              | Applied t' => act_finish (street_ t) (pl_seat p) t'
              end
        end
    end.

(** ** Views *)

Definition hole_list (p : Player) : list Card := [fst (pl_hole p); snd (pl_hole p)].

Definition player_view (t : Table) (viewer : option PlayerId) (p : Player) : PlayerView :=
  let own_cards := bool_decide (viewer = Some (pl_id p)) in
  let showdown_cards := bool_decide (street_ t = Street_settled)
                        && negb (bool_decide (pl_status p = Status_folded))
                        && negb (bool_decide (pl_status p = Status_waiting)) in
  mkPlayerView (pl_id p) (pl_seat p) (pl_stack p) (pl_street_commitment p)
    (pl_hand_commitment p) (pl_status p) (pl_ready p) (pl_connected p)
    (if pl_has_hole p && (own_cards || showdown_cards) then hole_list p else []).

Definition snapshot (t : Table) (viewer : option PlayerId) : TableSnapshot :=
  mkSnapshot (street_ t) (hand_id_ t) (server_sequence_ t)
    (i ← dealer_seat_ t; pl_id <$> seat_at t i)
    (i ← acting_seat_ t; pl_id <$> seat_at t i)
    (current_bet_ t) (minimum_raise_ t)
    (if decide (street_ t = Street_settled) then 0 else potSize t)
    (board_ t) (player_view t viewer <$> players t).

Definition with_view_holes (cards : list Card) (v : PlayerView) : PlayerView :=
  mkPlayerView (view_id v) (view_seat v) (view_stack v) (view_street_commitment v)
    (view_hand_commitment v) (view_status v) (view_ready v) (view_connected v) cards.

Definition audit_view (t : Table) (v : PlayerView) : PlayerView :=
  match findPlayer t (view_id v) with
  | Some (_, source) => if pl_has_hole source then with_view_holes (hole_list source) v else v
  | None => v
  end.

Definition auditSnapshot (t : Table) : TableSnapshot :=
  let s := snapshot t None in
  mkSnapshot (snap_street s) (snap_hand_id s) (snap_server_sequence s) (snap_dealer s)
    (snap_acting_player s) (snap_current_bet s) (snap_minimum_raise s) (snap_pot s)
    (snap_board s) (audit_view t <$> snap_players s).

Definition TableError_toString (error : TableError) : string :=
  match error with
  | Error_ok => "ok"
  | Error_invalid_configuration => "invalid configuration"
  | Error_seat_out_of_range => "seat out of range"
  | Error_seat_occupied => "seat occupied"
  | Error_player_already_seated => "player already seated"
  | Error_player_not_found => "player not found"
  | Error_invalid_buy_in => "invalid buy-in"
  | Error_hand_in_progress => "hand in progress"
  | Error_not_enough_players => "not enough players"
  | Error_player_not_ready => "player not ready"
  | Error_not_players_turn => "not player's turn"
  | Error_player_cannot_act => "player cannot act"
  | Error_action_not_allowed => "action not allowed"
  | Error_invalid_amount => "invalid amount"
  | Error_minimum_raise_not_met => "minimum raise not met"
  | Error_service_unavailable => "service unavailable"
  end.
