(* ===== verification/TableLib.v ===== *)
(** * Lemmas on seats and players

    Shared by the proofs about the table: loops over the seats are maps over
    the list of seated players, and a store through a player pointer is the
    map that changes the one player with that id. *)
From S2P Require Import Prelude Card Deck HandEvaluator Table.

(** ** Seats and the player list *)

Lemma elem_of_players t p : p ∈ players t ↔ ∃ i, seat_at t i = Some p.
Proof.
  rw /players list_elem_of_omap /seat_at. split.
  - intros (s & Hs & Hp). simpl in Hp. subst s.
    apply list_elem_of_lookup in Hs as [i Hi]. exists i. by rw Hi.
  - intros [i Hi]. destruct (seats_ t !! i) as [s|] eqn:Hs; [|done].
    exists s. split; [|done]. by eapply list_elem_of_lookup_2.
Qed.

Lemma seat_at_lookup t i p : seat_at t i = Some p ↔ seats_ t !! i = Some (Some p).
Proof. rw /seat_at. destruct (seats_ t !! i) as [[]|]; naive_solver. Qed.

Lemma seat_at_lt t i p : seat_at t i = Some p → (i < length (seats_ t))%nat.
Proof. rw seat_at_lookup. apply lookup_lt_Some. Qed.

Lemma players_map f t : players (map_players f t) = f <$> players t.
Proof.
  rw /players /map_players /=. induction (seats_ t) as [|[p|] l IH]; simpl; [done| |done].
  by f_equal.
Qed.

Lemma seat_at_map f t i : seat_at (map_players f t) i = f <$> seat_at t i.
Proof.
  rw /seat_at /map_players /= list_lookup_fmap. by destruct (seats_ t !! i) as [[]|].
Qed.

Lemma map_players_compose f g t :
  map_players f (map_players g t) = map_players (f ∘ g) t.
Proof.
  rw /map_players /with_seats /=. f_equal. rw -list_fmap_compose.
  apply list_fmap_ext. by intros _ [p|] _.
Qed.

Lemma map_players_id f t : (∀ p, p ∈ players t → f p = p) → map_players f t = t.
Proof.
  intros Hf. rw /map_players /with_seats. destruct t as [c s]; simpl in *. f_equal.
  rw -{2}(list_fmap_id s). apply list_fmap_ext. intros i [p|] Hi; [|done]. simpl. f_equal.
  apply Hf, elem_of_players. exists i. by rw seat_at_lookup.
Qed.

Lemma map_players_ext f g t :
  (∀ p, p ∈ players t → f p = g p) → map_players f t = map_players g t.
Proof.
  intros Hf. rw /map_players. f_equal.
  apply list_fmap_ext. intros i [p|] Hi; [|done]. simpl. f_equal.
  apply Hf, elem_of_players. exists i. by rw seat_at_lookup.
Qed.

(** Seats hold distinct ids. *)
Definition unique_ids (t : Table) : Prop := NoDup (pl_id <$> players t).

(** Change the player with the given id. *)
Definition update_player (id : Z) (g : Player → Player) (t : Table) : Table :=
  map_players (λ q, if pl_id q =? id then g q else q) t.

Lemma unique_ids_seat t i j p q :
  unique_ids t → seat_at t i = Some p → seat_at t j = Some q → pl_id p = pl_id q → i = j.
Proof.
  rw /unique_ids /players !seat_at_lookup. revert i j.
  induction (seats_ t) as [|s l IH]; intros i j Hnd Hi Hj Hid; [done|].
  assert (∀ k r, l !! k = Some (Some r) → pl_id r ∈ (pl_id <$> omap id l)) as Hin.
  { intros k r Hk. apply list_elem_of_fmap_2, list_elem_of_omap.
    exists (Some r). split; [by eapply list_elem_of_lookup_2|done]. }
  destruct i as [|i], j as [|j]; simplify_eq/=; [done|..].
  - apply NoDup_cons in Hnd as [Hnd _]. destruct Hnd. rw Hid. by eapply Hin.
  - apply NoDup_cons in Hnd as [Hnd _]. destruct Hnd. rw -Hid. by eapply Hin.
  - f_equal. apply IH; [|done..]. destruct s; simpl in Hnd; [|done].
    by apply NoDup_cons in Hnd as [_ ?].
Qed.

Lemma unique_ids_eq t p q :
  unique_ids t → p ∈ players t → q ∈ players t → pl_id p = pl_id q → p = q.
Proof.
  intros Hnd [i Hi]%elem_of_players [j Hj]%elem_of_players Hid.
  assert (i = j) as <- by by eapply unique_ids_seat. congruence.
Qed.

(** A store through a pointer to a seated player. *)
Lemma set_seat_update t i p g :
  unique_ids t → seat_at t i = Some p →
  set_seat i (g p) t = update_player (pl_id p) g t.
Proof.
  intros Hnd Hi. rw /set_seat /update_player /map_players. f_equal.
  apply list_eq. intros j. rw list_lookup_insert list_lookup_fmap.
  case_decide as Hij; [destruct Hij as [<- _]|].
  - apply seat_at_lookup in Hi. rw Hi /=. by rw Z.eqb_refl.
  - destruct (seats_ t !! j) as [[q|]|] eqn:Hj; [|done..]. simpl. do 2 f_equal.
    destruct (Z.eqb_spec (pl_id q) (pl_id p)) as [Hid|]; [|done]. destruct Hij.
    apply seat_at_lookup in Hj. split; [|by eapply seat_at_lt].
    symmetry in Hid. by eapply unique_ids_seat.
Qed.

Lemma players_update id g t :
  players (update_player id g t) = (λ q, if pl_id q =? id then g q else q) <$> players t.
Proof. apply players_map. Qed.

Lemma players_set_seat t i p g :
  unique_ids t → seat_at t i = Some p →
  players (set_seat i (g p) t) =
  (λ q, if pl_id q =? pl_id p then g q else q) <$> players t.
Proof. intros. rw set_seat_update //. apply players_update. Qed.

(** ** Lookup by id *)

Lemma seat_is_spec id s : Is_true (seat_is id s) ↔ ∃ p, s = Some p ∧ pl_id p = id.
Proof.
  destruct s as [p|]; simpl; [|naive_solver].
  rw Is_true_true Z.eqb_eq. naive_solver.
Qed.

Lemma findPlayer_Some t id i p :
  findPlayer t id = Some (i, p) → seat_at t i = Some p ∧ pl_id p = id.
Proof.
  rw /findPlayer. destruct (list_find _ _) as [[j s]|] eqn:Hf; simpl; [|done].
  apply list_find_Some in Hf as (Hj & Hs & _). apply seat_is_spec in Hs as (q & -> & Hq).
  simpl. intros [= <- <-]. by rw seat_at_lookup.
Qed.

Lemma findPlayer_None t id :
  findPlayer t id = None ↔ ∀ p, p ∈ players t → pl_id p ≠ id.
Proof.
  rw /findPlayer. destruct (list_find _ _) as [[j s]|] eqn:Hf; simpl.
  - apply list_find_Some in Hf as (Hj & Hs & _). apply seat_is_spec in Hs as (q & -> & Hq).
    simpl. split; [done|]. intros H. exfalso. apply (H q); [|done].
    apply elem_of_players. exists j. by rw seat_at_lookup.
  - split; [|done]. intros _ p [i Hi]%elem_of_players Hid.
    apply list_find_None in Hf. rw Forall_forall in Hf.
    apply (Hf (Some p)); [|apply seat_is_spec; eauto].
    apply seat_at_lookup in Hi. by eapply list_elem_of_lookup_2.
Qed.

Lemma findPlayer_is_Some t p :
  unique_ids t → p ∈ players t →
  ∃ i, findPlayer t (pl_id p) = Some (i, p) ∧ seat_at t i = Some p.
Proof.
  intros Hnd Hp. destruct (findPlayer t (pl_id p)) as [[i q]|] eqn:Hf.
  - pose proof Hf as [Hi Hq]%findPlayer_Some. exists i.
    assert (q = p) as ->; [|done]. apply (unique_ids_eq t); [done| |done|done].
    apply elem_of_players. by exists i.
  - rw findPlayer_None in Hf. by destruct (Hf p).
Qed.

Lemma seatOf_findPlayer t id : seatOf t id = fst <$> findPlayer t id.
Proof.
  rw /seatOf /findPlayer. destruct (list_find _ _) as [[j s]|] eqn:Hf; simpl; [|done].
  apply list_find_Some in Hf as (Hj & Hs & _). by apply seat_is_spec in Hs as (q & -> & _).
Qed.

(** ** Updates that keep ids *)

Lemma unique_ids_map f t :
  (∀ p, pl_id (f p) = pl_id p) → unique_ids (map_players f t) ↔ unique_ids t.
Proof.
  intros Hf. rw /unique_ids players_map -list_fmap_compose.
  assert (pl_id ∘ f <$> players t = pl_id <$> players t) as ->; [|done].
  apply list_fmap_ext. intros _ p _. apply Hf.
Qed.

(** ** Counting *)

Lemma count_players_ext f g t :
  (∀ p, p ∈ players t → f p = g p) → count_players f t = count_players g t.
Proof.
  rw /count_players. induction (players t) as [|p l IH]; intros H; simpl; [done|].
  rw H; [left|]. assert (length (List.filter f l) = length (List.filter g l)) as IHl.
  { apply IH. intros. apply H. by right. }
  by destruct (g p); simpl; rw IHl.
Qed.
