(* ===== verification/TableInv.v ===== *)
(** * The table invariant

    Well-formedness of a table between calls, and the part of it that the
    methods keep while they run. *)
From S2P Require Import Prelude Card Deck HandEvaluator Table TableLib.

(** ** Statement *)

Definition chips_ok (p : Player) : Prop :=
  0 ≤ pl_stack p ∧ 0 ≤ pl_street_commitment p ≤ pl_hand_commitment p.

(** What holds of every table. *)
Record table_ok (t : Table) : Prop := {
  ok_length : length (seats_ t) = max_players (config_ t);
  ok_seats : ∀ i p, seat_at t i = Some p → pl_seat p = i;
  ok_ids : unique_ids t;
  ok_chips : ∀ p, p ∈ players t → chips_ok p;
  ok_status : ∀ p, p ∈ players t → pl_status p ≠ Status_disconnected;
  ok_dealer : ∀ i, dealer_seat_ t = Some i → (i < length (seats_ t))%nat;
}.

Definition betting_street (s : Street) : Prop :=
  s = Street_preflop ∨ s = Street_flop ∨ s = Street_turn ∨ s = Street_river.

Definition board_size (s : Street) : nat :=
  match s with
  | Street_flop => 3
  | Street_turn => 4
  | Street_river => 5
  | _ => 0
  end.

(** Cards burnt and shown by the given street. *)
Definition cards_drawn (s : Street) : nat :=
  match s with
  | Street_flop => 4
  | Street_turn => 6
  | Street_river => 8
  | _ => 0
  end.

(** All cards in play: hole cards and board. *)
Definition hole_cards (p : Player) : list Card := if pl_has_hole p then hole_list p else [].
Definition dealt (t : Table) : list Card := mjoin (hole_cards <$> players t) ++ board_ t.

(** The cards in play came off the top of a full deck, [n] draws at most. *)
Definition cards_inv (n : nat) (t : Table) : Prop :=
  ∃ d, deck_ t = Some d ∧ good_deck d ∧
    dealt t ⊆+ take (next_ d) (cards_ d) ∧ (next_ d ≤ n)%nat.

Definition cards_ok (t : Table) : Prop :=
  cards_inv (12 + cards_drawn (street_ t)) t ∧
  length (board_ t) = board_size (street_ t).

(** What holds of every player while a hand runs. *)
Record player_ok (t : Table) (p : Player) : Prop := {
  pok_active : pl_status p = Status_active → 0 < pl_stack p;
  pok_waiting : pl_status p = Status_waiting →
    pl_hand_commitment p = 0 ∧ pl_has_hole p = false;
  pok_hole : in_hand p = true → pl_has_hole p = true;
  pok_bet : pl_street_commitment p ≤ current_bet_ t;
}.

(** What holds while a hand runs, also between the steps of one call. *)
Record hand_ok (t : Table) : Prop := {
  hand_base : table_ok t;
  hand_street : betting_street (street_ t);
  hand_players : ∀ p, p ∈ players t → player_ok t p;
  hand_pending : ∀ id, id ∈ pending_action_ t →
    ∃ p, p ∈ players t ∧ pl_id p = id ∧ canAct p = true;
  hand_dealer : ∃ i p, dealer_seat_ t = Some i ∧ seat_at t i = Some p ∧ in_hand p = true;
  hand_awards : last_awards_ t = [];
  hand_bets : 0 ≤ current_bet_ t ∧ 0 < minimum_raise_ t ∧ 0 < big_blind (config_ t);
  hand_cards : cards_ok t;
}.

(** Whoever can act and is not asked to has matched the bet. *)
Definition called (t : Table) : Prop :=
  ∀ p, p ∈ players t → canAct p = true → pl_id p ∉ pending_action_ t →
    pl_street_commitment p = current_bet_ t.

(** The largest commitment belongs to a player still in the hand: everyone
    who can act has put [m] into the pot on the earlier streets, nobody more,
    and someone in the hand has made the current bet on top of it. *)
Definition covered (t : Table) : Prop :=
  ∃ m, (∀ p, p ∈ players t → pl_hand_commitment p - pl_street_commitment p ≤ m) ∧
    (∀ p, p ∈ players t → canAct p = true → pl_hand_commitment p - pl_street_commitment p = m) ∧
    ∃ w, w ∈ players t ∧ is_contender w = true ∧
      pl_hand_commitment w - pl_street_commitment w = m ∧
      pl_street_commitment w = current_bet_ t.

(** The hand waits for a player who can act. *)
Definition actor_ok (t : Table) : Prop :=
  ∃ i p, acting_seat_ t = Some i ∧ seat_at t i = Some p ∧
    canAct p = true ∧ pl_id p ∈ pending_action_ t.

Definition awaiting (t : Table) : Prop :=
  hand_ok t ∧ called t ∧ (2 ≤ contenders t)%nat ∧ actor_ok t.

(** No hand has been dealt since the table opened or the last abort. *)
Definition idle (t : Table) : Prop :=
  table_ok t ∧ street_ t = Street_waiting ∧ acting_seat_ t = None ∧ last_awards_ t = [] ∧
  ∀ p, p ∈ players t → pl_status p = Status_waiting ∧ pl_hand_commitment p = 0.

(** A hand has ended and its awards are on record. *)
Definition settled (t : Table) : Prop :=
  table_ok t ∧ street_ t = Street_settled ∧ acting_seat_ t = None ∧
  pending_action_ t = ∅ ∧ current_bet_ t = 0.

(** A hand whose blinds left a single player with chips, who still owes some:
    nobody is asked to act. *)
Definition stalled (t : Table) : Prop :=
  hand_ok t ∧ street_ t = Street_preflop ∧ (2 ≤ contenders t)%nat ∧
  acting_seat_ t = None ∧ pending_action_ t = ∅ ∧
  ∃ p, p ∈ players t ∧ canAct p = true ∧ pl_street_commitment p < current_bet_ t ∧
    ∀ q, q ∈ players t → canAct q = true → q = p.

Definition inv (t : Table) : Prop := idle t ∨ awaiting t ∨ stalled t ∨ settled t.

(** ** Players after an update *)

Lemma elem_of_players_map f t q :
  q ∈ players (map_players f t) ↔ ∃ p, p ∈ players t ∧ q = f p.
Proof. rw players_map list_elem_of_fmap. naive_solver. Qed.

Lemma elem_of_players_update t p g q :
  unique_ids t → p ∈ players t →
  q ∈ players (update_player (pl_id p) g t) ↔
  q = g p ∨ (q ∈ players t ∧ pl_id q ≠ pl_id p).
Proof.
  intros Hnd Hp. rw /update_player elem_of_players_map. split.
  - intros (r & Hr & ->). destruct (Z.eqb_spec (pl_id r) (pl_id p)) as [Hid|]; [|by right].
    left. f_equal. by apply (unique_ids_eq t).
  - intros [->|[Hq Hid]].
    + exists p. by rw Z.eqb_refl.
    + exists q. by destruct (Z.eqb_spec (pl_id q) (pl_id p)).
Qed.

(** Changes of a player that keep who and where the player is. *)
Definition same_person (p q : Player) : Prop := pl_id q = pl_id p ∧ pl_seat q = pl_seat p.

Lemma table_ok_map f t t' :
  table_ok t → seats_ t' = seats_ (map_players f t) → config_ t' = config_ t →
  (dealer_seat_ t' = dealer_seat_ t ∨ dealer_seat_ t' = None) →
  (∀ p, p ∈ players t → same_person p (f p) ∧ chips_ok (f p) ∧
        pl_status (f p) ≠ Status_disconnected) →
  table_ok t'.
Proof.
  intros [Hlen Hseat Hids Hchips Hst Hdealer] Hs Hc Hd Hf.
  assert (∀ i, seat_at t' i = f <$> seat_at t i) as Hat.
  { intros i. rw -seat_at_map /seat_at. by rw Hs. }
  assert (players t' = f <$> players t) as Hp by (rw -players_map /players; by rw Hs).
  split.
  - rw Hs Hc -Hlen /map_players /=. by rw length_fmap.
  - intros i q. rw Hat. intros (p & Hi & ->)%fmap_Some.
    destruct (Hf p) as ([_ ->] & _); [apply elem_of_players; eauto|]. by apply Hseat.
  - rw /unique_ids Hp -list_fmap_compose.
    assert (pl_id ∘ f <$> players t = pl_id <$> players t) as ->; [|done].
    apply list_fmap_ext. intros i p Hi. simpl. apply Hf. by eapply list_elem_of_lookup_2.
  - intros q. rw Hp. intros (p & -> & Hq)%list_elem_of_fmap. by apply Hf.
  - intros q. rw Hp. intros (p & -> & Hq)%list_elem_of_fmap. by apply Hf.
  - intros i Hi. rw Hs /map_players /= length_fmap. apply Hdealer.
    destruct Hd as [Hd|Hd]; congruence.
Qed.

(** A table that differs in nothing [table_ok] looks at. *)
Lemma table_ok_same t t' :
  table_ok t → seats_ t' = seats_ t → config_ t' = config_ t →
  (dealer_seat_ t' = dealer_seat_ t ∨ dealer_seat_ t' = None) → table_ok t'.
Proof.
  intros Hok Hs Hc Hd. apply (table_ok_map id t); [done| |done|done|].
  - by rw map_players_id.
  - intros p Hp. split_and!; [done|by apply (ok_chips t)|by apply (ok_status t)].
Qed.

Lemma table_ok_update t p g t' :
  table_ok t → p ∈ players t → seats_ t' = seats_ (update_player (pl_id p) g t) →
  config_ t' = config_ t → dealer_seat_ t' = dealer_seat_ t →
  same_person p (g p) → chips_ok (g p) → pl_status (g p) ≠ Status_disconnected →
  table_ok t'.
Proof.
  intros Hok Hp Hs Hc Hd Hg1 Hg2 Hg3. eapply table_ok_map; [done|done|done|by left|].
  intros q Hq. simpl. destruct (Z.eqb_spec (pl_id q) (pl_id p)) as [Hid|].
  - assert (q = p) as -> by by apply (unique_ids_eq t); [apply ok_ids|..]. done.
  - split_and!; [done|by apply (ok_chips t)|by apply (ok_status t)].
Qed.

Lemma players_seats t t' : seats_ t' = seats_ t → players t' = players t.
Proof. rw /players. by intros ->. Qed.

Lemma seat_at_seats t t' i : seats_ t' = seats_ t → seat_at t' i = seat_at t i.
Proof. rw /seat_at. by intros ->. Qed.

(** ** Counting *)

Lemma count_players_pos ok t p :
  p ∈ players t → ok p = true → (1 ≤ count_players ok t)%nat.
Proof.
  intros Hp Hok. rw /count_players. assert (In p (List.filter ok (players t))) as Hin.
  { apply filter_In. split; [by apply list_elem_of_In|done]. }
  destruct (List.filter ok (players t)); [done|]. simpl. lia.
Qed.

Lemma count_players_zero ok t :
  count_players ok t = 0%nat ↔ ∀ p, p ∈ players t → ok p = false.
Proof.
  rw /count_players. rw length_zero_iff_nil. split.
  - intros Hf p Hp. destruct (ok p) eqn:Hok; [|done].
    assert (In p (List.filter ok (players t))) as Hin.
    { apply filter_In. split; [by apply list_elem_of_In|done]. }
    by rw Hf in Hin.
  - intros H. destruct (List.filter ok (players t)) as [|p l] eqn:Hf; [done|].
    assert (In p (List.filter ok (players t))) as [Hp Hok]%filter_In; [rw Hf; by left|].
    rw H // in Hok. by apply list_elem_of_In.
Qed.

Lemma count_players_le f g t :
  (∀ p, p ∈ players t → f p = true → g p = true) →
  (count_players f t ≤ count_players g t)%nat.
Proof.
  rw /count_players. induction (players t) as [|p l IH]; intros H; simpl; [done|].
  assert (length (List.filter f l) ≤ length (List.filter g l))%nat.
  { apply IH. intros. apply H; [by right|done]. }
  destruct (f p) eqn:Hf; [rw H //; [left|simpl; lia]|].
  destruct (g p); simpl; lia.
Qed.

Lemma count_players_exists ok t :
  (1 ≤ count_players ok t)%nat → ∃ p, p ∈ players t ∧ ok p = true.
Proof.
  rw /count_players. destruct (List.filter ok (players t)) as [|p l] eqn:Hf; simpl; [lia|].
  intros _. assert (In p (List.filter ok (players t))) as [Hp Hok]%filter_In; [rw Hf; by left|].
  exists p. split; [by apply list_elem_of_In|done].
Qed.

Lemma filter_length_fmap {A} (ok : A → bool) (f : A → A) l :
  length (List.filter ok (f <$> l)) = length (List.filter (ok ∘ f) l).
Proof. induction l as [|x l IH]; simpl; [done|]. destruct (ok (f x)); simpl; by rw IH. Qed.

Lemma count_players_map ok f t :
  count_players ok (map_players f t) = count_players (ok ∘ f) t.
Proof. rw /count_players players_map. apply filter_length_fmap. Qed.

Lemma count_players_seats ok t t' :
  seats_ t' = seats_ t → count_players ok t' = count_players ok t.
Proof. rw /count_players. by intros ->%players_seats. Qed.

(** ** The scans *)

Lemma seat_ok_spec t ok i : seat_ok t ok i = true ↔ ∃ p, seat_at t i = Some p ∧ ok p = true.
Proof. rw /seat_ok. destruct (seat_at t i); naive_solver. Qed.

Lemma nextCanActSeat_Some t from i :
  nextCanActSeat t from = Some i →
  ∃ p, seat_at t i = Some p ∧ canAct p = true ∧ pl_id p ∈ pending_action_ t.
Proof.
  intros [_ (p & Hp & Hok)%seat_ok_spec]%scan_clockwise_Some.
  apply andb_true_iff in Hok as [? ?%bool_decide_eq_true]. eauto.
Qed.

Lemma nextCanActSeat_is_Some t from p :
  p ∈ players t → canAct p = true → pl_id p ∈ pending_action_ t →
  is_Some (nextCanActSeat t from).
Proof.
  intros [i Hi]%elem_of_players Hc Hp. destruct (nextCanActSeat t from) eqn:Hn; [done|].
  exfalso. pose proof (scan_clockwise_None _ _ _ Hn i (seat_at_lt _ _ _ Hi)) as Hf.
  apply not_true_iff_false in Hf. apply Hf, seat_ok_spec. exists p. split; [done|].
  rw Hc /is_pending /=. by apply bool_decide_eq_true.
Qed.

Lemma nextParticipatingSeat_Some t from i :
  nextParticipatingSeat t from = Some i → ∃ p, seat_at t i = Some p ∧ in_hand p = true.
Proof. intros [_ (p & Hp & Hok)%seat_ok_spec]%scan_clockwise_Some. eauto. Qed.

Lemma nextParticipatingSeat_is_Some t from p :
  p ∈ players t → in_hand p = true → is_Some (nextParticipatingSeat t from).
Proof.
  intros [i Hi]%elem_of_players Hc. destruct (nextParticipatingSeat t from) eqn:Hn; [done|].
  exfalso. pose proof (scan_clockwise_None _ _ _ Hn i (seat_at_lt _ _ _ Hi)) as Hf.
  apply not_true_iff_false in Hf. apply Hf, seat_ok_spec. eauto.
Qed.
