(* ===== verification/TableBetting.v ===== *)
(** * Betting actions keep the invariant

    Every branch of the [switch] of [Table::act] is one shape of step: the
    acting player changes, then the bet, the minimum raise and the action
    sets. *)
From S2P Require Import Prelude Card Deck HandEvaluator Table TableLib TableInv.

(** ** The shape of a step *)

Definition bet_step (id : Z) (g : Player → Player) (bet raise : Z) (pend allow : gset Z)
    (t : Table) : Table :=
  with_action_sets pend allow (with_bets bet raise (update_player id g t)).

(** What an action may do to the acting player. *)
Record actor_step (p q : Player) : Prop := {
  step_person : same_person p q;
  step_chips : chips_ok q;
  step_status : pl_status q = Status_active ∨ pl_status q = Status_folded ∨
                pl_status q = Status_all_in;
  step_active : pl_status q = Status_active → 0 < pl_stack q;
  step_hole : pl_hole q = pl_hole p ∧ pl_has_hole q = pl_has_hole p;
  step_stake : pl_stack q + pl_hand_commitment q = pl_stack p + pl_hand_commitment p;
  step_prior : pl_hand_commitment q - pl_street_commitment q =
               pl_hand_commitment p - pl_street_commitment p;
  step_street : pl_street_commitment p ≤ pl_street_commitment q;
}.

Lemma canAct_spec p : canAct p = true ↔ pl_status p = Status_active ∧ 0 < pl_stack p.
Proof. rw /canAct andb_true_iff bool_decide_eq_true. split; intros []; split; lia || done. Qed.

Lemma canAct_in_hand p : canAct p = true → in_hand p = true ∧ is_contender p = true.
Proof. intros [Hs _]%canAct_spec. by rw /in_hand /is_contender Hs. Qed.

Lemma dealt_update t t' f :
  seats_ t' = seats_ (map_players f t) → board_ t' = board_ t →
  (∀ p, p ∈ players t → hole_cards (f p) = hole_cards p) → dealt t' = dealt t.
Proof.
  intros Hs Hb Hf. rw /dealt Hb. f_equal. f_equal.
  assert (players t' = f <$> players t) as -> by (rw -players_map /players; by rw Hs).
  rw -list_fmap_compose. apply list_fmap_ext. intros i p Hi. apply Hf.
  by eapply list_elem_of_lookup_2.
Qed.

Lemma cards_inv_same n t t' :
  cards_inv n t → deck_ t' = deck_ t → dealt t' = dealt t → cards_inv n t'.
Proof. intros (d & Hd & Hg & Hp & Hn) E1 E2. exists d. by rw E1 E2. Qed.

Lemma cards_ok_same t t' :
  cards_ok t → deck_ t' = deck_ t → street_ t' = street_ t → board_ t' = board_ t →
  dealt t' = dealt t → cards_ok t'.
Proof.
  intros [Hc Hl] E1 E2 E3 E4. rw /cards_ok E2 E3. split; [|done]. by eapply cards_inv_same.
Qed.

Section step.
  Context (t : Table) (p : Player) (g : Player → Player) (bet raise : Z) (pend allow : gset Z).
  Hypothesis Hok : hand_ok t.
  Hypothesis Hp : p ∈ players t.
  Hypothesis Hact : canAct p = true.
  Hypothesis Hg : actor_step p (g p).
  Hypothesis Hbet : current_bet_ t ≤ bet.
  Hypothesis Hgbet : pl_street_commitment (g p) ≤ bet.
  Hypothesis Hraise : 0 < raise.
Let t' := bet_step (pl_id p) g bet raise pend allow t.

Lemma bet_step_players q :
  q ∈ players t' ↔ q = g p ∨ (q ∈ players t ∧ pl_id q ≠ pl_id p).
Proof.
  rw -(elem_of_players_update t p g q) //. apply ok_ids, (hand_base t Hok).
Qed.

Lemma bet_step_ok :
  (∀ id, id ∈ pend → ∃ q, q ∈ players t' ∧ pl_id q = id ∧ canAct q = true) →
  hand_ok t'.
Proof.
  intros Hpend. destruct Hg as [[Hid Hseat] Hchips Hstat Hpos [Hh Hhh] _ _ _].
  pose proof (hand_base t Hok) as Hbase.
  assert (∀ q, q ∈ players t → same_person q (if pl_id q =? pl_id p then g q else q) ∧
               hole_cards (if pl_id q =? pl_id p then g q else q) = hole_cards q ∧
               (in_hand (if pl_id q =? pl_id p then g q else q) = in_hand q)) as Hmap.
  { intros q Hq. destruct (Z.eqb_spec (pl_id q) (pl_id p)) as [Hqp|]; [|done].
    assert (q = p) as -> by by apply (unique_ids_eq t); [apply ok_ids|..].
    split_and!; [done|by rw /hole_cards /hole_list Hh Hhh|].
    destruct (canAct_in_hand p Hact) as [-> _]. rw /in_hand. by destruct Hstat as [-> | [-> | ->]]. }
  split.
  - eapply table_ok_update; [done|done|done..|]. by destruct Hstat as [-> | [-> | ->]].
  - apply (hand_street t Hok).
  - intros q. rw bet_step_players. intros [->|[Hq Hne]].
    + split; [done|by destruct Hstat as [-> | [-> | ->]]| |done].
      intros _. rw Hhh. apply (hand_players t Hok p Hp). by apply canAct_in_hand.
    + destruct (hand_players t Hok q Hq) as [H1 H2 H3 H4].
      split; [done|done|done|simpl; lia].
  - done.
  - destruct (hand_dealer t Hok) as (i & q & Hd & Hi & Hin). exists i.
    exists (if pl_id q =? pl_id p then g q else q). split_and!; [done| |].
    + rw (seat_at_seats (update_player (pl_id p) g t)) // /update_player seat_at_map Hi //.
    + destruct (Hmap q) as (_ & _ & ->); [apply elem_of_players; eauto|done].
  - apply (hand_awards t Hok).
  - destruct (hand_bets t Hok) as (? & ? & ?). simpl. split_and!; [lia..|done].
  - apply (cards_ok_same t); [by apply hand_cards|done..|].
    eapply dealt_update; [done|done|]. intros q Hq. by apply Hmap.
Qed.

Lemma bet_step_called :
  (∀ q, q ∈ players t → pl_id q ≠ pl_id p → canAct q = true → pl_id q ∉ pend →
        pl_street_commitment q = bet) →
  (canAct (g p) = true → pl_id p ∉ pend → pl_street_commitment (g p) = bet) →
  called t'.
Proof.
  intros Hothers Hself q. rw bet_step_players. intros [->|[Hq Hne]]; [|by apply Hothers].
  by destruct (step_person _ _ Hg) as [-> _].
Qed.

Lemma bet_step_contenders :
  contenders t' = (if is_contender (g p) then contenders t else pred (contenders t)).
Proof.
  rw /contenders (count_players_seats _ (update_player (pl_id p) g t)) //.
  rw /update_player /count_players players_map filter_length_fmap.
  pose proof (ok_ids t (hand_base t Hok)) as Hnd. rw /unique_ids in Hnd.
  destruct (canAct_in_hand p Hact) as [_ Hc].
  revert Hnd Hp. induction (players t) as [|q l IH]; simpl; [by intros _ ?%not_elem_of_nil|].
  rw NoDup_cons elem_of_cons. intros [Hq Hnd] Hin.
  destruct (Z.eqb_spec (pl_id q) (pl_id p)) as [Hqp|Hqp].
  - assert (q = p) as ->.
    { destruct Hin as [->|Hin]; [done|]. destruct Hq. rw Hqp. by apply list_elem_of_fmap_2. }
    assert (List.filter (is_contender ∘ (λ q, if pl_id q =? pl_id p then g q else q)) l
            = List.filter is_contender l) as ->.
    { apply filter_ext_in. intros r Hr%list_elem_of_In. simpl.
      destruct (Z.eqb_spec (pl_id r) (pl_id p)) as [Hrp|]; [|done].
      destruct Hq. rw -Hrp. by apply list_elem_of_fmap_2. }
    rw Hc. by destruct (is_contender (g p)).
  - destruct Hin as [->|Hin]; [done|]. specialize (IH Hnd Hin).
    destruct (is_contender q); simpl; rw IH; destruct (is_contender (g p)); try done.
    assert (1 ≤ length (List.filter is_contender l))%nat; [|lia].
    assert (In p (List.filter is_contender l)) as Hf.
    { apply filter_In. by rw -list_elem_of_In. }
    destruct (List.filter is_contender l); simpl; [done|lia].
Qed.
End step.

(** ** The players the action sets name *)

Lemma elem_of_ids_where ok t id :
  id ∈ ids_where ok t ↔ ∃ p, p ∈ players t ∧ ok p = true ∧ pl_id p = id.
Proof.
  rw /ids_where elem_of_list_to_set list_elem_of_fmap. split.
  - intros (p & -> & [Hp Hok]%list_elem_of_In%filter_In). exists p.
    split_and!; [by apply list_elem_of_In|done..].
  - intros (p & Hp & Hok & <-). exists p. split; [done|].
    apply list_elem_of_In, filter_In. by rw -list_elem_of_In.
Qed.

(** ** Paying *)

Lemma pay_step p amount :
  chips_ok p → canAct p = true → 0 ≤ amount ≤ pl_stack p → actor_step p (pay amount p).
Proof.
  intros [? ?] [Hs Hpos]%canAct_spec Ha. rw /pay /=.
  destruct (Z.eqb_spec (pl_stack p - amount) 0); split; simpl; try done;
    rw /chips_ok /= ?Hs; lia || naive_solver lia.
Qed.

Lemma pay_street p amount :
  pl_street_commitment (pay amount p) = pl_street_commitment p + amount.
Proof. rw /pay /=. by destruct (_ =? _). Qed.

Lemma pay_stack p amount : pl_stack (pay amount p) = pl_stack p - amount.
Proof. rw /pay /=. by destruct (_ =? _). Qed.

Lemma pay_contender p amount : canAct p = true → is_contender (pay amount p) = true.
Proof. intros [Hs _]%canAct_spec. rw /pay /=. destruct (_ =? _); rw /is_contender //= Hs //. Qed.

Lemma pay_canAct p amount :
  canAct (pay amount p) = true → pl_stack p - amount ≠ 0.
Proof.
  rw canAct_spec /pay /=. destruct (Z.eqb_spec (pl_stack p - amount) 0); [|done].
  by intros [??].
Qed.

Lemma pay_id p amount : pl_id (pay amount p) = pl_id p.
Proof. rw /pay /=. by destruct (_ =? _). Qed.

(** ** Every branch of the switch is such a step *)

(** An applied action of [p]: the step it makes and what is known of it. *)
Inductive applied (t : Table) (p : Player) (fold : bool) : Table → Prop :=
  | applied_step g bet raise pend allow :
      actor_step p (g p) →
      current_bet_ t ≤ bet → pl_street_commitment (g p) ≤ bet → 0 < raise →
      (current_bet_ t < bet → pl_street_commitment (g p) = bet ∧ fold = false) →
      is_contender (g p) = negb fold →
      (∀ id, id ∈ pend → id ≠ pl_id p ∧ ∃ q, q ∈ players t ∧ pl_id q = id ∧ canAct q = true) →
      (∀ q, q ∈ players t → pl_id q ≠ pl_id p → canAct q = true → pl_id q ∉ pend →
            pl_street_commitment q = bet) →
      (canAct (g p) = true → pl_street_commitment (g p) = bet) →
      (pl_stack (g p) < pl_stack p ∨
       pl_stack (g p) = pl_stack p ∧ pend = pending_action_ t ∖ {[pl_id p]}) →
      applied t p fold (bet_step (pl_id p) g bet raise pend allow t).

Lemma applied_ok t p fold t' :
  hand_ok t → p ∈ players t → canAct p = true → applied t p fold t' →
  hand_ok t' ∧ called t' ∧ street_ t' = street_ t ∧
  contenders t' = (if fold then pred (contenders t) else contenders t).
Proof.
  intros Hok Hp Hact [g bet raise pend allow Hg Hb Hgb Hr _ Hc Hpend Hoth Hself _]. split_and!.
  - apply bet_step_ok; try done. intros id [Hid (q & Hq & <- & Hca)]%Hpend.
    exists q. split; [|done]. apply bet_step_players; try done. by right.
  - apply bet_step_called; try done. naive_solver.
  - done.
  - rw bet_step_contenders // Hc. by destruct fold.
Qed.

(** Only a fold of a player who owes nothing can take the largest commitment
    out of the hand. *)
Lemma applied_covered t p fold t' :
  hand_ok t → p ∈ players t → canAct p = true → applied t p fold t' →
  (fold = true → pl_street_commitment p < current_bet_ t) → covered t → covered t'.
Proof.
  intros Hok Hp Hact [g bet raise pend allow Hg Hb Hgb Hr Hnew Hc _ _ _ _] Hfold
    (m & Hle & Heq & (w & Hw & Hcw & Hmw & Hbw)). destruct Hg as [[Hid Hseat] _ _ _ _ _ Hprior Hstreet].
  assert (∀ q, q ∈ players (bet_step (pl_id p) g bet raise pend allow t) ↔
    q = g p ∨ (q ∈ players t ∧ pl_id q ≠ pl_id p)) as Hpl
    by (intros; by apply bet_step_players). exists m. split_and!.
  - intros q [->|[Hq _]]%Hpl; [rw Hprior|]; by apply Hle.
  - intros q [->|[Hq _]]%Hpl Hca; [rw Hprior|]; by apply Heq.
  - assert (g p ∈ players (bet_step (pl_id p) g bet raise pend allow t)) as Hgp by (apply Hpl; by left).
    destruct (decide (current_bet_ t < bet)) as [Hlt|Hnlt].
    { exists (g p). split_and!; [done| |by rw Hprior; apply Heq|by apply Hnew].
      rw Hc. by destruct (Hnew Hlt) as [_ ->]. }
    assert (bet = current_bet_ t) as -> by lia.
    destruct (decide (pl_id w = pl_id p)) as [Hwp|Hwp].
    + assert (w = p) as ->.
      { apply (unique_ids_eq t); [apply ok_ids, (hand_base t Hok)|done..]. }
      exists (g p). split_and!; [done| |by rw Hprior|simpl; lia].
      rw Hc. destruct fold; [|done]. specialize (Hfold eq_refl). lia.
    + exists w. split_and!; [apply Hpl; by right|done..].
Qed.

Section switch.
  Context (t : Table) (seat : nat) (p : Player).
  Hypothesis Hok : hand_ok t.
  Hypothesis Hcalled : called t.
  Hypothesis Hseat : seat_at t seat = Some p.
  Hypothesis Hact : canAct p = true.

Let Hp : p ∈ players t.
Proof. apply elem_of_players. by exists seat. Qed.
Let Hids : unique_ids t.
Proof. apply ok_ids, (hand_base t Hok). Qed.
Let Hchips : chips_ok p.
Proof. by apply (ok_chips t (hand_base t Hok)). Qed.

(** Leaving the action sets with the bet unchanged: fold, check, call. *)
Lemma applied_leave fold g :
  actor_step p (g p) → pl_street_commitment (g p) ≤ current_bet_ t →
  is_contender (g p) = negb fold →
  (canAct (g p) = true → pl_street_commitment (g p) = current_bet_ t) →
  pl_stack (g p) ≤ pl_stack p →
  applied t p fold (removeFromActionSets (pl_id p) (set_seat seat (g p) t)).
Proof.
  intros Hg Hb Hc Hself Hle. rw set_seat_update //.
  apply (applied_step t p fold g (current_bet_ t) (minimum_raise_ t)); try done.
  - apply (hand_bets t Hok).
  - lia.
  - intros id [Hid Hne]%elem_of_difference. split; [set_solver|]. by apply (hand_pending t Hok).
  - intros q Hq Hne Hca Hnot. apply Hcalled; [done..|]. set_solver.
  - destruct (decide (pl_stack (g p) = pl_stack p)); [by right|left; lia].
Qed.

(** Raising the bet to [target]. *)
Lemma applied_raise full size target :
  current_bet_ t < target → target ≤ pl_street_commitment p + pl_stack p →
  (full = true → 0 < size) →
  applied t p false (after_raise full size (pl_id p) (pay_and_bet seat p target t)).
Proof.
  intros Hlo Hhi Hsize.
  assert (actor_step p (payTo target p)) as Hstep.
  { apply pay_step; [done..|]. pose proof (pok_bet t p (hand_players t Hok p Hp)). lia. }
  assert (pl_street_commitment (payTo target p) = target) as Hpaid.
  { rw /payTo pay_street. lia. }
  assert (pl_stack (payTo target p) < pl_stack p) as Hless.
  { rw /payTo pay_stack. pose proof (pok_bet t p (hand_players t Hok p Hp)). lia. }
  rw /pay_and_bet set_seat_update //.
  pose proof (elem_of_players_update t p (payTo target)) as Hpl.
  assert (∀ sel ok, (∀ q, sel q = negb ((pl_id q =? pl_id p) || negb (canAct q)) && ok q) → ∀ id,
      id ∈ ids_where sel
      (with_bets target (minimum_raise_ t) (update_player (pl_id p) (payTo target) t)) ↔
      ∃ q, q ∈ players t ∧ pl_id q ≠ pl_id p ∧ canAct q = true ∧ ok q = true ∧ pl_id q = id) as Hids'.
  { intros sel ok Hsel id. rw elem_of_ids_where. setoid_rewrite Hpl; [|done..]. split.
    - intros (q & [->|[Hq Hne]] & Htrue & <-); rw Hsel in Htrue; [by rw pay_id Z.eqb_refl in Htrue|].
      exists q. by destruct (Z.eqb_spec (pl_id q) (pl_id p)), (canAct q), (ok q).
    - intros (q & Hq & Hne & Hca & Hokq & <-). exists q. split; [by right|].
      rw Hsel Hca Hokq. by destruct (Z.eqb_spec (pl_id q) (pl_id p)). }
  destruct full; rw /after_raise.
  - eapply (applied_step t p false (payTo target) target size); try done.
    + lia.
    + rw Hpaid. lia.
    + by apply Hsize.
    + by apply pay_contender.
    + intros id Hid. apply (Hids' _ (λ _, true)) in Hid; [|intros; by rw andb_true_r].
      destruct Hid as (q & ? & ? & ? & ? & <-). eauto 10.
    + intros q Hq Hne Hca []. apply (Hids' _ (λ _, true)); [intros; by rw andb_true_r|].
      eauto 10.
    + by left.
  - eapply (applied_step t p false (payTo target) target (minimum_raise_ t)); try done.
    + lia.
    + rw Hpaid. lia.
    + apply (hand_bets t Hok).
    + by apply pay_contender.
    + intros id [[Hid|Hid]%elem_of_union Hne]%elem_of_difference;
        (split; [set_solver|]); [by apply (hand_pending t Hok)|].
      apply (Hids' _ (λ q, pl_street_commitment q <? target)) in Hid; [|done].
      destruct Hid as (q & ? & ? & ? & ? & <-). eauto 10.
    + intros q Hq Hne Hca Hnot. exfalso. apply Hnot, elem_of_difference.
      split; [apply elem_of_union; right|set_solver].
      apply (Hids' _ (λ q, pl_street_commitment q <? target)); [done|]. exists q. split_and!; [done..| |done].
      pose proof (pok_bet t q (hand_players t Hok q Hq)). simpl. lia.
    + by left.
Qed.

Lemma set_seat_id : set_seat seat p t = t.
Proof.
  rw /set_seat list_insert_id; [by apply seat_at_lookup|]. by destruct t.
Qed.

Lemma actor_step_refl : actor_step p p.
Proof. destruct (canAct_spec p) as [[Hs ?] _]; [done|]. split; try done. by left. Qed.

Lemma actor_step_fold : actor_step p (with_status Status_folded p).
Proof. split; try done. simpl. eauto. Qed.

(** Every action the switch accepts is such a step. *)
Lemma act_switch_applied cmd t' :
  act_switch seat p cmd t = Applied t' →
  applied t p (bool_decide (cmd_type cmd = Action_fold)) t'.
Proof.
  pose proof (pok_bet t p (hand_players t Hok p Hp)) as Hbet.
  pose proof (hand_bets t Hok) as (? & ? & ?).
  destruct Hchips as [? ?]. rw /act_switch. destruct (cmd_type cmd); simpl.
  - intros [= <-]. apply (applied_leave true (with_status Status_folded)); try done.
    apply actor_step_fold.
  - rw /act_check. destruct (Z.eqb_spec (pl_street_commitment p) (current_bet_ t)); [|done].
    intros [= <-]. rw -{2}set_seat_id. apply (applied_leave false id); try done.
    + apply actor_step_refl.
    + by apply canAct_in_hand.
  - rw /act_call. case_match eqn:E; [done|]. intros [= <-].
    set (target := Z.min _ _).
    assert (pl_street_commitment (payTo target p) = target) as Hpaid by (rw /payTo pay_street; lia).
    apply (applied_leave false (payTo target)).
    + apply pay_step; [done..|]. lia.
    + rw Hpaid. lia.
    + by apply pay_contender.
    + rw Hpaid. intros Hs%pay_canAct. lia.
    + rw /payTo pay_stack. lia.
  - rw /act_bet. repeat (case_match; [done|]). intros [= <-].
    apply applied_raise; lia.
  - rw /act_raise. repeat (case_match; [done|]). intros [= <-].
    apply applied_raise; lia.
  - rw /act_all_in. case_match; [done|]. case_match.
    + intros [= <-]. set (target := (_ + _)).
      assert (pl_street_commitment (payTo target p) = target) as Hpaid by (rw /payTo pay_street; lia).
      apply (applied_leave false (payTo target)).
      * apply pay_step; [done..|]. lia.
      * rw Hpaid. lia.
      * by apply pay_contender.
      * rw Hpaid. intros Hs%pay_canAct. lia.
      * rw /payTo pay_stack. lia.
    + case_match; [done|]. intros [= <-]. apply applied_raise; lia.
Qed.
End switch.
