(* ===== verification/TablePots.v ===== *)
(** * Pots and their payment

    What [buildAndAwardPots] computes, stated against an abstract
    specification of layered pots, and the accounting of the chips it moves. *)
From S2P Require Import Prelude Card Deck HandEvaluator Table TableLib TableInv.

(** ** Crediting stacks *)

(** Every player receives [w] of the player's id. *)
Definition credit (w : Z → Z) (t : Table) : Table :=
  map_players (λ p, with_stack (pl_stack p + w (pl_id p)) p) t.

(** What the listed winners, numbered from [k], get from [f]. *)
Fixpoint shares (f : nat → Z) (ids : list Z) (k : nat) (id : Z) : Z :=
  match ids with
  | [] => 0
  | x :: ids => (if x =? id then f k else 0) + shares f ids (S k) id
  end.

Definition award_to (award : PotAward) (id : Z) : Z := shares (award_share award) (winners award) 0 id.
Definition winnings (awards : list PotAward) (id : Z) : Z := sumZ (λ a, award_to a id) awards.

Lemma with_stack_id p : with_stack (pl_stack p) p = p.
Proof. by destruct p. Qed.

Lemma credit_0 t : credit (λ _, 0) t = t.
Proof. apply map_players_id. intros p _. rw Z.add_0_r. apply with_stack_id. Qed.

Lemma credit_credit w w' t : credit w (credit w' t) = credit (λ id, w' id + w id) t.
Proof.
  rw /credit map_players_compose. apply map_players_ext. intros p _. simpl. rw /with_stack /=.
  f_equal. lia.
Qed.

Lemma credit_ext w w' t :
  (∀ p, p ∈ players t → w (pl_id p) = w' (pl_id p)) → credit w t = credit w' t.
Proof. intros Hw. apply map_players_ext. intros p Hp. by rw Hw. Qed.

Lemma credit_unique w t : unique_ids (credit w t) ↔ unique_ids t.
Proof. by apply unique_ids_map. Qed.

Lemma players_credit w t :
  players (credit w t) = (λ p, with_stack (pl_stack p + w (pl_id p)) p) <$> players t.
Proof. apply players_map. Qed.

(** One payment through the pointer of [findPlayer]. *)
Lemma credit_one t i p id x :
  unique_ids t → findPlayer t id = Some (i, p) →
  set_seat i (with_stack (pl_stack p + x) p) t = credit (λ j, if id =? j then x else 0) t.
Proof.
  intros Hnd [Hi <-]%findPlayer_Some.
  rw (set_seat_update t i p (λ q, with_stack (pl_stack q + x) q)) //.
  apply map_players_ext. intros q _. rw (Z.eqb_sym (pl_id q)). destruct (_ =? _); [done|].
  rw Z.add_0_r. by rw with_stack_id.
Qed.

Lemma findPlayer_credit w t id : is_Some (findPlayer (credit w t) id) ↔ is_Some (findPlayer t id).
Proof.
  rw -!not_eq_None_Some !findPlayer_None players_credit.
  split; intros H H'; apply H; intros p Hp.
  - apply list_elem_of_fmap in Hp as (q & -> & Hq). exact (H' q Hq).
  - apply (H' (with_stack (pl_stack p + w (pl_id p)) p)).
    apply list_elem_of_fmap. by exists p.
Qed.

Lemma pay_winners_spec award ids k t :
  unique_ids t → (∀ id, id ∈ ids → is_Some (findPlayer t id)) →
  pay_winners award ids k t = (Ok tt, credit (shares (award_share award) ids k) t).
Proof.
  revert k t. induction ids as [|id ids IH]; intros k t Hnd Hin; simpl.
  { by rw credit_0. }
  rw /mbind /M_bind /=. destruct (Hin id) as [[i p] Hf]; [left|]. rw Hf /=.
  rw (credit_one t i p id) // IH.
  - by rw credit_unique.
  - intros id' Hid. apply findPlayer_credit, Hin. by right.
  - by rw credit_credit.
Qed.

Lemma adjust_winners_spec f ids k t :
  unique_ids t → adjust_winners f ids k t = credit (shares f ids k) t.
Proof.
  revert k t. induction ids as [|id ids IH]; intros k t Hnd; simpl.
  { by rw credit_0. }
  destruct (findPlayer t id) as [[i p]|] eqn:Hf.
  - rw (credit_one t i p id) // IH; [by rw credit_unique|]. by rw credit_credit.
  - rw IH //. apply credit_ext. intros p Hp.
    rw findPlayer_None in Hf. specialize (Hf p Hp). destruct (Z.eqb_spec id (pl_id p)); [done|lia].
Qed.

Lemma shares_opp f ids k id : shares (λ i, - f i) ids k id = - shares f ids k id.
Proof. revert k. induction ids as [|x ids IH]; intros k; simpl; [done|]. rw IH. case_match; lia. Qed.

Lemma revert_awards_spec t :
  unique_ids t → revert_awards t = credit (λ id, - winnings (last_awards_ t) id) t.
Proof.
  rw /revert_awards /winnings. generalize (last_awards_ t). intros l. revert t.
  induction l as [|a l IH]; intros t Hnd; simpl.
  { by rw credit_0. }
  rw adjust_winners_spec // IH; [by rw credit_unique|]. rw credit_credit.
  apply credit_ext. intros p _. rw shares_opp /award_to. lia.
Qed.

(** ** Shares of one award *)

Lemma shares_range f ids k id :
  (∀ i, 0 ≤ f i) → 0 ≤ shares f ids k id.
Proof.
  intros Hf. revert k. induction ids as [|x ids IH]; intros k; simpl; [done|].
  specialize (IH (S k)). specialize (Hf k). case_match; lia.
Qed.

(** Over the players the shares add up to the payments to seated winners. *)
Lemma sum_shares f ids k (l : list Player) :
  NoDup (pl_id <$> l) → (∀ id, id ∈ ids → id ∈ (pl_id <$> l)) →
  sumZ (λ p, shares f ids k (pl_id p)) l = sumZ f (seq k (length ids)).
Proof.
  intros Hnd. revert k. induction ids as [|x ids IH]; intros k Hin; simpl.
  { clear. induction l as [|p l IHl]; simpl; lia. }
  rw sumZ_add IH; [by intros; apply Hin; right|]. f_equal.
  assert (x ∈ (pl_id <$> l)) as Hx by (apply Hin; left). clear IH Hin.
  induction l as [|p l IHl]; [by apply not_elem_of_nil in Hx|].
  simpl in *. apply NoDup_cons in Hnd as [Hp Hnd]. rw elem_of_cons in Hx.
  destruct (Z.eqb_spec x (pl_id p)) as [->|Hne].
  - assert (sumZ (λ q, if pl_id p =? pl_id q then f k else 0) l = 0) as ->; [|lia].
    clear -Hp. induction l as [|q l IHl]; simpl; [done|].
    simpl in Hp. rw elem_of_cons in Hp. destruct (Z.eqb_spec (pl_id p) (pl_id q)); [naive_solver|].
    rw IHl //. naive_solver.
  - destruct Hx as [Hx|Hx]; [done|]. rw IHl //.
Qed.

(** [odd] winners get one chip more than the rest. *)
Lemma sum_award_share a :
  0 ≤ odd_chips a ≤ Z.of_nat (length (winners a)) →
  sumZ (award_share a) (seq 0 (length (winners a))) =
  equal_share a * Z.of_nat (length (winners a)) + odd_chips a.
Proof.
  intros Ho. generalize dependent (length (winners a)). intros n Ho.
  assert (∀ n, sumZ (award_share a) (seq 0 n) =
    equal_share a * Z.of_nat n + Z.min (Z.of_nat n) (Z.max 0 (odd_chips a))) as ->; [|lia].
  clear n Ho. induction n as [|n IH]; [simpl; lia|].
  rw seq_S sumZ_app IH /= /award_share /=. destruct (Z.ltb_spec (Z.of_nat n) (odd_chips a)); lia.
Qed.

(** ** The specification of a pot's award *)

(** The best value of a player's seven cards. *)
Definition hand_value (t : Table) (p : Player) : HandValue :=
  match evaluateBest (player_cards t p) with Ok v => v | _ => HandValue_default end.

(** No player eligible at [level] holds a better hand. *)
Definition best_at (t : Table) (level : Z) (p : Player) : Prop :=
  ∀ q, q ∈ players t → eligible level q = true →
    HandValue_leb (hand_value t q) (hand_value t p) = true.

(** Distance of a seated player from the button. *)
Definition distance_of (t : Table) (id : Z) : nat :=
  from_option (clockwise_distance t) 0%nat (seatOf t id).

(** The layer's chips go in equal shares to exactly the eligible players with
    the best hand, odd chips one each to the first of them clockwise from the
    button. *)
Record award_spec (t : Table) (level pot : Z) (a : PotAward) : Prop := {
  award_size : pot_size a = pot;
  award_winners : ∀ id, id ∈ winners a ↔
    ∃ p, p ∈ players t ∧ pl_id p = id ∧ eligible level p = true ∧ best_at t level p;
  award_distinct : NoDup (winners a);
  award_order : StronglySorted (λ i j, distance_of t i < distance_of t j)%nat (winners a);
  award_shares : equal_share a * Z.of_nat (length (winners a)) + odd_chips a = pot;
  award_odd : 0 ≤ odd_chips a < Z.of_nat (length (winners a));
  award_share_nonneg : 0 ≤ equal_share a;
}.

(** The chips between two levels. *)
Definition layer (t : Table) (previous level : Z) : Z :=
  (level - previous) * Z.of_nat (count_players (contributed level) t).

(** The awards of all layers, from the lowest up; a layer without an eligible
    player is not awarded. *)
Inductive pots_spec (t : Table) : list Z → Z → list PotAward → Prop :=
  | pots_nil previous : pots_spec t [] previous []
  | pots_dead level levels previous awards :
      count_players (eligible level) t = 0%nat →
      pots_spec t levels level awards → pots_spec t (level :: levels) previous awards
  | pots_award level levels previous a awards :
      (0 < count_players (eligible level) t)%nat →
      award_spec t level (layer t previous level) a →
      pots_spec t levels level awards → pots_spec t (level :: levels) previous (a :: awards).

(** ** What the pots depend on *)

(** [t'] differs from [t] in nothing the pots look at. *)
Definition alike (t t' : Table) : Prop :=
  ∃ f, seats_ t' = seats_ (map_players f t) ∧ board_ t' = board_ t ∧
    dealer_seat_ t' = dealer_seat_ t ∧
    ∀ p, pl_id (f p) = pl_id p ∧ pl_hand_commitment (f p) = pl_hand_commitment p ∧
         pl_status (f p) = pl_status p ∧ pl_hole (f p) = pl_hole p.

Lemma alike_trans t1 t2 t3 : alike t1 t2 → alike t2 t3 → alike t1 t3.
Proof.
  intros (f & F1 & F2 & F3 & F4) (g & G1 & G2 & G3 & G4). exists (g ∘ f).
  split_and!; [|congruence..|].
  - rw G1 -map_players_compose /map_players /=. by rw F1.
  - intros p. destruct (F4 p) as (? & ? & ? & ?), (G4 (f p)) as (? & ? & ? & ?).
    simpl. split_and!; congruence.
Qed.

Lemma alike_credit w t : alike t (credit w t).
Proof. by eexists. Qed.

Lemma alike_same t t' :
  seats_ t' = seats_ t → board_ t' = board_ t → dealer_seat_ t' = dealer_seat_ t → alike t t'.
Proof. intros Hs Hb Hd. exists id. split_and!; [by rw map_players_id|done..]. Qed.

Section alike.
  Context (t t' : Table) (f : Player → Player).
  Hypothesis Hseats : seats_ t' = seats_ (map_players f t).
  Hypothesis Hboard : board_ t' = board_ t.
  Hypothesis Hdealer : dealer_seat_ t' = dealer_seat_ t.
  Hypothesis Hf : ∀ p, pl_id (f p) = pl_id p ∧ pl_hand_commitment (f p) = pl_hand_commitment p ∧
         pl_status (f p) = pl_status p ∧ pl_hole (f p) = pl_hole p.

Let Hpl : players t' = f <$> players t.
Proof. rw -players_map /players. by rw Hseats. Qed.

Lemma alike_contributed level p : contributed level (f p) = contributed level p.
Proof. rw /contributed. by destruct (Hf p) as (_ & -> & _). Qed.

Lemma alike_eligible level p : eligible level (f p) = eligible level p.
Proof. rw /eligible alike_contributed. by destruct (Hf p) as (_ & _ & -> & _). Qed.

Lemma alike_value p : hand_value t' (f p) = hand_value t p.
Proof. rw /hand_value /player_cards Hboard. by destruct (Hf p) as (_ & _ & _ & ->). Qed.

Lemma alike_count ok : (∀ p, ok (f p) = ok p) → count_players ok t' = count_players ok t.
Proof.
  intros Hext. rw (count_players_seats ok (map_players f t)) // count_players_map.
  apply count_players_ext. intros p _. apply Hext.
Qed.

Lemma alike_best level p : best_at t' level (f p) ↔ best_at t level p.
Proof.
  rw /best_at Hpl. split; intros H q Hq He.
  - specialize (H (f q)). rw !alike_value alike_eligible in H.
    apply H; [|done]. by apply list_elem_of_fmap_2.
  - apply list_elem_of_fmap in Hq as (r & -> & Hr). rw !alike_value. apply H; [done|].
    by rw -alike_eligible.
Qed.

Lemma list_find_ext_fmap {A B} (P : A → Prop) (Q : B → Prop) `{!∀ x, Decision (P x)}
    `{!∀ x, Decision (Q x)} (g : A → B) l :
  (∀ x, Q (g x) ↔ P x) → fst <$> list_find Q (g <$> l) = fst <$> list_find P l.
Proof.
  intros HQ. induction l as [|x l IH]; csimpl; [done|].
  destruct (decide (P x)) as [HP|HP].
  - rw (decide_True (P:=Q (g x))); [by apply HQ|]. done.
  - rw (decide_False (P:=Q (g x))); [by rw HQ|].
    destruct (list_find Q (g <$> l)) as [[]|], (list_find P l) as [[]|]; by simplify_eq/=.
Qed.

Lemma alike_seatOf id : seatOf t' id = seatOf t id.
Proof.
  rw /seatOf Hseats. apply list_find_ext_fmap. intros [p|]; [|done]. simpl.
  by destruct (Hf p) as (-> & _).
Qed.

Lemma alike_distance id : distance_of t' id = distance_of t id.
Proof.
  rw /distance_of alike_seatOf. destruct (seatOf t id); [|done]. simpl.
  rw /clockwise_distance Hdealer Hseats /map_players /=. by rw length_fmap.
Qed.

Lemma alike_award level pot a : award_spec t level pot a ↔ award_spec t' level pot a.
Proof.
  assert (∀ id, (∃ p, p ∈ players t' ∧ pl_id p = id ∧ eligible level p = true ∧ best_at t' level p)
    ↔ (∃ p, p ∈ players t ∧ pl_id p = id ∧ eligible level p = true ∧ best_at t level p)) as Hw.
  { intros id. rw Hpl. split.
    - intros (q & (p & -> & Hp)%list_elem_of_fmap & Hid & He & Hb). exists p.
      rw alike_eligible in He. apply alike_best in Hb.
      split_and!; [done| |done..]. destruct (Hf p) as (Hfp & _). congruence.
    - intros (p & Hp & Hid & He & Hb). exists (f p). rw alike_eligible alike_best.
      split_and!; [by apply list_elem_of_fmap_2| |done..].
      destruct (Hf p) as (Hfp & _). congruence. }
  assert (∀ l, StronglySorted (λ i j, distance_of t' i < distance_of t' j)%nat l ↔
               StronglySorted (λ i j, distance_of t i < distance_of t j)%nat l) as Hsort.
  { induction l as [|x l IH]; [split; constructor|]. split; intros [? Hx]%StronglySorted_inv;
      (constructor; [by apply IH|]); (eapply Forall_impl; [exact Hx|]); intros y;
      simpl; rw !alike_distance; done. }
  split; intros [H1 H2 H3 H4 H5 H6 H7]; split; try done; try by apply Hsort.
  - intros id. by rw Hw.
  - intros id. by rw -Hw.
Qed.

Lemma alike_layer previous level : layer t' previous level = layer t previous level.
Proof. rw /layer alike_count //. intros p. apply alike_contributed. Qed.

Lemma alike_pots levels previous awards :
  pots_spec t levels previous awards ↔ pots_spec t' levels previous awards.
Proof.
  assert (∀ level, count_players (eligible level) t' = count_players (eligible level) t) as He.
  { intros level. apply alike_count. intros p. apply alike_eligible. }
  split; induction 1.
  - apply pots_nil.
  - apply pots_dead; [by rw He|done].
  - apply pots_award; [by rw He| |done]. rw alike_layer. by apply alike_award.
  - apply pots_nil.
  - apply pots_dead; [by rw -He|done].
  - apply pots_award; [by rw -He| |done]. rw -alike_layer. by apply alike_award.
Qed.
End alike.

(** ** Best hands *)

Lemma HandValue_eqb_spec v w : HandValue_eqb v w = true ↔ v = w.
Proof.
  rw /HandValue_eqb andb_true_iff !bool_decide_eq_true. destruct v, w; naive_solver.
Qed.

Definition evaluates (t : Table) (p : Player) : Prop :=
  evaluateBest (player_cards t p) = Ok (hand_value t p).

(** The winners among [l] when [m] is the best value. *)
Definition holders (t : Table) (m : HandValue) (l : list Player) : list Player :=
  List.filter (λ p, HandValue_eqb (hand_value t p) m) l.

Lemma holders_above t m l :
  (∀ p, p ∈ l → HandValue_ltb (hand_value t p) m = true) → holders t m l = [].
Proof.
  induction l as [|p l IH]; intros H; simpl; [done|].
  destruct (HandValue_eqb _ _) eqn:E.
  - apply HandValue_eqb_spec in E. assert (HandValue_ltb (hand_value t p) m = true) as Hlt by (apply H; left).
    by rw E HandValue_ltb_key array_ltb_irrefl in Hlt.
  - apply IH. intros q Hq. apply H. by right.
Qed.

Lemma HandValue_leb_ltb_trans u v w :
  HandValue_leb u v = true → HandValue_ltb v w = true → HandValue_ltb u w = true.
Proof.
  rw /HandValue_leb negb_true_iff. intros Huv Hvw. rw HandValue_ltb_key.
  destruct (array_ltb_total (value_key u) (value_key w)) as [H|[H|H]]; [done| |].
  - apply value_key_inj in H as ->. congruence.
  - rw !HandValue_ltb_key in Huv Hvw. rw (array_ltb_trans _ _ _ Hvw H) in Huv. done.
Qed.

Lemma best_players_step t el processed b :
  (∀ p, p ∈ el → evaluates t p) →
  (∀ p, p ∈ processed → HandValue_leb (hand_value t p) b = true) →
  ∃ m, best_players t el (Some b) (pl_id <$> holders t b processed) =
         Ok (pl_id <$> holders t m (processed ++ el)) ∧
    (∀ p, p ∈ processed ++ el → HandValue_leb (hand_value t p) m = true) ∧
    (m = b ∨ ∃ p, p ∈ el ∧ hand_value t p = m).
Proof.
  revert processed b. induction el as [|p el IH]; intros processed b Hev Hle; simpl.
  { exists b. rw app_nil_r. eauto. }
  rw (Hev p); [left|]. simpl.
  assert (∀ q, q ∈ el → evaluates t q) as Hev' by (intros; apply Hev; by right).
  destruct (HandValue_ltb b (hand_value t p)) eqn:Hlt;
    [|destruct (HandValue_eqb (hand_value t p) b) eqn:Heq].
  - assert (holders t (hand_value t p) (processed ++ [p]) = [p]) as Hh.
    { rw /holders List.filter_app -/(holders t _ _) holders_above /=.
      - intros q Hq. eapply HandValue_leb_ltb_trans; [by apply Hle|done].
      - by rw (proj2 (HandValue_eqb_spec _ _) eq_refl). }
    destruct (IH (processed ++ [p]) (hand_value t p)) as (m & Hm & Hall & Hfrom); [done| |].
    { intros q [Hq| ->%list_elem_of_singleton]%elem_of_app; [|apply HandValue_leb_refl].
      apply HandValue_ltb_leb. eapply HandValue_leb_ltb_trans; [by apply Hle|done]. }
    rw Hh -app_assoc /= in Hm Hall |- *. exists m. split_and!; [done..|].
    right. destruct Hfrom as [->|(q & ? & ?)]; [exists p|exists q]; split; try done; [left|by right].
  - apply HandValue_eqb_spec in Heq.
    destruct (IH (processed ++ [p]) b) as (m & Hm & Hall & Hfrom); [done| |].
    { intros q [Hq| ->%list_elem_of_singleton]%elem_of_app; [by apply Hle|].
      rw Heq. apply HandValue_leb_refl. }
    rw /holders List.filter_app /= in Hm. rw (proj2 (HandValue_eqb_spec _ _) Heq) in Hm.
    rw fmap_app /= -app_assoc /= in Hm Hall |- *. exists m. split_and!; [done..|].
    destruct Hfrom as [->|(q & ? & ?)]; [by left|right; exists q; split; [by right|done]].
  - destruct (IH (processed ++ [p]) b) as (m & Hm & Hall & Hfrom); [done| |].
    { intros q [Hq| ->%list_elem_of_singleton]%elem_of_app; [by apply Hle|].
      rw /HandValue_leb. by rw Hlt. }
    rw /holders List.filter_app /= Heq app_nil_r -app_assoc /= in Hm Hall |- *.
    exists m. split_and!; [done..|].
    destruct Hfrom as [->|(q & ? & ?)]; [by left|right; exists q; split; [by right|done]].
Qed.

(** [best_players] returns the ids of exactly the players with the best
    hand. *)
Lemma best_players_spec t el :
  el ≠ [] → (∀ p, p ∈ el → evaluates t p) →
  ∃ m, best_players t el None [] = Ok (pl_id <$> holders t m el) ∧
    (∀ p, p ∈ el → HandValue_leb (hand_value t p) m = true) ∧
    ∃ p, p ∈ el ∧ hand_value t p = m.
Proof.
  destruct el as [|p el]; [done|]. intros _ Hev. simpl. rw (Hev p); [left|]. simpl.
  destruct (best_players_step t el [p] (hand_value t p)) as (m & Hm & Hall & Hfrom).
  { intros q Hq. apply Hev. by right. }
  { intros q ->%list_elem_of_singleton. apply HandValue_leb_refl. }
  rw /holders /= (proj2 (HandValue_eqb_spec _ _) eq_refl) /= in Hm.
  exists m. split_and!; [done|done|].
  destruct Hfrom as [->|(q & ? & ?)]; [exists p|exists q]; (split; [|done]); [left|by right].
Qed.

(** ** Order of the winners *)

Lemma clockwise_distance_inj t i j :
  (i < length (seats_ t))%nat → (j < length (seats_ t))%nat →
  (default 0 (dealer_seat_ t) < length (seats_ t))%nat →
  clockwise_distance t i = clockwise_distance t j → i = j.
Proof.
  rw /clockwise_distance. set (n := length _). set (d := default _ _). intros Hi Hj Hd.
  assert (∀ k, (k < n)%nat → (if ((k + n - d) `mod` n =? 0)%nat then n else (k + n - d) `mod` n)%nat
             = if (k <=? d)%nat then (k + n - d)%nat else (k - d)%nat) as Heq.
  { intros k Hk. destruct (Nat.leb_spec k d).
    - destruct (decide (k = d)) as [->|].
      + replace (d + n - d)%nat with n by lia. by rw Nat.Div0.mod_same.
      + rw Nat.mod_small; [lia|]. destruct (Nat.eqb_spec (k + n - d) 0); lia.
    - replace (k + n - d)%nat with (k - d + 1 * n)%nat by lia.
      rw Nat.Div0.mod_add Nat.mod_small; [lia|].
      destruct (Nat.eqb_spec (k - d) 0); lia. }
  rw !Heq //. destruct (Nat.leb_spec i d), (Nat.leb_spec j d); lia.
Qed.

#[export] Instance closer_total : Total closer.
Proof. intros [a x] [b y]. rw /closer /=. lia. Qed.
#[export] Instance closer_trans : Transitive closer.
Proof. intros [a x] [b y] [c z]. rw /closer /=. lia. Qed.

Lemma result_map_Ok {A B} (f : A → result B) (g : A → B) l :
  (∀ x, x ∈ l → f x = Ok (g x)) → result_map f l = Ok (g <$> l).
Proof.
  induction l as [|x l IH]; intros H; simpl; [done|].
  rw H; [left|]. rw /mbind /=. rw IH //. intros y Hy. apply H. by right.
Qed.

Lemma seatOf_distance t id :
  is_Some (findPlayer t id) → seat_distance t id = Ok (distance_of t id, id).
Proof.
  intros [[i p] Hf]. rw /seat_distance /distance_of seatOf_findPlayer Hf //.
Qed.

Lemma distance_of_inj t a b :
  table_ok t → is_Some (findPlayer t a) → is_Some (findPlayer t b) →
  distance_of t a = distance_of t b → a = b.
Proof.
  intros Hok [[i p] Hi] [[j q] Hj]. rw /distance_of !seatOf_findPlayer Hi Hj /=.
  apply findPlayer_Some in Hi as [Hi <-], Hj as [Hj <-].
  intros Hd. apply clockwise_distance_inj in Hd.
  - subst j. congruence.
  - by eapply seat_at_lt.
  - by eapply seat_at_lt.
  - apply seat_at_lt in Hi. destruct (dealer_seat_ t) eqn:Hdl; simpl; [by apply (ok_dealer t)|lia].
Qed.

Lemma StronglySorted_fmap_keyed t l :
  StronglySorted closer ((λ id, (distance_of t id, id)) <$> l) →
  StronglySorted (λ i j, distance_of t i ≤ distance_of t j)%nat l.
Proof.
  induction l as [|x l IH]; csimpl; [constructor|].
  intros [Hs Hx]%StronglySorted_inv. constructor; [by apply IH|].
  rw Forall_fmap in Hx. eapply Forall_impl; [exact Hx|]. done.
Qed.

Lemma StronglySorted_strict t l :
  table_ok t → NoDup l → (∀ id, id ∈ l → is_Some (findPlayer t id)) →
  StronglySorted (λ i j, distance_of t i ≤ distance_of t j)%nat l →
  StronglySorted (λ i j, distance_of t i < distance_of t j)%nat l.
Proof.
  intros Hok. induction l as [|x l IH]; intros Hnd Hin; [constructor|].
  apply NoDup_cons in Hnd as [Hx Hnd]. intros [Hs Hf]%StronglySorted_inv. constructor.
  - apply IH; [done| |done]. intros; apply Hin; by right.
  - rw Forall_forall in Hf. apply Forall_forall. intros y Hy. specialize (Hf y Hy). simpl in Hf.
    assert (distance_of t x ≠ distance_of t y); [|lia]. intros Heq. destruct Hx.
    rw (distance_of_inj t x y); [done|apply Hin; left|apply Hin; by right|done|done].
Qed.

(** The winners are put in order of distance from the button; distances of
    different players differ, so the sorted order is the only one. *)
Lemma orderedClockwise_spec t ids :
  table_ok t → NoDup ids → (∀ id, id ∈ ids → is_Some (findPlayer t id)) →
  ∃ l, orderedClockwise t ids = Ok l ∧ l ≡ₚ ids ∧
    StronglySorted (λ i j, distance_of t i < distance_of t j)%nat l.
Proof.
  intros Hok Hnd Hin. rw /orderedClockwise. destruct (Nat.leb_spec (length ids) 1).
  { exists ids. split_and!; [done..|]. destruct ids as [|x [|]]; simpl in *; [..|lia];
      repeat constructor. }
  rw (result_map_Ok _ (λ id, (distance_of t id, id))).
  { intros id Hid. apply seatOf_distance. by apply Hin. }
  rw /mbind /=. eexists. split; [done|].
  set (keyed := _ <$> ids). set (s := merge_sort closer keyed).
  assert (s ≡ₚ keyed) as Hp by apply merge_sort_Permutation.
  assert (snd <$> keyed = ids) as Hsnd.
  { rw /keyed -list_fmap_compose. rw -{2}(list_fmap_id ids). done. }
  assert (snd <$> s ≡ₚ ids) as Hps by (rw -[X in _ ≡ₚ X]Hsnd; by apply fmap_Permutation).
  split; [done|].
  apply StronglySorted_strict; [done|by rw Hps|intros id; rw Hps; apply Hin|].
  apply StronglySorted_fmap_keyed.
  assert ((λ id, (distance_of t id, id)) <$> (snd <$> s) = s) as ->.
  { rw -list_fmap_compose -{2}(list_fmap_id s). apply list_fmap_ext. intros i [d id] Hi.
    apply list_elem_of_lookup_2 in Hi. rw Hp in Hi.
    apply list_elem_of_fmap in Hi as (id' & [= -> ->] & _). done. }
  apply StronglySorted_merge_sort; apply _.
Qed.

(** ** Awarding *)

Lemma eligible_contender level p :
  eligible level p = contributed level p && is_contender p.
Proof. rw /eligible /is_contender -andb_assoc. f_equal. by destruct (pl_status p). Qed.

(** Every player still in the hand has cards the evaluator accepts. *)
Definition showable (t : Table) : Prop :=
  ∀ p, p ∈ players t → is_contender p = true → evaluates t p.

Lemma showable_credit w t : showable t → showable (credit w t).
Proof.
  intros Hs q. rw players_credit. intros (p & -> & Hp)%list_elem_of_fmap. apply (Hs p Hp).
Qed.

Lemma table_ok_credit w t :
  table_ok t → (∀ id, 0 ≤ w id) → table_ok (credit w t).
Proof.
  intros Hok Hw. eapply table_ok_map; [done|done|done|by left|].
  intros p Hp. destruct (ok_chips t Hok p Hp). specialize (Hw (pl_id p)).
  split_and!; [done|split; simpl; lia|exact (ok_status t Hok p Hp)].
Qed.

Lemma elem_of_filter_players ok t p :
  p ∈ List.filter ok (players t) ↔ p ∈ players t ∧ ok p = true.
Proof. by rw !list_elem_of_In filter_In. Qed.

Lemma NoDup_filter_ids ok t : unique_ids t → NoDup (pl_id <$> List.filter ok (players t)).
Proof.
  rw /unique_ids. induction (players t) as [|p l IH]; csimpl; [done|].
  intros [Hp Hnd]%NoDup_cons. destruct (ok p); csimpl; [|by apply IH].
  apply NoDup_cons. split; [|by apply IH]. intros (q & Hq & Hin)%list_elem_of_fmap.
  apply Hp, list_elem_of_fmap. exists q. split; [done|].
  apply list_elem_of_In in Hin. apply filter_In in Hin as [? _]. by apply list_elem_of_In.
Qed.

Lemma award_to_nonneg t level pot a id : award_spec t level pot a → 0 ≤ award_to a id.
Proof.
  intros [_ _ _ _ _ _ Hs]. apply shares_range. intros i. rw /award_share. case_match; lia.
Qed.

Lemma award_pot_spec t pot level :
  table_ok t → showable t → 0 < pot → (0 < count_players (eligible level) t)%nat →
  ∃ a, award_pot pot level t = (Ok a, credit (award_to a) t) ∧ award_spec t level pot a.
Proof.
  intros Hok Hshow Hpot Hcount. rw /award_pot /mbind /M_bind /=.
  set (el := List.filter (eligible level) (players t)).
  assert (∀ p, p ∈ el ↔ p ∈ players t ∧ eligible level p = true) as Hel
    by apply elem_of_filter_players.
  destruct (best_players_spec t el) as (m & -> & Hmax & (p0 & Hp0 & Hv0)).
  { intros Hnil. rw /count_players -/el Hnil /= in Hcount. lia. }
  { intros p [Hp He]%Hel. apply Hshow; [done|].
    rw eligible_contender in He. by apply andb_true_iff in He as [_ ?]. }
  rw /mlift. set (ids := pl_id <$> holders t m el).
  assert (∀ id, id ∈ ids ↔
    ∃ p, p ∈ players t ∧ pl_id p = id ∧ eligible level p = true ∧ best_at t level p) as Hids.
  { intros id. rw /ids list_elem_of_fmap. rw /holders. setoid_rewrite list_elem_of_In.
    setoid_rewrite filter_In. setoid_rewrite <-list_elem_of_In. split.
    - intros (p & -> & [[Hp He]%Hel Hv%HandValue_eqb_spec]). exists p. split_and!; [done..|].
      intros q Hq Heq. rw Hv. apply Hmax, Hel. done.
    - intros (p & Hp & <- & He & Hb). exists p. split; [done|]. split; [by apply Hel|].
      apply HandValue_eqb_spec, HandValue_leb_antisym; [by apply Hmax, Hel|].
      rw -Hv0. apply Hel in Hp0 as [? ?]. by apply Hb. }
  assert (NoDup ids) as Hnd.
  { rw /ids /holders /el. assert (∀ (f g : Player → bool) l, List.filter f (List.filter g l) =
      List.filter (λ x, g x && f x) l) as ->; [|apply NoDup_filter_ids, ok_ids, Hok].
    intros f g l. induction l as [|x l IH]; simpl; [done|].
    destruct (g x); simpl; [destruct (f x); by rw IH|done]. }
  assert (∀ id, id ∈ ids → is_Some (findPlayer t id)) as Hfind.
  { intros id (p & Hp & <- & _)%Hids.
    destruct (findPlayer_is_Some t p) as (i & -> & _); [apply ok_ids, Hok|done|done]. }
  destruct (orderedClockwise_spec t ids) as (l & -> & Hl & Hsort); [done..|].
  rw /mret /M_ret pay_winners_spec.
  { apply ok_ids, Hok. } { intros id. rw Hl. apply Hfind. }
  exists (mkAward pot l (pot ÷ Z.of_nat (length l)) (Z.rem pot (Z.of_nat (length l)))).
  split; [done|].
  assert (length l ≠ 0%nat) as Hlen.
  { intros Hz%nil_length_inv. apply (not_elem_of_nil (pl_id p0)). rw -Hz Hl.
    rw /ids. apply list_elem_of_fmap_2. rw /holders list_elem_of_In filter_In -list_elem_of_In.
    by rw HandValue_eqb_spec. }
  pose proof (Z.quot_rem' pot (Z.of_nat (length l))).
  pose proof (Z.rem_bound_pos pot (Z.of_nat (length l))).
  split; simpl; try done.
  - intros id. rw Hl. apply Hids.
  - by rw Hl.
  - lia.
  - lia.
  - apply Z.quot_pos; lia.
Qed.

Lemma winnings_cons a l id : winnings (a :: l) id = award_to a id + winnings l id.
Proof. done. Qed.

Lemma count_contributed_pos level t :
  (0 < count_players (eligible level) t)%nat → (0 < count_players (contributed level) t)%nat.
Proof.
  intros Hc. eapply Nat.lt_le_trans; [exact Hc|]. apply count_players_le. intros p _.
  rw eligible_contender. by intros [? _]%andb_true_iff.
Qed.

Lemma award_levels_spec levels previous t :
  table_ok t → showable t → StronglySorted Z.lt (previous :: levels) →
  ∃ awards, award_levels levels previous t = (Ok awards, credit (winnings awards) t) ∧
    pots_spec t levels previous awards.
Proof.
  revert previous t. induction levels as [|level levels IH]; intros previous t Hok Hshow Hsort.
  { exists []. split; [|constructor]. simpl. by rw /winnings /= credit_0. }
  apply StronglySorted_inv in Hsort as [Hsort Hlt].
  assert (previous < level) by by apply (Forall_inv Hlt).
  simpl. rw /mbind /M_bind /=.
  destruct (Nat.eqb_spec (count_players (eligible level) t) 0) as [Hz|Hnz].
  { rw orb_true_r. destruct (IH level t) as (aws & -> & Hspec); [done..|].
    exists aws. split; [done|]. by apply pots_dead. }
  assert (0 < count_players (eligible level) t)%nat as Hpos by lia.
  pose proof (count_contributed_pos _ _ Hpos).
  rw orb_false_r. destruct (Z.leb_spec ((level - previous) *
    Z.of_nat (count_players (contributed level) t)) 0) as [|Hpot]; [nia|].
  destruct (award_pot_spec t _ level Hok Hshow Hpot Hpos) as (a & -> & Ha).
  destruct (IH level (credit (award_to a) t)) as (aws & Heq & Hspec); [|by apply showable_credit|done|].
  { apply table_ok_credit; [done|]. intros id. by eapply award_to_nonneg. }
  rw Heq. exists (a :: aws). rw /mret /M_ret. split; [by rw credit_credit|].
  apply pots_award; [done|done|].
  destruct (alike_credit (award_to a) t) as (f & H1 & H2 & H3 & H4).
  by apply (alike_pots _ _ f H1 H2 H3 H4).
Qed.

(** ** The levels *)

Lemma unique_elem x l : x ∈ unique l ↔ x ∈ l.
Proof.
  induction l as [|y [|z l] IH]; [done..|].
  change (unique (y :: z :: l)) with (if y =? z then unique (z :: l) else y :: unique (z :: l)).
  destruct (Z.eqb_spec y z) as [->|]; rw ?elem_of_cons IH !elem_of_cons; naive_solver.
Qed.

Lemma unique_sorted l : StronglySorted Z.le l → StronglySorted Z.lt (unique l).
Proof.
  induction l as [|y [|z l] IH]; intros Hs; [constructor|repeat constructor|].
  change (unique (y :: z :: l)) with (if y =? z then unique (z :: l) else y :: unique (z :: l)).
  apply StronglySorted_inv in Hs as [Hs Hy].
  destruct (Z.eqb_spec y z); [by apply IH|]. constructor; [by apply IH|].
  apply Forall_forall. intros x Hx. rw unique_elem in Hx.
  apply StronglySorted_inv in Hs as [_ Hz]. pose proof (Forall_inv Hy).
  rw Forall_forall in Hz. apply elem_of_cons in Hx as [->|Hx]; [lia|]. specialize (Hz x Hx). lia.
Qed.

(** The levels are the distinct positive commitments, ascending. *)
Lemma pot_levels_elem t c :
  c ∈ pot_levels t ↔ 0 < c ∧ ∃ p, p ∈ players t ∧ pl_hand_commitment p = c.
Proof.
  rw /pot_levels unique_elem merge_sort_Permutation list_elem_of_In filter_In -list_elem_of_In.
  rw list_elem_of_fmap. split.
  - intros [(p & -> & ?) ?]. split; [lia|eauto].
  - intros [? (p & ? & <-)]. split; [eauto|lia].
Qed.

Lemma pot_levels_sorted t : StronglySorted Z.lt (0 :: pot_levels t).
Proof.
  constructor.
  - apply unique_sorted, StronglySorted_merge_sort; apply _.
  - apply Forall_forall. intros c [? _]%pot_levels_elem. done.
Qed.

Lemma buildAndAwardPots_ok t :
  table_ok t → showable t →
  ∃ awards, buildAndAwardPots t = (Ok awards, credit (winnings awards) t) ∧
    pots_spec t (pot_levels t) 0 awards.
Proof.
  intros Hok Hs. rw /buildAndAwardPots /mbind /M_bind /=.
  apply award_levels_spec; [done..|apply pot_levels_sorted].
Qed.

(** ** How much the pots pay *)

(** The largest commitment of a player still in the hand. *)
Definition live_max (t : Table) : Z :=
  foldr Z.max 0 (pl_hand_commitment <$> List.filter is_contender (players t)).

Lemma foldr_max_spec l :
  (∀ x, x ∈ l → x ≤ foldr Z.max 0 l) ∧ (foldr Z.max 0 l = 0 ∨ foldr Z.max 0 l ∈ l).
Proof.
  induction l as [|y l [IH1 IH2]]; simpl.
  { split; [by intros x ?%not_elem_of_nil|by left]. }
  split.
  - intros x [->|Hx]%elem_of_cons; [lia|]. specialize (IH1 x Hx). lia.
  - destruct (Z.max_spec y (foldr Z.max 0 l)) as [[? ->]|[? ->]]; [|right; left].
    destruct IH2; [by left|right; by right].
Qed.

Lemma live_max_ge t p :
  p ∈ players t → is_contender p = true → pl_hand_commitment p ≤ live_max t.
Proof.
  intros Hp Hc. apply foldr_max_spec, list_elem_of_fmap_2, elem_of_filter_players. done.
Qed.

Lemma live_max_cases t :
  live_max t = 0 ∨ ∃ p, p ∈ players t ∧ is_contender p = true ∧ pl_hand_commitment p = live_max t.
Proof.
  destruct (foldr_max_spec (pl_hand_commitment <$> List.filter is_contender (players t)))
    as [_ [H|H]]; [by left|right].
  apply list_elem_of_fmap in H as (p & Heq & [Hp Hc]%elem_of_filter_players). by exists p.
Qed.

Lemma eligible_live t level :
  0 < level → count_players (eligible level) t = 0%nat ↔ live_max t < level.
Proof.
  intros Hpos. rw count_players_zero. split.
  - intros Hno. destruct (live_max_cases t) as [->|(p & Hp & Hc & <-)]; [done|].
    specialize (Hno p Hp). rw eligible_contender Hc andb_true_r /contributed in Hno. lia.
  - intros Hlt p Hp. rw eligible_contender /contributed.
    destruct (is_contender p) eqn:Hc; [|by rw andb_false_r].
    pose proof (live_max_ge t p Hp Hc). lia.
Qed.

Lemma layer_sum t previous level :
  layer t previous level =
  sumZ (λ p, if contributed level p then level - previous else 0) (players t).
Proof.
  rw /layer /count_players. induction (players t) as [|p l IH]; simpl; [lia|].
  destruct (contributed level p); simpl; lia.
Qed.

(** The pots take from every player the part of the commitment that some
    player still in the hand has matched. *)
Lemma pots_total t levels previous awards :
  pots_spec t levels previous awards → 0 ≤ previous → StronglySorted Z.lt (previous :: levels) →
  (∀ p, p ∈ players t → pl_hand_commitment p ≤ previous ∨ pl_hand_commitment p ∈ levels) →
  (live_max t ≤ previous ∨ live_max t ∈ levels) →
  sumZ pot_size awards =
  sumZ (λ p, Z.max 0 (Z.min (pl_hand_commitment p) (live_max t) - previous)) (players t).
Proof.
  induction 1 as [previous|level levels previous awards Hz _ IH|
                  level levels previous a awards Hpos Ha _ IH]; intros Hprev Hsort Hcs Hlive.
  { simpl. symmetry. rw (sumZ_ext _ (λ _, 0)).
    - intros p Hp. destruct (Hcs p Hp) as [|Hno]; [lia|by apply not_elem_of_nil in Hno].
    - clear. induction (players t) as [|p l IH]; simpl; lia. }
  all: apply StronglySorted_inv in Hsort as [Hsort Hlt];
    assert (previous < level) by by apply (Forall_inv Hlt).
  all: assert (∀ c, c ∈ level :: levels → level ≤ c) as Hge
    by (intros c [->|Hc]%elem_of_cons; [lia|]; apply StronglySorted_inv in Hsort as [_ Hf];
        rw Forall_forall in Hf; specialize (Hf c Hc); lia).
  all: assert (∀ c, c ≤ previous ∨ c ∈ level :: levels → c ≤ level ∨ c ∈ levels) as Hnext
    by (intros c [?|[->|?]%elem_of_cons]; [left; lia|left; lia|by right]).
  - apply eligible_live in Hz; [|lia].
    assert (live_max t ≤ previous) by (destruct Hlive as [|Hl]; [done|]; specialize (Hge _ Hl); lia).
    rw IH; [lia|done|intros; by apply Hnext, Hcs|by apply Hnext|].
    apply sumZ_ext. intros p _. lia.
  - assert (level ≤ live_max t).
    { apply Z.nlt_ge. rw -eligible_live; lia. }
    simpl. rw IH; [lia|done|intros; by apply Hnext, Hcs|by apply Hnext|].
    rw (award_size _ _ _ _ Ha) layer_sum -sumZ_add. apply sumZ_ext. intros p Hp.
    rw /contributed. destruct (Z.ltb_spec (pl_hand_commitment p) level); simpl; [|lia].
    destruct (Hcs p Hp) as [|Hc]; [lia|]. specialize (Hge _ Hc). lia.
Qed.

Lemma pots_paid t awards :
  table_ok t → pots_spec t (pot_levels t) 0 awards →
  sumZ pot_size awards = sumZ (λ p, Z.min (pl_hand_commitment p) (live_max t)) (players t).
Proof.
  intros Hok Hs.
  assert (∀ p, p ∈ players t → 0 ≤ pl_hand_commitment p) as Hnn.
  { intros p Hp. destruct (ok_chips t Hok p Hp). lia. }
  assert (∀ p, p ∈ players t → pl_hand_commitment p ≤ 0 ∨ pl_hand_commitment p ∈ pot_levels t) as Hin.
  { intros p Hp. specialize (Hnn p Hp). destruct (decide (pl_hand_commitment p = 0)); [lia|].
    right. apply pot_levels_elem. split; [lia|eauto]. }
  assert (0 ≤ live_max t ∧ (live_max t ≤ 0 ∨ live_max t ∈ pot_levels t)) as [? ?].
  { destruct (live_max_cases t) as [->|(p & Hp & _ & <-)]; [split; [|left]; lia|].
    split; [by apply Hnn|by apply Hin]. }
  rw (pots_total t _ _ _ Hs); [done|apply pot_levels_sorted|done|done|].
  apply sumZ_ext. intros p Hp. specialize (Hnn p Hp). lia.
Qed.

(** Each pot is paid out in full. *)
Lemma award_paid t level pot a :
  unique_ids t → award_spec t level pot a →
  sumZ (λ p, award_to a (pl_id p)) (players t) = pot_size a.
Proof.
  intros Hnd Ha. rw /award_to sum_shares //.
  - intros id (p & Hp & <- & _)%(award_winners _ _ _ _ Ha). by apply list_elem_of_fmap_2.
  - rw sum_award_share; [pose proof (award_odd _ _ _ _ Ha); lia|].
    rw (award_shares _ _ _ _ Ha). by rw (award_size _ _ _ _ Ha).
Qed.

Lemma winnings_paid t levels previous awards :
  unique_ids t → pots_spec t levels previous awards →
  sumZ (λ p, winnings awards (pl_id p)) (players t) = sumZ pot_size awards.
Proof.
  intros Hnd. induction 1 as [| |level levels previous a awards Hpos Ha _ IH]; [|done|].
  - simpl. rw /winnings /=. clear. induction (players t) as [|p l IH]; simpl; lia.
  - simpl. rw -IH -(award_paid t level (layer t previous level) a) // -sumZ_add. done.
Qed.

Lemma winnings_nonneg t levels previous awards id :
  pots_spec t levels previous awards → 0 ≤ winnings awards id.
Proof.
  induction 1 as [| |level levels previous a awards Hpos Ha _ IH]; [done|done|].
  rw winnings_cons. pose proof (award_to_nonneg _ _ _ _ id Ha). lia.
Qed.
