(* ===== verification/TableAdvance.v ===== *)
(** * Streets and settlement

    The board is dealt, the streets advance, and the hand is settled: from a
    well-formed running hand these steps return normally and leave a hand that
    waits for a player or one whose pots are paid. *)
From S2P Require Import Prelude Card Deck HandEvaluator Table TableLib TableInv TableBetting TablePots.

(** ** Dealing the board *)

(** [t'] differs from [t] in the deck and in cards added to the board. *)
Definition board_added (k : nat) (t t' : Table) : Prop :=
  t' = with_deck (deck_ t') (with_board (board_ t') t) ∧
  board_ t `prefix_of` board_ t' ∧ length (board_ t') = (length (board_ t) + k)%nat.

Lemma board_added_refl t : board_added 0 t t.
Proof. split_and!; [by destruct t|done|lia]. Qed.

Lemma board_added_trans j k t1 t2 t3 :
  board_added j t1 t2 → board_added k t2 t3 → board_added (j + k) t1 t3.
Proof.
  intros (E1 & P1 & L1) (E2 & P2 & L2). split_and!; [|by etrans|lia].
  rw {1}E2 {1}E1. done.
Qed.

(** One draw from a deck in good order. *)
Lemma on_deck_draw n t :
  cards_inv n t → (n < 52)%nat →
  ∃ c d, on_deck draw t = (Ok c, with_deck (Some d) t) ∧ good_deck d ∧ (next_ d ≤ S n)%nat ∧
    dealt t ++ [c] ⊆+ take (next_ d) (cards_ d).
Proof.
  intros (d & Hd & Hg & Hsub & Hn) Hlt. pose proof Hg as (Hlen & _).
  destruct (lookup_lt_is_Some_2 (cards_ d) (next_ d)) as [c Hc]; [lia|].
  exists c, (mkDeck (cards_ d) (S (next_ d))). simpl. split_and!.
  - rw /on_deck Hd /draw /mbind /M_bind /= Hc //.
  - done.
  - lia.
  - rw (take_S_r _ _ _ Hc). by apply submseteq_app.
Qed.

Lemma burn_wp n t :
  cards_inv n t → (n < 52)%nat →
  wp (on_deck burn) (λ _ t', cards_inv (S n) t' ∧ board_added 0 t t') t.
Proof.
  intros Hc Hn. destruct (on_deck_draw n t Hc Hn) as (c & d & Heq & Hg & Hd & Hsub).
  assert (on_deck burn t = (Ok tt, with_deck (Some d) t)) as Hb.
  { revert Heq. rw /on_deck /burn. destruct (deck_ t) as [d0|]; [|done].
    rw /mbind /M_bind. destruct (draw d0) as [[]]; naive_solver. }
  rw /wp Hb. split; [|by split_and!; [destruct t| |simpl; lia]].
  exists d. split_and!; [done..| |done]. etrans; [|exact Hsub]. by apply submseteq_inserts_r.
Qed.

Lemma reveal_wp n t :
  cards_inv n t → (n < 52)%nat →
  wp (c ← on_deck draw; mmodify (λ t, with_board (board_ t ++ [c]) t))
     (λ _ t', cards_inv (S n) t' ∧ board_added 1 t t') t.
Proof.
  intros Hc Hn. destruct (on_deck_draw n t Hc Hn) as (c & d & Heq & Hg & Hd & Hsub).
  apply wp_bind. rw /wp Heq. simpl. split.
  - exists d. split_and!; [done..| |done]. by rw /dealt /= app_assoc.
  - split_and!; [done|by apply prefix_app_r|by rw length_app].
Qed.

Lemma cards_inv_le m n t : cards_inv m t → (m ≤ n)%nat → cards_inv n t.
Proof. intros (d & ? & ? & ? & ?) ?. exists d. split_and!; [done..|lia]. Qed.

(** Sequencing of two steps that add to the board. *)
Lemma added_seq {A} (m1 : M Table unit) (m2 : M Table A) j k a b n t :
  wp m1 (λ _ t', cards_inv (n + a) t' ∧ board_added j t t') t →
  (∀ t', cards_inv (n + a) t' → wp m2 (λ _ t'', cards_inv (n + a + b) t'' ∧ board_added k t' t'') t') →
  wp (m1 ;; m2) (λ _ t', cards_inv (n + (a + b)) t' ∧ board_added (j + k) t t') t.
Proof.
  intros H1 H2. apply wp_bind. eapply wp_mono; [|exact H1]. intros [] t' [Hc Hb].
  eapply wp_mono, H2; [|done]. intros x t'' [Hc' Hb'].
  rw Nat.add_assoc. split; [done|]. by eapply board_added_trans.
Qed.

Lemma revealOne_wp n t :
  cards_inv n t → (n + 2 ≤ 52)%nat →
  wp revealOne (λ _ t', cards_inv (n + 2) t' ∧ board_added 1 t t') t.
Proof.
  intros Hc Hn. apply (added_seq _ _ 0 1 1 1).
  - rw Nat.add_1_r. apply burn_wp; [done|lia].
  - intros t' Hc'. rw (Nat.add_1_r (n + 1)). apply reveal_wp; [done|lia].
Qed.

(** [c ← m; f c ;; k] as the sequence of its first two steps and [k]. *)
Lemma wp_bind_assoc {S A B C} (m : M S A) (f : A → M S B) (k : M S C) Q s :
  wp ((m ≫= f) ;; k) Q s → wp (c ← m; f c ;; k) Q s.
Proof.
  rw /wp /mbind /M_bind. by destruct (m s) as [[] ?].
Qed.

Lemma revealFlop_wp n t :
  cards_inv n t → (n + 4 ≤ 52)%nat →
  wp revealFlop (λ _ t', cards_inv (n + 4) t' ∧ board_added 3 t t') t.
Proof.
  intros Hc Hn. apply (added_seq _ _ 0 3 1 3).
  { rw Nat.add_1_r. apply burn_wp; [done|lia]. }
  intros t1 H1. apply wp_bind_assoc, (added_seq _ _ 1 2 1 2).
  { rw (Nat.add_1_r (n + 1)). apply reveal_wp; [done|lia]. }
  intros t2 H2. apply wp_bind_assoc, (added_seq _ _ 1 1 1 1).
  { rw (Nat.add_1_r (n + 1 + 1)). apply reveal_wp; [done|lia]. }
  intros t3 H3. rw (Nat.add_1_r (n + 1 + 1 + 1)). apply reveal_wp; [done|lia].
Qed.

(** ** The frame of a settlement *)

(** Players keep identity, cards, status and commitments; the only chips that
    move are the recorded awards. *)
Definition moved (t t' : Table) : Prop :=
  ∃ f, seats_ t' = seats_ (map_players f t) ∧ config_ t' = config_ t ∧
    dealer_seat_ t' = dealer_seat_ t ∧ hand_id_ t' = hand_id_ t ∧
    ∀ p, same_person p (f p) ∧ pl_hand_commitment (f p) = pl_hand_commitment p ∧
         pl_status (f p) = pl_status p ∧ pl_hole (f p) = pl_hole p ∧
         pl_has_hole (f p) = pl_has_hole p ∧
         pl_stack (f p) = pl_stack p + winnings (last_awards_ t') (pl_id p).

Lemma moved_trans t1 t2 t3 :
  moved t1 t2 → last_awards_ t2 = [] → moved t2 t3 → moved t1 t3.
Proof.
  intros (f & F1 & F2 & F3 & F4 & F5) Hnil (g & G1 & G2 & G3 & G4 & G5). exists (g ∘ f).
  split_and!; [|congruence..|].
  - rw G1 -map_players_compose /map_players /=. by rw F1.
  - intros p. destruct (F5 p) as ([A1 A2] & A3 & A4 & A5 & A6 & A7).
    destruct (G5 (f p)) as ([B1 B2] & B3 & B4 & B5 & B6 & B7). rw Hnil /winnings /= in A7.
    simpl. rw B7 A7 A1. split_and!; [split|..]; try congruence. lia.
Qed.

Lemma moved_same t t' :
  seats_ t' = seats_ t → config_ t' = config_ t → dealer_seat_ t' = dealer_seat_ t →
  hand_id_ t' = hand_id_ t → last_awards_ t' = [] → moved t t'.
Proof.
  intros Hs Hc Hd Hh Ha. exists id. split_and!; [by rw map_players_id|done..|].
  intros p. split_and!; try done. rw Ha /winnings /=. lia.
Qed.

Lemma moved_players t t' :
  moved t t' → ∃ f, players t' = f <$> players t ∧
    ∀ p, same_person p (f p) ∧ pl_hand_commitment (f p) = pl_hand_commitment p ∧
         pl_status (f p) = pl_status p ∧ pl_hole (f p) = pl_hole p ∧
         pl_has_hole (f p) = pl_has_hole p ∧
         pl_stack (f p) = pl_stack p + winnings (last_awards_ t') (pl_id p).
Proof.
  intros (f & Hs & _ & _ & _ & Hf). exists f. split; [|done].
  rw -players_map /players. by rw Hs.
Qed.

(** ** Settled hands *)

(** Everyone else folded: the last player takes the whole pot. *)
Definition fold_win (t : Table) : Prop :=
  contenders t = 1%nat ∧ ∃ w, w ∈ players t ∧ is_contender w = true ∧
    last_awards_ t = [mkAward (potSize t) [pl_id w] (potSize t) 0].

(** The pots were shown down on a full board. *)
Definition showdown (t : Table) : Prop :=
  (2 ≤ contenders t)%nat ∧ length (board_ t) = 5%nat ∧
  pots_spec t (pot_levels t) 0 (last_awards_ t).

(** The cards and contributions of the hand, as the settlement will report them:
    distinct cards of the deck, and chips and a claim only from players with
    cards. *)
Record recorded (t : Table) : Prop := {
  rec_cards : NoDup (dealt t) ∧ Forall valid_card (dealt t);
  rec_board : (length (board_ t) ≤ 5)%nat;
  rec_hole : ∀ p, p ∈ players t → pl_has_hole p = false →
    pl_hand_commitment p = 0 ∧ is_contender p = false;
  rec_stack : ∀ p, p ∈ players t → winnings (last_awards_ t) (pl_id p) ≤ pl_stack p;
}.

Definition paid (t : Table) : Prop := settled t ∧ (fold_win t ∨ showdown t) ∧ recorded t.

Definition settle_with (awards : list PotAward) (t : Table) : Table :=
  markSettled (with_last_awards awards (credit (winnings awards) t)).

Section settle.
  Context (t : Table) (awards : list PotAward).
Let t' := settle_with awards t.
Let settle_player p := with_ready false (with_stack (pl_stack p + winnings awards (pl_id p)) p).

Lemma settle_seats : seats_ t' = seats_ (map_players settle_player t).
Proof.
  rw /t' /settle_with /credit /= -list_fmap_compose. apply list_fmap_ext.
  by intros _ [p|] _.
Qed.

Lemma settle_settled :
  table_ok t → (∀ id, 0 ≤ winnings awards id) → settled t'.
Proof.
  intros Hok Hw. split_and!; try done.
  eapply (table_ok_map settle_player t); [done|apply settle_seats|done|by left|].
  intros p Hp. destruct (ok_chips t Hok p Hp). specialize (Hw (pl_id p)).
  split_and!; [done|split; simpl; lia|exact (ok_status t Hok p Hp)].
Qed.

Lemma settle_moved : moved t t'.
Proof. exists settle_player. split_and!; [apply settle_seats|done..]. Qed.

Lemma settle_contenders : contenders t' = contenders t.
Proof.
  rw /contenders (count_players_seats _ (map_players settle_player t)) ?settle_seats //.
  by rw count_players_map.
Qed.

Lemma settle_players : players t' = settle_player <$> players t.
Proof. rw -players_map /players. by rw settle_seats. Qed.

Lemma settle_potSize : potSize t' = potSize t.
Proof. rw /potSize settle_players sumZ_fmap. done. Qed.

Lemma settle_alike : alike t t'.
Proof. exists settle_player. split_and!; [apply settle_seats|done..]. Qed.

Lemma settle_recorded : table_ok t → recorded t → recorded t'.
Proof.
  intros Hok.
  assert (dealt t' = dealt t) as Hd.
  { rw /dealt settle_players -list_fmap_compose. done. }
  intros [H1 H2 H3 _]. split; [by rw Hd|done|..].
  - intros q. rw settle_players. intros (p & -> & Hp)%list_elem_of_fmap. exact (H3 p Hp).
  - intros q. rw settle_players. intros (p & -> & Hp)%list_elem_of_fmap.
    destruct (ok_chips t Hok p Hp). change (winnings awards (pl_id p) ≤ pl_stack p + winnings awards (pl_id p)). lia.
Qed.

Lemma settle_levels : pot_levels t' = pot_levels t.
Proof. rw /pot_levels settle_players -list_fmap_compose. done. Qed.
End settle.

Lemma credit_seat t i p x :
  unique_ids t → seat_at t i = Some p →
  set_seat i (with_stack (pl_stack p + x) p) t = credit (λ j, if pl_id p =? j then x else 0) t.
Proof.
  intros Hnd Hi. destruct (findPlayer_is_Some t p) as (j & Hf & Hj); [done|apply elem_of_players; eauto|].
  assert (j = i) as -> by by eapply unique_ids_seat. by apply credit_one.
Qed.

Lemma find_contender t :
  (1 ≤ contenders t)%nat →
  ∃ i w, list_find (λ seat, Is_true (from_option is_contender false seat)) (seats_ t) =
           Some (i, Some w) ∧ seat_at t i = Some w ∧ is_contender w = true.
Proof.
  intros (p & [i Hi]%elem_of_players & Hc)%count_players_exists. apply seat_at_lookup in Hi.
  destruct (list_find_elem_of (λ seat, Is_true (from_option is_contender false seat))
    (seats_ t) (Some p)) as [[j s] Hj].
  { by eapply list_elem_of_lookup_2. } { simpl. by rw Hc. }
  pose proof Hj as (Hl & Hs & _)%list_find_Some. destruct s as [w|]; [|done].
  exists j, w. rw seat_at_lookup. split_and!; [done..|]. by apply Is_true_true.
Qed.

Lemma dealt_good n t :
  cards_inv n t → NoDup (dealt t) ∧ Forall valid_card (dealt t).
Proof.
  intros (d & _ & (_ & Hv & Hnd) & Hsub & _).
  assert (dealt t ⊆+ cards_ d) as Hs.
  { etrans; [exact Hsub|]. apply sublist_submseteq, sublist_take. }
  destruct (submseteq_Permutation _ _ Hs) as [k Hk]. rw Hk in Hv Hnd.
  apply Forall_app in Hv as [? _]. by apply NoDup_app in Hnd as [? _].
Qed.

Lemma contender_in_hand t p :
  table_ok t → p ∈ players t → is_contender p = true → in_hand p = true.
Proof.
  intros Hok Hp. pose proof (ok_status t Hok p Hp). rw /is_contender /in_hand.
  by destruct (pl_status p).
Qed.

Lemma hand_recorded t : hand_ok t → recorded t.
Proof.
  intros Hok. destruct (hand_cards t Hok) as [Hc Hlen]. split; [by eapply dealt_good|..].
  - rw Hlen. destruct (street_ t); simpl; lia.
  - intros p Hp Hh. destruct (hand_players t Hok p Hp) as [_ Hw Hin _].
    assert (in_hand p = false) as Hno by (apply not_true_iff_false; intros ?%Hin; congruence).
    split.
    + apply Hw. pose proof (ok_status t (hand_base t Hok) p Hp). revert Hno. rw /in_hand.
      by destruct (pl_status p).
    + apply not_true_iff_false. intros ?%(contender_in_hand t p (hand_base t Hok) Hp). congruence.
  - intros p Hp. rw (hand_awards t Hok). destruct (ok_chips t (hand_base t Hok) p Hp). by rw /winnings /=.
Qed.

Lemma settleFoldWin_wp t r :
  table_ok t → recorded t → contenders t = 1%nat →
  wp (settleFoldWin r) (λ r' t', r' = with_awards (last_awards_ t') r ∧ paid t' ∧ moved t t') t.
Proof.
  intros Hok Hrec H1. destruct (find_contender t) as (i & w & Hf & Hi & Hc); [lia|].
  apply wp_bind, wp_get. rw Hf. apply wp_bind, wp_modify, wp_ret.
  set (awards := [mkAward (potSize t) [pl_id w] (potSize t) 0]).
  assert (∀ id, winnings awards id = if pl_id w =? id then potSize t else 0) as Hw.
  { intros id. rw /winnings /= /award_to /= /award_share /=. case_match; lia. }
  assert (0 ≤ potSize t) as Hpot.
  { apply sumZ_nonneg. intros p Hp. destruct (ok_chips t Hok p Hp). lia. }
  assert (markSettled (with_last_awards awards
     (set_seat i (with_stack (pl_stack w + potSize t) w) t)) = settle_with awards t) as ->.
  { rw /settle_with credit_seat //; [apply ok_ids, Hok|]. do 2 f_equal.
    apply credit_ext. intros p _. by rw Hw. }
  split_and!; [done| |apply settle_moved]. split_and!; [| |by apply settle_recorded].
  - apply settle_settled; [done|]. intros id. rw Hw. case_match; lia.
  - left. split; [by rw settle_contenders|].
    exists (with_ready false (with_stack (pl_stack w + winnings awards (pl_id w)) w)).
    rw settle_potSize settle_players. split_and!; [|done|done].
    apply list_elem_of_fmap. exists w. split; [done|]. apply elem_of_players. by exists i.
Qed.

(** ** Showdown *)

Lemma mjoin_submseteq {A B} (f : A → list B) x l : x ∈ l → f x ⊆+ mjoin (f <$> l).
Proof.
  intros (l1 & l2 & ->)%list_elem_of_split. rw fmap_app fmap_cons join_app /=.
  apply submseteq_inserts_l, submseteq_inserts_r. done.
Qed.

Lemma player_cards_dealt t p :
  p ∈ players t → pl_has_hole p = true → player_cards t p ⊆+ dealt t.
Proof.
  intros Hp Hh. rw /player_cards /dealt (Permutation_app_comm (board_ t)).
  apply submseteq_skips_r. etrans; [|by apply (mjoin_submseteq hole_cards p)].
  by rw /hole_cards Hh.
Qed.

Lemma showable_full n t :
  cards_inv n t → length (board_ t) = 5%nat →
  (∀ p, p ∈ players t → is_contender p = true → pl_has_hole p = true) → showable t.
Proof.
  intros Hc Hlen Hhole p Hp Hcon. destruct (dealt_good n t Hc) as [Hnd Hv].
  pose proof (player_cards_dealt t p Hp (Hhole p Hp Hcon)) as Hsub.
  destruct (submseteq_Permutation _ _ Hsub) as [k Hk]. rw Hk in Hnd Hv.
  apply Forall_app in Hv as [Hv _]. apply NoDup_app in Hnd as [Hnd _].
  destruct (evaluateBest_spec (player_cards t p)) as (v & Hev & _); [|done..|].
  { rw /player_cards length_app Hlen /=. lia. }
  rw /evaluates /hand_value. by rw Hev.
Qed.

Lemma settleShowdown_wp t r :
  hand_ok t → street_ t = Street_river → (2 ≤ contenders t)%nat →
  wp (settleShowdown r) (λ r' t', r' = with_awards (last_awards_ t') r ∧ paid t' ∧ moved t t') t.
Proof.
  intros Hok Hst Hcon. destruct (hand_cards t Hok) as [Hc Hlen]. rw Hst /= in Hc Hlen.
  pose proof (hand_base t Hok) as Hbase.
  assert (showable t) as Hshow.
  { eapply showable_full; [done|done|]. intros p Hp Hp2.
    apply (hand_players t Hok p Hp). by apply (contender_in_hand t). }
  apply wp_bind, wp_modify. set (t1 := with_street _ t). apply wp_bind.
  assert (reveal_rest 5 t1 = (Ok tt, t1)) as Hrest.
  { rw /= /mbind /M_bind /= Hlen. done. }
  rw /wp Hrest -/(wp _ _ _). apply wp_bind.
  destruct (buildAndAwardPots_ok t1) as (awards & Heq & Hspec).
  { apply (table_ok_same t); [done|done|done|by left]. } { done. }
  rw /wp Heq. simpl.
  assert (markSettled (with_last_awards awards (credit (winnings awards) t1)) =
          settle_with awards t) as -> by done.
  split_and!; [done| |apply settle_moved]. split_and!; [| |by apply settle_recorded, hand_recorded; [apply hand_base|]].
  - apply settle_settled; [done|]. intros id. by eapply winnings_nonneg.
  - right. split_and!; [by rw settle_contenders|done|]. rw settle_levels.
    destruct (settle_alike t awards) as (f & H1 & H2 & H3 & H4).
    apply (alike_pots t _ f H1 H2 H3 H4).
    destruct (alike_same t t1) as (g & G1 & G2 & G3 & G4); [done..|].
    by apply (alike_pots t t1 g G1 G2 G3 G4).
Qed.

(** ** Streets *)

Definition next_street (s : Street) : Street :=
  match s with
  | Street_preflop => Street_flop
  | Street_flop => Street_turn
  | _ => Street_river
  end.

(** Betting is reset and everyone who can act is asked. *)
Definition new_round (t : Table) : Table :=
  with_action_sets ∅ ∅ (with_bets 0 (big_blind (config_ t))
    (map_players (λ p, with_commitments 0 (pl_hand_commitment p) p) t)).

Lemma new_round_ok t s :
  hand_ok t → street_ t = s → s ≠ Street_river → ∀ t1 b d,
  t1 = with_deck d (with_board b (with_street (next_street s) (new_round t))) →
  cards_inv (12 + cards_drawn (next_street s)) t1 →
  length b = board_size (next_street s) →
  let t' := with_action_sets (ids_where canAct t1) (ids_where canAct t1) t1 in
  hand_ok t' ∧ (∀ p, p ∈ players t' → pl_street_commitment p = 0) ∧ current_bet_ t' = 0 ∧
  contenders t' = contenders t ∧ moved t t'.
Proof.
  intros Hok Hs Hne t1 b d -> Hc Hlen t'.
  pose proof (hand_base t Hok) as Hbase. pose proof (hand_street t Hok) as Hstreet.
  set (f := λ p, with_commitments 0 (pl_hand_commitment p) p).
  assert (seats_ t' = seats_ (map_players f t)) as Hseats by done.
  assert (players t' = f <$> players t) as Hpl by (rw -players_map /players; by rw Hseats).
  split_and!.
  - split.
    + apply (table_ok_map f t); [done..|by left|]. intros p Hp.
      destruct (ok_chips t Hbase p Hp). split_and!; [done|split; simpl; lia|].
      exact (ok_status t Hbase p Hp).
    + simpl. rw -Hs. destruct (street_ t); rw /betting_street /=; naive_solver.
    + rw Hpl. intros q (p & -> & Hp)%list_elem_of_fmap.
      destruct (hand_players t Hok p Hp). by split.
    + intros id. simpl. rw elem_of_ids_where. intros (p & ? & ? & ?). by exists p.
    + destruct (hand_dealer t Hok) as (i & p & ? & Hi & ?). exists i, (f p).
      split_and!; [done| |done]. by rw (seat_at_seats (map_players f t)) // seat_at_map Hi.
    + apply (hand_awards t Hok).
    + pose proof (hand_bets t Hok). simpl. lia.
    + done.
  - rw Hpl. by intros q (p & -> & Hp)%list_elem_of_fmap.
  - done.
  - rw /contenders (count_players_seats _ (map_players f t)) // count_players_map. done.
  - exists f. split_and!; [done..|]. intros p. split_and!; try done. simpl.
    rw (hand_awards t Hok) /winnings /=. lia.
Qed.

Lemma advanceStreet_wp t :
  hand_ok t → street_ t ≠ Street_river →
  wp advanceStreet (λ _ t', hand_ok t' ∧ street_ t' = next_street (street_ t) ∧
    (∀ p, p ∈ players t' → pl_street_commitment p = 0) ∧ current_bet_ t' = 0 ∧
    pending_action_ t' = ids_where canAct t' ∧ contenders t' = contenders t ∧ moved t t') t.
Proof.
  intros Hok Hne. destruct (hand_cards t Hok) as [Hc Hlen].
  pose proof (hand_street t Hok) as Hst.
  assert (∀ m : M Table unit,
    (∀ t0, t0 = with_street (next_street (street_ t)) (new_round t) →
       wp m (λ _ t', cards_inv (12 + cards_drawn (next_street (street_ t))) t' ∧
               board_added (board_size (next_street (street_ t)) - board_size (street_ t)) t0 t') t0) →
    wp ((mmodify (with_street (next_street (street_ t))) ;; m) ;;
        mmodify (λ t, let ids := ids_where canAct t in with_action_sets ids ids t))
      (λ _ t', hand_ok t' ∧ street_ t' = next_street (street_ t) ∧
    (∀ p, p ∈ players t' → pl_street_commitment p = 0) ∧ current_bet_ t' = 0 ∧
    pending_action_ t' = ids_where canAct t' ∧ contenders t' = contenders t ∧ moved t t')
      (new_round t)) as Hcont.
  { intros m Hm. apply wp_bind, wp_bind, wp_modify. eapply wp_mono, Hm; [|done].
    intros [] t1 [Hc1 (E1 & Hpre & Hl1)]. apply wp_modify.
    destruct (new_round_ok t (street_ t) Hok eq_refl Hne t1 (board_ t1) (deck_ t1) E1 Hc1)
      as (H1 & H2 & H3 & H4 & H5).
    { rw Hl1 /= Hlen. by destruct Hst as [-> | [-> | [-> | ?]]]. }
    split_and!; try done. by rw E1. }
  assert (cards_inv (12 + cards_drawn (street_ t))
    (with_street (next_street (street_ t)) (new_round t))) as Hc0.
  { eapply cards_inv_same; [exact Hc|done|]. by eapply dealt_update. }
  rw /advanceStreet. apply wp_bind, wp_modify, wp_bind, wp_get.
  match goal with |- wp _ _ ?s => change s with (new_round t) end.
  change (street_ (new_round t)) with (street_ t).
  destruct Hst as [Hs|[Hs|[Hs|?]]]; [..|done]; rw Hs; rw Hs /= in Hcont Hc0; apply Hcont; intros t0 ->.
  - apply (revealFlop_wp 12); [done|lia].
  - apply (revealOne_wp 16); [done|lia].
  - apply (revealOne_wp 18); [done|lia].
Qed.

(** ** Waiting for a player *)

(** A running hand stays one when only the actor, the sets or the counters
    change and nobody new is asked. *)
Lemma hand_ok_same t t' :
  hand_ok t → seats_ t' = seats_ t → config_ t' = config_ t → street_ t' = street_ t →
  dealer_seat_ t' = dealer_seat_ t → current_bet_ t' = current_bet_ t →
  minimum_raise_ t' = minimum_raise_ t → board_ t' = board_ t → deck_ t' = deck_ t →
  last_awards_ t' = last_awards_ t → pending_action_ t' ⊆ pending_action_ t → hand_ok t'.
Proof.
  intros [H1 H2 H3 H4 (i & p & H5 & H6 & H7) H8 H9 H10] E1 E2 E3 E4 E5 E6 E7 E8 E9 E10.
  pose proof (players_seats t t' E1) as Hpl. split.
  - apply (table_ok_same t); [done..|by left].
  - by rw E3.
  - rw Hpl. intros q Hq. destruct (H3 q Hq). split; try done. by rw E5.
  - rw Hpl. intros id Hid. by apply H4, E10.
  - exists i, p. rw E4 (seat_at_seats t t' i E1). done.
  - by rw E9.
  - rw E2 E5 E6. done.
  - apply (cards_ok_same t); [done..|]. by rw /dealt Hpl E7.
Qed.

Lemma round_incomplete t :
  called t → bettingRoundComplete t = false →
  (2 ≤ contenders t)%nat ∧ ∃ p, p ∈ players t ∧ canAct p = true ∧ pl_id p ∈ pending_action_ t.
Proof.
  intros Hcalled [Hc Hf]%orb_false_iff. split; [apply Nat.leb_gt in Hc; lia|].
  apply not_true_iff_false in Hf. rw forallb_forall in Hf.
  destruct (decide (Exists (λ p, canAct p = true ∧ pl_id p ∈ pending_action_ t) (players t)))
    as [Hex|Hno].
  { apply Exists_exists in Hex as (p & ? & ? & ?). eauto. }
  destruct Hf. intros p Hp%list_elem_of_In. destruct (canAct p) eqn:Hca; [|done]. simpl.
  rw negb_true_iff orb_false_iff. assert (pl_id p ∉ pending_action_ t) as Hnot.
  { intros Hin. apply Hno, Exists_exists. eauto. }
  split; [by apply bool_decide_eq_false|]. rw (Hcalled p) // Z.eqb_refl //.
Qed.

Lemma round_complete t :
  bettingRoundComplete t = true → (2 ≤ contenders t)%nat →
  ∀ p, p ∈ players t → canAct p = true →
    pl_id p ∉ pending_action_ t ∧ pl_street_commitment p = current_bet_ t.
Proof.
  intros [Hc%Nat.leb_le|Hall]%orb_true_iff H2; [lia|]. rw forallb_forall in Hall.
  intros p Hp Hca. specialize (Hall p). rw -list_elem_of_In Hca /= in Hall.
  apply Hall in Hp. rw negb_true_iff orb_false_iff in Hp. destruct Hp as [Hp Hs].
  apply bool_decide_eq_false in Hp. split; [done|]. lia.
Qed.

Lemma awaiting_with t a :
  hand_ok t → called t → (2 ≤ contenders t)%nat →
  (∃ from, a = nextCanActSeat t from) →
  (∃ p, p ∈ players t ∧ canAct p = true ∧ pl_id p ∈ pending_action_ t) →
  awaiting (with_acting_seat a t).
Proof.
  intros Hok Hcalled H2 [from ->] (p & Hp & Hca & Hin).
  destruct (nextCanActSeat_is_Some t from p) as [i Hi]; [done..|]. rw Hi. split_and!.
  - by apply (hand_ok_same t).
  - done.
  - done.
  - apply nextCanActSeat_Some in Hi as (q & ? & ? & ?). by exists i, q.
Qed.

(** A new street keeps the largest commitment in the hand. *)
Lemma covered_next t t' :
  hand_ok t → moved t t' → last_awards_ t' = [] →
  (∀ p, p ∈ players t' → pl_street_commitment p = 0) → current_bet_ t' = 0 →
  (∀ p, p ∈ players t → canAct p = true → pl_street_commitment p = current_bet_ t) →
  covered t → covered t'.
Proof.
  intros Hok (f & Hpl & Hf)%moved_players Hnil Hzero Hbet Hcalled
    (m & Hle & Heq & (w & Hw & Hcw & Hmw & Hbw)).
  assert (∀ p, p ∈ players t → f p ∈ players t') as Hin
    by (intros p Hp; rw Hpl; by apply list_elem_of_fmap_2).
  exists (m + current_bet_ t). rw Hpl. split_and!.
  - intros q (p & -> & Hp)%list_elem_of_fmap. rw (Hzero (f p)); [by apply Hin|].
    destruct (Hf p) as (_ & -> & _). specialize (Hle p Hp).
    pose proof (pok_bet t p (hand_players t Hok p Hp)). lia.
  - intros q (p & -> & Hp)%list_elem_of_fmap Hca. rw (Hzero (f p)); [by apply Hin|].
    destruct (Hf p) as (_ & -> & Hs & _ & _ & Hst). rw Hnil /winnings /= Z.add_0_r in Hst.
    assert (canAct p = true) as Hca' by by rw -Hca /canAct Hs Hst.
    specialize (Heq p Hp Hca'). specialize (Hcalled p Hp Hca'). lia.
  - exists (f w). split_and!; [by apply list_elem_of_fmap_2|..].
    + rw /is_contender. destruct (Hf w) as (_ & _ & -> & _). done.
    + rw (Hzero (f w)); [by apply Hin|]. destruct (Hf w) as (_ & -> & _). lia.
    + rw Hbet. by apply Hzero, Hin.
Qed.

Definition streets_left (s : Street) : nat :=
  match s with
  | Street_preflop => 4
  | Street_flop => 3
  | Street_turn => 2
  | _ => 1
  end.

(** The street did not go back, and a completed round moved it on. *)
Definition later (t t' : Table) : Prop :=
  (streets_left (street_ t') ≤ streets_left (street_ t))%nat ∧
  (bettingRoundComplete t = true → streets_left (street_ t') < streets_left (street_ t))%nat.

(** The loop of [advanceUntilActionOrSettlement]: from a running hand in which
    everyone not asked has matched the bet, it ends with someone to act or with
    the pots paid. *)
Lemma advance_loop_wp fuel t r :
  hand_ok t → called t → (1 ≤ contenders t)%nat → acting_seat_ t = None →
  (streets_left (street_ t) ≤ fuel)%nat →
  wp (advance_loop fuel r) (λ r' t', moved t t' ∧
    (awaiting t' ∧ r' = r ∧ (covered t → covered t') ∧ later t t' ∨ paid t' ∧ r' = with_awards (last_awards_ t') r)) t.
Proof.
  revert t. induction fuel as [|fuel IH]; intros t Hok Hcalled H1 Hact Hfuel.
  { by destruct (street_ t); simpl in Hfuel; lia. }
  pose proof (hand_base t Hok) as Hbase. simpl. apply wp_bind, wp_get.
  destruct (Nat.leb_spec (contenders t) 1).
  { eapply wp_mono, settleFoldWin_wp; [|done|by apply hand_recorded|lia]. naive_solver. }
  destruct (bettingRoundComplete t) eqn:Hround; simpl.
  2:{ rw Hact. apply wp_bind, wp_modify, wp_ret.
      destruct (round_incomplete t) as [_ Hex]; [done..|].
      destruct (hand_dealer t Hok) as (i & p & Hd & _). rw /firstPostflopActor Hd.
      split; [apply moved_same; try done; apply (hand_awards t Hok)|]. left.
      split_and!; [|done|done|by split; [|rw Hround]].
      apply awaiting_with; [done..| |done]. exists i. by destruct (street_ t). }
  case_decide as Hriver.
  { eapply wp_mono, settleShowdown_wp; [|done|done|lia]. naive_solver. }
  apply wp_bind. eapply wp_mono, advanceStreet_wp; [|done..].
  intros [] t1 (Hok1 & Hst1 & Hzero & Hbet & Hpend & Hcon & Hmoved). apply wp_bind, wp_get.
  pose proof (hand_awards t1 Hok1) as Hnil.
  assert (covered t → covered t1) as Hnext.
  { intros Hc. apply (covered_next t t1); try done.
    intros p Hp Hca. by apply (round_complete t). }
  assert (streets_left (street_ t1) < streets_left (street_ t))%nat as Hless.
  { rw Hst1. by destruct (hand_street t Hok) as [Hs|[Hs|[Hs|Hs]]]; rw Hs; simpl; lia || congruence. }
  destruct (Nat.leb_spec (actionable t1) 1).
  - apply wp_bind, wp_modify. set (t2 := with_acting_seat None _).
    eapply wp_mono, IH.
    + intros r' t' [Hm Hcase]. split.
      { eapply moved_trans; [exact Hmoved|done|]. destruct Hm as (f & Hf). by exists f. }
      destruct Hcase as [(? & ? & Hcov & Hlater & _)|?]; [left|by right].
      change (street_ t2) with (street_ t1) in Hlater. split_and!; [done..| |].
      { intros Hc. apply Hcov. by apply Hnext in Hc. }
      split; [lia|]. intros _. lia.
    + apply (hand_ok_same t1); [done..|]. simpl. set_solver.
    + intros p Hp _ _. rw Hbet. by apply Hzero.
    + change (contenders t2) with (contenders t1). lia.
    + done.
    + change (street_ t2) with (street_ t1). rw Hst1.
      destruct (hand_street t Hok) as [Hs|[Hs|[Hs|Hs]]]; rw Hs /= in Hfuel |- *; try lia. done.
  - apply wp_bind, wp_modify, wp_ret. split.
    { eapply moved_trans; [exact Hmoved|done|]. by apply moved_same. }
    left. split_and!; [|done|done|split; simpl; [lia|intros _; lia]]. destruct (hand_dealer t1 Hok1) as (i & p & Hd & _).
    rw /firstPostflopActor Hd. apply awaiting_with; [done| |lia|by exists i|].
    + intros p' Hp' Hca Hnot. rw Hbet. by apply Hzero.
    + destruct (count_players_exists canAct t1) as (q & Hq & Hcq); [rw /actionable in H0; lia|].
      exists q. split_and!; [done..|]. rw Hpend. apply elem_of_ids_where. eauto.
Qed.
