(* ===== verification/TableAct.v ===== *)
(** * [Table::act]

    A command on a well-formed table returns normally on every branch; a
    refused command changes nothing; an accepted one leaves a hand that waits
    for a player or one that is paid, and moves no chips but the recorded
    awards. *)
From S2P Require Import Prelude Card Deck HandEvaluator Table TableLib TableInv TableBetting TablePots TableAdvance.

(** ** From [succeed] on *)

(** What an accepted command reports. *)
Record reports (street : Street) (t' : Table) (r : ActionResult) : Prop := {
  rep_error : res_error r = Error_ok;
  rep_awards : res_awards r = last_awards_ t';
  rep_street : res_action_street r = street;
  rep_sequence : res_server_sequence r = server_sequence_ t';
}.

Lemma awaiting_unsettled t : awaiting t → street_ t ≠ Street_settled.
Proof.
  intros [Hok _]. destruct (hand_street t Hok) as [Hs|[Hs|[Hs|Hs]]]; congruence.
Qed.

Lemma act_finish_wp t street previous :
  hand_ok t → called t → (1 ≤ contenders t)%nat →
  wp (act_finish street previous) (λ r t', moved t t' ∧ (awaiting t' ∨ paid t') ∧
    reports street t' r ∧
    (awaiting t' → (covered t → covered t') ∧
       ((streets_left (street_ t') < streets_left (street_ t))%nat ∨
        seats_ t' = seats_ t ∧ street_ t' = street_ t ∧ pending_action_ t' = pending_action_ t))) t.
Proof.
  intros Hok Hcalled H1. set (t1 := bump_sequence t).
  assert (hand_ok t1) as Hok1 by by apply (hand_ok_same t).
  assert (∀ t', moved t1 t' → moved t t') as Hmv.
  { intros t' (f & Hf). by exists f. }
  rw /act_finish. apply wp_bind, wp_bind, wp_modify, wp_bind, wp_get, wp_ret.
  apply wp_bind, wp_get. change (bump_sequence t) with t1.
  change (contenders t1) with (contenders t). change (bettingRoundComplete t1) with (bettingRoundComplete t).
  destruct (Nat.leb_spec (contenders t) 1).
  { apply wp_bind. eapply wp_mono, settleFoldWin_wp; [|apply Hok1|by apply hand_recorded|].
    - intros r' t' (-> & Hp & Hm). apply wp_bind, wp_get, wp_ret.
      split_and!; [by apply Hmv|by right|by split|]. by intros ?%awaiting_unsettled; destruct Hp as [(_ & ? & _) _].
    - change (contenders t1) with (contenders t). lia. }
  apply wp_bind. destruct (bettingRoundComplete t) eqn:Hround.
  - apply wp_bind, wp_modify. eapply wp_mono, advance_loop_wp; try done.
    + intros r' t' [Hm Hcase]. apply wp_bind, wp_get, wp_ret.
      split; [apply Hmv; destruct Hm as (f & Hf); by exists f|].
      destruct Hcase as [(Ha & -> & Hcov & _ & Hless)|[Hp ->]].
      * split_and!; [by left| |by split; [|left; apply Hless]]. case_decide; [by destruct (awaiting_unsettled t')|].
        split; try done. by destruct Ha as [Ha%hand_awards _].
      * split_and!; [by right|case_decide; by split|].
        by intros ?%awaiting_unsettled; destruct Hp as [(_ & ? & _) _].
    + by apply (hand_ok_same t1).
    + simpl. by destruct (street_ t); simpl; lia.
  - apply wp_bind, wp_modify, wp_ret, wp_bind, wp_get, wp_ret.
    destruct (round_incomplete t) as [_ Hex]; [done..|].
    assert (awaiting (selectNextActor previous t1)) as Ha.
    { apply awaiting_with; [done|done|done|by eexists|done]. }
    split; [apply Hmv, moved_same; try done; apply (hand_awards t Hok)|].
    split_and!; [by left| |by split; [|right]]. case_decide; [by apply awaiting_unsettled in Ha|].
    split; try done. simpl. by rw (hand_awards t Hok).
Qed.

(** ** The whole call *)

(** Chips in front of the player and in the pot. *)
Definition stake (p : Player) : Z := pl_stack p + pl_hand_commitment p.

(** The players of [t'] are those of [t]; each has the same stake but for the
    awards. *)
Definition stakes_kept (t t' : Table) : Prop :=
  ∃ f, players t' = f <$> players t ∧ ∀ p, p ∈ players t →
    same_person p (f p) ∧ stake (f p) = stake p + winnings (last_awards_ t') (pl_id p) ∧
    pl_has_hole (f p) = pl_has_hole p.

(** The acting player has yet to match the bet. *)
Definition owes (t : Table) : Prop :=
  ∃ i p, acting_seat_ t = Some i ∧ seat_at t i = Some p ∧ pl_street_commitment p < current_bet_ t.

(** Nobody has put more into the pot than someone still in the hand. *)
Definition matched (t : Table) : Prop :=
  ∀ p, p ∈ players t → pl_hand_commitment p ≤ live_max t.

Lemma covered_matched t : hand_ok t → covered t → matched t.
Proof.
  intros Hok (m & Hle & _ & (w & Hw & Hc & Hm & Hb)) p Hp.
  pose proof (live_max_ge t w Hw Hc). specialize (Hle p Hp).
  pose proof (pok_bet t p (hand_players t Hok p Hp)). lia.
Qed.

Lemma moved_matched t t' : moved t t' → matched t → matched t'.
Proof.
  intros (f & Hpl & Hf)%moved_players Hm q.
  assert (live_max t' = live_max t) as Hlive.
  { rw /live_max Hpl. f_equal. clear Hm Hpl. induction (players t) as [|p l IH]; csimpl; [done|].
    destruct (Hf p) as (_ & Hh & Hs & _). rw /is_contender Hs -/(is_contender p).
    destruct (is_contender p); csimpl; [by rw Hh IH|done]. }
  rw Hpl Hlive. intros (p & -> & Hp)%list_elem_of_fmap.
  destruct (Hf p) as (_ & -> & _). by apply Hm.
Qed.

(** The order in which a hand makes progress: the street, then the chips
    behind, then the players still to act. *)
Definition chips_behind (t : Table) : Z := sumZ pl_stack (players t).

Definition hand_lt (t' t : Table) : Prop :=
  (streets_left (street_ t') < streets_left (street_ t))%nat ∨
  streets_left (street_ t') = streets_left (street_ t) ∧
  (chips_behind t' < chips_behind t ∨
   chips_behind t' = chips_behind t ∧ (size (pending_action_ t') < size (pending_action_ t))%nat).

Lemma sum_update (h : Player → Z) (l : list Player) p g :
  NoDup (pl_id <$> l) → p ∈ l →
  sumZ h ((λ q, if pl_id q =? pl_id p then g q else q) <$> l) = sumZ h l - h p + h (g p).
Proof.
  intros Hnd Hp. induction l as [|q l IH]; [by apply not_elem_of_nil in Hp|].
  rw fmap_cons NoDup_cons in Hnd. destruct Hnd as [Hq Hnd]. csimpl.
  destruct (Z.eqb_spec (pl_id q) (pl_id p)) as [Hqp|Hqp].
  - assert (q = p) as ->.
    { apply elem_of_cons in Hp as [->|Hp]; [done|]. destruct Hq. rw Hqp. by apply list_elem_of_fmap_2. }
    assert (sumZ h ((λ q, if pl_id q =? pl_id p then g q else q) <$> l) = sumZ h l) as ->; [|lia].
    rw sumZ_fmap. apply sumZ_ext. intros r Hr. simpl.
    destruct (Z.eqb_spec (pl_id r) (pl_id p)) as [Hrp|]; [|done].
    destruct Hq. rw -Hrp. by apply list_elem_of_fmap_2.
  - apply elem_of_cons in Hp as [->|Hp]; [done|]. rw IH //. lia.
Qed.

Lemma applied_progress t p fold t' :
  hand_ok t → p ∈ players t → pl_id p ∈ pending_action_ t → applied t p fold t' → hand_lt t' t.
Proof.
  intros Hok Hp Hin [g bet raise pend allow _ _ _ _ _ _ _ _ _ Hless]. right. split; [done|].
  assert (∀ h : Player → Z, sumZ h (players (bet_step (pl_id p) g bet raise pend allow t)) =
    sumZ h (players t) - h p + h (g p)) as Hsum.
  { intros h. change (players (bet_step _ _ _ _ _ _ _)) with (players (update_player (pl_id p) g t)).
    rw players_update sum_update //. apply ok_ids, hand_base, Hok. }
  rw /chips_behind Hsum. destruct Hless as [?|[? ->]]; [left; lia|right]. split; [lia|]. simpl.
  apply subset_size. set_solver.
Qed.

(** How [act] answers the command. *)
Definition act_answer (cmd : ActionCommand) (t t' : Table) (r : ActionResult) : Prop :=
  (res_error r ≠ Error_ok ∧ t' = t ∧ res_server_sequence r = server_sequence_ t ∧ res_awards r = []) ∨
  (awaiting t ∧ (awaiting t' ∨ paid t') ∧ reports (street_ t) t' r ∧ stakes_kept t t' ∧
   (covered t → (cmd_type cmd = Action_fold → owes t) →
    if decide (street_ t' = Street_settled) then matched t' else covered t') ∧
   (awaiting t' → hand_lt t' t)).

Lemma applied_stakes t p fold t' :
  hand_ok t → p ∈ players t → canAct p = true → applied t p fold t' →
  ∃ f, players t' = f <$> players t ∧ ∀ q, q ∈ players t →
    same_person q (f q) ∧ stake (f q) = stake q ∧ pl_has_hole (f q) = pl_has_hole q.
Proof.
  intros Hok Hp Hact [g bet raise pend allow Hg _ _ _ _ _ _ _ _ _].
  exists (λ q, if pl_id q =? pl_id p then g q else q). split; [apply players_update|].
  intros q Hq. destruct (Z.eqb_spec (pl_id q) (pl_id p)) as [Hid|]; [|done].
  assert (q = p) as ->.
  { apply (unique_ids_eq t); [apply ok_ids, hand_base, Hok|done..]. }
  split; [apply Hg|]. rw /stake. split; apply Hg.
Qed.

Lemma moved_stakes t t' t'' f :
  players t' = f <$> players t →
  (∀ q, q ∈ players t → same_person q (f q) ∧ stake (f q) = stake q ∧ pl_has_hole (f q) = pl_has_hole q) →
  moved t' t'' → stakes_kept t t''.
Proof.
  intros Hpl Hf (g & Hg & HG)%moved_players. exists (g ∘ f). split.
  - by rw Hg Hpl -list_fmap_compose.
  - intros p Hp. destruct (Hf p Hp) as ([F1 F2] & F3 & F4).
    destruct (HG (f p)) as ([G1 G2] & G3 & _ & _ & G5 & G4). rw /stake /= in F3 |- *.
    rw G3 G4 F1. split_and!; [split; simpl; congruence|lia|congruence].
Qed.

Lemma act_ok cmd t :
  inv t → wp (act cmd) (λ r t', act_answer cmd t t' r) t.
Proof.
  intros Hinv.
  assert (∀ e msg, e ≠ Error_ok → act_answer cmd t t (fail e msg t)) as Hfail by (intros; by left).
  rw /wp /act. destruct (negb (handIsRunning (street_ t)) || _) eqn:Hrun; [by apply Hfail|].
  destruct (acting_seat_ t) as [seat|] eqn:Hseat; [|by apply Hfail].
  assert (awaiting t) as Haw.
  { destruct Hinv as [(_ & Hs & _)|[?|[(_ & _ & _ & ? & _)|(_ & Hs & _)]]];
      [by rw Hs in Hrun|done|congruence|by rw Hs in Hrun]. }
  destruct Haw as (Hok & Hcalled & H2 & (i & p & Hi & Hp & Hca & Hpend)) eqn:E. clear E.
  rw Hseat in Hi. injection Hi as <-. pose proof Hp as Hp'%seat_at_lookup. rw Hp'.
  destruct (_ =? _) eqn:Hid; simpl; [|by apply Hfail].
  rw Hca /is_pending (bool_decide_eq_true_2 _ Hpend) /=.
  destruct (act_switch seat p cmd t) as [e msg|t1] eqn:Hsw.
  { apply Hfail. intros ->. revert Hsw. clear. rw /act_switch.
    rw /act_fold /act_check /act_call /act_bet /act_raise /act_all_in.
    destruct (cmd_type cmd); repeat case_match; congruence. }
  pose proof (act_switch_applied t seat p Hok Hcalled Hp Hca cmd t1 Hsw) as Happ.
  assert (p ∈ players t) as Hin by (apply elem_of_players; eauto).
  destruct (applied_ok t p _ t1 Hok Hin Hca Happ) as (Hok1 & Hcalled1 & Hst & Hcon).
  destruct (applied_stakes t p _ t1 Hok Hin Hca Happ) as (f & Hf & Hstake).
  pose proof (act_finish_wp t1 (street_ t) (pl_seat p) Hok1 Hcalled1) as Hfin.
  apply wp_inv in Hfin as (r & t' & -> & Hm & Hend & Hrep & Hcov); [|by case_match; lia].
  right. split_and!; [done..|by eapply moved_stakes| |].
  2:{ intros Ha. pose proof (applied_progress t p _ t1 Hok Hin Hpend Happ) as Hlt.
      destruct (Hcov Ha) as [_ [Hs|(E1 & E2 & E3)]]; [left; by rw -Hst|].
      rw /hand_lt /chips_behind (players_seats _ _ E1) E2 E3. exact Hlt. }
  intros Hc Howes.
  assert (covered t1) as Hc1.
  { eapply applied_covered; [exact Hok|exact Hin|exact Hca|exact Happ| |done].
    intros Hf'%bool_decide_eq_true. destruct (Howes Hf') as (j & q & Hj & Hq & Hlt).
    congruence. }
  destruct (decide (street_ t' = Street_settled)) as [Hs|Hs]; [by eapply moved_matched, covered_matched|].
  destruct Hend as [Ha|[(_ & ? & _) _]]; [by apply Hcov|done].
Qed.
