(* ===== verification/TableDeal.v ===== *)
(** * Dealing the hole cards

    [dealHoleCards] walks twice round the table from the button; every player
    in the hand receives one card on each walk, and the cards in play stay
    distinct. *)
From S2P Require Import Prelude Card Deck HandEvaluator Table TableLib TableInv TableBetting TablePots TableAdvance.

(** ** Walking round the table *)

(** The seats after [from] in clockwise order, [from] itself last. *)
Definition clock (n from : nat) : list nat := (λ o, (from + o) `mod` n)%nat <$> seq 1 n.

Lemma find_head_filter {A} (ok : A → bool) l : List.find ok l = head (List.filter ok l).
Proof. induction l as [|x l IH]; simpl; [done|]. by destruct (ok x). Qed.

Lemma scan_clock n from ok : scan_clockwise n from ok = head (List.filter ok (clock n from)).
Proof. apply find_head_filter. Qed.

Lemma clock_length n from : length (clock n from) = n.
Proof. by rw /clock length_fmap length_seq. Qed.

Lemma clock_lookup n from k :
  (k < n)%nat → clock n from !! k = Some ((from + S k) `mod` n)%nat.
Proof. intros Hk. rw /clock list_lookup_fmap lookup_seq_lt //. Qed.

(** The walk that starts at a seat of another walk is its rotation. *)
Lemma clock_rotate n from A i B :
  clock n from = A ++ i :: B → clock n i = B ++ A ++ [i].
Proof.
  intros Hc. assert (length A + 1 + length B = n)%nat as Hlen.
  { rw -(clock_length n from) Hc length_app /=. lia. }
  assert (i = (from + S (length A)) `mod` n)%nat as ->.
  { assert (clock n from !! length A = Some i) as Hi.
    { rw Hc lookup_app_r // Nat.sub_diag //. }
    rw clock_lookup in Hi; [lia|]. by injection Hi. }
  set (i := (_ `mod` _)%nat). apply list_eq. intros k.
  destruct (decide (k < n)%nat) as [Hk|Hk].
  2:{ rw !lookup_ge_None_2 //; rw ?clock_length ?length_app /= ?length_app /=; lia. }
  rw clock_lookup //.
  assert ((i + S k) `mod` n = (from + S (length A) + S k) `mod` n)%nat as ->.
  { rw /i. by rw Nat.Div0.add_mod_idemp_l. }
  destruct (decide (k < length B)%nat).
  - rw lookup_app_l //.
    assert (clock n from !! (length A + S k)%nat = B !! k) as <-.
    { rw Hc lookup_app_r; [lia|]. replace (length A + S k - length A)%nat with (S k) by lia. done. }
    rw clock_lookup; [lia|]. do 2 f_equal. lia.
  - rw lookup_app_r; [lia|].
    destruct (decide (k - length B < length A)%nat).
    + rw lookup_app_l //.
      assert (clock n from !! (k - length B)%nat = A !! (k - length B)%nat) as <-.
      { rw Hc lookup_app_l //. }
      rw clock_lookup; [lia|]. f_equal.
      replace (from + S (length A) + S k)%nat with (from + S (k - length B) + 1 * n)%nat by lia.
      by rw Nat.Div0.mod_add.
    + rw lookup_app_r; [lia|].
      replace (k - length B - length A)%nat with 0%nat by lia. simpl. f_equal.
      replace (from + S (length A) + S k)%nat with (from + S (length A) + 1 * n)%nat by lia.
      by rw Nat.Div0.mod_add.
Qed.

Lemma clock_last n : (0 < n)%nat → clock n (n - 1) = seq 0 n.
Proof.
  intros Hn. apply list_eq. intros k. destruct (decide (k < n)%nat).
  - rw clock_lookup // lookup_seq_lt //. f_equal.
    replace (n - 1 + S k)%nat with (k + 1 * n)%nat by lia. rw Nat.Div0.mod_add Nat.mod_small; lia.
  - rw !lookup_ge_None_2 //; rw ?length_seq ?clock_length; lia.
Qed.

(** Every walk visits each seat once. *)
Lemma clock_Permutation n from : (from < n)%nat → clock n from ≡ₚ seq 0 n.
Proof.
  intros Hf. assert (from ∈ seq 0 n) as (A & B & Heq)%list_elem_of_split by (apply elem_of_seq; lia).
  rw Heq. rw -(clock_last n) in Heq; [lia|]. rw (clock_rotate n (n - 1) A from B Heq).
  solve_Permutation.
Qed.

(** ** Hole cards while they are being dealt *)

(** The hole cards handed out so far: in the first round to the seats in
    [served], in the second a further card to them. *)
Definition held (round : nat) (served : list nat) (p : Player) : list Card :=
  match round with
  | O => if decide (pl_seat p ∈ served) then [fst (pl_hole p)] else []
  | _ => if in_hand p
         then fst (pl_hole p) :: (if decide (pl_seat p ∈ served) then [snd (pl_hole p)] else [])
         else []
  end.

(** [n] cards were dealt from the deck and the hole cards are among them. *)
Definition dealing (round : nat) (served : list nat) (n : nat) (t : Table) : Prop :=
  (∃ d, deck_ t = Some d ∧ good_deck d ∧ next_ d = n ∧
     mjoin (held round served <$> players t) ⊆+ take n (cards_ d)) ∧
  ∀ p, p ∈ players t →
    (pl_has_hole p = true → in_hand p = true) ∧
    (pl_seat p ∈ served ∨ round ≠ O ∧ in_hand p = true → pl_has_hole p = true).

(** Only the deck and hole cards differ. *)
Definition holes_only (t0 t : Table) : Prop :=
  ∃ f d, t = with_deck d (map_players f t0) ∧
    ∀ p, f p = with_hole (pl_hole (f p)) (pl_has_hole (f p)) p.

Lemma holes_only_refl t : holes_only t t.
Proof.
  exists id, (deck_ t). split; [|by intros []]. rw map_players_id //. by destruct t.
Qed.

Lemma holes_only_step t0 t t' f d :
  holes_only t0 t → t' = with_deck d (map_players f t) →
  (∀ p, f p = with_hole (pl_hole (f p)) (pl_has_hole (f p)) p) → holes_only t0 t'.
Proof.
  intros (g & d' & -> & Hg) -> Hf. exists (f ∘ g), d. split.
  - rw -map_players_compose. done.
  - intros p. simpl. etrans; [apply (Hf (g p))|].
    generalize (pl_hole (f (g p))), (pl_has_hole (f (g p))). intros h b. by rw (Hg p).
Qed.

Lemma holes_only_seat t0 t i :
  holes_only t0 t → ∃ f, seat_at t i = f <$> seat_at t0 i ∧
    ∀ p, f p = with_hole (pl_hole (f p)) (pl_has_hole (f p)) p.
Proof.
  intros (f & d & -> & Hf). exists f. split; [|done].
  rw (seat_at_seats (map_players f t0)) //. apply seat_at_map.
Qed.

(** A test that does not look at the hole cards finds the same seats. *)
Lemma holes_only_seat_ok t0 t ok i :
  (∀ p h b, ok (with_hole h b p) = ok p) → holes_only t0 t → seat_ok t ok i = seat_ok t0 ok i.
Proof.
  intros Hok Hh. destruct (holes_only_seat t0 t i Hh) as (f & Hs & Hf). rw /seat_ok Hs.
  destruct (seat_at t0 i) as [p|]; [|done]. simpl. by rw Hf.
Qed.

Lemma holes_only_length t0 t : holes_only t0 t → length (seats_ t) = length (seats_ t0).
Proof. intros (f & d & -> & _). by rw /= length_fmap. Qed.

Lemma holes_only_next t0 t from :
  holes_only t0 t → nextParticipatingSeat t from =
  head (List.filter (seat_ok t0 in_hand) (clock (length (seats_ t0)) from)).
Proof.
  intros Hh. rw /nextParticipatingSeat scan_clock (holes_only_length t0 t) //. f_equal.
  apply filter_ext. intros i. by apply holes_only_seat_ok.
Qed.

(** Handing a card to one player adds it to the cards held. *)
Lemma mjoin_update (l : list Player) p g (h h' : Player → list Card) c :
  NoDup (pl_id <$> l) → p ∈ l → h' (g p) ≡ₚ c :: h p →
  (∀ q, q ∈ l → pl_id q ≠ pl_id p → h' q = h q) →
  mjoin (h' <$> ((λ q, if pl_id q =? pl_id p then g q else q) <$> l)) ≡ₚ c :: mjoin (h <$> l).
Proof.
  intros Hnd Hp Hg Hother. induction l as [|q l IH]; [by apply not_elem_of_nil in Hp|].
  rw fmap_cons NoDup_cons in Hnd. destruct Hnd as [Hq Hnd]. csimpl.
  destruct (Z.eqb_spec (pl_id q) (pl_id p)) as [Hqp|Hqp].
  - assert (q = p) as ->.
    { apply elem_of_cons in Hp as [->|Hp]; [done|]. destruct Hq. rw Hqp. by apply list_elem_of_fmap_2. }
    rw Hg. simpl. constructor. apply Permutation_app_head. apply reflexive_eq. f_equal. rw -list_fmap_compose. apply list_fmap_ext. intros i r Hr%list_elem_of_lookup_2. simpl.
    destruct (Z.eqb_spec (pl_id r) (pl_id p)) as [Hrp|Hrp].
    { destruct Hq. rw -Hrp. by apply list_elem_of_fmap_2. }
    apply Hother; [by right|done].
  - apply elem_of_cons in Hp as [->|Hp]; [done|].
    rw (Hother q); [left|done|]. rw IH //; [intros; apply Hother; [by right|done]|].
    solve_Permutation.
Qed.

(** ** One round *)

Section round.
  Context (t0 : Table) (dealer : nat).
  Hypothesis Hok : table_ok t0.
Let n := length (seats_ t0).
  (** The seats in the hand, in the order they are dealt to. *)
Let order := List.filter (seat_ok t0 in_hand) (clock n dealer).

Lemma order_next A i B t :
  order = A ++ i :: B → holes_only t0 t → nextParticipatingSeat t i = head (B ++ order).
Proof.
  intros Ho Hh. rw (holes_only_next t0 t i Hh). fold n.
  assert (∃ A' B', clock n dealer = A' ++ i :: B' ∧ List.filter (seat_ok t0 in_hand) A' = A ∧
    List.filter (seat_ok t0 in_hand) B' = B ∧ seat_ok t0 in_hand i = true)
    as (A' & B' & Hc & HA & HB & Hi).
  { revert Ho. rw /order. generalize (clock n dealer). intros l. revert A.
    induction l as [|x l IH]; intros A; simpl; [by destruct A|].
    destruct (seat_ok t0 in_hand x) eqn:Hx.
    - destruct A as [|y A]; intros [= -> Hl]; [by exists [], l|].
      destruct (IH A Hl) as (A' & B' & -> & HA & HB & Hi). exists (y :: A'), B'.
      split_and!; [done| |done..]. simpl. by rw Hx HA.
    - intros Hl. destruct (IH A Hl) as (A' & B' & -> & HA & HB & Hi).
      exists (x :: A'), B'. split_and!; [done| |done..]. simpl. by rw Hx HA. }
  rw (clock_rotate _ _ _ _ _ Hc) !List.filter_app HA HB /= Hi Ho.
  destruct B; [|done]. simpl. by destruct A.
Qed.

(** The next card goes to the player in seat [i]. *)
Lemma deal_card_wp round served i m t (k : M Table (option nat)) Q :
  i ∉ served → seat_ok t0 in_hand i = true → holes_only t0 t →
  dealing round served m t → (m < 52)%nat → (round ≤ 1)%nat →
  (∀ t', holes_only t0 t' → dealing round (i :: served) (S m) t' → wp k Q t') →
  wp (p ← seat_ref i; card ← on_deck draw; mmodify (set_seat i (give_card round card p)) ;; k) Q t.
Proof.
  intros Hi Hin Hh [(d & Hd & Hg & Hnext & Hsub) Hpl] Hm Hround Hk. subst m. set (m := next_ d) in *.
  rw -(holes_only_seat_ok t0 t in_hand i) // in Hin.
  apply seat_ok_spec in Hin as (p & Hp & Hin).
  assert (table_ok t) as Hokt.
  { destruct Hh as (f & d' & Heq & Hf). apply (table_ok_map f t0); [done|by rw Heq..|left; by rw Heq|].
    intros q Hq. rw Hf. split_and!; [done|exact (ok_chips t0 Hok q Hq)|exact (ok_status t0 Hok q Hq)]. }
  pose proof (ok_ids t Hokt) as Hids. pose proof (ok_seats t Hokt i p Hp) as Hseat.
  assert (p ∈ players t) as Hpin by (apply elem_of_players; eauto).
  destruct Hg as (Hlen & Hv & Hnd). destruct (lookup_lt_is_Some_2 (cards_ d) m) as [c Hc]; [lia|].
  apply wp_bind. rw /seat_ref /wp Hp /=. apply wp_bind.
  assert (on_deck draw t = (Ok c, with_deck (Some (mkDeck (cards_ d) (S m))) t)) as Hdraw.
  { rw /on_deck Hd /draw /mbind /M_bind /= -/m Hc //. }
  rw /wp Hdraw. apply wp_bind, wp_modify.
  assert (set_seat i (give_card round c p) (with_deck (Some (mkDeck (cards_ d) (S m))) t) =
    with_deck (Some (mkDeck (cards_ d) (S m))) (update_player (pl_id p) (give_card round c) t)) as ->.
  { rw -(set_seat_update t i p) //. }
  apply Hk.
  { eapply holes_only_step; [exact Hh|done|]. intros q. cbv beta. destruct (pl_id q =? pl_id p); by destruct q. }
  set (t' := with_deck _ _).
  assert (players t' = (λ q, if pl_id q =? pl_id p then give_card round c q else q) <$> players t)
    as Hpl' by apply players_update.
  assert (∀ q, q ∈ players t → pl_id q ≠ pl_id p → pl_seat q ≠ i) as Hneq.
  { intros q [j Hj]%elem_of_players Hne Heq. pose proof (ok_seats t Hokt j q Hj) as Hq.
    apply Hne. congruence. }
  split.
  - exists (mkDeck (cards_ d) (S m)). split_and!; [done..|]. rw Hpl' /=.
    rw (mjoin_update _ p _ (held round served) _ c) //.
    + destruct round as [|round]; simpl; rw Hseat.
      * rw decide_True; [left|]. by rw decide_False.
      * rw /in_hand /= -/(in_hand p) Hin decide_True; [left|]. rw decide_False //.
        assert (round = 0%nat) as -> by lia. simpl. solve_Permutation.
    + intros q Hq Hne. specialize (Hneq q Hq Hne). rw /held.
      assert (pl_seat q ∈ i :: served ↔ pl_seat q ∈ served) as Hiff
        by (rw elem_of_cons; naive_solver).
      by destruct round; rw (decide_ext _ _ _ _ Hiff).
    + rw (take_S_r _ _ _ Hc) Permutation_cons_append. by apply submseteq_app.
  - rw Hpl'. intros q' (q & -> & Hq)%list_elem_of_fmap. destruct (Hpl q Hq) as [H1 H2].
    destruct (Z.eqb_spec (pl_id q) (pl_id p)) as [Hid|Hid].
    + assert (q = p) as -> by by apply (unique_ids_eq t). done.
    + split; [done|]. rw elem_of_cons. intros [[?|?]|?]; [by destruct (Hneq q Hq Hid)|..]; tauto.
Qed.

Lemma deal_round_wp round rest served m t :
  order = reverse served ++ rest → NoDup order → (round ≤ 1)%nat → (m + length rest ≤ 52)%nat →
  holes_only t0 t → dealing round served m t →
  wp (deal_round round (length rest) (head (rest ++ order)))
     (λ r t', r = head order ∧ holes_only t0 t' ∧
        dealing round (reverse order) (m + length rest) t') t.
Proof.
  revert served m t. induction rest as [|i rest IH]; intros served m t Ho Hnd Hr Hm Hh Hd; simpl.
  { apply wp_ret. rw Nat.add_0_r. split_and!; [done..|].
    rw app_nil_r in Ho. by rw Ho reverse_involutive. }
  apply wp_bind. eapply deal_card_wp; try done.
  - intros Hin. rw Ho NoDup_app in Hnd. destruct Hnd as (_ & Hnd & _). apply (Hnd i); [|left].
    by rw elem_of_reverse.
  - assert (In i order) as Hi by (rw Ho; apply in_app_iff; right; by left).
    by apply filter_In in Hi as [_ ?].
  - simpl in Hm. lia.
  - intros t' Hh' Hd'. apply wp_bind, wp_get. rw (order_next (reverse served) i rest t') //.
    simpl in Hm. rw -Nat.add_succ_comm.
    apply (IH (i :: served)); [|done|done|lia|done|done]. rw reverse_cons -app_assoc //.
Qed.
End round.

(** ** Both rounds *)

Section deal.
  Context (t0 : Table) (dealer : nat) (d : Deck).
  Hypothesis Hok : table_ok t0.
  Hypothesis Hdealer : dealer_seat_ t0 = Some dealer.
  Hypothesis Hdeck : deck_ t0 = Some d ∧ good_deck d ∧ next_ d = 0%nat.
  Hypothesis Hboard : board_ t0 = [].
  Hypothesis Hempty : ∀ p, p ∈ players t0 → pl_has_hole p = false.
Let order := List.filter (seat_ok t0 in_hand) (clock (length (seats_ t0)) dealer).

Lemma order_Permutation :
  order ≡ₚ List.filter (seat_ok t0 in_hand) (seq 0 (length (seats_ t0))).
Proof.
  rw /order. assert (∀ (ok : nat → bool) l k, l ≡ₚ k → List.filter ok l ≡ₚ List.filter ok k) as Hf.
  { intros ok l k. induction 1 as [|x l k _ IH|x y l|l k m _ IH1 _ IH2]; simpl; [done|..].
    - destruct (ok x); by rw IH.
    - destruct (ok x), (ok y); try done. constructor.
    - by rw IH1. }
  apply Hf, clock_Permutation, (ok_dealer t0 Hok dealer Hdealer).
Qed.

Lemma order_NoDup : NoDup order.
Proof. rw order_Permutation. apply NoDup_ListNoDup, List.NoDup_filter, seq_NoDup. Qed.

Lemma order_elem t p :
  holes_only t0 t → p ∈ players t → pl_seat p ∈ reverse order ↔ in_hand p = true.
Proof.
  intros Hh [i Hi]%elem_of_players. rw elem_of_reverse order_Permutation.
  rw list_elem_of_In filter_In -list_elem_of_In elem_of_seq.
  rw -(holes_only_seat_ok t0 t in_hand) //.
  assert (pl_seat p = i) as ->.
  { destruct (holes_only_seat t0 t i Hh) as (f & Hs & Hf). rw Hs in Hi.
    apply fmap_Some in Hi as (q & Hq & ->). rw Hf. exact (ok_seats t0 Hok i q Hq). }
  rw /seat_ok Hi. apply seat_at_lt in Hi. rw (holes_only_length t0 t) // in Hi.
  split; [by intros []|]. split; [lia|done].
Qed.

Lemma dealHoleCards_wp seats :
  length seats = length order → (length order ≤ 6)%nat →
  wp (dealHoleCards seats) (λ _ t', holes_only t0 t' ∧ cards_inv 12 t' ∧
    ∀ p, p ∈ players t' → pl_has_hole p = in_hand p) t0.
Proof.
  intros Hlen H6. rw /dealHoleCards. apply wp_bind, wp_get. rw Hdealer Hlen.
  assert (nextParticipatingSeat t0 dealer = head (order ++ order)) as ->.
  { rw (holes_only_next t0); [apply holes_only_refl|]. fold order. by destruct order. }
  apply wp_bind. eapply wp_mono, (deal_round_wp t0 dealer Hok 0 order []).
  2:{ done. } 2:{ apply order_NoDup. } 2:{ lia. } 2:{ fold order. instantiate (1:=0%nat). lia. }
  2:{ apply holes_only_refl. }
  2:{ split.
      - exists d. destruct Hdeck as (? & ? & ?). split_and!; [done..|].
        assert (∀ l : list Player, mjoin (held 0 [] <$> l) = []) as ->; [|apply submseteq_nil_l].
        induction l as [|p l IH]; [done|]. by rw fmap_cons /= IH.
      - intros p Hp. rw (Hempty p Hp). split; [done|].
        intros [?%not_elem_of_nil|[? _]]; done. }
  intros r t1 (-> & Hh1 & [(d1 & Hd1 & Hg1 & Hn1 & Hs1) Hp1]). fold order in Hn1, Hs1, Hp1 |- *.
  apply wp_bind. assert (head order = head (order ++ order)) as -> by by destruct order.
  eapply wp_mono, (deal_round_wp t0 dealer Hok 1 order []).
  2:{ done. } 2:{ apply order_NoDup. } 2:{ lia. }
  2:{ fold order. instantiate (1:=(0 + length order)%nat). lia. } 2:{ done. }
  2:{ split.
      - exists d1. split_and!; [done..|].
        assert (held 1 [] <$> players t1 = held 0 (reverse order) <$> players t1) as ->; [|done].
        apply list_fmap_ext. intros i p Hi%list_elem_of_lookup_2. rw /held.
        pose proof (order_elem t1 p Hh1 Hi) as Hiff.
        destruct (decide (pl_seat p ∈ reverse order)) as [Hin|Hin]; rw Hiff in Hin; [by rw Hin|].
        by apply not_true_iff_false in Hin as ->.
      - intros p Hp. destruct (Hp1 p Hp) as [? H2]. split; [done|].
        intros [?%not_elem_of_nil|[_ ?]]; [done|]. apply H2. left. by apply (order_elem t1). }
  intros r t2 (-> & Hh2 & [(d2 & Hd2 & Hg2 & Hn2 & Hs2) Hp2]). fold order in Hn2, Hs2, Hp2.
  apply wp_ret.
  assert (∀ p, p ∈ players t2 → pl_has_hole p = in_hand p) as Hhole.
  { intros p Hp. destruct (Hp2 p Hp) as [H1 H2]. destruct (in_hand p) eqn:E; [by apply H2; right|].
    by destruct (pl_has_hole p); [specialize (H1 eq_refl)|]. }
  split_and!; [done| |done]. exists d2. split_and!; [done..| |lia].
  rw /dealt. assert (board_ t2 = []) as -> by by destruct Hh2 as (f & d' & -> & _).
  rw app_nil_r Hn2.
  assert (hole_cards <$> players t2 = held 1 (reverse order) <$> players t2) as ->; [|done].
  apply list_fmap_ext. intros i p Hi%list_elem_of_lookup_2. rw /hole_cards /held (Hhole p Hi).
  destruct (in_hand p) eqn:E; [|done]. rw decide_True //. by apply (order_elem t2).
Qed.
End deal.
