(* ===== verification/TableStart.v ===== *)
(** * [Table::startHand]

    With a full deck, a start on a table between hands either reports an error
    and changes nothing, or deals the cards, posts the blinds and leaves a hand
    that waits for a player, a hand already paid, or the stalled hand. *)
From S2P Require Import Prelude Card Deck HandEvaluator Table TableLib TableInv TableBetting TablePots TableAdvance TableAct TableDeal.

(** ** Counting participants *)

Lemma participants_count ok t :
  length (List.filter (seat_ok t ok) (seq 0 (length (seats_ t)))) = count_players ok t.
Proof.
  rw /count_players /players. rw /seat_ok /seat_at.
  assert (∀ l k (f : nat → option (option Player)), (∀ i, f (k + i)%nat = l !! i) →
    length (List.filter (λ i, match mjoin (f i) with Some p => ok p | None => false end)
              (seq k (length l))) = length (List.filter ok (omap id l))) as H.
  { induction l as [|s l IH]; intros k f Hf; [done|].
    pose proof (Hf 0%nat) as H0. rw Nat.add_0_r /= in H0.
    assert (∀ i, f (S k + i)%nat = l !! i) as Hf' by (intros i; rw Nat.add_succ_comm; apply (Hf (S i))).
    specialize (IH (S k) f Hf'). csimpl. rw H0.
    destruct s as [p|]; csimpl; [|done]. destruct (ok p); csimpl; by rw IH. }
  apply (H (seats_ t) 0%nat). done.
Qed.

Lemma seats_filter_ext ok ok' t l :
  (∀ p, p ∈ players t → ok p = ok' p) →
  List.filter (seat_ok t ok) l = List.filter (seat_ok t ok') l.
Proof.
  intros H. apply filter_ext. intros i. rw /seat_ok. destruct (seat_at t i) eqn:Hi; [|done].
  apply H, elem_of_players. by exists i.
Qed.

(** ** Players at the start of a hand *)

(** A player who has at most posted a blind. *)
Record fresh (p : Player) : Prop := {
  fresh_chips : chips_ok p;
  fresh_status : pl_status p = Status_waiting ∨ pl_status p = Status_active ∨
                 pl_status p = Status_all_in;
  fresh_active : pl_status p = Status_active → 0 < pl_stack p;
  fresh_waiting : pl_status p = Status_waiting → pl_hand_commitment p = 0;
  fresh_street : pl_hand_commitment p = pl_street_commitment p;
}.

Lemma fresh_contender p : fresh p → in_hand p = is_contender p.
Proof. intros [_ Hs _ _ _]. rw /in_hand /is_contender. by destruct Hs as [-> | [-> | ->]]. Qed.

Lemma enter_fresh p : 0 ≤ pl_stack p → fresh (enter_hand p).
Proof.
  intros Hst. rw /enter_hand /ready_to_play.
  destruct (pl_ready p && (pl_stack p >? 0)) eqn:E; split; simpl; rw ?E /=; try done;
    rw /chips_ok /=; try lia; try naive_solver.
Qed.

(** What posting a blind may change. *)
Record posts (p q : Player) : Prop := {
  posts_person : same_person p q;
  posts_fresh : fresh q;
  posts_stake : stake q = stake p;
  posts_hole : pl_hole q = pl_hole p ∧ pl_has_hole q = pl_has_hole p;
  posts_in_hand : in_hand q = in_hand p;
}.

Lemma postBlind_posts blind p :
  fresh p → in_hand p = true → 0 ≤ blind → posts p (postBlind blind p).
Proof.
  intros [[H1 H2] H3 H4 H5 H6] Hin Hb. rw /postBlind /pay.
  assert (pl_status p = Status_active ∨ pl_status p = Status_all_in) as Hs.
  { destruct H3 as [H3|H3]; [by rw /in_hand H3 in Hin|done]. }
  simpl. destruct (Z.eqb_spec (pl_stack p - blind `min` pl_stack p) 0); split; simpl; try done.
  - split; simpl; try done; try lia; [split; simpl; lia|by right; right].
  - rw /stake /=. lia.
  - split; simpl; try done; try lia; [split; simpl; lia|].
    intros Hw. by destruct Hs as [Hs|Hs]; rw Hs in Hw.
  - rw /stake /=. lia.
Qed.

(** ** The blinds *)

Lemma seat_at_set_seat t i j p :
  (i < length (seats_ t))%nat →
  seat_at (set_seat i p t) j = if decide (i = j) then Some p else seat_at t j.
Proof.
  intros Hi. rw /seat_at /set_seat /= list_lookup_insert.
  destruct (decide (i = j)) as [->|]; [by rw decide_True|by rw decide_False; [naive_solver|]].
Qed.

(** Blinds were posted on [t] at the given seats. *)
Definition blinds_posted (t t' : Table) (sb bb : nat) : Prop :=
  (∃ f, t' = map_players f t ∧ ∀ p, p ∈ players t → posts p (f p)) ∧
  ∀ i, i ≠ sb → i ≠ bb → seat_at t' i = seat_at t i.

Lemma post_blind_wp t i p blind :
  unique_ids t → (∀ q, q ∈ players t → fresh q) → seat_at t i = Some p → in_hand p = true →
  0 ≤ blind →
  wp (post_blind_at i blind) (λ _ t', t' = set_seat i (postBlind blind p) t ∧
    ∃ f, t' = map_players f t ∧ ∀ q, q ∈ players t → posts q (f q)) t.
Proof.
  intros Hnd Hfresh Hi Hin Hb. apply wp_bind. rw /seat_ref /wp Hi /=. split; [done|].
  exists (λ q, if pl_id q =? pl_id p then postBlind blind q else q). split.
  { by rw (set_seat_update t i p (postBlind blind)). }
  intros q Hq. destruct (Z.eqb_spec (pl_id q) (pl_id p)) as [Hid|].
  - assert (q = p) as -> by (apply (unique_ids_eq t); [done|done|apply elem_of_players; eauto|done]).
    apply postBlind_posts; auto.
  - split; try done. by apply Hfresh.
Qed.

Lemma both_blinds_wp {A} t sb bb small big (k : M Table A) Q :
  unique_ids t → (∀ q, q ∈ players t → fresh q) →
  seat_ok t in_hand sb = true → seat_ok t in_hand bb = true → 0 ≤ small → 0 ≤ big →
  (∀ t', blinds_posted t t' sb bb → wp k Q t') →
  wp (post_blind_at sb small ;; post_blind_at bb big ;; k) Q t.
Proof.
  intros Hnd Hfresh (p & Hp & Hpin)%seat_ok_spec (q & Hq & Hqin)%seat_ok_spec H1 H2 Hk.
  apply wp_bind. eapply wp_mono, (post_blind_wp t sb p); try done.
  intros [] t1 (Ht1 & f & Hf & HF).
  assert (∀ r, r ∈ players t1 → fresh r) as Hfresh1.
  { intros r. rw Hf elem_of_players_map. intros (r0 & Hr & ->). by apply HF. }
  assert (unique_ids t1) as Hnd1.
  { rw Hf /unique_ids players_map -list_fmap_compose. rw /unique_ids in Hnd.
    erewrite list_fmap_ext; [exact Hnd|]. intros i r Hr%list_elem_of_lookup_2. by apply (HF r). }
  assert (seat_at t1 bb = Some (f q)) as Hq1 by by rw Hf seat_at_map Hq.
  assert (posts q (f q)) as Hpq by (apply HF, elem_of_players; eauto).
  apply wp_bind. eapply wp_mono, (post_blind_wp t1 bb (f q)); try done.
  2:{ by rw (posts_in_hand _ _ Hpq). }
  intros [] t2 (Ht2 & g & Hg & HG). apply Hk. split.
  - exists (g ∘ f). split; [by rw Hg Hf map_players_compose|]. intros r Hr.
    assert (f r ∈ players t1) as Hr1 by (rw Hf players_map; by apply list_elem_of_fmap_2).
    destruct (HF r Hr) as [[? ?] ? ? [? ?] ?], (HG (f r) Hr1) as [[? ?] ? ? [? ?] ?].
    split; simpl; [split|..]; try done; try congruence. split; congruence.
  - intros i Hi1 Hi2. rw Ht2 seat_at_set_seat.
    { apply seat_at_lt in Hq1. done. }
    rw decide_False; [naive_solver|]. rw Ht1 seat_at_set_seat; [by apply seat_at_lt in Hp|].
    by rw decide_False; [naive_solver|].
Qed.

(** ** Dealing and posting *)

(** [t'] is [t0] with cards dealt and blinds posted. *)
Record dealt_in (t0 t' : Table) : Prop := {
  din_frame : ∃ f d b, t' = with_bets b (minimum_raise_ t0) (with_deck d (map_players f t0)) ∧
    ∀ p, p ∈ players t0 → same_person p (f p) ∧ fresh (f p) ∧ stake (f p) = stake p ∧
      in_hand (f p) = in_hand p ∧ pl_has_hole (f p) = in_hand p;
  din_cards : cards_inv 12 t';
  din_bets : ∀ p, p ∈ players t' → pl_street_commitment p ≤ current_bet_ t';
  din_top : ∃ w, w ∈ players t' ∧ in_hand w = true ∧ pl_street_commitment w = current_bet_ t';
}.

Section start.
  Context (t0 : Table) (dealer : nat) (d : Deck) (participants : list nat).
  Hypothesis Hok : table_ok t0.
  Hypothesis Hdealer : dealer_seat_ t0 = Some dealer.
  Hypothesis Hdealer_in : seat_ok t0 in_hand dealer = true.
  Hypothesis Hdeck : deck_ t0 = Some d ∧ good_deck d ∧ next_ d = 0%nat.
  Hypothesis Hboard : board_ t0 = [].
  Hypothesis Hplayers : ∀ p, p ∈ players t0 →
    fresh p ∧ pl_has_hole p = false ∧ pl_street_commitment p = 0.
  Hypothesis Hparts :
    participants = List.filter (seat_ok t0 in_hand) (seq 0 (length (seats_ t0))).
  Hypothesis Hsix : (length (seats_ t0) ≤ 6)%nat.
  Hypothesis Hblinds : 0 ≤ small_blind (config_ t0) ∧ 0 ≤ big_blind (config_ t0).

Lemma next_in_hand t from :
  holes_only t0 t → ∃ i, nextParticipatingSeat t from = Some i ∧ seat_ok t in_hand i = true.
Proof.
  intros Hh. pose proof Hdealer_in as Hin. rw -(holes_only_seat_ok t0 t in_hand) // in Hin.
  apply seat_ok_spec in Hin as (p & Hp & Hin).
  destruct (nextParticipatingSeat_is_Some t from p) as [i Hi]; [apply elem_of_players; eauto|done|].
  exists i. split; [done|]. by apply scan_clockwise_Some in Hi as [_ ?].
Qed.

Lemma holes_only_fresh t p :
  holes_only t0 t → p ∈ players t → fresh p ∧ pl_street_commitment p = 0.
Proof.
  intros (f & d' & -> & Hf) Hp.
  change (p ∈ players (map_players f t0)) in Hp. apply elem_of_players_map in Hp as (q & Hq & ->).
  rw Hf. destruct (Hplayers q Hq) as ([] & _ & ?). by split; [split|].
Qed.

(** The two blinds and the bet they make. *)
Lemma post_and_bet_wp t sb bb small big :
  holes_only t0 t → cards_inv 12 t → (∀ p, p ∈ players t → pl_has_hole p = in_hand p) →
  seat_ok t in_hand sb = true → seat_ok t in_hand bb = true → 0 ≤ small → 0 ≤ big →
  wp (post_blind_at sb small ;; post_blind_at bb big ;;
      s ← seat_ref sb; b ← seat_ref bb;
      mmodify (λ t, with_bets (Z.max (pl_street_commitment s) (pl_street_commitment b))
                              (minimum_raise_ t) t) ;; mret bb)
     (λ r t', r = bb ∧ dealt_in t0 t') t.
Proof.
  intros Hh Hc Hhole Hsb Hbb Hs Hb.
  assert (unique_ids t) as Hids.
  { destruct Hh as (f & d' & -> & Hf). apply (unique_ids_map f t0); [|apply Hok].
    intros p. by rw Hf. }
  apply both_blinds_wp; try done.
  { intros q Hq. by apply (holes_only_fresh t). }
  intros t' [(g & Hg & HG) Hrest].
  apply seat_ok_spec in Hsb as (s & Hs1 & Hsin), Hbb as (b & Hb1 & Hbin).
  assert (seat_at t' sb = Some (g s)) as Hs2 by by rw Hg seat_at_map Hs1.
  assert (seat_at t' bb = Some (g b)) as Hb2 by by rw Hg seat_at_map Hb1.
  assert (s ∈ players t ∧ b ∈ players t) as [Hsp Hbp] by (split; apply elem_of_players; eauto).
  apply wp_bind. rw /seat_ref /wp Hs2 /=. rw /mbind /M_bind /mderef Hb2 /=.
  set (bet := Z.max _ _). split; [done|]. split.
  - destruct Hh as (f & d' & Ht & Hf). exists (g ∘ f), d', bet. split.
    { rw Hg Ht -map_players_compose. done. }
    intros p Hp. assert (f p ∈ players t) as Hfp.
    { rw Ht. change (f p ∈ players (map_players f t0)). apply elem_of_players_map. eauto. }
    destruct (HG (f p) Hfp) as [[G1 G2] G3 G4 [G5 G6] G7]. specialize (Hhole (f p) Hfp).
    assert (same_person p (f p) ∧ stake (f p) = stake p ∧ in_hand (f p) = in_hand p)
      as ([F1 F2] & F3 & F4) by (rw Hf; done).
    split_and!; [split|..]; simpl; congruence.
  - eapply cards_inv_same; [exact Hc|by rw Hg|].
    eapply (dealt_update t _ g); [by rw Hg|by rw Hg|]. intros p Hp.
    destruct (posts_hole _ _ (HG p Hp)) as [E1 E2]. by rw /hole_cards /hole_list E1 E2.
  - simpl. intros p Hp. change (p ∈ players t') in Hp.
    apply elem_of_players in Hp as [i Hi].
    destruct (decide (i = sb)) as [->|]; [assert (p = g s) as -> by congruence; lia|].
    destruct (decide (i = bb)) as [->|]; [assert (p = g b) as -> by congruence; lia|].
    rw Hrest // in Hi. destruct (holes_only_fresh t p Hh) as [_ ->];
      [apply elem_of_players; eauto|].
    destruct (fresh_chips _ (posts_fresh _ _ (HG s Hsp))). lia.
  - simpl. destruct (Z.max_spec (pl_street_commitment (g s)) (pl_street_commitment (g b)))
      as [[_ E]|[_ E]]; [exists (g b)|exists (g s)]; rw /bet E; split_and!; try done.
    + apply elem_of_players. by exists bb.
    + by rw (posts_in_hand _ _ (HG b Hbp)).
    + apply elem_of_players. by exists sb.
    + by rw (posts_in_hand _ _ (HG s Hsp)).
Qed.

Lemma deal_and_post_wp :
  wp (deal_and_post participants) (λ _ t', dealt_in t0 t') t0.
Proof.
  rw /deal_and_post. apply wp_bind.
  pose proof (order_Permutation t0 dealer Hok Hdealer) as Hperm.
  assert (length participants = length (List.filter (seat_ok t0 in_hand)
            (clock (length (seats_ t0)) dealer))) as Hlen by by rw Hparts Hperm.
  eapply wp_mono, (dealHoleCards_wp t0 dealer d); try done.
  2:{ intros p Hp. by apply Hplayers. }
  2:{ rw -Hlen Hparts. etrans; [apply filter_length_le|]. by rw length_seq. }
  intros [] t (Hh & Hc & Hhole). apply wp_bind, wp_get.
  assert (dealer_seat_ t = Some dealer) as Hd by by destruct Hh as (f & d' & -> & _).
  assert (config_ t = config_ t0) as Hcfg by by destruct Hh as (f & d' & -> & _).
  apply wp_bind, (wp_deref _ dealer); [done|]. apply wp_bind.
  set (go := λ sb : nat, seat_ok t in_hand sb = true).
  assert (∃ sb, go sb ∧ ∀ Q, Q sb t → wp (if (2 <? length participants)%nat
    then mderef (nextParticipatingSeat t dealer) else mret dealer) Q t) as (sb & Hsb & Hwp).
  { destruct (2 <? _)%nat.
    - destruct (next_in_hand t dealer Hh) as (i & Hi & ?). exists i. split; [done|].
      intros Q HQ. by eapply wp_deref.
    - exists dealer. split; [|by intros]. by rw /go (holes_only_seat_ok t0). }
  apply Hwp. destruct (next_in_hand t sb Hh) as (bb & Hbb & Hin).
  apply wp_bind. eapply wp_deref; [exact Hbb|]. rw Hcfg.
  eapply wp_mono, post_and_bet_wp; try done; [naive_solver|lia..].
Qed.
End start.

(** ** The hand that was dealt *)

Section dealt.
  Context (t0 t : Table).
  Hypothesis Hdealt : dealt_in t0 t.
  Hypothesis Hok0 : table_ok t0.
  Hypothesis Hstreet : street_ t0 = Street_preflop.
  Hypothesis Hboard : board_ t0 = [].
  Hypothesis Hawards : last_awards_ t0 = [].
  Hypothesis Hpending : pending_action_ t0 = ∅.
  Hypothesis Hraise : 0 < minimum_raise_ t0 ∧ 0 < big_blind (config_ t0).
  Hypothesis Hdealer : ∃ i, dealer_seat_ t0 = Some i ∧ seat_ok t0 in_hand i = true.

Lemma dealt_players p :
  p ∈ players t → fresh p ∧ pl_has_hole p = in_hand p ∧ ∃ q, q ∈ players t0 ∧
    same_person q p ∧ stake p = stake q ∧ in_hand p = in_hand q.
Proof.
  destruct (din_frame _ _ Hdealt) as (f & d & b & Ht & Hf). rw Ht.
  intros Hp. change (p ∈ players (map_players f t0)) in Hp.
  apply elem_of_players_map in Hp as (q & Hq & ->).
  destruct (Hf q Hq) as (H1 & H2 & H3 & H4 & H5). split_and!; [done|congruence|]. by exists q.
Qed.

Lemma dealt_hand_ok : hand_ok t.
Proof.
  pose proof (din_frame _ _ Hdealt) as (f & d & b & Ht & Hf).
  assert (seats_ t = seats_ (map_players f t0)) as Hseats by by rw Ht.
  split.
  - apply (table_ok_map f t0); [done..|by rw Ht|left; by rw Ht|]. intros p Hp.
    destruct (Hf p Hp) as (? & [? Hs _ _ _] & _). split_and!; [done..|].
    by destruct Hs as [-> | [-> | ->]].
  - rw Ht /= Hstreet. by left.
  - intros p Hp. destruct (dealt_players p Hp) as ([? ? ? Hw _] & Hh & _).
    pose proof (din_bets _ _ Hdealt p Hp).
    split; [done| |by intros Hin; rw Hh|done].
    intros Hs. split; [by apply Hw|]. by rw Hh /in_hand Hs.
  - intros id. rw Ht /= Hpending. set_solver.
  - destruct Hdealer as (i & Hi & (q & Hq & Hin)%seat_ok_spec). exists i, (f q).
    split_and!; [by rw Ht|by rw (seat_at_seats (map_players f t0)) // seat_at_map Hq|].
    destruct (Hf q) as (_ & _ & _ & -> & _); [apply elem_of_players; by exists i|done].
  - by rw Ht.
  - destruct (din_top _ _ Hdealt) as (w & Hw & _ & Hb).
    destruct (dealt_players w Hw) as ([[? ?] _ _ _ _] & _). split; [lia|]. by rw Ht.
  - split; [|by rw Ht /= Hboard Hstreet]. rw Ht /= Hstreet -Ht. apply Hdealt.
Qed.

Lemma dealt_covered : covered t.
Proof.
  exists 0. split_and!.
  - intros p Hp. destruct (dealt_players p Hp) as ([_ _ _ _ ?] & _). lia.
  - intros p Hp _. destruct (dealt_players p Hp) as ([_ _ _ _ ?] & _). lia.
  - destruct (din_top _ _ Hdealt) as (w & Hw & Hin & Hb). exists w.
    destruct (dealt_players w Hw) as (Hfr & _). split_and!; try done.
    + by rw -fresh_contender.
    + pose proof (fresh_street _ Hfr). lia.
Qed.

Lemma dealt_contenders : contenders t = count_players in_hand t0.
Proof.
  destruct (din_frame _ _ Hdealt) as (f & d & b & Ht & Hf).
  rw /contenders (count_players_seats _ (map_players f t0)); [by rw Ht|].
  rw count_players_map. apply count_players_ext. intros p Hp.
  destruct (Hf p Hp) as (_ & Hfr & _ & Hin & _). simpl. by rw -fresh_contender.
Qed.
End dealt.

Lemma hand_ok_ask t pend allow :
  hand_ok t → (∀ id, id ∈ pend → ∃ p, p ∈ players t ∧ pl_id p = id ∧ canAct p = true) →
  hand_ok (with_action_sets pend allow t).
Proof.
  intros [H1 H2 H3 H4 H5 H6 H7 H8] Hp. split; try done.
  - by apply (table_ok_same t); [|done..|left].
  - intros p Hin. by destruct (H3 p Hin).
Qed.

(** One player at most can act: the hand runs to its end, or stalls if that
    player owes chips. *)
Lemma start_automatic_wp t r :
  hand_ok t → (2 ≤ contenders t)%nat → (actionable t ≤ 1)%nat →
  acting_seat_ t = None → pending_action_ t = ∅ → street_ t = Street_preflop → covered t →
  wp (advanceUntilActionOrSettlement r) (λ _ t', moved t t' ∧
    ((stalled t' ∧ covered t') ∨ (awaiting t' ∧ covered t') ∨ paid t')) t.
Proof.
  intros Hok H2 H1 Hact Hpend Hst Hcov. rw /advanceUntilActionOrSettlement.
  destruct (bettingRoundComplete t) eqn:Hround.
  - eapply wp_mono, advance_loop_wp; try done; [|..|lia|by rw Hst].
    + intros r' t' [Hm [(? & _ & Hc)|[? _]]]; split; try done; right; [left|by right].
      split; [done|by apply Hc].
    + intros p Hp Hca _. by apply (round_complete t).
  - simpl. apply wp_bind, wp_get. destruct (Nat.leb_spec (contenders t) 1); [lia|].
    rw Hround /= Hact. apply wp_bind, wp_modify, wp_ret.
    destruct (hand_dealer t Hok) as (i & q & Hd & Hq & _). rw Hst Hd.
    assert (nextCanActSeat t i = None) as ->.
    { destruct (nextCanActSeat t i) eqn:E; [|done].
      apply nextCanActSeat_Some in E as (p & _ & _ & Hin). rw Hpend in Hin. set_solver. }
    split; [by apply moved_same; [..|apply (hand_awards t Hok)]|]. left. split; [|done].
    apply orb_false_iff in Hround as [_ Hf]. apply not_true_iff_false in Hf.
    rw forallb_forall in Hf.
    destruct (decide (Exists (λ p, canAct p = true ∧ pl_street_commitment p ≠ current_bet_ t)
      (players t))) as [Hex|Hno].
    2:{ destruct Hf. intros p Hp%list_elem_of_In. destruct (canAct p) eqn:Hca; [|done]. simpl.
        rw negb_true_iff orb_false_iff. split.
        - rw /is_pending Hpend. apply bool_decide_eq_false. set_solver.
        - rw negb_false_iff. destruct (Z.eqb_spec (pl_street_commitment p) (current_bet_ t)); [done|].
          destruct Hno. apply Exists_exists. eauto. }
    apply Exists_exists in Hex as (p & Hp & Hca & Hne).
    split_and!; [by apply (hand_ok_same t)|done..|].
    exists p. pose proof (pok_bet t p (hand_players t Hok p Hp)).
    split_and!; [done|done|simpl; lia|]. intros r0 Hr Hcr.
    change (r0 ∈ players t) in Hr. rw /actionable /count_players in H1.
    assert (p ∈ List.filter canAct (players t) ∧ r0 ∈ List.filter canAct (players t)) as [Hpf Hrf]
      by (split; by apply elem_of_filter_players).
    destruct (List.filter canAct (players t)) as [|x [|]]; simpl in H1; [by apply not_elem_of_nil in Hpf| |lia].
    apply list_elem_of_singleton in Hpf, Hrf. congruence.
Qed.

(** ** The whole call *)

(** No hand is being played. *)
Definition between_hands (t : Table) : Prop :=
  table_ok t ∧ handIsRunning (street_ t) = false.

(** The players of [t'] are those of [t]; each has the same chips but for the
    awards, and exactly the ready ones with chips are in the hand. *)
Definition opened (t t' : Table) : Prop :=
  ∃ f, players t' = f <$> players t ∧ ∀ p, p ∈ players t →
    same_person p (f p) ∧ in_hand (f p) = ready_to_play p ∧
    stake (f p) = pl_stack p + winnings (last_awards_ t') (pl_id p).

(** How [startHand] answers. *)
Definition start_answer (t t' : Table) (e : TableError) : Prop :=
  (e ≠ Error_ok ∧ t' = t) ∨
  (e = Error_ok ∧ (awaiting t' ∨ stalled t' ∨ paid t') ∧ opened t t' ∧
   (if decide (street_ t' = Street_settled) then matched t' else covered t')).

Lemma inv_between t : inv t → handIsRunning (street_ t) = false → between_hands t.
Proof.
  intros [[? _]|[[Hok _]|[[Hok _]|[? _]]]] Hr; (split; [|done]); try done; by apply Hok.
Qed.

Lemma dealt_opened t t0 t' :
  (∀ p, p ∈ players t → 0 ≤ pl_stack p) → players t0 = enter_hand <$> players t →
  dealt_in t0 t' → ∀ t'', moved t' t'' → opened t t''.
Proof.
  intros Hst Hpl Hd t'' (g & Hg & HG)%moved_players.
  destruct (din_frame _ _ Hd) as (f & d & b & Ht & Hf).
  assert (players t' = f <$> players t0) as Hpl' by by rw Ht -(players_map f t0).
  exists (g ∘ f ∘ enter_hand). split.
  { by rw Hg Hpl' Hpl -!list_fmap_compose. }
  intros p Hp. assert (enter_hand p ∈ players t0) as Hp0 by (rw Hpl; by apply list_elem_of_fmap_2).
  destruct (Hf _ Hp0) as ([F1 F2] & _ & F3 & F4 & _).
  destruct (HG (f (enter_hand p))) as ([G1 G2] & G3 & G4 & _ & _ & G5).
  simpl. split_and!.
  - split; [by rw G1 F1|by rw G2 F2].
  - rw /in_hand G4 -/(in_hand _) F4 /in_hand /enter_hand /=. by destruct (ready_to_play p).
  - rw /stake G5 G3 F1. rw /stake in F3. simpl in *. lia.
Qed.

Lemma awaiting_covered_paid (t1 t : Table) :
  moved t1 t → hand_ok t1 → covered t1 →
  (stalled t ∧ covered t) ∨ (awaiting t ∧ covered t) ∨ paid t →
  (awaiting t ∨ stalled t ∨ paid t) ∧
  (if decide (street_ t = Street_settled) then matched t else covered t).
Proof.
  intros Hm Hok Hc Hcase. split; [naive_solver|].
  destruct (decide (street_ t = Street_settled)) as [Hs|Hs].
  - by eapply moved_matched, covered_matched.
  - by destruct Hcase as [[_ ?]|[[_ ?]|[(_ & ? & _) _]]].
Qed.

(** The tail of the call, from the posted blinds on. *)
Lemma begin_play_wp t bb participants :
  hand_ok t → covered t → (2 ≤ contenders t)%nat → street_ t = Street_preflop →
  pending_action_ t = ∅ →
  (∀ p, p ∈ players t → canAct p = true → pl_seat p ∈ participants) →
  wp (begin_play bb participants) (λ _ t', moved t t' ∧
    (awaiting t' ∨ stalled t' ∨ paid t') ∧
    (if decide (street_ t' = Street_settled) then matched t' else covered t')) t.
Proof.
  intros Hok Hcov H2 Hst Hpend Hparts. pose proof (hand_base t Hok) as Hbase.
  apply wp_bind, wp_modify, wp_bind, wp_modify, wp_bind, wp_get.
  set (ids := actors_among participants t). cbv zeta.
  set (t1 := with_action_sets _ _ t).
  assert (∀ id, id ∈ ids ↔ ∃ p, p ∈ players t ∧ pl_id p = id ∧ canAct p = true) as Hids.
  { intros id. rw /ids /actors_among elem_of_list_to_set list_elem_of_fmap. split.
    - intros (p & -> & Hp). rw list_elem_of_In filter_In -list_elem_of_In in Hp.
      destruct Hp as [(i & _ & Hi)%list_elem_of_omap Hca]. exists p.
      split_and!; [apply elem_of_players; eauto|done..].
    - intros (p & Hp & <- & Hca). exists p. split; [done|].
      rw list_elem_of_In filter_In -list_elem_of_In. split; [|done].
      apply list_elem_of_omap. exists (pl_seat p). split; [by apply Hparts|].
      apply elem_of_players in Hp as [i Hi]. by rw (ok_seats t Hbase i p Hi). }
  assert (hand_ok t1) as Hok1.
  { apply hand_ok_ask; [done|]. rw Hpend. intros id [Hid|Hid]%elem_of_union; [set_solver|].
    by apply Hids. }
  assert (∃ a, setInitialActor bb (length participants) t1 = with_acting_seat a t1 ∧
    ((∃ from, a = nextCanActSeat t1 from) ∨
     ∃ i, a = Some i ∧ seat_ok t1 (λ p, canAct p && is_pending t1 p) i = true)) as (a & Ha & Hcase).
  { rw /setInitialActor. destruct (dealer_seat_ t1) as [i|]; [|by eauto].
    destruct (_ =? 2)%nat; [|by eauto]. destruct (seat_ok t1 _ i) eqn:E; [|by eauto].
    exists (Some i). eauto. }
  rw Ha. change (actionable (with_acting_seat a t1)) with (actionable t).
  destruct (Nat.leb_spec (actionable t) 1).
  - apply wp_bind, wp_modify, wp_bind. set (t2 := with_acting_seat None _).
    assert (hand_ok t2) as Hok2 by (apply (hand_ok_same t1); try done; simpl; set_solver).
    eapply wp_mono, (start_automatic_wp t2); try done.
    intros r t' [Hm Hcase']. apply wp_ret. split; [destruct Hm as (f & Hf); by exists f|].
    by apply (awaiting_covered_paid t2).
  - apply wp_ret. split; [apply moved_same; try done; apply (hand_awards t Hok)|].
    destruct (count_players_exists canAct t) as (q & Hq & Hcq); [rw /actionable in H; lia|].
    assert (pl_id q ∈ pending_action_ t1) as Hin.
    { simpl. rw Hpend. apply elem_of_union. right. apply Hids. eauto. }
    assert (called t1) as Hcalled.
    { intros p Hp Hca Hnot. destruct Hnot. simpl. apply elem_of_union. right. apply Hids. eauto. }
    assert (awaiting (with_acting_seat a t1)) as Haw.
    { destruct Hcase as [[from ->]|(i & -> & Hi)].
      - apply awaiting_with; [done..|by eexists|]. exists q. done.
      - split_and!; [by apply (hand_ok_same t1)|done|done|].
        apply seat_ok_spec in Hi as (p & Hp & [? ?%bool_decide_eq_true]%andb_true_iff).
        by exists i, p. }
    split; [by left|]. rw decide_False; [by apply awaiting_unsettled|]. done.
Qed.

Lemma validateConfig_cases t :
  (validateConfig t = Undef ∧ ¬ blinds_fit (config_ t)) ∨ ∃ e, validateConfig t = Ok e.
Proof.
  rw /validateConfig /i64 /blinds_fit. destruct (_ || _) eqn:E; [right; by eexists|].
  rw !orb_false_iff !Z.leb_gt in E. destruct E as [_ Hpos].
  destruct (Z.leb_spec i64_min (small_blind (config_ t) * 2)) as [_|Hlow]; [|rw /i64_min in Hlow; lia].
  destruct (Z.leb_spec (small_blind (config_ t) * 2) i64_max); [right; by eexists|left]. split; [done|lia].
Qed.

Lemma validateConfig_fits t : blinds_fit (config_ t) → ∃ e, validateConfig t = Ok e.
Proof. by destruct (validateConfig_cases t) as [[_ ?]|?]. Qed.

Lemma validateConfig_ok t :
  validateConfig t = Ok Error_ok →
  (2 ≤ min_players (config_ t))%nat ∧ (max_players (config_ t) ≤ 6)%nat ∧
  0 < small_blind (config_ t) ∧ 2 * small_blind (config_ t) ≤ big_blind (config_ t) ∧
  0 < min_buy_in (config_ t) ≤ max_buy_in (config_ t).
Proof.
  rw /validateConfig. case_match eqn:E; [done|]. rw /i64. destruct (_ && _); [|done]. cbn.
  case_match eqn:E'; [done|intros _].
  rw !orb_false_iff in E E'. rw !Nat.ltb_ge !Z.leb_gt in E. rw !Z.leb_gt !Z.ltb_ge in E'. lia.
Qed.

Lemma open_players deck t : players (open_hand deck t) = enter_hand <$> players t.
Proof. apply players_map. Qed.

Lemma open_table_ok deck t : table_ok t → table_ok (open_hand deck t).
Proof.
  intros Hok. apply (table_ok_map enter_hand t); [done..|by left|]. intros p Hp.
  destruct (ok_chips t Hok p Hp) as [Hs _]. destruct (enter_fresh p Hs) as [? Hst _ _ _].
  split_and!; [done|done|]. by destruct Hst as [-> | [-> | ->]].
Qed.

Lemma choose_dealer_spec participants t :
  table_ok t → (2 ≤ length participants)%nat →
  participants = List.filter (seat_ok t in_hand) (seq 0 (length (seats_ t))) →
  ∃ i, choose_dealer participants t = with_dealer_seat (Some i) t ∧ seat_ok t in_hand i = true.
Proof.
  intros Hok Hlen Hparts. destruct participants as [|i rest]; simpl in Hlen; [lia|].
  assert (seat_ok t in_hand i = true) as Hi.
  { assert (In i (i :: rest)) as Hin by by left. rw Hparts in Hin. by apply filter_In in Hin as [_ ?]. }
  rw /choose_dealer. destruct (dealer_seat_ t) as [dl|]; [|by exists i].
  destruct (nextParticipatingSeat t dl) as [j|] eqn:Hn; [|by exists i].
  exists j. split; [done|]. by apply scan_clockwise_Some in Hn as [_ ?].
Qed.

Lemma table_ok_dealer t i :
  table_ok t → (i < length (seats_ t))%nat → table_ok (with_dealer_seat (Some i) t).
Proof. intros [] Hi. split; try done. by intros j [= <-]. Qed.

Lemma startHand_wp deck t :
  between_hands t → good_deck deck → next_ deck = 0%nat → validateConfig t ≠ Undef →
  wp (startHand deck) (λ e t', start_answer t t' e) t.
Proof.
  intros [Hok Hidle] Hgood Hnext Hdef. rw /startHand. apply wp_bind, wp_get.
  destruct (validateConfig_cases t) as [[? _]|[valid Hvalid]]; [done|]. apply wp_bind. eapply wp_lift; [exact Hvalid|].
  case_bool_decide as Hcfg; simpl; [|apply wp_ret; by left].
  rw Hidle. destruct (Nat.ltb_spec (count_players ready_to_play t) (min_players (config_ t)))
    as [|Hready]; [apply wp_ret; by left|].
  subst valid. destruct (validateConfig_ok t Hvalid) as (Hmin & Hmax & Hsb & Hbb & _).
  apply wp_bind, wp_modify, wp_bind, wp_get. set (t1 := open_hand deck t).
  assert (table_ok t1) as Hok1 by by apply open_table_ok.
  assert (players t1 = enter_hand <$> players t) as Hpl1 by apply open_players.
  assert (∀ p, p ∈ players t1 → bool_decide (pl_status p = Status_active) = in_hand p) as Hact.
  { rw Hpl1. intros q (p & -> & Hp)%list_elem_of_fmap. rw /enter_hand /in_hand /=.
    by destruct (ready_to_play p). }
  assert (participatingSeats t1 = List.filter (seat_ok t1 in_hand) (seq 0 (length (seats_ t1))))
    as Hparts by by apply seats_filter_ext.
  assert (count_players in_hand t1 = count_players ready_to_play t) as Hcount.
  { rw /t1 (count_players_seats _ (map_players enter_hand t)) // count_players_map.
    apply count_players_ext. intros p _. rw /in_hand /=. by destruct (ready_to_play p). }
  assert (length (participatingSeats t1) = count_players ready_to_play t) as Hlen
    by by rw Hparts participants_count.
  rw Hlen. destruct (Nat.ltb_spec (count_players ready_to_play t) (min_players (config_ t1)))
    as [Hlt|_]; [simpl in Hlt; lia|].
  apply wp_bind, wp_modify.
  destruct (choose_dealer_spec (participatingSeats t1) t1) as (dl & -> & Hdl); [done|lia|done|].
  set (t2 := with_dealer_seat (Some dl) t1).
  assert (table_ok t2) as Hok2.
  { apply table_ok_dealer; [done|].
    apply seat_ok_spec in Hdl as (p & Hp & _). by apply seat_at_lt in Hp. }
  assert (∀ p, p ∈ players t → 0 ≤ pl_stack p) as Hstack.
  { intros p Hp. by destruct (ok_chips t Hok p Hp). }
  apply wp_bind. eapply wp_mono, (deal_and_post_wp t2 dl deck); [|done|done|done|done|done| |done| |].
  2:{ change (players t2) with (players t1). rw Hpl1. intros q (p & -> & Hp)%list_elem_of_fmap.
      split; [by apply enter_fresh, Hstack|done]. }
  2:{ simpl. rw length_fmap (ok_length t Hok). lia. }
  2:{ simpl. lia. }
  intros bb t3 Hd. apply wp_bind.
  assert (hand_ok t3) as Hok3.
  { apply (dealt_hand_ok t2); try done; [simpl; lia|by exists dl]. }
  destruct (din_frame _ _ Hd) as (f & d & b & Ht3 & _).
  eapply wp_mono, begin_play_wp; [|done|by apply (dealt_covered t2)| |by rw Ht3..|].
  - intros [] t' (Hm & Hcase & Hcov). apply wp_ret. right. split_and!; [done..| |done].
    by apply (dealt_opened t t2 t3).
  - rw (dealt_contenders t2) // . change (count_players in_hand t2) with (count_players in_hand t1).
    lia.
  - intros p Hp Hca. destruct (dealt_players t2 t3 Hd p Hp) as (_ & _ & q & Hq & [_ Hseat] & _ & Hin).
    rw Hparts list_elem_of_In. apply filter_In.
    apply canAct_in_hand in Hca as [Hca _]. change (q ∈ players t1) in Hq.
    apply elem_of_players in Hq as [i Hi]. rw Hseat (ok_seats t1 Hok1 i q Hi).
    split; [apply in_seq; apply seat_at_lt in Hi; lia|]. apply seat_ok_spec. exists q.
    split; [done|congruence].
Qed.

(** The outcomes of a start: undefined for blinds that cannot be doubled, and
    otherwise an answer. *)
Lemma startHand_cases deck t :
  between_hands t → good_deck deck → next_ deck = 0%nat →
  (validateConfig t = Undef ∧ startHand deck t = (Undef, t)) ∨
  ∃ e t', startHand deck t = (Ok e, t') ∧ start_answer t t' e.
Proof.
  intros Hbt Hg Hn. destruct (validateConfig_cases t) as [[Hu _]|[e He]].
  - left. split; [done|]. by rw /startHand /mbind /M_bind /mget /mlift Hu.
  - right. by apply wp_inv, startHand_wp; [..|rw He].
Qed.

Lemma startHand_answer deck t e t' :
  between_hands t → good_deck deck → next_ deck = 0%nat →
  startHand deck t = (Ok e, t') → start_answer t t' e.
Proof.
  intros Hbt Hg Hn Heq. destruct (startHand_cases deck t Hbt Hg Hn) as [[_ Hu]|(e' & t'' & Hs & ?)]; congruence.
Qed.
