(* ===== verification/TableChips.v ===== *)
(** * Chips

    What a hand does to the chips on the table: exact accounts of every call,
    the roll-back of [abortHand], and termination of the betting. *)
From S2P Require Import Prelude Card Deck HandEvaluator Table TableLib TableInv TableBetting TablePots TableAdvance TableAct TableDeal TableStart.

(** ** Totals *)

(** Chips of a showdown that no layer awards: the part of the commitments above
    the largest one still in the hand. *)
Definition dead_chips (t : Table) : Z :=
  if decide (street_ t = Street_settled ∧ (2 ≤ contenders t)%nat)
  then sumZ (λ p, Z.max 0 (pl_hand_commitment p - live_max t)) (players t)
  else 0.

Lemma totalChips_running t :
  street_ t ≠ Street_settled → totalChips t = sumZ stake (players t).
Proof. intros Hs. rw /totalChips. apply sumZ_ext. intros p _. by rw decide_False. Qed.

Lemma totalChips_settled t :
  street_ t = Street_settled → totalChips t + potSize t = sumZ stake (players t).
Proof.
  intros Hs. rw /totalChips /potSize -sumZ_add. apply sumZ_ext. intros p _.
  rw decide_True // /stake. lia.
Qed.

Lemma sum_winnings t :
  paid t → sumZ (λ p, winnings (last_awards_ t) (pl_id p)) (players t) + dead_chips t = potSize t.
Proof.
  intros ((Hok & Hs & _) & Hcase & _). pose proof (ok_ids t Hok) as Hids. destruct Hcase as
    [(H1 & w & Hw & Hc & Ha)|(H2 & _ & Hp)].
  - rw /dead_chips decide_False; [lia|]. rw Ha Z.add_0_r.
    rw (sumZ_ext _ (λ p, shares (λ _, potSize t) [pl_id w] 0 (pl_id p))).
    { intros p _. rw /winnings /= /award_to /= /award_share /=. case_match; lia. }
    rw sum_shares //=; [|lia]. intros id ->%list_elem_of_singleton. by apply list_elem_of_fmap_2.
  - rw /dead_chips decide_True //. rw (winnings_paid t _ _ _ Hids Hp) (pots_paid t _ Hok Hp).
    rw -sumZ_add. apply sumZ_ext. intros p _. lia.
Qed.

Lemma dead_chips_nonneg t : 0 ≤ dead_chips t.
Proof. rw /dead_chips. case_decide; [|done]. apply sumZ_nonneg. intros. lia. Qed.

Lemma dead_chips_matched t : matched t → dead_chips t = 0.
Proof.
  intros Hm. rw /dead_chips. case_decide; [|done]. rw (sumZ_ext _ (λ _, 0)).
  - intros p Hp. specialize (Hm p Hp). lia.
  - clear. induction (players t) as [|p l IH]; simpl; lia.
Qed.

Lemma stalled_unsettled t : stalled t → street_ t ≠ Street_settled.
Proof. intros (_ & Hs & _). congruence. Qed.

Lemma unsettled_awards t : awaiting t ∨ stalled t → last_awards_ t = [] ∧ dead_chips t = 0.
Proof.
  intros Hc. assert (hand_ok t ∧ street_ t ≠ Street_settled) as [Hok Hs].
  { destruct Hc as [Ha|Hst]; (split; [by destruct Ha || destruct Hst|]).
    - by apply awaiting_unsettled.
    - by apply stalled_unsettled. }
  split; [apply (hand_awards t Hok)|]. rw /dead_chips decide_False //. by intros [].
Qed.

Lemma total_after t x :
  (awaiting t ∨ stalled t ∨ paid t) →
  sumZ stake (players t) = x + sumZ (λ p, winnings (last_awards_ t) (pl_id p)) (players t) →
  totalChips t + dead_chips t = x.
Proof.
  intros Hcase Hsum. assert ((awaiting t ∨ stalled t) ∨ paid t) as [Hr|Hp] by tauto.
  - destruct (unsettled_awards t Hr) as [Hnil ->]. rw totalChips_running.
    { destruct Hr; [by apply awaiting_unsettled|by apply stalled_unsettled]. }
    rw Hnil in Hsum. rw Hsum. rw (sumZ_ext _ (λ _, 0)); [done|].
    assert (∀ l : list Player, sumZ (λ _, 0) l = 0) as ->; [|lia]. induction l; simpl; lia.
  - pose proof (sum_winnings t Hp). assert (street_ t = Street_settled) as Hs by by destruct Hp as [(_ & ? & _) _].
    pose proof (totalChips_settled t Hs). lia.
Qed.

Lemma sum_kept (f : Player → Player) (w : Z → Z) (old : Player → Z) l :
  (∀ p, p ∈ l → same_person p (f p) ∧ stake (f p) = old p + w (pl_id p)) →
  sumZ stake (f <$> l) = sumZ old l + sumZ (λ p, w (pl_id p)) (f <$> l).
Proof.
  intros H. rw !sumZ_fmap -sumZ_add. apply sumZ_ext. intros p Hp.
  destruct (H p Hp) as [[Hid _] Hs]. simpl. rw Hs Hid. done.
Qed.

(** Every call of [act] accounts for all chips. *)
Lemma act_accounts_ok cmd t r t' :
  inv t → act cmd t = (Ok r, t') →
  t' = t ∨ totalChips t' + dead_chips t' = totalChips t.
Proof.
  intros Hinv Hact. pose proof (act_ok cmd t Hinv) as Hwp. rw /wp Hact in Hwp.
  destruct Hwp as [(_ & -> & _)|(Ha & Hend & _ & (f & Hpl & Hf) & _)]; [by left|right].
  apply total_after; [naive_solver|]. rw Hpl (totalChips_running t).
  { by apply awaiting_unsettled. }
  apply sum_kept. intros p Hp. by destruct (Hf p Hp) as (? & ? & _).
Qed.

(** ** Lifting the answer of a deterministic call *)

Lemma act_inv cmd t :
  inv t → ∃ r t', act cmd t = (Ok r, t') ∧ act_answer cmd t t' r.
Proof. intros Hinv. by apply wp_inv, act_ok. Qed.

Lemma paid_inv t : paid t → inv t.
Proof. intros [? _]. do 3 right. done. Qed.

Lemma act_answer_inv cmd t t' r : inv t → act_answer cmd t t' r → inv t'.
Proof.
  intros Hinv [(_ & -> & _)|(_ & [Ha|Hp] & _)]; [done|by right; left|by apply paid_inv].
Qed.

(** ** A hand played out *)

(** [t'] is reached from [t] by accepted commands. *)
Inductive played : Table → Table → Prop :=
  | played_refl t : played t t
  | played_act t cmd r t1 t2 :
      act cmd t = (Ok r, t1) → res_error r = Error_ok → played t1 t2 → played t t2.

(** What the players own, awards reversed. *)
Definition base_stake (awards : list PotAward) (p : Player) : Z := stake p - winnings awards (pl_id p).

Lemma stakes_kept_trans t1 t2 t3 :
  stakes_kept t1 t2 → last_awards_ t2 = [] → stakes_kept t2 t3 → stakes_kept t1 t3.
Proof.
  intros (f & Hf & HF) Hnil (g & Hg & HG). exists (g ∘ f). split.
  { by rw Hg Hf -list_fmap_compose. }
  intros p Hp. destruct (HF p Hp) as ([F1 F2] & F3 & F4).
  assert (f p ∈ players t2) as Hfp by (rw Hf; by apply list_elem_of_fmap_2).
  destruct (HG _ Hfp) as ([G1 G2] & G3 & G4). rw Hnil /winnings /= in F3.
  split_and!; [split; simpl; congruence| |simpl; congruence]. simpl. rw G3 F1. lia.
Qed.

Lemma stakes_kept_refl t : last_awards_ t = [] → stakes_kept t t.
Proof.
  intros Hnil. exists id. rw list_fmap_id. split; [done|]. intros p _.
  rw Hnil /winnings /=. split_and!; [done|lia|done].
Qed.

Lemma played_stakes t t' :
  played t t' → awaiting t →
  (awaiting t' ∨ paid t') ∧ stakes_kept t t'.
Proof.
  induction 1 as [t|t cmd r t1 t2 Hact Herr Hplay IH]; intros Ha.
  { split; [by left|]. apply stakes_kept_refl. by destruct Ha as [?%hand_awards _]. }
  pose proof (act_ok cmd t (or_intror (or_introl Ha))) as Hwp. rw /wp Hact in Hwp.
  destruct Hwp as [(? & _)|(_ & Hend & _ & Hst & _)]; [done|].
  destruct Hend as [Ha1|Hp1].
  - destruct (IH Ha1) as [? Hst2]. split; [done|]. eapply stakes_kept_trans; [exact Hst| |done].
    by destruct Ha1 as [?%hand_awards _].
  - destruct Hplay as [|t1 cmd2 r2 t2 t3 Hact2 Herr2 _]; [split; [by right|done]|].
    exfalso. pose proof (act_ok cmd2 t1 (paid_inv _ Hp1)) as Hwp. rw /wp Hact2 in Hwp.
    destruct Hwp as [(? & _)|(Ha1 & _)]; [done|]. apply awaiting_unsettled in Ha1.
    by destruct Hp1 as [(_ & ? & _) _].
Qed.

(** ** Aborting *)

(** The table after [abortHand] when the awards are taken back and the
    commitments returned. *)
Lemma abortHand_players t :
  unique_ids t → street_ t ≠ Street_waiting →
  fst (abortHand t) = Error_ok ∧ street_ (snd (abortHand t)) = Street_waiting ∧
  players (snd (abortHand t)) =
    (λ p, refund_player (with_stack (pl_stack p -
       (if decide (street_ t = Street_settled) then winnings (last_awards_ t) (pl_id p) else 0)) p))
    <$> players t.
Proof.
  intros Hnd Hst. rw /abortHand decide_False //=. split_and!; [done..|].
  set (t1 := if decide (street_ t = Street_settled) then revert_awards t else t).
  match goal with |- players ?x = _ => assert (players x = players (map_players refund_player t1)) as -> by done end.
  rw players_map.
  assert (players t1 = (λ p, with_stack (pl_stack p -
       (if decide (street_ t = Street_settled) then winnings (last_awards_ t) (pl_id p) else 0)) p)
     <$> players t) as ->; [|by rw -list_fmap_compose].
  rw /t1. case_decide.
  - rw revert_awards_spec // players_credit. apply list_fmap_ext. intros i p _. by rw Z.add_opp_r.
  - rw -{1}(list_fmap_id (players t)). apply list_fmap_ext. intros i p _.
    rw Z.sub_0_r. by rw with_stack_id.
Qed.

Lemma refund_stake p : pl_stack (refund_player p) = stake p ∧ stake (refund_player p) = stake p.
Proof. rw /stake /=. lia. Qed.

Lemma opened_kept t t1 t2 :
  opened t t1 → last_awards_ t1 = [] → stakes_kept t1 t2 →
  ∃ f, players t2 = f <$> players t ∧ ∀ p, p ∈ players t →
    same_person p (f p) ∧ stake (f p) = pl_stack p + winnings (last_awards_ t2) (pl_id p).
Proof.
  intros (f & Hf & HF) Hnil (g & Hg & HG). exists (g ∘ f). split.
  { by rw Hg Hf -list_fmap_compose. }
  intros p Hp. destruct (HF p Hp) as ([F1 F2] & _ & F3).
  assert (f p ∈ players t1) as Hfp by (rw Hf; by apply list_elem_of_fmap_2).
  destruct (HG _ Hfp) as ([G1 G2] & G3 & _). rw Hnil /winnings /= in F3.
  split; [split; simpl; congruence|]. simpl. rw G3 F1. lia.
Qed.

(** A started and partly or fully played hand, whatever its state. *)
Lemma hand_kept t t1 t2 e :
  start_answer t t1 e → e = Error_ok → played t1 t2 →
  (awaiting t2 ∨ stalled t2 ∨ paid t2) ∧
  ∃ f, players t2 = f <$> players t ∧ ∀ p, p ∈ players t →
    same_person p (f p) ∧ stake (f p) = pl_stack p + winnings (last_awards_ t2) (pl_id p).
Proof.
  intros [[? _]|(_ & Hcase & Hop & _)] -> Hplay; [done|].
  assert (awaiting t1 ∨ t2 = t1) as [Ha|Hsame].
  { destruct Hcase as [?|Hcase]; [by left|right].
    destruct Hplay as [|t1 cmd r t2 t3 Hact Herr _]; [done|]. exfalso.
    assert (inv t1) as Hinv by (destruct Hcase; [by right; right; left|by apply paid_inv]).
    pose proof (act_ok cmd t1 Hinv) as Hwp. rw /wp Hact in Hwp.
    destruct Hwp as [(? & _)|(Ha & _)]; [done|]. destruct Hcase as [Hs|[(_ & Hs & _) _]].
    - destruct Ha as (_ & _ & _ & (i & p & Hi & _)), Hs as (_ & _ & _ & Hn & _). congruence.
    - by apply awaiting_unsettled in Ha. }
  - destruct (played_stakes t1 t2 Hplay Ha) as [Hend Hst]. split; [tauto|].
    eapply opened_kept; [exact Hop| |done]. by destruct Ha as [?%hand_awards _].
  - subst t2. split; [done|]. destruct Hop as (f & Hf & HF). exists f. split; [done|].
    intros p Hp. by destruct (HF p Hp) as (? & _ & ?).
Qed.

Lemma rollback_ok deck t t1 t2 e :
  between_hands t → good_deck deck → next_ deck = 0%nat →
  startHand deck t = (Ok e, t1) → e = Error_ok → played t1 t2 →
  fst (abortHand t2) = Error_ok ∧
  ∃ f, players (snd (abortHand t2)) = f <$> players t ∧ ∀ p, p ∈ players t →
    same_person p (f p) ∧ pl_stack (f p) = pl_stack p ∧ pl_hand_commitment (f p) = 0 ∧
    pl_status (f p) = Status_waiting.
Proof.
  intros Hbt Hg Hn Hstart -> Hplay. pose proof (startHand_answer deck t _ _ Hbt Hg Hn Hstart) as Hwp.
  destruct (hand_kept _ _ _ _ Hwp eq_refl Hplay) as (Hcase & f & Hf & HF).
  assert (unique_ids t2 ∧ street_ t2 ≠ Street_waiting ∧
    (street_ t2 ≠ Street_settled → last_awards_ t2 = [])) as (Hids & Hst & Haw).
  { destruct Hcase as [[Hok _]|[[Hok _]|[(Hok & Hs & _) _]]].
    1,2: split_and!; [apply ok_ids, (hand_base t2 Hok)| |intros _; apply (hand_awards t2 Hok)];
      destruct (hand_street t2 Hok) as [-> | [-> | [-> | ->]]]; done.
    split_and!; [apply ok_ids, Hok|by rw Hs|done]. }
  destruct (abortHand_players t2 Hids Hst) as (-> & _ & ->). split; [done|].
  rw Hf -list_fmap_compose. eexists. split; [done|]. intros p Hp.
  destruct (HF p Hp) as [[F1 F2] F3]. simpl. split_and!; [by split|..|done|done].
  rw /stake in F3. destruct (decide (street_ t2 = Street_settled)) as [Hs|Hs]; [rw F1; lia|].
  rw (Haw Hs) /winnings /= in F3. lia.
Qed.

(** ** The betting terminates *)

Lemma hand_lt_wf t : (∀ p, p ∈ players t → 0 ≤ pl_stack p) →
  Acc (λ t' t, hand_lt t' t ∧ ∀ p, p ∈ players t' → 0 ≤ pl_stack p) t.
Proof.
  assert (∀ (s c k : nat) t, (∀ p, p ∈ players t → 0 ≤ pl_stack p) →
    streets_left (street_ t) = s → chips_behind t = Z.of_nat c → size (pending_action_ t) = k →
    Acc (λ t' t, hand_lt t' t ∧ ∀ p, p ∈ players t' → 0 ≤ pl_stack p) t) as H.
  { induction s as [s IHs] using lt_wf_ind. induction c as [c IHc] using lt_wf_ind.
    induction k as [k IHk] using lt_wf_ind. intros t0 _ Hs Hc Hk. constructor.
    intros t' [Hlt Hnn]. assert (0 ≤ chips_behind t') as Hcb by by apply sumZ_nonneg.
    assert (chips_behind t' = Z.of_nat (Z.to_nat (chips_behind t'))) as Hcb' by lia.
    destruct Hlt as [?|[? [?|[? ?]]]].
    - eapply IHs; [|done|done|exact Hcb'|done]. lia.
    - eapply IHc; [|done|congruence|exact Hcb'|done]. lia.
    - eapply IHk; [|done|congruence|congruence|done]. lia. }
  intros Hnn. assert (0 ≤ chips_behind t) by by apply sumZ_nonneg.
  eapply (H _ (Z.to_nat (chips_behind t))); [done|done|lia|done].
Qed.

(** One accepted command. *)
Definition accepted (t t' : Table) : Prop :=
  ∃ cmd r, act cmd t = (Ok r, t') ∧ res_error r = Error_ok.

Lemma accepted_terminates t : inv t → Acc (λ t' t, accepted t t') t.
Proof.
  intros Hinv. assert (∀ p, p ∈ players t → 0 ≤ pl_stack p) as Hnn.
  { assert (table_ok t) as Hok.
    { destruct Hinv as [[? _]|[[Hok _]|[[Hok _]|[? _]]]]; try done; by apply hand_base. }
    intros p Hp. by destruct (ok_chips t Hok p Hp). }
  pose proof (hand_lt_wf t Hnn) as Hacc. clear Hnn. revert Hinv.
  induction Hacc as [t _ IH]. intros Hinv. constructor. intros t' (cmd & r & Hact & Herr).
  pose proof (act_ok cmd t Hinv) as Hwp. rw /wp Hact in Hwp.
  destruct Hwp as [(? & _)|(Ha & Hend & _ & _ & _ & Hlt)]; [done|].
  destruct Hend as [Ha'|Hp].
  - apply IH; [|by right; left]. split; [by apply Hlt|]. intros p Hp.
    destruct Ha' as [Hok _]. by destruct (ok_chips t' (hand_base t' Hok) p Hp).
  - constructor. intros t'' (cmd' & r' & Hact' & Herr').
    pose proof (act_ok cmd' t' (paid_inv _ Hp)) as Hwp'. rw /wp Hact' in Hwp'.
    destruct Hwp' as [(? & _)|(Ha' & _)]; [done|]. apply awaiting_unsettled in Ha'.
    by destruct Hp as [(_ & ? & _) _].
Qed.

(** A waiting hand can always go on: the acting player may fold. *)
Lemma awaiting_progress t : awaiting t → ∃ t', accepted t t' ∧ (awaiting t' ∨ paid t').
Proof.
  intros Ha. pose proof Ha as (Hok & Hcalled & H2 & (i & p & Hi & Hp & Hca & Hin)).
  set (cmd := mkCommand (pl_id p) Action_fold 0).
  destruct (act_inv cmd t (or_intror (or_introl Ha))) as (r & t' & Hact & Hans).
  exists t'. assert (res_error r = Error_ok) as Herr.
  { destruct Hans as [(_ & -> & _)|(_ & _ & [Hr _ _ _] & _)]; [|done].
    revert Hact. rw /act Hi. pose proof Hp as Hp'%seat_at_lookup. rw Hp'.
    assert (negb (handIsRunning (street_ t)) || bool_decide (street_ t = Street_showdown) = false)
      as -> by by destruct (hand_street t Hok) as [-> | [-> | [-> | ->]]].
    rw /= Z.eqb_refl Hca /is_pending (bool_decide_eq_true_2 _ Hin) /=.
    assert (p ∈ players t) as Hpin by (apply elem_of_players; eauto).
    pose proof (act_switch_applied t i p Hok Hcalled Hp Hca cmd _ eq_refl) as Happ.
    destruct (applied_ok t p _ _ Hok Hpin Hca Happ) as (Hok1 & Hcalled1 & _ & Hcon).
    pose proof (act_finish_wp _ (street_ t) (pl_seat p) Hok1 Hcalled1) as Hfin.
    apply wp_inv in Hfin as (r' & t1 & Heq & _ & _ & Hrep & _); [|simpl in Hcon; lia].
    simpl in Heq. rw Heq. intros [= -> _]. apply Hrep. }
  split; [by exists cmd, r|]. destruct Hans as [(? & _)|(_ & ? & _)]; [done|done].
Qed.

Lemma hand_finishes t : awaiting t → ∃ t', played t t' ∧ paid t'.
Proof.
  intros Ha. pose proof (accepted_terminates t (or_intror (or_introl Ha))) as Hacc.
  revert Ha. induction Hacc as [t _ IH]. intros Ha.
  destruct (awaiting_progress t Ha) as (t' & Hacc' & Hend).
  pose proof Hacc' as (cmd & r & Hact & Herr).
  destruct Hend as [Ha'|Hp].
  - destruct (IH t' Hacc' Ha') as (t'' & Hplay & Hpaid). exists t''. split; [|done].
    by eapply played_act.
  - exists t'. split; [|done]. by eapply played_act, played_refl.
Qed.
