(* ===== verification/TableLife.v ===== *)
(** * The life of a table

    Seating, leaving, flags and aborts keep the table invariant; so every table
    reached from an empty one satisfies it, whatever was called: with full decks,
    and unless a settled hand is aborted after a winner sat down again. No operation,
    whatever its outcome, changes the configuration the table was made with. *)
From S2P Require Import Prelude Card Deck HandEvaluator Table TableLib TableInv TableBetting TablePots TableAdvance TableAct TableDeal TableStart TableChips.

(** ** Flags *)

(** A change of the ready and connected flags. *)
Definition flags_only (f : Player → Player) : Prop :=
  ∀ p, f p = with_connected (pl_connected (f p)) (with_ready (pl_ready (f p)) p).

Section flags.
  Context (t t' : Table) (f : Player → Player).
  Hypothesis Hf : flags_only f.
  Hypothesis Ht : t' = bump_sequence (map_players f t).

Lemma flags_players : players t' = f <$> players t.
Proof. rw Ht. apply players_map. Qed.

Lemma flags_count ok : (∀ p, ok (f p) = ok p) → count_players ok t' = count_players ok t.
Proof.
  intros Hok. rw Ht (count_players_seats ok (map_players f t)) // count_players_map.
  apply count_players_ext. intros p _. apply Hok.
Qed.

Lemma flags_table_ok : table_ok t → table_ok t'.
Proof.
  intros Hok. apply (table_ok_map f t); [done|by rw Ht..|left; by rw Ht|]. intros p Hp.
  rw Hf. split_and!; [done|exact (ok_chips t Hok p Hp)|exact (ok_status t Hok p Hp)].
Qed.

Lemma flags_seat_at i : seat_at t' i = f <$> seat_at t i.
Proof. rw Ht (seat_at_seats (map_players f t)) //. apply seat_at_map. Qed.

Lemma flags_hand_ok : hand_ok t → hand_ok t'.
Proof.
  intros [H1 H2 H3 H4 (i & p & H5 & H6 & H7) H8 H9 H10]. split.
  - by apply flags_table_ok.
  - by rw Ht.
  - rw flags_players. intros q (p' & -> & Hp)%list_elem_of_fmap.
    destruct (H3 p' Hp). rw Hf Ht. by split.
  - rw flags_players Ht /=. intros id Hid. destruct (H4 id Hid) as (q & Hq & Hid' & Hca).
    exists (f q). split; [by apply list_elem_of_fmap_2|]. by rw Hf.
  - exists i, (f p). split_and!; [by rw Ht|by rw flags_seat_at H6|by rw Hf].
  - by rw Ht.
  - by rw Ht.
  - apply (cards_ok_same t); [done|by rw Ht..|].
    apply (dealt_update t _ f); [by rw Ht|by rw Ht|]. intros q _. by rw Hf.
Qed.

Lemma flags_inv : inv t → inv t'.
Proof.
  assert (contenders t' = contenders t) as Hcon.
  { apply flags_count. intros p. by rw Hf. }
  intros [(Hok & Hs & Ha & Hw & Hall)|[(Hok & Hc & H2 & (i & p & Hi & Hp & Hca & Hin))|
    [(Hok & Hs & H2 & Ha & Hpend & (p & Hp & Hca & Hlt & Huniq))|(Hok & Hs & Ha & Hpend & Hb)]]].
  - left. split_and!; [by apply flags_table_ok|by rw Ht..|].
    rw flags_players. intros q (p & -> & Hp)%list_elem_of_fmap. rw Hf. by apply (Hall p).
  - right; left. split_and!; [by apply flags_hand_ok| |by rw Hcon|].
    + intros q. rw flags_players Ht /=. intros (r & -> & Hr)%list_elem_of_fmap. rw Hf.
      by apply (Hc r).
    + exists i, (f p). split_and!; [by rw Ht|by rw flags_seat_at Hp|by rw Hf|by rw Hf Ht].
  - do 2 right; left. split_and!; [by apply flags_hand_ok|by rw Ht|by rw Hcon|by rw Ht..|].
    exists (f p). rw flags_players. split_and!; [by apply list_elem_of_fmap_2|by rw Hf|rw Hf Ht; done|].
    intros q (r & -> & Hr)%list_elem_of_fmap Hcr. f_equal. apply Huniq; [done|]. by rw Hf in Hcr.
  - do 3 right. split_and!; [by apply flags_table_ok|by rw Ht..].
Qed.
End flags.

Lemma set_flag_inv t i p g :
  (∀ q, g q = with_connected (pl_connected (g q)) (with_ready (pl_ready (g q)) q)) →
  inv t → unique_ids t → seat_at t i = Some p → inv (bump_sequence (set_seat i (g p) t)).
Proof.
  intros Hg Hinv Hnd Hi. rw set_seat_update //.
  eapply flags_inv; [|done|exact Hinv]. intros q. cbv beta.
  destruct (pl_id q =? pl_id p); [apply Hg|by destruct q].
Qed.

Lemma inv_table_ok t : inv t → table_ok t.
Proof.
  intros [[? _]|[[Hok _]|[[Hok _]|[? _]]]]; try done; by apply hand_base.
Qed.

Lemma setReady_inv id b t : inv t → inv (snd (setReady id b t)).
Proof.
  intros Hinv. pose proof (ok_ids t (inv_table_ok t Hinv)) as Hnd. rw /setReady.
  case_match; [done|]. destruct (findPlayer t id) as [[i p]|] eqn:Hf; [|done].
  case_match; [done|]. apply findPlayer_Some in Hf as [Hi _].
  by apply (set_flag_inv t i p (with_ready b)).
Qed.

Lemma setConnected_inv id b t : inv t → inv (snd (setConnected id b t)).
Proof.
  intros Hinv. pose proof (ok_ids t (inv_table_ok t Hinv)) as Hnd. rw /setConnected.
  destruct (findPlayer t id) as [[i p]|] eqn:Hf; [|done]. apply findPlayer_Some in Hf as [Hi _].
  by apply (set_flag_inv t i p (with_connected b)).
Qed.

(** ** Seats that fill and empty *)

Lemma players_insert_Permutation t i p :
  seats_ t !! i = Some None → players (set_seat i p t) ≡ₚ p :: players t.
Proof.
  rw /players /set_seat /=. revert i. induction (seats_ t) as [|s l IH]; intros [|i] Hi; simplify_eq/=.
  - done.
  - destruct s as [q|]; simpl; rw (IH i) //. solve_Permutation.
Qed.

Lemma players_clear_Permutation t i p :
  seats_ t !! i = Some (Some p) →
  players t ≡ₚ p :: players (with_seats (<[i := None]> (seats_ t)) t).
Proof.
  rw /players /=. revert i. induction (seats_ t) as [|s l IH]; intros [|i] Hi; simplify_eq/=.
  - done.
  - destruct s as [q|]; simpl; rw (IH i) //. solve_Permutation.
Qed.

Lemma seat_at_clear t i j :
  seat_at (with_seats (<[i := None]> (seats_ t)) t) j = if decide (i = j) then None else seat_at t j.
Proof.
  rw /seat_at /= list_lookup_insert. destruct (decide (i = j)) as [->|Hne].
  - case_decide as Hd; [done|]. rw lookup_ge_None_2 //. lia.
  - by rw decide_False; [naive_solver|].
Qed.

(** What a successful call of [seatPlayer] requires. *)
Record may_seat (t : Table) (id : Z) (seat : nat) (buy_in : Z) : Prop := {
  seat_config : validateConfig t = Ok Error_ok;
  seat_idle : handIsRunning (street_ t) = false;
  seat_range : (seat < max_players (config_ t))%nat;
  seat_new : ∀ p, p ∈ players t → pl_id p ≠ id;
  seat_free : seat_at t seat = None;
  seat_buy_in : min_buy_in (config_ t) ≤ buy_in ≤ max_buy_in (config_ t);
}.

Lemma seatPlayer_spec id seat buy_in t :
  table_ok t →
  (validateConfig t = Undef ∧ seatPlayer id seat buy_in t = (Undef, t)) ∨
  ∃ e, seatPlayer id seat buy_in t =
      (Ok e, if decide (e = Error_ok) then bump_sequence (set_seat seat (Player_new id seat buy_in) t) else t) ∧
    (may_seat t id seat buy_in ↔ e = Error_ok).
Proof.
  intros Hok. rw /seatPlayer /mbind /M_bind /mget /mlift.
  destruct (validateConfig_cases t) as [[Hu _]|[valid Hvalid]]; [left; by rw Hu|right].
  assert (∀ e, e ≠ Error_ok → ¬ may_seat t id seat buy_in → ∃ e', (Ok e, t) =
    (Ok e', if decide (e' = Error_ok) then bump_sequence (set_seat seat (Player_new id seat buy_in) t) else t) ∧
    (may_seat t id seat buy_in ↔ e' = Error_ok)) as Hrefuse.
  { intros e He Hno. exists e. by rw decide_False. }
  rw Hvalid. case_bool_decide as Hcfg; cbn [negb]; last first.
  { apply Hrefuse; [done|]. intros []. congruence. }
  subst valid. destruct (handIsRunning (street_ t)) eqn:Hrun.
  { apply Hrefuse; [done|]. intros []. congruence. }
  rw (ok_length t Hok). destruct (Nat.leb_spec (max_players (config_ t)) seat) as [Hle|Hlt].
  { apply Hrefuse; [done|]. intros []. lia. }
  destruct (findPlayer t id) as [[i p]|] eqn:Hf.
  { apply findPlayer_Some in Hf as [Hi Hid]. apply Hrefuse; [done|].
    intros [_ _ _ Hnew _ _]. destruct (Hnew p); [apply elem_of_players; eauto|done]. }
  destruct (seat_at t seat) eqn:Hs; [apply Hrefuse; [done|]; intros []; congruence|].
  destruct ((buy_in <? min_buy_in (config_ t)) || (buy_in >? max_buy_in (config_ t))) eqn:Hb.
  { apply Hrefuse; [done|]. intros []. lia. }
  exists Error_ok. split; [done|]. split; [done|]. intros _. rw findPlayer_None in Hf.
  split; try done. lia.
Qed.

Lemma seat_table_ok t id seat buy_in :
  table_ok t → may_seat t id seat buy_in →
  table_ok (bump_sequence (set_seat seat (Player_new id seat buy_in) t)).
Proof.
  intros Hok [Hcfg _ Hr Hnew Hfree Hbuy]. destruct (validateConfig_ok t Hcfg) as (_ & _ & _ & _ & Hmin).
  assert (seat < length (seats_ t))%nat as Hlt by by rw (ok_length t Hok).
  assert (seats_ t !! seat = Some None) as Hs.
  { destruct (lookup_lt_is_Some_2 _ _ Hlt) as [[p|] Hs]; [|done].
    rw /seat_at Hs in Hfree. done. }
  pose proof (players_insert_Permutation t seat (Player_new id seat buy_in) Hs) as Hp.
  set (t' := bump_sequence _). change (players (set_seat seat (Player_new id seat buy_in) t)) with (players t') in Hp.
  split.
  - rw /= length_insert. apply (ok_length t Hok).
  - intros i p Hi. change (seat_at (set_seat seat (Player_new id seat buy_in) t) i = Some p) in Hi.
    rw seat_at_set_seat // in Hi. destruct (decide (seat = i)) as [->|]; [by simplify_eq|].
    by apply (ok_seats t Hok).
  - rw /unique_ids Hp fmap_cons NoDup_cons. split; [|apply Hok].
    intros (p & Heq & Hin)%list_elem_of_fmap. by destruct (Hnew p Hin).
  - intros p. rw Hp elem_of_cons. intros [->|Hin]; [split; simpl; lia|by apply (ok_chips t Hok)].
  - intros p. rw Hp elem_of_cons. intros [->|Hin]; [done|by apply (ok_status t Hok)].
  - intros i Hi. rw /= length_insert. by apply (ok_dealer t Hok).
Qed.

Lemma seatPlayer_inv id seat buy_in t : inv t → inv (snd (seatPlayer id seat buy_in t)).
Proof.
  intros Hinv. pose proof (inv_table_ok t Hinv) as Hok.
  destruct (seatPlayer_spec id seat buy_in t Hok) as [[_ ->]|(e & -> & Hiff)]; [done|].
  cbn [snd]. case_decide as He; [|done]. apply Hiff in He as Hmay. pose proof (seat_table_ok t id seat buy_in Hok Hmay) as Hok'.
  assert (handIsRunning (street_ t) = false) as Hrun by apply Hmay.
  destruct Hinv as [(_ & Hs & Ha & Hw & Hall)|[[Hh _]|[[Hh _]|(_ & Hs)]]].
  - left. split_and!; try done. intros p Hp.
    assert (seats_ t !! seat = Some None) as Hnone.
    { destruct (lookup_lt_is_Some_2 (seats_ t) seat) as [[p'|] Hl]; [|..|done].
      - rw (ok_length t Hok). apply Hmay.
      - pose proof (seat_free _ _ _ _ Hmay) as Hf. by rw /seat_at Hl in Hf. }
    change (p ∈ players (set_seat seat (Player_new id seat buy_in) t)) in Hp.
    rw players_insert_Permutation // elem_of_cons in Hp.
    destruct Hp as [->|Hp]; [done|by apply Hall].
  - by destruct (hand_street t Hh) as [Hs|[Hs|[Hs|Hs]]]; rw Hs in Hrun.
  - by destruct (hand_street t Hh) as [Hs|[Hs|[Hs|Hs]]]; rw Hs in Hrun.
  - do 3 right. by split.
Qed.

(** ** Leaving *)

(** [p] has left seat [i] and everything else is as before, the button apart. *)
Section leave.
  Context (t t' : Table) (i : nat) (p : Player).
  Hypothesis Hok : table_ok t.
  Hypothesis Hi : seat_at t i = Some p.
  Hypothesis Hseats : seats_ t' = <[i := None]> (seats_ t).
  Hypothesis Hconfig : config_ t' = config_ t.
  Hypothesis Hdealer : dealer_seat_ t' = dealer_seat_ t ∨ dealer_seat_ t' = None.

Lemma leave_players : players t ≡ₚ p :: players t'.
Proof.
  pose proof Hi as Hl%seat_at_lookup. rw (players_clear_Permutation t i p Hl).
  rw /players Hseats //.
Qed.

Lemma leave_seat_at j : seat_at t' j = if decide (i = j) then None else seat_at t j.
Proof. rw -seat_at_clear. apply seat_at_seats. by rw Hseats. Qed.

Lemma leave_elem q : q ∈ players t' → q ∈ players t ∧ pl_id q ≠ pl_id p.
Proof.
  intros Hq. split; [rw leave_players; by right|]. intros Heq.
  pose proof (ok_ids t Hok) as Hnd. rw /unique_ids leave_players fmap_cons NoDup_cons in Hnd.
  destruct Hnd as [[] _]. rw -Heq. by apply list_elem_of_fmap_2.
Qed.

Lemma leave_keeps q : q ∈ players t → q ≠ p → q ∈ players t'.
Proof. rw leave_players elem_of_cons. naive_solver. Qed.

Lemma leave_table_ok : table_ok t'.
Proof.
  split.
  - rw Hseats length_insert Hconfig. apply (ok_length t Hok).
  - intros j q. rw leave_seat_at. case_decide; [done|]. apply (ok_seats t Hok).
  - pose proof (ok_ids t Hok) as Hnd. rw /unique_ids leave_players fmap_cons NoDup_cons in Hnd.
    by destruct Hnd.
  - intros q [Hq _]%leave_elem. by apply (ok_chips t Hok).
  - intros q [Hq _]%leave_elem. by apply (ok_status t Hok).
  - intros j Hj. rw Hseats length_insert. destruct Hdealer; [apply (ok_dealer t Hok)|]; congruence.
Qed.

Lemma leave_contenders : is_contender p = false → contenders t' = contenders t.
Proof.
  intros Hc. rw /contenders /count_players.
  assert (∀ l k : list Player, l ≡ₚ k →
    length (List.filter is_contender l) = length (List.filter is_contender k)) as Hlen.
  { induction 1; simpl; repeat case_match; simpl; lia. }
  rw (Hlen _ _ leave_players) /= Hc. done.
Qed.

Lemma leave_dealt n : cards_inv n t → board_ t' = board_ t → deck_ t' = deck_ t → cards_inv n t'.
Proof.
  intros (d & Hd & Hg & Hsub & Hn) Hb Hdk. exists d. rw Hdk. split_and!; [done..| |done].
  etrans; [|exact Hsub]. rw /dealt Hb. apply submseteq_skips_r.
  rw leave_players fmap_cons /=. by apply submseteq_inserts_l.
Qed.

(** What the departure of a player who waits leaves to the players of a hand. *)
Lemma waiting_not_in_hand q : pl_status p = Status_waiting → canAct q = true ∨ in_hand q = true → q ≠ p.
Proof. intros Hw Hq ->. rw /canAct /in_hand Hw in Hq. by destruct Hq. Qed.

Lemma leave_hand_ok : hand_ok t → pl_status p = Status_waiting →
  board_ t' = board_ t → deck_ t' = deck_ t → street_ t' = street_ t → current_bet_ t' = current_bet_ t →
  minimum_raise_ t' = minimum_raise_ t → pending_action_ t' = pending_action_ t →
  last_awards_ t' = last_awards_ t →
  dealer_seat_ t' = (if decide (dealer_seat_ t = Some i) then None else dealer_seat_ t) → hand_ok t'.
Proof.
  intros Hh Hw E2 E3 E4 E6 E7 E8 E9 Ed. split.
  - exact leave_table_ok.
  - rw E4. apply (hand_street t Hh).
  - intros q [Hq _]%leave_elem. destruct (hand_players t Hh q Hq). split; try done. by rw E6.
  - rw E8. intros id' Hid. destruct (hand_pending t Hh id' Hid) as (q & Hq & ? & ?).
    exists q. split_and!; [apply leave_keeps; [done|apply waiting_not_in_hand; [done|by left]]|done..].
  - destruct (hand_dealer t Hh) as (j & q & Hj & Hq & Hin). exists j, q.
    assert (i ≠ j) as Hij.
    { intros ->. assert (q = p) as -> by congruence. by apply (waiting_not_in_hand p Hw); [right|]. }
    rw Ed leave_seat_at decide_False; [congruence|]. by rw decide_False.
  - rw E9. apply (hand_awards t Hh).
  - rw Hconfig E6 E7. apply (hand_bets t Hh).
  - destruct (hand_cards t Hh) as [Hc Hl]. split; [|by rw E2 E4].
    rw E4. by apply leave_dealt.
Qed.
End leave.

Lemma removePlayer_inv id t : inv t → inv (snd (removePlayer id t)).
Proof.
  intros Hinv. pose proof (inv_table_ok t Hinv) as Hok. rw /removePlayer.
  destruct (findPlayer t id) as [[i p]|] eqn:Hf; [|done]. apply findPlayer_Some in Hf as [Hi _].
  destruct (handIsRunning (street_ t) && negb (bool_decide (pl_status p = Status_waiting))) eqn:Hw;
    [done|]. cbv zeta. simpl snd. set (t0 := with_seats _ t). set (t' := bump_sequence _).
  assert (seats_ t' = <[i := None]> (seats_ t)) as Hseats
    by (rw /t'; destruct (decide (dealer_seat_ t = Some i)); reflexivity).
  assert (config_ t' = config_ t ∧ board_ t' = board_ t ∧ deck_ t' = deck_ t ∧
    street_ t' = street_ t ∧ acting_seat_ t' = acting_seat_ t ∧ current_bet_ t' = current_bet_ t ∧
    minimum_raise_ t' = minimum_raise_ t ∧ pending_action_ t' = pending_action_ t ∧
    last_awards_ t' = last_awards_ t) as (E1 & E2 & E3 & E4 & E5 & E6 & E7 & E8 & E9)
    by (rw /t'; destruct (decide (dealer_seat_ t = Some i)); split_and!; reflexivity).
  assert (dealer_seat_ t' = if decide (dealer_seat_ t = Some i) then None else dealer_seat_ t) as Ed
    by (rw /t' /=; destruct (decide (dealer_seat_ t = Some i)); reflexivity).
  assert (dealer_seat_ t' = dealer_seat_ t ∨ dealer_seat_ t' = None) as Ed'
    by (rw Ed; destruct (decide (dealer_seat_ t = Some i)); auto).
  pose proof (leave_elem t t' i p Hok Hi Hseats) as Hsub.
  pose proof (leave_keeps t t' i p Hi Hseats) as Hkeep.
  pose proof (leave_table_ok t t' i p Hok Hi Hseats E1 Ed') as Hok'.
  assert (hand_ok t → hand_ok t' ∧ contenders t' = contenders t ∧ ∀ q, canAct q = true ∨ in_hand q = true → q ≠ p) as Hhand.
  { intros Hh. assert (pl_status p = Status_waiting) as Hpw.
    { destruct (hand_street t Hh) as [Hs|[Hs|[Hs|Hs]]]; rw Hs /= in Hw;
        destruct (decide (pl_status p = Status_waiting)) as [|Hne]; try done;
        by rw bool_decide_eq_false_2 in Hw. }
    split_and!; [by apply (leave_hand_ok t t' i p)| |intros q; by apply waiting_not_in_hand].
    apply (leave_contenders t t' i p Hi Hseats). by rw /is_contender Hpw. }
  destruct Hinv as [(_ & Hs & Ha & Hlw & Hall)|[(Hh & Hc & H2 & (j & q & Hj & Hq & Hca & Hin))|
    [(Hh & Hs & H2 & Ha & Hpend & (q & Hq & Hca & Hlt & Huniq))|(_ & Hs & Ha & Hpend & Hb)]]].
  - left. split_and!; [done|congruence..|]. intros q [Hq _]%Hsub. by apply Hall.
  - destruct (Hhand Hh) as (Hh' & Hcon & Hne). right; left. split_and!; [done| |by rw Hcon|].
    + intros r [Hr _]%Hsub. rw E6 E8. by apply Hc.
    + exists j, q. assert (i ≠ j) as Hij.
      { intros ->. assert (q = p) as -> by congruence. by apply (Hne p); [left|]. }
      rw E5 E8 (leave_seat_at t t' i Hseats) decide_False //.
  - destruct (Hhand Hh) as (Hh' & Hcon & Hne). do 2 right; left.
    split_and!; [done|congruence|by rw Hcon|congruence..|]. exists q.
    split_and!; [apply Hkeep; [done|apply Hne; by left]|done|by rw E6|].
    intros r [Hr _]%Hsub. by apply Huniq.
  - do 3 right. split_and!; [done|congruence..].
Qed.

(** ** Aborting *)

(** The awards on record can be taken back from those who hold them. *)
Definition refundable (t : Table) : Prop :=
  street_ t = Street_settled →
  ∀ p, p ∈ players t → winnings (last_awards_ t) (pl_id p) ≤ stake p.

Lemma abortHand_inv t : inv t → refundable t → inv (snd (abortHand t)).
Proof.
  intros Hinv Href. pose proof (inv_table_ok t Hinv) as Hok.
  destruct (decide (street_ t = Street_waiting)) as [Hw|Hw].
  { rw /abortHand decide_True //. }
  destruct (abortHand_players t (ok_ids t Hok) Hw) as (_ & Hs & Hpl).
  set (t' := snd (abortHand t)) in *.
  set (back := λ p, with_stack (pl_stack p -
       (if decide (street_ t = Street_settled) then winnings (last_awards_ t) (pl_id p) else 0)) p).
  assert (seats_ t' = seats_ (map_players (refund_player ∘ back) t) ∧ config_ t' = config_ t ∧
    dealer_seat_ t' = dealer_seat_ t ∧ acting_seat_ t' = None ∧ last_awards_ t' = [])
    as (E1 & E2 & E3 & E4 & E5).
  { rw /t' /abortHand decide_False //.
    assert ((if decide (street_ t = Street_settled) then revert_awards t else t) = map_players back t)
      as ->; [|rw -map_players_compose; done].
    case_decide as Hset.
    - rw revert_awards_spec; [apply Hok|]. apply map_players_ext. intros p _. rw /back /=.
      by rw Z.add_opp_r.
    - symmetry. apply map_players_id. intros p _. rw /back /= Z.sub_0_r.
      apply with_stack_id. }
  left. split_and!; [|done..|].
  - apply (table_ok_map (refund_player ∘ back) t); [done..|by left|]. intros p Hp.
    split_and!; [done| |done]. destruct (ok_chips t Hok p Hp) as [? ?]. split; simpl; [|lia].
    case_decide as Hset; [|lia]. specialize (Href Hset p Hp). rw /stake in Href. lia.
  - rw Hpl. by intros q (p & -> & Hp)%list_elem_of_fmap.
Qed.

Lemma startHand_running deck t :
  handIsRunning (street_ t) = true →
  (validateConfig t = Undef ∧ startHand deck t = (Undef, t)) ∨
  ∃ e, startHand deck t = (Ok e, t) ∧ e ≠ Error_ok.
Proof.
  intros Hrun. rw /startHand /mbind /M_bind /mget /mlift.
  destruct (validateConfig_cases t) as [[Hu _]|[valid Hv]]; [left; by rw Hu|right; rw Hv].
  case_bool_decide; cbn [negb]; [|by eexists]. rw Hrun. by eexists.
Qed.

(** What a call of [startHand] does to a table in order. *)
Lemma startHand_outcome deck t :
  inv t → good_deck deck → next_ deck = 0%nat →
  (validateConfig t = Undef ∧ startHand deck t = (Undef, t)) ∨
  ∃ e t', startHand deck t = (Ok e, t') ∧
    ((e ≠ Error_ok ∧ t' = t) ∨ (e = Error_ok ∧ (awaiting t' ∨ stalled t' ∨ paid t') ∧ opened t t')).
Proof.
  intros Hinv Hg Hn. destruct (handIsRunning (street_ t)) eqn:Hrun.
  { destruct (startHand_running deck t Hrun) as [?|(e & -> & ?)]; [by left|right]. exists e, t. auto. }
  destruct (startHand_cases deck t (inv_between t Hinv Hrun) Hg Hn) as [?|(e & t' & -> & Hans)];
    [by left|right; exists e, t'; split; [done|]].
  destruct Hans as [?|(? & ? & ? & _)]; auto.
Qed.

Lemma startHand_inv deck t :
  inv t → good_deck deck → next_ deck = 0%nat → inv (snd (startHand deck t)).
Proof.
  intros Hinv Hg Hn. destruct (startHand_outcome deck t Hinv Hg Hn) as [[_ ->]|(e & t' & -> & Hcase)]; [done|].
  destruct Hcase as [[_ ->]|(_ & [?|[?|?%paid_inv]] & _)]; [done|by right; left|by right; right; left|done].
Qed.

(** ** Every reachable table

    A table with the history of calls that led to it: any calls, as long as hands
    are dealt from full decks, and as long as a settled hand is not aborted once a
    player whom it paid has left and sat down again. The list holds the players
    who sat down since the last start of a hand. *)

Definition succeeded (r : result TableError) : bool :=
  match r with Ok e => bool_decide (e = Error_ok) | _ => false end.

(** Nobody whom the settled hand paid is among [seated]. *)
Definition winners_stayed (seated : list PlayerId) (t : Table) : Prop :=
  street_ t = Street_settled → ∀ id, id ∈ seated → winnings (last_awards_ t) id = 0.

Inductive history (config : TableConfig) : list PlayerId → Table → Prop :=
  | history_new : history config [] (Table_new config)
  | history_seat seated id seat buy_in t : history config seated t →
      history config (if succeeded (fst (seatPlayer id seat buy_in t)) then id :: seated else seated)
        (snd (seatPlayer id seat buy_in t))
  | history_remove seated id t : history config seated t → history config seated (snd (removePlayer id t))
  | history_ready seated id ready t : history config seated t → history config seated (snd (setReady id ready t))
  | history_connected seated id connected t :
      history config seated t → history config seated (snd (setConnected id connected t))
  | history_start seated deck t : history config seated t → good_deck deck → next_ deck = 0%nat →
      history config (if succeeded (fst (startHand deck t)) then [] else seated) (snd (startHand deck t))
  | history_act seated command t : history config seated t → history config seated (snd (act command t))
  | history_abort seated t : history config seated t → winners_stayed seated t →
      history config seated (snd (abortHand t)).

Definition reachable (config : TableConfig) (t : Table) : Prop := ∃ seated, history config seated t.

(** Those who did not sit down since still hold what the settled hand paid them. *)
Definition awards_held (seated : list PlayerId) (t : Table) : Prop :=
  street_ t = Street_settled →
  ∀ p, p ∈ players t → pl_id p ∉ seated → winnings (last_awards_ t) (pl_id p) ≤ stake p.

Lemma held_refundable seated t : inv t → awards_held seated t → winners_stayed seated t → refundable t.
Proof.
  intros Hinv Hheld Hstay Hs p Hp. destruct (decide (pl_id p ∈ seated)) as [Hin|Hout]; [|by apply Hheld].
  rw Hstay //. destruct (ok_chips t (inv_table_ok t Hinv) p Hp). rw /stake. lia.
Qed.

(** A call that settles nothing and takes nothing from those who were there. *)
Lemma held_kept seated seated' t t' :
  awards_held seated t → (street_ t' = Street_settled → street_ t = Street_settled) →
  last_awards_ t' = last_awards_ t →
  (∀ q, q ∈ players t' → pl_id q ∉ seated' →
     ∃ p, p ∈ players t ∧ pl_id p = pl_id q ∧ stake p = stake q ∧ pl_id p ∉ seated) →
  awards_held seated' t'.
Proof.
  intros Hheld Hst Hlast Hpl Hs q Hq Hout. destruct (Hpl q Hq Hout) as (p & Hp & <- & <- & Hin).
  rw Hlast. apply Hheld; auto.
Qed.

Lemma flag_held seated t i p g :
  (∀ q, g q = with_connected (pl_connected (g q)) (with_ready (pl_ready (g q)) q)) →
  inv t → seat_at t i = Some p → awards_held seated t → awards_held seated (bump_sequence (set_seat i (g p) t)).
Proof.
  intros Hg Hinv Hi Hheld. pose proof (ok_ids t (inv_table_ok t Hinv)) as Hnd. rw set_seat_update //.
  eapply held_kept; [exact Hheld|done|done|]. intros q Hq Hout.
  change (q ∈ players (update_player (pl_id p) g t)) in Hq.
  rw players_update in Hq. apply list_elem_of_fmap in Hq as (r & -> & Hr). exists r. revert Hout.
  destruct (pl_id r =? pl_id p); [|done]. by rw Hg.
Qed.

Lemma remove_held seated id t : inv t → awards_held seated t → awards_held seated (snd (removePlayer id t)).
Proof.
  intros Hinv Hheld. rw /removePlayer. destruct (findPlayer t id) as [[i p]|] eqn:Hf; [|done].
  apply findPlayer_Some in Hf as [Hi _]. destruct (_ && _); [done|]. cbv zeta. cbn [snd].
  pose proof Hi as Hl%seat_at_lookup. pose proof (players_clear_Permutation t i p Hl) as Hperm.
  eapply held_kept; [exact Hheld|by case_decide..|]. intros q Hq Hout. exists q. split_and!; try done.
  rw Hperm. right. revert Hq. by case_decide.
Qed.

Lemma seat_held seated id seat buy_in t :
  inv t → awards_held seated t →
  awards_held (if succeeded (fst (seatPlayer id seat buy_in t)) then id :: seated else seated)
    (snd (seatPlayer id seat buy_in t)).
Proof.
  intros Hinv Hheld. pose proof (inv_table_ok t Hinv) as Hok.
  destruct (seatPlayer_spec id seat buy_in t Hok) as [[_ ->]|(e & -> & Hiff)]; [done|]. cbn [fst snd].
  case_decide as He; rw /succeeded; last first.
  { rw bool_decide_eq_false_2 //. }
  rw bool_decide_eq_true_2 //. apply Hiff in He as Hmay.
  assert (seats_ t !! seat = Some None) as Hnone.
  { destruct (lookup_lt_is_Some_2 (seats_ t) seat) as [[p'|] Hl]; [|..|done].
    - rw (ok_length t Hok). apply Hmay.
    - pose proof (seat_free _ _ _ _ Hmay) as Hf. by rw /seat_at Hl in Hf. }
  eapply held_kept; [exact Hheld|done|done|]. intros q Hq Hout.
  change (q ∈ players (set_seat seat (Player_new id seat buy_in) t)) in Hq.
  rw players_insert_Permutation // elem_of_cons in Hq. apply not_elem_of_cons in Hout as [Hne Hout].
  destruct Hq as [->|Hq]; [done|]. by exists q.
Qed.

(** Just paid, everybody holds the awards. *)
Lemma paid_held seated t t0 f (x : Player → Z) :
  players t = f <$> players t0 → (∀ p, p ∈ players t0 → 0 ≤ x p) →
  (∀ p, p ∈ players t0 → same_person p (f p) ∧
     stake (f p) = x p + winnings (last_awards_ t) (pl_id p)) → awards_held seated t.
Proof.
  intros Hpl Hst Hf _ q Hq _. revert Hq. rw Hpl. intros (p & -> & Hp)%list_elem_of_fmap.
  destruct (Hf p Hp) as [[-> _] ->]. specialize (Hst p Hp). lia.
Qed.

Lemma start_held seated deck t :
  inv t → good_deck deck → next_ deck = 0%nat → awards_held seated t →
  awards_held (if succeeded (fst (startHand deck t)) then [] else seated) (snd (startHand deck t)).
Proof.
  intros Hinv Hg Hn Hheld.
  destruct (startHand_outcome deck t Hinv Hg Hn) as [[_ ->]|(e & t' & -> & [[He ->]|(-> & _ & Hop)])]; [done| |].
  - cbn [fst snd]. rw /succeeded bool_decide_eq_false_2 //.
  - cbn [fst snd]. destruct Hop as (f & Hpl & Hf). eapply (paid_held _ _ t f pl_stack); [done| |].
    + intros p Hp. by destruct (ok_chips t (inv_table_ok t Hinv) p Hp).
    + intros p Hp. by destruct (Hf p Hp) as (? & _ & ?).
Qed.

Lemma act_held seated cmd t : inv t → awards_held seated t → awards_held seated (snd (act cmd t)).
Proof.
  intros Hinv Hheld. destruct (act_inv cmd t Hinv) as (r & t' & -> & Hans). cbn [snd].
  destruct Hans as [(_ & -> & _)|(_ & _ & _ & (f & Hpl & Hf) & _)]; [done|].
  eapply (paid_held _ _ t f stake); [done| |].
  - intros p Hp. destruct (ok_chips t (inv_table_ok t Hinv) p Hp). rw /stake. lia.
  - intros p Hp. by destruct (Hf p Hp) as (? & ? & _).
Qed.

Lemma abort_held seated t : awards_held seated t → awards_held seated (snd (abortHand t)).
Proof. intros Hheld. rw /abortHand. by case_decide. Qed.

Lemma players_new config : players (Table_new config) = [].
Proof. rw /players /=. by induction (max_players config). Qed.

Lemma Table_new_inv config : inv (Table_new config).
Proof.
  left. pose proof (players_new config) as Hp. split_and!; [|done..|].
  - split; rw /unique_ids ?Hp; try done.
    + apply length_replicate.
    + intros i p Hi%seat_at_lookup. by apply lookup_replicate in Hi as [? _].
    + constructor.
    + by intros p ?%not_elem_of_nil.
    + by intros p ?%not_elem_of_nil.
  - rw Hp. by intros p ?%not_elem_of_nil.
Qed.

Lemma history_ok config seated t : history config seated t → inv t ∧ awards_held seated t.
Proof.
  induction 1 as [|seated id seat buy_in t _ [Hi Hh]|seated id t _ [Hi Hh]|seated id ready t _ [Hi Hh]
    |seated id connected t _ [Hi Hh]|seated deck t _ [Hi Hh] Hg Hn|seated command t _ [Hi Hh]|seated t _ [Hi Hh] Hstay].
  - split; [apply Table_new_inv|done].
  - split; [by apply seatPlayer_inv|by apply seat_held].
  - split; [by apply removePlayer_inv|by apply remove_held].
  - split; [by apply setReady_inv|]. rw /setReady. case_match; [done|].
    destruct (findPlayer t id) as [[i p]|] eqn:Hf; [|done]. case_match; [done|].
    apply findPlayer_Some in Hf as [Hp _]. by apply (flag_held seated t i p (with_ready ready)).
  - split; [by apply setConnected_inv|]. rw /setConnected.
    destruct (findPlayer t id) as [[i p]|] eqn:Hf; [|done].
    apply findPlayer_Some in Hf as [Hp _]. by apply (flag_held seated t i p (with_connected connected)).
  - split; [by apply startHand_inv|by apply start_held].
  - split; [|by apply act_held]. destruct (act_inv command t Hi) as (r & t' & -> & Hans). by eapply act_answer_inv.
  - split; [|by apply abort_held]. by eapply abortHand_inv, held_refundable.
Qed.

Lemma reachable_inv config t : reachable config t → inv t.
Proof. by intros [seated [? _]%history_ok]. Qed.

Lemma reachable_new config : reachable config (Table_new config).
Proof. exists []. apply history_new. Qed.

Lemma reachable_seat config id seat buy_in t :
  reachable config t → reachable config (snd (seatPlayer id seat buy_in t)).
Proof. intros [seated Hh]. eexists. by apply history_seat. Qed.

Lemma reachable_ready config id ready t : reachable config t → reachable config (snd (setReady id ready t)).
Proof. intros [seated Hh]. eexists. by apply history_ready. Qed.

Lemma reachable_start config deck t :
  reachable config t → good_deck deck → next_ deck = 0%nat → reachable config (snd (startHand deck t)).
Proof. intros [seated Hh] ? ?. eexists. by apply history_start. Qed.

(** ** Tables whose configuration satisfies [P] *)

Section configured.
  Context (P : TableConfig → Prop).

Definition configured (t : Table) : Prop := ∃ config, P config ∧ reachable config t.

(** If the hand is settled, an abort comes after a history in which the winners
    stayed. *)
Definition abort_safe (t : Table) : Prop :=
  ∃ config seated, P config ∧ history config seated t ∧ winners_stayed seated t.

Inductive table_step : Table → Table → Prop :=
  | step_seat id seat buy_in t : table_step t (snd (seatPlayer id seat buy_in t))
  | step_remove id t : table_step t (snd (removePlayer id t))
  | step_ready id ready t : table_step t (snd (setReady id ready t))
  | step_connected id connected t : table_step t (snd (setConnected id connected t))
  | step_start deck t : good_deck deck → next_ deck = 0%nat → table_step t (snd (startHand deck t))
  | step_act command t : table_step t (snd (act command t))
  | step_abort t : abort_safe t → table_step t (snd (abortHand t)).

Lemma configured_step t t' : configured t → table_step t t' → configured t'.
Proof.
  intros (config & HP & seated & Hh). assert (∀ seated' t', history config seated' t' → configured t') as Hp.
  { intros seated' t1 Hh'. exists config. split; [done|by exists seated']. }
  destruct 1 as [| | | | | |t (config' & seated' & HP' & Hh' & Hstay)].
  7: exists config'; split; [done|exists seated'; by apply history_abort].
  all: eapply Hp; by constructor.
Qed.

Lemma configured_inv t : configured t → inv t.
Proof. by intros (config & _ & ?%reachable_inv). Qed.
End configured.

(** ** The configuration of a table is never changed *)

Definition keeps_config {A} (m : M Table A) : Prop := ∀ t, config_ (m t).2 = config_ t.

Lemma config_ret {A} (a : A) : keeps_config (mret a).
Proof. done. Qed.

Lemma config_bind {A B} (m : M Table A) (f : A → M Table B) :
  keeps_config m → (∀ a, keeps_config (f a)) → keeps_config (m ≫= f).
Proof.
  intros Hm Hf t. rw /mbind /M_bind. specialize (Hm t). destruct (m t) as [[a|e|] t']; cbn in *; [|done..].
  by rw Hf.
Qed.

Lemma config_modify (f : Table → Table) : (∀ t, config_ (f t) = config_ t) → keeps_config (mmodify f).
Proof. intros Hf t. apply Hf. Qed.

Lemma config_lift {A} (r : result A) : keeps_config (mlift r).
Proof. done. Qed.

Lemma config_deref {A} (o : option A) : keeps_config (mderef o).
Proof. by destruct o. Qed.

Lemma config_get : keeps_config mget.
Proof. done. Qed.

Lemma config_throw {A} e : keeps_config (mthrow e : M Table A).
Proof. done. Qed.

Lemma config_undef {A} : keeps_config (mundef : M Table A).
Proof. done. Qed.

Lemma config_seat_ref i : keeps_config (seat_ref i).
Proof. intros t. rw /seat_ref. by destruct (seat_at t i). Qed.

Lemma config_deck {A} (m : M Deck A) : keeps_config (on_deck m).
Proof. intros t. rw /on_deck. destruct (deck_ t) as [d|]; [|done]. by destruct (m d). Qed.

Create HintDb config discriminated.
#[export] Hint Resolve config_ret config_lift config_deref config_get config_throw config_undef config_seat_ref
  config_deck : config.

Ltac unfold_call m :=
  lazymatch m with
  | ?f _ => unfold_call f
  | ?f => unfold f
  end.
(** An update of the table, computed. *)
Ltac config_update := intros ?; rewrite ?/choose_dealer ?/setInitialActor; cbv zeta; repeat case_match; reflexivity.
Ltac config_step :=
  first [progress cbv zeta | solve [auto 2 with config nocore] | case_match | eapply config_bind; [|intros ?]
        | apply config_modify; solve [config_update]
        | lazymatch goal with |- keeps_config ?m => unfold_call m end].
Ltac config := repeat config_step.

(** ** Loops *)

Lemma config_deal_round round dealt seat : keeps_config (deal_round round dealt seat).
Proof. revert seat. induction dealt as [|dealt IH]; intros seat; cbn [deal_round]; config. Qed.

Lemma config_pay_winners award ids index : keeps_config (pay_winners award ids index).
Proof. revert index. induction ids as [|id ids IH]; intros index; cbn [pay_winners]; config. Qed.
#[export] Hint Resolve config_deal_round config_pay_winners : config.

Lemma config_award_levels levels previous : keeps_config (award_levels levels previous).
Proof. revert previous. induction levels as [|level levels IH]; intros previous; cbn [award_levels]; config. Qed.

Lemma config_reveal_rest fuel : keeps_config (reveal_rest fuel).
Proof. induction fuel as [|fuel IH]; cbn [reveal_rest]; config. Qed.
#[export] Hint Resolve config_award_levels config_reveal_rest : config.

Lemma config_advance_loop fuel result : keeps_config (advance_loop fuel result).
Proof. induction fuel as [|fuel IH]; cbn [advance_loop]; config. Qed.
#[export] Hint Resolve config_advance_loop : config.

Lemma adjust_config f ids index t : config_ (adjust_winners f ids index t) = config_ t.
Proof.
  revert index t. induction ids as [|id ids IH]; intros index t; cbn [adjust_winners]; [done|]. rw IH.
  by destruct (findPlayer t id) as [[seat p]|].
Qed.

Lemma revert_config t : config_ (revert_awards t) = config_ t.
Proof.
  rw /revert_awards. generalize (last_awards_ t). intros l. revert t.
  induction l as [|a l IH]; intros t; cbn [foldl]; [done|]. by rw IH adjust_config.
Qed.

(** ** Operations *)

Lemma seatPlayer_config id seat buy_in : keeps_config (seatPlayer id seat buy_in).
Proof. config. Qed.

Lemma removePlayer_config id t : config_ (removePlayer id t).2 = config_ t.
Proof. rw /removePlayer. by repeat case_match. Qed.

Lemma setReady_config id ready t : config_ (setReady id ready t).2 = config_ t.
Proof. rw /setReady. by repeat case_match. Qed.

Lemma setConnected_config id connected t : config_ (setConnected id connected t).2 = config_ t.
Proof. rw /setConnected. by repeat case_match. Qed.

Lemma startHand_config deck : keeps_config (startHand deck).
Proof. config. Qed.

Lemma act_finish_config street seat : keeps_config (act_finish street seat).
Proof. config. Qed.

Lemma act_switch_config seat p command t t' : act_switch seat p command t = Applied t' → config_ t' = config_ t.
Proof.
  rw /act_switch. destruct (cmd_type command); rw /act_fold /act_check /act_call /act_bet /act_raise /act_all_in /after_raise;
    repeat case_match; intros [= <-]; done.
Qed.

Lemma act_config command : keeps_config (act command).
Proof.
  intros t. rw /act. repeat case_match; try done.
  rw act_finish_config. by eapply act_switch_config.
Qed.

Lemma abortHand_config t : config_ (abortHand t).2 = config_ t.
Proof. rw /abortHand. repeat case_decide; try done. cbn. by rw revert_config. Qed.

(** A table that was reached has the configuration it was made with. *)
Lemma reachable_config config t : reachable config t → config_ t = config.
Proof.
  intros [seated Hh]. induction Hh; [done|..].
  - by rw seatPlayer_config.
  - by rw removePlayer_config.
  - by rw setReady_config.
  - by rw setConnected_config.
  - by rw startHand_config.
  - by rw act_config.
  - by rw abortHand_config.
Qed.

(** So the validation of its configuration is defined if its blinds fit. *)
Lemma configured_valid t : configured blinds_fit t → validateConfig t ≠ Undef.
Proof.
  intros (config & Hfit & Hr). rw -(reachable_config _ _ Hr) in Hfit.
  destruct (validateConfig_cases t) as [[_ ?]|[e ->]]; done.
Qed.
