(* ===== verification/CardTheorems.v ===== *)
(** * The theorems about cards, decks and hand values *)
From S2P Require Import Prelude Card Deck HandEvaluator.

(** ** Hand values *)

(** C37: five distinct cards are valued by the rules of poker: the category and
    tie-break ranks [evaluateFive] computes from its counters are those of the
    rank pattern and suits of the hand, wheel straights included. *)
Theorem evaluateFive_correct cards :
  good_hand cards →
  ∃ v, evaluateFive cards = Ok v ∧ hand_class (rank <$> cards) (suited cards) v.
Proof. apply evaluateFive_hand_class. Qed.

Definition wheel : list Card :=
  [mkCard ace spades; mkCard two hearts; mkCard three spades; mkCard four clubs; mkCard five spades].

Lemma evaluateFive_correct_witness :
  good_hand wheel ∧ evaluateFive wheel = Ok (mkHandValue straight [5; 0; 0; 0; 0]) ∧
  ∃ v, evaluateFive wheel = Ok v ∧ hand_class (rank <$> wheel) (suited wheel) v.
Proof.
  assert (good_hand wheel) as Hg by (apply (bool_decide_unpack _); vm_compute; exact I).
  split; [exact Hg|]. split; [reflexivity|]. apply (evaluateFive_correct wheel Hg).
Defined.

(** Two five-card hands tie exactly when they have the same ranks and are
    both of one suit or both not. *)
Lemma evaluateFive_ties c d :
  good_hand c → good_hand d →
  evaluateFive c = evaluateFive d ↔ (rank <$> c) ≡ₚ (rank <$> d) ∧ suited c = suited d.
Proof. apply evaluateFive_tie_iff. Qed.

Definition wheel' : list Card :=
  [mkCard five spades; mkCard two hearts; mkCard three hearts; mkCard four clubs; mkCard ace clubs].

Lemma evaluateFive_ties_witness :
  evaluateFive wheel = evaluateFive wheel' ↔
  (rank <$> wheel) ≡ₚ (rank <$> wheel') ∧ suited wheel = suited wheel'.
Proof.
  apply evaluateFive_ties; apply (bool_decide_unpack _); vm_compute; exact I.
Defined.

(** [operator<] on hand values is a strict total order compatible with
    equality, so "the best hand" is well defined. *)
Lemma HandValue_order u v w :
  HandValue_ltb u u = false ∧
  (HandValue_ltb u v = true → HandValue_ltb v w = true → HandValue_ltb u w = true) ∧
  (HandValue_ltb u v = true ∨ u = v ∨ HandValue_ltb v u = true) ∧
  (HandValue_eqb u v = true ↔ u = v).
Proof.
  rw !HandValue_ltb_key. split_and!.
  - apply array_ltb_irrefl.
  - apply array_ltb_trans.
  - destruct (array_ltb_total (value_key u) (value_key v)) as [?|[?%value_key_inj|?]]; auto.
  - rw /HandValue_eqb andb_true_iff !bool_decide_eq_true. destruct u, v; naive_solver.
Qed.

(** C34: on five to seven distinct cards [evaluateBest] returns the greatest value
    over all choices of five of them, and that value is attained. *)
Theorem evaluateBest_correct cards :
  (5 ≤ length cards ≤ 7)%nat → Forall valid_card cards → NoDup cards →
  ∃ best, evaluateBest cards = Ok best ∧
    (∃ hand, hand ⊆+ cards ∧ length hand = 5%nat ∧ evaluateFive hand = Ok best) ∧
    ∀ hand, hand ⊆+ cards → length hand = 5%nat →
      ∃ v, evaluateFive hand = Ok v ∧ HandValue_leb v best = true.
Proof. apply evaluateBest_spec. Qed.

Definition seven_cards : list Card :=
  wheel ++ [mkCard six diamonds; mkCard king spades].

Lemma evaluateBest_correct_witness :
  evaluateBest seven_cards = Ok (mkHandValue straight [6; 0; 0; 0; 0]) ∧
  ∃ best, evaluateBest seven_cards = Ok best ∧
    (∃ hand, hand ⊆+ seven_cards ∧ length hand = 5%nat ∧ evaluateFive hand = Ok best) ∧
    ∀ hand, hand ⊆+ seven_cards → length hand = 5%nat →
      ∃ v, evaluateFive hand = Ok v ∧ HandValue_leb v best = true.
Proof.
  split; [vm_compute; reflexivity|].
  apply evaluateBest_correct; [vm_compute; lia| |]; apply (bool_decide_unpack _); vm_compute; exact I.
Defined.

(** ** Decks *)

(** With a lawful random source the shuffling constructor returns: the deck
    is a permutation of the 52 cards, none of them drawn. *)
Lemma Deck_random_correct {R} `{!RandomSource R} `{!RandomSourceLaws R} r :
  random_inv r →
  ∃ d r', Deck_random r = (Ok d, r') ∧ cards_ d ≡ₚ orderedDeck ∧ next_ d = 0%nat ∧
    good_deck d ∧ random_inv r'.
Proof.
  intros Hr. destruct (wp_inv _ _ _ (Deck_random_spec r Hr)) as (d & r' & Heq & Hp & Hn & Hr').
  exists d, r'. split_and!; try done. destruct d. by apply good_deck_permutation.
Qed.

Lemma Deck_random_correct_witness :
  ∃ d r', Deck_random (DeterministicRandomSource_new 42) = (Ok d, r') ∧
    cards_ d ≡ₚ orderedDeck ∧ next_ d = 0%nat ∧ good_deck d ∧
    random_inv (R:=DeterministicRandomSource) r'.
Proof.
  apply (Deck_random_correct (DeterministicRandomSource_new 42)).
  vm_compute. split; [reflexivity|discriminate].
Defined.

(** A given list of cards makes a deck exactly when it is a permutation of the
    52 cards. (For cards whose fields hold enumerators: see
    [invalid_card_accepted].) *)
Lemma Deck_of_cards_correct cards :
  Forall valid_card cards →
  (∃ d, Deck_of_cards cards = Ok d) ↔ cards ≡ₚ orderedDeck.
Proof.
  intros Hv. rw /Deck_of_cards. split.
  - intros [d Hd]. destruct (Nat.eqb_spec (length cards) 52) as [Hl|]; [|done]. simpl in Hd.
    destruct (all_distinct cards) eqn:Ha; [|done]. apply all_distinct_spec in Ha; [|done].
    by apply (good_deck_is_permutation (mkDeck cards 0)).
  - intros Hp. destruct (good_deck_permutation cards 0 Hp) as (Hl & _ & Hnd). simpl in Hl, Hnd.
    rw Hl /=. rw (proj2 (all_distinct_spec cards Hv) Hnd). by eexists.
Qed.

Lemma Deck_of_cards_correct_witness :
  (∃ d, Deck_of_cards orderedDeck = Ok d) ↔ orderedDeck ≡ₚ orderedDeck.
Proof. apply Deck_of_cards_correct. apply (bool_decide_unpack _). vm_compute. exact I. Defined.

(** A card with rank 15 has the index of the two of the next suit, so the
    duplicate test takes it for a card of the deck. *)
Lemma invalid_card_accepted :
  let fake := mkCard 15 clubs in
  ¬ valid_card fake ∧ cardIndex fake = cardIndex (mkCard two diamonds) ∧
  ∃ d, Deck_of_cards ((λ c, if bool_decide (c = mkCard two diamonds) then fake else c)
                        <$> orderedDeck) = Ok d ∧ fake ∈ cards_ d.
Proof.
  split; [intros [[_ H] _]; simpl in H; lia|]. split; [reflexivity|]. eexists. split; [vm_compute; reflexivity|].
  simpl. by repeat first [left; reflexivity|right].
Qed.

(** ** Rejection sampling *)

Lemma reject_loop_prefix limit values v rest :
  reject_loop limit values = Some (v, rest) →
  ∃ skipped, values = skipped ++ v :: rest ∧ Forall (λ x, limit ≤ x) skipped ∧ v < limit.
Proof.
  induction values as [|x values IH]; simpl; [done|]. destruct (Z.leb_spec limit x).
  - intros (skipped & -> & ? & ?)%IH. exists (x :: skipped). split_and!; [done|by constructor|done].
  - intros [= -> ->]. by exists [].
Qed.

(** The sampled number is below the bound and unbiased: the loop accepts
    exactly the first value below a limit that is a multiple of the bound, more
    than half of all values, so every result has equally many accepted values
    [result + k * bound]. *)
Lemma system_uniform_unbiased bound device v rest :
  0 < bound ≤ u64_max →
  Forall (λ p, fits_u64 (device_value p.1 p.2)) device →
  system_uniform bound device = Ok (Some (v, rest)) →
  0 ≤ v < bound ∧
  (∃ k, rejection_limit bound = k * bound ∧ u64_max < 2 * rejection_limit bound + 1 ∧
    ∀ x, fits_u64 x → x `mod` bound = v →
      (x < rejection_limit bound ↔ ∃ j, 0 ≤ j < k ∧ x = v + j * bound)) ∧
  ∃ skipped x, ((λ p, device_value p.1 p.2) <$> device) = skipped ++ x :: rest ∧
    Forall (λ y, rejection_limit bound ≤ y) skipped ∧ x < rejection_limit bound ∧
    v = x `mod` bound.
Proof.
  intros Hb Hdev. rw /system_uniform. destruct (Z.eqb_spec bound 0); [lia|].
  destruct (reject_loop _ _) as [[x rest']|] eqn:Hloop; intros [= <- <-].
  destruct (reject_loop_prefix _ _ _ _ Hloop) as (skipped & Heq & Hsk & Hx).
  destruct (rejection_limit_spec bound Hb) as [Hmod Hlim].
  pose proof (Z.mod_pos_bound x bound). split_and!; [lia|lia| |by exists skipped, x].
  exists (rejection_limit bound `div` bound).
  assert (rejection_limit bound = rejection_limit bound `div` bound * bound) as Hk.
  { pose proof (Z.div_mod (rejection_limit bound) bound). lia. }
  split; [done|]. split.
  { assert (0 < rejection_limit bound `div` bound) by nia. nia. }
  intros y Hy Hym. pose proof (Z.div_mod y bound) as Hd. rw /fits_u64 in Hy.
  assert (0 ≤ y `div` bound) by (apply Z.div_pos; lia). split.
  - intros Hlt. exists (y `div` bound). nia.
  - intros (j & Hj & ->). nia.
Qed.

Lemma system_uniform_unbiased_witness :
  let device := [(2 ^ 32 - 1, 2 ^ 32 - 1); (7, 5)] in
  0 ≤ 7 < 10 ∧
  (∃ k, rejection_limit 10 = k * 10 ∧ u64_max < 2 * rejection_limit 10 + 1 ∧
    ∀ x, fits_u64 x → x `mod` 10 = 7 →
      (x < rejection_limit 10 ↔ ∃ j, 0 ≤ j < k ∧ x = 7 + j * 10)) ∧
  ∃ skipped x, ((λ p, device_value p.1 p.2) <$> device) = skipped ++ x :: [] ∧
    Forall (λ y, rejection_limit 10 ≤ y) skipped ∧ x < rejection_limit 10 ∧ 7 = x `mod` 10.
Proof.
  apply (system_uniform_unbiased 10 _ 7 []).
  - rewrite /u64_max. lia.
  - constructor; [|constructor; [|constructor]]; vm_compute; split; discriminate.
  - vm_compute. reflexivity.
Defined.
