(* ===== verification/TableTheorems.v ===== *)
(** * The theorems about the table

    The properties of the table state machine, stated for the tables that a
    sequence of calls can reach, with instances on concrete hands. *)
From S2P Require Import Prelude Card Deck HandEvaluator Table TableLib TableInv TableBetting TablePots TableAdvance TableAct TableDeal TableStart TableChips TableLife.

(** ** Concrete tables *)

Module Demo.

Definition config : TableConfig := mkConfig 2 6 50 100 80 20000.
Definition deck : Deck := mkDeck orderedDeck 0.

Lemma deck_good : good_deck deck.
Proof. by apply good_deck_permutation. Qed.

Definition join (id : Z) (seat : nat) (stack : Z) (t : Table) : Table :=
  snd (setReady id true (snd (seatPlayer id seat stack t))).

(** Two players, both ready. *)
Definition lobby : Table := join 11 1 1000 (join 10 0 1000 (Table_new config)).
(** The first hand of [lobby]. *)
Definition hand : Table := snd (startHand deck lobby).

Lemma join_reachable id seat stack t :
  reachable config t → reachable config (join id seat stack t).
Proof.
  intros Hr. by apply reachable_ready, reachable_seat.
Qed.

Lemma lobby_reachable : reachable config lobby.
Proof. apply join_reachable, join_reachable, reachable_new. Qed.

Lemma hand_reachable : reachable config hand.
Proof. by apply reachable_start; [apply lobby_reachable|apply deck_good|]. Qed.

Lemma hand_started : startHand deck lobby = (Ok Error_ok, hand).
Proof. vm_compute. reflexivity. Qed.

Lemma lobby_between : between_hands lobby.
Proof. apply inv_between; [by eapply reachable_inv, lobby_reachable|reflexivity]. Qed.

(** Four players; the two small stacks end up all in and the two large ones
    fold on the flop. *)
Definition side_pot_lobby : Table :=
  join 13 3 1000 (join 12 2 300 (join 11 1 300 (join 10 0 1000 (Table_new config)))).
Definition commands : list ActionCommand :=
  [mkCommand 13 Action_raise 500; mkCommand 10 Action_call 0; mkCommand 11 Action_call 0;
   mkCommand 12 Action_call 0; mkCommand 13 Action_fold 0; mkCommand 10 Action_fold 0].
Definition run (cmds : list ActionCommand) (t : Table) : Table :=
  foldl (λ t cmd, snd (act cmd t)) t cmds.
Definition side_pot_end : Table := run commands (snd (startHand deck side_pot_lobby)).

(** Two players, the second of whom cannot cover the big blind. *)
Definition short_lobby : Table := join 11 1 80 (join 10 0 1000 (Table_new config)).
Definition short_hand : Table := snd (startHand deck short_lobby).

Lemma short_reachable : reachable config short_hand.
Proof.
  by apply reachable_start; [apply join_reachable, join_reachable, reachable_new|apply deck_good|].
Qed.

(** Two players, the first of whom folds; the winner leaves, sits down again with
    the smallest buy-in, and the hand is aborted: the winner owes chips. *)
Definition returned : Table :=
  join 11 1 80 (snd (removePlayer 11 (snd (act (mkCommand 10 Action_fold 0) hand)))).
Example aborted_after_return :
  (λ p, (pl_id p, pl_stack p)) <$> players (snd (abortHand returned)) = [(10, 1000); (11, -70)].
Proof. vm_compute. reflexivity. Qed.

Lemma hand_street_fact : street_ hand = Street_preflop ∧ acting_seat_ hand = Some 0%nat.
Proof. vm_compute. by split. Qed.

Lemma short_hand_fact : street_ short_hand = Street_preflop ∧ acting_seat_ short_hand = None.
Proof. vm_compute. by split. Qed.

#[global] Opaque hand short_hand.

(** [hand] waits for a player. *)
Lemma hand_awaiting : awaiting hand.
Proof.
  destruct hand_street_fact as [Hs Ha].
  destruct (reachable_inv config hand hand_reachable) as [(_ & Hs' & _)|[?|[Hst|(_ & Hs' & _)]]];
    [by rw Hs in Hs'|done| |by rw Hs in Hs'].
  destruct Hst as (_ & _ & _ & Hs' & _). by rw Ha in Hs'.
Qed.

Lemma short_stalled : stalled short_hand.
Proof.
  destruct short_hand_fact as [Hs Ha].
  destruct (reachable_inv config short_hand short_reachable) as
    [(_ & Hs' & _)|[(_ & _ & _ & (i & p & Hs' & _))|[?|(_ & Hs' & _)]]]; [|..|done|];
    [by rw Hs in Hs'|by rw Ha in Hs'|by rw Hs in Hs'].
Qed.

Lemma hand_covered : covered hand.
Proof.
  pose proof (startHand_answer deck lobby _ _ lobby_between deck_good eq_refl hand_started) as [[H _]|(_ & _ & _ & Hc)]; [done|].
  destruct hand_street_fact as [Hs _]. revert Hc.
  destruct (decide (street_ hand = Street_settled)) as [Hd|_]; [by rw Hs in Hd|done].
Qed.

(** A command on [hand]. *)
Definition step (type : ActionType) : result ActionResult * Table := act (mkCommand 10 type 0) hand.
Definition answer (type : ActionType) : ActionResult :=
  match fst (step type) with Ok r => r | _ => no_result end.

Lemma step_Ok type : act (mkCommand 10 type 0) hand = (Ok (answer type), snd (step type)).
Proof.
  destruct (act_inv (mkCommand 10 type 0) hand (or_intror (or_introl hand_awaiting)))
    as (r & t' & Hact & _). rw /answer /step Hact //.
Qed.

Lemma call_accepted : res_error (answer Action_call) = Error_ok.
Proof. vm_compute. done. Qed.
Lemma all_in_accepted : res_error (answer Action_all_in) = Error_ok.
Proof. vm_compute. done. Qed.

End Demo.

(** ** Actions *)

(** C1: on every table that calls can reach, [act] returns normally. A refused
    command leaves the table as it was and reports its sequence number; an
    accepted one was sent while the hand waited for a player, leaves a hand that
    waits for a player or a settled one whose pots are paid by the rules, and
    reports exactly the awards on record. *)
Theorem act_correct config t cmd :
  reachable config t → ∃ r t', act cmd t = (Ok r, t') ∧
    ((res_error r ≠ Error_ok ∧ t' = t ∧ res_server_sequence r = server_sequence_ t ∧
        res_awards r = []) ∨
     (awaiting t ∧ (awaiting t' ∨ paid t') ∧ res_error r = Error_ok ∧
        res_awards r = last_awards_ t' ∧ res_server_sequence r = server_sequence_ t' ∧
        res_action_street r = street_ t ∧ stakes_kept t t')).
Proof.
  intros Hr. destruct (act_inv cmd t (reachable_inv config t Hr)) as (r & t' & Hact & Hans).
  exists r, t'. split; [done|]. destruct Hans as [?|(? & ? & [] & ? & _)]; [by left|right].
  done.
Qed.

Lemma act_correct_witness :
  ∃ r t', act (mkCommand 10 Action_fold 0) Demo.hand = (Ok r, t') ∧
    ((res_error r ≠ Error_ok ∧ t' = Demo.hand ∧
        res_server_sequence r = server_sequence_ Demo.hand ∧ res_awards r = []) ∨
     (awaiting Demo.hand ∧ (awaiting t' ∨ paid t') ∧ res_error r = Error_ok ∧
        res_awards r = last_awards_ t' ∧ res_server_sequence r = server_sequence_ t' ∧
        res_action_street r = street_ Demo.hand ∧ stakes_kept Demo.hand t')).
Proof.
  apply (act_correct Demo.config). apply Demo.hand_reachable.
Defined.

(** C3: every accepted command accounts for every chip: the chips on the table
    afterwards and the chips of layers nobody could win add up to the chips
    before. In particular no command ever creates chips. *)
Theorem act_accounts config t cmd r t' :
  reachable config t → act cmd t = (Ok r, t') → res_error r = Error_ok →
  totalChips t' + dead_chips t' = totalChips t ∧ totalChips t' ≤ totalChips t.
Proof.
  intros Hr Hact Herr. pose proof (reachable_inv config t Hr) as Hinv.
  pose proof (dead_chips_nonneg t'). cut (totalChips t' + dead_chips t' = totalChips t); [lia|].
  pose proof (act_ok cmd t Hinv) as Hwp. rw /wp Hact in Hwp.
  destruct Hwp as [(? & _)|(Ha & Hend & _ & (f & Hpl & Hf) & _)]; [done|].
  apply total_after; [naive_solver|]. rw Hpl (totalChips_running t).
  { by apply awaiting_unsettled. }
  apply sum_kept. intros p Hp. by destruct (Hf p Hp) as (? & ? & _).
Qed.

Lemma act_accounts_witness :
  let t' := snd (Demo.step Action_call) in
  totalChips t' + dead_chips t' = totalChips Demo.hand ∧ totalChips t' ≤ totalChips Demo.hand.
Proof.
  apply (act_accounts Demo.config Demo.hand (mkCommand 10 Action_call 0) (Demo.answer Action_call));
    [apply Demo.hand_reachable|apply Demo.step_Ok|apply Demo.call_accepted].
Defined.

(** When the largest commitment is held by a player still in the hand, an
    accepted command that is not a fold of a player who owes nothing keeps all
    chips on the table, and keeps the largest commitment in the hand. *)
Lemma act_conserves config t cmd r t' :
  reachable config t → covered t → (cmd_type cmd = Action_fold → owes t) →
  act cmd t = (Ok r, t') → res_error r = Error_ok →
  totalChips t' = totalChips t ∧ (street_ t' ≠ Street_settled → covered t').
Proof.
  intros Hr Hcov Howes Hact Herr. pose proof (reachable_inv config t Hr) as Hinv.
  pose proof (act_accounts_ok cmd t r t' Hinv Hact) as Hacc.
  pose proof (act_ok cmd t Hinv) as Hwp. rw /wp Hact in Hwp.
  destruct Hwp as [(? & _)|(Ha & Hend & _ & _ & Hc & _)]; [done|].
  specialize (Hc Hcov Howes). destruct (decide (street_ t' = Street_settled)) as [Hs|Hs].
  - rw dead_chips_matched // in Hacc. split; [|done]. destruct Hacc as [->|]; [done|lia].
  - split; [|done]. destruct Hacc as [->|Hacc]; [done|].
    destruct Hend as [Ha'|[(_ & ? & _) _]]; [|done].
    destruct (unsettled_awards t' (or_introl Ha')) as [_ Hd]. lia.
Qed.

Lemma act_conserves_witness :
  let t' := snd (Demo.step Action_all_in) in
  totalChips t' = totalChips Demo.hand ∧ (street_ t' ≠ Street_settled → covered t').
Proof.
  apply (act_conserves Demo.config Demo.hand (mkCommand 10 Action_all_in 0)
           (Demo.answer Action_all_in));
    [apply Demo.hand_reachable|apply Demo.hand_covered|done|apply Demo.step_Ok|
     apply Demo.all_in_accepted].
Defined.

(** ** Hands *)

(** C2: with a full deck, [startHand] on a reachable table where no hand is
    running either reports an error and changes nothing, or starts a hand: exactly
    the ready players with chips are in it, every player's chips are kept but for
    the awards of a hand that was over at once, the largest commitment is held by
    a player in the hand, and the hand waits for a player, is paid, or is
    stalled. On a table whose small blind cannot be doubled in 64 bits, and only
    there, the check of the configuration is undefined; nobody sits at it. *)
Theorem startHand_correct config t deck :
  reachable config t → handIsRunning (street_ t) = false →
  good_deck deck → next_ deck = 0%nat →
  (startHand deck t = (Undef, t) ∧ validateConfig t = Undef ∧ ¬ blinds_fit (config_ t)) ∨
  ∃ e t', startHand deck t = (Ok e, t') ∧
    ((e ≠ Error_ok ∧ t' = t) ∨
     (e = Error_ok ∧ (awaiting t' ∨ stalled t' ∨ paid t') ∧ opened t t' ∧
      totalChips t' + dead_chips t' = sumZ pl_stack (players t) ∧
      (street_ t' ≠ Street_settled → covered t'))).
Proof.
  intros Hr Hrun Hg Hn.
  destruct (startHand_cases deck t (inv_between t (reachable_inv config t Hr) Hrun) Hg Hn)
    as [[Hu Hs]|(e & t' & Heq & Hans)].
  { left. split_and!; [done..|]. destruct (validateConfig_cases t) as [[_ ?]|[e ?]]; [done|congruence]. }
  right. exists e, t'. split; [done|].
  destruct Hans as [?|(? & Hcase & Hop & Hcov)]; [by left|right]. split_and!; try done.
  - apply total_after; [done|]. destruct Hop as (f & -> & Hf). apply sum_kept.
    intros p Hp. by destruct (Hf p Hp) as (? & _ & ?).
  - intros Hs. by rw decide_False in Hcov.
Qed.

Lemma startHand_correct_witness :
  (startHand Demo.deck Demo.lobby = (Undef, Demo.lobby) ∧ validateConfig Demo.lobby = Undef ∧
     ¬ blinds_fit (config_ Demo.lobby)) ∨
  ∃ e t', startHand Demo.deck Demo.lobby = (Ok e, t') ∧
    ((e ≠ Error_ok ∧ t' = Demo.lobby) ∨
     (e = Error_ok ∧ (awaiting t' ∨ stalled t' ∨ paid t') ∧ opened Demo.lobby t' ∧
      totalChips t' + dead_chips t' = sumZ pl_stack (players Demo.lobby) ∧
      (street_ t' ≠ Street_settled → covered t'))).
Proof.
  apply (startHand_correct Demo.config);
    [apply Demo.lobby_reachable|reflexivity|apply Demo.deck_good|reflexivity].
Defined.

(** C21: every table that calls can reach is well formed, and all the cards in
    play during a hand (board and hole cards) are distinct cards of the deck. The
    calls are any calls, but hands are dealt from full decks of the 52 cards, and
    a settled hand is not aborted when a player it paid has left and sat down again
    since ([history]); [Demo.aborted_after_return] shows what happens otherwise. *)
Theorem reachable_well_formed config t :
  reachable config t →
  inv t ∧ (handIsRunning (street_ t) = true → NoDup (dealt t) ∧ Forall valid_card (dealt t)).
Proof.
  intros Hr. pose proof (reachable_inv config t Hr) as Hinv. split; [done|]. intros Hrun.
  assert (hand_ok t → NoDup (dealt t) ∧ Forall valid_card (dealt t)) as Hd.
  { intros Hok. destruct (hand_cards t Hok) as [Hc _]. by eapply dealt_good. }
  destruct Hinv as [(_ & Hs & _)|[[Hok _]|[[Hok _]|(_ & Hs & _)]]];
    [by rw Hs in Hrun|by apply Hd|by apply Hd|by rw Hs in Hrun].
Qed.

Lemma reachable_well_formed_witness :
  inv Demo.hand ∧ (handIsRunning (street_ Demo.hand) = true →
    NoDup (dealt Demo.hand) ∧ Forall valid_card (dealt Demo.hand)).
Proof. apply (reachable_well_formed Demo.config), Demo.hand_reachable. Defined.

(** C32: [abortHand] undoes a hand. Whatever commands were accepted since the
    hand was started, and whether or not it has been settled, aborting it gives
    every player back exactly the stack held before the start. *)
Theorem abortHand_rolls_back config t deck t1 t2 :
  reachable config t → handIsRunning (street_ t) = false →
  good_deck deck → next_ deck = 0%nat →
  startHand deck t = (Ok Error_ok, t1) → played t1 t2 →
  fst (abortHand t2) = Error_ok ∧
  ∃ f, players (snd (abortHand t2)) = f <$> players t ∧ ∀ p, p ∈ players t →
    same_person p (f p) ∧ pl_stack (f p) = pl_stack p ∧ pl_hand_commitment (f p) = 0 ∧
    pl_status (f p) = Status_waiting.
Proof.
  intros Hr Hrun Hg Hn Hstart Hplay.
  by apply (rollback_ok deck t t1 t2 Error_ok (inv_between t (reachable_inv config t Hr) Hrun)).
Qed.

Lemma abortHand_rolls_back_witness :
  let t2 := snd (Demo.step Action_all_in) in
  fst (abortHand t2) = Error_ok ∧
  ∃ f, players (snd (abortHand t2)) = f <$> players Demo.lobby ∧ ∀ p, p ∈ players Demo.lobby →
    same_person p (f p) ∧ pl_stack (f p) = pl_stack p ∧ pl_hand_commitment (f p) = 0 ∧
    pl_status (f p) = Status_waiting.
Proof.
  apply (abortHand_rolls_back Demo.config Demo.lobby Demo.deck Demo.hand);
    [apply Demo.lobby_reachable|reflexivity|apply Demo.deck_good|reflexivity|
     apply Demo.hand_started|].
  eapply played_act; [apply Demo.step_Ok|apply Demo.all_in_accepted|apply played_refl].
Defined.

(** C33: a hand that waits for a player comes to an end: no infinite sequence of
    accepted commands starts from it, and some finite sequence settles it. *)
Theorem hand_terminates config t :
  reachable config t →
  Acc (λ t' t, accepted t t') t ∧ (awaiting t → ∃ t', played t t' ∧ paid t').
Proof.
  intros Hr. split; [by apply accepted_terminates, (reachable_inv config)|apply hand_finishes].
Qed.

Lemma hand_terminates_witness :
  Acc (λ t' t, accepted t t') Demo.hand ∧
  (awaiting Demo.hand → ∃ t', played Demo.hand t' ∧ paid t').
Proof. apply (hand_terminates Demo.config), Demo.hand_reachable. Defined.

(** C20: the pots are awarded by the rules. On a full board, with good cards in
    the hands of everyone still in, [buildAndAwardPots] returns one award for
    each layer between consecutive commitments that somebody can win: the layer's
    chips go in equal shares to exactly the eligible players with the best of
    their seven cards, odd chips one each clockwise from the button. Stacks change
    by exactly those shares, and together the pots are the part of the
    commitments matched by a player still in the hand. *)
Theorem buildAndAwardPots_correct t :
  table_ok t → showable t →
  ∃ awards, buildAndAwardPots t = (Ok awards, credit (winnings awards) t) ∧
    pots_spec t (pot_levels t) 0 awards ∧
    sumZ pot_size awards =
      sumZ (λ p, Z.min (pl_hand_commitment p) (live_max t)) (players t) ∧
    sumZ (λ p, winnings awards (pl_id p)) (players t) = sumZ pot_size awards.
Proof.
  intros Hok Hs. destruct (buildAndAwardPots_ok t Hok Hs) as (awards & Heq & Hspec).
  exists awards. split_and!; [done..|by apply pots_paid|].
  eapply winnings_paid; [apply ok_ids, Hok|done].
Qed.

Lemma table_ok_board b t : table_ok t → table_ok (with_board b t).
Proof. intros Hok. apply (table_ok_same t); [done..|by left]. Qed.

Lemma all_evaluate t :
  forallb (λ p, match evaluateBest (player_cards t p) with Ok _ => true | _ => false end)
    (players t) = true → ∀ p, p ∈ players t → evaluates t p.
Proof.
  rw forallb_forall. intros Hall p Hp%list_elem_of_In. specialize (Hall p Hp).
  rw /evaluates /hand_value. by destruct (evaluateBest (player_cards t p)).
Qed.

(** The last table of a hand of [Demo.lobby] checked down to the river. *)
Definition river : Table :=
  with_board [mkCard 7 hearts; mkCard 9 spades; mkCard 10 hearts; mkCard 2 hearts; mkCard 3 spades]
    Demo.hand.

Lemma river_ok : table_ok river ∧ showable river.
Proof.
  assert (table_ok river) as Hok.
  { apply table_ok_board, hand_base. by destruct Demo.hand_awaiting. }
  split; [done|]. assert (∀ p, p ∈ players river → evaluates river p) as Hev.
  { apply all_evaluate. vm_compute. reflexivity. }
  intros p Hp _. exact (Hev p Hp).
Qed.

Lemma buildAndAwardPots_correct_witness :
  ∃ awards, buildAndAwardPots river = (Ok awards, credit (winnings awards) river) ∧
    pots_spec river (pot_levels river) 0 awards ∧
    sumZ pot_size awards =
      sumZ (λ p, Z.min (pl_hand_commitment p) (live_max river)) (players river) ∧
    sumZ (λ p, winnings awards (pl_id p)) (players river) = sumZ pot_size awards.
Proof. apply buildAndAwardPots_correct; apply river_ok. Defined.

(** ** The stalled hand *)

(** A stalled hand cannot be played on: every command is refused, no new
    hand starts, and nobody dealt in can leave. *)
Lemma stalled_is_stuck t :
  stalled t →
  (∀ cmd, ∃ r, act cmd t = (Ok r, t) ∧ res_error r = Error_not_players_turn) ∧
  (∀ deck, snd (startHand deck t) = t ∧ fst (startHand deck t) ≠ Ok Error_ok) ∧
  (∀ p, p ∈ players t → in_hand p = true → removePlayer (pl_id p) t = (Error_hand_in_progress, t)).
Proof.
  intros (Hok & Hs & _ & Hact & _). split_and!.
  - intros cmd. rw /act Hs /= Hact. by eexists.
  - intros deck. destruct (startHand_running deck t) as [[_ ->]|(e & -> & ?)]; [by rw Hs|done|].
    split; [done|]. by intros [= ->].
  - intros p Hp Hin. rw /removePlayer.
    destruct (findPlayer_is_Some t p) as (i & -> & _); [apply ok_ids, (hand_base t Hok)|done|].
    rw Hs /=. destruct (decide (pl_status p = Status_waiting)) as [Hw|Hw].
    + by rw /in_hand Hw in Hin.
    + by rw bool_decide_eq_false_2.
Qed.

Lemma stalled_is_stuck_witness :
  (∀ cmd, ∃ r, act cmd Demo.short_hand = (Ok r, Demo.short_hand) ∧
    res_error r = Error_not_players_turn) ∧
  (∀ deck, snd (startHand deck Demo.short_hand) = Demo.short_hand ∧
    fst (startHand deck Demo.short_hand) ≠ Ok Error_ok) ∧
  (∀ p, p ∈ players Demo.short_hand → in_hand p = true →
    removePlayer (pl_id p) Demo.short_hand = (Error_hand_in_progress, Demo.short_hand)).
Proof. apply stalled_is_stuck, Demo.short_stalled. Defined.

(** Such a hand exists: two ready players with 1000 and 80 chips and blinds
    of 50 and 100. The big blind is all in, the small blind owes 30 chips and is
    never asked. *)
Lemma short_big_blind_stalls :
  fst (startHand Demo.deck Demo.short_lobby) = Ok Error_ok ∧
  (let t := snd (startHand Demo.deck Demo.short_lobby) in
   street_ t = Street_preflop ∧ acting_seat_ t = None ∧ current_bet_ t = 80 ∧
   (pl_street_commitment <$> players t) = [50; 80] ∧
   (canAct <$> players t) = [true; false]).
Proof. vm_compute. split_and!; reflexivity. Qed.

(** Chips can disappear: two players who have put 500 each into the pot
    fold on the flop against two who are all in for 300, and the layer above 300
    is awarded to nobody. *)
Lemma folded_layer_loses_chips :
  totalChips (snd (startHand Demo.deck Demo.side_pot_lobby)) = 2600 ∧
  street_ Demo.side_pot_end = Street_settled ∧
  totalChips Demo.side_pot_end = 2200 ∧ dead_chips Demo.side_pot_end = 400.
Proof. vm_compute. split_and!; reflexivity. Qed.

(** ** Raising *)

Lemma act_switch_raises t seat p cmd t' :
  act_switch seat p cmd t = Applied t' → current_bet_ t < current_bet_ t' →
  ∃ target, t' = after_raise (minimum_raise_ t <=? target - current_bet_ t)
    (target - current_bet_ t) (pl_id p) (pay_and_bet seat p target t).
Proof.
  rw /act_switch. destruct (cmd_type cmd); simpl.
  - intros [= <-]. simpl. lia.
  - rw /act_check. case_match; [done|]. intros [= <-]. simpl. lia.
  - rw /act_call. case_match; [done|]. intros [= <-]. simpl. lia.
  - rw /act_bet. case_match eqn:E; [done|]. repeat (case_match; [done|]). intros [= <-] _.
    apply negb_false_iff, Z.eqb_eq in E. exists (cmd_amount cmd). by rw E Z.sub_0_r.
  - rw /act_raise. repeat (case_match; [done|]). intros [= <-] _. by eexists.
  - rw /act_all_in. case_match; [done|]. case_match.
    + intros [= <-]. simpl. lia.
    + case_match; [done|]. intros [= <-] _. by eexists.
Qed.

(** An accepted bet, raise or all-in that lifts the current bet by at least
    the minimum raise reopens the action for exactly the other players who can
    act, and sets the new minimum; one that lifts it by less lets nobody raise
    who could not raise before, and asks only those who owe chips. *)
Lemma raise_reopens t seat p cmd t' :
  act_switch seat p cmd t = Applied t' → current_bet_ t < current_bet_ t' →
  let size := current_bet_ t' - current_bet_ t in
  let others ok := ids_where (λ q, negb ((pl_id q =? pl_id p) || negb (canAct q)) && ok q) t' in
  if minimum_raise_ t <=? size
  then minimum_raise_ t' = size ∧ pending_action_ t' = others (λ _, true) ∧
       raise_allowed_ t' = others (λ _, true)
  else minimum_raise_ t' = minimum_raise_ t ∧
       raise_allowed_ t' = raise_allowed_ t ∖ {[pl_id p]} ∧
       pending_action_ t' = (pending_action_ t ∪
         others (λ q, pl_street_commitment q <? current_bet_ t')) ∖ {[pl_id p]}.
Proof.
  intros Hsw Hlt size others. destruct (act_switch_raises t seat p cmd t' Hsw Hlt) as [target Ht'].
  assert (current_bet_ t' = target) as Hbet
    by (rw Ht' /after_raise; by destruct (minimum_raise_ t <=? target - current_bet_ t)).
  assert (∀ ok, others ok = ids_where (λ q, negb ((pl_id q =? pl_id p) || negb (canAct q)) && ok q)
    (pay_and_bet seat p target t)) as Ho.
  { intros ok. rw /others /ids_where. do 2 f_equal. f_equal. apply players_seats.
    rw Ht' /after_raise. by destruct (minimum_raise_ t <=? target - current_bet_ t). }
  assert (∀ t0, ids_where (λ q, negb ((pl_id q =? pl_id p) || negb (canAct q)) && true) t0 =
    ids_where (λ q, negb ((pl_id q =? pl_id p) || negb (canAct q))) t0) as Htrue.
  { intros t0. rw /ids_where. do 2 f_equal. apply filter_ext. intros q. by rw andb_true_r. }
  rw /size Hbet !Ho Htrue Ht' /after_raise. by destruct (minimum_raise_ t <=? _).
Qed.

(** The small blind of [Demo.hand] raises to [amount]. *)
Definition raised (amount : Z) : Table :=
  match seat_at Demo.hand 0 with
  | Some p => match act_switch 0 p (mkCommand 10 Action_raise amount) Demo.hand with
              | Applied t => t
              | Refused _ _ => Demo.hand
              end
  | None => Demo.hand
  end.

Lemma raise_reopens_witness :
  ∃ p t', seat_at Demo.hand 0 = Some p ∧
    act_switch 0 p (mkCommand 10 Action_raise 300) Demo.hand = Applied t' ∧
    minimum_raise_ t' = 200 ∧
    pending_action_ t' =
      ids_where (λ q, negb ((pl_id q =? pl_id p) || negb (canAct q)) && true) t'.
Proof.
  assert (∃ p, seat_at Demo.hand 0 = Some p) as [p Hp].
  { apply (is_Some_alt (seat_at Demo.hand 0)). vm_compute. done. }
  exists p, (raised 300). split; [done|].
  assert (match seat_at Demo.hand 0 with
    | Some p => match act_switch 0 p (mkCommand 10 Action_raise 300) Demo.hand with
                | Applied t => bool_decide (current_bet_ t = 300 ∧ current_bet_ Demo.hand = 100 ∧
                                            minimum_raise_ Demo.hand = 100)
                | _ => false end
    | None => false end = true) as Hcheck by (vm_compute; reflexivity).
  rewrite /raised. rewrite Hp in Hcheck |- *.
  destruct (act_switch 0 p (mkCommand 10 Action_raise 300) Demo.hand) as [|t'] eqn:Hsw; [done|].
  apply bool_decide_eq_true in Hcheck as (H1 & H2 & H3). split; [done|].
  assert (current_bet_ Demo.hand < current_bet_ t') as Hlt by (rewrite H1 H2; reflexivity).
  pose proof (raise_reopens Demo.hand 0 p (mkCommand 10 Action_raise 300) t' Hsw Hlt) as Hr.
  cbv zeta in Hr. rewrite H1 H2 H3 in Hr. destruct Hr as (Hm & Hpend & _).
  split; [exact Hm|exact Hpend].
Defined.

(** ** What a snapshot shows *)

(** C38: until a hand is settled, a snapshot taken for one player is a function
    of the public state and that player's own cards: tables that differ only in
    the deck and in the cards of other players give the same snapshot. *)
Theorem snapshot_hides_cards t t' viewer f d :
  t' = with_deck d (map_players f t) →
  (∀ p, f p = if decide (viewer = Some (pl_id p)) then p
              else with_hole (pl_hole (f p)) (pl_has_hole p) p) →
  street_ t ≠ Street_settled →
  snapshot t' viewer = snapshot t viewer.
Proof.
  intros -> Hf Hs. set (t' := with_deck d (map_players f t)).
  assert (∀ p, pl_id (f p) = pl_id p) as Hid by (intros p; rw Hf; by case_decide).
  assert (∀ i, pl_id <$> seat_at t' i = pl_id <$> seat_at t i) as Hat.
  { intros i. rw (seat_at_seats (map_players f t)) // seat_at_map -option_fmap_compose.
    destruct (seat_at t i); [|done]. simpl. by rw Hid. }
  assert (players t' = f <$> players t) as Hpl by apply players_map.
  rw /snapshot. f_equal.
  - simpl. destruct (dealer_seat_ t); [|done]. apply Hat.
  - simpl. destruct (acting_seat_ t); [|done]. apply Hat.
  - simpl. rw !decide_False //. rw /potSize Hpl sumZ_fmap. apply sumZ_ext. intros p _. simpl.
    rw Hf. by case_decide.
  - rw Hpl -list_fmap_compose. apply list_fmap_ext. intros i p _. simpl.
    rw /player_view /=. rw (bool_decide_eq_false_2 (street_ t = _)) // Hid.
    rw Hf. case_decide as Hv; [done|]. by rw (bool_decide_eq_false_2 (viewer = _)) //= !andb_false_r.
Qed.

(** Everyone but player 10 holds other cards. *)
Definition recard (p : Player) : Player :=
  if decide (Some 10 = Some (pl_id p)) then p
  else with_hole (mkCard ace spades, mkCard ace hearts) (pl_has_hole p) p.

Lemma snapshot_hides_cards_witness :
  snapshot (with_deck None (map_players recard Demo.hand)) (Some 10) = snapshot Demo.hand (Some 10).
Proof.
  apply (snapshot_hides_cards Demo.hand _ (Some 10) recard None).
  - reflexivity.
  - intros p. rewrite /recard. destruct (decide (Some 10 = Some (pl_id p))); reflexivity.
  - destruct Demo.hand_street_fact as [-> _]. discriminate.
Defined.

(** ** Seating *)

(** [seatPlayer] accepts exactly the valid requests: a valid configuration,
    no running hand, a free seat in range, a new player and a buy-in within the
    limits. It then adds that player with that stack, and otherwise changes
    nothing. *)
Lemma seatPlayer_correct config t id seat buy_in :
  reachable config t →
  (seatPlayer id seat buy_in t = (Undef, t) ∧ ¬ blinds_fit (config_ t)) ∨
  ∃ e t', seatPlayer id seat buy_in t = (Ok e, t') ∧
  (e = Error_ok ↔ may_seat t id seat buy_in) ∧
  (e = Error_ok → players t' ≡ₚ Player_new id seat buy_in :: players t ∧
                  seat_at t' seat = Some (Player_new id seat buy_in) ∧
                  totalChips t' = totalChips t + buy_in) ∧
  (e ≠ Error_ok → t' = t).
Proof.
  intros Hr. pose proof (inv_table_ok t (reachable_inv config t Hr)) as Hok.
  destruct (seatPlayer_spec id seat buy_in t Hok) as [[Hu Hs]|(e & Heq & Hiff)]; [left|right].
  { split; [done|]. destruct (validateConfig_cases t) as [[_ ?]|[e ?]]; [done|congruence]. }
  eexists e, _. split; [exact Heq|]. set (t' := if decide _ then _ else _).
  assert (t' = if decide (e = Error_ok) then bump_sequence (set_seat seat (Player_new id seat buy_in) t) else t)
    as Hres by done. clearbody t'.
  split_and!; [by rw Hiff| |].
  - intros He. rw decide_True // in Hres. apply Hiff in He as [_ _ Hr' Hnew Hfree _].
    assert (seat < length (seats_ t))%nat as Hlt by by rw (ok_length t Hok).
    assert (seats_ t !! seat = Some None) as Hnone.
    { destruct (lookup_lt_is_Some_2 _ _ Hlt) as [[p|] Hl]; [|done]. by rw /seat_at Hl in Hfree. }
    assert (players t' ≡ₚ Player_new id seat buy_in :: players t) as Hp.
    { rw Hres. apply (players_insert_Permutation t seat _ Hnone). }
    split_and!; [done| |].
    + rw Hres (seat_at_seats (set_seat seat (Player_new id seat buy_in) t)) // seat_at_set_seat //.
      by rw decide_True.
    + rw /totalChips Hp /= Hres /=. destruct (decide (street_ t = Street_settled)); lia.
  - intros He. by rw decide_False in Hres.
Qed.

Lemma seatPlayer_correct_witness :
  reachable Demo.config Demo.lobby ∧
  ((seatPlayer 12 2 500 Demo.lobby = (Undef, Demo.lobby) ∧ ¬ blinds_fit (config_ Demo.lobby)) ∨
  ∃ e t', seatPlayer 12 2 500 Demo.lobby = (Ok e, t') ∧
  (e = Error_ok ↔ may_seat Demo.lobby 12 2 500) ∧
  (e = Error_ok → players t' ≡ₚ Player_new 12 2 500 :: players Demo.lobby ∧
                  seat_at t' 2 = Some (Player_new 12 2 500) ∧
                  totalChips t' = totalChips Demo.lobby + 500) ∧
  (e ≠ Error_ok → t' = Demo.lobby)).
Proof.
  split; [apply Demo.lobby_reachable|].
  apply (seatPlayer_correct Demo.config Demo.lobby 12 2 500), Demo.lobby_reachable.
Defined.

(** ** Chip arithmetic stays in range *)

Lemma stake_le_total t p :
  table_ok t → street_ t ≠ Street_settled → p ∈ players t → stake p ≤ totalChips t.
Proof.
  intros Hok Hs Hp. rw totalChips_running //. apply (sumZ_elem_le stake); [|done].
  intros q Hq. destruct (ok_chips t Hok q Hq). rw /stake. lia.
Qed.

(** C39: chips are 64-bit signed in the code. When the chips on a reachable table
    fit, every number the betting code forms from a player during a hand fits:
    stack, commitments, the amount available, the pot, and the stack with the
    whole pot added. *)
Theorem chips_in_range config t p :
  reachable config t → handIsRunning (street_ t) = true → totalChips t ≤ i64_max →
  p ∈ players t →
  fits_i64 (pl_stack p) ∧ fits_i64 (pl_street_commitment p) ∧ fits_i64 (pl_hand_commitment p) ∧
  fits_i64 (pl_street_commitment p + pl_stack p) ∧ fits_i64 (potSize t) ∧
  fits_i64 (pl_stack p + potSize t).
Proof.
  intros Hr Hrun Hmax Hp. pose proof (reachable_inv config t Hr) as Hinv.
  pose proof (inv_table_ok t Hinv) as Hok.
  assert (street_ t ≠ Street_settled) as Hs by (intros Hs; by rw Hs in Hrun).
  pose proof (stake_le_total t p Hok Hs Hp) as Hle. rw /stake in Hle.
  destruct (ok_chips t Hok p Hp) as [? ?].
  assert (∀ q, q ∈ players t → 0 ≤ pl_hand_commitment q) as Hnn.
  { intros q Hq. destruct (ok_chips t Hok q Hq). lia. }
  assert (0 ≤ potSize t) by by apply sumZ_nonneg.
  assert (pl_stack p + potSize t ≤ totalChips t) as Hpot.
  { rw totalChips_running // /stake sumZ_add /potSize.
    assert (pl_stack p ≤ sumZ pl_stack (players t)); [|lia].
    apply (sumZ_elem_le pl_stack); [|done]. intros q Hq. by destruct (ok_chips t Hok q Hq). }
  rw /fits_i64 /i64_min. lia.
Qed.

Lemma chips_in_range_witness :
  ∃ p, p ∈ players Demo.hand ∧ fits_i64 (pl_stack p) ∧ fits_i64 (pl_street_commitment p) ∧
  fits_i64 (pl_hand_commitment p) ∧
  fits_i64 (pl_street_commitment p + pl_stack p) ∧ fits_i64 (potSize Demo.hand) ∧
  fits_i64 (pl_stack p + potSize Demo.hand).
Proof.
  assert (∃ p, p ∈ players Demo.hand) as [p Hp].
  { destruct Demo.hand_awaiting as (_ & _ & _ & i & p & _ & Hp & _). exists p.
    apply elem_of_players. by exists i. }
  exists p. split; [exact Hp|].
  apply (chips_in_range Demo.config); [apply Demo.hand_reachable| | |exact Hp].
  - destruct Demo.hand_street_fact as [-> _]. reflexivity.
  - apply Z.leb_le. vm_compute. reflexivity.
Defined.
