(* ===== verification/AccountStore.v ===== *)
(** * Accounts and sessions

    Model of [include/poker/storage/account_store.hpp] (the interface and its
    data) and of [in_memory_account_store.hpp/.cpp] (the implementation). The
    interface is a class of operations and a class of the laws clients rely on;
    the in-memory store is an instance of both. Each operation runs under the
    store's mutex and is one step. *)
From S2P Require Import Prelude.

Notation UserId := Z (only parsing).

(** ** Data *)

Inductive StorageError :=
  | Storage_ok
  | Storage_duplicate
  | Storage_not_found
  | Storage_insufficient_funds
  | Storage_conflict
  | Storage_unavailable
  | Storage_invalid_data.

#[export] Instance StorageError_eq_dec : EqDecision StorageError.
Proof. solve_decision. Defined.

Record StorageResult (T : Type) := mkStorageResult {
  sr_error : StorageError;
  sr_value : option T;
  sr_message : string;
}.
Arguments mkStorageResult {T}.
Arguments sr_error {T}.
Arguments sr_value {T}.
Arguments sr_message {T}.

(** [explicit operator bool] *)
Definition sr_bool {T} (r : StorageResult T) : bool :=
  bool_decide (sr_error r = Storage_ok) && bool_decide (is_Some (sr_value r)).

Definition sr_ok {T} (v : T) : StorageResult T := mkStorageResult Storage_ok (Some v) "".
Definition sr_fail {T} (e : StorageError) (message : string) : StorageResult T :=
  mkStorageResult e None message.

Record UserRecord := mkUser {
  user_id : UserId;
  username : string;
  password_hash : string;
  wallet_balance : Z;
  disabled : bool;
}.

Record SessionRecord := mkSession {
  session_user : UserId;
  token_hash : string;
  expires_at : Z;
  last_client_sequence : Z;
  revoked : bool;
}.

(** ** The interface *)

Class AccountStore (S : Type) := {
  createUser : string → string → Z → S → StorageResult UserRecord * S;
  findUserByName : string → S → StorageResult UserRecord * S;
  findUserById : UserId → S → StorageResult UserRecord * S;
  storeSession : SessionRecord → S → StorageError * S;
  findSession : string → Z → S → StorageResult SessionRecord * S;
  rotateSession : string → SessionRecord → Z → S → StorageError * S;
  revokeSession : string → S → StorageError * S;
  updateSessionSequence : string → Z → Z → S → StorageError * S;
}.

(** A session that a lookup at the given time may return. *)
Definition live (now : Z) (s : SessionRecord) : bool :=
  negb (revoked s) && (now <? expires_at s).

(** What a lookup answers. *)
Definition userByName {S} `{!AccountStore S} (name : string) (s : S) := (findUserByName name s).1.
Definition userById {S} `{!AccountStore S} (id : UserId) (s : S) := (findUserById id s).1.
Definition sessionUnder {S} `{!AccountStore S} (hash : string) (now : Z) (s : S) := (findSession hash now s).1.

(** What clients rely on of a store whose lookups leave it as it is. [known] is a user id the store can attach sessions
    to, [free] a token hash it has no session for, [has_ids] that user ids are
    left. *)
Class AccountStoreLaws (S : Type) `{!AccountStore S} := {
  store_inv : S → Prop;
  known : UserId → S → Prop;
  free : string → S → Prop;
  has_ids : S → Prop;
  lookups : ∀ s, (∀ name, (findUserByName name s).2 = s) ∧ (∀ i, (findUserById i s).2 = s) ∧
    (∀ h now, (findSession h now s).2 = s);
  createUser_law : ∀ name hash chips s r s', store_inv s → has_ids s →
    createUser name hash chips s = (r, s') →
    store_inv s' ∧
    (∀ i u, userById i s = sr_ok u → userById i s' = sr_ok u) ∧
    (∀ h, free h s → free h s') ∧
    (sr_bool r = true → ∃ u, r = sr_ok u ∧ username u = name ∧ password_hash u = hash ∧
       wallet_balance u = chips ∧ disabled u = false ∧ known (user_id u) s' ∧ user_id u ≠ 0 ∧
       userByName name s' = sr_ok u);
  findUser_law : ∀ name s u, store_inv s → sr_value (userByName name s) = Some u →
    userByName name s = sr_ok u ∧ userById (user_id u) s = sr_ok u ∧ username u = name;
  findUserById_law : ∀ i s u, store_inv s → sr_value (userById i s) = Some u →
    userById i s = sr_ok u ∧ user_id u = i;
  storeSession_law : ∀ x s e s', store_inv s → storeSession x s = (e, s') →
    store_inv s' ∧ (∀ i, userById i s' = userById i s) ∧
    (known (session_user x) s → session_user x ≠ 0 → token_hash x ≠ ""%string →
       0 < expires_at x → free (token_hash x) s → e = Storage_ok) ∧
    (e = Storage_ok → ∀ now, live now x = true → sessionUnder (token_hash x) now s' = sr_ok x);
  findSession_law : ∀ h now s x, store_inv s → sr_value (sessionUnder h now s) = Some x →
    sessionUnder h now s = sr_ok x ∧ token_hash x = h ∧ live now x = true;
  rotateSession_law : ∀ h x now s e s', store_inv s → rotateSession h x now s = (e, s') →
    store_inv s' ∧ (∀ i, userById i s' = userById i s) ∧
    (e = Storage_ok →
       (∀ now', live now' x = true → sessionUnder (token_hash x) now' s' = sr_ok x) ∧
       (token_hash x ≠ h → ∀ now', sr_value (sessionUnder h now' s') = None));
  revokeSession_law : ∀ h s e s', store_inv s → revokeSession h s = (e, s') →
    store_inv s' ∧ (∀ i, userById i s' = userById i s) ∧
    (e ≠ Storage_unavailable → ∀ now, sr_value (sessionUnder h now s') = None);
}.

(** ** The in-memory store *)

Record InMemoryAccountStore := mkAccounts {
  next_user_id : UserId;
  users : gmap Z UserRecord;
  usernames : gmap string Z;
  sessions : gmap string SessionRecord;
}.

Definition Accounts_new : InMemoryAccountStore := mkAccounts 1 ∅ ∅ ∅.

Definition with_sessions (m : gmap string SessionRecord) (s : InMemoryAccountStore) :=
  mkAccounts (next_user_id s) (users s) (usernames s) m.

Definition mem_createUser (name hash : string) (initial_chips : Z) (s : InMemoryAccountStore)
    : StorageResult UserRecord * InMemoryAccountStore :=
  if bool_decide (name = ""%string) || bool_decide (hash = ""%string) || (initial_chips <? 0)
  then (sr_fail Storage_invalid_data "invalid account data", s)
  else if bool_decide (is_Some (usernames s !! name))
  then (sr_fail Storage_duplicate "username already exists", s)
  else
    let record := mkUser (next_user_id s) name hash initial_chips false in
    (sr_ok record,
     mkAccounts (u64_succ (next_user_id s))
       (if users s !! user_id record then users s else <[user_id record := record]> (users s))
       (<[name := user_id record]> (usernames s)) (sessions s)).

(** [users_.at] throws when the id is unknown; names always lead to a user
    (see [accounts_inv]). *)
Definition mem_findUserByName (name : string) (s : InMemoryAccountStore) : StorageResult UserRecord :=
  match usernames s !! name with
  | None => sr_fail Storage_not_found "user not found"
  | Some id => mkStorageResult Storage_ok (users s !! id) ""
  end.

Definition mem_findUserById (id : UserId) (s : InMemoryAccountStore) : StorageResult UserRecord :=
  match users s !! id with
  | None => sr_fail Storage_not_found "user not found"
  | Some u => sr_ok u
  end.

Definition mem_storeSession (session : SessionRecord) (s : InMemoryAccountStore)
    : StorageError * InMemoryAccountStore :=
  if (session_user session =? 0) || bool_decide (token_hash session = ""%string)
     || (expires_at session <=? 0)
  then (Storage_invalid_data, s)
  else if negb (bool_decide (is_Some (users s !! session_user session)))
  then (Storage_not_found, s)
  else if bool_decide (is_Some (sessions s !! token_hash session))
  then (Storage_conflict, s)
  else (Storage_ok, with_sessions (<[token_hash session := session]> (sessions s)) s).

Definition mem_findSession (hash : string) (now : Z) (s : InMemoryAccountStore)
    : StorageResult SessionRecord :=
  match sessions s !! hash with
  | None => sr_fail Storage_not_found "session not found or expired"
  | Some x => if revoked x || (expires_at x <=? now)
              then sr_fail Storage_not_found "session not found or expired" else sr_ok x
  end.

Definition mem_rotateSession (current : string) (replacement : SessionRecord) (now : Z)
    (s : InMemoryAccountStore) : StorageError * InMemoryAccountStore :=
  if (session_user replacement =? 0) || bool_decide (token_hash replacement = ""%string)
     || (expires_at replacement <=? now)
  then (Storage_invalid_data, s)
  else match sessions s !! current with
  | None => (Storage_not_found, s)
  | Some x =>
      if revoked x || (expires_at x <=? now)
         || negb (session_user x =? session_user replacement)
      then (Storage_not_found, s)
      else if negb (bool_decide (token_hash replacement = current))
              && bool_decide (is_Some (sessions s !! token_hash replacement))
      then (Storage_conflict, s)
      else
        let m := <[token_hash replacement := replacement]> (sessions s) in
        (Storage_ok, with_sessions (if bool_decide (token_hash replacement = current) then m
                                    else delete current m) s)
  end.

Definition revoke (x : SessionRecord) : SessionRecord :=
  mkSession (session_user x) (token_hash x) (expires_at x) (last_client_sequence x) true.

Definition mem_revokeSession (hash : string) (s : InMemoryAccountStore)
    : StorageError * InMemoryAccountStore :=
  match sessions s !! hash with
  | None => (Storage_not_found, s)
  | Some x => (Storage_ok, with_sessions (<[hash := revoke x]> (sessions s)) s)
  end.

Definition mem_updateSessionSequence (hash : string) (expected replacement : Z)
    (s : InMemoryAccountStore) : StorageError * InMemoryAccountStore :=
  match sessions s !! hash with
  | None => (Storage_not_found, s)
  | Some x =>
      if revoked x then (Storage_not_found, s)
      else if negb (last_client_sequence x =? expected) || negb (replacement =? u64_succ expected)
      then (Storage_conflict, s)
      else (Storage_ok, with_sessions (<[hash := mkSession (session_user x) (token_hash x)
              (expires_at x) replacement (revoked x)]> (sessions s)) s)
  end.

#[export] Instance mem_account_store : AccountStore InMemoryAccountStore := {
  createUser := mem_createUser;
  findUserByName name s := (mem_findUserByName name s, s);
  findUserById id s := (mem_findUserById id s, s);
  storeSession := mem_storeSession;
  findSession hash now s := (mem_findSession hash now s, s);
  rotateSession := mem_rotateSession;
  revokeSession := mem_revokeSession;
  updateSessionSequence := mem_updateSessionSequence;
}.

(** ** The invariant and the laws *)

Record accounts_inv (s : InMemoryAccountStore) : Prop := {
  acc_next : 0 < next_user_id s ≤ u64_max;
  acc_users : ∀ i u, users s !! i = Some u → user_id u = i ∧ 0 < i < next_user_id s;
  acc_names : ∀ n i, usernames s !! n = Some i → ∃ u, users s !! i = Some u ∧ username u = n;
  acc_sessions : ∀ h x, sessions s !! h = Some x → token_hash x = h;
}.

Lemma accounts_inv_new : accounts_inv Accounts_new.
Proof. split; [done|intros ??; rw lookup_empty //..]. Qed.

Lemma accounts_inv_sessions m s :
  accounts_inv s → (∀ h x, m !! h = Some x → token_hash x = h) →
  accounts_inv (with_sessions m s).
Proof. by intros []. Qed.

Lemma accounts_next_fresh s : accounts_inv s → users s !! next_user_id s = None.
Proof.
  intros H. destruct (users s !! _) as [u|] eqn:Hu; [|done].
  destruct (acc_users s H _ _ Hu). lia.
Qed.

Lemma live_alt now x : live now x = negb (revoked x || (expires_at x <=? now)).
Proof. rw /live negb_orb. f_equal. by rw Z.ltb_antisym. Qed.

Lemma mem_createUser_law name hash chips s r s' :
  accounts_inv s → next_user_id s < u64_max → mem_createUser name hash chips s = (r, s') →
  accounts_inv s' ∧
  (∀ i u, mem_findUserById i s = sr_ok u → mem_findUserById i s' = sr_ok u) ∧
  (∀ h, sessions s !! h = None → sessions s' !! h = None) ∧
  (sr_bool r = true → ∃ u, r = sr_ok u ∧ username u = name ∧ password_hash u = hash ∧
     wallet_balance u = chips ∧ disabled u = false ∧ is_Some (users s' !! user_id u) ∧
     user_id u ≠ 0 ∧
     mem_findUserByName name s' = sr_ok u).
Proof.
  intros Hs Hroom. rw /mem_createUser.
  case_match; [by intros [= <- <-]|]. case_match; [by intros [= <- <-]|].
  pose proof (accounts_next_fresh s Hs) as Hfresh.
  cbn [user_id]. rw Hfresh. intros [= <- <-]. destruct Hs as [Hn Hu Hnm Hse].
  assert (u64_succ (next_user_id s) = next_user_id s + 1) as Hsucc.
  { apply u64_small. rw /fits_u64. lia. }
  split_and!.
  - split; cbn [next_user_id users usernames sessions]; rw ?Hsucc; [lia| | |done].
    + intros i u. rw lookup_insert_Some. intros [[<- <-]|[? Hi]]; [cbn; split; [done|lia]|].
      destruct (Hu i u Hi). split; [done|lia].
    + intros n i. rw lookup_insert_Some. intros [[<- <-]|[? Hi]].
      * eexists. by rw lookup_insert_eq.
      * destruct (Hnm n i Hi) as (u & Hui & ?). exists u. split; [|done].
        rw lookup_insert_ne //. intros <-. by rw Hfresh in Hui.
  - intros i u. rw /mem_findUserById. cbn. destruct (users s !! i) as [u'|] eqn:Hi; [|done].
    rw lookup_insert_ne; [intros <-; by rw Hfresh in Hi|]. by rw Hi.
  - done.
  - intros _. eexists. split_and!; try done; cbn.
    + rw lookup_insert_eq. by eexists.
    + lia.
    + rw /mem_findUserByName. cbn. by rw !lookup_insert_eq.
Qed.

Lemma mem_findUser_law name s u :
  accounts_inv s → sr_value (mem_findUserByName name s) = Some u →
  mem_findUserByName name s = sr_ok u ∧ mem_findUserById (user_id u) s = sr_ok u ∧
  username u = name.
Proof.
  intros Hs. rw /mem_findUserByName /mem_findUserById.
  destruct (usernames s !! name) as [i|] eqn:Hi; [|done]. cbn. intros Hu.
  destruct (acc_users s Hs i u Hu) as [-> _].
  destruct (acc_names s Hs name i Hi) as (u' & Hu' & ?). rw Hu. by simplify_eq.
Qed.

Lemma mem_findSession_live h now s x :
  sessions s !! h = Some x → live now x = true → mem_findSession h now s = sr_ok x.
Proof.
  intros Hx Hl. rw /mem_findSession Hx. rw live_alt in Hl.
  by destruct (revoked x || _).
Qed.

Lemma mem_storeSession_law x s e s' :
  accounts_inv s → mem_storeSession x s = (e, s') →
  accounts_inv s' ∧ (∀ i, mem_findUserById i s' = mem_findUserById i s) ∧
  (is_Some (users s !! session_user x) → session_user x ≠ 0 → token_hash x ≠ ""%string →
     0 < expires_at x → sessions s !! token_hash x = None → e = Storage_ok) ∧
  (e = Storage_ok → ∀ now, live now x = true → mem_findSession (token_hash x) now s' = sr_ok x).
Proof.
  intros Hs. rw /mem_storeSession. destruct (_ || _ || _) eqn:Hbad.
  { intros [= <- <-]. split_and!; [done..| |done]. intros _ ???.
    apply orb_true_iff in Hbad as [Hbad|?]; [|lia].
    apply orb_true_iff in Hbad as [?|Hbad]; [lia|]. by apply bool_decide_eq_true in Hbad. }
  clear Hbad. case_bool_decide as Hk; cbn [negb]; [|by intros [= <- <-]].
  case_bool_decide as Hf.
  { intros [= <- <-]. split_and!; [done..| |done]. intros _ _ _ _ Hn. rw Hn in Hf. by destruct Hf. }
  intros [= <- <-]. split_and!; [|done..|].
  - apply accounts_inv_sessions; [done|]. intros h y.
    rw lookup_insert_Some. intros [[<- <-]|[? Hy]]; [done|]. by apply (acc_sessions s Hs).
  - intros _ now Hl. apply mem_findSession_live; [|done]. cbn. by rw lookup_insert_eq.
Qed.

Lemma mem_rotateSession_law h x now s e s' :
  accounts_inv s → mem_rotateSession h x now s = (e, s') →
  accounts_inv s' ∧ (∀ i, mem_findUserById i s' = mem_findUserById i s) ∧
  (e = Storage_ok →
     (∀ now', live now' x = true → mem_findSession (token_hash x) now' s' = sr_ok x) ∧
     (token_hash x ≠ h → ∀ now', sr_value (mem_findSession h now' s') = None)).
Proof.
  intros Hs. rw /mem_rotateSession. destruct (_ || _ || _); [by intros [= <- <-]|].
  destruct (sessions s !! h) as [y|]; [|by intros [= <- <-]].
  destruct (_ || _ || _); [by intros [= <- <-]|].
  destruct (negb _ && _); [by intros [= <- <-]|].
  intros [= <- <-]. split_and!; [|done|].
  - apply accounts_inv_sessions; [done|]. intros k z.
    case_bool_decide; rw ?lookup_delete_Some lookup_insert_Some;
      [intros [[<- <-]|[? Hz]]|intros [? [[<- <-]|[? Hz]]]]; try done; by apply (acc_sessions s Hs _ _ Hz).
  - intros _. split.
    + intros now' Hl. apply mem_findSession_live; [|done]. cbn.
      case_bool_decide; [|rw lookup_delete_ne //]; by rw lookup_insert_eq.
    + intros Hne now'. rw /mem_findSession. cbn. rw bool_decide_eq_false_2 //.
      by rw lookup_delete_eq.
Qed.

Lemma mem_revokeSession_law h s e s' :
  accounts_inv s → mem_revokeSession h s = (e, s') →
  accounts_inv s' ∧ (∀ i, mem_findUserById i s' = mem_findUserById i s) ∧
  (e ≠ Storage_unavailable → ∀ now, sr_value (mem_findSession h now s') = None).
Proof.
  intros Hs. rw /mem_revokeSession. destruct (sessions s !! h) as [x|] eqn:Hx; intros [= <- <-].
  - split_and!; [|done|].
    + apply accounts_inv_sessions; [done|]. intros k z.
      rw lookup_insert_Some. intros [[<- <-]|[? Hz]];
        [exact (acc_sessions s Hs _ _ Hx)|exact (acc_sessions s Hs _ _ Hz)].
    + intros _ now. rw /mem_findSession. cbn. by rw lookup_insert_eq.
  - split_and!; [done..|]. intros _ now. by rw /mem_findSession Hx.
Qed.

#[export] Program Instance mem_account_laws : AccountStoreLaws InMemoryAccountStore := {
  store_inv := accounts_inv;
  known := λ i s, is_Some (users s !! i);
  free := λ h s, sessions s !! h = None;
  has_ids := λ s, next_user_id s < u64_max;
  createUser_law := mem_createUser_law;
  findUser_law := mem_findUser_law;
  storeSession_law := mem_storeSession_law;
  rotateSession_law := mem_rotateSession_law;
  revokeSession_law := mem_revokeSession_law;
}.
Next Obligation. done. Qed.
Next Obligation.
  intros i s u Hs. rw /userById /=. rw /mem_findUserById.
  destruct (users s !! i) as [v|] eqn:Hv; cbn; [|done]. intros [= ->].
  by destruct (acc_users s Hs i u Hv).
Qed.
Next Obligation.
  intros h now s x Hs. rw /sessionUnder /=. rw /mem_findSession.
  destruct (sessions s !! h) as [y|] eqn:Hy; [|done].
  destruct (revoked y || _) eqn:Hr; [done|]. intros [= ->]. split_and!; [done| |].
  - by apply (acc_sessions s Hs).
  - by rw live_alt Hr.
Qed.

(** ** Client sequence numbers *)

(** The stored sequence number advances by one per accepted update and is
    otherwise left alone: an update is a compare-and-set. *)
Lemma mem_updateSessionSequence_spec h expected replacement s :
  mem_updateSessionSequence h expected replacement s =
  match sessions s !! h with
  | Some x =>
      if bool_decide (revoked x = false ∧ last_client_sequence x = expected ∧
                      replacement = u64_succ expected)
      then (Storage_ok, with_sessions (<[h := mkSession (session_user x) (token_hash x)
             (expires_at x) replacement false]> (sessions s)) s)
      else (if revoked x then Storage_not_found else Storage_conflict, s)
  | None => (Storage_not_found, s)
  end.
Proof.
  rw /mem_updateSessionSequence. destruct (sessions s !! h) as [x|]; [|done].
  destruct (revoked x); [by rw bool_decide_eq_false_2; naive_solver|].
  destruct (Z.eqb_spec (last_client_sequence x) expected);
    [destruct (Z.eqb_spec replacement (u64_succ expected))|]; cbn [negb orb];
    case_bool_decide; naive_solver.
Qed.
