(* ===== verification/Auth.v ===== *)
(** * The authentication service

    Model of [include/poker/security/auth_service.hpp],
    [crypto_provider.hpp] and [src/poker/security/auth_service.cpp], over any
    account store and any cryptography provider: both are interfaces of the
    source and classes here. The state of a call is the pair of the store and
    the provider's own state (its source of randomness). *)
From stdpp Require Import pretty.
From S2P Require Import Prelude AccountStore.

(** ** Data *)

Inductive AuthError :=
  | Auth_ok
  | Auth_invalid_username
  | Auth_weak_password
  | Auth_username_taken
  | Auth_invalid_credentials
  | Auth_account_disabled
  | Auth_invalid_session
  | Auth_storage_unavailable.

#[export] Instance AuthError_eq_dec : EqDecision AuthError.
Proof. solve_decision. Defined.

Record AuthenticatedSession := mkAuthenticated {
  as_user_id : Z;
  as_username : string;
  as_raw_token : string;
  as_wallet_balance : Z;
  as_expires_at : Z;
  as_last_client_sequence : Z;
}.

Record AuthResult (T : Type) := mkAuthResult {
  ar_error : AuthError;
  ar_value : option T;
  ar_message : string;
}.
Arguments mkAuthResult {T}.
Arguments ar_error {T}.
Arguments ar_value {T}.
Arguments ar_message {T}.

(** [explicit operator bool] *)
Definition ar_bool {T} (r : AuthResult T) : bool :=
  bool_decide (ar_error r = Auth_ok) && bool_decide (is_Some (ar_value r)).

Definition auth_ok {T} (v : T) : AuthResult T := mkAuthResult Auth_ok (Some v) "".
Definition auth_fail {T} (e : AuthError) (message : string) : AuthResult T :=
  mkAuthResult e None message.

Definition AuthError_toString (e : AuthError) : string :=
  match e with
  | Auth_ok => "ok"
  | Auth_invalid_username => "invalid username"
  | Auth_weak_password => "weak password"
  | Auth_username_taken => "username taken"
  | Auth_invalid_credentials => "invalid credentials"
  | Auth_account_disabled => "account disabled"
  | Auth_invalid_session => "invalid session"
  | Auth_storage_unavailable => "storage unavailable"
  end.

(** ** Input checks *)

(** [std::isalnum] in the "C" locale. *)
Definition isalnum (c : Ascii.ascii) : bool :=
  let v := Ascii.nat_of_ascii c in
  ((48 <=? v) && (v <=? 57) || (65 <=? v) && (v <=? 90) || (97 <=? v) && (v <=? 122))%nat.

Definition validUsername (name : string) : bool :=
  if ((String.length name <? 3) || (32 <? String.length name))%nat then false
  else forallb (λ c, isalnum c || (Ascii.nat_of_ascii c =? 95)%nat) (String.list_ascii_of_string name).

Definition validPassword (password : string) : bool :=
  ((10 <=? String.length password) && (String.length password <=? 128))%nat.

(** ** The provider *)

(** [hashPassword] may throw. *)
Class CryptoProvider (C : Type) := {
  hashPassword : string → C → result string * C;
  verifyPassword : string → string → bool;
  generateSessionToken : C → string * C;
  hashSessionToken : string → string;
}.

(** What the service expects of a provider. *)
Class CryptoLaws (C : Type) `{!CryptoProvider C} := {
  verify_hashed : ∀ p c h c', hashPassword p c = (Ok h, c') → verifyPassword p h = true;
  token_nonempty : ∀ c, fst (generateSessionToken c) ≠ ""%string;
  hash_nonempty : ∀ t, hashSessionToken t ≠ ""%string;
}.

(** That the passwords the service accepts are hashed: there is memory for it. *)
Class CryptoReturns (C : Type) `{!CryptoProvider C} :=
  hash_returns : ∀ p c, validPassword p = true → ∃ h c', hashPassword p c = (Ok h, c').

(** ** The service *)

Record AuthService := mkAuthService {
  session_ttl_seconds : Z;
  initial_chips : Z;
  dummy_password_hash : string;
}.

(** [now_unix_ms + static_cast<std::int64_t>(session_ttl_seconds_) * 1000]:
    signed overflow is undefined behaviour. *)
Definition session_expiry (svc : AuthService) (now : Z) : result Z :=
  let e := now + session_ttl_seconds svc * 1000 in
  if bool_decide (e ≤ i64_max) then Ok e else Undef.

Section service.
  Context {S C : Type} `{!AccountStore S, !CryptoProvider C}.
  Implicit Types (svc : AuthService) (st : S * C).

(** Calls of the two collaborators, as methods on the pair of their states. *)
Definition on_store {A} (f : S → A * S) : M (S * C) A :=
  λ st, let '(a, s') := f st.1 in (Ok a, (s', st.2)).
Definition on_crypto {A} (f : C → A * C) : M (S * C) A :=
  λ st, let '(a, c') := f st.2 in (Ok a, (st.1, c')).
Definition call_crypto {A} (f : C → result A * C) : M (S * C) A :=
  λ st, let '(r, c') := f st.2 in (r, (st.1, c')).

(** The constructor hashes the dummy password used for unknown users. *)
Definition AuthService_new (ttl chips : Z) : M (S * C) AuthService :=
  dummy ← call_crypto (hashPassword "not-a-real-user-password");
  mret (mkAuthService ttl chips dummy).

Definition registerUser svc (name password : string) : M (S * C) (AuthResult UserRecord) :=
  if negb (validUsername name) then
    mret (auth_fail Auth_invalid_username
            "username must be 3-32 ASCII letters, digits, or underscores")
  else if negb (validPassword password) then
    mret (auth_fail Auth_weak_password "password must contain 10-128 characters")
  else
    hash ← call_crypto (hashPassword password);
    created ← on_store (createUser name hash (initial_chips svc));
    mret (match sr_bool created, sr_value created with
          | true, Some u => auth_ok u
          | _, _ =>
              if bool_decide (sr_error created = Storage_duplicate)
              then auth_fail Auth_username_taken "username already exists"
              else auth_fail Auth_storage_unavailable (sr_message created)
          end).

(** The record of a storage result that converts to [true]. *)
Definition sr_get {T} (r : StorageResult T) : option T :=
  if sr_bool r then sr_value r else None.
Definition ar_get {T} (r : AuthResult T) : option T :=
  if ar_bool r then ar_value r else None.

Definition login svc (name password : string) (now : Z) : M (S * C) (AuthResult AuthenticatedSession) :=
  user ← on_store (findUserByName name);
  let encoded_hash := match sr_get user with
                      | Some u => password_hash u
                      | None => dummy_password_hash svc end in
  let password_matches := verifyPassword password encoded_hash in
  match sr_get user, password_matches with
  | Some u, true =>
      if disabled u then mret (auth_fail Auth_account_disabled "account is disabled")
      else
        raw_token ← on_crypto generateSessionToken;
        expires ← mlift (session_expiry svc now);
        stored ← on_store (storeSession
          (mkSession (user_id u) (hashSessionToken raw_token) expires 0 false));
        if bool_decide (stored = Storage_ok)
        then mret (auth_ok (mkAuthenticated (user_id u) (username u) raw_token
                              (wallet_balance u) expires 0))
        else mret (auth_fail Auth_storage_unavailable "could not create session")
  | _, _ =>
      mret (auth_fail (if bool_decide (sr_error user = Storage_unavailable)
                       then Auth_storage_unavailable else Auth_invalid_credentials)
              "invalid username or password")
  end.

Definition authenticate (raw_token : string) (now : Z) : M (S * C) (AuthResult AuthenticatedSession) :=
  if bool_decide (raw_token = ""%string)
  then mret (auth_fail Auth_invalid_session "session token is required")
  else
    session ← on_store (findSession (hashSessionToken raw_token) now);
    match sr_get session with
    | None =>
        mret (auth_fail (if bool_decide (sr_error session = Storage_unavailable)
                         then Auth_storage_unavailable else Auth_invalid_session)
                (sr_message session))
    | Some x =>
        user ← on_store (findUserById (session_user x));
        match sr_get user with
        | Some u =>
            if disabled u
            then mret (auth_fail Auth_invalid_session "session user is unavailable")
            else mret (auth_ok (mkAuthenticated (user_id u) (username u) "" (wallet_balance u)
                                  (expires_at x) (last_client_sequence x)))
        | None => mret (auth_fail Auth_invalid_session "session user is unavailable")
        end
    end.

Definition refresh svc (raw_token : string) (now : Z) : M (S * C) (AuthResult AuthenticatedSession) :=
  authenticated ← authenticate raw_token now;
  match ar_get authenticated with
  | None => mret authenticated
  | Some a =>
      new_raw_token ← on_crypto generateSessionToken;
      expires ← mlift (session_expiry svc now);
      let replacement := mkSession (as_user_id a) (hashSessionToken new_raw_token) expires
                           (as_last_client_sequence a) false in
      rotated ← on_store (rotateSession (hashSessionToken raw_token) replacement now);
      if bool_decide (rotated = Storage_ok)
      then mret (auth_ok (mkAuthenticated (as_user_id a) (as_username a) new_raw_token
                            (as_wallet_balance a) expires (as_last_client_sequence a)))
      else mret (auth_fail (if bool_decide (rotated = Storage_unavailable)
                            then Auth_storage_unavailable else Auth_invalid_session)
                   "session could not be refreshed")
  end.

Definition logout (raw_token : string) : M (S * C) AuthError :=
  if bool_decide (raw_token = ""%string) then mret Auth_invalid_session
  else
    error ← on_store (revokeSession (hashSessionToken raw_token));
    mret (if bool_decide (error = Storage_ok) then Auth_ok
          else if bool_decide (error = Storage_unavailable) then Auth_storage_unavailable
          else Auth_invalid_session).
End service.

(** ** Lemmas *)

Lemma sr_get_ok {T} (v : T) : sr_get (sr_ok v) = Some v.
Proof. done. Qed.

Lemma sr_get_value {T} (r : StorageResult T) v : sr_get r = Some v → sr_value r = Some v.
Proof. rw /sr_get. by case_match. Qed.

Lemma sr_bool_get {T} (r : StorageResult T) : sr_bool r = true → sr_get r = sr_value r.
Proof. by rw /sr_get => ->. Qed.

Lemma ar_get_ok {T} (v : T) : ar_get (auth_ok v) = Some v.
Proof. done. Qed.

Lemma ar_get_fail {T} e m : ar_get (@auth_fail T e m) = None.
Proof. by rw /ar_get /ar_bool /= andb_false_r. Qed.

Lemma session_expiry_Ok svc now e :
  session_expiry svc now = Ok e → e = now + session_ttl_seconds svc * 1000 ∧ e ≤ i64_max.
Proof. rw /session_expiry. case_bool_decide; [|done]. by intros [= <-]. Qed.

(** The session a token stands for in a store: what [authenticate] returns. *)
Definition session_view (u : UserRecord) (x : SessionRecord) :=
  mkAuthenticated (user_id u) (username u) "" (wallet_balance u) (expires_at x)
    (last_client_sequence x).

Section lemmas.
  Context {S C : Type} `{!AccountStore S, !AccountStoreLaws S, !CryptoProvider C, !CryptoLaws C}.
  Implicit Types (svc : AuthService) (st : S * C).

Lemma look_name name st : on_store (findUserByName name) st = (Ok (userByName name st.1), st).
Proof.
  destruct (lookups st.1) as (Hl & _). specialize (Hl name). revert Hl. rw /on_store /userByName.
  destruct (findUserByName name st.1) as [r s']. cbn. intros ->. by destruct st.
Qed.

Lemma look_id i st : on_store (findUserById i) st = (Ok (userById i st.1), st).
Proof.
  destruct (lookups st.1) as (_ & Hl & _). specialize (Hl i). revert Hl. rw /on_store /userById.
  destruct (findUserById i st.1) as [r s']. cbn. intros ->. by destruct st.
Qed.

Lemma look_session h now st : on_store (findSession h now) st = (Ok (sessionUnder h now st.1), st).
Proof.
  destruct (lookups st.1) as (_ & _ & Hl). specialize (Hl h now). revert Hl. rw /on_store /sessionUnder.
  destruct (findSession h now st.1) as [r s']. cbn. intros ->. by destruct st.
Qed.

Lemma authenticate_live token now st x u :
  token ≠ ""%string → sessionUnder (hashSessionToken token) now st.1 = sr_ok x →
  userById (session_user x) st.1 = sr_ok u → disabled u = false →
  authenticate token now st = (Ok (auth_ok (session_view u x)), st).
Proof.
  intros Ht Hx Hu Hd. rw /authenticate bool_decide_eq_false_2 //.
  rw /mbind /M_bind look_session Hx sr_get_ok look_id Hu sr_get_ok Hd. done.
Qed.

(** [authenticate] never changes anything, and what it accepts is a live
    session of an enabled user. *)
Lemma authenticate_inv token now st r st' :
  store_inv st.1 → authenticate token now st = (r, st') →
  st' = st ∧ ∃ a, r = Ok a ∧
  (∀ v, ar_get a = Some v → ∃ x u, a = auth_ok v ∧ v = session_view u x ∧ token ≠ ""%string ∧
     sessionUnder (hashSessionToken token) now st.1 = sr_ok x ∧ live now x = true ∧
     userById (session_user x) st.1 = sr_ok u ∧ user_id u = session_user x ∧
     disabled u = false).
Proof.
  intros Hs. rw /authenticate. case_bool_decide as Ht.
  { intros [= <- <-]. split; [done|]. eexists. by split. }
  rw /mbind /M_bind look_session.
  destruct (sr_get (sessionUnder _ _ _)) as [x|] eqn:Hx; last first.
  { intros [= <- <-]. split; [done|]. eexists. split; [done|]. intros v. rw /ar_get. by case_match. }
  rw look_id. destruct (sr_get (userById _ _)) as [u|] eqn:Hu; last first.
  { intros [= <- <-]. split; [done|]. eexists. by split. }
  destruct (findSession_law _ _ _ _ Hs (sr_get_value _ _ Hx)) as (Hx' & _ & Hl).
  destruct (findUserById_law _ _ _ Hs (sr_get_value _ _ Hu)) as (Hu' & Hid).
  destruct (disabled u) eqn:Hd; intros [= <- <-]; (split; [done|]); eexists; (split; [done|]).
  - done.
  - intros v. rw ar_get_ok. intros [= <-]. exists x, u. by split_and!.
Qed.

Lemma authenticate_rejects token now st :
  sr_value (sessionUnder (hashSessionToken token) now st.1) = None →
  ∃ a, authenticate token now st = (Ok a, st) ∧ ar_bool a = false.
Proof.
  intros Hn. rw /authenticate. case_bool_decide; [by eexists|].
  rw /mbind /M_bind look_session.
  destruct (sr_get (sessionUnder _ _ _)) as [x|] eqn:Hx.
  { apply sr_get_value in Hx. congruence. }
  eexists. split; [done|]. rw /ar_bool /auth_fail /=. by rw andb_false_r.
Qed.
End lemmas.

(** ** What the service guarantees *)

Section theorems.
  Context {S C : Type} `{!AccountStore S, !AccountStoreLaws S, !CryptoProvider C, !CryptoLaws C}.

(** [login] succeeds only for a known, enabled user whose stored hash
    verifies the password; the token it returns then authenticates that user,
    and only the store's session table and the provider's randomness have
    changed, until the session's time to live has passed. *)
Lemma login_correct (svc : AuthService) (name password : string) now (st st' : S * C) r a :
  store_inv st.1 → login svc name password now st = (Ok r, st') → ar_get r = Some a →
  store_inv st'.1 ∧
  ∃ u, userByName name st.1 = sr_ok u ∧ username u = name ∧
    verifyPassword password (password_hash u) = true ∧ disabled u = false ∧
    r = auth_ok a ∧ as_raw_token a = (generateSessionToken st.2).1 ∧
    as_expires_at a = now + session_ttl_seconds svc * 1000 ∧
    (∀ i, userById i st'.1 = userById i st.1) ∧
    ∀ now', now' < as_expires_at a →
      authenticate (as_raw_token a) now' st' =
        (Ok (auth_ok (mkAuthenticated (user_id u) name "" (wallet_balance u)
                        (as_expires_at a) 0)), st').
Proof.
  intros Hs. rw /login {1}/mbind /M_bind look_name.
  destruct (sr_get (userByName name st.1)) as [u|] eqn:Hu; last by intros [= <- <-]; rw ar_get_fail.
  destruct (findUser_law _ _ _ Hs (sr_get_value _ _ Hu)) as (Hn & Hid & Hname).
  destruct (verifyPassword _ _) eqn:Hv; last by intros [= <- <-]; rw ar_get_fail.
  destruct (disabled u) eqn:Hd; first by intros [= <- <-]; rw ar_get_fail.
  rw /mbind /M_bind /on_crypto /on_store /mlift /=.
  pose proof (token_nonempty st.2) as Htok.
  destruct (generateSessionToken st.2) as [token c'] eqn:Hg; cbn in *.
  destruct (session_expiry svc now) as [e| |] eqn:He; [|done..].
  apply session_expiry_Ok in He as [He _].
  destruct (storeSession _ _) as [err s'] eqn:Hst; cbn.
  destruct (storeSession_law _ _ _ _ Hs Hst) as (Hs' & Hfind & _ & Hstored).
  case_bool_decide as Herr; intros [= <- <-]; last by rw ar_get_fail.
  rw ar_get_ok. intros [= <-]. split; [done|]. exists u. split_and!; try done.
  cbn. intros now' Hnow.
  rw (authenticate_live token now' _ (mkSession (user_id u) (hashSessionToken token) e 0 false) u) //.
  - apply Hstored; [done|]. rw /live /=. lia.
  - by rw Hfind.
  - by rw /session_view Hname.
Qed.

(** Registration, login and authentication compose: an accepted
    registration has a valid name and password and a wallet of the initial
    chips, the same credentials log in at once (while the session table has
    room for the new token), and the token authenticates the new user. *)
Lemma register_login (svc : AuthService) (name password : string) now (st st1 : S * C) r u :
  store_inv st.1 → has_ids st.1 → registerUser svc name password st = (Ok r, st1) →
  ar_get r = Some u → 0 < now + session_ttl_seconds svc * 1000 ≤ i64_max →
  free (hashSessionToken (generateSessionToken st1.2).1) st.1 →
  validUsername name = true ∧ validPassword password = true ∧
  username u = name ∧ wallet_balance u = initial_chips svc ∧
  ∃ a st2, login svc name password now st1 = (Ok (auth_ok a), st2) ∧
    as_user_id a = user_id u ∧
    ∀ now', now' < now + session_ttl_seconds svc * 1000 →
      authenticate (as_raw_token a) now' st2 =
        (Ok (auth_ok (mkAuthenticated (user_id u) name "" (initial_chips svc)
                        (now + session_ttl_seconds svc * 1000) 0)), st2).
Proof.
  intros Hs Hroom. rw /registerUser.
  destruct (validUsername name); cbn [negb]; last by intros [= <- <-]; rw ar_get_fail.
  destruct (validPassword password); cbn [negb]; last by intros [= <- <-]; rw ar_get_fail.
  rw /mbind /M_bind /call_crypto /on_store /=.
  destruct (hashPassword password st.2) as [[h| |] c1] eqn:Hh; cbn in *; [|done..].
  pose proof (verify_hashed _ _ _ _ Hh) as Hver.
  destruct (createUser _ _ _ _) as [created s1] eqn:Hc; cbn.
  destruct (createUser_law _ _ _ _ _ _ Hs Hroom Hc) as (Hs1 & _ & Hfree & Hok).
  intros [= <- <-]. destruct (sr_bool created) eqn:Hb; last first.
  { case_bool_decide; by rw ar_get_fail. }
  destruct (Hok eq_refl) as (v & -> & Hvn & Hvh & Hvw & Hvd & Hvk & Hv0 & Hfn).
  cbn. intros [= ->] Hexp Hfr. split_and!; [done..|].
  pose proof (token_nonempty c1) as Htok.
  destruct (generateSessionToken c1) as [token c2] eqn:Hg; cbn in *.
  set (e := now + session_ttl_seconds svc * 1000) in *.
  destruct (storeSession (mkSession (user_id u) (hashSessionToken token) e 0 false) s1)
    as [err s2] eqn:Hst.
  destruct (storeSession_law _ _ _ _ Hs1 Hst) as (Hs2 & Hfind & Hacc & Hstored).
  assert (err = Storage_ok) as ->.
  { apply Hacc; cbn; [done..|apply hash_nonempty|lia|by apply Hfree]. }
  eexists (mkAuthenticated _ _ token _ e 0), (s2, c2). split; [|split].
  - rw /login /mbind /M_bind look_name /= Hfn sr_get_ok Hvh Hver Hvd.
    rw /on_crypto /= Hg /mlift /session_expiry -/e bool_decide_eq_true_2; [lia|].
    rw /on_store /= Hst /=. done.
  - done.
  - intros now' Hnow. cbn.
    rw (authenticate_live token now' _ (mkSession (user_id u) (hashSessionToken token) e 0 false) u) //.
    + apply Hstored; [done|]. rw /live /=. lia.
    + cbn. rw Hfind. by destruct (findUser_law _ _ _ Hs1 (sr_get_value _ _
        (eq_trans (f_equal sr_get Hfn) (sr_get_ok u)))) as (_ & ? & _).
    + by rw /session_view Hvn Hvw.
Qed.

(** C35: [refresh] replaces a session: the new token authenticates the same
    user with the same client sequence until the new expiry, and the old token
    is refused from then on at every time; [logout] likewise ends a session, unless
    it answers that the storage was unavailable. *)
Theorem refresh_and_logout (svc : AuthService) (token : string) now (st st' : S * C) r a :
  store_inv st.1 → refresh svc token now st = (Ok r, st') → ar_get r = Some a →
  hashSessionToken (as_raw_token a) ≠ hashSessionToken token →
  store_inv st'.1 ∧ as_raw_token a = (generateSessionToken st.2).1 ∧
  (∃ b, authenticate token now st = (Ok (auth_ok b), st) ∧
     as_last_client_sequence a = as_last_client_sequence b ∧
     as_user_id a = as_user_id b ∧
     ∀ now', now' < as_expires_at a → authenticate (as_raw_token a) now' st' =
       (Ok (auth_ok (mkAuthenticated (as_user_id b) (as_username b) "" (as_wallet_balance b)
                       (as_expires_at a) (as_last_client_sequence b))), st')) ∧
  (∀ now', ∃ v, authenticate token now' st' = (Ok v, st') ∧ ar_bool v = false) ∧
  (∀ e st'', logout (as_raw_token a) st' = (Ok e, st'') → e ≠ Auth_storage_unavailable →
     ∀ now', ∃ v, authenticate (as_raw_token a) now' st'' = (Ok v, st'') ∧ ar_bool v = false).
Proof.
  intros Hs. rw /refresh {1}/mbind /M_bind.
  destruct (authenticate token now st) as [q st1] eqn:Ha.
  destruct (authenticate_inv _ _ _ _ _ Hs Ha) as (-> & b & -> & Hb).
  destruct (ar_get b) as [v|] eqn:Hv; last by intros [= <- <-] ?; congruence.
  destruct (Hb v eq_refl) as (x & u & -> & Hview & Htok & Hx & Hl & Hu & Hid & Hd).
  rw /mbind /M_bind /on_crypto /on_store /mlift /=.
  pose proof (token_nonempty st.2) as Hnew.
  destruct (generateSessionToken st.2) as [token' c'] eqn:Hg; cbn in *.
  destruct (session_expiry svc now) as [e| |] eqn:He; [|done..].
  destruct (rotateSession _ _ _ _) as [err s'] eqn:Hr; cbn.
  destruct (rotateSession_law _ _ _ _ _ _ Hs Hr) as (Hs' & Hfind & Hrot).
  case_bool_decide as Herr; intros [= <- <-]; last by rw ar_get_fail.
  rw ar_get_ok. intros [= <-]. cbn. intros Hne.
  destruct (Hrot Herr) as [Hlive Hgone]. cbn in Hlive, Hgone. split_and!; [done|done| | |].
  - exists v. split_and!; [done..|]. intros now' Hnow.
    rw (authenticate_live token' now' _ (mkSession (as_user_id v) (hashSessionToken token') e
          (as_last_client_sequence v) false) u) //.
    + apply Hlive. rw /live /=. lia.
    + cbn. rw Hfind. by subst v; cbn; rw Hid.
    + by subst v.
  - intros now'. apply authenticate_rejects, Hgone. congruence.
  - rw /logout bool_decide_eq_false_2 //. rw /mbind /M_bind /on_store /=.
    destruct (revokeSession _ _) as [err' s''] eqn:Hrev; cbn. intros e' st'' [= <- <-] Hdone now'.
    apply authenticate_rejects. apply (revokeSession_law _ _ _ _ Hs' Hrev). by intros ->.
Qed.
End theorems.

(** ** A concrete run *)

Module AuthDemo.
(** A provider whose tokens count up; hashing is prefixing. *)
#[local] Instance demo_crypto : CryptoProvider nat := {
  hashPassword p c := (Ok ("h" ++ p)%string, c);
  verifyPassword p h := String.eqb h ("h" ++ p);
  generateSessionToken c := (("t" ++ pretty c)%string, Datatypes.S c);
  hashSessionToken t := ("k" ++ t)%string;
}.

#[local] Instance demo_laws : CryptoLaws nat.
Proof. split; [intros p c h c' [= <- <-]; apply String.eqb_refl|done..]. Qed.

Definition svc := mkAuthService 60 1000 "hnot-a-real-user-password".
Definition st0 : InMemoryAccountStore * nat := (Accounts_new, 0%nat).
Definition alice := mkUser 1 "alice" "hcorrect horse" 1000 false.
Definition st1 := (registerUser svc "alice" "correct horse" st0).2.
Definition st2 := (login svc "alice" "correct horse" 5 st1).2.
Definition st3 := (refresh svc "t0" 7 st2).2.

Lemma st0_inv : store_inv st0.1.
Proof. exact accounts_inv_new. Qed.

Lemma st1_inv : store_inv st1.1 ∧ has_ids st1.1.
Proof.
  destruct (mem_createUser_law "alice" "hcorrect horse" 1000 Accounts_new (sr_ok alice) st1.1)
    as [? _]; [apply accounts_inv_new|done|by vm_compute|]. by split.
Qed.

Lemma st2_inv : store_inv st2.1.
Proof.
  eapply (mem_storeSession_law (mkSession 1 "kt0" 60005 0 false) st1.1 Storage_ok).
  - apply st1_inv.
  - by vm_compute.
Qed.

Lemma login_correct_witness :
  ∃ a, login svc "alice" "correct horse" 5 st1 = (Ok (auth_ok a), st2) ∧
    authenticate "t0" 60004 st2 = (Ok (auth_ok (mkAuthenticated 1 "alice" "" 1000 60005 0)), st2).
Proof.
  exists (mkAuthenticated 1 "alice" "t0" 1000 60005 0). split; [by vm_compute|].
  destruct (login_correct (S:=InMemoryAccountStore) svc "alice" "correct horse" 5 st1 st2
    (auth_ok (mkAuthenticated 1 "alice" "t0" 1000 60005 0))
    (mkAuthenticated 1 "alice" "t0" 1000 60005 0) (proj1 st1_inv)) as (_ & u & Hu & _ & _ & _ & _ & _ & _ & _ & H);
    [by vm_compute|done|].
  assert (u = alice) as -> by by vm_compute in Hu; simplify_eq.
  by apply H.
Defined.

Lemma register_login_witness :
  registerUser svc "alice" "correct horse" st0 = (Ok (auth_ok alice), st1) ∧
  ∃ a st2, login svc "alice" "correct horse" 5 st1 = (Ok (auth_ok a), st2) ∧ as_user_id a = 1.
Proof.
  split; [by vm_compute|].
  destruct (register_login (S:=InMemoryAccountStore) svc "alice" "correct horse" 5 st0 st1 (auth_ok alice) alice
    st0_inv) as (_ & _ & _ & _ & a & st2' & H1 & H2 & _);
    [done|by vm_compute|done|done|by vm_compute|].
  by exists a, st2'.
Defined.

Lemma refresh_and_logout_witness :
  refresh svc "t0" 7 st2 = (Ok (auth_ok (mkAuthenticated 1 "alice" "t1" 1000 60007 0)), st3) ∧
  ∃ v, authenticate "t0" 8 st3 = (Ok v, st3) ∧ ar_bool v = false.
Proof.
  split; [by vm_compute|].
  destruct (refresh_and_logout (S:=InMemoryAccountStore) svc "t0" 7 st2 st3
    (auth_ok (mkAuthenticated 1 "alice" "t1" 1000 60007 0))
    (mkAuthenticated 1 "alice" "t1" 1000 60007 0) st2_inv) as (_ & _ & _ & H & _);
    [by vm_compute|done|by vm_compute|].
  apply H.
Defined.
End AuthDemo.
