(* ===== verification/GameStore.v ===== *)
(** * The game store

    Model of [include/poker/storage/game_store.hpp] (data), of
    [game_store_validation.hpp] (checks of settlements) and of
    [in_memory_game_store.hpp/.cpp], the transactional model of wallets,
    reserved seats, the idempotency ledger and the log of hands. Every operation
    holds the store's mutex and is one step.

    Chips are [std::int64_t] in the source and integers here; [games_in_range]
    (file GameStoreTheorems) shows that no balance leaves the range.
    [std::unordered_map]s are finite maps; the one loop whose order could show,
    that of [abortTableAndRefund], runs in the order of [map_to_list]. *)
From stdpp Require Import pretty.
From S2P Require Import Prelude Card Table AccountStore.

(** ** Records of game_store.hpp *)

Record TableRecord := mkTableRecord {
  table_id : Z;
  table_name : string;
  node_id : string;
  table_config : TableConfig;
  created_by : Z;
}.

Record BuyInReceipt := mkBuyInReceipt { bi_wallet_balance : Z; bi_table_stack : Z }.
Record CashOutReceipt := mkCashOutReceipt { co_wallet_balance : Z; co_returned_stack : Z }.

Record HandActionRecord := mkActionRecord {
  ha_hand_id : Z;
  ha_sequence : Z;
  ha_request_id : Z;
  ha_user_id : Z;
  ha_street : Street;
  ha_action : ActionType;
  ha_target_amount : Z;
}.

#[export] Instance HandActionRecord_eq_dec : EqDecision HandActionRecord.
Proof. solve_decision. Defined.

Record HandStartPlayer := mkStartPlayer {
  hs_user_id : Z;
  hs_seat : Z;
  hs_start_stack : Z;
  hs_hole_cards : list Card;
}.

Record HandStartRecord := mkHandStart {
  hsr_hand_id : Z;
  hsr_table_id : Z;
  hsr_hand_number : Z;
  hsr_dealer_seat : Z;
  hsr_players : list HandStartPlayer;
}.

Record HandPlayerSettlement := mkPlayerSettlement {
  hp_user_id : Z;
  hp_seat : Z;
  hp_start_stack : Z;
  hp_committed : Z;
  hp_winnings : Z;
  hp_end_stack : Z;
  hp_hole_cards : list Card;
  hp_folded : bool;
}.

#[export] Instance HandPlayerSettlement_eq_dec : EqDecision HandPlayerSettlement.
Proof. solve_decision. Defined.

Record HandSettlementRecord := mkSettlement {
  hst_hand_id : Z;
  hst_table_id : Z;
  hst_hand_number : Z;
  hst_dealer_seat : Z;
  hst_board : list Card;
  hst_total_pot : Z;
  hst_players : list HandPlayerSettlement;
}.

(** ** game_store_validation.hpp *)

Definition validStoredCard (card : Card) : bool :=
  let r := rankValue (rank card) in
  (2 <=? r) && (r <=? 14) && (suit card <=? 3).

(** The lambda [add_card]: [cards] are the marked indices, [None] is [false]. *)
Definition add_card (cards : list bool) (card : Card) : option (list bool) :=
  if validStoredCard card then
    match cards !! Z.to_nat (cardIndex card) with
    | Some false => Some (<[Z.to_nat (cardIndex card) := true]> cards)
    | _ => None
    end
  else None.

Fixpoint add_cards (cards : list bool) (l : list Card) : option (list bool) :=
  match l with
  | [] => Some cards
  | card :: l => cards' ← add_card cards card; add_cards cards' l
  end.

(** The loop over the players: the marked cards, the users seen so far and the
    running totals. Sums are only formed after the guards against overflow. *)
Fixpoint check_players (cards : list bool) (seen : gset Z) (total_committed total_winnings : Z)
    (players : list HandPlayerSettlement) : option (Z * Z) :=
  match players with
  | [] => Some (total_committed, total_winnings)
  | player :: rest =>
      if (hp_user_id player =? 0) || (6 <=? hp_seat player) || (hp_start_stack player <? 0)
         || (hp_committed player <? 0) || (hp_start_stack player <? hp_committed player)
         || (hp_winnings player <? 0) || (hp_end_stack player <? 0)
         || negb (length (hp_hole_cards player) =? 2)%nat
         || bool_decide (hp_user_id player ∈ seen)
      then None
      else
        cards' ← add_cards cards (hp_hole_cards player);
        let after_commitment := hp_start_stack player - hp_committed player in
        if (i64_max - after_commitment <? hp_winnings player)
           || negb (hp_end_stack player =? after_commitment + hp_winnings player)
           || (i64_max - total_committed <? hp_committed player)
           || (i64_max - total_winnings <? hp_winnings player)
        then None
        else check_players cards' ({[hp_user_id player]} ∪ seen)
               (total_committed + hp_committed player) (total_winnings + hp_winnings player) rest
  end.

Definition validHandSettlement (s : HandSettlementRecord) : bool :=
  if (hst_hand_id s =? 0) || (hst_table_id s =? 0) || (hst_hand_number s =? 0)
     || (length (hst_players s) <? 2)%nat || (6 <? length (hst_players s))%nat
     || (5 <? length (hst_board s))%nat || (hst_total_pot s <? 0)
  then false
  else match add_cards (replicate 52 false) (hst_board s) with
  | None => false
  | Some cards =>
      match check_players cards ∅ 0 0 (hst_players s) with
      | None => false
      | Some (total_committed, total_winnings) =>
          (total_committed =? hst_total_pot s) && (total_winnings =? hst_total_pot s)
      end
  end.

Definition equivalentPlayer (lp rp : HandPlayerSettlement) : bool :=
  negb (negb (hp_user_id lp =? hp_user_id rp) || negb (hp_seat lp =? hp_seat rp)
    || negb (hp_start_stack lp =? hp_start_stack rp)
    || negb (hp_committed lp =? hp_committed rp)
    || negb (hp_winnings lp =? hp_winnings rp)
    || negb (hp_end_stack lp =? hp_end_stack rp)
    || negb (bool_decide (hp_hole_cards lp = hp_hole_cards rp))
    || negb (Bool.eqb (hp_folded lp) (hp_folded rp))).

Fixpoint equivalentPlayers (l r : list HandPlayerSettlement) : bool :=
  match l, r with
  | lp :: l, rp :: r => if equivalentPlayer lp rp then equivalentPlayers l r else false
  | _, _ => true
  end.

Definition equivalentHandSettlement (lhs rhs : HandSettlementRecord) : bool :=
  if negb (hst_hand_id lhs =? hst_hand_id rhs) || negb (hst_table_id lhs =? hst_table_id rhs)
     || negb (hst_hand_number lhs =? hst_hand_number rhs)
     || negb (hst_dealer_seat lhs =? hst_dealer_seat rhs)
     || negb (bool_decide (hst_board lhs = hst_board rhs))
     || negb (hst_total_pot lhs =? hst_total_pot rhs)
     || negb (length (hst_players lhs) =? length (hst_players rhs))%nat
  then false
  else equivalentPlayers (hst_players lhs) (hst_players rhs).

(** ** The state of InMemoryGameStore *)

Record SeatRecord := mkSeat { seat_user : Z; seat_no : Z; seat_stack : Z }.

Record StoredTable := mkStored {
  st_record : TableRecord;
  st_aborted : bool;
  st_hand_in_progress : bool;
  st_seats : gmap Z SeatRecord;
  st_occupied : gmap Z Z;
}.

Inductive LedgerKind := buy_in | cash_out.

#[export] Instance LedgerKind_eq_dec : EqDecision LedgerKind.
Proof. solve_decision. Defined.

Record LedgerResult := mkLedger {
  lr_kind : LedgerKind;
  lr_table_id : Z;
  lr_wallet_balance : Z;
  lr_chips : Z;
  lr_seat : Z;
}.

Record InMemoryGameStore := mkGames {
  wallets : gmap Z Z;
  tables : gmap Z StoredTable;
  ledger : gmap string LedgerResult;
  actions : gmap (Z * Z) HandActionRecord;
  hand_starts : gmap Z HandStartRecord;
  settlements : gmap Z HandSettlementRecord;
}.

Definition Games_new : InMemoryGameStore := mkGames ∅ ∅ ∅ ∅ ∅ ∅.

Definition with_wallets w g :=
  mkGames w (tables g) (ledger g) (actions g) (hand_starts g) (settlements g).
Definition with_tables t g :=
  mkGames (wallets g) t (ledger g) (actions g) (hand_starts g) (settlements g).
Definition with_ledger l g :=
  mkGames (wallets g) (tables g) l (actions g) (hand_starts g) (settlements g).
Definition with_actions a g :=
  mkGames (wallets g) (tables g) (ledger g) a (hand_starts g) (settlements g).
Definition with_hands h s g :=
  mkGames (wallets g) (tables g) (ledger g) (actions g) h s.

Definition with_seating seats occupied (t : StoredTable) :=
  mkStored (st_record t) (st_aborted t) (st_hand_in_progress t) seats occupied.
Definition with_hand_in_progress b (t : StoredTable) :=
  mkStored (st_record t) (st_aborted t) b (st_seats t) (st_occupied t).
Definition set_table id t g := with_tables (<[id := t]> (tables g)) g.

(** [std::to_string(user_id) + ":" + idempotency_key] *)
Definition ledgerKey (user_id : Z) (idempotency_key : string) : string :=
  pretty (Z.to_N user_id) +:+ ":" +:+ idempotency_key.

(** ** Queries *)

Definition seedWallet (user_id balance : Z) (g : InMemoryGameStore)
    : StorageError * InMemoryGameStore :=
  if (user_id =? 0) || (balance <? 0) then (Storage_invalid_data, g)
  else if wallets g !! user_id then (Storage_duplicate, g)
  else (Storage_ok, with_wallets (<[user_id := balance]> (wallets g)) g).

Definition walletBalance (user_id : Z) (g : InMemoryGameStore) : option Z := wallets g !! user_id.

Definition seatStack (id user_id : Z) (g : InMemoryGameStore) : option Z :=
  t ← tables g !! id; seat_stack <$> st_seats t !! user_id.

Definition settlement (hand_id : Z) (g : InMemoryGameStore) : option HandSettlementRecord :=
  settlements g !! hand_id.

Definition findTable (id : Z) (g : InMemoryGameStore) : StorageResult TableRecord :=
  match tables g !! id with
  | None => sr_fail Storage_not_found "table not found"
  | Some t => if st_aborted t then sr_fail Storage_not_found "table not found"
              else sr_ok (st_record t)
  end.

(** The records of the tables that are not aborted. *)
Definition open_records (g : InMemoryGameStore) : list TableRecord :=
  omap (λ e, if st_aborted e.2 then None else Some (st_record e.2)) (map_to_list (tables g)).

Definition by_table_id (l r : TableRecord) : Prop := table_id l ≤ table_id r.

#[export] Instance by_table_id_dec : RelDecision by_table_id.
Proof. intros l r. rw /by_table_id. apply _. Defined.

Definition listOpenTables (limit : nat) (g : InMemoryGameStore) : StorageResult (list TableRecord) :=
  if (limit =? 0)%nat then sr_fail Storage_invalid_data "limit must be positive"
  else sr_ok (take limit (merge_sort by_table_id (open_records g))).

Definition countOpenTables (node : string) (g : InMemoryGameStore) : StorageResult nat :=
  if bool_decide (node = ""%string) then sr_fail Storage_invalid_data "node id is required"
  else sr_ok (length (filter (λ r, node_id r = node) (open_records g))).

(** ** Tables and money *)

Definition createTable (table : TableRecord) : M InMemoryGameStore StorageError := λ g,
  let config := table_config table in
  if (table_id table =? 0) || (created_by table =? 0) || bool_decide (table_name table = ""%string)
     || bool_decide (node_id table = ""%string) || (min_players config <? 2)%nat
     || (max_players config <? min_players config)%nat || (6 <? max_players config)%nat
     || (small_blind config <=? 0)
  then (Ok Storage_invalid_data, g)
  else match i64 (small_blind config * 2) with
  | Ok doubled =>
      if (big_blind config <? doubled) || (min_buy_in config <=? 0) || (max_buy_in config <? min_buy_in config)
      then (Ok Storage_invalid_data, g)
      else if tables g !! table_id table then (Ok Storage_duplicate, g)
      else (Ok Storage_ok, set_table (table_id table) (mkStored table false false ∅ ∅) g)
  | overflow => (Undef, g)
  end.

Definition replay_buy_in (replay : LedgerResult) (id user_id seat amount : Z)
    (g : InMemoryGameStore) : StorageResult BuyInReceipt :=
  if negb (bool_decide (lr_kind replay = buy_in)) || negb (lr_table_id replay =? id)
     || negb (lr_chips replay =? amount) || negb (lr_seat replay =? seat)
  then sr_fail Storage_conflict "idempotency key was reused"
  else match tables g !! id with
  | None => sr_fail Storage_conflict "idempotent buy-in does not match an active table"
  | Some t =>
      match st_seats t !! user_id with
      | Some s =>
          if negb (seat_no s =? seat) || negb (seat_stack s =? amount)
          then sr_fail Storage_conflict "idempotent buy-in does not match the active seat"
          else sr_ok (mkBuyInReceipt (lr_wallet_balance replay) (lr_chips replay))
      | None => sr_fail Storage_conflict "idempotent buy-in does not match the active seat"
      end
  end.

Definition reserveBuyIn (id user_id seat amount : Z) (idempotency_key : string)
    (g : InMemoryGameStore) : StorageResult BuyInReceipt * InMemoryGameStore :=
  if (id =? 0) || (user_id =? 0) || (amount <=? 0) || bool_decide (idempotency_key = ""%string)
     || (96 <? String.length idempotency_key)%nat
  then (sr_fail Storage_invalid_data "invalid buy-in", g)
  else
    let key := ledgerKey user_id idempotency_key in
    match ledger g !! key with
    | Some replay => (replay_buy_in replay id user_id seat amount g, g)
    | None =>
        match tables g !! id, wallets g !! user_id with
        | Some t, Some wallet =>
            let config := table_config (st_record t) in
            if st_aborted t then (sr_fail Storage_not_found "table or wallet not found", g)
            else if st_hand_in_progress t
            then (sr_fail Storage_conflict "buy-in is not allowed during a hand", g)
            else if (Z.of_nat (max_players config) <=? seat) || (amount <? min_buy_in config)
                    || (max_buy_in config <? amount)
            then (sr_fail Storage_invalid_data "invalid seat or buy-in amount", g)
            else if bool_decide (is_Some (st_seats t !! user_id))
                    || bool_decide (is_Some (st_occupied t !! seat))
            then (sr_fail Storage_conflict "player or seat is already reserved", g)
            else if wallet <? amount
            then (sr_fail Storage_insufficient_funds "insufficient wallet balance", g)
            else
              let w := wallet - amount in
              let t' := with_seating (<[user_id := mkSeat user_id seat amount]> (st_seats t))
                          (<[seat := user_id]> (st_occupied t)) t in
              (sr_ok (mkBuyInReceipt w amount),
               with_ledger (<[key := mkLedger buy_in id w amount seat]> (ledger g))
                 (set_table id t' (with_wallets (<[user_id := w]> (wallets g)) g)))
        | _, _ => (sr_fail Storage_not_found "table or wallet not found", g)
        end
    end.

Definition cashOut (id user_id : Z) (idempotency_key : string) (g : InMemoryGameStore)
    : StorageResult CashOutReceipt * InMemoryGameStore :=
  if (id =? 0) || (user_id =? 0) || bool_decide (idempotency_key = ""%string)
     || (96 <? String.length idempotency_key)%nat
  then (sr_fail Storage_invalid_data "invalid cash-out", g)
  else
    let key := ledgerKey user_id idempotency_key in
    match ledger g !! key with
    | Some replay =>
        if negb (bool_decide (lr_kind replay = cash_out)) || negb (lr_table_id replay =? id)
        then (sr_fail Storage_conflict "idempotency key was reused", g)
        else (sr_ok (mkCashOutReceipt (lr_wallet_balance replay) (lr_chips replay)), g)
    | None =>
        match tables g !! id, wallets g !! user_id with
        | Some t, Some wallet =>
            if st_hand_in_progress t
            then (sr_fail Storage_conflict "cash-out is not allowed during a hand", g)
            else match st_seats t !! user_id with
            | None => (sr_fail Storage_not_found "seat not found", g)
            | Some s =>
                let w := wallet + seat_stack s in
                let t' := with_seating (delete user_id (st_seats t))
                            (delete (seat_no s) (st_occupied t)) t in
                (sr_ok (mkCashOutReceipt w (seat_stack s)),
                 with_ledger (<[key := mkLedger cash_out id w (seat_stack s) (seat_no s)]> (ledger g))
                   (set_table id t' (with_wallets (<[user_id := w]> (wallets g)) g)))
            end
        | _, _ => (sr_fail Storage_not_found "table or wallet not found", g)
        end
    end.

(** ** Hands *)

Definition start_player_ok (t : StoredTable) (player : HandStartPlayer) : bool :=
  match st_seats t !! hs_user_id player with
  | None => false
  | Some s => (seat_no s =? hs_seat player) && (seat_stack s =? hs_start_stack player)
              && (length (hs_hole_cards player) =? 2)%nat
  end.

Definition beginHand (hand : HandStartRecord) (g : InMemoryGameStore)
    : StorageError * InMemoryGameStore :=
  if (hsr_hand_id hand =? 0) || (hsr_table_id hand =? 0) || (hsr_hand_number hand =? 0)
     || (length (hsr_players hand) <? 2)%nat
  then (Storage_invalid_data, g)
  else if bool_decide (is_Some (hand_starts g !! hsr_hand_id hand))
          || bool_decide (is_Some (settlements g !! hsr_hand_id hand))
  then (Storage_duplicate, g)
  else match tables g !! hsr_table_id hand with
  | None => (Storage_not_found, g)
  | Some t =>
      if st_aborted t then (Storage_not_found, g)
      else if st_hand_in_progress t then (Storage_conflict, g)
      else if forallb (start_player_ok t) (hsr_players hand)
      then (Storage_ok,
            set_table (hsr_table_id hand) (with_hand_in_progress true t)
              (with_hands (<[hsr_hand_id hand := hand]> (hand_starts g)) (settlements g) g))
      else (Storage_conflict, g)
  end.

(** The order of [std::map<std::pair<...>, ...>]. *)
Definition action_key_le (l r : Z * Z * HandActionRecord) : Prop :=
  l.1.1 < r.1.1 ∨ l.1.1 = r.1.1 ∧ l.1.2 ≤ r.1.2.

#[export] Instance action_key_le_dec : RelDecision action_key_le.
Proof. intros l r. rw /action_key_le. apply _. Defined.

Definition same_request (a : HandActionRecord) (existing : Z * Z * HandActionRecord) : bool :=
  (ha_hand_id existing.2 =? ha_hand_id a) && (ha_user_id existing.2 =? ha_user_id a)
  && (ha_request_id existing.2 =? ha_request_id a).

(** [same_action] compares every field. *)
Definition same_action (a existing : HandActionRecord) : StorageError :=
  if bool_decide (existing = a) then Storage_duplicate else Storage_conflict.

Definition appendAction (a : HandActionRecord) (g : InMemoryGameStore)
    : StorageError * InMemoryGameStore :=
  if (ha_hand_id a =? 0) || (ha_sequence a =? 0) || (ha_request_id a =? 0) || (ha_user_id a =? 0)
  then (Storage_invalid_data, g)
  else if negb (bool_decide (is_Some (hand_starts g !! ha_hand_id a))) then (Storage_not_found, g)
  else if bool_decide (is_Some (settlements g !! ha_hand_id a)) then (Storage_conflict, g)
  else
    let sequence_key := (ha_hand_id a, ha_sequence a) in
    match actions g !! sequence_key with
    | Some existing => (same_action a existing, g)
    | None =>
        match List.find (same_request a) (merge_sort action_key_le (map_to_list (actions g))) with
        | Some existing => (same_action a existing.2, g)
        | None => (Storage_ok, with_actions (<[sequence_key := a]> (actions g)) g)
        end
    end.

Definition settle_player_ok (t : StoredTable) (p : HandPlayerSettlement) : bool :=
  match st_seats t !! hp_user_id p with
  | None => false
  | Some s =>
      negb (negb (seat_no s =? hp_seat p) || negb (seat_stack s =? hp_start_stack p)
        || (hp_committed p <? 0) || (hp_winnings p <? 0) || (hp_end_stack p <? 0)
        || negb (hp_end_stack p =? hp_start_stack p - hp_committed p + hp_winnings p))
  end.

(** [table->second.seats.at(player.user_id).stack = player.end_stack] *)
Definition pay_seat (seats : gmap Z SeatRecord) (p : HandPlayerSettlement) : gmap Z SeatRecord :=
  alter (λ s, mkSeat (seat_user s) (seat_no s) (hp_end_stack p)) (hp_user_id p) seats.

Definition settleHand (value : HandSettlementRecord) (g : InMemoryGameStore)
    : StorageError * InMemoryGameStore :=
  if negb (validHandSettlement value) then (Storage_invalid_data, g)
  else match settlements g !! hst_hand_id value with
  | Some existing =>
      (if equivalentHandSettlement existing value then Storage_duplicate else Storage_conflict, g)
  | None =>
      if negb (bool_decide (is_Some (hand_starts g !! hst_hand_id value)))
      then (Storage_not_found, g)
      else match tables g !! hst_table_id value with
      | None => (Storage_not_found, g)
      | Some t =>
          if st_aborted t then (Storage_not_found, g)
          else if negb (st_hand_in_progress t) then (Storage_duplicate, g)
          else if forallb (settle_player_ok t) (hst_players value)
          then
            let seats := foldl pay_seat (st_seats t) (hst_players value) in
            (Storage_ok,
             set_table (hst_table_id value)
               (mkStored (st_record t) (st_aborted t) false seats (st_occupied t))
               (with_hands (hand_starts g) (<[hst_hand_id value := value]> (settlements g)) g))
          else (Storage_conflict, g)
      end
  end.

(** The loop of [abortTableAndRefund]: the wallets so far, and whether a wallet
    was missing. *)
Fixpoint refund_seats (seats : list (Z * SeatRecord)) (w : gmap Z Z) : gmap Z Z * bool :=
  match seats with
  | [] => (w, true)
  | (user_id, s) :: rest =>
      match w !! user_id with
      | None => (w, false)
      | Some balance => refund_seats rest (<[user_id := balance + seat_stack s]> w)
      end
  end.

Definition abortTableAndRefund (id : Z) (g : InMemoryGameStore) : StorageError * InMemoryGameStore :=
  match tables g !! id with
  | None => (Storage_not_found, g)
  | Some t =>
      if st_aborted t then (Storage_ok, g)
      else
        let '(w, found) := refund_seats (map_to_list (st_seats t)) (wallets g) in
        if found
        then (Storage_ok, set_table id (mkStored (st_record t) true false ∅ ∅) (with_wallets w g))
        else (Storage_conflict, with_wallets w g)
  end.

(** ** The interface

    What clients of a game store call; an implementation may fail where the
    in-memory store does not, and a query may change its state. The check of a new
    table's blinds may overflow. *)
Class GameStore (G : Type) := {
  gs_findTable : Z → G → StorageResult TableRecord * G;
  gs_listOpenTables : nat → G → StorageResult (list TableRecord) * G;
  gs_countOpenTables : string → G → StorageResult nat * G;
  gs_createTable : TableRecord → M G StorageError;
  gs_reserveBuyIn : Z → Z → Z → Z → string → G → StorageResult BuyInReceipt * G;
  gs_cashOut : Z → Z → string → G → StorageResult CashOutReceipt * G;
  gs_beginHand : HandStartRecord → G → StorageError * G;
  gs_appendAction : HandActionRecord → G → StorageError * G;
  gs_settleHand : HandSettlementRecord → G → StorageError * G;
  gs_abortTableAndRefund : Z → G → StorageError * G;
}.

#[export] Instance mem_game_store : GameStore InMemoryGameStore := {
  gs_findTable id g := (findTable id g, g);
  gs_listOpenTables limit g := (listOpenTables limit g, g);
  gs_countOpenTables node g := (countOpenTables node g, g);
  gs_createTable := createTable;
  gs_reserveBuyIn := reserveBuyIn;
  gs_cashOut := cashOut;
  gs_beginHand := beginHand;
  gs_appendAction := appendAction;
  gs_settleHand := settleHand;
  gs_abortTableAndRefund := abortTableAndRefund;
}.
