(* ===== verification/GameStoreLib.v ===== *)
(** * Facts about the game store's checks and keys

    The validation of settlements against a declarative specification, the
    injectivity of ledger keys, and the sums of stacks the store's theorems
    rest on. *)
From Stdlib Require Import Ascii.
From stdpp Require Import pretty.
From S2P Require Import Prelude Card Table AccountStore GameStore.

(** ** Ledger keys *)

Fixpoint no_colon (s : string) : bool :=
  match s with
  | EmptyString => true
  | String c s => negb (Ascii.eqb c ":"%char) && no_colon s
  end.

Lemma pretty_N_char_no_colon x : Ascii.eqb (pretty_N_char x) ":"%char = false.
Proof. by destruct x as [|[[[[]|[]|]|[[]|[]|]|]|[[[]|[]|]|[[]|[]|]|]|]]. Qed.

Lemma pretty_N_go_no_colon x s : no_colon s = true → no_colon (pretty_N_go x s) = true.
Proof.
  revert s. induction (N.lt_wf_0 x) as [x _ IH]; intros s Hs.
  destruct (decide (x = 0%N)) as [->|Hx]; [done|].
  rw pretty_N_go_step; [lia|]. apply IH; [apply N.div_lt; lia|].
  cbn [no_colon]. by rw pretty_N_char_no_colon.
Qed.

Lemma pretty_N_no_colon (x : N) : no_colon (pretty x) = true.
Proof. rw /pretty /pretty_N. case_decide; [done|]. by apply pretty_N_go_no_colon. Qed.

Lemma colon_split s s' k k' :
  no_colon s = true → no_colon s' = true →
  (s +:+ ":" +:+ k = s' +:+ ":" +:+ k')%string → s = s' ∧ k = k'.
Proof.
  revert s'. induction s as [|c s IH]; intros [|c' s'] Hs Hs' Heq; simplify_eq/=; [done|..].
  guards. destruct (IH s') as [-> ->]; done.
Qed.

(** Keys of different users or with different client keys never collide. *)
Lemma ledgerKey_inj u u' k k' :
  0 ≤ u → 0 ≤ u' → ledgerKey u k = ledgerKey u' k' → u = u' ∧ k = k'.
Proof.
  intros Hu Hu' Heq.
  destruct (colon_split _ _ _ _ (pretty_N_no_colon _) (pretty_N_no_colon _) Heq) as [Hp ->].
  apply pretty_N_inj in Hp. split; [lia|done].
Qed.

(** ** Settlements: specification of the check *)

Definition player_valid (p : HandPlayerSettlement) : Prop :=
  hp_user_id p ≠ 0 ∧ hp_seat p < 6 ∧ 0 ≤ hp_committed p ≤ hp_start_stack p ∧
  0 ≤ hp_winnings p ∧ length (hp_hole_cards p) = 2%nat ∧
  hp_end_stack p = hp_start_stack p - hp_committed p + hp_winnings p ∧
  hp_end_stack p ≤ i64_max.

Definition hand_cards (ps : list HandPlayerSettlement) : list Card := ps ≫= hp_hole_cards.

Record settlement_valid (v : HandSettlementRecord) : Prop := {
  sv_ids : hst_hand_id v ≠ 0 ∧ hst_table_id v ≠ 0 ∧ hst_hand_number v ≠ 0;
  sv_players : (2 ≤ length (hst_players v) ≤ 6)%nat;
  sv_board : (length (hst_board v) ≤ 5)%nat;
  sv_each : Forall player_valid (hst_players v);
  sv_users : NoDup (hp_user_id <$> hst_players v);
  sv_cards : NoDup (hst_board v ++ hand_cards (hst_players v));
  sv_legal : Forall valid_card (hst_board v ++ hand_cards (hst_players v));
  sv_committed : sumZ hp_committed (hst_players v) = hst_total_pot v;
  sv_winnings : sumZ hp_winnings (hst_players v) = hst_total_pot v;
}.

Lemma validStoredCard_spec c : u8_card c → validStoredCard c = true ↔ valid_card c.
Proof.
  intros [? ?]. rw /validStoredCard /rankValue /valid_card !andb_true_iff !Z.leb_le. lia.
Qed.

Lemma add_card_alt seen c :
  u8_card c → add_card seen c = if validStoredCard c then mark_seen seen c else None.
Proof.
  intros Hc. rw /add_card /mark_seen. destruct (validStoredCard c) eqn:Hv; [|done].
  apply validStoredCard_spec in Hv; [|done]. pose proof (cardIndex_valid_lt c Hv).
  destruct (Z.leb_spec 52 (cardIndex c)); [lia|done].
Qed.

Lemma add_cards_app seen l1 l2 :
  add_cards seen (l1 ++ l2) = add_cards seen l1 ≫= λ s, add_cards s l2.
Proof.
  revert seen. induction l1 as [|c l1 IH]; intros seen; simpl; [done|].
  destruct (add_card seen c); simpl; [apply IH|done].
Qed.

Lemma add_cards_alt seen l :
  Forall u8_card l →
  add_cards seen l = if forallb validStoredCard l then mark_all seen l else None.
Proof.
  intros Hl. revert seen. induction Hl as [|c l Hc Hl IH]; intros seen; simpl; [done|].
  rw add_card_alt //. destruct (validStoredCard c); simpl; [|done].
  destruct (mark_seen seen c) as [seen'|]; simpl; [by rw IH|by destruct (forallb _ _)].
Qed.

(** From an empty table of marks, [add_cards] accepts exactly the lists of
    distinct cards of the deck. *)
Lemma add_cards_spec l :
  Forall u8_card l →
  is_Some (add_cards (replicate 52 false) l) ↔ NoDup l ∧ Forall valid_card l.
Proof.
  intros Hl. rw add_cards_alt //. destruct (forallb validStoredCard l) eqn:Hv.
  - assert (Forall valid_card l) as Hvalid.
    { rw Forall_forall in Hl. apply Forall_forall. intros c Hc.
      apply validStoredCard_spec; [by apply Hl|].
      rw forallb_forall in Hv. by apply Hv, list_elem_of_In. }
    rw -(all_distinct_spec l Hvalid) /all_distinct /no_cards_seen.
    destruct (mark_all _ l); rw is_Some_alt; naive_solver.
  - split; [by intros []|]. intros [_ Hvalid]. exfalso.
    assert (forallb validStoredCard l = true); [|congruence].
    apply forallb_forall. intros c Hc%list_elem_of_In.
    rw !Forall_forall in Hl, Hvalid. apply validStoredCard_spec; auto.
Qed.

Lemma player_valid_range p : player_valid p → 0 ≤ hp_committed p ∧ 0 ≤ hp_winnings p.
Proof. intros (_ & _ & [? _] & ? & _). done. Qed.

Lemma players_nonneg ps :
  Forall player_valid ps → 0 ≤ sumZ hp_committed ps ∧ 0 ≤ sumZ hp_winnings ps.
Proof.
  rw Forall_forall. intros H. split; apply sumZ_nonneg; intros p Hp; by apply player_valid_range, H.
Qed.

(** One iteration of the loop: the guards hold exactly for valid players that
    are new and keep the totals in range. *)
Lemma check_players_cons cards seen tc tw p ps :
  check_players cards seen tc tw (p :: ps) =
  (cards' ← add_cards cards (hp_hole_cards p);
   if bool_decide (player_valid p ∧ hp_user_id p ∉ seen ∧
                   tc + hp_committed p ≤ i64_max ∧ tw + hp_winnings p ≤ i64_max)
   then check_players cards' ({[hp_user_id p]} ∪ seen) (tc + hp_committed p)
          (tw + hp_winnings p) ps
   else None).
Proof.
  cbn [check_players]. rw /player_valid.
  destruct (_ || bool_decide (hp_user_id p ∈ seen)) eqn:Hg1.
  - destruct (add_cards cards _); simpl; [|done]. rw bool_decide_eq_false_2 //.
    intros (Hp & Hs & _). repeat (apply orb_true_iff in Hg1 as [Hg1|Hg1]); guards; try lia.
    by apply Hs.
  - guards. destruct (add_cards cards _); simpl; [|done].
    destruct (_ || (i64_max - tw <? _)) eqn:Hg2.
    + rw bool_decide_eq_false_2 //. intros (Hp & Hs & ?).
      repeat (apply orb_true_iff in Hg2 as [Hg2|Hg2]); guards; lia.
    + guards. rw bool_decide_eq_true_2 //. split_and!; try done; lia.
Qed.

Lemma check_players_spec ps cards seen tc tw r :
  tc ≤ i64_max → tw ≤ i64_max →
  check_players cards seen tc tw ps = Some r ↔
  Forall player_valid ps ∧ NoDup (hp_user_id <$> ps) ∧
  (∀ p, p ∈ ps → hp_user_id p ∉ seen) ∧ is_Some (add_cards cards (hand_cards ps)) ∧
  r = (tc + sumZ hp_committed ps, tw + sumZ hp_winnings ps) ∧ r.1 ≤ i64_max ∧ r.2 ≤ i64_max.
Proof.
  revert cards seen tc tw. induction ps as [|p ps IH]; intros cards seen tc tw Htc Htw.
  { simpl. rw !Z.add_0_r. split; [intros [= <-]|].
    - split_and!; [by constructor|by apply NoDup_nil_2|by intros p ?%not_elem_of_nil|by eexists|done..].
    - by intros (_ & _ & _ & _ & -> & _). }
  rw check_players_cons. cbn [hand_cards mbind list_bind].
  rw -/(hand_cards ps) add_cards_app fmap_cons NoDup_cons Forall_cons.
  destruct (add_cards cards (hp_hole_cards p)) as [cards'|]; simpl; last first.
  { split; [done|]. intros (_ & _ & _ & [? ?] & _). done. }
  case_bool_decide as Hp.
  - destruct Hp as (Hp & Hs & Hc & Hw). rw IH //. rw !Z.add_assoc.
    split.
    + intros (Hv & Hnd & Hn & Hcards & -> & H1 & H2). split_and!; try done.
      * intros (q & Hq & Hin)%list_elem_of_fmap. specialize (Hn q Hin). set_solver.
      * intros q [->|Hq]%elem_of_cons; [done|]. specialize (Hn q Hq). set_solver.
    + intros ([_ Hv] & [Hnp Hnd] & Hn & Hcards & -> & H1 & H2). split_and!; try done.
      intros q Hq. apply not_elem_of_union. split; [|apply Hn; by right].
      intros Heq%elem_of_singleton. apply Hnp, list_elem_of_fmap. by exists q.
  - split; [done|]. intros ([Hv Hvs] & [_ _] & Hn & _ & -> & H1 & H2). destruct Hp.
    destruct (players_nonneg ps Hvs). cbn in H1, H2.
    split_and!; [done|apply Hn; left|lia|lia].
Qed.

(** The validation accepts exactly the settlements of two to six distinct
    players with valid seats and stacks, whose board and hole cards are distinct
    cards of the deck, and whose commitments and winnings both add up to the
    pot; its guarded sums never leave the 64-bit range. ([total_pot] is a 64-bit
    integer and the cards are objects of the card type.) *)
Lemma validHandSettlement_correct v :
  hst_total_pot v ≤ i64_max →
  Forall u8_card (hst_board v ++ hand_cards (hst_players v)) →
  validHandSettlement v = true ↔ settlement_valid v.
Proof.
  intros Hpot Hu8. rw /validHandSettlement. destruct (_ || (hst_total_pot v <? 0)) eqn:Hg.
  { split; [done|]. intros [(?&?&?) ? ? Hv _ _ _ Hc _]. exfalso.
    destruct (players_nonneg _ Hv).
    repeat (apply orb_true_iff in Hg as [Hg|Hg]); guards; try lia. }
  guards. pose proof (add_cards_app (replicate 52 false) (hst_board v)
    (hand_cards (hst_players v))) as Happ.
  pose proof (add_cards_spec _ Hu8) as Hcards. rw Happ in Hcards. clear Happ.
  destruct (add_cards _ (hst_board v)) as [cards|]; simpl in Hcards; last first.
  { split; [done|]. intros H'. destruct Hcards as [_ Hx].
    destruct Hx as [? ?]; [|done]. split; apply H'. }
  pose proof (check_players_spec (hst_players v) cards ∅ 0 0) as Hspec.
  destruct (check_players _ _ _ _ _) as [[tc tw]|].
  - destruct (Hspec (tc, tw)) as [Hs _]; [done..|].
    destruct (Hs eq_refl) as (Hv & Hnd & _ & Hc & [= -> ->] & _ & _).
    rw andb_true_iff !Z.eqb_eq. split.
    + intros [? ?]. apply Hcards in Hc as [? ?]. split; try done; lia.
    + by intros [].
  - split; [done|]. intros Hsv. exfalso.
    destruct (Hspec (0 + sumZ hp_committed (hst_players v), 0 + sumZ hp_winnings (hst_players v)))
      as [_ Hs]; [done..|].
    discriminate Hs. split_and!; try apply Hsv; try done.
    + apply Hcards. split; apply Hsv.
    + cbn. rw (sv_committed v Hsv). lia.
    + cbn. rw (sv_winnings v Hsv). lia.
Qed.
