(* ===== verification/GameStoreInv.v ===== *)
(** * The game store's invariant and the conservation of chips

    The calls of the store as a datatype, the invariant every call preserves,
    the total of chips (wallets and reserved stacks) every call but the seeding
    of a wallet conserves, and the logs that only grow. *)
From S2P Require Import Prelude Card Table AccountStore GameStore GameStoreLib.

(** ** Calls *)

Inductive GameCall :=
  | SeedWallet (user_id balance : Z)
  | CreateTable (table : TableRecord)
  | ReserveBuyIn (id user_id seat amount : Z) (key : string)
  | CashOut (id user_id : Z) (key : string)
  | BeginHand (hand : HandStartRecord)
  | AppendAction (action : HandActionRecord)
  | SettleHand (value : HandSettlementRecord)
  | AbortTable (id : Z).

Definition game_step (c : GameCall) (g : InMemoryGameStore) : InMemoryGameStore :=
  match c with
  | SeedWallet u b => (seedWallet u b g).2
  | CreateTable t => (createTable t g).2
  | ReserveBuyIn id u seat amount key => (reserveBuyIn id u seat amount key g).2
  | CashOut id u key => (cashOut id u key g).2
  | BeginHand hand => (beginHand hand g).2
  | AppendAction a => (appendAction a g).2
  | SettleHand v => (settleHand v g).2
  | AbortTable id => (abortTableAndRefund id g).2
  end.

Definition games_after (calls : list GameCall) (g : InMemoryGameStore) : InMemoryGameStore :=
  foldl (λ g c, game_step c g) g calls.

(** Chips a call brings into the store. *)
Definition seeded (c : GameCall) (g : InMemoryGameStore) : Z :=
  match c with
  | SeedWallet u b => if bool_decide ((seedWallet u b g).1 = Storage_ok) then b else 0
  | _ => 0
  end.

Fixpoint seeded_all (calls : list GameCall) (g : InMemoryGameStore) : Z :=
  match calls with
  | [] => 0
  | c :: calls => seeded c g + seeded_all calls (game_step c g)
  end.

(** ** The invariant *)

Record table_inv (w : gmap Z Z) (id : Z) (t : StoredTable) : Prop := {
  ti_id : table_id (st_record t) = id;
  ti_seat : ∀ u s, st_seats t !! u = Some s →
    seat_user s = u ∧ 0 ≤ seat_stack s ∧ is_Some (w !! u) ∧ st_occupied t !! seat_no s = Some u;
  ti_occupied : ∀ n u, st_occupied t !! n = Some u →
    ∃ s, st_seats t !! u = Some s ∧ seat_no s = n;
  ti_aborted : st_aborted t = true → st_seats t = ∅ ∧ st_hand_in_progress t = false;
  ti_blinds : blinds_fit (table_config (st_record t));
}.

Record games_inv (g : InMemoryGameStore) : Prop := {
  gi_wallets : ∀ u b, wallets g !! u = Some b → 0 ≤ b;
  gi_tables : ∀ id t, tables g !! id = Some t → table_inv (wallets g) id t;
  gi_settled : ∀ h v, settlements g !! h = Some v →
    hst_hand_id v = h ∧ validHandSettlement v = true ∧ is_Some (hand_starts g !! h);
  gi_actions : ∀ k a, actions g !! k = Some a →
    k = (ha_hand_id a, ha_sequence a) ∧ is_Some (hand_starts g !! ha_hand_id a);
  gi_requests : ∀ k k' a b, actions g !! k = Some a → actions g !! k' = Some b →
    ha_hand_id a = ha_hand_id b → ha_user_id a = ha_user_id b →
    ha_request_id a = ha_request_id b → k = k';
}.

Definition table_chips (t : StoredTable) : Z := sumM seat_stack (st_seats t).
Definition store_chips (g : InMemoryGameStore) : Z :=
  sumM (λ b : Z, b) (wallets g) + sumM table_chips (tables g).

Lemma games_inv_new : games_inv Games_new.
Proof. split; intros *; cbn; by rw lookup_empty. Qed.

Lemma table_chips_nonneg w id t : table_inv w id t → 0 ≤ table_chips t.
Proof. intros Ht. apply sumM_nonneg. intros u s Hs. by destruct (ti_seat _ _ _ Ht u s Hs) as (? & ? & _). Qed.

Lemma table_inv_wallets w w' id t :
  (∀ u, is_Some (w !! u) → is_Some (w' !! u)) → table_inv w id t → table_inv w' id t.
Proof.
  intros Hw [Hid Hs Ho Ha]. split; [done| |done..].
  intros u s Hu. destruct (Hs u s Hu) as (? & ? & ? & ?). split_and!; auto.
Qed.

(** One table and the wallets change; the logs are untouched. *)
Lemma games_inv_update id t' w' l g :
  games_inv g → table_inv w' id t' →
  (∀ u, is_Some (wallets g !! u) → is_Some (w' !! u)) →
  (∀ u b, w' !! u = Some b → 0 ≤ b) →
  games_inv (with_ledger l (set_table id t' (with_wallets w' g))).
Proof.
  intros [Hw Ht Hs Ha Hr] Ht' Hmono Hnn. split; cbn; try done.
  intros i t. rw lookup_insert_Some. intros [[<- <-]|[Hne Hi]]; [done|].
  by apply (table_inv_wallets (wallets g)), Ht.
Qed.

Lemma games_inv_table id t' g :
  games_inv g → table_inv (wallets g) id t' → games_inv (set_table id t' g).
Proof.
  intros Hg Ht'. destruct g as [w t l a h s].
  apply (games_inv_update id t' w l (mkGames w t l a h s)); [done..|apply Hg].
Qed.

Lemma store_chips_update id t t' w' l g :
  tables g !! id = Some t →
  store_chips (with_ledger l (set_table id t' (with_wallets w' g))) =
  store_chips g - sumM (λ b : Z, b) (wallets g) + sumM (λ b : Z, b) w' - table_chips t + table_chips t'.
Proof. intros Hid. rw /store_chips /= (sumM_insert_old _ _ id t) //. lia. Qed.

Lemma is_Some_insert_mono `{Countable K} {A} (m : gmap K A) i x u :
  is_Some (m !! u) → is_Some (<[i:=x]> m !! u).
Proof. intros [y Hy]. rw lookup_insert. case_decide; by eexists. Qed.

Lemma wallets_insert_nonneg (m : gmap Z Z) i x :
  (∀ u b, m !! u = Some b → 0 ≤ b) → 0 ≤ x → ∀ u b, <[i:=x]> m !! u = Some b → 0 ≤ b.
Proof. intros Hm Hx u b. rw lookup_insert_Some. intros [[_ <-]|[_ ?]]; [done|by apply (Hm u)]. Qed.

(** ** Paying a settlement *)

Lemma pay_seat_lookup seats p u :
  pay_seat seats p !! u =
  if decide (u = hp_user_id p)
  then (λ s, mkSeat (seat_user s) (seat_no s) (hp_end_stack p)) <$> seats !! u
  else seats !! u.
Proof. rw /pay_seat lookup_alter. case_decide as H1; case_decide as H2; congruence. Qed.

(** Every seat keeps its owner and number; its stack is the one the settlement
    names, or unchanged. *)
Lemma pay_seats_lookup ps seats u s' :
  foldl pay_seat seats ps !! u = Some s' →
  ∃ s, seats !! u = Some s ∧ seat_user s' = seat_user s ∧ seat_no s' = seat_no s ∧
    (seat_stack s' = seat_stack s ∨ ∃ p, p ∈ ps ∧ hp_user_id p = u ∧ seat_stack s' = hp_end_stack p).
Proof.
  revert seats. induction ps as [|p ps IH]; intros seats; simpl; [naive_solver|].
  intros (s & Hs & Hu & Hn & Hst)%IH. rw pay_seat_lookup in Hs. case_decide as Hp.
  - destruct (seats !! u) as [s0|]; simplify_eq/=. exists s0. split_and!; try done.
    destruct Hst as [->|(q & ? & ? & ?)]; right; [exists p|exists q]; set_solver.
  - exists s. split_and!; try done. destruct Hst as [?|(q & ? & ? & ?)]; [by left|right].
    exists q. set_solver.
Qed.

Lemma pay_seats_is_Some ps seats u :
  is_Some (seats !! u) → is_Some (foldl pay_seat seats ps !! u).
Proof.
  revert seats. induction ps as [|p ps IH]; intros seats [s Hs]; simpl; [by eexists|].
  apply IH. rw pay_seat_lookup Hs. case_decide; by eexists.
Qed.

(** The settled players hold exactly the stacks the settlement names. *)
Lemma pay_seats_settled ps seats p :
  NoDup (hp_user_id <$> ps) → p ∈ ps → is_Some (seats !! hp_user_id p) →
  seat_stack <$> foldl pay_seat seats ps !! hp_user_id p = Some (hp_end_stack p).
Proof.
  revert seats. induction ps as [|q ps IH]; intros seats; simpl; [by intros _ ?%not_elem_of_nil|].
  rw NoDup_cons. intros [Hq Hnd] [->|Hp]%elem_of_cons [s Hs]; last first.
  { apply IH; [done..|]. rw pay_seat_lookup Hs. case_decide; by eexists. }
  cut (∀ l m, hp_user_id q ∉ (hp_user_id <$> l) →
        foldl pay_seat m l !! hp_user_id q = m !! hp_user_id q).
  { intros H. rw H // pay_seat_lookup decide_True // Hs. done. }
  induction l as [|r l IHl]; intros m Hr; simpl; [done|]. rw fmap_cons not_elem_of_cons in Hr.
  rw IHl; [tauto|]. rw pay_seat_lookup decide_False //. tauto.
Qed.

(** What the players' stacks add up to. *)
Lemma pay_seats_chips ps seats :
  NoDup (hp_user_id <$> ps) →
  (∀ p, p ∈ ps → ∃ s, seats !! hp_user_id p = Some s ∧ seat_stack s = hp_start_stack p) →
  sumM seat_stack (foldl pay_seat seats ps) =
  sumM seat_stack seats - sumZ hp_start_stack ps + sumZ hp_end_stack ps.
Proof.
  revert seats. induction ps as [|p ps IH]; intros seats; simpl; [lia|].
  rw NoDup_cons. intros [Hp Hnd] Hs.
  destruct (Hs p) as (s & Hsp & Hst); [left|].
  rw IH //.
  - intros q Hq. destruct (Hs q) as (s' & Hs' & ?); [by right|]. exists s'. split; [|done].
    rw pay_seat_lookup decide_False //. intros Heq. apply Hp, list_elem_of_fmap. by exists q.
  - assert (pay_seat seats p = <[hp_user_id p := mkSeat (seat_user s) (seat_no s) (hp_end_stack p)]> seats) as ->.
    { apply map_eq. intros u. rw pay_seat_lookup lookup_insert.
      destruct (decide (u = hp_user_id p)) as [->|]; [by rw decide_True // Hsp|by rw decide_False]. }
    rw (sumM_insert_old _ _ _ s) //=. lia.
Qed.

Lemma settle_player_ok_inv t p :
  settle_player_ok t p = true →
  ∃ s, st_seats t !! hp_user_id p = Some s ∧ seat_no s = hp_seat p ∧
    seat_stack s = hp_start_stack p ∧ 0 ≤ hp_end_stack p ∧
    hp_end_stack p = hp_start_stack p - hp_committed p + hp_winnings p.
Proof.
  rw /settle_player_ok. destruct (st_seats t !! _) as [s|]; [|done]. intros H. guards.
  exists s. split_and!; done.
Qed.

(** ** Refunding a table *)

Lemma refund_seats_spec l (w : gmap Z Z) :
  NoDup l.*1 → (∀ u s, (u, s) ∈ l → is_Some (w !! u) ∧ 0 ≤ seat_stack s) →
  (∀ u b, w !! u = Some b → 0 ≤ b) →
  ∃ w', refund_seats l w = (w', true) ∧
    (∀ u b, w' !! u = Some b → 0 ≤ b) ∧
    (∀ u, is_Some (w !! u) → is_Some (w' !! u)) ∧
    sumM (λ b : Z, b) w' = sumM (λ b : Z, b) w + sumZ (λ e, seat_stack e.2) l ∧
    (∀ u, u ∉ l.*1 → w' !! u = w !! u) ∧
    (∀ u s b, (u, s) ∈ l → w !! u = Some b → w' !! u = Some (b + seat_stack s)).
Proof.
  revert w. induction l as [|[u s] l IH]; intros w; cbn [fmap list_fmap fst].
  { intros _ _ Hnn. exists w. split_and!; try done; [simpl; lia|].
    by intros ??? ?%not_elem_of_nil. }
  rw NoDup_cons. intros [Hu Hnd] Hl Hnn.
  destruct (Hl u s) as [[b Hb] Hs]; [left|].
  assert (0 ≤ b) by by apply (Hnn u).
  destruct (IH (<[u := b + seat_stack s]> w)) as (w' & Hw' & Hnn' & Hmono & Hsum & Hout & Hin);
    [done| | |].
  { intros u' s' Hin. destruct (Hl u' s') as [? ?]; [by right|].
    split; [by apply is_Some_insert_mono|done]. }
  { apply wallets_insert_nonneg; [done|lia]. }
  exists w'. cbn [refund_seats]. rw Hb. split_and!; [done|done| | | |].
  - intros u' ?. by apply Hmono, is_Some_insert_mono.
  - rw Hsum (sumM_insert_old _ _ _ b) //=. lia.
  - intros u'. rw not_elem_of_cons. intros [Hne Hn]. rw Hout // lookup_insert_ne //.
  - intros u' s' b'. rw elem_of_cons. intros [[= -> ->]|Hin'] Hb'.
    + rw Hout // lookup_insert_eq. congruence.
    + apply Hin; [done|]. rw lookup_insert_ne //. intros ->. apply Hu, list_elem_of_fmap.
      by exists (u', s').
Qed.

(** ** Every call keeps the invariant *)

(** The ledger and the log of hands are append-only. *)
Definition logs_grow (g g' : InMemoryGameStore) : Prop :=
  ledger g ⊆ ledger g' ∧ actions g ⊆ actions g' ∧ hand_starts g ⊆ hand_starts g' ∧
  settlements g ⊆ settlements g'.

#[export] Instance logs_grow_preorder : PreOrder logs_grow.
Proof.
  split; [by intros g; split_and!|]. intros g1 g2 g3 (?&?&?&?) (?&?&?&?).
  split_and!; by etrans.
Qed.

(** [g'] is a store a call may leave behind: [delta] chips came in. *)
Definition keeps (g g' : InMemoryGameStore) (delta : Z) : Prop :=
  games_inv g' ∧ store_chips g' = store_chips g + delta ∧ logs_grow g g'.

Lemma keeps_same g : games_inv g → keeps g g 0.
Proof. intros. split_and!; [done|lia|done]. Qed.

Lemma keeps_update id t t' w' l g :
  games_inv g → tables g !! id = Some t → table_inv w' id t' →
  (∀ u, is_Some (wallets g !! u) → is_Some (w' !! u)) →
  (∀ u b, w' !! u = Some b → 0 ≤ b) → ledger g ⊆ l →
  sumM (λ b : Z, b) w' + table_chips t' = sumM (λ b : Z, b) (wallets g) + table_chips t →
  keeps g (with_ledger l (set_table id t' (with_wallets w' g))) 0.
Proof.
  intros Hg Ht Ht' Hmono Hnn Hl Hsum. split; [by apply games_inv_update|].
  split; [rw (store_chips_update _ t) //; lia|]. by split_and!.
Qed.

Lemma seedWallet_keeps u b g : games_inv g → keeps g (seedWallet u b g).2 (seeded (SeedWallet u b) g).
Proof.
  intros Hg. rw /seeded /seedWallet. destruct (_ || _) eqn:Hbad; [by apply keeps_same|].
  destruct (wallets g !! u) as [w|] eqn:Hu; [by apply keeps_same|]. guards.
  cbn. destruct Hg as [Hw Ht Hs Ha Hr]. split_and!; try done.
  - split; try done; cbn.
    + by apply wallets_insert_nonneg.
    + intros id t Hid. apply (table_inv_wallets (wallets g)), Ht; [|done].
      intros v. apply is_Some_insert_mono.
  - rw /store_chips /= sumM_insert_new //. lia.
Qed.

(** A call that returns: the table is made, or nothing is. *)
Lemma createTable_cases t g :
  (createTable t g = (Undef, g) ∧ ¬ blinds_fit (table_config t)) ∨
  (∃ e, createTable t g = (Ok e, g) ∧ e ≠ Storage_ok) ∨
  (createTable t g = (Ok Storage_ok, set_table (table_id t) (mkStored t false false ∅ ∅) g) ∧
   tables g !! table_id t = None ∧ blinds_fit (table_config t)).
Proof.
  rw /createTable /i64 /blinds_fit. destruct (_ || _) eqn:Hbad; [right; left; by eexists|].
  destruct ((i64_min <=? _) && _) eqn:Hfit.
  - destruct ((big_blind _ <? _) || _ || _); [right; left; by eexists|].
    destruct (tables g !! table_id t); [right; left; by eexists|]. right. right. split_and!; [done..|].
    apply andb_true_iff in Hfit as [_ Hfit]. lia.
  - left. split; [done|]. apply orb_false_iff in Hbad as [_ Hbad]. rw /i64_min in Hfit. lia.
Qed.

Lemma createTable_returns t g : blinds_fit (table_config t) → ∃ e, (createTable t g).1 = Ok e.
Proof. intros Hfit. destruct (createTable_cases t g) as [[_ ?]|[(e & -> & _)|[-> _]]]; [done|by eexists..]. Qed.

Lemma createTable_keeps t g : games_inv g → keeps g (createTable t g).2 0.
Proof.
  intros Hg. destruct (createTable_cases t g) as [[-> _]|[(e & -> & _)|(-> & Ht & Hfit)]]; [by apply keeps_same..|].
  cbn. split_and!; try done.
  - apply games_inv_table; [done|]. split; [done|intros *; cbn; by rw lookup_empty..|done|done].
  - rw /store_chips /= sumM_insert_new // /table_chips /= sumM_empty. lia.
Qed.

(** What an accepted new buy-in and an accepted new cash-out do. *)
Definition bought id user_id seat amount key (t : StoredTable) wallet g :=
  with_ledger (<[ledgerKey user_id key := mkLedger buy_in id (wallet - amount) amount seat]> (ledger g))
    (set_table id (with_seating (<[user_id := mkSeat user_id seat amount]> (st_seats t))
                     (<[seat := user_id]> (st_occupied t)) t)
       (with_wallets (<[user_id := wallet - amount]> (wallets g)) g)).

Definition cashed id user_id key (t : StoredTable) wallet s g :=
  with_ledger (<[ledgerKey user_id key :=
                   mkLedger cash_out id (wallet + seat_stack s) (seat_stack s) (seat_no s)]> (ledger g))
    (set_table id (with_seating (delete user_id (st_seats t)) (delete (seat_no s) (st_occupied t)) t)
       (with_wallets (<[user_id := wallet + seat_stack s]> (wallets g)) g)).

(** The conditions under which a buy-in with a fresh key is accepted. *)
Definition may_buy_in id user_id seat amount key t wallet (g : InMemoryGameStore) : Prop :=
  id ≠ 0 ∧ user_id ≠ 0 ∧ 0 < amount ∧ key ≠ ""%string ∧ (String.length key ≤ 96)%nat ∧
  tables g !! id = Some t ∧ wallets g !! user_id = Some wallet ∧
  st_aborted t = false ∧ st_hand_in_progress t = false ∧
  seat < Z.of_nat (max_players (table_config (st_record t))) ∧
  min_buy_in (table_config (st_record t)) ≤ amount ≤ max_buy_in (table_config (st_record t)) ∧
  st_seats t !! user_id = None ∧ st_occupied t !! seat = None ∧ amount ≤ wallet.

Definition may_cash_out id user_id key t wallet s (g : InMemoryGameStore) : Prop :=
  id ≠ 0 ∧ user_id ≠ 0 ∧ key ≠ ""%string ∧ (String.length key ≤ 96)%nat ∧
  tables g !! id = Some t ∧ wallets g !! user_id = Some wallet ∧
  st_hand_in_progress t = false ∧ st_seats t !! user_id = Some s.

(** A branch of a call that refuses, for a reason the conditions exclude. *)
Ltac refused :=
  left; split; [done|]; intros _; split; [|done]; intros Hmay;
  repeat match type of Hmay with
  | ∃ _, _ => destruct Hmay as [? Hmay]
  end;
  destruct_and? Hmay; congruence.

Lemma reserveBuyIn_cases id user_id seat amount key g :
  ((reserveBuyIn id user_id seat amount key g).2 = g ∧
   (ledger g !! ledgerKey user_id key = None →
    ¬ (∃ t wallet, may_buy_in id user_id seat amount key t wallet g) ∧
    sr_bool (reserveBuyIn id user_id seat amount key g).1 = false)) ∨
  ledger g !! ledgerKey user_id key = None ∧
  ∃ t wallet, may_buy_in id user_id seat amount key t wallet g ∧
    reserveBuyIn id user_id seat amount key g =
      (sr_ok (mkBuyInReceipt (wallet - amount) amount), bought id user_id seat amount key t wallet g).
Proof.
  rw /reserveBuyIn /may_buy_in. destruct (_ || _) eqn:Hbad.
  { left. split; [done|]. intros _. split; [|done]. intros (t & w & ?&?&?&?&?&_).
    repeat (apply orb_true_iff in Hbad as [Hbad|Hbad]); guards; try lia; done. }
  destruct (ledger g !! _) as [replay|] eqn:Hl; [by left|].
  destruct (tables g !! id) as [t|]; [|refused].
  destruct (wallets g !! user_id) as [w|]; [|refused].
  destruct (st_aborted t) eqn:Hab; [refused|].
  destruct (st_hand_in_progress t) eqn:Hh; [refused|].
  destruct (_ || (max_buy_in _ <? amount)) eqn:Hamt.
  { left. split; [done|]. intros _. split; [|done]. intros (t' & w' & ?&?&?&?&?&[= <-]&_&_&_&?&[? ?]&_).
    repeat (apply orb_true_iff in Hamt as [Hamt|Hamt]); guards; lia. }
  destruct (_ || bool_decide (is_Some (st_occupied t !! seat))) eqn:Hocc.
  { left. split; [done|]. intros _. split; [|done].
    intros (t' & w' & ?&?&?&?&?&[= <-]&_&_&_&_&_&Hn&Hn'&_). rw Hn Hn' in Hocc.
    apply orb_true_iff in Hocc as [Ho|Ho]; apply bool_decide_eq_true in Ho as [? ?]; done. }
  destruct (w <? amount) eqn:Hw.
  { left. split; [done|]. intros _. split; [|done]. guards.
    intros (t' & w' & _&_&_&_&_&[= <-]&[= <-]&_&_&_&_&_&_&?). lia. }
  right. guards. split; [done|]. exists t, w. split; [|done].
  split_and!; try done; by apply eq_None_not_Some.
Qed.

Lemma cashOut_cases id user_id key g :
  ((cashOut id user_id key g).2 = g ∧
   (ledger g !! ledgerKey user_id key = None →
    ¬ (∃ t wallet s, may_cash_out id user_id key t wallet s g) ∧
    sr_bool (cashOut id user_id key g).1 = false)) ∨
  ledger g !! ledgerKey user_id key = None ∧
  ∃ t wallet s, may_cash_out id user_id key t wallet s g ∧
    cashOut id user_id key g =
      (sr_ok (mkCashOutReceipt (wallet + seat_stack s) (seat_stack s)),
       cashed id user_id key t wallet s g).
Proof.
  rw /cashOut /may_cash_out. destruct (_ || _) eqn:Hbad.
  { left. split; [done|]. intros _. split; [|done]. intros (t & w & s & ?&?&?&?&_).
    repeat (apply orb_true_iff in Hbad as [Hbad|Hbad]); guards; try lia; done. }
  destruct (ledger g !! _) as [replay|] eqn:Hl; [by left; destruct (negb _ || _)|].
  destruct (tables g !! id) as [t|]; [|refused].
  destruct (wallets g !! user_id) as [w|]; [|refused].
  destruct (st_hand_in_progress t) eqn:Hh; [refused|].
  destruct (st_seats t !! user_id) as [s|] eqn:Hs; [|refused].
  right. guards. split; [done|]. exists t, w, s. by split_and!.
Qed.

Lemma bought_keeps id user_id seat amount key t wallet g :
  games_inv g → may_buy_in id user_id seat amount key t wallet g →
  ledger g !! ledgerKey user_id key = None →
  keeps g (bought id user_id seat amount key t wallet g) 0.
Proof.
  intros Hg (_&_&Hamt&_&_&Ht&Hw&Hab&_&_&_&Hs&Ho&Hle) Hl.
  destruct (gi_tables g Hg id t Ht) as [Hid Hseat Hocc _ Hfit].
  apply (keeps_update id t); [done..| | | | |].
  - split; cbn; [done| | |by rw Hab|done].
    + intros u s. rw lookup_insert_Some. intros [[<- <-]|[Hne Hus]].
      * cbn. rw !lookup_insert_eq. split_and!; [done|lia|by eexists|done].
      * destruct (Hseat u s Hus) as (? & ? & ? & Hn). split_and!; [done..| |].
        -- by apply is_Some_insert_mono.
        -- rw lookup_insert_ne //. intros Heq. congruence.
    + intros n u. rw lookup_insert_Some. intros [[<- <-]|[Hne Hn]].
      * eexists. by rw lookup_insert_eq.
      * destruct (Hocc n u Hn) as (s & Hus & ?). exists s. split; [|done].
        rw lookup_insert_ne //. intros <-. congruence.
  - intros u. apply is_Some_insert_mono.
  - apply wallets_insert_nonneg; [apply Hg|lia].
  - by apply insert_subseteq.
  - rw (sumM_insert_old _ _ _ wallet) // /table_chips /= sumM_insert_new //=. lia.
Qed.

Lemma cashed_keeps id user_id key t wallet s g :
  games_inv g → may_cash_out id user_id key t wallet s g →
  ledger g !! ledgerKey user_id key = None →
  keeps g (cashed id user_id key t wallet s g) 0.
Proof.
  intros Hg (_&_&_&_&Ht&Hw&Hh&Hs) Hl.
  destruct (gi_tables g Hg id t Ht) as [Hid Hseat Hocc Hab Hfit].
  destruct (Hseat _ _ Hs) as (_ & Hst & _ & Hno).
  assert (0 ≤ wallet) by by apply (gi_wallets g Hg user_id).
  apply (keeps_update id t); [done..| | | | |].
  - split; cbn; [done| | | |done].
    + intros u s'. rw lookup_delete_Some. intros [Hne Hus].
      destruct (Hseat u s' Hus) as (? & ? & ? & Hn). split_and!; [done..| |].
      * by apply is_Some_insert_mono.
      * rw lookup_delete_ne //. intros Heq. rw Heq in Hno. congruence.
    + intros n u. rw lookup_delete_Some. intros [Hne Hn].
      destruct (Hocc n u Hn) as (s' & Hus & ?). exists s'. split; [|done].
      rw lookup_delete_ne //. intros <-. congruence.
    + intros Ha. destruct (Hab Ha) as [-> ?]. by rw delete_empty.
  - intros u. apply is_Some_insert_mono.
  - apply wallets_insert_nonneg; [apply Hg|lia].
  - by apply insert_subseteq.
  - rw (sumM_insert_old _ _ _ wallet) // /table_chips /= (sumM_delete _ (st_seats t) user_id s) //. lia.
Qed.

Lemma reserveBuyIn_keeps id u seat amount key g :
  games_inv g → keeps g (reserveBuyIn id u seat amount key g).2 0.
Proof.
  intros Hg. destruct (reserveBuyIn_cases id u seat amount key g)
    as [[-> _]|(Hl & t & w & Hmay & ->)]; [by apply keeps_same|by apply bought_keeps].
Qed.

Lemma cashOut_keeps id u key g : games_inv g → keeps g (cashOut id u key g).2 0.
Proof.
  intros Hg. destruct (cashOut_cases id u key g)
    as [[-> _]|(Hl & t & w & s & Hmay & ->)]; [by apply keeps_same|by apply cashed_keeps].
Qed.

(** Tables and hand records change, wallets and seated players do not. *)
Lemma keeps_hands id t t' h s g :
  games_inv g → tables g !! id = Some t → table_inv (wallets g) id t' →
  table_chips t' = table_chips t → hand_starts g ⊆ h → settlements g ⊆ s →
  (∀ k v, s !! k = Some v → hst_hand_id v = k ∧ validHandSettlement v = true ∧ is_Some (h !! k)) →
  keeps g (set_table id t' (with_hands h s g)) 0.
Proof.
  intros [Hw Ht Hs Ha Hr] Hid Ht' Hc Hh Hss Hv. split_and!; try done.
  - split; cbn; [done| |done| |done].
    + intros i v. rw lookup_insert_Some. intros [[<- <-]|[? ?]]; [done|by apply Ht].
    + intros k a Hk. destruct (Ha k a Hk) as [-> [x Hx]]. split; [done|].
      exists x. by apply (lookup_weaken _ _ _ _ Hx).
  - rw /store_chips /= (sumM_insert_old _ _ _ t) //. lia.
Qed.

Lemma table_inv_same w id t t' :
  table_inv w id t → st_record t' = st_record t → st_seats t' = st_seats t →
  st_occupied t' = st_occupied t → (st_aborted t' = true → st_seats t' = ∅ ∧ st_hand_in_progress t' = false) →
  table_inv w id t'.
Proof. intros [Hid Hs Ho _] E1 E2 E3 Ha. split; rw ?E1 ?E2 ?E3 //. by rw -E2. Qed.

Lemma beginHand_keeps hand g : games_inv g → keeps g (beginHand hand g).2 0.
Proof.
  intros Hg. pose proof (keeps_same g Hg) as Hsame. rw /beginHand.
  destruct (_ || _); [done|]. destruct (_ || _) eqn:Hdup; [done|].
  destruct (tables g !! _) as [t|] eqn:Ht; [|done].
  destruct (st_aborted t) eqn:Hab; [done|]. destruct (st_hand_in_progress t); [done|].
  destruct (forallb _ _); [|done]. cbn. guards.
  apply (keeps_hands _ t); try done.
  - eapply table_inv_same; [by apply (gi_tables g Hg)|done..|]. cbn. by rw Hab.
  - by apply insert_subseteq, eq_None_not_Some.
  - intros k v Hk. destruct (gi_settled g Hg k v Hk) as (? & ? & ?). split_and!; [done..|].
    by apply is_Some_insert_mono.
Qed.

Lemma appendAction_keeps a g : games_inv g → keeps g (appendAction a g).2 0.
Proof.
  intros Hg. pose proof (keeps_same g Hg) as Hsame. rw /appendAction.
  destruct (_ || _); [done|]. destruct (negb _) eqn:Hstart; [done|]. guards.
  destruct (bool_decide _); [done|].
  destruct (actions g !! _) as [old|] eqn:Hkey; [done|].
  destruct (List.find _ _) as [old|] eqn:Hfind; [done|]. cbn.
  assert (∀ k b, actions g !! k = Some b → ha_hand_id b = ha_hand_id a →
            ha_user_id b = ha_user_id a → ha_request_id b = ha_request_id a → False) as Hno.
  { intros k b Hk H1 H2 H3. assert (same_request a (k, b) = false) as Hsr.
    { apply (find_none _ _ Hfind), list_elem_of_In. rw merge_sort_Permutation.
      by apply elem_of_map_to_list. }
    rw /same_request /= H1 H2 H3 !Z.eqb_refl in Hsr. done. }
  destruct Hg as [Hw Ht Hs Ha Hr]. split_and!; try done.
  - split; cbn; [done|done|done| |].
    + intros k b. rw lookup_insert_Some. intros [[<- <-]|[? Hk]]; [done|by apply Ha].
    + intros k k' b b'. rw !lookup_insert_Some.
      intros [[<- <-]|[? Hk]] [[<- <-]|[? Hk']] ???; [done| | |by eapply Hr].
      * exfalso. by apply (Hno k' b').
      * exfalso. by apply (Hno k b).
  - rw /store_chips /=. lia.
  - split_and!; cbn; [done|by apply insert_subseteq|done..].
Qed.

Lemma settle_sums v :
  validHandSettlement v = true → NoDup (hp_user_id <$> hst_players v) ∧
  sumZ hp_committed (hst_players v) = sumZ hp_winnings (hst_players v).
Proof.
  rw /validHandSettlement. destruct (_ || _); [done|].
  destruct (add_cards _ _) as [cards|]; [|done].
  destruct (check_players _ _ _ _ _) as [[tc tw]|] eqn:Hp; [|done].
  apply check_players_spec in Hp as (_ & Hnd & _ & _ & [= -> ->] & _); [|done..].
  intros. guards. split; [done|lia].
Qed.

Lemma settled_table_inv w id t ps :
  table_inv w id t → forallb (settle_player_ok t) ps = true →
  table_inv w id (mkStored (st_record t) false false (foldl pay_seat (st_seats t) ps)
                    (st_occupied t)).
Proof.
  intros [Hid Hs Ho _ Hfit] Hok. rw forallb_forall in Hok. split; cbn; [done| | |done|done].
  - intros u s' Hu. destruct (pay_seats_lookup _ _ _ _ Hu) as (s & Hus & -> & -> & Hst).
    destruct (Hs u s Hus) as (? & ? & ? & ?). split_and!; [done| |done..].
    destruct Hst as [->|(p & Hp & _ & ->)]; [done|].
    by destruct (settle_player_ok_inv t p (Hok p (proj1 (list_elem_of_In _ _) Hp))) as (? & _ & _ & _ & ? & _).
  - intros n u Hn. destruct (Ho n u Hn) as (s & Hus & Hno).
    destruct (pay_seats_is_Some ps (st_seats t) u) as [s' Hs']; [by eexists|].
    exists s'. split; [done|]. destruct (pay_seats_lookup _ _ _ _ Hs') as (s0 & Hs0 & _ & -> & _).
    congruence.
Qed.

Lemma settled_chips t v :
  validHandSettlement v = true → forallb (settle_player_ok t) (hst_players v) = true →
  sumM seat_stack (foldl pay_seat (st_seats t) (hst_players v)) = table_chips t.
Proof.
  intros Hv Hok. destruct (settle_sums v Hv) as [Hnd Hsum]. rw forallb_forall in Hok.
  assert (∀ p, p ∈ hst_players v → settle_player_ok t p = true) as Hok'.
  { intros p Hp. by apply Hok, list_elem_of_In. }
  rw pay_seats_chips //.
  { intros p Hp. destruct (settle_player_ok_inv t p (Hok' p Hp)) as (s & ? & _ & ? & _). by exists s. }
  rw (sumZ_ext hp_end_stack (λ p, hp_start_stack p + (hp_winnings p + - hp_committed p))).
  { intros p Hp. destruct (settle_player_ok_inv t p (Hok' p Hp)) as (_ & _ & _ & _ & _ & ->). lia. }
  rw !sumZ_add. assert (∀ l, sumZ (λ p, - hp_committed p) l = - sumZ hp_committed l) as ->.
  { induction l; simpl; lia. }
  rw /table_chips. lia.
Qed.

Lemma settleHand_keeps v g : games_inv g → keeps g (settleHand v g).2 0.
Proof.
  intros Hg. pose proof (keeps_same g Hg) as Hsame. rw /settleHand.
  destruct (validHandSettlement v) eqn:Hv; [|done]. cbn [negb].
  destruct (settlements g !! _) as [old|] eqn:Hs; [done|].
  case_bool_decide as Hstart; cbn [negb]; [|done].
  destruct (tables g !! _) as [t|] eqn:Ht; [|done].
  destruct (st_aborted t); [done|]. destruct (st_hand_in_progress t); cbn [negb]; [|done].
  destruct (forallb _ _) eqn:Hok; [|done]. cbn.
  apply (keeps_hands _ t); try done.
  - apply settled_table_inv; [by apply (gi_tables g Hg)|done..].
  - by rw /table_chips /= settled_chips.
  - by apply insert_subseteq.
  - intros k w. rw lookup_insert_Some. intros [[<- <-]|[? Hk]]; [done|by apply (gi_settled g Hg)].
Qed.

Lemma abortTable_keeps id g : games_inv g → keeps g (abortTableAndRefund id g).2 0.
Proof.
  intros Hg. pose proof (keeps_same g Hg) as Hsame. rw /abortTableAndRefund.
  destruct (tables g !! id) as [t|] eqn:Ht; [|done].
  destruct (st_aborted t) eqn:Hab; [done|].
  destruct (gi_tables g Hg id t Ht) as [Hid Hseat Hocc _ Hfit].
  destruct (refund_seats_spec (map_to_list (st_seats t)) (wallets g))
    as (w' & -> & Hnn & Hmono & Hsum & _).
  { apply NoDup_fst_map_to_list. }
  { intros u s Hus%elem_of_map_to_list. by destruct (Hseat u s Hus) as (? & ? & ? & _). }
  { apply Hg. }
  cbn. destruct g as [w ts l a h ss]. cbn in *.
  apply (keeps_update id t _ w' l (mkGames w ts l a h ss)); [done..| |done|done|done|].
  - split; cbn; [done|intros *; by rw lookup_empty..|done|done].
  - cbn. rw Hsum /table_chips /= /sumM map_to_list_empty /=. lia.
Qed.

Lemma game_step_keeps c g : games_inv g → keeps g (game_step c g) (seeded c g).
Proof.
  intros Hg. destruct c; cbn [game_step seeded].
  - by apply seedWallet_keeps.
  - by apply createTable_keeps.
  - by apply reserveBuyIn_keeps.
  - by apply cashOut_keeps.
  - by apply beginHand_keeps.
  - by apply appendAction_keeps.
  - by apply settleHand_keeps.
  - by apply abortTable_keeps.
Qed.

Lemma games_after_keeps calls g :
  games_inv g → keeps g (games_after calls g) (seeded_all calls g).
Proof.
  revert g. induction calls as [|c calls IH]; intros g Hg; [by apply keeps_same|].
  destruct (game_step_keeps c g Hg) as (Hi & Hc & Hl).
  destruct (IH (game_step c g) Hi) as (Hi' & Hc' & Hl'). cbn.
  split_and!; [done|rw Hc' Hc; lia|by etrans].
Qed.
