(* ===== verification/GameStoreTheorems.v ===== *)
(** * What the game store guarantees

    Conservation and bounds over any sequence of calls, buy-ins and cash-outs
    with their idempotency keys, settlements exactly once, refunds on abort, and
    the validation of settlements. *)
From S2P Require Import Prelude Card Table AccountStore GameStore GameStoreLib GameStoreInv.

(** ** Lemmas *)

Lemma equivalentPlayer_spec p q : equivalentPlayer p q = true ↔ p = q.
Proof.
  rw /equivalentPlayer negb_true_iff !orb_false_iff !negb_false_iff !Z.eqb_eq
    bool_decide_eq_true Bool.eqb_true_iff.
  destruct p, q; cbn. split; [intros; destruct_and!; congruence|intros [=]; by split_and!].
Qed.

Lemma equivalentPlayers_spec l r :
  length l = length r → equivalentPlayers l r = true ↔ l = r.
Proof.
  revert r. induction l as [|p l IH]; intros [|q r] Hlen; try done; cbn [equivalentPlayers].
  destruct (equivalentPlayer p q) eqn:Hpq.
  - apply equivalentPlayer_spec in Hpq as ->. rw IH; [by injection Hlen|]. split; [by intros ->|by intros [=]].
  - split; [done|]. intros [= -> ->]. assert (equivalentPlayer q q = true); [|congruence].
    by apply equivalentPlayer_spec.
Qed.

Lemma equivalentHandSettlement_spec v v' : equivalentHandSettlement v v' = true ↔ v = v'.
Proof.
  rw /equivalentHandSettlement. destruct (_ || _) eqn:Hg.
  - split; [done|]. intros <-. repeat (apply orb_true_iff in Hg as [Hg|Hg]); guards; done.
  - guards. rw equivalentPlayers_spec //. destruct v, v'; cbn in *. split; [congruence|by intros [=]].
Qed.

Lemma seatStack_lookup id u t g :
  tables g !! id = Some t → seatStack id u g = seat_stack <$> st_seats t !! u.
Proof. intros Ht. by rw /seatStack Ht. Qed.

(** The seats a call leaves alone. *)
Lemma seatStack_set_table id t' w l g id' u :
  seatStack id' u (with_ledger l (set_table id t' (with_wallets w g))) =
  if decide (id' = id) then seat_stack <$> st_seats t' !! u else seatStack id' u g.
Proof.
  rw /seatStack /=. case_decide as Hid; [subst; by rw lookup_insert_eq|].
  by rw lookup_insert_ne.
Qed.

(** A ledger entry answers a cash-out key for good. *)
Lemma cashOut_replay id u key r g :
  id ≠ 0 → u ≠ 0 → key ≠ ""%string → (String.length key ≤ 96)%nat →
  ledger g !! ledgerKey u key = Some r → lr_kind r = cash_out → lr_table_id r = id →
  cashOut id u key g = (sr_ok (mkCashOutReceipt (lr_wallet_balance r) (lr_chips r)), g).
Proof.
  intros ???? Hl Hk Hid. rw /cashOut Hl Hk Hid. destruct (_ || _) eqn:Hbad; [|by rw Z.eqb_refl].
  exfalso. repeat (apply orb_true_iff in Hbad as [Hbad|Hbad]); guards; try lia; done.
Qed.

Lemma games_bounds g :
  games_inv g →
  (∀ u b, walletBalance u g = Some b → 0 ≤ b ≤ store_chips g) ∧
  (∀ id u s, seatStack id u g = Some s → 0 ≤ s ≤ store_chips g).
Proof.
  intros Hg.
  assert (∀ id t, tables g !! id = Some t → 0 ≤ table_chips t) as Htn.
  { intros id t Ht. by eapply table_chips_nonneg, (gi_tables g Hg). }
  assert (0 ≤ sumM (λ b : Z, b) (wallets g)) as Hwn by apply sumM_nonneg, Hg.
  assert (0 ≤ sumM table_chips (tables g)) by by apply sumM_nonneg.
  rw /store_chips. split.
  - intros u b Hb. pose proof (sumM_lookup_le (λ b : Z, b) _ u b (gi_wallets g Hg) Hb) as Hle.
    pose proof (gi_wallets g Hg u b Hb). cbv beta in Hle. lia.
  - intros id u s. rw /seatStack. destruct (tables g !! id) as [t|] eqn:Ht; cbn; [|done].
    destruct (st_seats t !! u) as [x|] eqn:Hx; cbn; [|done]. intros [= <-].
    pose proof (sumM_lookup_le table_chips _ id t Htn Ht).
    assert (∀ v y, st_seats t !! v = Some y → 0 ≤ seat_stack y) as Hsn.
    { intros v y Hy. by destruct (ti_seat _ _ _ (gi_tables g Hg id t Ht) v y Hy) as (_ & ? & _). }
    pose proof (sumM_lookup_le seat_stack _ u x Hsn Hx) as Hle. rw -/(table_chips t) in Hle.
    pose proof (Hsn u x Hx). lia.
Qed.

Lemma pay_seats_others ps seats u :
  u ∉ (hp_user_id <$> ps) → foldl pay_seat seats ps !! u = seats !! u.
Proof.
  revert seats. induction ps as [|p ps IH]; intros seats; simpl; [done|].
  rw not_elem_of_cons. intros [Hne Hn]. rw IH // pay_seat_lookup decide_False //.
Qed.

(** A stored settlement closes its hand. *)
Lemma settled_final v g :
  games_inv g → settlements g !! hst_hand_id v = Some v →
  settlement (hst_hand_id v) g = Some v ∧
  (∀ v', hst_hand_id v' = hst_hand_id v →
     (settleHand v' g).2 = g ∧ (settleHand v' g).1 ≠ Storage_ok ∧
     ((settleHand v' g).1 = Storage_duplicate ↔ v' = v)) ∧
  (∀ a, ha_hand_id a = hst_hand_id v →
     (appendAction a g).2 = g ∧ (appendAction a g).1 ≠ Storage_ok) ∧
  (∀ h, hsr_hand_id h = hst_hand_id v →
     (beginHand h g).2 = g ∧ (beginHand h g).1 ≠ Storage_ok).
Proof.
  intros Hg Hs. destruct (gi_settled g Hg _ _ Hs) as (_ & Hv & _). split; [done|]. split_and!.
  - intros v' Hid. rw /settleHand. destruct (validHandSettlement v') eqn:Hv'; cbn [negb].
    + rw Hid Hs. pose proof (equivalentHandSettlement_spec v v') as He.
      destruct (equivalentHandSettlement v v'); cbn; (split; [done|]); (split; [done|]).
      * split; [|done]. intros _. symmetry. by apply He.
      * split; [done|]. intros ->. by destruct He as [_ He]; discriminate He.
    + cbn. split_and!; [done|done|]. split; [done|]. intros ->. congruence.
  - intros a Hid. rw /appendAction. destruct (_ || _); [done|].
    destruct (bool_decide (is_Some (hand_starts g !! _))); [|done]. cbn [negb].
    rw Hid Hs bool_decide_eq_true_2 //.
  - intros h Hid. rw /beginHand. destruct (_ || _); [done|].
    rw Hid Hs (bool_decide_eq_true_2 (is_Some (Some v))) // orb_true_r //.
Qed.

(** ** The properties *)

(** Whatever calls a store has served, it is well formed, its wallets and
    reserved stacks together hold exactly the chips seeded into wallets, and no
    wallet or stack is negative or exceeds that total: if the total fits 64
    bits, no balance computation overflows. *)
Lemma games_conserve (calls : list GameCall) :
  let g := games_after calls Games_new in
  games_inv g ∧ store_chips g = seeded_all calls Games_new ∧
  (∀ u b, walletBalance u g = Some b → 0 ≤ b ≤ seeded_all calls Games_new) ∧
  (∀ id u s, seatStack id u g = Some s → 0 ≤ s ≤ seeded_all calls Games_new).
Proof.
  intros g. destruct (games_after_keeps calls Games_new games_inv_new) as (Hi & Hc & _).
  assert (store_chips Games_new = 0) as H0 by done. rw H0 Z.add_0_l in Hc.
  split_and!; [done|done|..]; rw -Hc; by apply games_bounds.
Qed.

(** A buy-in with a fresh key succeeds exactly under the stated conditions;
    it then moves the amount from the wallet to a new stack and nothing else,
    and its key is spent: the same request is answered with the same receipt
    and no further effect, any other request with the key is refused. *)
Lemma reserveBuyIn_correct id u seat amount key g r g' :
  games_inv g → 0 ≤ u → ledger g !! ledgerKey u key = None →
  reserveBuyIn id u seat amount key g = (r, g') →
  (sr_bool r = true ↔ ∃ t w, may_buy_in id u seat amount key t w g) ∧
  (sr_bool r = false → g' = g) ∧
  (sr_bool r = true → ∃ w, walletBalance u g = Some w ∧ amount ≤ w ∧
     r = sr_ok (mkBuyInReceipt (w - amount) amount) ∧
     seatStack id u g = None ∧ seatStack id u g' = Some amount ∧
     walletBalance u g' = Some (w - amount) ∧
     (∀ v, v ≠ u → walletBalance v g' = walletBalance v g) ∧
     (∀ id' v, id' ≠ id ∨ v ≠ u → seatStack id' v g' = seatStack id' v g) ∧
     (∀ id' seat' amount', (reserveBuyIn id' u seat' amount' key g').2 = g' ∧
        (sr_bool (reserveBuyIn id' u seat' amount' key g').1 = true ↔
           id' = id ∧ seat' = seat ∧ amount' = amount)) ∧
     reserveBuyIn id u seat amount key g' = (r, g') ∧
     (∀ id', (cashOut id' u key g').2 = g' ∧ sr_bool (cashOut id' u key g').1 = false)).
Proof.
  intros Hg Hu Hl Heq.
  destruct (reserveBuyIn_cases id u seat amount key g) as [[Hsame Hno]|(_ & t & w & Hmay & Hok)].
  { rw Heq in Hsame, Hno. cbn in *. subst g'. destruct (Hno Hl) as [Hn Hb]. rw Hb.
    split_and!; try done. }
  rw Hok in Heq. injection Heq as <- <-. split; [split; [by intros _; exists t, w|done]|].
  split; [done|]. intros _. exists w.
  pose proof Hmay as (Hid & Hu0 & Hamt & Hk & Hlen & Ht & Hw & _ & _ & _ & _ & Hs & _ & Hle).
  assert (∀ id' seat' amount',
    reserveBuyIn id' u seat' amount' key (bought id u seat amount key t w g) =
    (if bool_decide (id' = id ∧ seat' = seat ∧ amount' = amount)
     then sr_ok (mkBuyInReceipt (w - amount) amount)
     else (reserveBuyIn id' u seat' amount' key (bought id u seat amount key t w g)).1,
     bought id u seat amount key t w g) ∧
    (sr_bool (reserveBuyIn id' u seat' amount' key (bought id u seat amount key t w g)).1 = true →
     id' = id ∧ seat' = seat ∧ amount' = amount)) as Hreplay.
  { intros id' seat' amount'. rw /reserveBuyIn. cbn [ledger bought with_ledger].
    rw lookup_insert_eq. destruct (_ || _) eqn:Hbad.
    - rw bool_decide_eq_false_2 //. intros (-> & -> & ->).
      repeat (apply orb_true_iff in Hbad as [Hbad|Hbad]); guards; try lia; done.
    - rw /replay_buy_in. cbn. destruct (_ || negb (seat =? seat')) eqn:Hm.
      + rw bool_decide_eq_false_2 //. intros (-> & -> & ->).
        repeat (apply orb_true_iff in Hm as [Hm|Hm]); guards; done.
      + guards. subst. rw lookup_insert_eq /= lookup_insert_eq /= !Z.eqb_refl /=.
        by rw bool_decide_eq_true_2. }
  split_and!; try done.
  - by rw (seatStack_lookup _ _ t) // Hs.
  - by rw seatStack_set_table decide_True // /= lookup_insert_eq.
  - rw /walletBalance /=. by rw lookup_insert_eq.
  - intros v Hv. rw /walletBalance /=. by rw lookup_insert_ne.
  - intros id' v Hne. rw seatStack_set_table. case_decide as Hd; [|done].
    subst id'. destruct Hne as [?|Hne]; [done|]. by rw (seatStack_lookup _ _ t) //= lookup_insert_ne.
  - intros id' seat' amount'. destruct (Hreplay id' seat' amount') as [He Hi].
    split; [by rw He|]. split; [done|]. intros (-> & -> & ->). rw He. by rw bool_decide_eq_true_2.
  - destruct (Hreplay id seat amount) as [He _]. rw He. by rw bool_decide_eq_true_2.
  - intros id'. rw /cashOut. cbn [ledger bought with_ledger]. rw lookup_insert_eq.
    by destruct (_ || _).
Qed.

(** A cash-out with a fresh key succeeds exactly for a player seated at a
    table between hands; it moves the whole stack back to the wallet and frees
    the seat. Its key pays once: whatever happens later, the same request
    returns the same receipt and changes nothing. *)
Lemma cashOut_correct id u key g r g' :
  games_inv g → 0 ≤ u → ledger g !! ledgerKey u key = None →
  cashOut id u key g = (r, g') →
  (sr_bool r = true ↔ ∃ t w s, may_cash_out id u key t w s g) ∧
  (sr_bool r = false → g' = g) ∧
  (sr_bool r = true → ∃ w s, walletBalance u g = Some w ∧ seatStack id u g = Some s ∧
     r = sr_ok (mkCashOutReceipt (w + s) s) ∧
     walletBalance u g' = Some (w + s) ∧ seatStack id u g' = None ∧
     (∀ v, v ≠ u → walletBalance v g' = walletBalance v g) ∧
     (∀ id' v, id' ≠ id ∨ v ≠ u → seatStack id' v g' = seatStack id' v g) ∧
     ∀ calls, let later := games_after calls g' in cashOut id u key later = (r, later)).
Proof.
  intros Hg Hu Hl Heq.
  destruct (cashOut_cases id u key g) as [[Hsame Hno]|(_ & t & w & s & Hmay & Hok)].
  { rw Heq in Hsame, Hno. cbn in *. subst g'. destruct (Hno Hl) as [Hn Hb]. rw Hb.
    split_and!; try done. }
  rw Hok in Heq. injection Heq as <- <-. split; [split; [by intros _; exists t, w, s|done]|].
  split; [done|]. intros _. exists w, (seat_stack s).
  pose proof Hmay as (Hid & Hu0 & Hk & Hlen & Ht & Hw & _ & Hs). split_and!; try done.
  - by rw (seatStack_lookup _ _ t) // Hs.
  - rw /walletBalance /=. by rw lookup_insert_eq.
  - by rw seatStack_set_table decide_True // /= lookup_delete_eq.
  - intros v Hv. rw /walletBalance /=. by rw lookup_insert_ne.
  - intros id' v Hne. rw seatStack_set_table. case_decide as Hd; [|done].
    subst id'. destruct Hne as [?|Hne]; [done|]. by rw (seatStack_lookup _ _ t) //= lookup_delete_ne.
  - intros calls later.
    pose proof (cashed_keeps id u key t w s g Hg Hmay Hl) as (Hg' & _ & _).
    destruct (games_after_keeps calls _ Hg') as (_ & _ & Hgrow & _).
    pose proof (cashOut_replay id u key (mkLedger cash_out id (w + seat_stack s) (seat_stack s) (seat_no s))
      later Hid Hu0 Hk Hlen) as Hrep.
    apply Hrep; [|done..]. eapply lookup_weaken; [|exact Hgrow]. cbn. by rw lookup_insert_eq.
Qed.

(** An accepted settlement gives every player of the hand exactly the end
    stack it names, touches no other stack and no wallet, and leaves the chips
    on the table unchanged. It is final: later, a settlement of the same hand is
    never accepted, is reported as a duplicate only when it is equal to the
    stored one, and the hand accepts no more actions and no new start. *)
Lemma settleHand_correct v g g' :
  games_inv g → settleHand v g = (Storage_ok, g') →
  settlement (hst_hand_id v) g' = Some v ∧ wallets g' = wallets g ∧
  (∀ p, p ∈ hst_players v →
     seatStack (hst_table_id v) (hp_user_id p) g = Some (hp_start_stack p) ∧
     seatStack (hst_table_id v) (hp_user_id p) g' = Some (hp_end_stack p)) ∧
  (∀ id u, id ≠ hst_table_id v ∨ u ∉ (hp_user_id <$> hst_players v) →
     seatStack id u g' = seatStack id u g) ∧
  store_chips g' = store_chips g ∧
  ∀ calls, let later := games_after calls g' in
    settlement (hst_hand_id v) later = Some v ∧
    (∀ v', hst_hand_id v' = hst_hand_id v →
       (settleHand v' later).2 = later ∧ (settleHand v' later).1 ≠ Storage_ok ∧
       ((settleHand v' later).1 = Storage_duplicate ↔ v' = v)) ∧
    (∀ a, ha_hand_id a = hst_hand_id v → (appendAction a later).2 = later ∧
       (appendAction a later).1 ≠ Storage_ok) ∧
    (∀ h, hsr_hand_id h = hst_hand_id v → (beginHand h later).2 = later ∧
       (beginHand h later).1 ≠ Storage_ok).
Proof.
  intros Hg Heq. pose proof (settleHand_keeps v g Hg) as (Hg' & Hchips & _).
  rw Heq /= in Hg', Hchips. rw /settleHand in Heq.
  destruct (validHandSettlement v) eqn:Hv; cbn [negb] in Heq; [|done].
  destruct (settlements g !! _) as [old|] eqn:Hs; [by case_match|].
  case_bool_decide as Hstart; cbn [negb] in Heq; [|done].
  destruct (tables g !! _) as [t|] eqn:Ht; [|done].
  destruct (st_aborted t); [done|]. destruct (st_hand_in_progress t); cbn [negb] in Heq; [|done].
  destruct (forallb _ _) eqn:Hok; [|done]. injection Heq as <-.
  destruct (settle_sums v Hv) as [Hnd _].
  assert (∀ p, p ∈ hst_players v → ∃ s, st_seats t !! hp_user_id p = Some s ∧
    seat_stack s = hp_start_stack p) as Hseats.
  { intros p Hp. rw forallb_forall in Hok.
    destruct (settle_player_ok_inv t p) as (s & ? & _ & ? & _); [by apply Hok, list_elem_of_In|].
    by exists s. }
  set (g' := set_table _ _ _) in *.
  assert (settlement (hst_hand_id v) g' = Some v) as Hset.
  { rw /settlement /=. by rw lookup_insert_eq. }
  assert (∀ id u, seatStack id u g' = if decide (id = hst_table_id v)
    then seat_stack <$> foldl pay_seat (st_seats t) (hst_players v) !! u
    else seatStack id u g) as Hstack.
  { intros id u. rw /seatStack /=. case_decide as Hd; [subst; by rw lookup_insert_eq|].
    by rw lookup_insert_ne. }
  split_and!; [done|done| | |lia|].
  - intros p Hp. destruct (Hseats p Hp) as (s & Hsp & Hst). split.
    + by rw (seatStack_lookup _ _ t) // Hsp /= Hst.
    + rw Hstack decide_True //. apply pay_seats_settled; [done..|by eexists].
  - intros id u Hne. rw Hstack. case_decide as Hd; [|done]. subst id.
    destruct Hne as [?|Hne]; [done|]. rw (seatStack_lookup _ _ t) //. f_equal.
    by apply pay_seats_others.
  - intros calls later. destruct (games_after_keeps calls _ Hg') as (Hgl & _ & _ & _ & _ & Hgrow).
    assert (settlements later !! hst_hand_id v = Some v) as Hlater.
    { by eapply lookup_weaken; [|exact Hgrow]. }
    by apply settled_final.
Qed.

(** Aborting an open table never fails on a well-formed store: every seated
    player gets the whole stack back, all seats of that table and no others are
    freed, the chips are conserved, the table is gone from the lobby, and a
    second abort changes nothing. *)
Lemma abortTable_correct id t g :
  games_inv g → tables g !! id = Some t → st_aborted t = false →
  ∃ g', abortTableAndRefund id g = (Storage_ok, g') ∧
    (∀ u w s, walletBalance u g = Some w → seatStack id u g = Some s →
       walletBalance u g' = Some (w + s)) ∧
    (∀ u, seatStack id u g = None → walletBalance u g' = walletBalance u g) ∧
    (∀ u, seatStack id u g' = None) ∧
    (∀ id' u, id' ≠ id → seatStack id' u g' = seatStack id' u g) ∧
    store_chips g' = store_chips g ∧
    sr_bool (findTable id g') = false ∧
    abortTableAndRefund id g' = (Storage_ok, g') ∧
    (∀ u seat amount key, ledger g !! ledgerKey u key = None →
       sr_bool (reserveBuyIn id u seat amount key g').1 = false).
Proof.
  intros Hg Ht Hab. pose proof (abortTable_keeps id g Hg) as (_ & Hchips & _).
  destruct (gi_tables g Hg id t Ht) as [_ Hseat _ _].
  destruct (refund_seats_spec (map_to_list (st_seats t)) (wallets g))
    as (w' & Hw' & _ & _ & _ & Hout & Hin).
  { apply NoDup_fst_map_to_list. }
  { intros u s Hus%elem_of_map_to_list. by destruct (Hseat u s Hus) as (? & ? & ? & _). }
  { apply Hg. }
  assert (abortTableAndRefund id g = (Storage_ok,
    set_table id (mkStored (st_record t) true false ∅ ∅) (with_wallets w' g))) as Habort.
  { by rw /abortTableAndRefund Ht Hab Hw'. }
  rw Habort /= in Hchips. eexists. split; [exact Habort|]. split_and!.
  - intros u w s Hw. rw (seatStack_lookup _ _ t) //.
    destruct (st_seats t !! u) as [x|] eqn:Hx; cbn; [|done]. intros [= <-].
    apply Hin; [by apply elem_of_map_to_list|done].
  - intros u. rw (seatStack_lookup _ _ t) // fmap_None. intros Hn. apply Hout.
    intros ([v x] & Heq & Hx%elem_of_map_to_list)%list_elem_of_fmap. cbn in Heq. congruence.
  - intros u. rw /seatStack /= lookup_insert_eq /=. by rw lookup_empty.
  - intros id' u Hne. by rw /seatStack /= lookup_insert_ne.
  - lia.
  - by rw /findTable /= lookup_insert_eq.
  - rw /abortTableAndRefund. cbn [tables set_table with_tables]. by rw lookup_insert_eq.
  - intros u seat amount key Hl.
    destruct (reserveBuyIn_cases id u seat amount key
      (set_table id (mkStored (st_record t) true false ∅ ∅) (with_wallets w' g)))
      as [[_ Hno]|(_ & t' & w & Hmay & _)]; [by apply Hno|].
    exfalso. destruct Hmay as (_&_&_&_&_&Ht'&_&Hab'&_). cbn in Ht'. rw lookup_insert_eq in Ht'.
    by injection Ht' as <-.
Qed.

(** ** A concrete store *)

Module GamesDemo.
Definition table1 := mkTableRecord 9 "main" "node-a" (mkConfig 2 6 50 100 2000 20000) 1.
Definition opening : list GameCall :=
  [SeedWallet 1 10000; SeedWallet 2 9000; CreateTable table1; ReserveBuyIn 9 1 0 5000 "b1"].
Definition g0 := games_after opening Games_new.
Definition g1 := games_after [ReserveBuyIn 9 2 3 4000 "b2"] g0.
Definition hand := mkHandStart 77 9 1 0
  [mkStartPlayer 1 0 5000 [mkCard 14 0; mkCard 13 0];
   mkStartPlayer 2 3 4000 [mkCard 2 1; mkCard 7 2]].
Definition g2 := games_after [BeginHand hand] g1.
Definition result77 := mkSettlement 77 9 1 0 [] 300
  [mkPlayerSettlement 1 0 5000 200 300 5100 [mkCard 14 0; mkCard 13 0] false;
   mkPlayerSettlement 2 3 4000 100 0 3900 [mkCard 2 1; mkCard 7 2] true].
Definition g3 := games_after [SettleHand result77] g2.

Lemma games_after_inv calls : games_inv (games_after calls Games_new).
Proof. by apply games_after_keeps, games_inv_new. Qed.

Lemma g0_inv : games_inv g0.
Proof. apply games_after_inv. Qed.

Lemma g1_inv : games_inv g1.
Proof. by apply games_after_keeps, g0_inv. Qed.

Lemma g2_inv : games_inv g2.
Proof. by apply games_after_keeps, g1_inv. Qed.

Lemma g3_inv : games_inv g3.
Proof. by apply games_after_keeps, g2_inv. Qed.

Lemma reserveBuyIn_correct_witness :
  reserveBuyIn 9 2 3 4000 "b2" g0 = (sr_ok (mkBuyInReceipt 5000 4000), g1) ∧
  reserveBuyIn 9 2 3 4000 "b2" g1 = (sr_ok (mkBuyInReceipt 5000 4000), g1).
Proof.
  assert (reserveBuyIn 9 2 3 4000 "b2" g0 = (sr_ok (mkBuyInReceipt 5000 4000), g1)) as Heq
    by by vm_compute.
  split; [exact Heq|].
  destruct (reserveBuyIn_correct 9 2 3 4000 "b2" g0 _ g1 g0_inv ltac:(lia) ltac:(by vm_compute) Heq)
    as (_ & _ & H).
  destruct (H eq_refl) as (w & _ & _ & _ & _ & _ & _ & _ & _ & _ & Hagain & _). exact Hagain.
Defined.

Lemma cashOut_correct_witness :
  (cashOut 9 1 "c1" g3).1 = sr_ok (mkCashOutReceipt 10100 5100) ∧
  seatStack 9 1 (cashOut 9 1 "c1" g3).2 = None.
Proof.
  split; [by vm_compute|].
  destruct (cashOut_correct 9 1 "c1" g3 (cashOut 9 1 "c1" g3).1 (cashOut 9 1 "c1" g3).2 g3_inv
    ltac:(lia) ltac:(by vm_compute) ltac:(by destruct (cashOut _ _ _ _))) as (_ & _ & H).
  destruct (H ltac:(by vm_compute)) as (w & s & _ & _ & _ & _ & Hseat & _). exact Hseat.
Defined.

Lemma settleHand_correct_witness :
  settleHand result77 g2 = (Storage_ok, g3) ∧ store_chips g3 = store_chips g2.
Proof.
  assert (settleHand result77 g2 = (Storage_ok, g3)) as Heq by by vm_compute.
  split; [exact Heq|].
  destruct (settleHand_correct result77 g2 g3 g2_inv Heq) as (_ & _ & _ & _ & H & _). exact H.
Defined.

Lemma abortTable_correct_witness :
  ∃ t g', tables g1 !! 9 = Some t ∧ abortTableAndRefund 9 g1 = (Storage_ok, g') ∧
    walletBalance 2 g' = Some 9000.
Proof.
  assert (∃ t, tables g1 !! 9 = Some t ∧ st_aborted t = false) as (t & Ht & Hab).
  { eexists. split; by vm_compute. }
  destruct (abortTable_correct 9 t g1 g1_inv Ht Hab) as (g' & Hg' & Hpaid & _).
  exists t, g'. split; [exact Ht|]. split; [exact Hg'|].
  exact (Hpaid 2 5000 4000 ltac:(by vm_compute) ltac:(by vm_compute)).
Defined.

Lemma validHandSettlement_correct_witness : settlement_valid result77.
Proof.
  apply validHandSettlement_correct; [cbn; rw /i64_max; lia| |by vm_compute].
  repeat (apply List.Forall_cons; [split; cbn; lia|]). apply List.Forall_nil.
Defined.
End GamesDemo.
