(* ===== verification/Codec.v ===== *)
(** * The length-field frame codec

    Model of [include/poker/net/length_field_codec.hpp] and
    [src/poker/net/length_field_codec.cpp]. Bytes are integers in [0, 256),
    vectors are lists; sizes compared with 32- and 64-bit bounds are integers.
    The specification of decoding is the inductive relation [parse]. *)
From S2P Require Import Prelude.

(** ** Data *)

Inductive CodecError :=
  | Codec_none
  | Codec_empty_frame
  | Codec_frame_too_large
  | Codec_decoder_failed.

Record DecodeResult := mkDecode {
  dr_error : CodecError;
  dr_frames : list (list Z);
}.

Record LengthFieldCodec := mkCodec {
  max_frame_size_ : Z;
  buffer_ : list Z;
  read_offset_ : nat;
  failed_ : bool;
}.

Definition header_size : nat := 4.
Definition default_max_frame_size : Z := 1024 * 1024.

Definition size (l : list Z) : Z := Z.of_nat (length l).

Definition with_buffer b o c := mkCodec (max_frame_size_ c) b o (failed_ c).

Definition CodecError_toString (e : CodecError) : string :=
  match e with
  | Codec_none => "none"
  | Codec_empty_frame => "empty frame"
  | Codec_frame_too_large => "frame too large"
  | Codec_decoder_failed => "decoder failed"
  end.

(** ** Operations *)

Definition LengthFieldCodec_new (max_frame_size : Z) : result LengthFieldCodec :=
  if (max_frame_size =? 0) || (u32_max <? max_frame_size)
  then Throw (invalid_argument "maximum frame size must fit a positive uint32")
  else Ok (mkCodec max_frame_size [] 0 false).

(** The four [push_back]s of the header. *)
Definition header (n : Z) : list Z :=
  [u8 (Z.land (Z.shiftr n 24) 255); u8 (Z.land (Z.shiftr n 16) 255);
   u8 (Z.land (Z.shiftr n 8) 255); u8 (Z.land n 255)].

Definition encode (payload : list Z) (max_frame_size : Z) : result (list Z) :=
  if bool_decide (payload = []) then
    Throw (invalid_argument "empty protocol frames are not allowed")
  else if (max_frame_size <? size payload) || (u32_max <? size payload) then
    Throw (length_error "protocol frame exceeds the configured maximum")
  else Ok (header (u32 (size payload)) ++ payload).

(** [bufferedBytes]: what has arrived and is not yet consumed. *)
Definition pending (c : LengthFieldCodec) : list Z := drop (read_offset_ c) (buffer_ c).
Definition bufferedBytes (c : LengthFieldCodec) : nat := length (buffer_ c) - read_offset_ c.

(** The header as a 32-bit number; [None] is an out-of-range read. *)
Definition be32 (l : list Z) : option Z :=
  match l with
  | b0 :: b1 :: b2 :: b3 :: _ =>
      Some (Z.lor (Z.lor (Z.lor (u32 (Z.shiftl b0 24)) (u32 (Z.shiftl b1 16)))
                         (u32 (Z.shiftl b2 8))) b3)
  | _ => None
  end.

Definition peekLength (c : LengthFieldCodec) : option Z := be32 (pending c).

Definition compact (c : LengthFieldCodec) : LengthFieldCodec :=
  if (read_offset_ c =? 0)%nat then c
  else if (read_offset_ c =? length (buffer_ c))%nat then with_buffer [] 0 c
  else if (4096 <=? Z.of_nat (read_offset_ c))
          || (length (buffer_ c) <=? read_offset_ c * 2)%nat
  then with_buffer (drop (read_offset_ c) (buffer_ c)) 0 c
  else c.

Definition codec_fail (e : CodecError) : M LengthFieldCodec DecodeResult := λ c,
  (Ok (mkDecode e []),
   match e with
   | Codec_decoder_failed => c
   | _ => mkCodec (max_frame_size_ c) (buffer_ c) (read_offset_ c) true
   end).

(** The loop of [feed]; every iteration consumes at least five bytes, so the
    buffer's length is fuel enough. *)
Fixpoint feed_loop (fuel : nat) (frames : list (list Z)) : M LengthFieldCodec DecodeResult := λ c,
  match fuel with
  | O => (Undef, c)
  | S fuel =>
      if (bufferedBytes c <? header_size)%nat then (Ok (mkDecode Codec_none frames), compact c)
      else match peekLength c with
      | None => (Undef, c)
      | Some len =>
          if len =? 0 then codec_fail Codec_empty_frame c
          else if max_frame_size_ c <? len then codec_fail Codec_frame_too_large c
          else
            let complete_size := (header_size + Z.to_nat len)%nat in
            if (bufferedBytes c <? complete_size)%nat
            then (Ok (mkDecode Codec_none frames), compact c)
            else
              let frame := take (Z.to_nat len) (drop header_size (pending c)) in
              feed_loop fuel (frames ++ [frame])
                (with_buffer (buffer_ c) (read_offset_ c + complete_size) c)
      end
  end.

(** [feed] on a vector; a null pointer with a positive size cannot arise. *)
Definition feed (data : list Z) : M LengthFieldCodec DecodeResult := λ c,
  if failed_ c then codec_fail Codec_decoder_failed c
  else if (size data =? 0) then (Ok (mkDecode Codec_none []), c)
  else
    let buffered := Z.of_nat (bufferedBytes c) in
    let maximum_buffer := max_frame_size_ c + Z.of_nat header_size in
    if (maximum_buffer <? size data) || (maximum_buffer - size data <? buffered)
    then codec_fail Codec_frame_too_large c
    else
      let c' := with_buffer (buffer_ c ++ data) (read_offset_ c) c in
      feed_loop (S (length (buffer_ c'))) [] c'.

Definition codec_reset (c : LengthFieldCodec) : LengthFieldCodec :=
  mkCodec (max_frame_size_ c) [] 0 false.

(** A connection: chunks fed one after the other until one is refused. *)
Fixpoint feed_all (chunks : list (list Z)) : M LengthFieldCodec (list (list Z)) :=
  match chunks with
  | [] => mret []
  | chunk :: chunks =>
      r ← feed chunk;
      match dr_error r with
      | Codec_none => rest ← feed_all chunks; mret (dr_frames r ++ rest)
      | _ => mthrow (runtime_error (CodecError_toString (dr_error r)))
      end
  end.

(** ** Specification of decoding *)

Definition byte (b : Z) : Prop := 0 ≤ b < 256.

(** How a stream of bytes starts. *)
Inductive parse (max : Z) : list Z → list (list Z) → CodecError * list Z → Prop :=
  | parse_short s : (length s < header_size)%nat → parse max s [] (Codec_none, s)
  | parse_partial s n : be32 s = Some n → 0 < n ≤ max →
      size s < 4 + n → parse max s [] (Codec_none, s)
  | parse_empty s : be32 s = Some 0 → parse max s [] (Codec_empty_frame, s)
  | parse_large s n : be32 s = Some n → max < n → 0 < n → parse max s [] (Codec_frame_too_large, s)
  | parse_frame s n frames out : be32 s = Some n → 0 < n ≤ max → 4 + n ≤ size s →
      parse max (drop (header_size + Z.to_nat n) s) frames out →
      parse max s (take (Z.to_nat n) (drop header_size s) :: frames) out.

(** ** Lemmas *)

Lemma lor_shift a b k : 0 ≤ k → 0 ≤ b < 2 ^ k → Z.lor (Z.shiftl a k) b = a * 2 ^ k + b.
Proof.
  intros Hk Hb. assert (Z.land (Z.shiftl a k) b = 0) as H0.
  { apply Z.bits_inj'. intros n Hn. rw Z.land_spec Z.bits_0.
    destruct (Z.ltb_spec n k).
    - by rw Z.shiftl_spec_low.
    - destruct (decide (b = 0)) as [->|]; [by rw Z.bits_0 andb_false_r|].
      rw (Z.bits_above_log2 b n) ?andb_false_r //; [lia|].
      apply Z.log2_lt_pow2; [lia|]. eapply Z.lt_le_trans; [apply Hb|].
      apply Z.pow_le_mono_r; lia. }
  rw -(Z.lxor_lor _ _ H0) -(Z.add_nocarry_lxor _ _ H0) Z.shiftl_mul_pow2 //.
Qed.

Lemma u32_small x : 0 ≤ x ≤ u32_max → u32 x = x.
Proof. rw /u32_max /u32. intros. apply Z.mod_small. lia. Qed.

Lemma be32_spec b0 b1 b2 b3 l :
  byte b0 → byte b1 → byte b2 → byte b3 →
  be32 (b0 :: b1 :: b2 :: b3 :: l) = Some (b0 * 2 ^ 24 + b1 * 2 ^ 16 + b2 * 2 ^ 8 + b3).
Proof.
  rw /byte. intros. simpl. f_equal.
  rw !u32_small; [rw Z.shiftl_mul_pow2 // /u32_max; lia..|].
  rw -!Z.lor_assoc. rw (lor_shift b2 b3 8); [lia..|].
  rw (lor_shift b1 _ 16); [lia..|]. rw (lor_shift b0 _ 24); lia.
Qed.

Lemma be32_header n l : 0 ≤ n ≤ u32_max → be32 (header n ++ l) = Some n.
Proof.
  rw /u32_max. intros Hn. rw /header.
  change 255 with (Z.ones 8). rw !Z.land_ones // !Z.shiftr_div_pow2 //.
  assert (∀ x, byte (x `mod` 2 ^ 8)) as Hb.
  { intros x. pose proof (Z.mod_pos_bound x (2 ^ 8)). rw /byte. lia. }
  rw !u8_small; [apply Hb..|]. cbn [app].
  rw be32_spec; [apply Hb..|]. f_equal.
  assert (n `div` 2 ^ 16 = n `div` 2 ^ 8 `div` 2 ^ 8) as E16 by by rw Z.div_div.
  assert (n `div` 2 ^ 24 = n `div` 2 ^ 8 `div` 2 ^ 8 `div` 2 ^ 8) as E24 by by rw !Z.div_div.
  rw E16 E24. set (q := n `div` 2 ^ 8). set (r := q `div` 2 ^ 8). set (s := r `div` 2 ^ 8).
  pose proof (Z.div_mod n (2 ^ 8)). pose proof (Z.div_mod q (2 ^ 8)).
  pose proof (Z.div_mod r (2 ^ 8)).
  assert (0 ≤ s < 2 ^ 8).
  { rw /s /r /q !Z.div_div //. split; [apply Z.div_pos; lia|]. apply Z.div_lt_upper_bound; lia. }
  rw (Z.mod_small s) //. lia.
Qed.

Lemma header_length n : length (header n) = header_size.
Proof. done. Qed.

Lemma be32_app s l n : be32 s = Some n → be32 (s ++ l) = Some n.
Proof. by destruct s as [|? [|? [|? [|??]]]]. Qed.

Lemma be32_long s n : be32 s = Some n → (header_size ≤ length s)%nat.
Proof. destruct s as [|? [|? [|? [|??]]]]; try done. intros _. rw /header_size /=. lia. Qed.

Lemma be32_is_Some s : (header_size ≤ length s)%nat → is_Some (be32 s).
Proof. rw /header_size. destruct s as [|? [|? [|? [|??]]]]; simpl; [lia..|]. by eexists. Qed.

Lemma be32_take s : be32 (take header_size s) = be32 s.
Proof. by destruct s as [|? [|? [|? [|??]]]]. Qed.

Lemma be32_range s n : Forall byte s → be32 s = Some n → 0 ≤ n ≤ u32_max.
Proof.
  destruct s as [|b0 [|b1 [|b2 [|b3 s]]]]; try done.
  rw !Forall_cons. intros (? & ? & ? & ? & _). rw be32_spec //. intros [= <-].
  rw /byte /u32_max in H, H0, H1, H2 |- *. lia.
Qed.


(** ** The specification *)

(** A stream that cannot be read further. *)
Definition stuck (max : Z) (s : list Z) : Prop :=
  (length s < header_size)%nat ∨ ∃ n, be32 s = Some n ∧ 0 < n ≤ max ∧ size s < 4 + n.

Lemma stuck_parse max s : stuck max s ↔ parse max s [] (Codec_none, s).
Proof.
  split.
  - intros [?|(n & ? & ? & ?)]; [by apply parse_short|by eapply parse_partial].
  - intros H. inversion H; subst; [by left|right; by eexists].
Qed.

Lemma parse_rest max s fs o : parse max s fs o → o.1 = Codec_none → stuck max o.2.
Proof.
  induction 1 as [s Hs|s n Hn Hr Hs|s Hn|s n Hn Hr Hp|s n fs o Hn Hr Hs H IH]; try done.
  - intros _. by left.
  - intros _. right. by exists n.
Qed.

Lemma size_app s d : size (s ++ d) = size s + size d.
Proof. rw /size length_app. lia. Qed.

Lemma size_nonneg s : 0 ≤ size s.
Proof. rw /size. lia. Qed.

(** Reading a prefix first: the frames of the prefix come first, and an
    accepted stream stays accepted; the limit of the reader may be larger. *)
Lemma parse_split limit max s d ps fs o :
  limit ≤ max → parse max s fs o → parse limit (s ++ d) ps (Codec_none, []) →
  o.1 = Codec_none ∧ ∃ ps', ps = fs ++ ps' ∧ parse limit (o.2 ++ d) ps' (Codec_none, []).
Proof.
  intros Hle H. revert ps. induction H as [s Hs|s n Hn Hr Hs|s Hn|s n Hn Hr Hp|s n fs o Hn Hr Hs H IH];
    intros ps Hps.
  - split; [done|]. by exists ps.
  - split; [done|]. by exists ps.
  - pose proof (be32_app _ d _ Hn) as Hn'.
    inversion Hps as [? Hsh|? n' Hb Hr' Hs'| | |? n' ? ? Hb Hr' ? ?]; subst; exfalso.
    + apply be32_long in Hn'. lia.
    + assert (n' = 0) by congruence. lia.
    + assert (n' = 0) by congruence. lia.
  - pose proof (be32_app _ d _ Hn) as Hn'.
    inversion Hps as [? Hsh|? n' Hb Hr' Hs'| | |? n' ? ? Hb Hr' ? ?]; subst; exfalso.
    + apply be32_long in Hn'. lia.
    + assert (n' = n) by congruence. lia.
    + assert (n' = n) by congruence. lia.
  - pose proof (be32_app _ d _ Hn) as Hn'. pose proof (be32_long _ _ Hn).
    inversion Hps as [? Hsh|? n' Hb Hr' Hs'| | |? n' ps' ? Hb Hr' Hs' Hrest]; subst.
    + apply be32_long in Hn'. lia.
    + exfalso. assert (n' = n) by congruence. rw size_app in Hs'. pose proof (size_nonneg d). lia.
    + assert (n' = n) as -> by congruence. clear Hs'. rw /size in Hs.
      assert (header_size + Z.to_nat n ≤ length s)%nat as Hlen by (rw /header_size; lia).
      rw (drop_app_le s d _ Hlen) in Hrest.
      destruct (IH _ Hrest) as (Ho & ps'' & -> & Hp). split; [done|]. exists ps''. split; [|done].
      rw (drop_app_le s d) //. rw take_app_le //. rw length_drop. lia.
Qed.

(** ** Encoding *)

Lemma encode_Ok payload max :
  payload ≠ [] → size payload ≤ max → size payload ≤ u32_max →
  encode payload max = Ok (header (size payload) ++ payload).
Proof.
  intros Hne Hmax Hu. rw /encode bool_decide_eq_false_2 //.
  assert ((max <? size payload) || (u32_max <? size payload) = false) as ->.
  { apply orb_false_iff. split; apply Z.ltb_ge; lia. }
  rw u32_small //. pose proof (size_nonneg payload). lia.
Qed.

Lemma encode_inv payload max frame :
  encode payload max = Ok frame →
  payload ≠ [] ∧ size payload ≤ max ∧ size payload ≤ u32_max ∧
  frame = header (size payload) ++ payload.
Proof.
  rw /encode. case_bool_decide as Hne; [done|]. destruct (_ || _) eqn:Hg; [done|]. guards.
  intros [= <-]. split_and!; try done. rw u32_small //. pose proof (size_nonneg payload). lia.
Qed.

Lemma parse_encoded max limit payload frame s fs o :
  encode payload limit = Ok frame → limit ≤ max → parse max s fs o →
  parse max (frame ++ s) (payload :: fs) o.
Proof.
  intros (Hne & Hm & Hu & ->)%encode_inv Hle Hp.
  assert (0 < size payload) by (destruct payload; [done|rw /size /=; lia]).
  assert (Z.to_nat (size payload) = length payload) as Hn by (rw /size; lia).
  set (h := header (size payload)).
  assert (drop header_size ((h ++ payload) ++ s) = payload ++ s) as Hdrop.
  { rw -app_assoc. by rw (drop_app_length' h _ header_size). }
  replace payload with (take (Z.to_nat (size payload)) (drop header_size ((h ++ payload) ++ s))) at 2.
  2: { rw Hdrop Hn. by rw take_app_length. }
  apply parse_frame; [|lia| |].
  - rw -app_assoc. apply be32_header. lia.
  - rw !size_app. assert (size h = 4) as -> by done. pose proof (size_nonneg s). lia.
  - rw -drop_drop Hdrop Hn drop_app_length. done.
Qed.

(** ** Feeding *)

Record codec_inv (c : LengthFieldCodec) : Prop := {
  ci_max : 0 < max_frame_size_ c ≤ u32_max;
  ci_offset : (read_offset_ c ≤ length (buffer_ c))%nat;
  ci_bytes : Forall byte (buffer_ c);
  ci_compact : failed_ c = false → read_offset_ c = 0%nat ∨ (read_offset_ c * 2 < length (buffer_ c))%nat;
  ci_stuck : failed_ c = false → stuck (max_frame_size_ c) (pending c);
}.

Lemma bufferedBytes_pending c : bufferedBytes c = length (pending c).
Proof. by rw /pending length_drop. Qed.

Lemma compact_spec c :
  (read_offset_ c ≤ length (buffer_ c))%nat →
  pending (compact c) = pending c ∧ max_frame_size_ (compact c) = max_frame_size_ c ∧
  failed_ (compact c) = failed_ c ∧
  (read_offset_ (compact c) = 0%nat ∨
   (read_offset_ (compact c) * 2 < length (buffer_ (compact c)))%nat) ∧
  (read_offset_ (compact c) ≤ length (buffer_ (compact c)))%nat ∧
  (∀ b, b ∈ buffer_ (compact c) → b ∈ buffer_ c).
Proof.
  intros Hoff. rw /compact. destruct (Nat.eqb_spec (read_offset_ c) 0) as [H0|H0].
  { split_and!; try done. by left. }
  destruct (Nat.eqb_spec (read_offset_ c) (length (buffer_ c))) as [H1|H1].
  { rw /pending /=. split_and!; try done; [|by left|by intros b ?%not_elem_of_nil].
    by rw drop_ge; [lia|]. }
  destruct (_ || _) eqn:Hbig.
  - rw /pending /= drop_0. split_and!; try done; [by left|lia|].
    intros b Hb. by apply (subseteq_drop (read_offset_ c)).
  - guards. split_and!; try done. right. lia.
Qed.

(** The loop reads the pending bytes as the specification says. *)
Lemma feed_loop_spec fuel frames c :
  0 < max_frame_size_ c ≤ u32_max → (read_offset_ c ≤ length (buffer_ c))%nat →
  Forall byte (buffer_ c) → (length (pending c) < fuel)%nat →
  ∃ fs out, parse (max_frame_size_ c) (pending c) fs out ∧
    ∃ c1, (read_offset_ c1 ≤ length (buffer_ c1))%nat ∧ buffer_ c1 = buffer_ c ∧
      max_frame_size_ c1 = max_frame_size_ c ∧ pending c1 = out.2 ∧
      match out.1 with
      | Codec_none => failed_ c1 = failed_ c ∧
          feed_loop fuel frames c = (Ok (mkDecode Codec_none (frames ++ fs)), compact c1)
      | e => failed_ c1 = true ∧ feed_loop fuel frames c = (Ok (mkDecode e []), c1)
      end.
Proof.
  revert frames c. induction fuel as [|fuel IH]; intros frames c Hmax Hoff Hb Hfuel; [lia|].
  cbn [feed_loop]. rw bufferedBytes_pending.
  destruct (Nat.ltb_spec (length (pending c)) header_size) as [Hs|Hs].
  { exists [], (Codec_none, pending c). split; [by apply parse_short|]. exists c.
    split_and!; try done. by rw app_nil_r. }
  destruct (be32_is_Some _ Hs) as [n Hn]. change (peekLength c) with (be32 (pending c)). rw Hn.
  assert (Forall byte (pending c)) as Hbp by by apply Forall_drop.
  pose proof (be32_range _ _ Hbp Hn) as Hrange.
  destruct (Z.eqb_spec n 0) as [->|Hn0].
  { exists [], (Codec_empty_frame, pending c). split; [by apply parse_empty|].
    exists (mkCodec (max_frame_size_ c) (buffer_ c) (read_offset_ c) true). by split_and!. }
  destruct (Z.ltb_spec (max_frame_size_ c) n) as [Hlarge|Hfits].
  { exists [], (Codec_frame_too_large, pending c). split; [by apply (parse_large _ _ n); [|lia..]|].
    exists (mkCodec (max_frame_size_ c) (buffer_ c) (read_offset_ c) true). by split_and!. }
  destruct (Nat.ltb_spec (length (pending c)) (header_size + Z.to_nat n)) as [Hpart|Hfull].
  { exists [], (Codec_none, pending c). split.
    - apply (parse_partial _ _ n); [done|lia|]. rw /size. rw /header_size in Hpart. lia.
    - exists c. split_and!; try done. by rw app_nil_r. }
  set (c' := with_buffer (buffer_ c) (read_offset_ c + (header_size + Z.to_nat n)) c).
  assert (pending c' = drop (header_size + Z.to_nat n) (pending c)) as Hp'.
  { by rw /pending /= drop_drop. }
  assert (length (pending c) = length (buffer_ c) - read_offset_ c)%nat as Hlen by by rw length_drop.
  destruct (IH (frames ++ [take (Z.to_nat n) (drop header_size (pending c))]) c')
    as (fs & out & Hparse & c1 & Hoff1 & Hbuf & Hm & Hpend & Hout);
    [done|cbn [c' with_buffer read_offset_ buffer_]; lia|done| |].
  { rw Hp' length_drop. rw /header_size in Hs |- *. lia. }
  exists (take (Z.to_nat n) (drop header_size (pending c)) :: fs), out. split.
  - apply parse_frame; [done|lia| |by rw -Hp'].
    rw /size. rw /header_size in Hfull. lia.
  - exists c1. split_and!; try done. destruct (out.1), Hout as [? Hloop]; rw Hloop //.
    by rw -app_assoc.
Qed.

(** What feeding [data] to a codec does, by the specification of decoding. *)
Definition feed_spec (c : LengthFieldCodec) (data : list Z) (r : DecodeResult)
    (c' : LengthFieldCodec) : Prop :=
  if failed_ c then r = mkDecode Codec_decoder_failed [] ∧ c' = c
  else if bool_decide (data ≠ [] ∧ max_frame_size_ c + 4 < size (pending c) + size data)
  then r = mkDecode Codec_frame_too_large [] ∧ failed_ c' = true
  else ∃ frames out, parse (max_frame_size_ c) (pending c ++ data) frames out ∧
    pending c' = out.2 ∧
    match out.1 with
    | Codec_none => r = mkDecode Codec_none frames ∧ failed_ c' = false
    | e => r = mkDecode e [] ∧ failed_ c' = true
    end.

Lemma codec_inv_bound c :
  codec_inv c → failed_ c = false → size (buffer_ c) < 2 * (max_frame_size_ c + 4).
Proof.
  intros [Hm Ho _ Hc Hs] Hf. specialize (Hc Hf). specialize (Hs Hf).
  assert (size (pending c) < max_frame_size_ c + 4).
  { rw /stuck /header_size in Hs. destruct Hs as [?|(n & _ & ? & ?)]; [rw /size; lia|lia]. }
  assert (length (pending c) = length (buffer_ c) - read_offset_ c)%nat by by rw length_drop.
  rw /size in H |- *. lia.
Qed.

Lemma codec_inv_failed c c' :
  codec_inv c → failed_ c' = true → max_frame_size_ c' = max_frame_size_ c →
  (read_offset_ c' ≤ length (buffer_ c'))%nat → Forall byte (buffer_ c') → codec_inv c'.
Proof. intros [Hm _ _ _ _] Hf E Ho Hb. by split; rw ?E ?Hf. Qed.

(** The chunk is accepted into the buffer and read. *)
Lemma feed_accepted c data :
  codec_inv c → Forall byte data → failed_ c = false → data ≠ [] →
  size (pending c) + size data ≤ max_frame_size_ c + 4 →
  ∃ r c', feed data c = (Ok r, c') ∧ codec_inv c' ∧ max_frame_size_ c' = max_frame_size_ c ∧
    feed_spec c data r c'.
Proof.
  intros Hc Hd Hf Hne Hsize. pose proof Hc as [Hmax Hoff Hb _ _].
  rw /feed /feed_spec Hf (bool_decide_eq_false_2 (_ ∧ _)); [lia|].
  destruct (Z.eqb_spec (size data) 0) as [H0|_].
  { by destruct data. }
  change (Z.of_nat header_size) with 4. rw bufferedBytes_pending -/(size (pending c)).
  assert ((max_frame_size_ c + 4 <? size data)
          || (max_frame_size_ c + 4 - size data <? size (pending c)) = false) as ->.
  { pose proof (size_nonneg (pending c)). apply orb_false_iff. split; apply Z.ltb_ge; lia. }
  set (c0 := with_buffer (buffer_ c ++ data) (read_offset_ c) c).
  assert (pending c0 = pending c ++ data) as Hp0 by by rw /pending /= drop_app_le.
  destruct (feed_loop_spec (S (length (buffer_ c0))) [] c0)
    as (fs & out & Hparse & c1 & Hoff1 & Hbuf & Hm & Hpend & Hout);
    [done|rw /= length_app; lia|by apply Forall_app|rw length_drop; lia|].
  rw Hp0 in Hparse. destruct (compact_spec c1 Hoff1) as (Hcp & Hcm & Hcf & Hcc & Hco & Hcb).
  assert (Forall byte (buffer_ c1)) as Hb1 by by rw Hbuf; apply Forall_app.
  pose proof (parse_rest _ _ _ _ Hparse) as Hrest. cbn in Hm.
  destruct out as [e rest]; cbn in *.
  destruct e; destruct Hout as [Hf1 Hloop]; eexists _, _; (split; [exact Hloop|]).
  2-4: (split; [by apply (codec_inv_failed c)|]; split; [done|]; exists fs; eexists;
        by split; [exact Hparse|]).
  split; [split|split].
  - by rw Hcm Hm.
  - done.
  - rw Forall_forall in Hb1. apply Forall_forall. auto.
  - done.
  - intros _. rw Hcm Hm Hcp Hpend. by apply Hrest.
  - congruence.
  - exists fs, (Codec_none, rest). split; [done|]. split; [by rw Hcp|].
    split; [done|]. by rw Hcf Hf1.
Qed.

Lemma feed_refines c data :
  codec_inv c → Forall byte data →
  ∃ r c', feed data c = (Ok r, c') ∧ codec_inv c' ∧ max_frame_size_ c' = max_frame_size_ c ∧
    feed_spec c data r c'.
Proof.
  intros Hc Hd. pose proof Hc as [_ Hoff Hb _ Hs]. destruct (failed_ c) eqn:Hf.
  { rw /feed /feed_spec Hf. by eexists _, _. }
  destruct (decide (data = [])) as [->|Hne].
  { rw /feed /feed_spec Hf. rw (bool_decide_eq_false_2 (_ ∧ _)); [by intros []|].
    eexists _, _. split_and!; [done..|].
    exists [], (Codec_none, pending c). rw app_nil_r -stuck_parse. split_and!; cbn; auto. }
  destruct (Z.le_gt_cases (size (pending c) + size data) (max_frame_size_ c + 4)) as [Hle|Hgt].
  { by apply feed_accepted. }
  rw /feed /feed_spec Hf (bool_decide_eq_true_2 (_ ∧ _)); [split; [done|lia]|].
  destruct (Z.eqb_spec (size data) 0) as [H0|_]; [by destruct data|].
  change (Z.of_nat header_size) with 4. rw bufferedBytes_pending -/(size (pending c)).
  assert ((max_frame_size_ c + 4 <? size data)
          || (max_frame_size_ c + 4 - size data <? size (pending c)) = true) as ->.
  { apply orb_true_iff. destruct (Z.ltb_spec (max_frame_size_ c + 4) (size data)); [by left|].
    right. apply Z.ltb_lt. lia. }
  eexists _, _. split; [done|]. split; [by apply (codec_inv_failed c)|]. done.
Qed.

(** [feed] implements the specification of decoding. A failed codec refuses
    everything until it is reset; a chunk that could overrun the buffer fails
    it; otherwise the frames returned are exactly those the specification
    reads from the unread bytes followed by the chunk, the rest stays buffered,
    and a bad header fails the codec. It always returns, and while the codec
    has not failed its buffer stays below twice the size of the largest frame
    with its header. *)
Lemma feed_correct (c : LengthFieldCodec) (data : list Z) :
  codec_inv c → Forall byte data →
  ∃ r c', feed data c = (Ok r, c') ∧ codec_inv c' ∧ max_frame_size_ c' = max_frame_size_ c ∧
    feed_spec c data r c' ∧
    (failed_ c' = true ∨ size (buffer_ c') < 2 * (max_frame_size_ c + 4)).
Proof.
  intros Hc Hd. destruct (feed_refines c data Hc Hd) as (r & c' & H1 & H2 & H3 & H4).
  exists r, c'. split_and!; try done. destruct (failed_ c') eqn:Hf; [by left|right].
  rw -H3. by apply codec_inv_bound.
Qed.

(** ** Whole streams *)

Lemma codec_inv_new max c : LengthFieldCodec_new max = Ok c → 0 ≤ max → codec_inv c.
Proof.
  rw /LengthFieldCodec_new. destruct (_ || _) eqn:Hg; [done|]. guards. intros [= <-] ?.
  split; cbn; [lia|lia|done|by left|]. intros _. left. rw /header_size /=. lia.
Qed.

Lemma codec_inv_reset c : codec_inv c → codec_inv (codec_reset c).
Proof.
  intros [Hm _ _ _ _]. split; cbn; [done|lia|done|by left|].
  intros _. left. rw /header_size /=. lia.
Qed.

Lemma stuck_end max limit s ps :
  stuck max s → parse limit s ps (Codec_none, []) → s = [] ∧ ps = [].
Proof.
  intros Hs H. inversion H as [? Hsh|? n Hn Hr Hp| | |? n ps' ? Hn Hr Hp Hrest]; subst; [done|done|].
  exfalso. destruct Hs as [?|(n' & Hn' & _ & ?)].
  - apply be32_long in Hn. lia.
  - assert (n' = n) by congruence. lia.
Qed.

(** The unread part of a good stream is shorter than its largest frame. *)
Lemma stuck_size max limit s d ps :
  0 < limit → stuck max s → parse limit (s ++ d) ps (Codec_none, []) → size s < limit + 4.
Proof.
  intros Hl [Hs|(n & Hn & _ & Hs)] H; [rw /header_size in Hs; rw /size; lia|].
  pose proof (be32_app _ d _ Hn) as Hn'.
  inversion H as [? Hsh|? n' Hb Hr Hp| | |? n' ps' ? Hb Hr Hp Hrest]; subst.
  - apply be32_long in Hn'. lia.
  - assert (n' = n) by congruence. lia.
  - assert (n' = n) by congruence. lia.
Qed.

Lemma stuck_bound max s : 0 < max → stuck max s → size s < max + 4.
Proof. intros Hmax [Hs|(n & _ & ? & ?)]; [rw /header_size in Hs; rw /size|]; lia. Qed.

(** Every chunk finds room in the buffer when it arrives. *)
Fixpoint roomy (chunks : list (list Z)) (c : LengthFieldCodec) : Prop :=
  match chunks with
  | [] => True
  | ch :: chunks => size (pending c) + size ch ≤ max_frame_size_ c + 4 ∧ roomy chunks (feed ch c).2
  end.

(** The first chunk of a good stream that finds none is refused, after what the chunks
    [before] it completed, [read], was returned. *)
Definition overruns (chunks : list (list Z)) c (ps : list (list Z)) : Prop :=
  ∃ before ch after read c1 c2, chunks = before ++ ch :: after ∧
    feed_all before c = (Ok read, c1) ∧ read `prefix_of` ps ∧
    max_frame_size_ c + 4 < size (pending c1) + size ch ∧
    feed ch c1 = (Ok (mkDecode Codec_frame_too_large []), c2) ∧ failed_ c2 = true.

(** One chunk of a good stream. *)
Lemma feed_stream limit ch d c ps :
  codec_inv c → failed_ c = false → 0 < limit ≤ max_frame_size_ c → Forall byte ch →
  size (pending c) + size ch ≤ max_frame_size_ c + 4 →
  parse limit (pending c ++ ch ++ d) ps (Codec_none, []) →
  ∃ fs ps' c1, feed ch c = (Ok (mkDecode Codec_none fs), c1) ∧ ps = fs ++ ps' ∧ codec_inv c1 ∧
    failed_ c1 = false ∧ max_frame_size_ c1 = max_frame_size_ c ∧
    parse limit (pending c1 ++ d) ps' (Codec_none, []).
Proof.
  intros Hc Hf Hlim Hb Hroom Hp. destruct (feed_refines c ch Hc Hb) as (r & c1 & Hfeed & Hc1 & Hm1 & Hspec).
  rw /feed_spec Hf bool_decide_eq_false_2 in Hspec; [lia|].
  destruct Hspec as (fs & out & Hparse & Hpend1 & Hout). rw app_assoc in Hp.
  destruct (parse_split limit _ _ _ _ _ _ (proj2 Hlim) Hparse Hp) as (Hnone & ps' & -> & Hp').
  rw Hnone in Hout. destruct Hout as [-> Hf1]. exists fs, ps', c1. by rw Hpend1.
Qed.

Lemma feed_all_stream limit chunks c ps :
  codec_inv c → failed_ c = false → 0 < limit ≤ max_frame_size_ c → Forall (Forall byte) chunks →
  parse limit (pending c ++ concat chunks) ps (Codec_none, []) →
  (roomy chunks c ∧ ∃ c', feed_all chunks c = (Ok ps, c') ∧ codec_inv c' ∧ failed_ c' = false ∧ pending c' = []) ∨
  (¬ roomy chunks c ∧ overruns chunks c ps).
Proof.
  revert c ps. induction chunks as [|ch chunks IH]; intros c ps Hc Hf Hlim Hb Hp.
  { cbn in Hp. rw app_nil_r in Hp. left. split; [done|].
    destruct (stuck_end _ _ _ _ (ci_stuck c Hc Hf) Hp) as [Hs ->]. by exists c. }
  apply Forall_cons in Hb as [Hb Hbs]. cbn [concat] in Hp. cbn [roomy].
  destruct (Z.le_gt_cases (size (pending c) + size ch) (max_frame_size_ c + 4)) as [Hroom|Hfull]; last first.
  { right. split; [intros []; lia|]. destruct (feed_refines c ch Hc Hb) as (r & c1 & Hfeed & _ & _ & Hspec).
    rw /feed_spec Hf in Hspec. destruct (decide (ch = [])) as [->|Hne].
    { assert (size (pending c) < max_frame_size_ c + 4) by (apply stuck_bound; [lia|by apply ci_stuck]).
      change (size []) with 0 in Hfull. lia. }
    rw bool_decide_eq_true_2 in Hspec; [split; [done|lia]|]. destruct Hspec as [-> Hf1].
    exists [], ch, chunks, [], c, c1. split_and!; [done..|apply prefix_nil|lia|done|done]. }
  destruct (feed_stream limit ch (concat chunks) c ps) as (fs & ps' & c1 & Hfeed & -> & Hc1 & Hf1 & Hm1 & Hp1); [done..|].
  assert (∀ chunks read c', feed_all chunks c1 = (Ok read, c') → feed_all (ch :: chunks) c = (Ok (fs ++ read), c')) as Hall.
  { intros l read c' Hl. cbn [feed_all]. by rw /mbind /M_bind Hfeed /= Hl. }
  rw Hfeed. cbn [snd].
  destruct (IH c1 ps') as [[Hr (c' & Hok & ?)]|[Hr (before & x & after & read & c2 & c3 & -> & Hok & Hpre & Hfull & Hx & Hf3)]];
    [done|done|by rw Hm1|done|done| |].
  - left. split; [done|]. exists c'. split; [by apply Hall|done].
  - right. split; [by intros []|]. exists (ch :: before), x, after, (fs ++ read), c2, c3.
    split_and!; [done|by apply Hall|by apply prefix_app|by rw -Hm1|done..].
Qed.

(** Small chunks always find room. *)
Lemma small_roomy limit chunks c ps :
  codec_inv c → failed_ c = false → 0 < limit ≤ max_frame_size_ c → Forall (Forall byte) chunks →
  parse limit (pending c ++ concat chunks) ps (Codec_none, []) →
  Forall (λ ch, size ch ≤ max_frame_size_ c + 1 - limit) chunks → roomy chunks c.
Proof.
  revert c ps. induction chunks as [|ch chunks IH]; intros c ps Hc Hf Hlim Hb Hp Hsz; [done|].
  apply Forall_cons in Hb as [Hb Hbs]. apply Forall_cons in Hsz as [Hch Hchs].
  assert (size (pending c) < limit + 4) as Hpend.
  { eapply stuck_size; [lia|by apply ci_stuck|exact Hp]. }
  assert (size (pending c) + size ch ≤ max_frame_size_ c + 4) as Hroom by lia. split; [done|].
  destruct (feed_stream limit ch (concat chunks) c ps) as (fs & ps' & c1 & Hfeed & -> & Hc1 & Hf1 & Hm1 & Hp1); [done..|].
  rw Hfeed. cbn [snd]. apply (IH c1 ps'); [done|done|by rw Hm1|done|done|by rw Hm1].
Qed.

(** A chunk longer than the buffer finds none. *)
Lemma long_not_roomy chunks c :
  codec_inv c → Forall (Forall byte) chunks →
  Exists (λ ch, max_frame_size_ c + 4 < size ch) chunks → ¬ roomy chunks c.
Proof.
  intros Hc Hb Hlong. revert c Hc Hlong. induction Hb as [|ch chunks Hch Hb IH]; intros c Hc Hlong; [by inversion Hlong|].
  intros [Hroom Hrest]. destruct (feed_refines c ch Hc Hch) as (r & c1 & Hfeed & Hc1 & Hm & _).
  rw Hfeed in Hrest. apply Exists_cons in Hlong as [Hl|Hl].
  - pose proof (Nat2Z.is_nonneg (length (pending c))). rw /size in Hroom, Hl. lia.
  - eapply (IH c1); [done|by rw Hm|done].
Qed.

Lemma parse_frames limit payloads frames :
  mapM (λ p, encode p limit) payloads = Ok frames →
  parse limit (concat frames) payloads (Codec_none, []).
Proof.
  revert frames. induction payloads as [|p ps IH]; intros frames; cbn.
  { intros [= <-]. apply parse_short. rw /header_size /=. lia. }
  destruct (encode p limit) as [fr| |] eqn:Hp; cbn; [|done..].
  destruct (mapM _ ps) as [frs| |] eqn:Hps; cbn; [|done..]. intros [= <-]. cbn.
  eapply parse_encoded; [exact Hp|done|by apply IH].
Qed.

(** C29: Framing round trip under chunking. Let the encodings of payloads of at most
    [limit] bytes be concatenated and cut into chunks at arbitrary places. If every
    chunk finds room in the buffer when it arrives (what is unread and the chunk are
    together at most a frame of the largest size with its header) then exactly
    those payloads are decoded, with nothing left in the buffer; otherwise the first
    chunk that finds none is refused as too large, after the payloads completed
    before it were returned, and the codec has failed. Chunks of at most
    [max_frame_size + 1 - limit] bytes, so single bytes, always find room, and a
    chunk longer than [max_frame_size + 4] never does. *)
Theorem decode_stream limit (payloads frames chunks : list (list Z)) (c : LengthFieldCodec) :
  codec_inv c → failed_ c = false → pending c = [] → 0 < limit ≤ max_frame_size_ c →
  mapM (λ p, encode p limit) payloads = Ok frames → Forall (Forall byte) chunks →
  concat chunks = concat frames →
  (roomy chunks c →
   ∃ c', feed_all chunks c = (Ok payloads, c') ∧ codec_inv c' ∧ failed_ c' = false ∧ pending c' = []) ∧
  (¬ roomy chunks c → overruns chunks c payloads) ∧
  (Forall (λ ch, size ch ≤ max_frame_size_ c + 1 - limit) chunks → roomy chunks c) ∧
  (Exists (λ ch, max_frame_size_ c + 4 < size ch) chunks → ¬ roomy chunks c).
Proof.
  intros Hc Hf Hnil Hlim Henc Hb Heq.
  assert (parse limit (pending c ++ concat chunks) payloads (Codec_none, [])) as Hp.
  { rw Hnil Heq /=. by apply parse_frames. }
  destruct (feed_all_stream limit chunks c payloads) as [[Hr Hok]|[Hr Hover]]; try done.
  - split_and!; [done|done|done|]. intros Hlong. exfalso. by eapply long_not_roomy.
  - split_and!; [done|done| |done]. by apply (small_roomy limit _ _ payloads).
Qed.

(** ** A concrete stream *)

Module CodecDemo.
Definition codec16 := mkCodec 16 [] 0 false.
Definition payloads : list (list Z) := [[1; 2; 3]; [255]; [7; 7; 7; 7]].
Definition chunks : list (list Z) :=
  [[0; 0]; [0; 3; 1; 2]; [3; 0; 0; 0; 1; 255; 0; 0; 0; 4]; [7; 7]; [7; 7]].

Lemma codec16_inv : codec_inv codec16.
Proof. by apply (codec_inv_new 16). Qed.

Lemma chunk_bytes : Forall (Forall byte) chunks.
Proof. repeat (apply Forall_cons; split; [repeat (apply Forall_cons; split; [rw /byte; lia|]); by apply Forall_nil|]). by apply Forall_nil. Qed.

Lemma feed_correct_witness :
  ∃ r c', feed [0; 0; 0; 2; 9; 8; 0] codec16 = (Ok r, c') ∧ r = mkDecode Codec_none [[9; 8]] ∧
    size (buffer_ c') < 40.
Proof.
  assert (Forall byte [0; 0; 0; 2; 9; 8; 0]) as Hb.
  { repeat (apply Forall_cons; split; [rw /byte; lia|]). by apply Forall_nil. }
  destruct (feed_correct codec16 [0; 0; 0; 2; 9; 8; 0] codec16_inv Hb)
    as (r & c' & Hfeed & _ & Hm & _ & Hbound).
  exists r, c'. split; [exact Hfeed|]. vm_compute in Hfeed. injection Hfeed as <- <-.
  split; [reflexivity|]. destruct Hbound as [Hb'|Hb']; [discriminate Hb'|exact Hb'].
Defined.

Definition frames : list (list Z) :=
  [[0; 0; 0; 3; 1; 2; 3]; [0; 0; 0; 1; 255]; [0; 0; 0; 4; 7; 7; 7; 7]].

Lemma decode_stream_witness :
  mapM (λ p, encode p 4) payloads = Ok frames ∧
  ∃ c', feed_all chunks codec16 = (Ok payloads, c') ∧ pending c' = [].
Proof.
  assert (mapM (λ p, encode p 4) payloads = Ok frames) as Henc by by vm_compute.
  split; [exact Henc|].
  destruct (decode_stream 4 payloads frames chunks codec16 codec16_inv eq_refl eq_refl)
    as (Hok & _ & Hroomy & _).
  - cbn. lia.
  - exact Henc.
  - exact chunk_bytes.
  - reflexivity.
  - destruct Hok as (c' & Hall & _ & _ & Hp).
    + apply Hroomy. repeat (apply Forall_cons; split; [vm_compute; discriminate|]). by apply Forall_nil.
    + exists c'. split; [exact Hall|exact Hp].
Defined.

(** The same stream does not fit a codec for frames of at most fifteen bytes when it
    arrives in one piece. *)
Example one_chunk_refused :
  (feed (concat frames) (mkCodec 15 [] 0 false)).1 = Ok (mkDecode Codec_frame_too_large []).
Proof. by vm_compute. Qed.
End CodecDemo.
