(* ===== verification/TokenBucket.v ===== *)
(** * The token bucket

    Model of [include/poker/net/token_bucket.hpp] and
    [src/poker/net/token_bucket.cpp]. A [double] is a [spec_float] of 53 bits and
    the operations are those of IEEE 754 with rounding to nearest, as the
    Standard Library specifies them; a [time_point] of the steady clock is its
    number of nanoseconds. The theorem needs no error analysis: taking a token is
    exact, and a refill, rounded as it is, never passes the capacity. *)
From S2P Require Import Prelude.
From Stdlib Require Import SpecFloat.

Local Notation prec := 53 (only parsing).
Local Notation emax := 1024 (only parsing).

Definition double := spec_float.

(** A 64-bit integer converted to [double]. *)
Definition double_of (n : Z) : double := binary_normalize prec emax n 0 false.

Definition double_add : double → double → double := SFadd prec emax.
Definition double_sub : double → double → double := SFsub prec emax.
Definition double_mul : double → double → double := SFmul prec emax.
Definition double_div : double → double → double := SFdiv prec emax.

(** [std::min]: the first argument unless the second is smaller. *)
Definition double_min (a b : double) : double := if SFltb b a then b else a.

(** [std::chrono::duration<double>(d).count()] for [d] in nanoseconds. *)
Definition seconds (nanoseconds : Z) : double :=
  double_div (double_of nanoseconds) (double_of 1000000000).

Record TokenBucket := mkBucket {
  rate_ : double;
  capacity_ : double;
  tokens_ : double;
  last_refill_ : Z;
}.

Implicit Types (b : TokenBucket) (x y : double).

Definition TokenBucket_new (tokens_per_second : double) (burst now : Z) : result TokenBucket :=
  if SFleb tokens_per_second (double_of 0) || (burst =? 0)
  then Throw (invalid_argument "token bucket rate and burst must be positive")
  else Ok (mkBucket tokens_per_second (double_of burst) (double_of burst) now).

(** The first [if] of [allow]. *)
Definition refill (now : Z) b : TokenBucket :=
  if last_refill_ b <? now then
    let elapsed := seconds (now - last_refill_ b) in
    mkBucket (rate_ b) (capacity_ b)
      (double_min (capacity_ b) (double_add (tokens_ b) (double_mul elapsed (rate_ b)))) now
  else b.

Definition allow (now : Z) b : bool * TokenBucket :=
  let b := refill now b in
  if SFltb (tokens_ b) (double_of 1) then (false, b)
  else (true, mkBucket (rate_ b) (capacity_ b) (double_sub (tokens_ b) (double_of 1)) (last_refill_ b)).

Definition available b : double := tokens_ b.

(** ** Exact values

    The finite numbers that are not negative, in units of the smallest positive
    one. *)

Local Notation one_token := (2 ^ 1074) (only parsing).

Definition amount x : Prop :=
  match x with
  | S754_zero s => s = false
  | S754_finite s m e => s = false ∧ canonical_mantissa prec emax m e = true
  | _ => False
  end.

Definition units x : Z :=
  match x with
  | S754_finite _ m e => Z.pos m * 2 ^ (e + 1074)
  | _ => 0
  end.

(** What the rounding of a number that is not negative can be. *)
Definition nonnegative x : Prop := amount x ∨ x = S754_infinity false.

Lemma fexp_eq k : fexp prec emax k = Z.max (k - 53) (-1074).
Proof. done. Qed.

Lemma digits_bounds n : 0 < n → 2 ^ (Zdigits2 n - 1) ≤ n < 2 ^ Zdigits2 n.
Proof.
  destruct n as [|p|p]; [done| |done]. intros _. cbn [Zdigits2].
  induction p as [p IH|p IH|]; [| |done]; cbn [digits2_pos];
    rw Pos2Z.inj_succ; set (d := Z.pos (digits2_pos p)) in *;
    assert (0 < d) as Hd by done;
    rw (_ : Z.succ d - 1 = Z.succ (d - 1)) ?Z.pow_succ_r; try lia.
Qed.

Lemma digits_unique n d : 0 < n → 2 ^ (d - 1) ≤ n < 2 ^ d → Zdigits2 n = d.
Proof.
  intros Hn [H1 H2]. pose proof (digits_bounds n Hn) as [H3 H4].
  assert (0 ≤ d) as Hd by (destruct (Z.lt_ge_cases d 0); [|done]; rewrite (Z.pow_neg_r 2 d) in H2; lia).
  assert (0 < Zdigits2 n) as Hp by by destruct n.
  destruct (Z.lt_trichotomy (Zdigits2 n) d) as [Hlt|[|Hlt]]; [|done|].
  - assert (2 ^ Zdigits2 n ≤ 2 ^ (d - 1)) by (apply Z.pow_le_mono_r; lia). lia.
  - assert (2 ^ d ≤ 2 ^ (Zdigits2 n - 1)) by (apply Z.pow_le_mono_r; lia). lia.
Qed.

(** ** Shifting *)

Lemma shr_1_m mrs : 0 ≤ shr_m mrs → shr_m (shr_1 mrs) = shr_m mrs / 2.
Proof.
  destruct mrs as [[|[p|p|]|p] r s]; cbn; intros H; try done; try lia.
  - by rw Pos2Z.inj_xI Z.mul_comm Z.div_add_l.
  - by rw Pos2Z.inj_xO Z.mul_comm Z.div_mul.
Qed.

Lemma pow_xO n : 2 ^ Z.pos n~0 = 2 ^ Z.pos n * 2 ^ Z.pos n.
Proof. rw Pos2Z.inj_xO -Z.pow_add_r //. f_equal. lia. Qed.

Lemma pow_xI n : 2 ^ Z.pos n~1 = 2 * 2 ^ Z.pos n * 2 ^ Z.pos n.
Proof. rw Pos2Z.inj_xI Z.pow_add_r // (_ : 2 * Z.pos n = Z.pos n~0) // pow_xO. ring. Qed.

Lemma shr_iter_m n : ∀ mrs, 0 ≤ shr_m mrs → shr_m (iter_pos shr_1 n mrs) = shr_m mrs / 2 ^ Z.pos n.
Proof.
  assert (∀ m k, 0 ≤ m → 0 ≤ m / 2 ^ Z.pos k) as Hpos by (intros; apply Z.div_pos; lia).
  assert (∀ m, 0 ≤ m → 0 ≤ m / 2) as Hpos2 by (intros; apply Z.div_pos; lia).
  assert (∀ k, 0 < 2 ^ Z.pos k) as Hpow by (intros; apply Z.pow_pos_nonneg; lia).
  induction n as [n IH|n IH|]; intros mrs Hm; cbn [iter_pos];
    try pose proof (Hpow n).
  - rw IH ?IH ?shr_1_m; auto. rw pow_xI !Z.div_div; try lia. f_equal. ring.
  - rw IH ?IH; auto. rw pow_xO Z.div_div; lia.
  - by rw shr_1_m.
Qed.

Lemma shr_iter_exact n : ∀ k, 0 ≤ k →
  iter_pos shr_1 n (Build_shr_record (k * 2 ^ Z.pos n) false false) = Build_shr_record k false false.
Proof.
  assert (∀ k, 0 ≤ k → shr_1 (Build_shr_record (k * 2) false false) = Build_shr_record k false false) as H1.
  { intros [|k|k] Hk; [done| |lia]. by rw (Z.mul_comm (Z.pos k)). }
  induction n as [n IH|n IH|]; intros k Hk; cbn [iter_pos].
  - rw pow_xI (_ : k * (2 * 2 ^ Z.pos n * 2 ^ Z.pos n) = k * 2 ^ Z.pos n * 2 ^ Z.pos n * 2); [ring|].
    rw H1 ?IH //; lia.
  - rw pow_xO Z.mul_assoc !IH //; lia.
  - by apply H1.
Qed.

(** ** Rounding *)

(** A mantissa and an exponent as the format has them. *)
Record normal (m e : Z) : Prop := {
  normal_low : 0 ≤ m;
  normal_high : m < 2 ^ 53;
  normal_exp : -1074 ≤ e;
  normal_full : e = -1074 ∨ 2 ^ 52 ≤ m;
}.

Lemma normal_fexp m e : normal m e → 0 < m → fexp prec emax (Zdigits2 m + e) = e.
Proof.
  intros [_ Hh He Hf] Hm. rw fexp_eq. pose proof (digits_bounds m Hm) as [H1 H2].
  assert (Zdigits2 m ≤ 53) as Hd.
  { destruct (Z.le_gt_cases (Zdigits2 m) 53); [done|].
    assert (2 ^ 53 ≤ 2 ^ (Zdigits2 m - 1)) by (apply Z.pow_le_mono_r; lia). lia. }
  destruct Hf as [->|Hf]; [lia|].
  rw (digits_unique m 53) //; lia.
Qed.

Lemma shr_fexp_m m e l :
  0 ≤ m → e ≤ fexp prec emax (Zdigits2 m + e) →
  ∃ mrs, shr_fexp prec emax m e l = (mrs, fexp prec emax (Zdigits2 m + e)) ∧
    shr_m mrs = m / 2 ^ (fexp prec emax (Zdigits2 m + e) - e).
Proof.
  intros Hm He. rw /shr_fexp /shr. set (f := fexp _ _ _) in *.
  assert (shr_m (shr_record_of_loc m l) = m) as Hr by by destruct l as [|[]].
  destruct (f - e) as [|n|n] eqn:Hn; [| |lia].
  - eexists. rw (_ : f = e); [lia|]. split; [done|]. by rw Hr Z.pow_0_r Z.div_1_r.
  - eexists. rw -Hn (_ : e + (f - e) = f); [lia|]. split; [done|]. rw Hn shr_iter_m Hr //.
Qed.

Lemma shr_fexp_none m e l : fexp prec emax (Zdigits2 m + e) ≤ e →
  shr_fexp prec emax m e l = (shr_record_of_loc m l, e).
Proof. intros He. rw /shr_fexp /shr. by destruct (_ - e) eqn:Hn; [|lia|]. Qed.

Lemma shifted_normal m e :
  0 ≤ m → e ≤ fexp prec emax (Zdigits2 m + e) →
  normal (m / 2 ^ (fexp prec emax (Zdigits2 m + e) - e)) (fexp prec emax (Zdigits2 m + e)).
Proof.
  rw fexp_eq. set (d := Zdigits2 m). set (f := Z.max _ _). intros Hm He.
  assert (0 < 2 ^ (f - e)) as Hp by (apply Z.pow_pos_nonneg; lia).
  destruct (decide (m = 0)) as [->|Hm0].
  { rw Z.div_0_l; [lia|]. split; cbn in *; lia. }
  pose proof (digits_bounds m ltac:(lia)) as [H1 H2]. fold d in H1, H2.
  assert (0 < d) as Hd by (rewrite /d; by destruct m; [|done|lia]).
  split; [by apply Z.div_pos| |lia|].
  - apply Z.div_lt_upper_bound; [done|]. rw -Z.pow_add_r; [lia..|].
    apply (Z.lt_le_trans _ _ _ H2), Z.pow_le_mono_r; lia.
  - destruct (decide (f = -1074)) as [|Hf]; [by left|]. right.
    apply Z.div_le_lower_bound; [done|]. rw -Z.pow_add_r; [lia..|].
    etrans; [|exact H1]. apply Z.pow_le_mono_r; lia.
Qed.

Lemma round_even_cases m l : round_nearest_even m l = m ∨ round_nearest_even m l = m + 1.
Proof. destruct l as [|[]]; cbn; [by left| |by left|by right]. destruct (Z.even m); auto. Qed.

Lemma finite_nonnegative m e : normal m e →
  nonnegative match m with
              | Z0 => S754_zero false
              | Zpos m => if e <=? emax - prec then S754_finite false m e else S754_infinity false
              | _ => S754_nan
              end.
Proof.
  intros Hn. pose proof (normal_low _ _ Hn). destruct m as [|m|]; [by left| |lia].
  destruct (_ <=? _); [|by right]. left. split; [done|]. rw /canonical_mantissa.
  apply Z.eqb_eq. by apply (normal_fexp (Z.pos m)).
Qed.

(** Rounding a number that is not negative, given with at least the precision of
    the format. *)
Lemma round_aux_nonnegative m e l :
  0 ≤ m → e ≤ fexp prec emax (Zdigits2 m + e) → nonnegative (binary_round_aux prec emax false m e l).
Proof.
  intros Hm He. rw /binary_round_aux. destruct (shr_fexp_m m e l Hm He) as (mrs & -> & Hmrs).
  pose proof (shifted_normal m e Hm He) as Hn. rw -Hmrs in Hn. clear Hmrs.
  set (f := fexp _ _ _) in *. clearbody f. set (r := round_nearest_even _ _).
  assert (normal r f ∨ r = 2 ^ 53) as [Hr| ->].
  { destruct Hn as [H1 H2 H3 H4]. destruct (round_even_cases (shr_m mrs) (loc_of_shr_record mrs)) as [Hc|Hc];
      fold r in Hc; [left; rewrite Hc; done|].
    destruct (decide (r = 2 ^ 53)); [by right|left]. split; lia. }
  - rw shr_fexp_none; [|by apply finite_nonnegative].
    pose proof (normal_low _ _ Hr). pose proof (normal_exp _ _ Hr).
    destruct (decide (r = 0)) as [->|]; [rewrite fexp_eq; cbn; lia|].
    rw normal_fexp //; lia.
  - destruct (shr_fexp_m (2 ^ 53) f loc_Exact) as (mrs' & -> & ->);
      [done|rewrite fexp_eq; change (Zdigits2 (2 ^ 53)) with 54; lia|].
    pose proof (normal_exp _ _ Hn).
    rw fexp_eq (_ : Zdigits2 (2 ^ 53) = 54) // (_ : Z.max (54 + f - 53) (-1074) = f + 1); [lia|].
    rw (_ : f + 1 - f = 1); [lia|]. rw (_ : 2 ^ 53 / 2 ^ 1 = 2 ^ 52) //.
    apply (finite_nonnegative (2 ^ 52)). split; lia.
Qed.

(** Rounding is exact when no bits are lost. *)
Lemma round_aux_exact k n e :
  normal (Z.pos k) (e + n) → e + n ≤ emax - prec → 0 ≤ n →
  fexp prec emax (Zdigits2 (Z.pos k * 2 ^ n) + e) = e + n →
  binary_round_aux prec emax false (Z.pos k * 2 ^ n) e loc_Exact = S754_finite false k (e + n).
Proof.
  intros Hk Hmax Hn Hf. rw /binary_round_aux /shr_fexp Hf (_ : e + n - e = n); [lia|].
  assert (shr (Build_shr_record (Z.pos k * 2 ^ n) false false) e n =
          (Build_shr_record (Z.pos k) false false, e + n)) as Hs.
  { rw /shr. destruct n as [|n|]; [by rw Z.pow_0_r Z.mul_1_r Z.add_0_r| |lia]. by rw shr_iter_exact. }
  rw [shr_record_of_loc _ _]/= Hs /= (_ : fexp prec emax (Z.pos (digits2_pos k) + (e + n)) = e + n).
  { by apply (normal_fexp (Z.pos k)). }
  rw Z.sub_diag /=. by rw (proj2 (Z.leb_le _ _) Hmax).
Qed.

Lemma digits_shift m k : 0 < m → 0 ≤ k → Zdigits2 (m * 2 ^ k) = Zdigits2 m + k.
Proof.
  intros Hm Hk. pose proof (digits_bounds m Hm) as [H1 H2].
  assert (0 < 2 ^ k) by (apply Z.pow_pos_nonneg; lia).
  assert (0 < Zdigits2 m) by by destruct m.
  apply digits_unique; [lia|]. rw (_ : Zdigits2 m + k - 1 = Zdigits2 m - 1 + k); [lia|].
  rw (Z.pow_add_r 2 (Zdigits2 m - 1)); [lia..|]. rw (Z.pow_add_r 2 (Zdigits2 m)); [lia..|]. nia.
Qed.

Lemma iter_xO m d : Z.pos (Pos.iter xO m d) = Z.pos m * 2 ^ Z.pos d.
Proof.
  induction d as [|d IH] using Pos.peano_ind; [cbn; lia|].
  rw Pos.iter_succ Pos2Z.inj_succ Z.pow_succ_r // Pos2Z.inj_xO IH. ring.
Qed.

Lemma shl_align_spec m e e' : ∃ mz,
  shl_align m e e' = (mz, Z.min e e') ∧ Z.pos mz = Z.pos m * 2 ^ (e - Z.min e e').
Proof.
  rw /shl_align. destruct (e' - e) as [|d|d] eqn:Hd.
  - exists m. rw Z.min_l; [lia|]. by rw Z.sub_diag Z.mul_1_r.
  - exists m. rw Z.min_l; [lia|]. by rw Z.sub_diag Z.mul_1_r.
  - exists (Pos.iter xO m d). rw Z.min_r; [lia|]. split; [done|].
    rw iter_xO (_ : e - e' = Z.pos d) //. lia.
Qed.

Lemma binary_round_nonnegative m e : nonnegative (binary_round prec emax false m e).
Proof.
  rw /binary_round. change (Z.pos (digits2_pos m)) with (Zdigits2 (Z.pos m)).
  set (f := fexp _ _ _). destruct (shl_align_spec m e f) as (mz & -> & Hmz).
  apply round_aux_nonnegative; [done|]. rw Hmz digits_shift; [done|lia|].
  rw (_ : Zdigits2 (Z.pos m) + (e - Z.min e f) + Z.min e f = Zdigits2 (Z.pos m) + e); lia.
Qed.

Lemma binary_round_exact m e k j :
  Z.pos m = k * 2 ^ j → 0 ≤ j → k < 2 ^ 53 → -1074 ≤ e → e + j ≤ emax - prec →
  amount (binary_round prec emax false m e) ∧
  units (binary_round prec emax false m e) = Z.pos m * 2 ^ (e + 1074).
Proof.
  intros Hm Hj Hk He Hmax. assert (0 < k) as Hk0.
  { pose proof (Z.pow_nonneg 2 j ltac:(lia)). nia. }
  pose proof (digits_bounds k Hk0) as [Hd _].
  assert (Zdigits2 k ≤ 53) as Hdk.
  { destruct (Z.le_gt_cases (Zdigits2 k) 53); [done|].
    assert (2 ^ 53 ≤ 2 ^ (Zdigits2 k - 1)) by (apply Z.pow_le_mono_r; lia). lia. }
  rw /binary_round. change (Z.pos (digits2_pos m)) with (Zdigits2 (Z.pos m)).
  set (f := fexp _ _ _). assert (f ≤ e + j) as Hf by (rewrite /f fexp_eq Hm digits_shift //; lia).
  assert (-1074 ≤ f) as Hlow by (rewrite /f fexp_eq; lia).
  destruct (shl_align_spec m e f) as (mz & -> & Hmz).
  set (z := Z.min e f) in *. assert (0 < 2 ^ (f - z)) as Hpow by (apply Z.pow_pos_nonneg; lia).
  assert (fexp prec emax (Zdigits2 (Z.pos mz) + z) = f) as Hfz.
  { rw Hmz digits_shift; [done|lia|]. by rw (_ : Zdigits2 (Z.pos m) + (e - z) + z = Zdigits2 (Z.pos m) + e); [lia|]. }
  pose proof (shifted_normal (Z.pos mz) z ltac:(done) ltac:(lia)) as Hn. rw Hfz in Hn.
  assert (∃ q, Z.pos mz = Z.pos q * 2 ^ (f - z) ∧ Z.pos q * 2 ^ (f + 1074) = Z.pos m * 2 ^ (e + 1074)) as (q & Hq & Hv).
  { destruct (Z.le_ge_cases f e) as [Hle|Hge].
    - exists mz. rw (_ : f - z = 0); [lia|]. split; [lia|]. rw Hmz (_ : e + 1074 = e - z + (f + 1074)); [lia|].
      rw (Z.pow_add_r 2 (e - z)); [lia..|]. ring.
    - assert (z = e) as Hz by lia. rw Hz in Hmz |- *. rw Z.sub_diag Z.mul_1_r in Hmz.
      assert (0 < 2 ^ (j - (f - e))) by (apply Z.pow_pos_nonneg; lia).
      exists (Z.to_pos (k * 2 ^ (j - (f - e)))). rw Z2Pos.id; [lia|]. split.
      + rw Hmz Hm -Z.mul_assoc -Z.pow_add_r; [lia..|]. do 2 f_equal. lia.
      + rw Hm -!Z.mul_assoc -!Z.pow_add_r; try lia. do 2 f_equal. lia. }
  rw Hq Z.div_mul in Hn; [lia|].
  assert (z + (f - z) = f) as Hzf by lia.
  rw Hq round_aux_exact ?Hzf; [done|lia|lia|by rewrite -Hq|]. cbn. split; [split; [done|]|done].
  apply Z.eqb_eq. by apply (normal_fexp (Z.pos q)).
Qed.

(** ** The operations of the bucket *)

(** Not a negative number. *)
Definition unsigned x : Prop :=
  match x with
  | S754_nan => True
  | S754_zero s | S754_infinity s => s = false
  | S754_finite s m e => s = false ∧ canonical_mantissa prec emax m e = true
  end.

Lemma nonnegative_unsigned x : nonnegative x → unsigned x.
Proof. intros [Hx| ->]; [|done]. by destruct x. Qed.

Lemma double_of_nonnegative n : 0 ≤ n → nonnegative (double_of n).
Proof. destruct n; [by left|by intros _; apply binary_round_nonnegative|lia]. Qed.

Lemma double_of_exact n : 0 ≤ n < 2 ^ 53 → amount (double_of n) ∧ units (double_of n) = n * one_token.
Proof.
  destruct n as [|n|]; [done| |lia]. intros [_ Hn].
  apply (binary_round_exact n 0 (Z.pos n) 0); lia.
Qed.

Lemma canonical_exp m e : canonical_mantissa prec emax m e = true →
  e = Z.max (Zdigits2 (Z.pos m) + e - 53) (-1074).
Proof. intros H%Z.eqb_eq. rw -{1}H. done. Qed.

Lemma canonical_normal m e : canonical_mantissa prec emax m e = true → normal (Z.pos m) e.
Proof.
  intros H%canonical_exp. pose proof (digits_bounds (Z.pos m) ltac:(done)) as [H1 H2].
  set (d := Zdigits2 (Z.pos m)) in *. split; [done| |lia|].
  - apply (Z.lt_le_trans _ _ _ H2), Z.pow_le_mono_r; lia.
  - destruct (decide (e = -1074)); [by left|right]. etrans; [|exact H1]. apply Z.pow_le_mono_r; lia.
Qed.

Lemma digits_mul m m' :
  Zdigits2 (Z.pos m) + Zdigits2 (Z.pos m') - 1 ≤ Zdigits2 (Z.pos (m * m')).
Proof.
  pose proof (digits_bounds (Z.pos m) ltac:(done)) as [H1 H2].
  pose proof (digits_bounds (Z.pos m') ltac:(done)) as [H3 H4].
  pose proof (digits_bounds (Z.pos (m * m')) ltac:(done)) as [_ H5].
  set (d := Zdigits2 (Z.pos m)) in *. set (d' := Zdigits2 (Z.pos m')) in *.
  assert (0 < d ∧ 0 < d') as [Hd Hd'] by done.
  destruct (Z.le_gt_cases (d + d' - 1) (Zdigits2 (Z.pos (m * m')))) as [|Hlt]; [done|].
  assert (2 ^ Zdigits2 (Z.pos (m * m')) ≤ 2 ^ (d - 1 + (d' - 1))) as H by (apply Z.pow_le_mono_r; lia).
  rw Z.pow_add_r in H; [lia..|]. nia.
Qed.

Lemma digits_div z m : 0 < z →
  Zdigits2 z - Zdigits2 (Z.pos m) ≤ Zdigits2 (z / Z.pos m).
Proof.
  intros Hz. pose proof (digits_bounds z Hz) as [H1 _].
  pose proof (digits_bounds (Z.pos m) ltac:(done)) as [_ H2].
  set (d := Zdigits2 z) in *. set (d' := Zdigits2 (Z.pos m)) in *.
  assert (0 < d') as Hd' by done.
  assert (0 ≤ z / Z.pos m) as Hq by (apply Z.div_pos; lia).
  assert (0 ≤ Zdigits2 (z / Z.pos m)) by (by destruct (z / Z.pos m)).
  destruct (Z.le_gt_cases d d') as [|Hlt]; [lia|].
  assert (2 ^ (d - 1 - d') ≤ z / Z.pos m) as Hlow.
  { apply Z.div_le_lower_bound; [lia|]. etrans; [|exact H1].
    rw (_ : d - 1 = d' + (d - 1 - d')); [lia|]. rw (_ : d' + (d - 1 - d') - d' = d - 1 - d'); [lia|].
    rw Z.pow_add_r; [lia..|]. apply Z.mul_le_mono_nonneg_r; lia. }
  assert (0 < 2 ^ (d - 1 - d')) by (apply Z.pow_pos_nonneg; lia).
  pose proof (digits_bounds (z / Z.pos m) ltac:(lia)) as [_ H3].
  destruct (Z.le_gt_cases (d - d') (Zdigits2 (z / Z.pos m))) as [|Hgt]; [done|].
  assert (2 ^ Zdigits2 (z / Z.pos m) ≤ 2 ^ (d - 1 - d')) by (apply Z.pow_le_mono_r; lia). lia.
Qed.

Lemma double_mul_unsigned x y : unsigned x → unsigned y → unsigned (double_mul x y).
Proof.
  intros Hx Hy. destruct x as [s|s| |s m e], y as [s'|s'| |s' m' e']; cbn in Hx, Hy |- *; try done;
    try (by destruct s, s'); try (by destruct s, Hy as [-> _]); try (by destruct s', Hx as [-> _]).
  destruct Hx as [-> Hx%canonical_exp], Hy as [-> Hy%canonical_exp].
  apply nonnegative_unsigned, round_aux_nonnegative; [done|]. rw fexp_eq.
  pose proof (digits_mul m m'). assert (0 < Zdigits2 (Z.pos m) ∧ 0 < Zdigits2 (Z.pos m')) by done. lia.
Qed.

Lemma double_div_unsigned x m e : unsigned x → unsigned (double_div x (S754_finite false m e)).
Proof.
  intros Hx. destruct x as [s|s| |s n k]; cbn in Hx; subst; try done. destruct Hx as [-> _].
  rw /double_div /SFdiv /SFdiv_core_binary. cbn [xorb].
  set (f := fexp _ _ (_ - _)). set (e' := Z.min f (k - e)). set (s := k - e - e').
  set (z := match s with Z0 => _ | _ => _ end).
  assert (z = Z.pos n * 2 ^ s) as Hz.
  { rw /z. destruct s eqn:Hs; [lia|by rewrite Z.shiftl_mul_pow2|lia]. }
  pose proof (surjective_pairing (Z.div_eucl z (Z.pos m))) as Hdiv.
  change (Z.div_eucl z (Z.pos m)).1 with (z / Z.pos m) in Hdiv. rw Hdiv.
  assert (0 < 2 ^ s) by (apply Z.pow_pos_nonneg; lia).
  apply nonnegative_unsigned, round_aux_nonnegative; [apply Z.div_pos; lia|].
  pose proof (digits_div z m ltac:(lia)) as Hd. rw Hz digits_shift in Hd; [done|lia|]. rw -Hz in Hd.
  rw fexp_eq. assert (f = Z.max (Zdigits2 (Z.pos n) + k - (Zdigits2 (Z.pos m) + e) - 53) (-1074)) as Hf by done.
  lia.
Qed.

Lemma seconds_unsigned n : 0 ≤ n → unsigned (seconds n).
Proof.
  intros Hn. rw /seconds. set (g := double_of 1000000000). vm_compute in g.
  by apply double_div_unsigned, nonnegative_unsigned, double_of_nonnegative.
Qed.

Lemma amount_unsigned x : amount x → unsigned x.
Proof. by destruct x. Qed.

Lemma double_add_unsigned x y : amount x → unsigned y → unsigned (double_add x y).
Proof.
  intros Hx Hy. destruct x as [s|s| |s m e], y as [s'|s'| |s' m' e']; cbn in Hx, Hy |- *; subst; try done.
  destruct Hx as [-> _], Hy as [-> _]. cbn.
  apply nonnegative_unsigned, binary_round_nonnegative.
Qed.

(** On finite numbers that are not negative the comparison is that of the values. *)
Lemma units_lt m m' e e' : canonical_mantissa prec emax m e = true →
  canonical_mantissa prec emax m' e' = true → e < e' →
  Z.pos m * 2 ^ (e + 1074) < Z.pos m' * 2 ^ (e' + 1074).
Proof.
  intros [H1 H2 H3 H4]%canonical_normal [H1' H2' H3' H4']%canonical_normal He.
  assert (0 < 2 ^ (e + 1074)) by (apply Z.pow_pos_nonneg; lia).
  apply (Z.lt_le_trans _ (2 ^ 53 * 2 ^ (e + 1074))); [apply Z.mul_lt_mono_pos_r; lia|].
  apply (Z.le_trans _ (2 ^ 52 * 2 ^ (e' + 1074))); [|apply Z.mul_le_mono_nonneg_r; lia].
  rw -!Z.pow_add_r; try lia. apply Z.pow_le_mono_r; lia.
Qed.

Lemma double_ltb_units x y : amount x → amount y → SFltb x y = (units x <? units y).
Proof.
  assert (∀ m e, canonical_mantissa prec emax m e = true → 0 < Z.pos m * 2 ^ (e + 1074)) as Hpos.
  { intros m e [_ _ He _]%canonical_normal. pose proof (Z.pow_pos_nonneg 2 (e + 1074)). lia. }
  intros Hx Hy. destruct x as [s|s| |s m e], y as [s'|s'| |s' m' e']; try done; cbn in Hx, Hy; rw /SFltb /=.
  - destruct Hy as [-> Hy]. symmetry. apply Z.ltb_lt, Hpos, Hy.
  - destruct Hx as [-> Hx]. symmetry. apply Z.ltb_ge. pose proof (Hpos m e Hx). lia.
  - destruct Hx as [-> Hx], Hy as [-> Hy]. symmetry. destruct (Z.compare_spec e e') as [->|Hlt|Hgt].
    + apply canonical_normal in Hx as [_ _ He _].
      pose proof (Z.pow_pos_nonneg 2 (e' + 1074) ltac:(lia) ltac:(lia)).
      change (Pos.compare_cont Eq m m') with (Pos.compare m m').
      destruct (Pos.compare_spec m m') as [->|Hm|Hm]; [apply Z.ltb_irrefl|apply Z.ltb_lt|apply Z.ltb_ge]; nia.
    + apply Z.ltb_lt, units_lt; done.
    + apply Z.ltb_ge. pose proof (units_lt m' m e' e Hy Hx Hgt). lia.
Qed.

Lemma double_min_units c x :
  amount c → unsigned x → amount (double_min c x) ∧ units (double_min c x) ≤ units c.
Proof.
  intros Hc Hx. rw /double_min. destruct (SFltb x c) eqn:Hlt; [|split; [done|lia]].
  assert (amount x) as Ha.
  { destruct x; try done. cbn in Hx. subst. by destruct c. }
  rw double_ltb_units // in Hlt. split; [done|]. lia.
Qed.

(** Taking one of at least one and less than [2 ^ 53] tokens is exact. *)
Lemma double_sub_one x :
  amount x → one_token ≤ units x < 2 ^ 53 * one_token →
  amount (double_sub x (double_of 1)) ∧ units (double_sub x (double_of 1)) = units x - one_token.
Proof.
  destruct x as [s|s| |s m e]; [intros _ [H _]; by destruct H|done|done|].
  intros [-> Hx] [Hlow Hhigh]. cbn [units] in *.
  apply canonical_normal in Hx as [H1 H2 H3 H4].
  assert (-53 < e) as He.
  { destruct (Z.le_gt_cases e (-53)); [|done].
    assert (2 ^ (e + 1074) ≤ 2 ^ 1021) as Hle by (apply Z.pow_le_mono_r; lia).
    assert (2 ^ 1074 = 2 ^ 53 * 2 ^ 1021) as Hp by reflexivity. rw Hp in Hlow.
    assert (0 < 2 ^ 1021) as Hpos by done. clear Hp Hhigh. revert Hle Hlow Hpos.
    generalize (2 ^ 1021) (2 ^ (e + 1074)). nia. }
  assert (e < 1) as He'.
  { destruct (Z.lt_ge_cases e 1); [done|]. destruct H4 as [|H4]; [lia|].
    assert (2 ^ 1075 ≤ 2 ^ (e + 1074)) as Hle by (apply Z.pow_le_mono_r; lia).
    assert (2 ^ 53 * 2 ^ 1074 = 2 ^ 52 * 2 ^ 1075) as Hp by reflexivity. rw Hp in Hhigh.
    assert (0 < 2 ^ 1075) as Hpos by done. clear Hp Hlow. revert Hle Hhigh Hpos.
    generalize (2 ^ 1075) (2 ^ (e + 1074)). nia. }
  assert (double_of 1 = S754_finite false 4503599627370496 (-52)) as -> by reflexivity.
  rw /double_sub /SFsub (_ : Z.min e (-52) = -52); [lia|].
  destruct (shl_align_spec m e (-52)) as (mz & -> & Hmz). rw (_ : Z.min e (-52) = -52) in Hmz; [lia|].
  destruct (shl_align_spec 4503599627370496 (-52) (-52)) as (mo & -> & Hmo). cbn [fst cond_Zopp].
  rw Hmz Hmo. clear mz mo Hmz Hmo. rw (_ : -52 - Z.min (-52) (-52) = 0) // Z.mul_1_r.
  rw (_ : e - -52 = e + 52); [lia|]. change (Z.pos 4503599627370496) with (2 ^ 52).
  set (z := Z.pos m * 2 ^ (e + 52) - 2 ^ 52).
  assert (0 < 2 ^ (e + 52)) as Hp by (apply Z.pow_pos_nonneg; lia).
  assert (Z.pos m * 2 ^ (e + 1074) = Z.pos m * 2 ^ (e + 52) * 2 ^ 1022) as Hu.
  { rw -Z.mul_assoc -Z.pow_add_r; [lia..|]. do 2 f_equal. lia. }
  assert (z * 2 ^ 1022 = Z.pos m * 2 ^ (e + 1074) - one_token) as Hz.
  { rw Hu /z Z.mul_sub_distr_r. f_equal. }
  assert (z = (Z.pos m - 2 ^ (- e)) * 2 ^ (e + 52)) as Hk.
  { rw /z Z.mul_sub_distr_r -Z.pow_add_r; [lia..|]. do 2 f_equal. lia. }
  rw -Hz. assert (0 ≤ z) as Hz0 by nia. clearbody z. destruct z as [|z|z]; [done| |lia].
  apply (binary_round_exact z (-52) (Z.pos m - 2 ^ (- e)) (e + 52)); [done|lia| |lia|lia].
  pose proof (Z.pow_nonneg 2 (- e)). lia.
Qed.

(** ** Requests *)

(** A sequence of requests at the times [nows], with their outcomes. *)
Fixpoint allow_all (nows : list Z) b : list bool * TokenBucket :=
  match nows with
  | [] => ([], b)
  | now :: nows =>
      let '(ok, b) := allow now b in
      let '(oks, b) := allow_all nows b in
      (ok :: oks, b)
  end.

Definition accepted (oks : list bool) : Z := sumZ (λ ok : bool, if ok then 1 else 0) oks.

Record bucket_inv (burst : Z) b : Prop := {
  bucket_tokens : amount (tokens_ b);
  bucket_capacity : amount (capacity_ b) ∧ units (capacity_ b) = burst * one_token;
  bucket_limit : units (tokens_ b) ≤ burst * one_token;
  bucket_rate : unsigned (rate_ b);
}.

Lemma units_nonneg x : 0 ≤ units x.
Proof. destruct x; cbn; try done. pose proof (Z.pow_nonneg 2 (e + 1074)). lia. Qed.

(** The mantissa and exponent of a number are the format's. *)
Definition canonical x : Prop :=
  match x with S754_finite _ m e => canonical_mantissa prec emax m e = true | _ => True end.

Lemma valid_canonical x : valid_binary prec emax x = true → canonical x.
Proof. destruct x; try done. by intros [? _]%andb_true_iff. Qed.

Lemma amount_canonical x : amount x → canonical x.
Proof. destruct x; try done. by intros [_ ?]. Qed.

Section requests.
  Context (burst : Z) (Hburst : 0 ≤ burst < 2 ^ 53).

Lemma TokenBucket_new_inv rate now b :
  canonical rate → TokenBucket_new rate burst now = Ok b →
  bucket_inv burst b ∧ 0 < burst ∧ tokens_ b = double_of burst ∧ last_refill_ b = now.
Proof.
  intros Hv. rw /TokenBucket_new. destruct (_ || _) eqn:Hb; [done|]. intros [= <-].
  apply orb_false_iff in Hb as [Hpos Hb%Z.eqb_neq]. destruct (double_of_exact burst Hburst) as [Ha Hu].
  split_and!; [|lia|done|done]. split; cbn; [done|done|by rewrite Hu|].
  by destruct rate as [[]|[]| |[] m e].
Qed.

Lemma refill_inv now b : bucket_inv burst b → bucket_inv burst (refill now b).
Proof.
  intros [H1 [H2 H3] H4 H5]. rw /refill. destruct (Z.ltb_spec (last_refill_ b) now) as [Hlt|]; [|by split].
  destruct (double_min_units (capacity_ b)
    (double_add (tokens_ b) (double_mul (seconds (now - last_refill_ b)) (rate_ b)))) as [Ha Hu]; [done| |].
  { apply double_add_unsigned, double_mul_unsigned, H5; [done|]. apply seconds_unsigned. lia. }
  split; cbn; [done|done| |done]. by rw -H3.
Qed.

(** A request is accepted exactly when a whole token is there, which it takes. *)
Lemma allow_spec now b : bucket_inv burst b →
  let full := one_token <=? units (tokens_ (refill now b)) in
  (allow now b).1 = full ∧ bucket_inv burst (allow now b).2 ∧
  last_refill_ (allow now b).2 = last_refill_ (refill now b) ∧
  units (tokens_ (allow now b).2) = units (tokens_ (refill now b)) - (if full then one_token else 0).
Proof.
  intros Hi%(refill_inv now). cbv zeta. rw /allow. set (r := refill now b) in *. clearbody r.
  destruct Hi as [H1 H2 H3 H4]. destruct (double_of_exact 1) as [Ho Huo]; [done|].
  rw double_ltb_units // Huo Z.mul_1_l. destruct (Z.ltb_spec (units (tokens_ r)) one_token) as [Hlt|Hge].
  - rw (proj2 (Z.leb_gt _ _) Hlt) Z.sub_0_r. split_and!; done.
  - rw (proj2 (Z.leb_le _ _) Hge).
    destruct (double_sub_one (tokens_ r) H1) as [Ha Hu].
    { split; [done|]. apply (Z.le_lt_trans _ _ _ H3), Z.mul_lt_mono_pos_r; [done|lia]. }
    split_and!; [done| |done|done]. split; cbn; [done|done| |done]. rw Hu. lia.
Qed.

Lemma allow_all_inv nows b : bucket_inv burst b → bucket_inv burst (allow_all nows b).2.
Proof.
  revert b. induction nows as [|now nows IH]; intros b Hi; [done|]. cbn.
  pose proof (allow_spec now b Hi) as (_ & Hi' & _). destruct (allow now b) as [ok b'].
  specialize (IH b' Hi'). by destruct (allow_all nows b').
Qed.

(** While no time passes. *)
Lemma allow_all_at_once nows b :
  bucket_inv burst b → Forall (λ now, now ≤ last_refill_ b) nows →
  accepted (allow_all nows b).1 = Z.min (Z.of_nat (length nows)) (units (tokens_ b) / one_token).
Proof.
  revert b. induction nows as [|now nows IH]; intros b Hi Hnow.
  { cbn. pose proof (Z.div_pos _ one_token (units_nonneg (tokens_ b))). rw Z.min_l //. auto with lia. }
  apply Forall_cons in Hnow as [Hnow Hnows]. cbn.
  assert (refill now b = b) as Hr by (rewrite /refill; destruct (Z.ltb_spec (last_refill_ b) now); [lia|done]).
  pose proof (allow_spec now b Hi) as (Hok & Hi' & Hl & Hu). rw Hr in Hok Hl Hu.
  destruct (allow now b) as [ok b'] eqn:Hallow. cbn in Hok, Hi', Hl, Hu.
  specialize (IH b' Hi'). rw Hl Hu in IH. specialize (IH Hnows).
  destruct (allow_all nows b') as [oks b'']. cbn in IH |- *. rw /accepted /= in IH |- *. rw IH Hok.
  set (t := units (tokens_ b)) in *. assert (0 ≤ t) by apply units_nonneg.
  destruct (Z.leb_spec one_token t) as [Hge|Hlt].
  - rw (_ : t = t - one_token + 1 * one_token) in Hge |- *; [lia|].
    rw Z.div_add //. rw (_ : t - one_token + 1 * one_token - one_token = t - one_token); [lia|].
    rw Nat2Z.inj_succ. lia.
  - rw Z.sub_0_r Z.div_small; lia.
Qed.
End requests.

(** C31: Whatever the rate and however calls follow each other, the tokens of a
    bucket are a finite number between zero and the burst. A request is accepted
    exactly when at least one whole token is there after the refill, and takes
    exactly one; while no time passes exactly the whole tokens are spent, at most
    the burst of them. *)
Theorem token_bucket_correct (rate : double) (burst start : Z) (nows : list Z) (b0 b : TokenBucket) :
  valid_binary prec emax rate = true → 0 ≤ burst < 2 ^ 53 →
  TokenBucket_new rate burst start = Ok b0 → (allow_all nows b0).2 = b →
  amount (available b) ∧ units (available b) ≤ burst * one_token ∧
  (∀ now, let r := refill now b in
     (r = b ↔ now ≤ last_refill_ b) ∧
     amount (available r) ∧ units (available r) ≤ burst * one_token ∧
     (allow now b).1 = (one_token <=? units (available r)) ∧
     units (available (allow now b).2) = units (available r) - (if (allow now b).1 then one_token else 0)) ∧
  (∀ more, Forall (λ now, now ≤ last_refill_ b) more →
     accepted (allow_all more b).1 = Z.min (Z.of_nat (length more)) (units (available b) / one_token) ∧
     accepted (allow_all more b).1 ≤ burst).
Proof.
  intros Hv Hburst Hnew <-. destruct (TokenBucket_new_inv burst Hburst rate start b0 (valid_canonical _ Hv) Hnew) as (Hi0 & _).
  pose proof (allow_all_inv burst Hburst nows b0 Hi0) as Hi. set (b := (allow_all nows b0).2) in *. clearbody b.
  split_and!; [apply Hi|apply Hi| |].
  - intros now. cbv zeta. pose proof (refill_inv burst now b Hi) as Hr.
    destruct (allow_spec burst Hburst now b Hi) as (Hok & _ & _ & Hu). rw Hok.
    split_and!; [|apply Hr|apply Hr|done|done].
    rw /refill. destruct (Z.ltb_spec (last_refill_ b) now); split; try lia; try done.
    intros Heq. by apply (f_equal last_refill_) in Heq; cbn in Heq; lia.
  - intros more Hm. rw (allow_all_at_once burst Hburst more b Hi Hm). split; [done|].
    assert (units (tokens_ b) / one_token ≤ burst); [|lia].
    rw -(Z.div_mul burst one_token) //. apply Z.div_le_mono; [done|apply Hi].
Qed.

Module BucketDemo.
(** 0.1 tokens in a second, a burst of 2. *)
Definition tenth : double := double_div (double_of 1) (double_of 10).
Definition b0 : TokenBucket := mkBucket tenth (double_of 2) (double_of 2) 0.

Lemma token_bucket_correct_witness :
  TokenBucket_new tenth 2 0 = Ok b0 ∧ accepted (allow_all [0; 0; 0; 0] b0).1 ≤ 2.
Proof.
  split; [reflexivity|].
  destruct (token_bucket_correct tenth 2 0 [] b0 b0 eq_refl) as (_ & _ & _ & H); [done|reflexivity|reflexivity|].
  destruct (H [0; 0; 0; 0]) as [_ H']; [by repeat constructor|exact H'].
Defined.

(** The burst, a refusal, and after thirteen seconds one more request. *)
Example tenth_run :
  (allow_all [0; 0; 5000000000; 13000000000; 13000000000] b0).1 = [true; true; false; true; false].
Proof. vm_compute. reflexivity. Qed.

(** Ten refills of a tenth of a token: their sum in binary falls short of a whole
    token, and the request after ten seconds is refused. *)
Example rounding_refuses :
  let seconds_of n := n * 1000000000 in
  (allow_all ([0; 0] ++ (seconds_of <$> [1; 2; 3; 4; 5; 6; 7; 8; 9; 10]) : list Z) b0).1 =
  [true; true; false; false; false; false; false; false; false; false; false; false].
Proof. vm_compute. reflexivity. Qed.
End BucketDemo.
