(* ===== verification/IdempotencyCache.v ===== *)
(** * The idempotency cache

    Model of [include/poker/application/idempotency_cache.hpp] and
    [src/poker/application/idempotency_cache.cpp]: per user, the requests in
    order of acceptance with their cached responses, and the last accepted
    client sequence number. Every operation holds the cache's mutex. *)
From S2P Require Import Prelude.

(** ** Data *)

Notation ResponseBytes := (list Z) (only parsing).

Inductive RequestStatus :=
  | Req_accepted
  | Req_duplicate
  | Req_in_flight
  | Req_stale_sequence
  | Req_sequence_gap
  | Req_capacity_exceeded
  | Req_invalid_request.

#[export] Instance RequestStatus_eq_dec : EqDecision RequestStatus.
Proof. solve_decision. Defined.

Record RequestDecision := mkDecision {
  rd_status : RequestStatus;
  rd_cached : option ResponseBytes;
}.

Record Entry := mkEntry { en_sequence : Z; en_response : option ResponseBytes }.

Record UserState := mkUserState {
  last_sequence : Z;
  entries : gmap Z Entry;
  insertion_order : list Z;
}.

Definition UserState_default : UserState := mkUserState 0 ∅ [].

Record IdempotencyCache := mkCache {
  max_requests_per_user_ : nat;
  cache_users : gmap Z UserState;
}.

(** ** Operations *)

Definition IdempotencyCache_new (max : nat) : result IdempotencyCache :=
  if (max =? 0)%nat
  then Throw (invalid_argument "idempotency cache must retain at least one request")
  else Ok (mkCache max ∅).

(** The loop of [evictOldest] from the iterator [request] on: requests without
    an entry and completed ones are erased while the cache is full, requests in
    flight are skipped. *)
Fixpoint evict_loop (max : nat) (order : list Z) (m : gmap Z Entry) : gmap Z Entry * list Z :=
  match order with
  | [] => (m, [])
  | request :: rest =>
      if (max <=? base.size m)%nat then
        match m !! request with
        | None => evict_loop max rest m
        | Some e =>
            match en_response e with
            | Some _ => evict_loop max rest (delete request m)
            | None => let '(m', rest') := evict_loop max rest m in (m', request :: rest')
            end
        end
      else (m, order)
  end.

Definition evictOldest (max : nat) (s : UserState) : UserState :=
  let '(m, order) := evict_loop max (insertion_order s) (entries s) in
  mkUserState (last_sequence s) m order.

(** [users_[user_id]] *)
Definition user_state (c : IdempotencyCache) (user_id : Z) : UserState :=
  default UserState_default (cache_users c !! user_id).

Definition set_user (user_id : Z) (s : UserState) (c : IdempotencyCache) : IdempotencyCache :=
  mkCache (max_requests_per_user_ c) (<[user_id := s]> (cache_users c)).

(** The decision for one user's state. *)
Definition begin_user (max : nat) (request_id sequence : Z) (s : UserState)
    : RequestDecision * UserState :=
  match entries s !! request_id with
  | Some e =>
      match en_response e with
      | Some response => (mkDecision Req_duplicate (Some response), s)
      | None => (mkDecision Req_in_flight None, s)
      end
  | None =>
      if sequence <=? last_sequence s then (mkDecision Req_stale_sequence None, s)
      else if negb (sequence =? u64_succ (last_sequence s))
      then (mkDecision Req_sequence_gap None, s)
      else
        let s' := evictOldest max s in
        if (max <=? base.size (entries s'))%nat
        then (mkDecision Req_capacity_exceeded None, s')
        else (mkDecision Req_accepted None,
              mkUserState sequence (<[request_id := mkEntry sequence None]> (entries s'))
                (insertion_order s' ++ [request_id]))
  end.

Definition cache_begin (user_id request_id sequence : Z) (c : IdempotencyCache)
    : RequestDecision * IdempotencyCache :=
  if (user_id =? 0) || (request_id =? 0) || (sequence =? 0)
  then (mkDecision Req_invalid_request None, c)
  else
    let '(d, s) := begin_user (max_requests_per_user_ c) request_id sequence (user_state c user_id) in
    (d, set_user user_id s c).

Definition cache_complete (user_id request_id : Z) (response : ResponseBytes)
    (c : IdempotencyCache) : bool * IdempotencyCache :=
  match cache_users c !! user_id with
  | None => (false, c)
  | Some s =>
      match entries s !! request_id with
      | None => (false, c)
      | Some e =>
          (true, set_user user_id
             (mkUserState (last_sequence s)
                (<[request_id := mkEntry (en_sequence e) (Some response)]> (entries s))
                (insertion_order s)) c)
      end
  end.

Definition cache_reset (user_id : Z) (c : IdempotencyCache) : IdempotencyCache :=
  mkCache (max_requests_per_user_ c) (delete user_id (cache_users c)).

Definition userCount (c : IdempotencyCache) : nat := base.size (cache_users c).

(** ** Runs *)

Inductive CacheCall :=
  | Begin (user_id request_id sequence : Z)
  | Complete (user_id request_id : Z) (response : ResponseBytes)
  | Reset (user_id : Z).

Definition cache_step (call : CacheCall) (c : IdempotencyCache) : IdempotencyCache :=
  match call with
  | Begin u r s => (cache_begin u r s c).2
  | Complete u r x => (cache_complete u r x c).2
  | Reset u => cache_reset u c
  end.

Definition cache_after (calls : list CacheCall) (c : IdempotencyCache) : IdempotencyCache :=
  foldl (λ c call, cache_step call c) c calls.

(** The requests accepted for a user since the last reset, oldest first: pairs
    of a request and its sequence number. *)
Definition accepted_by (u : Z) (call : CacheCall) (c : IdempotencyCache) (acc : list (Z * Z))
    : list (Z * Z) :=
  match call with
  | Begin u' r s =>
      if bool_decide (u' = u ∧ rd_status (cache_begin u' r s c).1 = Req_accepted)
      then acc ++ [(r, s)] else acc
  | Reset u' => if u' =? u then [] else acc
  | Complete _ _ _ => acc
  end.

Fixpoint accepted (u : Z) (calls : list CacheCall) (c : IdempotencyCache) (acc : list (Z * Z))
    : list (Z * Z) :=
  match calls with
  | [] => acc
  | call :: calls => accepted u calls (cache_step call c) (accepted_by u call c acc)
  end.

(** ** Invariant *)

Record user_inv (max : nat) (s : UserState) : Prop := {
  ui_last : 0 ≤ last_sequence s ≤ u64_max;
  ui_order : NoDup (insertion_order s);
  ui_dom : ∀ r, r ∈ insertion_order s ↔ is_Some (entries s !! r);
  ui_size : (base.size (entries s) ≤ max)%nat;
  ui_sequence : ∀ r e, entries s !! r = Some e → 0 < en_sequence e ≤ last_sequence s;
}.

Definition cache_inv (c : IdempotencyCache) : Prop :=
  (0 < max_requests_per_user_ c)%nat ∧ ∀ u, user_inv (max_requests_per_user_ c) (user_state c u).

Lemma user_inv_default max : user_inv max UserState_default.
Proof.
  split; cbn; [done|by apply NoDup_nil_2| | |].
  - intros r. rw lookup_empty. split; [by intros ?%not_elem_of_nil|by intros []].
  - rw map_size_empty. lia.
  - intros r e. by rw lookup_empty.
Qed.

(** What eviction leaves: completed entries may go, nothing else changes, and
    if the cache is still full every request in it is in flight. *)
Record evicted (max : nat) (order : list Z) (m m' : gmap Z Entry) (order' : list Z) : Prop := {
  ev_entries : ∀ r, m' !! r = m !! r ∨
    (m' !! r = None ∧ r ∈ order ∧ ∃ e, m !! r = Some e ∧ is_Some (en_response e));
  ev_nodup : NoDup order';
  ev_order : ∀ r, r ∈ order' ↔ r ∈ order ∧ is_Some (m' !! r);
  ev_size : (base.size m' ≤ base.size m)%nat;
  ev_full : (max ≤ base.size m')%nat → ∀ r e, r ∈ order → m' !! r = Some e → en_response e = None;
}.

Lemma evict_loop_spec max order (m : gmap Z Entry) :
  NoDup order → (∀ r, r ∈ order → is_Some (m !! r)) →
  ∃ m' order', evict_loop max order m = (m', order') ∧ evicted max order m m' order'.
Proof.
  revert m. induction order as [|r0 rest IH]; intros m Hnd Hdom; cbn [evict_loop].
  { exists m, []. split; [done|]. split; [by left|by apply NoDup_nil_2| |done|].
    - intros r. split; [by intros ?%not_elem_of_nil|by intros [?%not_elem_of_nil _]].
    - by intros _ r e ?%not_elem_of_nil. }
  apply NoDup_cons in Hnd as Hnd'. destruct Hnd' as [Hr0 Hnd'].
  assert (∀ r, r ∈ rest → r ≠ r0) as Hne by by intros r Hr ->.
  destruct (Nat.leb_spec max (base.size m)) as [Hfull|Hroom]; last first.
  { exists m, (r0 :: rest). split; [done|]. split; [by left|done| |done|].
    - intros r. split; [|by intros []]. intros Hr. split; [done|by apply Hdom].
    - lia. }
  destruct (Hdom r0) as [e0 He0]; [left|]. rw He0.
  destruct (en_response e0) as [x|] eqn:Hx.
  - destruct (IH (delete r0 m)) as (m' & order' & Hloop & [H1 H2 H3 H4 H5]); [done| |].
    { intros r Hr. rw lookup_delete_ne; [by apply not_eq_sym, Hne|]. apply Hdom. by right. }
    assert (m' !! r0 = None) as Hgone.
    { destruct (H1 r0) as [->|[-> _]]; [by rw lookup_delete_eq|done]. }
    exists m', order'. split; [done|]. split; [|done| | |].
    + intros r. destruct (decide (r = r0)) as [->|Hr].
      * right. split; [done|]. split; [left|]. exists e0. rw Hx. by eauto.
      * destruct (H1 r) as [->|(-> & Hin & e & He & Hre)].
        -- left. by rw lookup_delete_ne.
        -- right. rw lookup_delete_ne // in He. split; [done|]. split; [by right|]. by exists e.
    + intros r. rw H3 elem_of_cons. split; [naive_solver|].
      intros [[->|?] Hs]; [|done]. rw Hgone in Hs. by destruct Hs.
    + rw (map_size_delete_Some r0 m) in H4; [by eexists|]. lia.
    + intros Hf r e [->|Hr]%elem_of_cons He; [congruence|by apply (H5 Hf r)].
  - destruct (IH m) as (m' & order' & -> & [H1 H2 H3 H4 H5]); [done| |].
    { intros r Hr. apply Hdom. by right. }
    assert (m' !! r0 = Some e0) as Hkept.
    { destruct (H1 r0) as [->|(_ & _ & e & He & [? Hre])]; [done|]. congruence. }
    exists m', (r0 :: order'). split; [done|]. split; [| | |done|].
    + intros r. destruct (H1 r) as [->|(-> & Hin & He)]; [by left|right].
      split; [done|]. split; [by right|done].
    + apply NoDup_cons. split; [|done]. rw H3. by intros [? _].
    + intros r. rw !elem_of_cons H3. split; [intros [->|[? ?]]|intros [[->|?] ?]]; eauto.
    + intros Hf r e [->|Hr]%elem_of_cons He; [congruence|by apply (H5 Hf r)].
Qed.

(** ** One request *)

Lemma evictOldest_spec max s :
  user_inv max s →
  let s' := evictOldest max s in
  user_inv max s' ∧ last_sequence s' = last_sequence s ∧
  (∀ r, entries s' !! r = entries s !! r ∨
     (entries s' !! r = None ∧ ∃ e, entries s !! r = Some e ∧ is_Some (en_response e))) ∧
  ((max ≤ base.size (entries s'))%nat →
     ∀ r e, entries s !! r = Some e → en_response e = None).
Proof.
  intros [Hl Ho Hd Hs Hq]. rw /evictOldest.
  destruct (evict_loop_spec max (insertion_order s) (entries s)) as (m' & o' & -> & [H1 H2 H3 H4 H5]);
    [done|by intros r ?%Hd|]. cbn.
  assert (∀ r e, m' !! r = Some e → entries s !! r = Some e) as Hsub.
  { intros r e Hr. by destruct (H1 r) as [<-|[Hn _]]; [|congruence]. }
  split_and!; [|done| |].
  - split; cbn; [done|done| |lia|].
    + intros r. rw H3 Hd. split; [by intros []|]. intros [e He]. split; [|by eexists].
      exists e. by apply Hsub.
    + intros r e Hr. apply (Hq r). by apply Hsub.
  - intros r. destruct (H1 r) as [->|(-> & _ & ?)]; [by left|by right].
  - intros Hf r e Hr. destruct (H1 r) as [Hsame|(Hgone & _)].
    { apply (H5 Hf r e); [apply Hd; by eexists|congruence]. }
    exfalso. assert (m' ⊆ delete r (entries s)) as Hle%map_subseteq_size.
    { apply map_subseteq_spec. intros k x Hk. rw lookup_delete_Some.
      split; [intros ->; congruence|by apply Hsub]. }
    rw (map_size_delete_Some r) in Hle; [by eexists|].
    assert (base.size (entries s) ≠ 0%nat); [|lia].
    intros H0. apply map_size_empty_inv in H0. rw H0 lookup_empty in Hr. done.
Qed.

(** An accepted request is entered as the last one of its user. *)
Lemma accepted_inv max r q s :
  user_inv max s → entries s !! r = None → (base.size (entries s) < max)%nat →
  q = last_sequence s + 1 → q ≤ u64_max →
  user_inv max (mkUserState q (<[r := mkEntry q None]> (entries s)) (insertion_order s ++ [r])).
Proof.
  intros [Hl Ho Hd Hsz Hseq] Hr Hroom -> Hq. split; cbn; [lia| | | |].
  - apply NoDup_app. split; [done|]. split; [|apply NoDup_singleton].
    intros k Hk ->%list_elem_of_singleton. apply Hd in Hk. rw Hr in Hk. by destruct Hk.
  - intros k. rw elem_of_app list_elem_of_singleton Hd lookup_insert. case_decide as Hk.
    + subst. split; [by eexists|by right].
    + split; [intros [?| ->]; done|by left].
  - rw map_size_insert_None //.
  - intros k e. rw lookup_insert_Some. intros [[<- <-]|[_ Hk]]; [cbn; lia|].
    destruct (Hseq k e Hk). lia.
Qed.

(** Room after the eviction is room before it, or an entry that can be evicted. *)
Lemma room_origin max s :
  user_inv max s → (base.size (entries (evictOldest max s)) < max)%nat →
  (base.size (entries s) < max)%nat ∨ ∃ k e, entries s !! k = Some e ∧ is_Some (en_response e).
Proof.
  intros Hs Hroom. destruct (evictOldest_spec max s Hs) as (_ & _ & He' & _).
  destruct (Nat.lt_ge_cases (base.size (entries s)) max) as [|Hge]; [by left|right].
  destruct (decide (Forall (λ k, entries s !! k ≫= en_response = None) (insertion_order s))) as [Hall|Hex];
    [exfalso|apply not_Forall_Exists in Hex; [|apply _]].
  - assert (entries s ⊆ entries (evictOldest max s)) as Hle%map_subseteq_size; [|lia].
    apply map_subseteq_spec. intros k e Hk. destruct (He' k) as [->|(_ & e' & Hk' & [x Hx])]; [done|].
    rw Forall_forall in Hall. specialize (Hall k). rw Hk' /= Hx in Hall.
    assert (k ∈ insertion_order s) as Hin; [apply (ui_dom _ _ Hs); by eexists|by specialize (Hall Hin)].
  - apply Exists_exists in Hex as (k & _ & Hk). exists k.
    change (¬ (entries s !! k ≫= en_response = None)) in Hk.
    destruct (entries s !! k) as [e|]; [|by destruct Hk]. exists e. split; [done|].
    by apply not_eq_None_Some in Hk.
Qed.

(** The decision on a request, and what it leaves, for one user. *)
Lemma begin_user_spec max r q s :
  (0 < max)%nat → user_inv max s → 0 < q →
  let '(d, s') := begin_user max r q s in
  user_inv max s' ∧
  (rd_status d = Req_accepted ↔
     entries s !! r = None ∧ q = last_sequence s + 1 ∧ q ≤ u64_max ∧
     ((base.size (entries s) < max)%nat ∨ ∃ k e, entries s !! k = Some e ∧ is_Some (en_response e))) ∧
  (if bool_decide (rd_status d = Req_accepted)
   then last_sequence s' = q ∧ entries s' !! r = Some (mkEntry q None)
   else last_sequence s' = last_sequence s) ∧
  (∀ k e, k ≠ r → entries s !! k = Some e → en_response e = None → entries s' !! k = Some e) ∧
  (∀ e x, entries s !! r = Some e → en_response e = Some x → d = mkDecision Req_duplicate (Some x)) ∧
  (∀ e, entries s !! r = Some e → s' = s) ∧
  (∀ e, entries s !! r = Some e → en_response e = None → d = mkDecision Req_in_flight None).
Proof.
  intros Hmax Hs Hq. pose proof Hs as [[Hl Hlast] Ho Hd Hsz Hseq]. rw /begin_user.
  assert (last_sequence s = u64_max → u64_succ (last_sequence s) = 0) as Hwrap.
  { by intros ->. }
  assert (last_sequence s < u64_max → u64_succ (last_sequence s) = last_sequence s + 1) as Hsucc.
  { intros. apply u64_small. rw /fits_u64. lia. }
  destruct (entries s !! r) as [e|] eqn:Hr.
  { destruct (en_response e) as [x|] eqn:Hx; (split; [done|]); (split; [split; [done|by intros []]|]);
      (split; [done|]); split_and!; intros; simplify_eq; try done; congruence. }
  destruct (Z.leb_spec q (last_sequence s)).
  { split_and!; try done; split; [done|intros (_ & ? & _); lia]. }
  destruct (Z.eqb_spec q (u64_succ (last_sequence s))) as [Hqs|Hqs]; cbn [negb]; last first.
  { split_and!; try done. split; [done|]. intros (_ & ? & ? & _). destruct Hqs. rw Hsucc; lia. }
  assert (last_sequence s < u64_max) as Hlt.
  { destruct (decide (last_sequence s = u64_max)) as [E|]; [rw Hwrap // in Hqs; lia|lia]. }
  rw Hsucc // in Hqs. clear Hwrap Hsucc.
  destruct (evictOldest_spec max s Hs) as (Hi' & Hl' & He' & Hf').
  set (s' := evictOldest max s) in *. pose proof Hi' as [_ Ho' Hd' Hsz' Hseq'].
  assert (entries s' !! r = None) as Hr'.
  { by destruct (He' r) as [->|[-> _]]. }
  assert (∀ k e, entries s !! k = Some e → en_response e = None → entries s' !! k = Some e) as Hkeep.
  { intros k e Hk Hn. destruct (He' k) as [->|(_ & e' & Hk' & [? ?])]; [done|congruence]. }
  destruct (Nat.leb_spec max (base.size (entries s'))) as [Hfull|Hroom].
  { split_and!; try done; [|by intros; apply Hkeep]. split; [done|].
    intros (_ & _ & _ & [Hlt'|(k & e & Hk & [x Hx])]).
    - exfalso. assert (entries s' ⊆ entries s) as Hle%map_subseteq_size; [|lia].
      apply map_subseteq_spec. intros k x Hk. destruct (He' k) as [<-|[Hn _]]; [done|congruence].
    - rw (Hf' Hfull k e Hk) in Hx. done. }
  split; [|split; [|split; [|split; [|done]]]].
  - apply accepted_inv; [done|done|done|by rw Hl'|lia].
  - split; [|done]. intros _. split_and!; [done|lia|lia|by apply room_origin].
  - cbn. split; [done|]. by rw lookup_insert_eq.
  - cbn. intros k e Hne Hk Hn. rw lookup_insert_ne //. by apply Hkeep.
Qed.

(** Only the accepted request gains an entry. *)
Lemma begin_user_entries max r q s d s' k e :
  user_inv max s → begin_user max r q s = (d, s') → entries s' !! k = Some e →
  k ≠ r ∨ rd_status d ≠ Req_accepted → entries s !! k = Some e.
Proof.
  intros Hs. destruct (evictOldest_spec max s Hs) as (_ & _ & He & _). cbv zeta in He.
  assert (∀ e', entries (evictOldest max s) !! k = Some e' → entries s !! k = Some e') as Hsub.
  { intros e' Hk. destruct (He k) as [<-|[Hn _]]; [done|congruence]. }
  rw /begin_user. destruct (entries s !! r) as [e0|].
  { by destruct (en_response e0); intros [= <- <-]. }
  destruct (q <=? last_sequence s); [by intros [= <- <-]|].
  destruct (negb _); [by intros [= <- <-]|].
  destruct (max <=? _)%nat; intros [= <- <-]; [by intros; apply Hsub|]. cbn.
  intros Hk [Hne|]; [|done]. rw lookup_insert_ne // in Hk. by apply Hsub.
Qed.

(** ** The cache *)

Lemma user_state_set u s c v :
  user_state (set_user u s c) v = if decide (v = u) then s else user_state c v.
Proof.
  rw /user_state /=. case_decide as H; [subst; by rw lookup_insert_eq|by rw lookup_insert_ne].
Qed.

Lemma cache_inv_set u s c :
  cache_inv c → user_inv (max_requests_per_user_ c) s → cache_inv (set_user u s c).
Proof. intros [Hm Hc] Hs. split; [done|]. intros v. rw user_state_set. by case_decide. Qed.

Lemma cache_inv_new max c : IdempotencyCache_new max = Ok c → cache_inv c.
Proof.
  rw /IdempotencyCache_new. destruct (Nat.eqb_spec max 0); [done|]. intros [= <-].
  split; cbn; [lia|]. intros u. rw /user_state /= lookup_empty. apply user_inv_default.
Qed.

Lemma cache_begin_inv u r q c :
  cache_inv c → 0 < u → 0 < r → 0 < q →
  cache_begin u r q c =
  let '(d, s) := begin_user (max_requests_per_user_ c) r q (user_state c u) in (d, set_user u s c).
Proof.
  intros Hc Hu Hr Hq. rw /cache_begin.
  by replace ((u =? 0) || (r =? 0) || (q =? 0)) with false
    by (symmetry; rw !orb_false_iff !Z.eqb_neq; lia).
Qed.

(** [begin] accepts a request exactly when its id is not cached, its
    sequence number is the next one, and there is room or a completed request
    to forget. An accepted request is in flight and becomes the last of its
    user; a cached one is answered with its response, or reported in flight,
    and changes nothing; no decision touches another user's requests or forgets
    a request in flight. *)
Lemma begin_correct (u r q : Z) (c c' : IdempotencyCache) (d : RequestDecision) :
  cache_inv c → 0 < u → 0 < r → 0 < q → cache_begin u r q c = (d, c') →
  let s := user_state c u in
  let s' := user_state c' u in
  cache_inv c' ∧
  (rd_status d = Req_accepted ↔
     entries s !! r = None ∧ q = last_sequence s + 1 ∧ q ≤ u64_max ∧
     ((base.size (entries s) < max_requests_per_user_ c)%nat ∨
      ∃ k e, entries s !! k = Some e ∧ is_Some (en_response e))) ∧
  (if bool_decide (rd_status d = Req_accepted)
   then last_sequence s' = q ∧ entries s' !! r = Some (mkEntry q None)
   else last_sequence s' = last_sequence s) ∧
  (∀ e, entries s !! r = Some e → s' = s ∧
     d = match en_response e with
         | Some x => mkDecision Req_duplicate (Some x)
         | None => mkDecision Req_in_flight None
         end) ∧
  (∀ k e, entries s !! k = Some e → en_response e = None → entries s' !! k = Some e) ∧
  (∀ v, v ≠ u → user_state c' v = user_state c v).
Proof.
  intros Hc Hu Hr Hq. rw cache_begin_inv //. intros Heq s s'.
  pose proof (begin_user_spec _ r q (user_state c u) (proj1 Hc) (proj2 Hc u) Hq) as Hspec.
  destruct (begin_user _ _ _ _) as [d0 s0] eqn:Hb. injection Heq as <- <-.
  assert (s' = s0) as -> by by rw /s' user_state_set decide_True.
  destruct Hspec as (H1 & H2 & H3 & H4 & H5 & H6 & H7).
  split_and!; [by apply cache_inv_set|done|done| | |].
  - intros e He. split; [by apply (H6 e)|]. destruct (en_response e) eqn:Hx; [by apply (H5 e)|by apply (H7 e)].
  - intros k e Hk Hn. destruct (decide (k = r)) as [->|]; [|by apply H4]. by rw (H6 e).
  - intros v Hv. by rw user_state_set decide_False.
Qed.

(** Completing a request stores its response and nothing else. *)
Lemma cache_complete_spec u r x c :
  cache_inv c →
  let c' := (cache_complete u r x c).2 in
  cache_inv c' ∧ (∀ v, last_sequence (user_state c' v) = last_sequence (user_state c v)) ∧
  (∀ v k e, entries (user_state c' v) !! k = Some e →
     ∃ e0, entries (user_state c v) !! k = Some e0 ∧ en_sequence e = en_sequence e0).
Proof.
  intros Hc. pose proof (proj2 Hc u) as Hu. rw /cache_complete.
  destruct (cache_users c !! u) as [s|] eqn:Hs; [|by split_and!; eauto].
  destruct (entries s !! r) as [e|] eqn:He; [|by split_and!; eauto]. cbn.
  assert (user_state c u = s) as E by by rw /user_state Hs. rw E in Hu.
  destruct Hu as [Hl Ho Hd Hsz Hq]. split_and!.
  - apply cache_inv_set; [done|]. split; cbn; [done|done| | |].
    + intros k. rw Hd lookup_insert. case_decide as Hk; [|done]. subst k.
      split; by eexists.
    + by rw map_size_insert_Some.
    + intros k e'. rw lookup_insert_Some. intros [[<- <-]|[_ Hk]]; [exact (Hq r e He)|exact (Hq k e' Hk)].
  - intros v. rw user_state_set. case_decide as Hv; [by rw Hv E|done].
  - intros v k e'. rw user_state_set. case_decide as Hv; [rw Hv E|by eauto]. cbn.
    rw lookup_insert_Some. intros [[<- <-]|[_ Hk]]; eauto.
Qed.

(** The requests accepted so far, as the state remembers them. *)
Definition tracked (u : Z) (c : IdempotencyCache) (acc : list (Z * Z)) : Prop :=
  snd <$> acc = seqZ 1 (Z.of_nat (length acc)) ∧
  last_sequence (user_state c u) = Z.of_nat (length acc) ∧
  ∀ k e, entries (user_state c u) !! k = Some e → (k, en_sequence e) ∈ acc.

Lemma cache_step_tracked u call c acc :
  cache_inv c → tracked u c acc →
  match call with Begin u' r q => 0 ≤ u' ∧ 0 ≤ r ∧ 0 ≤ q | _ => True end →
  cache_inv (cache_step call c) ∧ tracked u (cache_step call c) (accepted_by u call c acc).
Proof.
  intros Hc (Hseq & Hlast & Hent) Hcall. destruct call as [u' r q|u' r x|u']; cbn.
  - destruct (decide (0 < u' ∧ 0 < r ∧ 0 < q)) as [(Hu' & Hr & Hq)|Hbad]; last first.
    { rw /cache_begin. replace ((u' =? 0) || (r =? 0) || (q =? 0)) with true.
      - cbn. rw bool_decide_eq_false_2; [by intros []|]. done.
      - symmetry. rw !orb_true_iff !Z.eqb_eq. lia. }
    rw cache_begin_inv //.
    pose proof (begin_user_spec _ r q (user_state c u') (proj1 Hc) (proj2 Hc u') Hq) as Hspec.
    destruct (begin_user _ _ _ _) as [d s'] eqn:Hb.
    destruct Hspec as (Hinv & Hacc & Hupd & _ & _ & Hsame & _). cbn.
    split; [by apply cache_inv_set|]. destruct (decide (u' = u)) as [->|Hne]; last first.
    { rw bool_decide_eq_false_2; [by intros []|]. by rw /tracked user_state_set decide_False. }
    rw /tracked user_state_set decide_True //.
    assert (∀ k e, entries s' !! k = Some e → k ≠ r ∨ rd_status d ≠ Req_accepted →
              entries (user_state c u) !! k = Some e) as Hold.
    { intros k e Hk. exact (begin_user_entries _ _ _ _ _ _ _ _ (proj2 Hc u) Hb Hk). }
    destruct (decide (rd_status d = Req_accepted)) as [Ha|Ha].
    + rw !bool_decide_eq_true_2 // in Hupd |- *. destruct Hupd as [Hl He].
      apply Hacc in Ha as (_ & -> & _). rw fmap_app length_app Hseq Nat2Z.inj_add /=.
      split_and!.
      * rw Hlast. rw seqZ_app; [lia|lia|]. f_equal. cbn. rw /seqZ /=. f_equal. lia.
      * lia.
      * intros k e Hk. apply elem_of_app. destruct (decide (k = r)) as [->|].
        -- right. rw He in Hk. injection Hk as <-. by apply list_elem_of_singleton.
        -- left. apply Hent, Hold; auto.
    + rw (bool_decide_eq_false_2 _ Ha) in Hupd. rw bool_decide_eq_false_2; [by intros []|].
      split_and!; [done|lia|]. intros k e Hk. apply Hent, Hold; auto.
  - destruct (cache_complete_spec u' r x c Hc) as (Hinv & Hl & He). split; [done|].
    split_and!; [done|by rw Hl|]. intros k e Hk. destruct (He u k e Hk) as (e0 & Hk0 & ->). by apply Hent.
  - split.
    + split; [apply Hc|]. intros v. rw /user_state /= lookup_delete.
      case_decide; [apply user_inv_default|apply Hc].
    + destruct (Z.eqb_spec u' u) as [->|Hne].
      * rw /tracked /user_state /= lookup_delete_eq /=. split_and!; [done|done|].
        intros k e. by rw lookup_empty.
      * rw /tracked /user_state /= lookup_delete_ne //.
Qed.

(** The arguments of a call are unsigned. *)
Definition unsigned_call (call : CacheCall) : Prop :=
  match call with Begin u r q => 0 ≤ u ∧ 0 ≤ r ∧ 0 ≤ q | _ => True end.

(** C30: Over any sequence of calls, the requests accepted for a user since the
    last reset carry exactly the sequence numbers 1, 2, 3, ...: none is skipped,
    repeated or reordered. The user's last sequence number counts them, the
    cache only knows requests it accepted, and holds at most the configured
    number of them. *)
Theorem cache_sequences (max : nat) (calls : list CacheCall) (u : Z) (c0 : IdempotencyCache) :
  IdempotencyCache_new max = Ok c0 → Forall unsigned_call calls →
  let c := cache_after calls c0 in
  let acc := accepted u calls c0 [] in
  snd <$> acc = seqZ 1 (Z.of_nat (length acc)) ∧
  last_sequence (user_state c u) = Z.of_nat (length acc) ∧
  (∀ r e, entries (user_state c u) !! r = Some e → (r, en_sequence e) ∈ acc) ∧
  (base.size (entries (user_state c u)) ≤ max)%nat.
Proof.
  intros Hnew Hcalls.
  assert (∀ c acc, cache_inv c → tracked u c acc →
    cache_inv (cache_after calls c) ∧ tracked u (cache_after calls c) (accepted u calls c acc) ∧
    max_requests_per_user_ (cache_after calls c) = max_requests_per_user_ c) as Hrun.
  { induction Hcalls as [|call calls Hcall Hcalls IH]; intros c acc Hc Ht; [done|].
    destruct (cache_step_tracked u call c acc Hc Ht Hcall) as [Hc' Ht'].
    destruct (IH _ _ Hc' Ht') as (H1 & H2 & H3). split_and!; [done|done|].
    cbn. rw /cache_after in H3. rw H3. destruct call as [u' r q|u' r x|u']; cbn.
    - rw /cache_begin. destruct (_ || _); [done|]. by destruct (begin_user _ _ _ _).
    - rw /cache_complete. destruct (cache_users c !! u') as [s|]; [|done]. by destruct (entries s !! r).
    - done. }
  destruct (Hrun c0 []) as (Hc & (H1 & H2 & H3) & Hm).
  - by eapply cache_inv_new.
  - rw /IdempotencyCache_new in Hnew. destruct (max =? 0)%nat; [done|]. injection Hnew as <-.
    by split_and!.
  - split_and!; [done|done|done|]. destruct Hc as [_ Hc]. specialize (Hc u). rw Hm in Hc.
    rw /IdempotencyCache_new in Hnew. destruct (max =? 0)%nat; [done|]. injection Hnew as <-.
    apply Hc.
Qed.

Module CacheDemo.
Definition c0 := mkCache 2 ∅.
Definition calls : list CacheCall :=
  [Begin 5 100 1; Begin 5 101 3; Begin 5 101 2; Complete 5 100 [42]; Begin 5 100 9; Begin 5 102 3].

Lemma cache_sequences_witness :
  accepted 5 calls c0 [] = [(100, 1); (101, 2); (102, 3)] ∧
  last_sequence (user_state (cache_after calls c0) 5) = 3.
Proof.
  assert (accepted 5 calls c0 [] = [(100, 1); (101, 2); (102, 3)]) as Hacc by by vm_compute.
  split; [exact Hacc|].
  destruct (cache_sequences 2 calls 5 c0 eq_refl) as (_ & H & _).
  - repeat (apply Forall_cons; split; [cbn; lia|]). by apply Forall_nil.
  - rw Hacc in H. exact H.
Defined.

Definition c1 := cache_after [Begin 5 100 1; Complete 5 100 [42]] c0.

Lemma begin_correct_witness :
  cache_begin 5 100 9 c1 = (mkDecision Req_duplicate (Some [42]), (cache_begin 5 100 9 c1).2) ∧
  user_state (cache_begin 5 100 9 c1).2 5 = user_state c1 5.
Proof.
  assert (cache_inv c1) as Hinv.
  { destruct (cache_step_tracked 5 (Begin 5 100 1) c0 []) as [Hc Ht].
    - by apply (cache_inv_new 2).
    - by split_and!.
    - cbn. lia.
    - by apply (cache_step_tracked 5 (Complete 5 100 [42]) _ _ Hc Ht). }
  destruct (begin_correct 5 100 9 c1 (cache_begin 5 100 9 c1).2 (cache_begin 5 100 9 c1).1 Hinv)
    as (_ & _ & _ & H & _); [lia..|by destruct (cache_begin _ _ _ _)|].
  destruct (H (mkEntry 1 (Some [42])) ltac:(by vm_compute)) as [Hs Hd].
  split; [|exact Hs].
  transitivity ((cache_begin 5 100 9 c1).1, (cache_begin 5 100 9 c1).2).
  - by destruct (cache_begin 5 100 9 c1).
  - exact (f_equal (λ d, (d, (cache_begin 5 100 9 c1).2)) Hd).
Defined.
End CacheDemo.
