(* ===== verification/RoomExecutor.v ===== *)
(** * The sharded executor

    Model of [include/poker/application/room_executor.hpp] and
    [src/poker/application/room_executor.cpp]. Each shard has a bounded FIFO
    queue under its own mutex and one worker thread; tasks of a table all go to
    one shard. The atomic actions of the threads are posting a task, a worker
    taking the front task, and the first loop of [stop] marking a shard; the
    interleavings are the paths of [exec_step]. *)
From S2P Require Import Prelude.

Section executor.
  Context {Task : Type}.

(** ** State *)

Record Shard := mkShard { sh_tasks : list Task; sh_stopping : bool }.

Record RoomExecutor := mkExecutor {
  max_pending_per_shard_ : nat;
  shards_ : list Shard;
}.

Implicit Types (e : RoomExecutor) (s : Shard).

(** ** Operations *)

Definition RoomExecutor_new (shard_count max_pending : nat) : result RoomExecutor :=
  if (shard_count =? 0)%nat || (max_pending =? 0)%nat
  then Throw (invalid_argument "room executor requires positive shard and queue sizes")
  else Ok (mkExecutor max_pending (replicate shard_count (mkShard [] false))).

(** The index of [shardFor]. *)
Definition shardFor (table_id : Z) e : nat :=
  Z.to_nat (table_id `mod` Z.of_nat (length (shards_ e))).

Definition set_shard (i : nat) s e : RoomExecutor :=
  mkExecutor (max_pending_per_shard_ e) (<[i := s]> (shards_ e)).

(** [post]; an empty [std::function] is [None]. *)
Definition post (table_id : Z) (task : option Task) e : bool * RoomExecutor :=
  match task with
  | None => (false, e)
  | Some task =>
      let i := shardFor table_id e in
      match shards_ e !! i with
      | None => (false, e)
      | Some s =>
          if sh_stopping s || (max_pending_per_shard_ e <=? length (sh_tasks s))%nat
          then (false, e)
          else (true, set_shard i (mkShard (sh_tasks s ++ [task]) (sh_stopping s)) e)
      end
  end.

(** One iteration of [run] up to the call of the task: [None] while the worker
    waits, or once it has returned ([worker_done]). *)
Definition take_task (i : nat) e : option (Task * RoomExecutor) :=
  match shards_ e !! i with
  | Some (mkShard (task :: rest) stopping) => Some (task, set_shard i (mkShard rest stopping) e)
  | _ => None
  end.

Definition worker_done s : bool := sh_stopping s && bool_decide (length (sh_tasks s) = 0%nat).

(** The first loop of [stop], one shard at a time. *)
Definition stop_shard (i : nat) e : RoomExecutor :=
  match shards_ e !! i with
  | Some s => set_shard i (mkShard (sh_tasks s) true) e
  | None => e
  end.

(** The whole first loop. *)
Definition stop_all e : RoomExecutor :=
  mkExecutor (max_pending_per_shard_ e) ((λ s, mkShard (sh_tasks s) true) <$> shards_ e).

(** What the second loop of [stop] waits for. *)
Definition joined e : bool := forallb worker_done (shards_ e).

Definition shardCount e : nat := length (shards_ e).
Definition pendingTasks e : nat := sum_list_with (λ s, length (sh_tasks s)) (shards_ e).

(** ** Runs *)

Inductive exec_event :=
  | Posted (table_id : Z) (task : Task)
  | Refused_post (table_id : Z)
  | Ran (shard : nat) (task : Task)
  | Stopping (shard : nat).

Inductive exec_step : RoomExecutor → exec_event → RoomExecutor → Prop :=
  | exec_post id task e e' : post id (Some task) e = (true, e') → exec_step e (Posted id task) e'
  | exec_refuse id task e : post id (Some task) e = (false, e) → exec_step e (Refused_post id) e
  | exec_run i task e e' : take_task i e = Some (task, e') → exec_step e (Ran i task) e'
  | exec_stop i e : exec_step e (Stopping i) (stop_shard i e).

Inductive exec_steps : RoomExecutor → list exec_event → RoomExecutor → Prop :=
  | exec_nil e : exec_steps e [] e
  | exec_snoc e evs e' ev e'' : exec_steps e evs e' → exec_step e' ev e'' →
      exec_steps e (evs ++ [ev]) e''.

(** The tasks accepted for a shard, and the tasks its worker has started, in
    order. *)
Definition accepted_in (n i : nat) (evs : list exec_event) : list Task :=
  omap (λ ev, match ev with
              | Posted id task =>
                  if bool_decide (Z.to_nat (id `mod` Z.of_nat n) = i) then Some task else None
              | _ => None
              end) evs.

Definition ran_in (i : nat) (evs : list exec_event) : list Task :=
  omap (λ ev, match ev with
              | Ran j task => if bool_decide (j = i) then Some task else None
              | _ => None
              end) evs.

(** ** Lemmas *)

Lemma shards_set i s e j :
  (i < length (shards_ e))%nat →
  shards_ (set_shard i s e) !! j = if decide (i = j) then Some s else shards_ e !! j.
Proof.
  intros Hi. rw /set_shard /= list_lookup_insert. case_decide; case_decide; naive_solver.
Qed.

Lemma set_shard_length i s e : length (shards_ (set_shard i s e)) = length (shards_ e).
Proof. apply length_insert. Qed.

Lemma take_task_Some i e task e' :
  take_task i e = Some (task, e') →
  ∃ rest b, shards_ e !! i = Some (mkShard (task :: rest) b) ∧ e' = set_shard i (mkShard rest b) e.
Proof.
  rw /take_task. destruct (shards_ e !! i) as [[[|t rest] b]|]; try done.
  intros [= -> <-]. by exists rest, b.
Qed.

Lemma post_true id task e e' :
  post id task e = (true, e') →
  ∃ t s, task = Some t ∧ shards_ e !! shardFor id e = Some s ∧ sh_stopping s = false ∧
    (length (sh_tasks s) < max_pending_per_shard_ e)%nat ∧
    e' = set_shard (shardFor id e) (mkShard (sh_tasks s ++ [t]) false) e.
Proof.
  rw /post. destruct task as [t|]; [|done]. destruct (shards_ e !! _) as [s|]; [|done].
  destruct (_ || _) eqn:Hg; [done|]. guards. intros [= <-]. exists t, s. split_and!; try done.
  by rw H.
Qed.

(** What holds of a shard after the events so far. *)
Record shard_inv (e : RoomExecutor) (evs : list exec_event) (n i : nat) (s : Shard) : Prop := {
  sh_fifo : ran_in i evs ++ sh_tasks s = accepted_in n i evs;
  sh_bound : (length (sh_tasks s) ≤ max_pending_per_shard_ e)%nat;
}.

Lemma exec_step_inv e0 evs e ev e' n :
  (0 < n)%nat → length (shards_ e) = n → max_pending_per_shard_ e = max_pending_per_shard_ e0 →
  (∀ i s, shards_ e !! i = Some s → shard_inv e0 evs n i s) →
  exec_step e ev e' →
  length (shards_ e') = n ∧ max_pending_per_shard_ e' = max_pending_per_shard_ e0 ∧
  (∀ i s, shards_ e' !! i = Some s → shard_inv e0 (evs ++ [ev]) n i s).
Proof.
  intros Hn Hlen Hmax Hinv Hstep.
  assert (∀ i s ev', accepted_in n i [ev'] = [] → ran_in i [ev'] = [] →
    shard_inv e0 evs n i s → shard_inv e0 (evs ++ [ev']) n i s) as Hquiet.
  { intros i s ev' Ha Hr [Hf Hb]. split; [|done].
    rw /ran_in /accepted_in !omap_app -/(ran_in i evs) -/(accepted_in n i evs).
    rw -/(ran_in i [ev']) -/(accepted_in n i [ev']). by rw Ha Hr !app_nil_r. }
  destruct Hstep as [id task e e' Hp|id task e Hp|i task e e' Ht|i e].
  - apply post_true in Hp as (t & s & [= <-] & Hs & _ & Hroom & ->).
    rw set_shard_length. split_and!; [done|done|]. intros j s'.
    rw shards_set; [by apply lookup_lt_Some in Hs|]. case_decide as Hj.
    + intros [= <-]. subst j. destruct (Hinv _ _ Hs) as [Hf Hb]. split.
      * rw /ran_in /accepted_in !omap_app -/(ran_in _ evs) -/(accepted_in n _ evs) /=.
        rw bool_decide_eq_true_2; [by rw /shardFor Hlen|]. by rw app_nil_r app_assoc Hf.
      * rw /= length_app /=. lia.
    + intros Hs'. apply Hquiet; [|done|by apply Hinv]. rw /accepted_in /= bool_decide_eq_false_2 //.
      by rw /shardFor Hlen in Hj.
  - split_and!; [done|done|]. intros j s Hs. by apply Hquiet, Hinv.
  - apply take_task_Some in Ht as (rest & b & Hs & ->). rw set_shard_length.
    split_and!; [done|done|]. intros j s'. rw shards_set; [by apply lookup_lt_Some in Hs|].
    case_decide as Hj.
    + intros [= <-]. subst j. destruct (Hinv _ _ Hs) as [Hf Hb]. cbn in Hb, Hf. split; [|cbn; lia].
      rw /ran_in /accepted_in !omap_app -/(ran_in _ evs) -/(accepted_in n _ evs) /=.
      rw bool_decide_eq_true_2 // -Hf app_nil_r -app_assoc //.
    + intros Hs'. apply Hquiet; [done| |by apply Hinv]. rw /ran_in /= bool_decide_eq_false_2 //.
  - rw /stop_shard. destruct (shards_ e !! i) as [s|] eqn:Hs; last first.
    { split_and!; [done|done|]. intros j s' Hs'. by apply Hquiet, Hinv. }
    rw set_shard_length. split_and!; [done|done|]. intros j s'.
    rw shards_set; [by apply lookup_lt_Some in Hs|]. case_decide as Hj.
    + intros [= <-]. subst j. destruct (Hquiet _ _ (Stopping i) eq_refl eq_refl (Hinv _ _ Hs)) as [Hf Hb].
      by split.
    + intros Hs'. by apply Hquiet, Hinv.
Qed.

Lemma exec_steps_inv n max e0 evs e :
  RoomExecutor_new n max = Ok e0 → exec_steps e0 evs e →
  (0 < n)%nat ∧ length (shards_ e) = n ∧ max_pending_per_shard_ e = max ∧
  ∀ i s, shards_ e !! i = Some s → shard_inv e0 evs n i s.
Proof.
  rw /RoomExecutor_new. destruct (_ || _) eqn:Hg; [done|]. guards. intros [= <-] Hsteps.
  remember (mkExecutor max (replicate n (mkShard [] false))) as e0 eqn:He0.
  assert (0 < n)%nat by lia. induction Hsteps as [e|e evs e' ev e'' Hsteps IH Hstep].
  - subst e. cbn. rw length_replicate. split_and!; [done..|].
    intros i s [-> _]%lookup_replicate. by split; cbn; [|lia].
  - destruct (IH He0) as (_ & Hl & Hm & Hi). subst e. cbn.
    destruct (exec_step_inv (mkExecutor max (replicate n (mkShard [] false))) evs e' ev e'' n)
      as (? & ? & ?); done.
Qed.

(** However posts, workers and [stop] interleave, every shard runs exactly
    the tasks it accepted, in the order in which it accepted them, each once:
    what has run followed by what is queued is what was accepted. Since a table
    always maps to the same shard, its tasks never overlap or overtake. No
    queue exceeds its bound. *)
Lemma executor_fifo (n max : nat) (e0 e : RoomExecutor) (evs : list exec_event) (i : nat) (s : Shard) :
  RoomExecutor_new n max = Ok e0 → exec_steps e0 evs e → shards_ e !! i = Some s →
  ran_in i evs ++ sh_tasks s = accepted_in n i evs ∧
  (length (sh_tasks s) ≤ max)%nat ∧
  (∀ id, (shardFor id e < n)%nat ∧ shardFor id e = shardFor id e0).
Proof.
  intros Hnew Hsteps Hs. destruct (exec_steps_inv n max e0 evs e Hnew Hsteps) as (Hn & Hlen & Hm & Hi).
  rw /RoomExecutor_new in Hnew. destruct (_ || _); [done|]. injection Hnew as <-.
  destruct (Hi i s Hs) as [Hf Hb]. split_and!; [done|done|].
  intros id. rw /shardFor Hlen length_replicate. split; [|done].
  pose proof (Z.mod_pos_bound id (Z.of_nat n)). lia.
Qed.

(** ** Draining *)

Lemma take_task_pending i e task e' :
  take_task i e = Some (task, e') → pendingTasks e = S (pendingTasks e').
Proof.
  intros (rest & b & Hs & ->)%take_task_Some. rw /pendingTasks /set_shard /=.
  revert i Hs. induction (shards_ e) as [|s l IH]; intros [|i] Hs; simplify_eq/=; [done|].
  rw (IH i Hs). lia.
Qed.

Lemma take_task_progress e :
  (∀ i, take_task i e = None) ↔ pendingTasks e = 0%nat.
Proof.
  rw /pendingTasks. split.
  - intros H. assert (∀ s, s ∈ shards_ e → sh_tasks s = []) as Hs.
    { intros s (i & Hi)%list_elem_of_lookup. specialize (H i). rw /take_task Hi in H.
      by destruct s as [[|? ?] ?]. }
    revert Hs. clear H. induction (shards_ e) as [|s l IH]; intros Hs; simpl; [done|].
    rw (Hs s); [by left|]. apply IH. intros s' Hs'. apply Hs. by right.
  - intros H i. rw /take_task. destruct (shards_ e !! i) as [[[|t r] b]|] eqn:Hi; [done| |done].
    exfalso. revert i Hi H. induction (shards_ e) as [|s l IH]; intros [|i] Hi H; simplify_eq/=.
    apply (IH i Hi). lia.
Qed.

(** Workers alone, after [stop] has marked the shards. *)
Inductive drains : RoomExecutor → list Task → RoomExecutor → Prop :=
  | drains_done e : (∀ i, take_task i e = None) → drains e [] e
  | drains_take i e task e' ran e'' : take_task i e = Some (task, e') → drains e' ran e'' →
      drains e (task :: ran) e''.

Lemma take_task_some e : pendingTasks e ≠ 0%nat → ∃ i task e', take_task i e = Some (task, e').
Proof.
  intros Hp. cut (∃ i s, shards_ e !! i = Some s ∧ sh_tasks s ≠ []).
  { intros (i & [[|t rest] b] & Hi & Hs); [done|].
    exists i, t, (set_shard i (mkShard rest b) e). by rw /take_task Hi. }
  rw /pendingTasks in Hp. induction (shards_ e) as [|s l IH]; [done|].
  destruct (sh_tasks s) as [|t rest] eqn:Hs.
  - destruct IH as (i & s' & ? & ?); [by rw /= Hs in Hp|]. by exists (S i), s'.
  - exists 0%nat, s. by rw Hs.
Qed.

Lemma drains_exist n e : pendingTasks e = n → ∃ ran e', drains e ran e'.
Proof.
  revert e. induction n as [|n IH]; intros e Hn.
  - exists [], e. apply drains_done. by apply take_task_progress.
  - destruct (take_task_some e) as (i & t & e' & Ht); [lia|].
    destruct (IH e') as (ran & e'' & Hd); [pose proof (take_task_pending _ _ _ _ Ht); lia|].
    exists (t :: ran), e''. by eapply drains_take.
Qed.

Lemma take_task_stopping i e task e' :
  take_task i e = Some (task, e') → Forall (λ s, sh_stopping s = true) (shards_ e) →
  Forall (λ s, sh_stopping s = true) (shards_ e').
Proof.
  intros (rest & b & Hs & ->)%take_task_Some Hall. rw /set_shard /=.
  apply Forall_insert; [done|]. by apply (Forall_lookup_1 _ _ _ _ Hall Hs).
Qed.

Lemma drains_all e ran e' :
  drains e ran e' → Forall (λ s, sh_stopping s = true) (shards_ e) →
  length ran = pendingTasks e ∧ joined e' = true.
Proof.
  induction 1 as [e Hdone|i e task e' ran e'' Ht Hd IH]; intros Hall.
  - split; [symmetry; by apply take_task_progress|]. apply forallb_forall.
    intros s (i & Hi)%list_elem_of_In%list_elem_of_lookup. specialize (Hdone i).
    rw Forall_forall in Hall. rw /worker_done (Hall s); [by apply list_elem_of_lookup; exists i|].
    rw /take_task Hi in Hdone. by destruct s as [[|t r] b].
  - destruct (IH (take_task_stopping _ _ _ _ Ht Hall)) as [Hlen Hj]. split; [|done].
    by rw (take_task_pending _ _ _ _ Ht) /= Hlen.
Qed.

(** [stop] terminates and loses nothing: once the shards are marked the
    workers can always go on until the queues are empty; in whatever order they
    are scheduled they run as many tasks as were pending, nothing is accepted
    meanwhile, and in the end every worker has returned, so the joins succeed. *)
Lemma stop_drains (e : RoomExecutor) :
  (∀ id task, post id task (stop_all e) = (false, stop_all e)) ∧
  (∃ ran e', drains (stop_all e) ran e') ∧
  ∀ ran e', drains (stop_all e) ran e' → length ran = pendingTasks e ∧ joined e' = true.
Proof.
  assert (pendingTasks (stop_all e) = pendingTasks e) as Hp.
  { rw /pendingTasks /stop_all /=. by induction (shards_ e) as [|s l IH]; simpl; [|rw IH]. }
  assert (Forall (λ s, sh_stopping s = true) (shards_ (stop_all e))) as Hstop.
  { rw /stop_all /= Forall_fmap. by apply Forall_true. }
  split_and!.
  - intros id task. rw /post. destruct task as [t|]; [|done].
    destruct (shards_ (stop_all e) !! _) as [s|] eqn:Hi; [|done].
    by rw (Forall_lookup_1 _ _ _ _ Hstop Hi).
  - by apply (drains_exist (pendingTasks (stop_all e))).
  - intros ran e' Hd. rw -Hp. by apply drains_all.
Qed.
End executor.

Arguments Shard : clear implicits.
Arguments RoomExecutor : clear implicits.
Arguments exec_event : clear implicits.

(** ** A concrete run *)

Module ExecutorDemo.
Definition e0 : RoomExecutor nat := mkExecutor 2 [mkShard [] false; mkShard [] false].
Definition e1 := (post 7 (Some 70%nat) e0).2.
Definition e2 := (post 9 (Some 90%nat) e1).2.
Definition e3 : RoomExecutor nat := mkExecutor 2 [mkShard [] false; mkShard [90%nat] false].

Lemma executor_fifo_witness :
  ran_in 1 [Posted 7 70%nat; Posted 9 90%nat; Ran 1 70%nat] ++ [90%nat] = [70%nat; 90%nat].
Proof.
  assert (exec_steps e0 [Posted 7 70%nat; Posted 9 90%nat; Ran 1 70%nat] e3) as Hsteps.
  { apply (exec_snoc _ [Posted 7 70%nat; Posted 9 90%nat] e2); [|by apply exec_run].
    apply (exec_snoc _ [Posted 7 70%nat] e1); [|by apply exec_post].
    apply (exec_snoc _ [] e0); [by apply exec_nil|by apply exec_post]. }
  destruct (executor_fifo 2 2 e0 e3 _ 1 (mkShard [90%nat] false) eq_refl Hsteps eq_refl) as [H _].
  exact H.
Defined.
End ExecutorDemo.
