(* ===== verification/RoomManager.v ===== *)
(** * Rooms

    Model of [include/poker/application/room_manager.hpp] and
    [src/poker/application/room_manager.cpp]. Rooms are shared objects: the map
    from table ids and every queued task hold references to them, so a closed
    room lives on in the tasks that captured it. The heap of rooms is explicit,
    tasks are data (the captures of the source's lambdas), and callbacks are
    named by a number; the replies given so far are logged.

    Atomic actions: looking a room up (under the map's mutex), posting a task
    (under the shard's mutex), closing and creating a table, and the run of one
    task by its worker. A task's test of [closed] and its work on the table are
    one action: closing in between only sets a flag nobody else reads. *)
From S2P Require Import Prelude Card Deck HandEvaluator Table RoomExecutor.

(** ** Tasks *)

(** The operations, with the values their lambdas capture. The deck of
    [startHand] is the one the system's random source will yield. *)
Inductive RoomOp :=
  | OpSeatPlayer (player_id : PlayerId) (seat : nat) (buy_in : Chips)
  | OpRemovePlayer (player_id : PlayerId)
  | OpSetReady (player_id : PlayerId) (ready : bool)
  | OpStartHand
  | OpStartHandWithDeck (cards : list Card)
  | OpAbortHand
  | OpAct (expected_hand_id : Z) (command : ActionCommand)
  | OpSetConnected (player_id : PlayerId) (connected : bool)
  | OpSnapshot (viewer : option PlayerId)
  | OpAuditSnapshot
  | OpActionTimeout (player_id : PlayerId) (expected_server_sequence : Z).

(** What a callback receives. *)
Inductive Reply :=
  | ErrorReply (error : TableError)
  | SnapshotReply (error : TableError) (view : TableSnapshot)
  | ActionReply (result : ActionResult) (view audit : TableSnapshot).

Record RoomTask := mkTask {
  tk_room : nat;
  tk_op : RoomOp;
  tk_callback : option nat;
}.

Record Room := mkRoom { room_id : Z; room_closed : bool; room_table : Table }.

Record RoomManager := mkManager {
  rooms_ : gmap Z nat;
  heap : gmap nat Room;
  next_room : nat;
  executor_ : RoomExecutor RoomTask;
  replies : list (nat * Reply);
}.

Definition with_executor e m :=
  mkManager (rooms_ m) (heap m) (next_room m) e (replies m).
Definition set_room r room m :=
  mkManager (rooms_ m) (<[r := room]> (heap m)) (next_room m) (executor_ m) (replies m).

(** [if (callback) callback(...)] *)
Definition answer (callback : option nat) (reply : Reply) (m : RoomManager) : RoomManager :=
  match callback with
  | None => m
  | Some c => mkManager (rooms_ m) (heap m) (next_room m) (executor_ m) (replies m ++ [(c, reply)])
  end.

(** A reply without a table behind it, in the shape the operation's callback
    takes. *)
Definition refusal (op : RoomOp) (error : TableError) (message : string) : Reply :=
  match op with
  | OpSeatPlayer _ _ _ | OpRemovePlayer _ | OpSetReady _ _ | OpStartHand
  | OpStartHandWithDeck _ | OpAbortHand => ErrorReply error
  | OpSetConnected _ _ | OpSnapshot _ | OpAuditSnapshot => SnapshotReply error TableSnapshot_default
  | OpAct _ _ | OpActionTimeout _ _ =>
      ActionReply (mkResult error message 0 [] Street_waiting)
        TableSnapshot_default TableSnapshot_default
  end.

(** ** The work of a task *)

(** [if (callback) callback(operation)]: the operation is an argument of the
    call, so it does not run without a callback. *)
Definition error_task (has_callback : bool) (operation : M Table TableError)
    : M Table (option Reply) :=
  if has_callback then e ← operation; mret (Some (ErrorReply e)) else mret None.

Definition pure_op (f : Table → TableError * Table) : M Table TableError := λ t,
  let '(e, t') := f t in (Ok e, t').

Definition act_task (has_callback : bool) (expected_hand_id : Z) (command : ActionCommand)
    : M Table (option Reply) :=
  t ← mget;
  let before := snapshot t (Some (cmd_player_id command)) in
  result ← (if negb (expected_hand_id =? 0) && negb (snap_hand_id before =? expected_hand_id)
            then mret (mkResult Error_action_not_allowed "action belongs to a stale hand"
                         (snap_server_sequence before) [] Street_waiting)
            else act command);
  t ← mget;
  let view := snapshot t (Some (cmd_player_id command)) in
  let audit := auditSnapshot t in
  mret (if has_callback then Some (ActionReply result view audit) else None).

(** Whether a timeout is stale. *)
Definition timeout_stale (before : TableSnapshot) (player_id expected : Z) : bool :=
  negb (expected =? 0) && negb (snap_server_sequence before =? expected)
  || negb (bool_decide (snap_acting_player before = Some player_id)).

Definition can_check (before : TableSnapshot) (player_id : Z) : bool :=
  match List.find (λ v, view_id v =? player_id) (snap_players before) with
  | None => false
  | Some v => view_street_commitment v =? snap_current_bet before
  end.

Definition timeout_task (has_callback : bool) (player_id expected : Z) : M Table (option Reply) :=
  t ← mget;
  let before := snapshot t (Some player_id) in
  result ← (if timeout_stale before player_id expected
            then mret (mkResult Error_not_players_turn
                         "timeout is stale or no longer belongs to this player"
                         (snap_server_sequence before) [] Street_waiting)
            else act (mkCommand player_id
                        (if can_check before player_id then Action_check else Action_fold) 0));
  t ← mget;
  let after := snapshot t (Some player_id) in
  let audit := auditSnapshot t in
  mret (if has_callback then Some (ActionReply result after audit) else None).

Definition connect_task (has_callback : bool) (player_id : Z) (connected : bool)
    : M Table (option Reply) :=
  error ← pure_op (setConnected player_id connected);
  t ← mget;
  let view := snapshot t (Some player_id) in
  mret (if has_callback then Some (SnapshotReply error view) else None).

Definition view_task (has_callback : bool) (view : Table → TableSnapshot) : M Table (option Reply) :=
  t ← mget;
  mret (if has_callback then Some (SnapshotReply Error_ok (view t)) else None).

Definition run_op (deck : Deck) (op : RoomOp) (has_callback : bool) : M Table (option Reply) :=
  match op with
  | OpSeatPlayer id seat buy_in => error_task has_callback (seatPlayer id seat buy_in)
  | OpRemovePlayer id => error_task has_callback (pure_op (removePlayer id))
  | OpSetReady id ready => error_task has_callback (pure_op (setReady id ready))
  | OpStartHand => error_task has_callback (startHand deck)
  | OpStartHandWithDeck cards => error_task has_callback (startHandWithDeck cards)
  | OpAbortHand => error_task has_callback (pure_op abortHand)
  | OpAct expected command => act_task has_callback expected command
  | OpSetConnected id connected => connect_task has_callback id connected
  | OpSnapshot viewer => view_task has_callback (λ t, snapshot t viewer)
  | OpAuditSnapshot => view_task has_callback auditSnapshot
  | OpActionTimeout id expected => timeout_task has_callback id expected
  end.

(** The body of a task's lambda. An exception is dropped by the executor, which
    has no handler here; after undefined behaviour there is no next state. *)
Definition run_task (deck : Deck) (task : RoomTask) (m : RoomManager) : option RoomManager :=
  match heap m !! tk_room task with
  | None => Some m
  | Some room =>
      if room_closed room
      then Some (answer (tk_callback task)
             (refusal (tk_op task) Error_service_unavailable "table is closed") m)
      else
        let '(out, t) := run_op deck (tk_op task) (bool_decide (is_Some (tk_callback task)))
                           (room_table room) in
        let m := set_room (tk_room task) (mkRoom (room_id room) (room_closed room) t) m in
        match out with
        | Ok (Some reply) => Some (answer (tk_callback task) reply m)
        | Ok None | Throw _ => Some m
        | Undef => None
        end
  end.

(** One task of a worker. *)
Definition run_one (i : nat) (deck : Deck) (m : RoomManager) : option RoomManager :=
  match take_task i (executor_ m) with
  | None => None
  | Some (task, e) => run_task deck task (with_executor e m)
  end.

(** ** The interface *)

Definition RoomManager_new (shards max_pending : nat) : result RoomManager :=
  e ← RoomExecutor_new shards max_pending;
  mret (mkManager ∅ ∅ 0 e []).

Definition room_createTable (table_id : Z) (config : TableConfig) (m : RoomManager)
    : TableError * RoomManager :=
  if table_id =? 0 then (Error_invalid_configuration, m)
  else if bool_decide (is_Some (rooms_ m !! table_id)) then (Error_seat_occupied, m)
  else
    (Error_ok,
     mkManager (<[table_id := next_room m]> (rooms_ m))
       (<[next_room m := mkRoom table_id false (Table_new config)]> (heap m))
       (S (next_room m)) (executor_ m) (replies m)).

Definition closeTable (table_id : Z) (m : RoomManager) : bool * RoomManager :=
  match rooms_ m !! table_id with
  | None => (false, m)
  | Some r =>
      (true,
       mkManager (delete table_id (rooms_ m))
         (alter (λ room, mkRoom (room_id room) true (room_table room)) r (heap m))
         (next_room m) (executor_ m) (replies m))
  end.

Definition hasTable (table_id : Z) (m : RoomManager) : bool := bool_decide (is_Some (rooms_ m !! table_id)).
Definition tableCount (m : RoomManager) : nat := base.size (rooms_ m).
Definition tableIds (m : RoomManager) : list Z := merge_sort Z.le (map_to_list (rooms_ m)).*1.

Definition findRoom (table_id : Z) (m : RoomManager) : option nat := rooms_ m !! table_id.

Definition rejectMissingRoom (op : RoomOp) (callback : option nat) (m : RoomManager)
    : bool * RoomManager :=
  (false, answer callback (refusal op Error_player_not_found "table does not exist") m).

(** The second half of every operation: posting the task. *)
Definition post_task (table_id : Z) (task : RoomTask) (m : RoomManager) : bool * RoomManager :=
  let '(posted, e) := post table_id (Some task) (executor_ m) in
  if posted then (true, with_executor e m)
  else (false, answer (tk_callback task)
                 (refusal (tk_op task) Error_service_unavailable "room executor is overloaded") m).

(** [seatPlayer], [removePlayer], ..., [onActionTimeout]: all operations have
    this shape. *)
Definition call (table_id : Z) (op : RoomOp) (callback : option nat) (m : RoomManager)
    : bool * RoomManager :=
  match findRoom table_id m with
  | None => rejectMissingRoom op callback m
  | Some r => post_task table_id (mkTask r op callback) m
  end.

Definition room_stop (m : RoomManager) : RoomManager := with_executor (stop_all (executor_ m)) m.
