(* ===== verification/RoomTheorems.v ===== *)
(** * What rooms guarantee

    Over any interleaving of callers, workers, closings and [stop]: every table
    behind a room is reachable by table operations (so all table theorems hold
    of it), tasks of a room run in one shard, and every callback is answered at
    most once, exactly once when the queues are empty. Timeouts always move the
    game on. An operation posted without a callback does not run. *)
From S2P Require Import Prelude Card Deck HandEvaluator Table TableLib TableInv TableBetting TablePots TableAdvance TableAct TableDeal TableStart TableChips TableLife TableTheorems RoomExecutor RoomManager.

(** ** One task on a table *)

(** What the theorems on tables need of callers, and the manager does not check: an
    explicit deck has real cards, and a settled hand is not aborted after a player
    it paid sat down again (without a callback the abort does not run at all). [P]
    holds of the configurations of tables. *)
Definition op_allowed (P : TableConfig → Prop) (op : RoomOp) (has_callback : bool) (t : Table) : Prop :=
  match op with
  | OpStartHandWithDeck cards => Forall valid_card cards
  | OpAbortHand => has_callback = true → abort_safe P t
  | _ => True
  end.

Section one_task.
  Context (P : TableConfig → Prop).

(** A call that returns, or is undefined because the blinds do not fit. *)
Definition returns (f : M Table TableError) (t : Table) : Prop :=
  (validateConfig t = Undef ∧ f t = (Undef, t)) ∨
  ∃ e t', f t = (Ok e, t') ∧ (t' = t ∨ table_step P t t').

Lemma startHand_returns deck t : inv t → good_deck deck → next_ deck = 0%nat → returns (startHand deck) t.
Proof.
  intros Hinv Hg Hn. pose proof (step_start P deck t Hg Hn) as Hstep.
  destruct (startHand_outcome deck t Hinv Hg Hn) as [?|(e & t' & Hs & _)]; [by left|right].
  exists e, t'. split; [done|right]. by rw Hs in Hstep.
Qed.

Lemma seatPlayer_returns id seat buy_in t : inv t → returns (seatPlayer id seat buy_in) t.
Proof.
  intros Hinv. pose proof (step_seat P id seat buy_in t) as Hstep.
  destruct (seatPlayer_spec id seat buy_in t (inv_table_ok t Hinv)) as [?|(e & Hs & _)]; [by left|right].
  eexists e, _. split; [exact Hs|right]. by rw Hs in Hstep.
Qed.

Lemma startHandWithDeck_returns cards t :
  inv t → Forall valid_card cards → returns (startHandWithDeck cards) t.
Proof.
  intros Hinv Hcards. rw /returns /startHandWithDeck. destruct (Deck_of_cards cards) as [d|ex|] eqn:Hd.
  - assert (d = mkDeck cards 0 ∧ good_deck d) as [-> Hgd].
    { rw /Deck_of_cards in Hd. destruct (Nat.eqb_spec (length cards) 52) as [Hl|]; [|done].
      cbn [negb] in Hd. destruct (all_distinct cards) eqn:Ha; [|done]. injection Hd as <-.
      split; [done|]. split_and!; [done|done|]. by apply all_distinct_spec. }
    destruct (startHand_returns _ t Hinv Hgd eq_refl) as [[? ->]|(e & t' & -> & ?)]; [by left|right]. by exists e, t'.
  - right. rw /Deck_of_cards in Hd. destruct (negb _); [by simplify_eq; eexists _, _; split; [|left]|].
    destruct (all_distinct cards); simplify_eq. by eexists _, _; split; [|left].
  - exfalso. rw /Deck_of_cards in Hd. destruct (negb _); [done|]. by destruct (all_distinct cards).
Qed.

Lemma pure_returns (f : Table → TableError * Table) t : table_step P t (snd (f t)) → returns (pure_op f) t.
Proof. intros Hs. right. rw /pure_op. destruct (f t) as [e t']. exists e, t'. split; [done|by right]. Qed.

(** The outcome of a task: undefined only because of the blinds; otherwise it did
    at most one table operation and replies exactly if somebody asked. *)
Definition task_outcome (b : bool) (m : M Table (option Reply)) (t : Table) : Prop :=
  (validateConfig t = Undef ∧ m t = (Undef, t)) ∨
  ∃ o t', m t = (Ok o, t') ∧ (t' = t ∨ table_step P t t') ∧ (is_Some o ↔ b = true).

(** The table operation of an [error_task], when it runs. *)
Lemma error_task_ok b (f : M Table TableError) t :
  (b = true → returns f t) → task_outcome b (error_task b f) t.
Proof.
  intros Hf. rw /task_outcome /error_task. destruct b.
  - destruct (Hf eq_refl) as [[? Hu]|(e & t' & Hs & Ht)]; rw /mbind /M_bind ?Hu ?Hs; [by left|right].
    eexists _, _. by split_and!.
  - right. eexists None, t. split; [done|]. split; [by left|]. split; [by intros []|by intros ?].
Qed.

Lemma reply_option_ok {A} (b : bool) (x : A) : is_Some (if b then Some x else None) ↔ b = true.
Proof. destruct b; by split. Qed.

Lemma act_returns cmd t : inv t → ∃ r t', act cmd t = (Ok r, t').
Proof. intros Hinv. destruct (act_inv cmd t Hinv) as (r & t' & ? & _). by exists r, t'. Qed.

Lemma run_op_ok deck op b t :
  inv t → op_allowed P op b t → good_deck deck → next_ deck = 0%nat → task_outcome b (run_op deck op b) t.
Proof.
  intros Hinv Hop Hg Hn. destruct op; cbn [run_op].
  - apply error_task_ok. intros _. by apply seatPlayer_returns.
  - apply error_task_ok. intros _. apply pure_returns, step_remove.
  - apply error_task_ok. intros _. apply pure_returns, step_ready.
  - apply error_task_ok. intros _. by apply startHand_returns.
  - apply error_task_ok. intros _. by apply startHandWithDeck_returns.
  - apply error_task_ok. intros Hb. by apply pure_returns, step_abort, Hop.
  - right. rw /act_task /mbind /M_bind /mget /=. destruct (negb _ && negb _).
    + cbn. eexists _, _. split; [done|]. split; [by left|apply reply_option_ok].
    + destruct (act_returns command t Hinv) as (r & t' & Hact). rw Hact /=.
      eexists _, _. split; [done|]. split; [right|apply reply_option_ok].
      pose proof (step_act P command t) as Hs. by rw Hact in Hs.
  - right. rw /connect_task /pure_op /mbind /M_bind. pose proof (step_connected P player_id connected t) as Hs.
    destruct (setConnected _ _ _) as [e t']. cbn. eexists _, _. split; [done|].
    split; [by right|apply reply_option_ok].
  - right. rw /view_task /mbind /M_bind /mget /=. eexists _, _. split; [done|]. split; [by left|apply reply_option_ok].
  - right. rw /view_task /mbind /M_bind /mget /=. eexists _, _. split; [done|]. split; [by left|apply reply_option_ok].
  - right. rw /timeout_task /mbind /M_bind /mget /=. destruct (timeout_stale _ _ _).
    + cbn. eexists _, _. split; [done|]. split; [by left|apply reply_option_ok].
    + set (command := mkCommand _ _ _). destruct (act_returns command t Hinv) as (r & t' & Hact). rw Hact /=.
      eexists _, _. split; [done|]. split; [right|apply reply_option_ok].
      pose proof (step_act P command t) as Hs. by rw Hact in Hs.
Qed.
End one_task.

(** Whatever the table, a task that returns replies exactly if somebody asked. *)
Lemma run_op_replies deck op b t o t' : run_op deck op b t = (Ok o, t') → (is_Some o ↔ b = true).
Proof.
  destruct op; cbn [run_op]; rw /error_task /act_task /connect_task /view_task /timeout_task /mbind /M_bind /mget /mret /M_ret;
    intros Hrun; repeat (case_match; simplify_eq/=); by (split; [intros [? ?]|]) || apply reply_option_ok.
Qed.

(** ** The system *)

(** The manager, the callers between their two atomic steps, and the callbacks
    handed in so far. Steps are taken under [promised], what callers and the random
    source promise of a task that is about to run on a table; the manager promises
    nothing by itself. *)
Record System := mkSystem {
  sys_manager : RoomManager;
  sys_finding : list (Z * RoomTask);
  sys_submitted : list nat;
}.

Definition tags (cb : option nat) : list nat := match cb with Some c => [c] | None => [] end.

Section system.
  Context (promised : Deck → RoomOp → bool → Table → Prop).

Inductive sys_step : System → System → Prop :=
  | sys_create id config m fs sub :
      sys_step (mkSystem m fs sub) (mkSystem (room_createTable id config m).2 fs sub)
  | sys_close id m fs sub : sys_step (mkSystem m fs sub) (mkSystem (closeTable id m).2 fs sub)
  | sys_missing id op cb m fs sub : findRoom id m = None →
      sys_step (mkSystem m fs sub) (mkSystem (rejectMissingRoom op cb m).2 fs (sub ++ tags cb))
  | sys_find id op cb r m fs sub : findRoom id m = Some r →
      sys_step (mkSystem m fs sub) (mkSystem m (fs ++ [(id, mkTask r op cb)]) (sub ++ tags cb))
  | sys_post id task m fs fs' sub :
      sys_step (mkSystem m (fs ++ (id, task) :: fs') sub)
        (mkSystem (post_task id task m).2 (fs ++ fs') sub)
  | sys_run i deck m m' fs sub :
      run_one i deck m = Some m' →
      (∀ task e room, take_task i (executor_ m) = Some (task, e) → heap m !! tk_room task = Some room →
         promised deck (tk_op task) (bool_decide (is_Some (tk_callback task))) (room_table room)) →
      sys_step (mkSystem m fs sub) (mkSystem m' fs sub)
  | sys_stop i m fs sub :
      sys_step (mkSystem m fs sub) (mkSystem (with_executor (stop_shard i (executor_ m)) m) fs sub).

Inductive sys_reachable (m0 : RoomManager) : System → Prop :=
  | sys_start : sys_reachable m0 (mkSystem m0 [] [])
  | sys_next s s' : sys_reachable m0 s → sys_step s s' → sys_reachable m0 s'.
End system.

(** The tasks queued in all shards. *)
Definition queued (e : RoomExecutor RoomTask) : list RoomTask := shards_ e ≫= sh_tasks.

Definition task_tags (ts : list RoomTask) : list nat := ts ≫= (λ t, tags (tk_callback t)).

(** A task refers to a room of its table. *)
Definition refers (h : gmap nat Room) (id : Z) (task : RoomTask) : Prop :=
  ∃ room, h !! tk_room task = Some room ∧ room_id room = id.

(** [Q] holds of the table behind every room. *)
Record rooms_inv (n : nat) (Q : Table → Prop) (s : System) : Prop := {
  ri_shards : (0 < n)%nat ∧ length (shards_ (executor_ (sys_manager s))) = n;
  ri_rooms : ∀ id r, rooms_ (sys_manager s) !! id = Some r →
    ∃ room, heap (sys_manager s) !! r = Some room ∧ room_id room = id ∧ room_closed room = false;
  ri_heap : ∀ r room, heap (sys_manager s) !! r = Some room →
    (r < next_room (sys_manager s))%nat ∧ Q (room_table room);
  ri_finding : ∀ id task, (id, task) ∈ sys_finding s → refers (heap (sys_manager s)) id task;
  ri_queued : ∀ i sh task, shards_ (executor_ (sys_manager s)) !! i = Some sh → task ∈ sh_tasks sh →
    ∃ id, refers (heap (sys_manager s)) id task ∧ i = Z.to_nat (id `mod` Z.of_nat n);
  ri_tags : sys_submitted s ≡ₚ task_tags (sys_finding s).*2 ++
    task_tags (queued (executor_ (sys_manager s))) ++ (replies (sys_manager s)).*1;
}.

Lemma task_tags_app l1 l2 : task_tags (l1 ++ l2) = task_tags l1 ++ task_tags l2.
Proof. apply bind_app. Qed.

Lemma task_tags_cons t l : task_tags (t :: l) = tags (tk_callback t) ++ task_tags l.
Proof. done. Qed.

Lemma task_tags_one t : task_tags [t] = tags (tk_callback t).
Proof. by rw task_tags_cons app_nil_r. Qed.

Lemma answer_fields cb reply m :
  rooms_ (answer cb reply m) = rooms_ m ∧ heap (answer cb reply m) = heap m ∧
  next_room (answer cb reply m) = next_room m ∧ executor_ (answer cb reply m) = executor_ m ∧
  (replies (answer cb reply m)).*1 = (replies m).*1 ++ tags cb.
Proof. destruct cb; cbn; split_and!; try done; by rw ?fmap_app ?app_nil_r. Qed.

(** The heap only grows, and rooms keep their id. *)
Definition heap_le (h h' : gmap nat Room) : Prop :=
  ∀ r room, h !! r = Some room → ∃ room', h' !! r = Some room' ∧ room_id room' = room_id room.

Lemma refers_mono h h' id task : heap_le h h' → refers h id task → refers h' id task.
Proof. intros Hle (room & Hr & <-). by destruct (Hle _ _ Hr) as (room' & ? & ?); exists room'. Qed.

Lemma queued_set_shard i (sh sh' : Shard RoomTask) e :
  shards_ e !! i = Some sh →
  ∃ l1 l2, queued e = l1 ++ sh_tasks sh ++ l2 ∧ queued (set_shard i sh' e) = l1 ++ sh_tasks sh' ++ l2.
Proof.
  intros Hi. rw /queued /set_shard /=.
  exists (take i (shards_ e) ≫= sh_tasks), (drop (S i) (shards_ e) ≫= sh_tasks).
  rw (insert_take_drop _ i sh'); [by apply lookup_lt_Some in Hi|].
  rw -{1}(take_drop_middle _ _ _ Hi) !bind_app. done.
Qed.

(** A task throws nothing, and [Q] holds after it if it returns. *)
Definition run_keeps (Q : Table → Prop) (m : M Table (option Reply)) (t : Table) : Prop :=
  match m t with (Ok _, t') => Q t' | (Throw _, _) => False | (Undef, _) => True end.

(** ** The invariant is preserved *)

Section preservation.
  Context (n : nat) (Q : Table → Prop).
  Implicit Types (m : RoomManager).

(** The manager changes in its replies only. *)
Lemma rooms_inv_answer m fs sub cb reply fs' sub' :
  rooms_inv n Q (mkSystem m fs sub) →
  (∀ x, x ∈ fs' → x ∈ fs) →
  sub' ≡ₚ task_tags fs'.*2 ++ task_tags (queued (executor_ m)) ++ (replies m).*1 ++ tags cb →
  rooms_inv n Q (mkSystem (answer cb reply m) fs' sub').
Proof.
  intros [H1 H2 H3 H4 H5 _] Hfs Hsub.
  destruct (answer_fields cb reply m) as (E1 & E2 & E3 & E4 & E5).
  split; cbn [sys_manager sys_finding sys_submitted] in *; rw ?E1 ?E2 ?E3 ?E4 ?E5 //.
  intros id task Hin. by apply H4, Hfs.
Qed.

Lemma rooms_inv_create id config m fs sub :
  Q (Table_new config) → rooms_inv n Q (mkSystem m fs sub) → rooms_inv n Q (mkSystem (room_createTable id config m).2 fs sub).
Proof.
  intros Hconfig H. rw /room_createTable. destruct (id =? 0); [done|]. destruct (bool_decide _); [done|].
  destruct H as [H1 H2 H3 H4 H5 H6]. cbn [sys_manager sys_finding sys_submitted] in *.
  assert (heap_le (heap m) (<[next_room m := mkRoom id false (Table_new config)]> (heap m))) as Hle.
  { intros r room Hr. exists room. split; [|done]. rw lookup_insert_ne //.
    intros <-. destruct (H3 _ _ Hr). lia. }
  split; cbn; try done.
  - intros id' r. rw lookup_insert_Some. intros [[<- <-]|[_ Hr]].
    + eexists. by rw lookup_insert_eq.
    + destruct (H2 _ _ Hr) as (room & Hroom & Hid & Hcl). exists room. split; [|done].
      rw lookup_insert_ne //. intros <-. destruct (H3 _ _ Hroom). lia.
  - intros r room. rw lookup_insert_Some. intros [[<- <-]|[_ Hr]].
    + by split; [lia|].
    + destruct (H3 _ _ Hr) as [? ?]. split; [lia|done].
  - intros id' task Hin. by eapply refers_mono, H4.
  - intros i sh task Hi Ht. destruct (H5 i sh task Hi Ht) as (id' & Href & ?).
    exists id'. split; [by eapply refers_mono|done].
Qed.

(** A room is updated in place: its id stays, its table is still reachable. *)
Lemma rooms_inv_update m fs sub r room room' rooms :
  rooms_inv n Q (mkSystem m fs sub) → heap m !! r = Some room → room_id room' = room_id room →
  Q (room_table room') →
  (∀ id k, rooms !! id = Some k → rooms_ m !! id = Some k ∧ (k = r → room_closed room' = false)) →
  rooms_inv n Q (mkSystem (mkManager rooms (<[r := room']> (heap m)) (next_room m) (executor_ m)
                           (replies m)) fs sub).
Proof.
  intros [H1 H2 H3 H4 H5 H6] Hr Hid Hreach Hrooms. cbn [sys_manager sys_finding sys_submitted] in *.
  assert (heap_le (heap m) (<[r := room']> (heap m))) as Hle.
  { intros k x Hk. rw lookup_insert. case_decide as Hkr; [subst|by exists x].
    exists room'. split; [done|]. congruence. }
  split; cbn; try done.
  - intros id k Hk. destruct (Hrooms _ _ Hk) as [Hk' Hcl]. destruct (H2 _ _ Hk') as (x & Hx & Hxid & Hxcl).
    rw lookup_insert. case_decide as Hkr; [subst k|by exists x].
    exists room'. split_and!; [done|congruence|by apply Hcl].
  - intros k x. rw lookup_insert_Some. intros [[<- <-]|[_ Hk]]; [|by apply H3].
    by destruct (H3 _ _ Hr).
  - intros id task Hin. by eapply refers_mono, H4.
  - intros i sh task Hi Ht. destruct (H5 i sh task Hi Ht) as (id & Href & ?).
    exists id. split; [by eapply refers_mono|done].
Qed.

Lemma rooms_inv_close id m fs sub :
  rooms_inv n Q (mkSystem m fs sub) → rooms_inv n Q (mkSystem (closeTable id m).2 fs sub).
Proof.
  intros H. rw /closeTable. destruct (rooms_ m !! id) as [r|] eqn:Hr; [|done]. cbn.
  destruct (ri_rooms _ _ _ H id r Hr) as (room & Hroom & Hid & _). cbn in Hroom.
  destruct (ri_heap _ _ _ H r room Hroom) as [_ Hreach].
  assert (alter (λ room, mkRoom (room_id room) true (room_table room)) r (heap m) =
          <[r := mkRoom (room_id room) true (room_table room)]> (heap m)) as ->.
  { apply map_eq. intros k. rw lookup_alter lookup_insert. case_decide; [subst; by rw Hroom|done]. }
  apply (rooms_inv_update m fs sub r room); try done.
  intros id' k. rw lookup_delete_Some. intros [Hne Hk]. split; [done|]. intros ->.
  destruct (ri_rooms _ _ _ H id' r Hk) as (room' & Hroom' & Hid' & _). cbn in Hroom'. congruence.
Qed.

Lemma rooms_inv_post id task m fs fs' sub :
  rooms_inv n Q (mkSystem m (fs ++ (id, task) :: fs') sub) →
  rooms_inv n Q (mkSystem (post_task id task m).2 (fs ++ fs') sub).
Proof.
  intros H. pose proof (ri_tags _ _ _ H) as Htags. cbn [sys_submitted sys_finding sys_manager] in Htags.
  assert (sub ≡ₚ task_tags (fs ++ fs').*2 ++ task_tags (queued (executor_ m)) ++ (replies m).*1 ++
          tags (tk_callback task)) as Hsub.
  { rw Htags !fmap_app fmap_cons !task_tags_app task_tags_cons. solve_Permutation. }
  assert (∀ x, x ∈ fs ++ fs' → x ∈ fs ++ (id, task) :: fs') as Hin.
  { intros x. rw !elem_of_app elem_of_cons. tauto. }
  rw /post_task. destruct (post id (Some task) (executor_ m)) as [[] e] eqn:Hp.
  2: { by apply (rooms_inv_answer m (fs ++ (id, task) :: fs') sub). }
  cbn. apply post_true in Hp as (t & sh & [= <-] & Hsh & _ & _ & ->).
  destruct (ri_finding _ _ _ H id task) as (room & Hroom & Hid).
  { cbn. apply elem_of_app. right. left. }
  destruct H as [[Hn Hlen] H2 H3 H4 H5 _]. cbn [sys_manager sys_finding sys_submitted] in *.
  split; cbn [sys_manager sys_finding sys_submitted with_executor executor_ heap rooms_ next_room replies];
    try done.
  - split; [done|by rw set_shard_length].
  - intros id' t' Ht'. by apply H4, Hin.
  - intros i sh' t'. rw shards_set; [by apply lookup_lt_Some in Hsh|]. case_decide as Hi; [|by apply H5].
    intros [= <-]. cbn. rw elem_of_app list_elem_of_singleton. subst i. intros [Ht' | ->].
    + by apply (H5 _ sh).
    + exists id. split; [by exists room|]. by rw /shardFor Hlen.
  - destruct (queued_set_shard (shardFor id (executor_ m)) sh (mkShard (sh_tasks sh ++ [task]) false)
      (executor_ m) Hsh) as (l1 & l2 & Hq & Hq').
    cbn [sh_tasks] in Hq'. rw Hq' Hsub Hq !task_tags_app task_tags_one. solve_Permutation.
Qed.
Lemma rooms_inv_find id op cb r m fs sub :
  rooms_inv n Q (mkSystem m fs sub) → findRoom id m = Some r →
  rooms_inv n Q (mkSystem m (fs ++ [(id, mkTask r op cb)]) (sub ++ tags cb)).
Proof.
  intros H Hr. destruct (ri_rooms _ _ _ H id r Hr) as (room & Hroom & Hid & _).
  destruct H as [H1 H2 H3 H4 H5 H6]. cbn [sys_manager sys_finding sys_submitted] in *.
  split; cbn [sys_manager sys_finding sys_submitted]; try done.
  - intros id' t. rw elem_of_app list_elem_of_singleton. intros [Ht|[= -> ->]]; [by apply H4|].
    by exists room.
  - rw H6 fmap_app task_tags_app task_tags_one. cbn [tk_callback snd]. solve_Permutation.
Qed.

Lemma rooms_inv_stop i m fs sub :
  rooms_inv n Q (mkSystem m fs sub) →
  rooms_inv n Q (mkSystem (with_executor (stop_shard i (executor_ m)) m) fs sub).
Proof.
  intros H. pose proof H as [[Hn Hlen] H2 H3 H4 H5 H6]. cbn [sys_manager sys_finding sys_submitted] in *.
  rw /stop_shard. destruct (shards_ (executor_ m) !! i) as [sh|] eqn:Hsh; [|by destruct m].
  split; cbn [sys_manager sys_finding sys_submitted with_executor executor_ heap rooms_ next_room replies];
    try done.
  - split; [done|by rw set_shard_length].
  - intros j sh' t. rw shards_set; [by apply lookup_lt_Some in Hsh|]. case_decide as Hi; [|by apply H5].
    subst j. intros [= <-]. exact (H5 _ _ t Hsh).
  - destruct (queued_set_shard i sh (mkShard (sh_tasks sh) true) (executor_ m) Hsh) as (l1 & l2 & Hq & Hq').
    by rw Hq' H6 Hq.
Qed.

(** A worker takes a task off its queue: the task is about to be answered. *)
Lemma rooms_inv_take i task e m fs sub :
  rooms_inv n Q (mkSystem m fs sub) → take_task i (executor_ m) = Some (task, e) →
  let m' := with_executor e m in
  ((0 < n)%nat ∧ length (shards_ e) = n) ∧
  (∃ id, refers (heap m) id task) ∧
  (∀ j sh t, shards_ e !! j = Some sh → t ∈ sh_tasks sh →
     ∃ id, refers (heap m) id t ∧ j = Z.to_nat (id `mod` Z.of_nat n)) ∧
  sub ≡ₚ task_tags fs.*2 ++ task_tags (queued e) ++ (replies m).*1 ++ tags (tk_callback task).
Proof.
  intros H Ht. destruct (take_task_Some _ _ _ _ Ht) as (rest & b & Hsh & ->).
  destruct H as [[Hn Hlen] H2 H3 H4 H5 H6]. cbn [sys_manager sys_finding sys_submitted] in *.
  split_and!; [done|by rw set_shard_length| | |].
  - destruct (H5 i _ task Hsh) as (id & ? & _); [by left|]. by exists id.
  - intros j sh t. rw shards_set; [by apply lookup_lt_Some in Hsh|]. case_decide as Hi; [|by apply H5].
    subst j. intros [= <-] Hin. apply (H5 i _ t Hsh). by right.
  - destruct (queued_set_shard i _ (mkShard rest b) (executor_ m) Hsh) as (l1 & l2 & Hq & Hq').
    cbn [sh_tasks] in Hq, Hq'. rw Hq' H6 Hq !task_tags_app task_tags_cons. solve_Permutation.
Qed.

Lemma rooms_inv_run i deck m m' fs sub :
  rooms_inv n Q (mkSystem m fs sub) → run_one i deck m = Some m' →
  (∀ task e room, take_task i (executor_ m) = Some (task, e) → heap m !! tk_room task = Some room →
     Q (room_table room) →
     run_keeps Q (run_op deck (tk_op task) (bool_decide (is_Some (tk_callback task)))) (room_table room)) →
  rooms_inv n Q (mkSystem m' fs sub).
Proof.
  intros H. rw /run_one. destruct (take_task i (executor_ m)) as [[task e]|] eqn:Ht; [|done].
  intros Hone Hallow. destruct (rooms_inv_take i task e m fs sub H Ht) as (Hsh & (id & room & Hroom & Hid) & Hq & Htags).
  destruct H as [_ H2 H3 H4 _ _]. cbn [sys_manager sys_finding sys_submitted] in *.
  revert Hone. rw /run_task. cbn [with_executor heap]. rw Hroom.
  assert (∀ t' reply, Q t' → rooms_inv n Q (mkSystem
    (answer (tk_callback task) reply
       (set_room (tk_room task) (mkRoom (room_id room) (room_closed room) t') (with_executor e m))) fs sub)) as Hdone.
  { intros t' reply Hreach.
    assert (rooms_inv n Q (mkSystem (with_executor e m) fs
      (task_tags fs.*2 ++ task_tags (queued e) ++ (replies m).*1))) as Hmid by by split.
    apply (rooms_inv_answer _ fs (task_tags fs.*2 ++ task_tags (queued e) ++ (replies m).*1)); [|done|done].
    apply (rooms_inv_update (with_executor e m) _ _ _ room); try done.
    intros id' k Hk. split; [done|]. intros ->. cbn in Hk.
    destruct (H2 _ _ Hk) as (room' & Hroom' & _ & Hcl). cbn; congruence. }
  destruct (H3 _ _ Hroom) as (_ & Hreach).
  destruct (room_closed room) eqn:Hcl.
  - intros [= <-]. specialize (Hdone (room_table room) (refusal (tk_op task) Error_service_unavailable "table is closed") Hreach).
    replace (set_room _ _ _) with (with_executor e m) in Hdone; [exact Hdone|].
    rw /set_room /with_executor /=. f_equal. rw insert_id //. rw Hroom. by destruct room; cbn in Hcl; subst.
  - pose proof (Hallow task e room eq_refl Hroom Hreach) as Hreach'. rw /run_keeps in Hreach'.
    destruct (run_op _ _ _ _) as [[o|ex|] t'] eqn:Hrun; [|done..].
    pose proof (run_op_replies _ _ _ _ _ _ Hrun) as Hsome.
    destruct o as [reply|]; intros [= <-]; [by apply Hdone|].
    assert (tk_callback task = None) as Hnone.
    { destruct (tk_callback task); [|done]. destruct Hsome as [_ Hsome].
      destruct Hsome as [? ?]; [by apply bool_decide_eq_true|done]. }
    specialize (Hdone t' (ErrorReply Error_ok) Hreach').
    by rw Hnone /answer in Hdone.
Qed.

Lemma rooms_inv_missing op cb m fs sub :
  rooms_inv n Q (mkSystem m fs sub) → rooms_inv n Q (mkSystem (rejectMissingRoom op cb m).2 fs (sub ++ tags cb)).
Proof.
  intros H. apply (rooms_inv_answer m fs sub); [done|done|].
  pose proof (ri_tags _ _ _ H) as Htags. cbn [sys_submitted sys_finding sys_manager] in Htags.
  rw Htags. solve_Permutation.
Qed.
End preservation.

(** The table behind a room stays one that table operations reach, if the operation is
    allowed. *)
Lemma run_op_configured P deck op b t :
  configured P t → good_deck deck → next_ deck = 0%nat → op_allowed P op b t →
  run_keeps (configured P) (run_op deck op b) t.
Proof.
  intros Ht Hg Hn Hop. rw /run_keeps.
  destruct (run_op_ok P deck op b t (configured_inv _ _ Ht) Hop Hg Hn) as [[_ ->]|(o & t' & -> & Hstep & _)]; [done|].
  destruct Hstep as [->|Hs]; [done|by eapply configured_step].
Qed.

Lemma configured_new (P : TableConfig → Prop) config : P config → configured P (Table_new config).
Proof. intros HP. exists config. split; [done|apply reachable_new]. Qed.

(** The tasks of rooms whose blinds fit return. *)
Lemma run_one_returns n i deck m fs sub task e :
  rooms_inv n (configured blinds_fit) (mkSystem m fs sub) → good_deck deck → next_ deck = 0%nat →
  take_task i (executor_ m) = Some (task, e) →
  (∀ room, heap m !! tk_room task = Some room →
     op_allowed blinds_fit (tk_op task) (bool_decide (is_Some (tk_callback task))) (room_table room)) →
  ∃ m', run_one i deck m = Some m'.
Proof.
  intros H Hg Hnx Ht Hallow. rw /run_one Ht /run_task. cbn [with_executor heap].
  destruct (heap m !! tk_room task) as [room|] eqn:Hroom; [|by eexists].
  destruct (room_closed room); [by eexists|]. destruct (ri_heap _ _ _ H _ _ Hroom) as [_ Hconf].
  destruct (run_op_ok blinds_fit deck (tk_op task) (bool_decide (is_Some (tk_callback task))) (room_table room))
    as [[Hu _]|(o & t' & -> & _)]; [by eapply configured_inv|by apply Hallow|done|done|..].
  - by destruct (configured_valid _ Hconf).
  - destruct o; by eexists.
Qed.

(** What the theorems on tables need of callers and of the random source: full decks of
    the 52 cards, and [op_allowed]. *)
Definition table_promise (deck : Deck) (op : RoomOp) (b : bool) (t : Table) : Prop :=
  good_deck deck ∧ next_ deck = 0%nat ∧ op_allowed (λ _, True) op b t.

#[local] Notation reached := (configured (λ _, True)).

Lemma rooms_inv_step (promised : Deck → RoomOp → bool → Table → Prop) n s s' :
  (∀ deck op b t, promised deck op b t → table_promise deck op b t) →
  rooms_inv n reached s → sys_step promised s s' → rooms_inv n reached s'.
Proof.
  intros Hkeep H Hstep. destruct Hstep as [| | | | |i deck m m' fs sub Hrun Hp|].
  - by apply rooms_inv_create, H; apply configured_new.
  - by apply rooms_inv_close.
  - by eapply rooms_inv_missing.
  - by apply rooms_inv_find.
  - by apply rooms_inv_post.
  - eapply rooms_inv_run; [done..|]. intros task e room Ht Hroom HQ.
    destruct (Hkeep _ _ _ _ (Hp _ _ _ Ht Hroom)) as (? & ? & ?). by apply run_op_configured.
  - by apply rooms_inv_stop.
Qed.

Lemma rooms_inv_new n Q max m0 : RoomManager_new n max = Ok m0 → rooms_inv n Q (mkSystem m0 [] []).
Proof.
  rw /RoomManager_new /RoomExecutor_new. destruct (_ || _) eqn:Hg; [done|]. guards.
  intros [= <-].
  assert (queued (mkExecutor max (replicate n (mkShard [] false))) = []) as Hq.
  { rw /queued /=. clear. by induction n. }
  split; cbn [sys_manager sys_finding sys_submitted rooms_ heap executor_ replies next_room shards_].
  - rw length_replicate. split; [lia|done].
  - intros *. by rw lookup_empty.
  - intros *. by rw lookup_empty.
  - by intros ?? ?%not_elem_of_nil.
  - intros i sh task [-> _]%lookup_replicate. by intros ?%not_elem_of_nil.
  - by rw Hq.
Qed.

Lemma sys_reachable_inv (promised : Deck → RoomOp → bool → Table → Prop) n max m0 s :
  (∀ deck op b t, promised deck op b t → table_promise deck op b t) →
  RoomManager_new n max = Ok m0 → sys_reachable promised m0 s → rooms_inv n reached s.
Proof. intros Hk Hnew. induction 1; [by eapply rooms_inv_new|by eapply rooms_inv_step]. Qed.

(** ** Properties *)

Section properties.
  Context (promised : Deck → RoomOp → bool → Table → Prop).
  Context (Hpromised : ∀ deck op b t, promised deck op b t → table_promise deck op b t).

(** C27: Whatever callers and workers do concurrently, as long as callers keep to what
    the manager does not check ([table_promise]: decks are full, explicit decks
    have real cards, and a settled hand is not aborted after a player it paid sat down
    again), the table behind every room, open or closed, is one that table
    operations can reach, so every theorem on reachable tables applies to it; and
    all tasks of a room wait in the shard of its table id, so no table is ever
    touched by two threads. *)
Theorem rooms_serial (n max : nat) (m0 : RoomManager) (s : System) :
  RoomManager_new n max = Ok m0 → sys_reachable promised m0 s →
  let m := sys_manager s in
  (∀ r room, heap m !! r = Some room → (∃ config, reachable config (room_table room)) ∧
     inv (room_table room)) ∧
  (∀ id r, rooms_ m !! id = Some r →
     ∃ room, heap m !! r = Some room ∧ room_id room = id ∧ room_closed room = false) ∧
  (∀ i sh task, shards_ (executor_ m) !! i = Some sh → task ∈ sh_tasks sh →
     ∃ room, heap m !! tk_room task = Some room ∧ i = shardFor (room_id room) (executor_ m)).
Proof.
  intros Hnew Hreach. destruct (sys_reachable_inv promised n max m0 s Hpromised Hnew Hreach) as [[Hn Hlen] H2 H3 H4 H5 H6].
  split_and!; [|done|].
  - intros r room Hr. destruct (H3 r room Hr) as (_ & config & _ & Hc).
    split; [by exists config|by eapply reachable_inv].
  - intros i sh task Hi Ht. destruct (H5 i sh task Hi Ht) as (id & (room & Hr & Hid) & ->).
    exists room. split; [done|]. by rw /shardFor Hlen Hid.
Qed.

(** C28: Every callback handed to the manager is in exactly one place: with a
    caller that has found its room and not yet posted, in a queue, or answered.
    So no callback is lost or answered twice, and once nothing is under way
    each has been answered exactly once. This is so while callers keep to
    [table_promise], under which no table operation throws. *)
Theorem replies_exactly_once (n max : nat) (m0 : RoomManager) (s : System) :
  RoomManager_new n max = Ok m0 → sys_reachable promised m0 s →
  sys_submitted s ≡ₚ task_tags (sys_finding s).*2 ++
    task_tags (queued (executor_ (sys_manager s))) ++ (replies (sys_manager s)).*1 ∧
  (NoDup (sys_submitted s) → NoDup (replies (sys_manager s)).*1) ∧
  (sys_finding s = [] → pendingTasks (executor_ (sys_manager s)) = 0%nat →
     (replies (sys_manager s)).*1 ≡ₚ sys_submitted s).
Proof.
  intros Hnew Hreach.
  destruct (sys_reachable_inv promised n max m0 s Hpromised Hnew Hreach) as [_ _ _ _ _ H6].
  split_and!; [done| |].
  - rw H6. intros (_ & _ & (_ & _ & ?)%NoDup_app)%NoDup_app. done.
  - intros Hf Hp. rw H6 Hf. assert (queued (executor_ (sys_manager s)) = []) as ->; [|done].
    revert Hp. rw /pendingTasks /queued. induction (shards_ _) as [|sh l IH]; [done|]. cbn.
    intros Hp. destruct (sh_tasks sh); [|done]. cbn in *. by apply IH.
Qed.

End properties.

(** ** Timeouts *)

Lemma act_accepts cmd t i p t1 :
  awaiting t → acting_seat_ t = Some i → seat_at t i = Some p → cmd_player_id cmd = pl_id p →
  act_switch i p cmd t = Applied t1 →
  ∃ r t', act cmd t = (Ok r, t') ∧ res_error r = Error_ok ∧ (awaiting t' ∨ paid t').
Proof.
  intros Haw Hi Hp Hid Hsw.
  destruct Haw as (Hok & Hcalled & H2 & (i' & p' & Hi' & Hp' & Hca & Hpend)).
  assert (i' = i) as -> by congruence. assert (p' = p) as -> by congruence.
  assert (negb (handIsRunning (street_ t)) || bool_decide (street_ t = Street_showdown) = false) as Hrun.
  { pose proof (hand_street t Hok) as Hs. by destruct Hs as [-> | [-> | [-> | ->]]]. }
  rw /act Hrun Hi. pose proof Hp as Hp''%seat_at_lookup. rw Hp''.
  rw Hid Z.eqb_refl Hca /is_pending (bool_decide_eq_true_2 _ Hpend) /= Hsw.
  pose proof (act_switch_applied t i p Hok Hcalled Hp Hca cmd t1 Hsw) as Happ.
  assert (p ∈ players t) as Hin by (apply elem_of_players; eauto).
  destruct (applied_ok t p _ t1 Hok Hin Hca Happ) as (Hok1 & Hcalled1 & Hst & Hcon).
  pose proof (act_finish_wp t1 (street_ t) (pl_seat p) Hok1 Hcalled1) as Hfin.
  apply wp_inv in Hfin as (r & t' & -> & Hm & Hend & Hrep & Hcov); [|by case_match; lia].
  exists r, t'. split_and!; [done|by apply Hrep|done].
Qed.

(** The snapshot a timeout reads tells whether the actor owes chips. *)
Lemma can_check_spec t i p :
  table_ok t → seat_at t i = Some p →
  can_check (snapshot t (Some (pl_id p))) (pl_id p) = (pl_street_commitment p =? current_bet_ t).
Proof.
  intros Hok Hp. rw /can_check /=.
  assert (p ∈ players t) as Hin by (apply elem_of_players; eauto).
  destruct (List.find _ _) as [v|] eqn:Hf.
  - apply find_some in Hf as [Hv Hid%Z.eqb_eq].
    apply list_elem_of_In, list_elem_of_fmap in Hv as (q & -> & Hq). cbn in Hid |- *.
    by rw (unique_ids_eq t q p) //; apply Hok.
  - exfalso. pose proof (find_none _ _ Hf (player_view t (Some (pl_id p)) p)) as Hno.
    cbn in Hno. rw Z.eqb_refl in Hno. discriminate Hno. apply list_elem_of_In, list_elem_of_fmap.
    by exists p.
Qed.

(** The player the table waits for. *)
Definition acting_player (t : Table) : option Z := i ← acting_seat_ t; pl_id <$> seat_at t i.

(** A timeout that is still current always moves the game on: it checks for
    the acting player when nothing is owed and folds otherwise, the table
    accepts the action, and the hand goes on or is settled. A stale one is
    reported and changes nothing. *)
Lemma timeout_acts config t deck id expected :
  reachable config t →
  ∃ r view audit t', run_op deck (OpActionTimeout id expected) true t =
      (Ok (Some (ActionReply r view audit)), t') ∧
    if bool_decide (acting_player t = Some id ∧ (expected = 0 ∨ expected = server_sequence_ t))
    then res_error r = Error_ok ∧ (awaiting t' ∨ paid t') ∧
      ∃ i p, acting_seat_ t = Some i ∧ seat_at t i = Some p ∧
        act (mkCommand id (if pl_street_commitment p =? current_bet_ t then Action_check
                           else Action_fold) 0) t = (Ok r, t')
    else res_error r = Error_not_players_turn ∧ t' = t.
Proof.
  intros Hreach%reachable_inv. cbn [run_op].
  assert (timeout_stale (snapshot t (Some id)) id expected = negb (bool_decide
    (acting_player t = Some id ∧ (expected = 0 ∨ expected = server_sequence_ t)))) as Hstale.
  { rw /timeout_stale. cbn [snapshot snap_server_sequence snap_acting_player].
    rw -/(acting_player t).
    destruct (Z.eqb_spec expected 0), (Z.eqb_spec (server_sequence_ t) expected);
      case_bool_decide; case_bool_decide; naive_solver. }
  rw /timeout_task /mbind /M_bind /mget. cbv beta iota. rw Hstale. clear Hstale.
  case_bool_decide as Hcur; cbn [negb]; last first.
  { cbn. eexists _, _, _, _. split; [done|]. by split. }
  destruct Hcur as [Hact _]. rw /acting_player in Hact. destruct (acting_seat_ t) as [i|] eqn:Hi; [|done]. cbn in Hact.
  destruct (seat_at t i) as [p|] eqn:Hp; [|done]. injection Hact as <-.
  assert (awaiting t) as Haw.
  { destruct Hreach as [(_ & _ & Hs & _)|[?|[(_ & _ & _ & Hs & _)|(_ & _ & Hs & _)]]]; [congruence|done|congruence..]. }
  rw (can_check_spec t i p) //; [apply Haw|].
  destruct (act_accepts (mkCommand (pl_id p) (if pl_street_commitment p =? current_bet_ t
      then Action_check else Action_fold) 0) t i p
    (if pl_street_commitment p =? current_bet_ t then removeFromActionSets (pl_id p) t
     else removeFromActionSets (pl_id p) (set_seat i (with_status Status_folded p) t)))
    as (r & t' & Hact & Hr & Hend); try done.
  { rw /act_switch /act_check /act_fold /=. by destruct (pl_street_commitment p =? current_bet_ t) eqn:E; cbn; rw ?E. }
  rw Hact /=. eexists _, _, _, _. split; [done|]. split_and!; [done|done|]. by exists i, p.
Qed.

(** An operation that only reports an error code does not run unless somebody
    listens: the caller is told that the task was posted, and the table stays as
    it was. The service aborts hands this way. *)
Lemma abort_without_callback deck t :
  run_op deck OpAbortHand false t = (Ok None, t).
Proof. done. Qed.

(** ** Concrete runs *)

Module RoomsDemo.
Definition m0 : RoomManager := mkManager ∅ ∅ 0 (mkExecutor 8 (replicate 2 (mkShard [] false))) [].
Definition cfg : TableConfig := mkConfig 2 6 50 100 2000 20000.
Definition sit : RoomTask := mkTask 0 (OpSeatPlayer 10 0 5000) (Some 1%nat).
Definition leave : RoomTask := mkTask 0 (OpRemovePlayer 11) (Some 2%nat).

(** A table is opened; a caller finds it and posts; the worker of shard 1 runs
    the task; a second request is still queued. *)
Definition m1 := (room_createTable 5 cfg m0).2.
Definition m2 := (post_task 5 sit m1).2.
Definition m3 := default m2 (run_one 1 Demo.deck m2).
Definition m4 := (post_task 5 leave m3).2.
Definition s4 := mkSystem m4 [] [1%nat; 2%nat].

Lemma new_m0 : RoomManager_new 2 8 = Ok m0.
Proof. reflexivity. Qed.

Lemma run_m2 : run_one 1 Demo.deck m2 = Some m3.
Proof. vm_compute. reflexivity. Qed.

Lemma reach_s4 : sys_reachable table_promise m0 s4.
Proof.
  eapply (sys_next _ _ (mkSystem m3 ([] ++ (5, leave) :: []) [1%nat; 2%nat])); [|apply (sys_post _ 5 leave m3 [] [])].
  eapply (sys_next _ _ (mkSystem m3 [] [1%nat])); [|by apply (sys_find _ 5 (OpRemovePlayer 11) (Some 2%nat) 0%nat)].
  eapply (sys_next _ _ (mkSystem m2 [] [1%nat])).
  2:{ apply (sys_run _ 1 Demo.deck); [apply run_m2|].
      intros task e room Ht _. split; [apply Demo.deck_good|split; [done|]]. vm_compute in Ht. injection Ht as <- _. exact I. }
  eapply (sys_next _ _ (mkSystem m1 ([] ++ (5, sit) :: []) [1%nat])); [|apply (sys_post _ 5 sit m1 [] [])].
  eapply (sys_next _ _ (mkSystem m1 [] [])); [|by apply (sys_find _ 5 (OpSeatPlayer 10 0 5000) (Some 1%nat) 0%nat)].
  eapply (sys_next _ _ (mkSystem m0 [] [])); [apply sys_start|apply sys_create].
Qed.

Lemma rooms_serial_witness :
  ∃ room, heap m4 !! 0%nat = Some room ∧ inv (room_table room) ∧
    length (players (room_table room)) = 1%nat.
Proof.
  destruct (rooms_serial table_promise (λ _ _ _ _ H, H) 2 8 m0 s4 new_m0 reach_s4) as (Hheap & _).
  assert (∃ room, heap m4 !! 0%nat = Some room ∧ length (players (room_table room)) = 1%nat)
    as (room & Hr & Hl).
  { eexists. split; vm_compute; reflexivity. }
  exists room. split; [exact Hr|]. split; [|exact Hl]. exact (proj2 (Hheap _ _ Hr)).
Defined.

Lemma replies_exactly_once_witness :
  (replies m4).*1 = [1%nat] ∧ [1%nat; 2%nat] ≡ₚ task_tags (queued (executor_ m4)) ++ (replies m4).*1.
Proof.
  destruct (replies_exactly_once table_promise (λ _ _ _ _ H, H) 2 8 m0 s4 new_m0 reach_s4) as (Hperm & _).
  split; [vm_compute; reflexivity|exact Hperm].
Defined.

Lemma timeout_acts_witness :
  acting_player Demo.hand = Some 10 ∧
  ∃ r view audit t', run_op Demo.deck (OpActionTimeout 10 0) true Demo.hand =
    (Ok (Some (ActionReply r view audit)), t') ∧ res_error r = Error_ok.
Proof.
  assert (acting_player Demo.hand = Some 10) as Hact by (vm_compute; reflexivity).
  split; [exact Hact|].
  destruct (timeout_acts Demo.config Demo.hand Demo.deck 10 0 Demo.hand_reachable)
    as (r & view & audit & t' & Hrun & Hres).
  rw bool_decide_eq_true_2 in Hres; [split; [exact Hact|by left]|].
  exists r, view, audit, t'. split; [exact Hrun|exact (proj1 Hres)].
Defined.
End RoomsDemo.
