(* ===== verification/Cluster.v ===== *)
(** * The cluster: node registry, lobby router, failure reaper

    Model of [include/poker/cluster/*.hpp] and of
    [src/poker/cluster/in_memory_node_registry.cpp], [lobby_router.cpp] and
    [node_failure_reaper.cpp]. The registry is an interface of the source and a
    class here; the in-memory registry is its instance. Clocks are objects that
    yield a time per reading. Registry operations hold its mutex and are one
    step. The router is a client of a registry and a cryptography provider, the
    reaper of a registry and a game store. *)
From S2P Require Import Prelude AccountStore Auth Table GameStore.

(** ** Data *)

Record NodeInfo := mkNode {
  ni_node_id : string;
  ni_endpoint : string;
  ni_active_tables : Z;
  ni_connections : Z;
}.

#[export] Instance NodeInfo_eq_dec : EqDecision NodeInfo.
Proof. solve_decision. Defined.

Record JoinTicket := mkTicket { jt_user_id : Z; jt_table_id : Z }.

#[export] Instance JoinTicket_eq_dec : EqDecision JoinTicket.
Proof. solve_decision. Defined.

(** ** The interface *)

Class NodeRegistry (R : Type) := {
  ping : R → bool * R;
  heartbeat : NodeInfo → Z → R → bool * R;
  healthyNodes : R → list NodeInfo * R;
  allocateTableId : R → option Z * R;
  assignRoom : Z → string → Z → R → bool * R;
  roomOwner : Z → R → option string * R;
  storeJoinTicket : string → JoinTicket → Z → R → bool * R;
  consumeJoinTicket : string → R → option JoinTicket * R;
}.

(** [std::function<std::int64_t()>]: each call reads the time. *)
Class Clock (K : Type) := clock_now : K → Z * K.

(** ** The in-memory registry *)

Record Expiring (T : Type) := mkExpiring { ex_value : T; expires_at_ms : Z }.
Arguments mkExpiring {T}.
Arguments ex_value {T}.
Arguments expires_at_ms {T}.

Record RegistryData := mkRegistry {
  nodes_ : gmap string (Expiring NodeInfo);
  node_rooms_ : gmap Z (Expiring string);
  tickets_ : gmap string (Expiring JoinTicket);
  next_table_id_ : Z;
}.

Definition with_nodes n r := mkRegistry n (node_rooms_ r) (tickets_ r) (next_table_id_ r).
Definition with_rooms m r := mkRegistry (nodes_ r) m (tickets_ r) (next_table_id_ r).
Definition with_tickets t r := mkRegistry (nodes_ r) (node_rooms_ r) t (next_table_id_ r).

Definition RegistryData_new : RegistryData := mkRegistry ∅ ∅ ∅ 1000.

Definition expiry (now ttl_seconds : Z) : Z := now + ttl_seconds * 1000.

(** Still valid at [now]. *)
Definition fresh_at {T} (now : Z) (e : Expiring T) : bool := now <? expires_at_ms e.

Definition nodeIsHealthy (id : string) (now : Z) (r : RegistryData) : bool :=
  match nodes_ r !! id with
  | Some e => fresh_at now e
  | None => false
  end.

(** The operations at the time their clock reading gives. *)
Definition heartbeat_at (now : Z) (node : NodeInfo) (ttl : Z) (r : RegistryData)
    : bool * RegistryData :=
  (true, with_nodes (<[ni_node_id node := mkExpiring node (expiry now ttl)]> (nodes_ r)) r).

Definition heartbeat_valid (node : NodeInfo) (ttl : Z) : bool :=
  negb (bool_decide (ni_node_id node = ""%string) || bool_decide (ni_endpoint node = ""%string)
        || (ttl =? 0)).

(** The comparison of the sort: tables, then connections, then the name. *)
Definition node_lt (lhs rhs : NodeInfo) : bool :=
  if negb (ni_active_tables lhs =? ni_active_tables rhs)
  then ni_active_tables lhs <? ni_active_tables rhs
  else if negb (ni_connections lhs =? ni_connections rhs)
  then ni_connections lhs <? ni_connections rhs
  else String.ltb (ni_node_id lhs) (ni_node_id rhs).

Definition node_le (lhs rhs : NodeInfo) : Prop := node_lt rhs lhs = false.

#[export] Instance node_le_dec : RelDecision node_le.
Proof. intros l r. rw /node_le. apply _. Defined.

Definition healthyNodes_at (now : Z) (r : RegistryData) : list NodeInfo * RegistryData :=
  let kept := filter (λ e, fresh_at now e.2 = true) (nodes_ r) in
  (merge_sort node_le (ex_value <$> (map_to_list kept).*2), with_nodes kept r).

Definition allocate_id (r : RegistryData) : option Z * RegistryData :=
  if next_table_id_ r =? 0 then (None, r)
  else (Some (next_table_id_ r),
        mkRegistry (nodes_ r) (node_rooms_ r) (tickets_ r) (u64_succ (next_table_id_ r))).

(** [++node->second.value.active_tables] *)
Definition add_table (e : Expiring NodeInfo) : Expiring NodeInfo :=
  let n := ex_value e in
  mkExpiring (mkNode (ni_node_id n) (ni_endpoint n) (u64_succ (ni_active_tables n))
                (ni_connections n)) (expires_at_ms e).

Definition assignRoom_at (now : Z) (id : Z) (node : string) (ttl : Z) (r : RegistryData)
    : bool * RegistryData :=
  if (id =? 0) || (ttl =? 0) || negb (nodeIsHealthy node now r) then (false, r)
  else
    let existing := node_rooms_ r !! id in
    if match existing with
       | Some e => fresh_at now e && negb (bool_decide (ex_value e = node))
       | None => false
       end
    then (false, r)
    else
      let new_assignment := match existing with Some e => negb (fresh_at now e) | None => true end in
      let r := with_rooms (<[id := mkExpiring node (expiry now ttl)]> (node_rooms_ r)) r in
      (true, if new_assignment then with_nodes (alter add_table node (nodes_ r)) r else r).

Definition roomOwner_at (now : Z) (id : Z) (r : RegistryData) : option string * RegistryData :=
  match node_rooms_ r !! id with
  | None => (None, r)
  | Some e =>
      if negb (fresh_at now e) || negb (nodeIsHealthy (ex_value e) now r)
      then (None, with_rooms (delete id (node_rooms_ r)) r)
      else (Some (ex_value e), r)
  end.

Definition ticket_valid (hash : string) (ticket : JoinTicket) (ttl : Z) : bool :=
  negb (bool_decide (hash = ""%string) || (jt_user_id ticket =? 0) || (jt_table_id ticket =? 0)
        || (ttl =? 0)).

Definition storeJoinTicket_at (now : Z) (hash : string) (ticket : JoinTicket) (ttl : Z)
    (r : RegistryData) : bool * RegistryData :=
  if match tickets_ r !! hash with Some e => fresh_at now e | None => false end then (false, r)
  else (true, with_tickets (<[hash := mkExpiring ticket (expiry now ttl)]> (tickets_ r)) r).

Definition consumeJoinTicket_at (now : Z) (hash : string) (r : RegistryData)
    : option JoinTicket * RegistryData :=
  match tickets_ r !! hash with
  | None => (None, r)
  | Some e => (if fresh_at now e then Some (ex_value e) else None,
               with_tickets (delete hash (tickets_ r)) r)
  end.

Section registry.
  Context {K : Type} `{!Clock K}.

Record InMemoryNodeRegistry := mkInMemoryRegistry { reg_clock : K; reg_data : RegistryData }.

Definition Registry_new (clock : K) : InMemoryNodeRegistry := mkInMemoryRegistry clock RegistryData_new.

(** [const auto now = clock_();] and the rest of the operation. *)
Definition timed {A} (f : Z → RegistryData → A * RegistryData) (r : InMemoryNodeRegistry)
    : A * InMemoryNodeRegistry :=
  let '(now, k) := clock_now (reg_clock r) in
  let '(a, d) := f now (reg_data r) in (a, mkInMemoryRegistry k d).

Definition untimed {A} (f : RegistryData → A * RegistryData) (r : InMemoryNodeRegistry)
    : A * InMemoryNodeRegistry :=
  let '(a, d) := f (reg_data r) in (a, mkInMemoryRegistry (reg_clock r) d).

#[export] Instance mem_registry : NodeRegistry InMemoryNodeRegistry := {
  ping r := (true, r);
  heartbeat node ttl r :=
    if heartbeat_valid node ttl then timed (λ now, heartbeat_at now node ttl) r else (false, r);
  healthyNodes := timed healthyNodes_at;
  allocateTableId := untimed allocate_id;
  assignRoom id node ttl := timed (λ now, assignRoom_at now id node ttl);
  roomOwner id := timed (λ now, roomOwner_at now id);
  storeJoinTicket hash ticket ttl r :=
    if ticket_valid hash ticket ttl
    then timed (λ now, storeJoinTicket_at now hash ticket ttl) r else (false, r);
  consumeJoinTicket hash := timed (λ now, consumeJoinTicket_at now hash);
}.
End registry.
Arguments InMemoryNodeRegistry : clear implicits.

(** ** The lobby router *)

Record RouteAssignment := mkRoute { ra_node : NodeInfo; ra_join_ticket : string }.

Record LobbyRouter := mkRouter { room_ttl_seconds_ : Z; ticket_ttl_seconds_ : Z }.

Definition LobbyRouter_default : LobbyRouter := mkRouter 86400 30.

Section router.
  Context {R C : Type} `{!NodeRegistry R, !CryptoProvider C}.
  Implicit Types (l : LobbyRouter) (st : R * C).

Definition on_registry {A} (f : R → A * R) (st : R * C) : A * (R * C) :=
  let '(a, r) := f st.1 in (a, (r, st.2)).

Definition issue l (node : NodeInfo) (id user : Z) st : option RouteAssignment * (R * C) :=
  let '(raw_ticket, c) := generateSessionToken st.2 in
  let '(stored, r) := storeJoinTicket (hashSessionToken raw_ticket) (mkTicket user id)
                        (ticket_ttl_seconds_ l) st.1 in
  (if stored then Some (mkRoute node raw_ticket) else None, (r, c)).

Definition assignNewTable l (id creator : Z) st : option RouteAssignment * (R * C) :=
  let '(nodes, st) := on_registry healthyNodes st in
  if (id =? 0) || (creator =? 0) then (None, st)
  else match nodes with
  | [] => (None, st)
  | node :: _ =>
      let '(assigned, st) := on_registry (assignRoom id (ni_node_id node) (room_ttl_seconds_ l)) st in
      if assigned then issue l node id creator st else (None, st)
  end.

Definition node_named (name : string) (nodes : list NodeInfo) : option NodeInfo :=
  List.find (λ n, bool_decide (ni_node_id n = name)) nodes.

(** The claim of a room without an owner for the node expected. *)
Definition claim_owner l (id : Z) (expected : string) (nodes : list NodeInfo)
    (owner : option string) st : option (option string) * (R * C) :=
  match owner with
  | None =>
      if bool_decide (expected = ""%string) then (Some owner, st)
      else match node_named expected nodes with
      | None => (None, st)
      | Some _ =>
          let '(assigned, st) := on_registry (assignRoom id expected (room_ttl_seconds_ l)) st in
          (if assigned then Some (Some expected) else None, st)
      end
  | Some _ => (Some owner, st)
  end.

Definition routeExistingTable l (id user : Z) (expected : string) st
    : option RouteAssignment * (R * C) :=
  if (id =? 0) || (user =? 0) then (None, st)
  else
    let '(owner, st) := on_registry (roomOwner id) st in
    let '(nodes, st) := on_registry healthyNodes st in
    match claim_owner l id expected nodes owner st with
    | (Some (Some owner), st) =>
        if negb (bool_decide (expected = ""%string)) && negb (bool_decide (owner = expected))
        then (None, st)
        else match node_named owner nodes with
        | Some node => issue l node id user st
        | None => (None, st)
        end
    | (_, st) => (None, st)
    end.
End router.

(** ** The failure reaper *)

Record ReapResult := mkReap { refunded_tables : list Z; failed_tables : list Z }.

Record NodeFailureReaper (K : Type) := mkReaper {
  grace_period_ms_ : Z;
  reaper_clock : K;
  missing_since_ : gmap string Z;
}.
Arguments mkReaper {K}.
Arguments grace_period_ms_ {K}.
Arguments reaper_clock {K}.
Arguments missing_since_ {K}.

Definition NodeFailureReaper_new {K} (grace : Z) (clock : K) : result (NodeFailureReaper K) :=
  if grace <=? 0 then Throw (invalid_argument "node failure grace period must be positive")
  else Ok (mkReaper grace clock ∅).

Section reaper.
  Context {R G K : Type} `{!NodeRegistry R, !GameStore G, !Clock K}.

(** The loop over the open tables: the reaper's map, the store, the result. *)
Definition sweep_table (now grace : Z) (healthy : gset string) (table : TableRecord)
    (st : gmap string Z * G * ReapResult) : gmap string Z * G * ReapResult :=
  let '(missing, g, res) := st in
  if bool_decide (node_id table ∈ healthy) then st
  else match missing !! node_id table with
  | None => (<[node_id table := now]> missing, g, res)
  | Some since =>
      if now - since <? grace then st
      else
        let '(refunded, g) := gs_abortTableAndRefund (table_id table) g in
        if bool_decide (refunded = Storage_ok)
        then (missing, g, mkReap (refunded_tables res ++ [table_id table]) (failed_tables res))
        else (missing, g, mkReap (refunded_tables res) (failed_tables res ++ [table_id table]))
  end.

Definition sweep (p : NodeFailureReaper K) (r : R) (g : G)
    : ReapResult * (NodeFailureReaper K * R * G) :=
  let nothing := mkReap [] [] in
  let '(alive, r) := ping r in
  if negb alive then (nothing, (p, r, g))
  else
    let '(now, k) := clock_now (reaper_clock p) in
    let '(nodes, r) := healthyNodes r in
    let healthy := list_to_set (ni_node_id <$> nodes) : gset string in
    let missing := foldl (λ m n, delete (ni_node_id n) m) (missing_since_ p) nodes in
    let '(tables, g) := gs_listOpenTables 200 g in
    if negb (sr_bool tables)
    then (nothing, (mkReaper (grace_period_ms_ p) k missing, r, g))
    else
      let '(missing, g, res) :=
        foldl (λ st table, sweep_table now (grace_period_ms_ p) healthy table st)
          (missing, g, nothing) (default [] (sr_value tables)) in
      (res, (mkReaper (grace_period_ms_ p) k missing, r, g)).
End reaper.
