(* ===== verification/ClusterTheorems.v ===== *)
(** * What the cluster components guarantee

    The registry: its table ids are distinct, a table is leased to one node at a
    time, a join ticket is redeemed at most once and before it expires, the list
    of healthy nodes is exactly the live ones, least loaded first. The router
    hands out tickets the registry will honour. The reaper refunds only tables
    of nodes that stayed away for the whole grace period. *)
From Stdlib Require Import OrdersEx.
From S2P Require Import Prelude AccountStore Auth Table GameStore GameStoreLib GameStoreInv Cluster.

(** ** The order of nodes *)

Lemma String_ltb_lt a b : String.ltb a b = true ↔ String_as_OT.lt a b.
Proof.
  rw /String.ltb /String_as_OT.lt.
  enough (String_as_OT.compare a b = String.compare a b) as ->.
  { destruct (String.compare a b); by split. }
  revert b. induction a as [|x a IH]; intros [|y b]; simpl; try done.
Qed.

Lemma String_ltb_trans a b c :
  String.ltb a b = true → String.ltb b c = true → String.ltb a c = true.
Proof.
  rw !String_ltb_lt. intros Hab Hbc.
  exact (StrictOrder_Transitive (R := String_as_OT.lt) a b c Hab Hbc).
Qed.

Lemma String_ltb_total a b : String.ltb a b = true ∨ a = b ∨ String.ltb b a = true.
Proof.
  rw /String.ltb. destruct (String.compare a b) eqn:Hc; [|by left|].
  - apply String.compare_eq_iff in Hc. by right; left.
  - right; right. by rw String.compare_antisym Hc.
Qed.

Lemma String_ltb_irrefl a : String.ltb a a = false.
Proof.
  destruct (String.ltb a a) eqn:Ha; [|done]. apply String_ltb_lt in Ha.
  by apply (StrictOrder_Irreflexive (R := String_as_OT.lt) a) in Ha.
Qed.

(** The comparison is lexicographic. *)
Lemma node_lt_iff l r :
  node_lt l r = true ↔
    ni_active_tables l < ni_active_tables r ∨
    ni_active_tables l = ni_active_tables r ∧
      (ni_connections l < ni_connections r ∨
       ni_connections l = ni_connections r ∧ String.ltb (ni_node_id l) (ni_node_id r) = true).
Proof.
  rw /node_lt. destruct (Z.eqb_spec (ni_active_tables l) (ni_active_tables r)); cbn [negb];
    [|rw Z.ltb_lt; lia].
  destruct (Z.eqb_spec (ni_connections l) (ni_connections r)); cbn [negb]; [|rw Z.ltb_lt; lia].
  split; [naive_solver|]. intros [?|(_ & [?|(_ & ?)])]; [lia|lia|done].
Qed.

Lemma String_nlt_trans a b c :
  String.ltb b a = false → String.ltb c b = false → String.ltb c a = false.
Proof.
  intros Hba Hcb. destruct (String.ltb c a) eqn:Hca; [|done].
  destruct (String_ltb_total b c) as [H|[->|H]]; [|congruence..].
  pose proof (String_ltb_trans _ _ _ H Hca). congruence.
Qed.

Lemma node_le_iff l r :
  node_le l r ↔
    ni_active_tables l < ni_active_tables r ∨
    ni_active_tables l = ni_active_tables r ∧
      (ni_connections l < ni_connections r ∨
       ni_connections l = ni_connections r ∧ String.ltb (ni_node_id r) (ni_node_id l) = false).
Proof.
  rw /node_le -not_true_iff_false node_lt_iff -not_true_iff_false.
  destruct (String.ltb (ni_node_id r) (ni_node_id l)); intuition lia.
Qed.

#[export] Instance node_le_trans : Transitive node_le.
Proof.
  intros a b c. rw !node_le_iff. intros H1 H2.
  destruct H1 as [?|(? & [?|(? & H1)])], H2 as [?|(? & [?|(? & H2)])]; try lia.
  right. split; [lia|]. right. split; [lia|]. exact (String_nlt_trans _ _ _ H1 H2).
Qed.

#[export] Instance node_le_total : Total node_le.
Proof.
  intros a b. rw !node_le_iff.
  assert (String.ltb (ni_node_id b) (ni_node_id a) = false ∨
          String.ltb (ni_node_id a) (ni_node_id b) = false).
  { destruct (String_ltb_total (ni_node_id a) (ni_node_id b)) as [H|[->|H]].
    - left. destruct (String.ltb (ni_node_id b) (ni_node_id a)) eqn:H'; [|done].
      pose proof (String_ltb_trans _ _ _ H H') as Hx. by rw String_ltb_irrefl in Hx.
    - left. apply String_ltb_irrefl.
    - right. destruct (String.ltb (ni_node_id a) (ni_node_id b)) eqn:H'; [|done].
      pose proof (String_ltb_trans _ _ _ H H') as Hx. by rw String_ltb_irrefl in Hx. }
  destruct (Z.lt_trichotomy (ni_active_tables a) (ni_active_tables b)) as [?|[?|?]];
    [by left; left| |by right; left].
  destruct (Z.lt_trichotomy (ni_connections a) (ni_connections b)) as [?|[?|?]]; intuition lia.
Qed.

(** ** Histories of the registry *)

Inductive RegCall :=
  | Heartbeat (node : NodeInfo) (ttl : Z)
  | HealthyNodes
  | AllocateTableId
  | AssignRoom (id : Z) (node : string) (ttl : Z)
  | RoomOwner (id : Z)
  | StoreJoinTicket (hash : string) (ticket : JoinTicket) (ttl : Z)
  | ConsumeJoinTicket (hash : string).

Inductive RegAnswer :=
  | Yes_no (b : bool)
  | Nodes (l : list NodeInfo)
  | NewId (id : option Z)
  | Owner (node : option string)
  | Ticket (ticket : option JoinTicket).

(** A call, the time its clock reading gives, and its answer. *)
Record RegEvent := mkEvent { ev_time : Z; ev_call : RegCall; ev_answer : RegAnswer }.

Section histories.
  Context {K : Type} `{!Clock K}.
  Implicit Types (r : InMemoryNodeRegistry K) (evs : list RegEvent).

Definition reg_step (c : RegCall) r : RegAnswer * InMemoryNodeRegistry K :=
  match c with
  | Heartbeat node ttl => let '(b, r) := heartbeat node ttl r in (Yes_no b, r)
  | HealthyNodes => let '(l, r) := healthyNodes r in (Nodes l, r)
  | AllocateTableId => let '(o, r) := allocateTableId r in (NewId o, r)
  | AssignRoom id node ttl => let '(b, r) := assignRoom id node ttl r in (Yes_no b, r)
  | RoomOwner id => let '(o, r) := roomOwner id r in (Owner o, r)
  | StoreJoinTicket h t ttl => let '(b, r) := storeJoinTicket h t ttl r in (Yes_no b, r)
  | ConsumeJoinTicket h => let '(o, r) := consumeJoinTicket h r in (Ticket o, r)
  end.

Definition time_of r : Z := (clock_now (reg_clock r)).1.

Inductive reg_run r0 : list RegEvent → InMemoryNodeRegistry K → Prop :=
  | run_nil : reg_run r0 [] r0
  | run_snoc evs r c a r' : reg_run r0 evs r → reg_step c r = (a, r') →
      reg_run r0 (evs ++ [mkEvent (time_of r) c a]) r'.
End histories.

(** What a history says of tickets: the last ticket stored under the hash and
    not asked for since, with its expiry. *)
Definition ticket_event (h : string) (ev : RegEvent) (o : option (Expiring JoinTicket))
    : option (Expiring JoinTicket) :=
  match ev_call ev, ev_answer ev with
  | StoreJoinTicket h' t ttl, Yes_no true =>
      if bool_decide (h' = h) then Some (mkExpiring t (expiry (ev_time ev) ttl)) else o
  | ConsumeJoinTicket h', _ => if bool_decide (h' = h) then None else o
  | _, _ => o
  end.

(** The last lease of a room, unless its owner was found missing since. *)
Definition room_event (id : Z) (ev : RegEvent) (o : option (Expiring string))
    : option (Expiring string) :=
  match ev_call ev, ev_answer ev with
  | AssignRoom id' node ttl, Yes_no true =>
      if bool_decide (id' = id) then Some (mkExpiring node (expiry (ev_time ev) ttl)) else o
  | RoomOwner id', Owner None => if bool_decide (id' = id) then None else o
  | _, _ => o
  end.

(** When the last heartbeat of a node expires. *)
Definition node_event (n : string) (ev : RegEvent) (o : option Z) : option Z :=
  match ev_call ev, ev_answer ev with
  | Heartbeat node ttl, Yes_no true =>
      if bool_decide (ni_node_id node = n) then Some (expiry (ev_time ev) ttl) else o
  | _, _ => o
  end.

Definition history {A} (f : RegEvent → option A → option A) (evs : list RegEvent) : option A :=
  foldl (λ o ev, f ev o) None evs.

Definition alive (n : string) (now : Z) (evs : list RegEvent) : bool :=
  match history (node_event n) evs with Some e => now <? e | None => false end.

Lemma history_snoc {A} (f : RegEvent → option A → option A) evs ev :
  history f (evs ++ [ev]) = f ev (history f evs).
Proof. by rw /history foldl_app. Qed.

(** An event sets or clears what [f] remembers, or leaves it. *)
Definition decisive {A} (f : RegEvent → option A → option A) : Prop :=
  ∀ ev, (∀ o, f ev o = o) ∨ ∃ x, ∀ o, f ev o = x.

Lemma history_Some {A} (f : RegEvent → option A → option A) evs x :
  decisive f →
  history f evs = Some x ↔
    ∃ l ev l', evs = l ++ ev :: l' ∧ (∀ o, f ev o = Some x) ∧ ∀ ev', ev' ∈ l' → ∀ o, f ev' o = o.
Proof.
  intros Hf. induction evs as [|ev evs IH] using rev_ind.
  { split; [done|]. by intros ([]&?&?&?&_). }
  rw history_snoc. destruct (Hf ev) as [Hkeep|(y & Hy)].
  - rw Hkeep IH. split.
    + intros (l & e & l' & -> & He & Hl'). exists l, e, (l' ++ [ev]). rw -app_assoc. split_and!; try done.
      intros ev' [?| ->%list_elem_of_singleton]%elem_of_app; [by apply Hl'|done].
    + intros (l & e & l' & Heq & He & Hl'). destruct l' as [|e' l'] using rev_ind.
      * apply app_inj_tail in Heq as [-> ->]. pose proof (He None) as H1. by rw Hkeep in H1.
      * change (e :: l' ++ [e']) with ((e :: l') ++ [e']) in Heq. rw app_assoc in Heq.
        apply app_inj_tail in Heq as [-> ->]. exists l, e, l'. split_and!; try done.
        intros ev' Hev'. apply Hl'. apply elem_of_app. by left.
  - rw Hy. split.
    + intros ->. exists evs, ev, []. split_and!; try done. by intros ev' ?%not_elem_of_nil.
    + intros (l & e & l' & Heq & He & Hl'). destruct l' as [|e' l'] using rev_ind.
      * apply app_inj_tail in Heq as [-> ->]. by rw -(Hy None) He.
      * change (e :: l' ++ [e']) with ((e :: l') ++ [e']) in Heq. rw app_assoc in Heq.
        apply app_inj_tail in Heq as [_ ->].
        assert (∀ o, f e' o = o) as Hk by (apply Hl'; apply elem_of_app; right; by left).
        pose proof (Hk None) as H1. pose proof (Hk (Some x)) as H2. rw Hy in H1, H2. congruence.
Qed.

Lemma ticket_event_decisive h : decisive (ticket_event h).
Proof.
  intros ev. rw /ticket_event. destruct (ev_call ev); try by left.
  - destruct (ev_answer ev) as [[]| | | |]; try by left. case_bool_decide; [right; by eexists|by left].
  - case_bool_decide; [right; by eexists|by left].
Qed.

Section registry_histories.
  Context {K : Type} `{!Clock K}.
  (** Readings of the clock do not go back. *)
  Context (clock_mono : ∀ k : K, (clock_now k).1 ≤ (clock_now (clock_now k).2).1).
  Implicit Types (r : InMemoryNodeRegistry K) (evs : list RegEvent) (d : RegistryData).

Record reg_inv evs r : Prop := {
  rg_tickets : ∀ h, tickets_ (reg_data r) !! h = history (ticket_event h) evs;
  rg_rooms : ∀ id, node_rooms_ (reg_data r) !! id = history (room_event id) evs;
  rg_nodes : ∀ n t, time_of r ≤ t → nodeIsHealthy n t (reg_data r) = alive n t evs;
  rg_names : ∀ n e, nodes_ (reg_data r) !! n = Some e → ni_node_id (ex_value e) = n;
  rg_times : ∀ ev, ev ∈ evs → ev_time ev ≤ time_of r;
}.

(** A step whose event says nothing about tickets, rooms or heartbeats. *)
Definition silent (ev : RegEvent) : Prop :=
  (∀ h o, ticket_event h ev o = o) ∧ (∀ id o, room_event id ev o = o) ∧
  (∀ n o, node_event n ev o = o).

Lemma alive_snoc n t evs ev :
  (∀ o, node_event n ev o = o) → alive n t (evs ++ [ev]) = alive n t evs.
Proof. intros Hev. by rw /alive history_snoc Hev. Qed.

(** How one call changes the data, seen key by key. *)
Lemma reg_inv_step evs r ev d' k' :
  reg_inv evs r → ev_time ev = time_of r →
  (k' = reg_clock r ∨ k' = (clock_now (reg_clock r)).2) →
  (∀ h, tickets_ d' !! h = ticket_event h ev (tickets_ (reg_data r) !! h)) →
  (∀ id, node_rooms_ d' !! id = room_event id ev (node_rooms_ (reg_data r) !! id)) →
  (∀ n t, time_of r ≤ t → nodeIsHealthy n t d' =
     match node_event n ev None with
     | Some e => t <? e
     | None => nodeIsHealthy n t (reg_data r)
     end) →
  (∀ n e, nodes_ d' !! n = Some e → ni_node_id (ex_value e) = n) →
  reg_inv (evs ++ [ev]) (mkInMemoryRegistry k' d').
Proof.
  intros [Ht Hr Hn Hnames Htimes] Hev Hk Ht' Hr' Hn' Hnames'.
  assert (time_of r ≤ time_of (mkInMemoryRegistry k' d')) as Hmono.
  { rw /time_of /=. destruct Hk as [->| ->]; [done|apply clock_mono]. }
  split; cbn [reg_data]; try done.
  - intros h. by rw history_snoc Ht' Ht.
  - intros id. by rw history_snoc Hr' Hr.
  - intros n t Hle. rw Hn'; [lia|]. rw Hn; [lia|]. rw /alive history_snoc.
    rw /node_event. destruct (ev_call ev) as [node ttl| | | | | |]; try done.
    destruct (ev_answer ev) as [[]| | | |]; try done. by destruct (bool_decide _).
  - intros e [He| ->%list_elem_of_singleton]%elem_of_app; [|lia]. pose proof (Htimes e He). lia.
Qed.

Lemma healthy_set n t node e d :
  nodeIsHealthy n t (with_nodes (<[node := e]> (nodes_ d)) d) =
  if bool_decide (node = n) then t <? expires_at_ms e else nodeIsHealthy n t d.
Proof.
  rw /nodeIsHealthy /= lookup_insert. case_decide as Hd; case_bool_decide; done.
Qed.

Lemma healthy_add n t node d :
  nodeIsHealthy n t (with_nodes (alter add_table node (nodes_ d)) d) = nodeIsHealthy n t d.
Proof. rw /nodeIsHealthy /= lookup_alter. case_decide; [subst|done]. by destruct (nodes_ d !! n). Qed.

Lemma healthy_filter n now t d :
  now ≤ t → nodeIsHealthy n t (healthyNodes_at now d).2 = nodeIsHealthy n t d.
Proof.
  intros Hle. rw /nodeIsHealthy /= map_lookup_filter. destruct (nodes_ d !! n) as [e|]; cbn; [|done].
  case_guard as Hg; cbn; [done|]. rw /fresh_at /= in Hg |- *. symmetry.
  apply not_true_iff_false in Hg. apply Z.ltb_ge in Hg. apply Z.ltb_ge. lia.
Qed.

Lemma assignRoom_rooms now id node ttl d id' :
  node_rooms_ (assignRoom_at now id node ttl d).2 !! id' =
  if (assignRoom_at now id node ttl d).1 && bool_decide (id = id')
  then Some (mkExpiring node (expiry now ttl)) else node_rooms_ d !! id'.
Proof.
  rw /assignRoom_at. destruct (_ || _); [done|]. destruct (match node_rooms_ d !! id with Some _ => _ | None => _ end); [done|].
  destruct (match node_rooms_ d !! id with Some _ => _ | None => _ end); cbn; rw lookup_insert;
    case_decide; case_bool_decide; done.
Qed.

Lemma assignRoom_others now id node ttl d :
  tickets_ (assignRoom_at now id node ttl d).2 = tickets_ d ∧
  (∀ n t, nodeIsHealthy n t (assignRoom_at now id node ttl d).2 = nodeIsHealthy n t d) ∧
  (∀ n e, nodes_ (assignRoom_at now id node ttl d).2 !! n = Some e →
     ∃ e', nodes_ d !! n = Some e' ∧ ni_node_id (ex_value e) = ni_node_id (ex_value e')).
Proof.
  rw /assignRoom_at. destruct (_ || _); [by split_and!; eauto|].
  destruct (match node_rooms_ d !! id with Some _ => _ | None => _ end); [by split_and!; eauto|].
  destruct (match node_rooms_ d !! id with Some _ => _ | None => _ end); cbn; split_and!; eauto.
  - intros n t. exact (healthy_add n t node d).
  - intros n e. rw lookup_alter. case_decide; [subst|by eauto].
    destruct (nodes_ d !! n) as [e0|]; cbn; intros [= <-]. by exists e0.
Qed.

(** An event that concerns no key leaves the registry as it is. *)
Lemma reg_inv_quiet evs r c a : reg_inv evs r →
  (∀ h o, ticket_event h (mkEvent (time_of r) c a) o = o) →
  (∀ id o, room_event id (mkEvent (time_of r) c a) o = o) →
  (∀ n o, node_event n (mkEvent (time_of r) c a) o = o) →
  reg_inv (evs ++ [mkEvent (time_of r) c a]) r.
Proof.
  intros Hi H1 H2 H3. pose proof (rg_names _ _ Hi) as Hnames. destruct r as [k d].
  apply (reg_inv_step evs (mkInMemoryRegistry k d)); try done; [by left|].
  intros n t _. by rw H3.
Qed.

Lemma reg_inv_heartbeat evs r node ttl a r' :
  reg_inv evs r → reg_step (Heartbeat node ttl) r = (a, r') →
  reg_inv (evs ++ [mkEvent (time_of r) (Heartbeat node ttl) a]) r'.
Proof.
  intros Hi Hstep. pose proof (rg_names _ _ Hi) as Hnames.
  cbn in Hstep. destruct (heartbeat_valid node ttl); [|by simplify_eq; apply reg_inv_quiet].
  rw /timed /heartbeat_at in Hstep. destruct (clock_now (reg_clock r)) as [now k] eqn:Hk.
  injection Hstep as <- <-. assert (time_of r = now) as Hnow by by rw /time_of Hk.
  apply (reg_inv_step evs r); try done; [by right; rw Hk| |].
  - intros n t Hle. rw healthy_set /node_event /= Hnow. by case_bool_decide.
  - intros n e. cbn. rw lookup_insert_Some. intros [[<- <-]|[_ Hn]]; [done|by apply Hnames].
Qed.

Lemma reg_inv_healthyNodes evs r a r' :
  reg_inv evs r → reg_step (HealthyNodes) r = (a, r') →
  reg_inv (evs ++ [mkEvent (time_of r) (HealthyNodes) a]) r'.
Proof.
  intros Hi Hstep. pose proof (rg_names _ _ Hi) as Hnames.
  cbn in Hstep. rw /timed in Hstep. destruct (clock_now (reg_clock r)) as [now k] eqn:Hk.
  injection Hstep as <- <-. assert (time_of r = now) as Hnow by by rw /time_of Hk.
  apply (reg_inv_step evs r); try done; [by right; rw Hk| |].
  - intros n t Hle. rw (healthy_filter n now); [lia|done].
  - intros n e. cbn. rw map_lookup_filter_Some. intros [Hn _]. by apply Hnames.
Qed.

Lemma reg_inv_assignRoom evs r id node ttl a r' :
  reg_inv evs r → reg_step (AssignRoom id node ttl) r = (a, r') →
  reg_inv (evs ++ [mkEvent (time_of r) (AssignRoom id node ttl) a]) r'.
Proof.
  intros Hi Hstep. pose proof (rg_names _ _ Hi) as Hnames.
  cbn in Hstep. rw /timed in Hstep. destruct (clock_now (reg_clock r)) as [now k] eqn:Hk.
  assert (time_of r = now) as Hnow by by rw /time_of Hk.
  destruct (assignRoom_others now id node ttl (reg_data r)) as (Ht & Hh & Hn).
  pose proof (assignRoom_rooms now id node ttl (reg_data r)) as Hrooms.
  destruct (assignRoom_at now id node ttl (reg_data r)) as [b d'] eqn:Hb. injection Hstep as <- <-.
  apply (reg_inv_step evs r); try done; [by right; rw Hk|by intros h; rw Ht| |].
  - intros id'. rw (Hrooms id') /room_event /= Hnow. destruct b; cbn; [|done].
    by case_bool_decide.
  - intros n e He. destruct (Hn n e He) as (e' & He' & ->). by apply Hnames.
Qed.

Lemma reg_inv_roomOwner evs r id a r' :
  reg_inv evs r → reg_step (RoomOwner id) r = (a, r') →
  reg_inv (evs ++ [mkEvent (time_of r) (RoomOwner id) a]) r'.
Proof.
  intros Hi Hstep. pose proof (rg_names _ _ Hi) as Hnames.
  cbn in Hstep. rw /timed /roomOwner_at in Hstep. destruct (clock_now (reg_clock r)) as [now k] eqn:Hk.
  assert (time_of r = now) as Hnow by by rw /time_of Hk.
  destruct (node_rooms_ (reg_data r) !! id) as [e|] eqn:He.
  - destruct (_ || _); injection Hstep as <- <-.
    + apply (reg_inv_step evs r); try done; [by right; rw Hk|]. intros id'. rw /room_event /=.
      rw lookup_delete. case_decide; case_bool_decide; done.
    + apply (reg_inv_step evs r); try done. by right; rw Hk.
  - injection Hstep as <- <-. apply (reg_inv_step evs r); try done; [by right; rw Hk|].
    intros id'. rw /room_event /=. case_bool_decide; [by subst|done].
Qed.

Lemma reg_inv_storeJoinTicket evs r h t ttl a r' :
  reg_inv evs r → reg_step (StoreJoinTicket h t ttl) r = (a, r') →
  reg_inv (evs ++ [mkEvent (time_of r) (StoreJoinTicket h t ttl) a]) r'.
Proof.
  intros Hi Hstep. pose proof (rg_names _ _ Hi) as Hnames.
  cbn in Hstep. destruct (ticket_valid h t ttl); [|by simplify_eq; apply reg_inv_quiet].
  rw /timed /storeJoinTicket_at in Hstep. destruct (clock_now (reg_clock r)) as [now k] eqn:Hk.
  assert (time_of r = now) as Hnow by by rw /time_of Hk.
  destruct (match tickets_ (reg_data r) !! h with Some _ => _ | None => _ end); injection Hstep as <- <-.
  - apply (reg_inv_step evs r); try done. by right; rw Hk.
  - apply (reg_inv_step evs r); try done; [by right; rw Hk|]. intros h'. cbn.
    rw lookup_insert /ticket_event /= Hnow. case_decide; case_bool_decide; done.
Qed.

Lemma reg_inv_consumeJoinTicket evs r h a r' :
  reg_inv evs r → reg_step (ConsumeJoinTicket h) r = (a, r') →
  reg_inv (evs ++ [mkEvent (time_of r) (ConsumeJoinTicket h) a]) r'.
Proof.
  intros Hi Hstep. pose proof (rg_names _ _ Hi) as Hnames.
  cbn in Hstep. rw /timed /consumeJoinTicket_at in Hstep.
  destruct (clock_now (reg_clock r)) as [now k] eqn:Hk.
  destruct (tickets_ (reg_data r) !! h) as [e|] eqn:He; injection Hstep as <- <-;
    (apply (reg_inv_step evs r); try done; [by right; rw Hk|]); intros h'; rw /ticket_event /=.
  - rw lookup_delete. case_decide; case_bool_decide; done.
  - case_bool_decide; [by subst|done].
Qed.

Lemma reg_step_inv evs r c a r' :
  reg_inv evs r → reg_step c r = (a, r') → reg_inv (evs ++ [mkEvent (time_of r) c a]) r'.
Proof.
  destruct c; eauto using reg_inv_heartbeat, reg_inv_healthyNodes, reg_inv_assignRoom, reg_inv_roomOwner,
    reg_inv_storeJoinTicket, reg_inv_consumeJoinTicket.
  intros Hi Hstep. pose proof (rg_names _ _ Hi) as Hnames.
  cbn in Hstep. rw /untimed /allocate_id in Hstep. destruct r as [k d].
  destruct (_ =? 0); injection Hstep as <- <-; [by apply reg_inv_quiet|].
  apply (reg_inv_step evs (mkInMemoryRegistry k d)); try done. by left.
Qed.

Lemma reg_inv_new k : reg_inv [] (Registry_new k).
Proof.
  split; cbn; try done. by intros ev ?%not_elem_of_nil.
Qed.

Lemma reg_run_inv k evs r : reg_run (Registry_new k) evs r → reg_inv evs r.
Proof.
  intros Hrun. remember (Registry_new k) as r0 eqn:Hr0.
  induction Hrun as [|evs r c a r' Hrun IH Hstep]; subst; [apply reg_inv_new|].
  eapply reg_step_inv; [by apply IH|done].
Qed.

(** One call in the middle of a history. *)
Lemma reg_run_split k evs1 ev evs2 r :
  reg_run (Registry_new k) (evs1 ++ ev :: evs2) r →
  ∃ r1 r2, reg_inv evs1 r1 ∧ time_of r1 = ev_time ev ∧ reg_step (ev_call ev) r1 = (ev_answer ev, r2) ∧
    reg_inv (evs1 ++ [ev]) r2 ∧ (time_of r2 ≤ time_of r) ∧ (∀ e, e ∈ evs2 → ev_time ev ≤ ev_time e).
Proof.
  intros Hrun. remember (evs1 ++ ev :: evs2) as evs eqn:Hevs. revert evs2 Hevs.
  induction Hrun as [|evs r c a r' Hrun IH Hstep]; intros evs2 Hevs; [by destruct evs1|].
  pose proof (reg_run_inv k evs r Hrun) as Hi. pose proof (reg_step_inv _ _ _ _ _ Hi Hstep) as Hi'.
  destruct evs2 as [|ev2 evs2 _] using rev_ind.
  - apply app_inj_tail in Hevs as [-> <-]. exists r, r'. split_and!; try done.
    by intros e ?%not_elem_of_nil.
  - change (ev :: evs2 ++ [ev2]) with ((ev :: evs2) ++ [ev2]) in Hevs. rw app_assoc in Hevs.
    apply app_inj_tail in Hevs as [-> <-].
    destruct (IH evs2 eq_refl) as (r1 & r2 & H1 & H2 & H3 & H4 & H5 & H6).
    assert (time_of r ≤ time_of r') as Hle.
    { apply (rg_times _ _ Hi' (mkEvent (time_of r) c a)). apply elem_of_app. right. by left. }
    exists r1, r2. split_and!; try done; [lia|].
    intros e [?| ->%list_elem_of_singleton]%elem_of_app; [by apply H6|]. cbn.
    apply (rg_times _ _ Hi). apply elem_of_app. right. by left.
Qed.

(** What can happen to a ticket. *)
Definition stores (h : string) (t : JoinTicket) (ttl : Z) (ev : RegEvent) : Prop :=
  ev_call ev = StoreJoinTicket h t ttl ∧ ev_answer ev = Yes_no true.

Definition touches (h : string) (ev : RegEvent) : Prop :=
  ev_call ev = ConsumeJoinTicket h ∨ ∃ t ttl, stores h t ttl ev.

Lemma ticket_event_set h t exp ev :
  (∀ o, ticket_event h ev o = Some (mkExpiring t exp)) ↔
  ∃ ttl, stores h t ttl ev ∧ exp = expiry (ev_time ev) ttl.
Proof.
  rw /ticket_event /stores. destruct ev as [now c a]. cbn. destruct c; cbn;
    try (split; [intros H; by specialize (H None)|intros (ttl0 & [? ?] & ?); simplify_eq]).
  - destruct a as [[]| | | |]; try (split; [intros H; by specialize (H None)|intros (? & [? ?] & ?); simplify_eq]).
    case_bool_decide as Hh; [subst|].
    + split; [intros H; specialize (H None); simplify_eq; eauto|]. intros (? & [? ?] & ?). by simplify_eq.
    + split; [intros H; by specialize (H None)|]. intros (? & [? ?] & ?). by simplify_eq.
  - case_bool_decide; (split; [intros H'; by specialize (H' None)|by intros (? & [? ?] & ?); simplify_eq]).
Qed.

Lemma ticket_event_keep h ev : (∀ o, ticket_event h ev o = o) ↔ ¬ touches h ev.
Proof.
  rw /ticket_event /touches /stores. destruct ev as [now c a]. cbn.
  destruct c as [| | | | |h' t ttl|h']; cbn;
    try (split; [intros _ [?|(? & ? & ? & ?)]; simplify_eq|done]).
  - destruct a as [[]| | | |]; try (split; [intros _ [?|(? & ? & ? & ?)]; simplify_eq|done]).
    case_bool_decide as Hh; [subst|split; [intros _ [?|(? & ? & ? & ?)]; simplify_eq|done]].
    split; [intros H; by specialize (H None)|]. intros H. destruct H. right. eauto.
  - case_bool_decide as Hh; [subst|split; [intros _ [?|(? & ? & ? & ?)]; simplify_eq|done]].
    split; [|intros H; destruct H; by left].
    intros H. by specialize (H (Some (mkExpiring (mkTicket 0 0) 0))).
Qed.

(** A join ticket is redeemed at most once and only in time: whatever calls
    the registry has served, asking for a hash yields a ticket exactly when that
    ticket was stored under the hash, nobody asked for it since, it was not
    replaced, and it has not expired. *)
Lemma tickets_redeemed_once k evs1 now h o evs2 r t :
  reg_run (Registry_new k) (evs1 ++ mkEvent now (ConsumeJoinTicket h) (Ticket o) :: evs2) r →
  o = Some t ↔
    ∃ l ev ttl l', evs1 = l ++ ev :: l' ∧ stores h t ttl ev ∧ now < expiry (ev_time ev) ttl ∧
      ∀ ev', ev' ∈ l' → ¬ touches h ev'.
Proof.
  intros Hrun. apply reg_run_split in Hrun as (r1 & r2 & Hi & Hnow & Hstep & _). cbn in Hnow, Hstep.
  rw /timed /consumeJoinTicket_at in Hstep.
  destruct (clock_now (reg_clock r1)) as [now' k'] eqn:Hk.
  assert (now' = now) as -> by by rw -Hnow /time_of Hk.
  assert (o = Some t ↔ ∃ exp, history (ticket_event h) evs1 = Some (mkExpiring t exp) ∧ now < exp) as ->.
  { rw -(rg_tickets _ _ Hi). destruct (tickets_ (reg_data r1) !! h) as [[t' exp]|]; cbn in Hstep.
    - injection Hstep as <- _. rw /fresh_at /=. destruct (Z.ltb_spec now exp).
      + split; [intros [= ->]; by exists exp|]. by intros (? & [= -> _] & _).
      + split; [done|]. intros (? & [= _ ->] & ?). lia.
    - injection Hstep as <- _. split; [done|]. by intros (? & ? & _). }
  split.
  - intros (exp & Hh & Hlt). apply (history_Some _ _ _ (ticket_event_decisive h)) in Hh
      as (l & ev & l' & -> & (ttl & Hst & ->)%ticket_event_set & Hl').
    exists l, ev, ttl, l'. split_and!; try done. intros ev' Hin. apply ticket_event_keep. by apply Hl'.
  - intros (l & ev & ttl & l' & -> & Hst & Hlt & Hl'). exists (expiry (ev_time ev) ttl). split; [|done].
    apply (history_Some _ _ _ (ticket_event_decisive h)). exists l, ev, l'. split_and!; [done| |].
    + apply ticket_event_set. by exists ttl.
    + intros ev' Hin. apply ticket_event_keep. by apply Hl'.
Qed.

Lemma room_event_decisive id : decisive (room_event id).
Proof.
  intros ev. rw /room_event. destruct (ev_call ev); try by left.
  - destruct (ev_answer ev) as [[]| | | |]; try by left. case_bool_decide; [right; by eexists|by left].
  - destruct (ev_answer ev) as [| | |[]|]; try by left. case_bool_decide; [right; by eexists|by left].
Qed.

(** A lease of the room granted, and an owner found missing. *)
Definition grants (id : Z) (node : string) (ttl : Z) (ev : RegEvent) : Prop :=
  ev_call ev = AssignRoom id node ttl ∧ ev_answer ev = Yes_no true.

Definition found_missing (id : Z) (ev : RegEvent) : Prop :=
  ev_call ev = RoomOwner id ∧ ev_answer ev = Owner None.

#[local] Instance found_missing_dec id ev : Decision (found_missing id ev).
Proof.
  rw /found_missing. destruct (ev_call ev) as [| | | |id'| |]; try by right; intros [? _].
  destruct (ev_answer ev) as [| | |[]|]; try by right; intros [_ ?].
  destruct (decide (id' = id)); [left; by subst|right; intros [? _]; congruence].
Defined.

Lemma room_event_keep id ev :
  (∀ node ttl, ¬ grants id node ttl ev) → ¬ found_missing id ev → ∀ o, room_event id ev o = o.
Proof.
  rw /room_event /grants /found_missing. intros Hg Hm o. destruct (ev_call ev) as [| | |i n t|i| |]; try done.
  - destruct (ev_answer ev) as [[]| | | |]; try done. case_bool_decide; [|done]. subst. by destruct (Hg n t).
  - destruct (ev_answer ev) as [| | |[]|]; try done. case_bool_decide; [|done]. subst. by destruct Hm.
Qed.

(** The lease stands through events that neither grant another one nor find the
    owner missing. *)
Lemma history_lease id node ttl evs1 ev mid :
  grants id node ttl ev →
  (∀ e, e ∈ mid → (∀ n t, ¬ grants id n t e) ∧ ¬ found_missing id e) →
  history (room_event id) (evs1 ++ ev :: mid) = Some (mkExpiring node (expiry (ev_time ev) ttl)).
Proof.
  intros [Hc Ha] Hmid. apply (history_Some _ _ _ (room_event_decisive id)).
  exists evs1, ev, mid. split_and!; [done| |].
  - intros o. by rw /room_event Hc Ha bool_decide_eq_true_2.
  - intros e [Hg Hm]%Hmid. by apply room_event_keep.
Qed.

Lemma first_missing id (mid : list RegEvent) :
  (∀ e, e ∈ mid → ¬ found_missing id e) ∨
  ∃ a ev b, mid = a ++ ev :: b ∧ found_missing id ev ∧ ∀ e, e ∈ a → ¬ found_missing id e.
Proof.
  induction mid as [|e mid IH]; [left; by intros e ?%not_elem_of_nil|].
  destruct (decide (found_missing id e)) as [He|He].
  { right. exists [], e, mid. split_and!; [done|done|]. by intros ? ?%not_elem_of_nil. }
  destruct IH as [IH|(a & ev & b & -> & Hev & Ha)].
  - left. intros e' [->|?]%elem_of_cons; [done|by apply IH].
  - right. exists (e :: a), ev, b. split_and!; [done|done|].
    intros e' [->|?]%elem_of_cons; [done|by apply Ha].
Qed.

(** A table is leased to one node at a time: when a node is granted the
    lease of a table and the next lease goes to another node, the first one
    had expired, or the registry had found its owner without a live heartbeat
    in between. *)
Lemma leased_to_one_node k evs1 ev1 mid ev2 evs2 r id n1 ttl1 n2 ttl2 :
  reg_run (Registry_new k) (evs1 ++ ev1 :: mid ++ ev2 :: evs2) r →
  grants id n1 ttl1 ev1 → grants id n2 ttl2 ev2 → n1 ≠ n2 →
  (∀ ev, ev ∈ mid → ∀ n ttl, ¬ grants id n ttl ev) →
  expiry (ev_time ev1) ttl1 ≤ ev_time ev2 ∨
  ∃ a ev b, mid = a ++ ev :: b ∧ found_missing id ev ∧
    alive n1 (ev_time ev) (evs1 ++ ev1 :: a) = false.
Proof.
  intros Hrun Hg1 [Hc2 Ha2] Hne Hmid. destruct (first_missing id mid) as [Hnone|(a & ev & b & -> & [Hc Ha] & Hnone)].
  - left. change (evs1 ++ ev1 :: mid ++ ev2 :: evs2) with (evs1 ++ (ev1 :: mid) ++ ev2 :: evs2) in Hrun.
    rw app_assoc in Hrun. apply reg_run_split in Hrun as (r1 & r2 & Hi & Hnow & Hstep & _).
    rw Hc2 Ha2 /= /timed in Hstep. destruct (clock_now (reg_clock r1)) as [now k'] eqn:Hk.
    assert (now = ev_time ev2) as -> by by rw -Hnow /time_of Hk.
    rw /assignRoom_at (rg_rooms _ _ Hi id) (history_lease id n1 ttl1) // in Hstep.
    { intros e He. split; [by apply Hmid|by apply Hnone]. }
    destruct (_ || _); [done|]. rw /fresh_at /= (bool_decide_eq_false_2 (n1 = n2)) // in Hstep.
    destruct (Z.ltb_spec (ev_time ev2) (expiry (ev_time ev1) ttl1)); [done|lia].
  - assert (evs1 ++ ev1 :: (a ++ ev :: b) ++ ev2 :: evs2 =
            (evs1 ++ ev1 :: a) ++ ev :: b ++ ev2 :: evs2) as Heq by by rw -!app_assoc /= -?app_assoc.
    rw Heq in Hrun. pose proof Hrun as Hrun'.
    apply reg_run_split in Hrun as (r1 & r2 & Hi & Hnow & Hstep & _ & _ & Hafter).
    rw Hc Ha /= /timed in Hstep. destruct (clock_now (reg_clock r1)) as [now k'] eqn:Hk.
    assert (now = ev_time ev) as -> by by rw -Hnow /time_of Hk.
    rw /roomOwner_at (rg_rooms _ _ Hi id) (history_lease id n1 ttl1) // in Hstep.
    { intros e He. split; [|by apply Hnone]. apply Hmid, elem_of_app. by left. }
    destruct (fresh_at (ev_time ev) _) eqn:Hfr; cbn [negb orb] in Hstep.
    + right. exists a, ev, b. split_and!; [done|done|]. rw -(rg_nodes _ _ Hi); [lia|].
      cbn [ex_value] in Hstep. by destruct (nodeIsHealthy n1 (ev_time ev) (reg_data r1)).
    + left. apply Z.ltb_ge in Hfr. cbn in Hfr.
      assert (ev_time ev ≤ ev_time ev2); [|lia]. apply Hafter, elem_of_app. right. by left.
Qed.

(** Table ids. *)
Definition new_id (ev : RegEvent) : option Z :=
  match ev_answer ev with NewId o => o | _ => None end.

Lemma reg_step_ids c r a r' :
  reg_step c r = (a, r') → 
  (∃ o, a = NewId o ∧ (o, reg_data r') = allocate_id (reg_data r)) ∨
  ((∀ o, a ≠ NewId o) ∧ next_table_id_ (reg_data r') = next_table_id_ (reg_data r)).
Proof.
  intros Hstep. destruct c as [node ttl| | |id node ttl|id|h t ttl|h]; cbn in Hstep.
  - right. destruct (heartbeat_valid node ttl); [|by simplify_eq].
    rw /timed in Hstep. destruct (clock_now _) as [now k]. by simplify_eq/=.
  - right. rw /timed in Hstep. destruct (clock_now _) as [now k]. by simplify_eq/=.
  - left. rw /untimed in Hstep. destruct (allocate_id (reg_data r)) as [o d]. simplify_eq/=. by exists o.
  - right. rw /timed /assignRoom_at in Hstep. destruct (clock_now _) as [now k].
    destruct (_ || _); [by simplify_eq|]. destruct (match node_rooms_ (reg_data r) !! id with Some _ => _ | None => _ end); [by simplify_eq|].
    destruct (match node_rooms_ (reg_data r) !! id with Some _ => _ | None => _ end); by simplify_eq/=.
  - right. rw /timed /roomOwner_at in Hstep. destruct (clock_now _) as [now k].
    destruct (node_rooms_ (reg_data r) !! id); [|by simplify_eq]. destruct (_ || _); by simplify_eq/=.
  - right. destruct (ticket_valid h t ttl); [|by simplify_eq]. rw /timed /storeJoinTicket_at in Hstep.
    destruct (clock_now _) as [now k].
    destruct (match tickets_ (reg_data r) !! h with Some _ => _ | None => _ end); by simplify_eq/=.
  - right. rw /timed /consumeJoinTicket_at in Hstep. destruct (clock_now _) as [now k].
    destruct (tickets_ (reg_data r) !! h); by simplify_eq/=.
Qed.

(** The ids handed out for tables are pairwise distinct and never zero, for
    the whole life of a registry: when 64 bits are used up it refuses instead of
    starting over. *)
Lemma table_ids_distinct k evs r :
  reg_run (Registry_new k) evs r →
  NoDup (omap new_id evs) ∧ ∀ id, id ∈ omap new_id evs → 1000 ≤ id ≤ u64_max.
Proof.
  intros Hrun.
  cut (NoDup (omap new_id evs) ∧
    (next_table_id_ (reg_data r) = 0 ∨ 1000 ≤ next_table_id_ (reg_data r) ≤ u64_max) ∧
    ∀ id, id ∈ omap new_id evs → 1000 ≤ id ≤ u64_max ∧
      (next_table_id_ (reg_data r) = 0 ∨ id < next_table_id_ (reg_data r))).
  { intros (Hnd & _ & Hids). split; [done|]. intros id Hid. by destruct (Hids id Hid). }
  remember (Registry_new k) as r0 eqn:Hr0. induction Hrun as [|evs r c a r' Hrun IH Hstep]; subst r0.
  { split_and!; [by apply NoDup_nil_2|right; cbn; rw /u64_max; lia|by intros id ?%not_elem_of_nil]. }
  destruct IH as (Hnd & Hnext & Hids). rw omap_app.
  destruct (reg_step_ids _ _ _ _ Hstep) as [(o & -> & Ho)|(Ha & ->)]; last first.
  { assert (omap new_id [mkEvent (time_of r) c a] = []) as ->; [|by rw app_nil_r].
    rw /new_id /=. destruct a; try done. by destruct (Ha id). }
  rw /allocate_id in Ho. destruct (Z.eqb_spec (next_table_id_ (reg_data r)) 0) as [H0'|Hne].
  - injection Ho as -> Hd. rw Hd app_nil_r. by split_and!.
  - injection Ho as -> Hd. rw Hd. cbn. destruct Hnext as [?|Hnext]; [done|].
    assert (u64_succ (next_table_id_ (reg_data r)) = 0 ∨
            u64_succ (next_table_id_ (reg_data r)) = next_table_id_ (reg_data r) + 1 ∧
              next_table_id_ (reg_data r) + 1 ≤ u64_max) as Hsucc.
    { rw /u64_succ. destruct (decide (next_table_id_ (reg_data r) = u64_max)) as [->|].
      - by left; vm_compute.
      - right. split; [apply u64_small; rw /fits_u64|]; lia. }
    split_and!.
    + apply NoDup_app. split_and!; [done| |apply NoDup_singleton].
      intros id Hid ->%list_elem_of_singleton. destruct (Hids _ Hid) as [_ [?|?]]; [done|lia].
    + destruct Hsucc as [->|[-> ?]]; [by left|right; lia].
    + intros id [Hid| ->%list_elem_of_singleton]%elem_of_app.
      * destruct (Hids id Hid) as [? [?|?]]; [done|]. split; [done|]. destruct Hsucc as [->|[-> _]]; [by left|right; lia].
      * split; [done|]. destruct Hsucc as [->|[-> _]]; [by left|right; lia].
Qed.
End registry_histories.

(** ** Routing *)

(** The healthy nodes are the live ones, each once, least loaded first. *)
Lemma healthyNodes_spec {K} `{!Clock K} evs (r : InMemoryNodeRegistry K) l r' :
  reg_inv evs r → healthyNodes r = (l, r') →
  StronglySorted node_le l ∧ NoDup (ni_node_id <$> l) ∧
  (∀ n, n ∈ ni_node_id <$> l ↔ alive n (time_of r) evs = true).
Proof.
  intros Hi Hl. cbn in Hl. rw /timed /healthyNodes_at in Hl.
  destruct (clock_now (reg_clock r)) as [now k] eqn:Hk. injection Hl as <- _.
  assert (time_of r = now) as Hnow by by rw /time_of Hk.
  set (kept := filter (λ e, fresh_at now e.2 = true) (nodes_ (reg_data r))).
  set (infos := ex_value <$> (map_to_list kept).*2).
  assert (merge_sort node_le infos ≡ₚ infos) as Hperm by apply merge_sort_Permutation.
  assert (ni_node_id <$> infos = (map_to_list kept).*1) as Hnames.
  { rw /infos -!list_fmap_compose. apply list_fmap_ext. intros i [n e] He.
    apply list_elem_of_lookup_2, elem_of_map_to_list, map_lookup_filter_Some in He as [He _].
    exact (rg_names _ _ Hi n e He). }
  split_and!.
  - apply StronglySorted_merge_sort; apply _.
  - rw Hperm Hnames. apply NoDup_fst_map_to_list.
  - intros n. rw Hperm Hnames -(rg_nodes _ _ Hi n (time_of r)) // /nodeIsHealthy Hnow.
    rw list_elem_of_fmap. split.
    + intros ([n' e] & -> & He%elem_of_map_to_list%map_lookup_filter_Some). cbn.
      destruct He as [-> Hf]. done.
    + destruct (nodes_ (reg_data r) !! n) as [e|] eqn:He; [|done]. intros Hf. exists (n, e).
      split; [done|]. by apply elem_of_map_to_list, map_lookup_filter_Some.
Qed.

Lemma node_named_spec name nodes node :
  node_named name nodes = Some node → node ∈ nodes ∧ ni_node_id node = name.
Proof.
  intros [Hin Hb]%find_some. split; [by apply list_elem_of_In|]. by apply bool_decide_eq_true in Hb.
Qed.

Section routing.
  Context {K C : Type} `{!Clock K, !CryptoProvider C}.
  Context (clock_mono : ∀ k : K, (clock_now k).1 ≤ (clock_now (clock_now k).2).1).
  Implicit Types (l : LobbyRouter) (r : InMemoryNodeRegistry K) (c : C).

Lemma run_event_time k evs ev evs' r :
  reg_run (Registry_new k) (evs ++ ev :: evs') r → ev_time ev ≤ time_of r.
Proof.
  intros Hrun. apply (rg_times _ _ (reg_run_inv clock_mono _ _ _ Hrun)).
  apply elem_of_app. right. by left.
Qed.

(** What [issue] does to the registry: nothing, or one stored ticket. *)
Lemma issue_run l node id u r c o r' c' r0 evs :
  reg_run r0 evs r → issue l node id u (r, c) = (o, (r', c')) →
  ∃ b, reg_run r0 (evs ++ [mkEvent (time_of r)
      (StoreJoinTicket (hashSessionToken (generateSessionToken c).1) (mkTicket u id)
         (ticket_ttl_seconds_ l)) (Yes_no b)]) r' ∧
    o = if b then Some (mkRoute node (generateSessionToken c).1) else None.
Proof.
  intros Hrun Hi. rw /issue in Hi. cbn [fst snd] in Hi.
  destruct (generateSessionToken c) as [raw c1]. cbn [fst].
  destruct (storeJoinTicket (hashSessionToken raw) (mkTicket u id) (ticket_ttl_seconds_ l) r)
    as [b r1] eqn:Hs. injection Hi as <- <- <-. exists b. split; [|done].
  apply (run_snoc _ _ _ _ _ _ Hrun). cbn [reg_step]. by rw Hs.
Qed.

(** The ticket of a routed player will be honoured. *)
Lemma routed_ticket k evs t h ticket ttl evs2 now2 o2 r2 :
  reg_run (Registry_new k) (((evs ++ [mkEvent t (StoreJoinTicket h ticket ttl) (Yes_no true)]) ++ evs2)
    ++ [mkEvent now2 (ConsumeJoinTicket h) (Ticket o2)]) r2 →
  (∀ ev, ev ∈ evs2 → ¬ touches h ev) →
  o2 = if now2 <? expiry t ttl then Some ticket else None.
Proof.
  intros Hrun Hquiet. apply (reg_run_split clock_mono) in Hrun as (r1 & r3 & Hi & Hnow & Hstep & _).
  cbn in Hnow, Hstep. rw /timed /consumeJoinTicket_at (rg_tickets _ _ Hi h) in Hstep.
  destruct (clock_now (reg_clock r1)) as [now' k'] eqn:Hk.
  assert (now' = now2) as -> by by rw -Hnow /time_of Hk.
  assert (history (ticket_event h) ((evs ++ [mkEvent t (StoreJoinTicket h ticket ttl) (Yes_no true)]) ++ evs2)
          = Some (mkExpiring ticket (expiry t ttl))) as Hh.
  { apply (history_Some _ _ _ (ticket_event_decisive h)).
    exists evs, (mkEvent t (StoreJoinTicket h ticket ttl) (Yes_no true)), evs2.
    split_and!; [by rw -app_assoc| |].
    - apply ticket_event_set. exists ttl. by split.
    - intros ev Hev. by apply ticket_event_keep, Hquiet. }
  rw Hh /fresh_at /= in Hstep. by injection Hstep as <- _.
Qed.

(** A registry call of the router, as an event. *)
Lemma call_run r0 evs r c call {A} (f : InMemoryNodeRegistry K → A * InMemoryNodeRegistry K)
    (wrap : A → RegAnswer) a st :
  (∀ r, reg_step call r = let '(a, r) := f r in (wrap a, r)) →
  reg_run r0 evs r → on_registry f (r, c) = (a, st) →
  ∃ r', st = (r', c) ∧ f r = (a, r') ∧ reg_run r0 (evs ++ [mkEvent (time_of r) call (wrap a)]) r'.
Proof.
  intros Hf Hrun Hon. rw /on_registry /= in Hon. destruct (f r) as [a1 r1] eqn:Hr. injection Hon as <- <-.
  exists r1. split_and!; [done|done|]. apply (run_snoc _ _ _ _ _ _ Hrun). by rw Hf Hr.
Qed.

(** Where a route sends a player: a node that was live when looked up and that
    holds the lease of the table. *)
Definition leads_to (id : Z) (node : NodeInfo) (evs : list RegEvent) : Prop :=
  (∃ t, alive (ni_node_id node) t evs = true ∧ ∃ ev, ev ∈ evs ∧ ev_time ev = t ∧ ev_call ev = HealthyNodes) ∧
  ∃ e, history (room_event id) evs = Some e ∧ ex_value e = ni_node_id node.

Lemma leads_to_store id node evs t h ticket ttl b :
  leads_to id node evs → leads_to id node (evs ++ [mkEvent t (StoreJoinTicket h ticket ttl) (Yes_no b)]).
Proof.
  intros [(t1 & Ha & ev & Hev & Ht & Hc) (e & He & Hv)]. split.
  - exists t1. rw alive_snoc; [by destruct b|]. split; [done|]. exists ev. split_and!; [|done|done].
    apply elem_of_app. by left.
  - exists e. split; [|done]. rw history_snoc. by destruct b.
Qed.

Lemma healthy_alive k evs r nodes r' node :
  reg_run (Registry_new k) evs r → healthyNodes r = (nodes, r') → node ∈ nodes →
  alive (ni_node_id node) (time_of r) (evs ++ [mkEvent (time_of r) HealthyNodes (Nodes nodes)]) = true.
Proof.
  intros Hrun Hh Hin. destruct (healthyNodes_spec evs r nodes r') as (_ & _ & Ha); [by eapply reg_run_inv|done|].
  rw alive_snoc //. apply Ha, list_elem_of_fmap. by exists node.
Qed.

(** A lease granted to a node just found live. *)
Lemma leads_to_granted id node evs t nodes t' ttl :
  alive (ni_node_id node) t (evs ++ [mkEvent t HealthyNodes (Nodes nodes)]) = true →
  leads_to id node ((evs ++ [mkEvent t HealthyNodes (Nodes nodes)]) ++
    [mkEvent t' (AssignRoom id (ni_node_id node) ttl) (Yes_no true)]).
Proof.
  intros Ha. split.
  - exists t. rw alive_snoc //. split; [done|]. exists (mkEvent t HealthyNodes (Nodes nodes)).
    split_and!; [set_solver|done|done].
  - exists (mkExpiring (ni_node_id node) (expiry t' ttl)). split; [|done].
    rw history_snoc /room_event /=. by rw bool_decide_eq_true_2.
Qed.

(** A lease that already stands. *)
Lemma leads_to_owner k id node evs (r1 r2 : InMemoryNodeRegistry K) nodes e :
  history (room_event id) evs = Some e → ex_value e = ni_node_id node →
  reg_run (Registry_new k) evs r1 → healthyNodes r1 = (nodes, r2) → node ∈ nodes →
  leads_to id node (evs ++ [mkEvent (time_of r1) HealthyNodes (Nodes nodes)]).
Proof.
  intros He Hv Hrun Hh Hin. split.
  - exists (time_of r1). split; [by eapply healthy_alive|].
    exists (mkEvent (time_of r1) HealthyNodes (Nodes nodes)). split_and!; [set_solver|done|done].
  - exists e. split; [|done]. by rw history_snoc.
Qed.

Lemma owner_leased k evs r id owner r1 :
  reg_run (Registry_new k) evs r → roomOwner id r = (Some owner, r1) →
  ∃ e, history (room_event id) (evs ++ [mkEvent (time_of r) (RoomOwner id) (Owner (Some owner))]) = Some e
    ∧ ex_value e = owner.
Proof.
  intros Hrun Hown. pose proof (reg_run_inv clock_mono k evs r Hrun) as Hi.
  cbn in Hown. rw /timed /roomOwner_at (rg_rooms _ _ Hi id) in Hown.
  destruct (clock_now (reg_clock r)) as [now k']. destruct (history (room_event id) evs) as [e|] eqn:He; [|done].
  destruct (_ || _); [done|]. exists e. rw history_snoc /room_event /= He. by simplify_eq.
Qed.

Definition routes l (id u : Z) (st : InMemoryNodeRegistry K * C) a st' : Prop :=
  assignNewTable l id u st = (Some a, st') ∨ ∃ expected, routeExistingTable l id u expected st = (Some a, st').

Lemma routes_run k evs r c l id u a r' c' :
  reg_run (Registry_new k) evs r → routes l id u (r, c) a (r', c') →
  ∃ evs1 r1 c1, reg_run (Registry_new k) (evs ++ evs1) r1 ∧ leads_to id (ra_node a) (evs ++ evs1) ∧
    time_of r ≤ time_of r1 ∧ issue l (ra_node a) id u (r1, c1) = (Some a, (r', c')).
Proof.
  assert (∀ node r3 c3, issue l node id u (r3, c3) = (Some a, (r', c')) → ra_node a = node) as Hissue.
  { intros node r3 c3 Hi. rw /issue in Hi. cbn [fst snd] in Hi. destruct (generateSessionToken c3) as [raw c4].
    destruct (storeJoinTicket (hashSessionToken raw) (mkTicket u id) (ticket_ttl_seconds_ l) r3)
      as [[] r4]; by simplify_eq/=. }
  intros Hrun [Hr|(expected & Hr)].
  - rw /assignNewTable in Hr. destruct (on_registry healthyNodes (r, c)) as [nodes st] eqn:Hn.
    destruct (call_run _ evs r c HealthyNodes healthyNodes Nodes _ _ (λ _, eq_refl) Hrun Hn)
      as (r1 & -> & Hh & Hrun1).
    destruct (_ || _); [done|]. destruct nodes as [|node rest]; [done|].
    destruct (on_registry _ (r1, c)) as [b st] eqn:Hb.
    destruct (call_run _ _ r1 c (AssignRoom id (ni_node_id node) (room_ttl_seconds_ l)) _ Yes_no _ _
      (λ _, eq_refl) Hrun1 Hb) as (r2 & -> & _ & Hrun2).
    destruct b; [|done]. rw -app_assoc in Hrun2. eexists _, r2, c. rw (Hissue _ _ _ Hr).
    split_and!; [exact Hrun2| |by apply run_event_time in Hrun2|done]. rw app_assoc.
    eapply leads_to_granted, healthy_alive; [done..|by left].
  - rw /routeExistingTable in Hr. destruct (_ || _); [done|].
    destruct (on_registry (roomOwner id) (r, c)) as [owner st] eqn:Ho.
    destruct (call_run _ evs r c (RoomOwner id) _ Owner _ _ (λ _, eq_refl) Hrun Ho)
      as (r1 & -> & Hown & Hrun1).
    destruct (on_registry healthyNodes (r1, c)) as [nodes st] eqn:Hn.
    destruct (call_run _ _ r1 c HealthyNodes healthyNodes Nodes _ _ (λ _, eq_refl) Hrun1 Hn)
      as (r2 & -> & Hh & Hrun2).
    rw /claim_owner in Hr. destruct owner as [owner|].
    + destruct (_ && _); [done|]. destruct (node_named owner nodes) as [node|] eqn:Hnode; [|done].
      apply node_named_spec in Hnode as [Hin <-]. rw (Hissue _ _ _ Hr).
      rw -app_assoc in Hrun2. eexists _, r2, c. split_and!; [exact Hrun2| |by apply run_event_time in Hrun2|done]. rw app_assoc.
      destruct (owner_leased k evs r id _ r1 Hrun Hown) as (e & He & Hv). by eapply leads_to_owner.
    + case_bool_decide; [done|]. destruct (node_named expected nodes) as [n0|] eqn:Hn0; [|done].
      destruct (on_registry _ (r2, c)) as [b st] eqn:Hb.
      destruct (call_run _ _ r2 c (AssignRoom id expected (room_ttl_seconds_ l)) _ Yes_no _ _
        (λ _, eq_refl) Hrun2 Hb) as (r3 & -> & _ & Hrun3).
      destruct b; [|done]. destruct (_ && _); [done|]. rw Hn0 in Hr.
      apply node_named_spec in Hn0 as [Hin Hname]. rw (Hissue _ _ _ Hr).
      rw -Hname -!app_assoc in Hrun3. eexists _, r3, c. split_and!; [exact Hrun3| |by apply run_event_time in Hrun3|done].
      rw !app_assoc. by eapply leads_to_granted, healthy_alive.
Qed.

(** A new table goes to the least loaded live node. *)
Lemma assignNewTable_least l id u r c a st k evs :
  reg_run (Registry_new k) evs r → assignNewTable l id u (r, c) = (Some a, st) →
  ∀ n e, nodes_ (reg_data r) !! n = Some e → fresh_at (time_of r) e = true →
    node_le (ra_node a) (ex_value e).
Proof.
  intros Hrun Hr n e Hn He. rw /assignNewTable in Hr.
  destruct (on_registry healthyNodes (r, c)) as [nodes st1] eqn:Hh.
  destruct (call_run _ evs r c HealthyNodes healthyNodes Nodes _ _ (λ _, eq_refl) Hrun Hh)
    as (r1 & -> & Hh1 & _).
  destruct (_ || _); [done|]. destruct nodes as [|node rest]; [done|].
  destruct (on_registry _ (r1, c)) as [b [r2 c2]]. destruct b; [|done].
  assert (ra_node a = node) as ->.
  { rw /issue in Hr. cbn [fst snd] in Hr. destruct (generateSessionToken c2) as [raw c4].
    destruct (storeJoinTicket (hashSessionToken raw) (mkTicket u id) (ticket_ttl_seconds_ l) r2)
      as [[] r4]; by simplify_eq/=. }
  cbn in Hh1. rw /timed /healthyNodes_at in Hh1. rw /time_of in He.
  destruct (clock_now (reg_clock r)) as [now k'].
  assert (ex_value e ∈ node :: rest) as Hin.
  { injection Hh1 as <- _. rw merge_sort_Permutation. apply list_elem_of_fmap. exists e. split; [done|].
    apply list_elem_of_fmap. exists (n, e). split; [done|].
    by apply elem_of_map_to_list, map_lookup_filter_Some. }
  assert (StronglySorted node_le (node :: rest)) as Hs.
  { injection Hh1 as <- _. apply StronglySorted_merge_sort; apply _. }
  apply StronglySorted_inv in Hs as [_ Hall]. apply elem_of_cons in Hin as [<-|Hin].
  - rw /node_le. destruct (node_lt (ex_value e) (ex_value e)) eqn:Hx; [|done].
    apply node_lt_iff in Hx. rw String_ltb_irrefl in Hx. intuition lia.
  - by rw Forall_forall in Hall; apply Hall.
Qed.

(** Routing and admission agree. When the router answers a request for a
    new or an existing table, the node it names was live and holds the lease of
    the table, a new table's node is the least loaded of the live ones, and the
    ticket it hands out, asked for by its hash later, admits exactly this user
    to this table, until it expires, as long as nobody asked for it before. *)
Lemma routed_players_admitted k evs r c l id u a r' c' :
  reg_run (Registry_new k) evs r → routes l id u (r, c) a (r', c') →
  (assignNewTable l id u (r, c) = (Some a, (r', c')) →
     ∀ n e, nodes_ (reg_data r) !! n = Some e → fresh_at (time_of r) e = true →
       node_le (ra_node a) (ex_value e)) ∧
  ∃ evs' t, reg_run (Registry_new k) (evs ++ evs') r' ∧ leads_to id (ra_node a) (evs ++ evs') ∧
    time_of r ≤ t ∧
    ∀ evs2 now2 o2 r2,
      reg_run (Registry_new k) ((evs ++ evs') ++ evs2 ++
        [mkEvent now2 (ConsumeJoinTicket (hashSessionToken (ra_join_ticket a))) (Ticket o2)]) r2 →
      (∀ ev, ev ∈ evs2 → ¬ touches (hashSessionToken (ra_join_ticket a)) ev) →
      o2 = if now2 <? expiry t (ticket_ttl_seconds_ l) then Some (mkTicket u id) else None.
Proof.
  intros Hrun Hr. split; [by intros Hnew; eapply assignNewTable_least|].
  destruct (routes_run k evs r c l id u a r' c' Hrun Hr) as (evs1 & r1 & c1 & Hrun1 & Hto & Htime & Hissue).
  destruct (issue_run _ _ _ _ _ _ _ _ _ _ _ Hrun1 Hissue) as (b & Hrun2 & Ha).
  destruct b; [|done]. injection Ha as ->. cbn [ra_node ra_join_ticket] in *.
  eexists (evs1 ++ [_]), (time_of r1). rw app_assoc. split_and!; [exact Hrun2|by apply leads_to_store|done|].
  intros evs2 now2 o2 r2 Hrun3 Hq. rw app_assoc in Hrun3. by eapply routed_ticket.
Qed.
End routing.

(** ** A concrete run *)

(** The history of a list of calls, computed. *)
Fixpoint reg_calls {K} `{!Clock K} (calls : list RegCall) (evs : list RegEvent)
    (r : InMemoryNodeRegistry K) : list RegEvent * InMemoryNodeRegistry K :=
  match calls with
  | [] => (evs, r)
  | c :: calls =>
      let '(a, r') := reg_step c r in reg_calls calls (evs ++ [mkEvent (time_of r) c a]) r'
  end.

Lemma reg_calls_run {K} `{!Clock K} calls r0 evs (r : InMemoryNodeRegistry K) :
  reg_run r0 evs r → reg_run r0 (reg_calls calls evs r).1 (reg_calls calls evs r).2.
Proof.
  revert evs r. induction calls as [|c calls IH]; intros evs r Hrun; cbn [reg_calls]; [done|].
  destruct (reg_step c r) as [a r'] eqn:Hs. apply IH. by apply (run_snoc _ _ _ _ _ _ Hrun).
Qed.

Module ClusterDemo.
(** A clock that advances by one per reading; tokens that count up. *)
#[local] Instance ticking : Clock Z := λ k, (k, k + 1).
#[local] Instance demo_crypto : CryptoProvider nat := {
  hashPassword p c := (Ok p, c);
  verifyPassword p h := String.eqb p h;
  generateSessionToken c := (String.String (Ascii.ascii_of_nat (65 + c)) "", Datatypes.S c);
  hashSessionToken t := ("k" ++ t)%string;
}.

Lemma ticking_mono (k : Z) : (clock_now k).1 ≤ (clock_now (clock_now k).2).1.
Proof. cbn. lia. Qed.

Definition n1 := mkNode "a" "a:1" 2 0.
Definition n2 := mkNode "b" "b:1" 1 5.
Definition r0 : InMemoryNodeRegistry Z := Registry_new 0.
Definition ticket := mkTicket 7 1000.

Definition calls : list RegCall :=
  [Heartbeat n1 1; Heartbeat n2 60; AllocateTableId; AssignRoom 1000 "a" 60;
   StoreJoinTicket "kx" ticket 30; AllocateTableId; ConsumeJoinTicket "kx"; ConsumeJoinTicket "kx"].
Definition evs := Eval vm_compute in (reg_calls calls [] r0).1.
Definition r8 := (reg_calls calls [] r0).2.

Lemma run8 : reg_run r0 evs r8.
Proof. exact (reg_calls_run calls r0 [] r0 (run_nil _)). Qed.

Lemma tickets_redeemed_once_witness :
  evs !! 6%nat = Some (mkEvent 4 (ConsumeJoinTicket "kx") (Ticket (Some ticket))) ∧
  ∃ l ev ttl l', take 6 evs = l ++ ev :: l' ∧ stores "kx" ticket ttl ev ∧ 4 < expiry (ev_time ev) ttl.
Proof.
  split; [reflexivity|].
  destruct (proj1 (tickets_redeemed_once ticking_mono 0 (take 6 evs) 4 "kx" (Some ticket)
    (drop 7 evs) r8 ticket run8) eq_refl) as (l & ev & ttl & l' & H1 & H2 & H3 & _).
  exists l, ev, ttl, l'. exact (conj H1 (conj H2 H3)).
Defined.

Lemma table_ids_distinct_witness : NoDup [1000; 1001].
Proof. exact (proj1 (table_ids_distinct 0 evs r8 run8)). Defined.

(** The lease of table 1000 goes to another node when the first is found dead. *)
Definition jump : Clock Z := λ k, (k, k + 60000).
Definition calls3 : list RegCall :=
  [Heartbeat n1 90; AssignRoom 1000 "a" 600; HealthyNodes; Heartbeat n2 300; RoomOwner 1000;
   AssignRoom 1000 "b" 60].
Definition evs3 := Eval vm_compute in (reg_calls (Clock0 := jump) calls3 [] r0).1.
Definition r3 := (reg_calls (Clock0 := jump) calls3 [] r0).2.

Lemma run3 : reg_run (Clock0 := jump) r0 evs3 r3.
Proof. exact (reg_calls_run (Clock0 := jump) calls3 r0 [] r0 (run_nil (Clock0 := jump) _)). Qed.

Lemma leased_to_one_node_witness :
  expiry 60000 600 ≤ 300000 ∨
  ∃ a ev b, take 3 (drop 2 evs3) = a ++ ev :: b ∧ found_missing 1000 ev.
Proof.
  destruct (leased_to_one_node (Clock0 := jump) (λ k, ltac:(cbn; lia)) 0 (take 1 evs3)
    (mkEvent 60000 (AssignRoom 1000 "a" 600) (Yes_no true)) (take 3 (drop 2 evs3))
    (mkEvent 300000 (AssignRoom 1000 "b" 60) (Yes_no true)) [] r3 1000 "a" 600 "b" 60)
    as [H|(a & ev & b & H1 & H2 & _)].
  - exact run3.
  - split; reflexivity.
  - split; reflexivity.
  - discriminate.
  - intros ev Hev n ttl [Hc Ha]. cbn in Hev.
    repeat (apply elem_of_cons in Hev as [->|Hev]; [discriminate Hc|]).
    by apply not_elem_of_nil in Hev.
  - left. exact H.
  - right. exists a, ev, b. exact (conj H1 H2).
Defined.

(** A user creates a table; the less loaded node gets it. *)
Definition r2 := (reg_calls [Heartbeat n1 60; Heartbeat n2 60] [] r0).2.
Definition evs2 := Eval vm_compute in (reg_calls [Heartbeat n1 60; Heartbeat n2 60] [] r0).1.
Definition routed := assignNewTable LobbyRouter_default 1000 7 (r2, 0%nat).

Lemma run2 : reg_run r0 evs2 r2.
Proof. exact (reg_calls_run [Heartbeat n1 60; Heartbeat n2 60] r0 [] r0 (run_nil _)). Qed.

Lemma routed_players_admitted_witness :
  routed.1 = Some (mkRoute n2 "A") ∧
  ∃ evs' t, reg_run r0 (evs2 ++ evs') routed.2.1 ∧ leads_to 1000 n2 (evs2 ++ evs') ∧ 2 ≤ t.
Proof.
  assert (assignNewTable LobbyRouter_default 1000 7 (r2, 0%nat)
          = (Some (mkRoute n2 "A"), (routed.2.1, routed.2.2))) as Hr by (vm_compute; reflexivity).
  split; [vm_compute; reflexivity|].
  destruct (routed_players_admitted ticking_mono 0 evs2 r2 0%nat LobbyRouter_default 1000 7
    (mkRoute n2 "A") routed.2.1 routed.2.2 run2 (or_introl Hr))
    as (_ & evs' & t & H1 & H2 & H3 & _).
  exists evs', t. exact (conj H1 (conj H2 H3)).
Defined.
End ClusterDemo.
