(* ===== verification/ReaperTheorems.v ===== *)
(** * What the failure reaper guarantees

    Over any run of sweeps, whatever the registry and the store do in between:
    a table is given up exactly when its node has been missing from every look
    at the registry for the grace period. *)
From S2P Require Import Prelude AccountStore Auth Table GameStore Cluster.

Section reaper_theorems.
  Context {R G K : Type} `{!NodeRegistry R, !GameStore G, !Clock K}.
  Implicit Types (p : NodeFailureReaper K) (r : R) (g : G).

(** ** One sweep *)

(** What a sweep that got as far as the registry saw and did; [None] when the
    store did not answer. *)
Record Sweep := mkSweep {
  sw_now : Z;
  sw_healthy : list string;
  sw_tables : option (list TableRecord);
  sw_result : ReapResult;
}.

Definition given_up (id : Z) (res : ReapResult) : Prop :=
  id ∈ refunded_tables res ∨ id ∈ failed_tables res.

(** A table of a node that is away in a sweep. *)
Definition away (n : string) (s : Sweep) : Prop := n ∉ sw_healthy s.

Definition lists (n : string) (s : Sweep) : Prop :=
  ∃ tables table, sw_tables s = Some tables ∧ table ∈ tables ∧ node_id table = n.

#[local] Instance lists_dec n s : Decision (lists n s).
Proof.
  rw /lists. destruct (sw_tables s) as [tables|]; [|right; by intros (? & ? & ? & _)].
  destruct (decide (n ∈ node_id <$> tables)) as [Hin|Hout].
  - left. apply list_elem_of_fmap in Hin as (t & -> & Ht). by exists tables, t.
  - right. intros (l & t & [= <-] & Ht & <-). apply Hout, list_elem_of_fmap. by exists t.
Defined.

(** The reaper's memory of a node after a sweep. *)
Definition miss_event (n : string) (s : Sweep) (o : option Z) : option Z :=
  if bool_decide (n ∈ sw_healthy s) then None
  else match o with
  | Some since => Some since
  | None => if bool_decide (lists n s) then Some (sw_now s) else None
  end.

(** One table: the memory starts to count for its node, or the table is given up. *)
Lemma sweep_table_spec now grace healthy table m g res :
  0 < grace →
  ∃ m1 g1 res1, sweep_table now grace healthy table (m, g, res) = (m1, g1, res1) ∧
    (∀ n, m1 !! n = match m !! n with
       | Some since => Some since
       | None => if bool_decide (n ∉ healthy ∧ n = node_id table) then Some now else None
       end) ∧
    (∀ id, given_up id res1 ↔ given_up id res ∨
       ∃ since, table_id table = id ∧ node_id table ∉ healthy ∧
         m !! node_id table = Some since ∧ grace ≤ now - since).
Proof.
  intros Hgrace. rw /sweep_table. case_bool_decide as Hh.
  { exists m, g, res. split_and!; [done| |].
    - intros n. destruct (m !! n); [done|]. rw bool_decide_eq_false_2 //. by intros [? ->].
    - intros id. split; [by left|]. by intros [?|(s & _ & ? & _)]. }
  destruct (m !! node_id table) as [since|] eqn:Hm.
  - destruct (Z.ltb_spec (now - since) grace) as [Hlt|Hge].
    + exists m, g, res. split_and!; [done| |].
      * intros n. destruct (m !! n) eqn:Hn; [done|]. rw bool_decide_eq_false_2 //. intros [_ ->]. congruence.
      * intros id. split; [by left|]. intros [?|(s & _ & _ & [= ->] & ?)]; [done|lia].
    + destruct (gs_abortTableAndRefund (table_id table) g) as [e g1].
      assert (∀ n, m !! n = match m !! n with
        | Some since => Some since
        | None => if bool_decide (n ∉ healthy ∧ n = node_id table) then Some now else None end) as Hkeep.
      { intros n. destruct (m !! n) eqn:Hn; [done|]. rw bool_decide_eq_false_2 //. intros [_ ->]. congruence. }
      case_bool_decide.
      * exists m, g1, (mkReap (refunded_tables res ++ [table_id table]) (failed_tables res)).
        split_and!; [done|done|]. intros id. rw /given_up /= elem_of_app list_elem_of_singleton.
        split; [intros [[?| ->]|?]; [tauto| |tauto]; right; by exists since|].
        intros [?|(s & <- & _)]; tauto.
      * exists m, g1, (mkReap (refunded_tables res) (failed_tables res ++ [table_id table])).
        split_and!; [done|done|]. intros id. rw /given_up /= elem_of_app list_elem_of_singleton.
        split; [intros [?|[?| ->]]; [tauto|tauto|]; right; by exists since|].
        intros [?|(s & <- & _)]; tauto.
  - exists (<[node_id table := now]> m), g, res. split_and!; [done| |].
    + intros n. rw lookup_insert. case_decide as Hn; [subst; rw Hm bool_decide_eq_true_2 //|].
      destruct (m !! n); [done|]. rw bool_decide_eq_false_2 //. by intros [_ ->].
    + intros id. split; [by left|]. intros [?|(s & _ & _ & ? & _)]; congruence.
Qed.

Lemma sweep_tables now grace healthy tables m g res m' g' res' :
  0 < grace →
  foldl (λ st table, sweep_table now grace healthy table st) (m, g, res) tables = (m', g', res') →
  (∀ n, m' !! n = match m !! n with
     | Some since => Some since
     | None => if bool_decide (n ∉ healthy ∧ n ∈ node_id <$> tables) then Some now else None
     end) ∧
  (∀ id, given_up id res' ↔ given_up id res ∨
     ∃ table since, table ∈ tables ∧ table_id table = id ∧ node_id table ∉ healthy ∧
       m !! node_id table = Some since ∧ grace ≤ now - since).
Proof.
  intros Hgrace. revert m g res. induction tables as [|table tables IH]; intros m g res Hf; cbn in Hf.
  { simplify_eq. split.
    - intros n. destruct (m' !! n); [done|]. rw bool_decide_eq_false_2 //.
      by intros [_ ?%not_elem_of_nil].
    - intros id. split; [by left|]. intros [?|(t & since & ?%not_elem_of_nil & _)]; done. }
  destruct (sweep_table_spec now grace healthy table m g res Hgrace) as (m1 & g1 & res1 & Hs & Hm1 & Hres1).
  change (foldl (λ st table, sweep_table now grace healthy table st)
    (sweep_table now grace healthy table (m, g, res)) tables = (m', g', res')) in Hf.
  rw Hs in Hf. destruct (IH _ _ _ Hf) as [Hm' Hres']. split.
  - intros n. rw Hm' Hm1. destruct (m !! n); [done|]. rw fmap_cons. destruct (decide (n ∈ healthy)) as [Hin|Hout].
    { rw !bool_decide_eq_false_2 //; tauto. }
    case_bool_decide as H1.
    + rw bool_decide_eq_true_2 //. split; [done|]. rw elem_of_cons. tauto.
    + case_bool_decide as H2; [rw bool_decide_eq_true_2 //; rw elem_of_cons; tauto|].
      rw bool_decide_eq_false_2 //. rw elem_of_cons. tauto.
  - intros id. rw Hres' Hres1. split.
    + intros [[?|(s & Hid & Hh & Hm & Hge)]|(t & s & Ht & Hid & Hh & Hm & Hge)].
      * by left.
      * right. exists table, s. split_and!; try done. by left.
      * right. rw Hm1 in Hm. destruct (m !! node_id t) as [s'|] eqn:Hmt.
        -- injection Hm as <-. exists t, s'. split_and!; try done. by right.
        -- case_bool_decide; simplify_eq. lia.
    + intros [?|(t & s & [->|Ht]%elem_of_cons & Hid & Hh & Hm & Hge)].
      * left. by left.
      * left. right. by exists s.
      * right. exists t, s. split_and!; try done. by rw Hm1 Hm.
Qed.

(** The event of a sweep; a registry that does not answer leaves none. *)
Definition sweep_event p r g : option Sweep :=
  let '(alive, r1) := ping r in
  if alive then
    let tables := (gs_listOpenTables 200 g).1 in
    Some (mkSweep (clock_now (reaper_clock p)).1 (ni_node_id <$> (healthyNodes r1).1)
            (if sr_bool tables then Some (default [] (sr_value tables)) else None)
            (sweep p r g).1)
  else None.

Lemma delete_nodes (nodes : list NodeInfo) (m : gmap string Z) n :
  foldl (λ m n, delete (ni_node_id n) m) m nodes !! n =
  if bool_decide (n ∈ ni_node_id <$> nodes) then None else m !! n.
Proof.
  revert m. induction nodes as [|node nodes IH]; intros m; cbn [foldl fmap list_fmap].
  { rw bool_decide_eq_false_2 //. apply not_elem_of_nil. }
  rw IH lookup_delete. case_bool_decide as H1.
  - rw bool_decide_eq_true_2 //. by right.
  - case_decide as H2; [subst n; rw bool_decide_eq_true_2 //; by left|].
    rw bool_decide_eq_false_2 //. intros [?|?]%elem_of_cons; [by apply H2|done].
Qed.

Lemma sweep_spec p r g res p' r' g' :
  0 < grace_period_ms_ p → sweep p r g = (res, (p', r', g')) →
  grace_period_ms_ p' = grace_period_ms_ p ∧
  match sweep_event p r g with
  | None => missing_since_ p' = missing_since_ p ∧ ∀ id, ¬ given_up id res
  | Some s => sw_result s = res ∧
      (∀ n, missing_since_ p' !! n = miss_event n s (missing_since_ p !! n)) ∧
      ∀ id, given_up id res ↔ ∃ tables table since, sw_tables s = Some tables ∧ table ∈ tables ∧
        table_id table = id ∧ away (node_id table) s ∧
        missing_since_ p !! node_id table = Some since ∧ grace_period_ms_ p ≤ sw_now s - since
  end.
Proof.
  intros Hgrace Hs. rw /sweep_event. rw Hs. rw /sweep in Hs.
  assert (∀ id, ¬ given_up id (mkReap [] [])) as Hnone.
  { intros id [?%not_elem_of_nil|?%not_elem_of_nil]; done. }
  destruct (ping r) as [[] r1]; cbn [negb] in Hs; [|by simplify_eq].
  destruct (clock_now (reaper_clock p)) as [now k]. destruct (healthyNodes r1) as [nodes r2].
  destruct (gs_listOpenTables 200 g) as [tables g1]. cbn [fst].
  destruct (sr_bool tables); cbn [negb] in Hs; last first.
  { simplify_eq/=. split_and!; [done|done| |].
    - intros n. rw delete_nodes /miss_event. cbn [sw_healthy]. case_bool_decide; [done|].
      destruct (missing_since_ p !! n); [done|]. rw bool_decide_eq_false_2 //. by intros (? & ? & ? & _).
    - intros id. split; [by intros ?%Hnone|]. by intros (? & ? & ? & ? & _). }
  destruct (foldl _ _ _) as [[m g2] res2] eqn:Hf. injection Hs as <- <- <- <-.
  apply sweep_tables in Hf as [Hm Hr]; [|done]. cbn. split_and!; [done|done| |].
  - intros n. rw Hm delete_nodes /miss_event. cbn [sw_healthy sw_now].
    set (names := ni_node_id <$> nodes).
    pose proof (elem_of_list_to_set (C := gset string) n names) as Hset.
    destruct (decide (n ∈ names)) as [Hin|Hout].
    + rw (bool_decide_eq_true_2 (n ∈ names)) // bool_decide_eq_false_2 //. tauto.
    + rw (bool_decide_eq_false_2 (n ∈ names)) //. destruct (missing_since_ p !! n); [done|].
      assert (n ∉ (list_to_set names : gset string) ∧ n ∈ node_id <$> default [] (sr_value tables) ↔
        lists n (mkSweep now names (Some (default [] (sr_value tables))) res2)) as Hiff.
      { rw Hset /lists /= list_elem_of_fmap. split.
        - intros (_ & t & -> & Ht). by exists (default [] (sr_value tables)), t.
        - intros (l & t & [= <-] & Ht & <-). split; [done|]. by exists t. }
      case_bool_decide as H1; case_bool_decide as H2; tauto.
  - intros id. rw Hr. split.
    + intros [?%Hnone|(t & since & Ht & Hid & Hh & Hm' & Hge)]; [done|].
      rw elem_of_list_to_set in Hh. rw delete_nodes bool_decide_eq_false_2 // in Hm'.
      by exists (default [] (sr_value tables)), t, since.
    + intros (l & t & since & [= <-] & Ht & Hid & Hh & Hm' & Hge). right.
      exists t, since. rw delete_nodes bool_decide_eq_false_2 // elem_of_list_to_set //.
Qed.

(** ** Runs of sweeps *)

(** The registry and the store of each sweep are arbitrary: anything may have
    happened to them since the last one. *)
Inductive sweeps (grace : Z) : list Sweep → NodeFailureReaper K → Prop :=
  | sweeps_new k p : NodeFailureReaper_new grace k = Ok p → sweeps grace [] p
  | sweeps_next evs p r g res p' r' g' :
      sweeps grace evs p → sweep p r g = (res, (p', r', g')) →
      sweeps grace (evs ++ option_list (sweep_event p r g)) p'.

(** When the present absence of a node was first noticed. *)
Definition missing_from (n : string) (evs : list Sweep) : option Z :=
  foldl (λ o s, miss_event n s o) None evs.

Lemma missing_from_snoc n evs s : missing_from n (evs ++ [s]) = miss_event n s (missing_from n evs).
Proof. by rw /missing_from foldl_app. Qed.

(** The node was listed by [s0] and away then and ever since. *)
Definition away_since (n : string) (s0 : Sweep) (evs : list Sweep) : Prop :=
  lists n s0 ∧ ∃ l l', evs = l ++ s0 :: l' ∧ ∀ s, s ∈ s0 :: l' → away n s.

Lemma away_since_snoc n s0 evs s : away_since n s0 evs → away n s → away_since n s0 (evs ++ [s]).
Proof.
  intros (Hl & l & l' & -> & Haway) Hs. split; [done|]. exists l, (l' ++ [s]). split; [by rw -app_assoc|].
  intros s'. rw elem_of_cons elem_of_app list_elem_of_singleton. intros [->|[?| ->]]; [|by apply Haway; right|done].
  apply Haway. by left.
Qed.

Lemma missing_from_Some n evs since :
  missing_from n evs = Some since → ∃ s0, away_since n s0 evs ∧ sw_now s0 = since.
Proof.
  revert since. induction evs as [|s evs IH] using rev_ind; intros since; [done|].
  rw missing_from_snoc /miss_event. case_bool_decide as Hh; [done|].
  destruct (missing_from n evs) as [t|].
  - intros [= <-]. destruct (IH t eq_refl) as (s0 & Ha & <-). exists s0. split; [|done].
    by apply away_since_snoc.
  - case_bool_decide as Hl; [|done]. intros [= <-]. exists s. split; [|done]. split; [done|].
    exists evs, []. split; [done|]. by intros s' ->%list_elem_of_singleton.
Qed.

(** Readings of the clock, in order. *)
Definition in_order (evs : list Sweep) : Prop := StronglySorted (λ s s', sw_now s ≤ sw_now s') evs.

Lemma in_order_app l l' s s' : in_order (l ++ l') → s ∈ l → s' ∈ l' → sw_now s ≤ sw_now s'.
Proof.
  induction l as [|x l IH]; [by intros _ ?%not_elem_of_nil|].
  intros [Hs Hall]%StronglySorted_inv [->|?]%elem_of_cons Hs'; [|by apply IH].
  rw Forall_forall in Hall. apply Hall, elem_of_app. by right.
Qed.

Lemma away_since_missing n evs s0 :
  in_order evs → away_since n s0 evs → ∃ since, missing_from n evs = Some since ∧ since ≤ sw_now s0.
Proof.
  intros Hord (Hl & l & l' & -> & Haway). induction l' as [|s l' IH] using rev_ind.
  - rw missing_from_snoc /miss_event. rw bool_decide_eq_false_2; [apply Haway; by left|].
    destruct (missing_from n l) as [since|] eqn:Hm; last first.
    { rw bool_decide_eq_true_2 //. by exists (sw_now s0). }
    exists since. split; [done|]. apply missing_from_Some in Hm as (s1 & (_ & l1 & l2 & -> & _) & <-).
    eapply in_order_app; [exact Hord| |by left]. set_solver.
  - destruct IH as (since & Hm & Hle).
    + change (l ++ s0 :: l' ++ [s]) with (l ++ (s0 :: l') ++ [s]) in Hord. rw app_assoc in Hord.
      clear - Hord. induction (l ++ s0 :: l') as [|x k IH]; [by constructor|].
      apply StronglySorted_inv in Hord as [Hs Hall]. constructor; [by apply IH|].
      by apply Forall_app in Hall as [? _].
    + intros s' Hs'. apply Haway. set_solver.
    + exists since. split; [|done]. change (l ++ s0 :: l' ++ [s]) with (l ++ (s0 :: l') ++ [s]).
      rw app_assoc missing_from_snoc Hm /miss_event. rw bool_decide_eq_false_2 //. apply Haway. set_solver.
Qed.

Lemma sweeps_inv grace evs p :
  sweeps grace evs p →
  0 < grace ∧ grace_period_ms_ p = grace ∧ ∀ n, missing_since_ p !! n = missing_from n evs.
Proof.
  induction 1 as [k p Hp|evs p r g res p' r' g' Hs (Hg & Hp & Hm) Hsweep].
  - rw /NodeFailureReaper_new in Hp. destruct (Z.leb_spec grace 0); [done|]. injection Hp as <-.
    split_and!; [done|done|]. intros n. by rw lookup_empty.
  - apply sweep_spec in Hsweep as [Hp' He]; [|lia]. split_and!; [done|lia|]. intros n.
    destruct (sweep_event p r g) as [s|]; cbn [option_list].
    + destruct He as (_ & He & _). by rw missing_from_snoc He Hm.
    + destruct He as [-> _]. by rw app_nil_r Hm.
Qed.

(** One sweep in the middle of a run. *)
Lemma sweeps_split grace evs s evs' p :
  sweeps grace (evs ++ s :: evs') p →
  0 < grace ∧ ∀ id, given_up id (sw_result s) ↔ ∃ tables table since, sw_tables s = Some tables ∧
    table ∈ tables ∧ table_id table = id ∧ away (node_id table) s ∧
    missing_from (node_id table) evs = Some since ∧ grace ≤ sw_now s - since.
Proof.
  intros Hs. remember (evs ++ s :: evs') as l eqn:Hl. revert evs' Hl.
  induction Hs as [k p Hp|l p r g res p' r' g' Hs IH Hsweep]; intros evs' Hl; [by destruct evs|].
  destruct (sweeps_inv _ _ _ Hs) as (Hg & Hp & Hm).
  apply sweep_spec in Hsweep as [_ He]; [|lia].
  destruct (sweep_event p r g) as [s1|]; cbn [option_list] in Hl; [|rw app_nil_r in Hl; by eapply IH].
  destruct evs' as [|s2 evs' _] using rev_ind.
  - apply app_inj_tail in Hl as [-> <-]. destruct He as (-> & _ & Hid). split; [done|]. intros id.
    rw Hid Hp. split; intros (tables & t & since & ? & ? & ? & ? & Hsince & ?); exists tables, t, since;
      split_and!; try done; by rw Hm in Hsince |- *.
  - change (s :: evs' ++ [s2]) with ((s :: evs') ++ [s2]) in Hl. rw app_assoc in Hl.
    apply app_inj_tail in Hl as [-> _]. by eapply IH.
Qed.

(** C40: Among the tables it lists the reaper is patient and persistent. A sweep gives
    up a table (refunds it or reports that it could not) only if it listed the
    table and the table's node was missing from this and every earlier look at the
    registry back to one at least the grace period ago at which a table of the node
    was listed; a single sign of life starts the wait anew. And it does give up every
    table it listed for which that holds, as long as the clock does not go back. A
    sweep asks the store for 200 tables: an open table that is not among those is
    neither given up nor counted, however long its node has been missing. *)
Theorem reaper_patient grace evs s evs' p id :
  sweeps grace (evs ++ s :: evs') p →
  (given_up id (sw_result s) →
     ∃ tables table s0, sw_tables s = Some tables ∧ table ∈ tables ∧ table_id table = id ∧
       away (node_id table) s ∧ away_since (node_id table) s0 evs ∧
       grace ≤ sw_now s - sw_now s0) ∧
  (in_order evs → ∀ tables table s0,
     sw_tables s = Some tables → table ∈ tables → away (node_id table) s →
     away_since (node_id table) s0 evs → grace ≤ sw_now s - sw_now s0 →
     given_up (table_id table) (sw_result s)).
Proof.
  intros Hs. destruct (sweeps_split _ _ _ _ _ Hs) as [Hg Hid]. split.
  - intros (tables & t & since & ? & ? & ? & ? & Hm & ?)%Hid.
    apply missing_from_Some in Hm as (s0 & ? & <-). by exists tables, t, s0.
  - intros Hord tables t s0 ? ? ? Haway ?. apply Hid.
    destruct (away_since_missing _ _ _ Hord Haway) as (since & ? & ?).
    exists tables, t, since. split_and!; try done. lia.
Qed.
End reaper_theorems.

(** ** A concrete run *)

Module ReaperDemo.
#[local] Instance minutes : Clock Z := λ k, (k, k + 60000).

(** No node is alive; a table of node "a" is open with two stacks. *)
Definition reg : InMemoryNodeRegistry Z := Registry_new 0.
Definition cfg : TableConfig := mkConfig 2 6 50 100 2000 20000.
Definition g0 : InMemoryGameStore := (seedWallet 7 9000 Games_new).2.
Definition g1 := (createTable (mkTableRecord 1000 "t" "a" cfg 7) g0).2.
Definition g2 := (reserveBuyIn 1000 7 0 5000 "k" g1).2.

Definition p0 : NodeFailureReaper Z := mkReaper 15000 0 ∅.
Definition p1 := (sweep p0 reg g2).2.1.1.
Definition s1 : Sweep := Eval vm_compute in default (mkSweep 0 [] None (mkReap [] [])) (sweep_event p0 reg g2).
Definition p2 := (sweep p1 reg g2).2.1.1.
Definition s2 : Sweep := Eval vm_compute in default (mkSweep 0 [] None (mkReap [] [])) (sweep_event p1 reg g2).

Lemma sweeps_run2 : sweeps (R := InMemoryNodeRegistry Z) (G := InMemoryGameStore) 15000 ([s1] ++ s2 :: []) p2.
Proof.
  assert (∀ p : NodeFailureReaper Z, sweep p reg g2 =
    ((sweep p reg g2).1, ((sweep p reg g2).2.1.1, (sweep p reg g2).2.1.2, (sweep p reg g2).2.2))) as Hp.
  { intros p. by destruct (sweep p reg g2) as [? [[? ?] ?]]. }
  exact (sweeps_next 15000 [s1] p1 reg g2 _ _ _ _
    (sweeps_next 15000 [] p0 reg g2 _ _ _ _ (sweeps_new 15000 0 p0 eq_refl) (Hp p0)) (Hp p1)).
Qed.

Lemma reaper_patient_witness :
  refunded_tables (sw_result s2) = [1000] ∧ given_up 1000 (sw_result s2) ∧
  ∃ s0, away_since "a" s0 [s1] ∧ 15000 ≤ sw_now s2 - sw_now s0.
Proof.
  destruct (reaper_patient 15000 [s1] s2 [] p2 1000 sweeps_run2) as [Honly Hall].
  split; [reflexivity|]. split.
  - eapply (Hall ltac:(repeat constructor) _ (mkTableRecord 1000 "t" "a" cfg 7) s1).
    + reflexivity.
    + left.
    + apply not_elem_of_nil.
    + split; [by eexists _, (mkTableRecord 1000 "t" "a" cfg 7); split_and!; [reflexivity|left|]|].
      exists [], []. split; [reflexivity|]. intros s ->%list_elem_of_singleton. apply not_elem_of_nil.
    + discriminate.
  - destruct Honly as (tables & table & s0 & H1 & H2 & H3 & H4 & H5 & H6); [by left; left|].
    exists s0. injection H1 as <-. apply list_elem_of_singleton in H2 as ->. exact (conj H5 H6).
Defined.
End ReaperDemo.
