(* ===== verification/ServerConfig.v ===== *)
(** * The server's configuration

    Model of [include/poker/config/server_config.hpp] and
    [src/poker/config/server_config.cpp]. The process environment is a function
    from names to optional values; the list of errors is the state threaded
    through the readers. [std::stoll] is the Standard Library's: it skips white
    space, takes a sign and digits, and throws when there are none or the value
    does not fit a [long long]. *)
From stdpp Require Import pretty.
From Stdlib Require Import Ascii.
From S2P Require Import Prelude.

(** ** Data *)

Inductive ServerRole := Role_standalone | Role_lobby | Role_game.

#[export] Instance ServerRole_eq_dec : EqDecision ServerRole.
Proof. solve_decision. Defined.

Record MySqlConfig := mkMySql {
  my_host : string;
  my_port : Z;
  my_user : string;
  my_password : string;
  my_database : string;
  my_pool_size : Z;
  my_connect_timeout_seconds : Z;
}.

Record RedisConfig := mkRedis {
  rd_host : string;
  rd_port : Z;
  rd_password : string;
  rd_database : Z;
  rd_connect_timeout_ms : Z;
}.

Record ServerConfig := mkServerConfig {
  sc_role : ServerRole;
  sc_node_id : string;
  sc_public_endpoint : string;
  sc_listen_host : string;
  sc_listen_port : Z;
  sc_metrics_host : string;
  sc_metrics_port : Z;
  sc_io_threads : Z;
  sc_logic_shards : Z;
  sc_action_timeout_ms : Z;
  sc_connection_idle_timeout_ms : Z;
  sc_node_failure_grace_ms : Z;
  sc_max_frame_bytes : Z;
  sc_max_pending_send_bytes : Z;
  sc_requests_per_second : Z;
  sc_request_burst : Z;
  sc_session_ttl_seconds : Z;
  sc_mysql : MySqlConfig;
  sc_redis : RedisConfig;
}.

Record ConfigResult := mkConfigResult { cr_value : option ServerConfig; cr_errors : list string }.

Definition cr_bool (r : ConfigResult) : bool :=
  bool_decide (is_Some (cr_value r)) && bool_decide (cr_errors r = []).

(** ** std::stoll *)

Definition isspace (c : Ascii.ascii) : bool :=
  let v := Ascii.nat_of_ascii c in ((v =? 32) || (9 <=? v) && (v <=? 13))%nat.

Definition digit (c : Ascii.ascii) : option Z :=
  let v := Ascii.nat_of_ascii c in
  if ((48 <=? v) && (v <=? 57))%nat then Some (Z.of_nat (v - 48)) else None.

(** The number of leading spaces and what follows them. *)
Fixpoint skip_spaces (l : list Ascii.ascii) : nat * list Ascii.ascii :=
  match l with
  | c :: rest => if isspace c then let '(n, l) := skip_spaces rest in (S n, l) else (0%nat, l)
  | [] => (0%nat, [])
  end.

(** The value of the leading digits, continuing from [acc], and their number. *)
Fixpoint read_digits (acc : Z) (l : list Ascii.ascii) : Z * nat :=
  match l with
  | c :: rest =>
      match digit c with
      | Some d => let '(v, n) := read_digits (acc * 10 + d) rest in (v, S n)
      | None => (acc, 0%nat)
      end
  | [] => (acc, 0%nat)
  end.

Definition read_sign (l : list Ascii.ascii) : Z * nat * list Ascii.ascii :=
  match l with
  | c :: rest =>
      if Ascii.eqb c "-"%char then (-1, 1%nat, rest)
      else if Ascii.eqb c "+"%char then (1, 1%nat, rest) else (1, 0%nat, l)
  | [] => (1, 0%nat, [])
  end.

(** The value and the number of characters consumed. *)
Definition stoll (s : string) : result (Z * nat) :=
  let '(spaces, l) := skip_spaces (String.list_ascii_of_string s) in
  let '(sign, signs, l) := read_sign l in
  let '(v, digits) := read_digits 0 l in
  if (digits =? 0)%nat then Throw (invalid_argument "stoll")
  else if (sign * v <? i64_min) || (i64_max <? sign * v) then Throw (out_of_range "stoll")
  else Ok (sign * v, (spaces + signs + digits)%nat).

(** ** Readers *)

Section config.
  Context (environment : string → option string).

Definition text (name fallback : string) : string :=
  match environment name with Some value => value | None => fallback end.

(** The body of the [try] block of [integer]. *)
Definition parse_integer (value : string) (minimum maximum : Z) : result Z :=
  '(parsed, consumed) ← stoll value;
  if negb (consumed =? String.length value)%nat || (parsed <? minimum) || (maximum <? parsed)
  then Throw (out_of_range "outside allowed range")
  else mret parsed.

Definition range_error (name : string) (minimum maximum : Z) : string :=
  name +:+ " must be an integer in [" +:+ pretty minimum +:+ ", " +:+ pretty maximum +:+ "]".

Definition integer (name : string) (fallback minimum maximum : Z) : M (list string) Z :=
  match environment name with
  | None => mret fallback
  | Some value =>
      match parse_integer value minimum maximum with
      | Ok parsed => mret parsed
      | Throw _ => mmodify (λ errors, errors ++ [range_error name minimum maximum]) ;; mret fallback
      | Undef => mundef
      end
  end.

Definition role : M (list string) ServerRole :=
  let value := text "POKER_ROLE" "standalone" in
  if bool_decide (value = "standalone"%string) then mret Role_standalone
  else if bool_decide (value = "lobby"%string) then mret Role_lobby
  else if bool_decide (value = "game"%string) then mret Role_game
  else mmodify (λ errors, errors ++ ["POKER_ROLE must be standalone, lobby, or game"%string]) ;;
       mret Role_standalone.

Definition require (ok : bool) (message : string) : M (list string) unit :=
  if ok then mret tt else mmodify (λ errors, errors ++ [message]).

Definition nonempty (s : string) : bool := negb (bool_decide (s = ""%string)).

Definition read_mysql : M (list string) MySqlConfig :=
  port ← integer "POKER_MYSQL_PORT" 3306 1 65535;
  pool ← integer "POKER_MYSQL_POOL_SIZE" 8 1 128;
  mret (mkMySql (text "POKER_MYSQL_HOST" "127.0.0.1") port (text "POKER_MYSQL_USER" "poker")
          (text "POKER_MYSQL_PASSWORD" "") (text "POKER_MYSQL_DATABASE" "poker") pool 5).

Definition read_redis : M (list string) RedisConfig :=
  port ← integer "POKER_REDIS_PORT" 6379 1 65535;
  database ← integer "POKER_REDIS_DATABASE" 0 0 15;
  mret (mkRedis (text "POKER_REDIS_HOST" "127.0.0.1") port (text "POKER_REDIS_PASSWORD" "") database
          2000).

Definition read_config : M (list string) ServerConfig :=
  r ← role;
  listen_port ← integer "POKER_LISTEN_PORT" 7000 1 65535;
  metrics_port ← integer "POKER_METRICS_PORT" 9100 1 65535;
  io_threads ← integer "POKER_IO_THREADS" 4 1 128;
  logic_shards ← integer "POKER_LOGIC_SHARDS" 4 1 128;
  action_timeout ← integer "POKER_ACTION_TIMEOUT_MS" 20000 1000 300000;
  idle_timeout ← integer "POKER_CONNECTION_IDLE_TIMEOUT_MS" 45000 10000 600000;
  grace ← integer "POKER_NODE_FAILURE_GRACE_MS" 15000 6000 300000;
  max_frame ← integer "POKER_MAX_FRAME_BYTES" (1024 * 1024) 1024 (16 * 1024 * 1024);
  max_pending ← integer "POKER_MAX_PENDING_SEND_BYTES" (4 * 1024 * 1024) (64 * 1024) (64 * 1024 * 1024);
  rate ← integer "POKER_REQUESTS_PER_SECOND" 100 1 1000000;
  burst ← integer "POKER_REQUEST_BURST" 200 1 1000000;
  ttl ← integer "POKER_SESSION_TTL_SECONDS" 86400 300 (30 * 24 * 60 * 60);
  mysql ← read_mysql;
  redis ← read_redis;
  mret (mkServerConfig r (text "POKER_NODE_ID" "game-1")
          (text "POKER_PUBLIC_ENDPOINT" "127.0.0.1:7000") (text "POKER_LISTEN_HOST" "0.0.0.0")
          listen_port (text "POKER_METRICS_HOST" "0.0.0.0") metrics_port io_threads logic_shards
          action_timeout idle_timeout grace max_frame max_pending rate burst ttl mysql redis).

Definition checked_config : M (list string) ServerConfig :=
  config ← read_config;
  require (nonempty (sc_node_id config)) "POKER_NODE_ID must not be empty" ;;
  require (nonempty (sc_public_endpoint config)) "POKER_PUBLIC_ENDPOINT must not be empty" ;;
  require (nonempty (sc_metrics_host config)) "POKER_METRICS_HOST must not be empty" ;;
  require (nonempty (my_password (sc_mysql config)))
    "POKER_MYSQL_PASSWORD must be provided; credentials are never compiled in" ;;
  mret config.

Definition loadFromEnvironment : result ConfigResult :=
  match checked_config [] with
  | (Ok config, errors) =>
      Ok (mkConfigResult (if bool_decide (errors = []) then Some config else None) errors)
  | (Throw e, _) => Throw e
  | (Undef, _) => Undef
  end.
End config.

Definition ServerRole_toString (r : ServerRole) : string :=
  match r with
  | Role_standalone => "standalone"
  | Role_lobby => "lobby"
  | Role_game => "game"
  end.

(** ** Numerals *)

(** A string that [std::stoll] reads whole. *)
Definition numeral (s : string) (v : Z) : Prop := stoll s = Ok (v, String.length s).

Lemma read_digits_app acc l1 l2 :
  Forall (λ c, is_Some (digit c)) l1 →
  read_digits acc (l1 ++ l2) =
    let '(v1, n1) := read_digits acc l1 in let '(v2, n2) := read_digits v1 l2 in (v2, (n1 + n2)%nat).
Proof.
  intros Hl. revert acc. induction Hl as [|c l1 [d Hd] Hl IH]; intros acc; cbn.
  - by destruct (read_digits acc l2).
  - rw Hd IH. destruct (read_digits (acc * 10 + d) l1) as [v1 n1].
    by destruct (read_digits v1 l2).
Qed.

Lemma pretty_digit x :
  (x < 10)%N → digit (pretty_N_char x) = Some (Z.of_N x).
Proof.
  intros Hx. assert (x ∈ (0 :: 1 :: 2 :: 3 :: 4 :: 5 :: 6 :: 7 :: 8 :: 9 :: [])%N) as Hin.
  { rw !elem_of_cons. lia. }
  repeat (apply elem_of_cons in Hin as [->|Hin]; [done|]). by apply not_elem_of_nil in Hin.
Qed.

(** What is printed reads back, in front of what was there. *)
Lemma pretty_go_digits x s :
  ∃ l, String.list_ascii_of_string (pretty_N_go x s) = l ++ String.list_ascii_of_string s ∧
    Forall (λ c, is_Some (digit c)) l ∧
    (0 < x → l ≠ [])%N ∧
    ∀ acc, read_digits acc l = (acc * 10 ^ Z.of_nat (length l) + Z.of_N x, length l).
Proof.
  revert s. induction x as [x IH] using (well_founded_ind N.lt_wf_0). intros s.
  destruct (decide (0 < x)%N) as [Hpos|Hz]; last first.
  { assert (x = 0%N) as -> by lia. rw pretty_N_go_0. exists []. split_and!; [done|constructor|lia|].
    intros acc. cbn. f_equal. lia. }
  rw pretty_N_go_step //. destruct (IH (x `div` 10)%N) with (s := String.String (pretty_N_char (x `mod` 10)) s)
    as (l & Hl & Hd & _ & Hr); [apply N.div_lt; lia|].
  exists (l ++ [pretty_N_char (x `mod` 10)]). split_and!.
  - rw Hl /= -app_assoc //.
  - apply Forall_app. split; [done|]. constructor; [|constructor].
    rw pretty_digit; [apply N.mod_lt; lia|]. by eexists.
  - intros _. by destruct l.
  - intros acc. rw read_digits_app // Hr /= pretty_digit; [apply N.mod_lt; lia|].
    rw length_app /=. f_equal. rw Nat2Z.inj_add Z.pow_add_r; [lia..|].
    rw N2Z.inj_mod N2Z.inj_div. pose proof (Z.div_mod (Z.of_N x) 10). lia.
Qed.

Lemma skip_spaces_digit c l : is_Some (digit c) → skip_spaces (c :: l) = (0%nat, c :: l).
Proof.
  rw /digit /skip_spaces /isspace. destruct (_ && _) eqn:Hc; [|by intros []]. guards. intros _.
  destruct (_ || _) eqn:Hs; [|done]. exfalso. apply orb_true_iff in Hs as [Hs|Hs]; guards; lia.
Qed.

Lemma read_sign_digit c l : is_Some (digit c) → read_sign (c :: l) = (1, 0%nat, c :: l).
Proof.
  intros Hd. rw /read_sign. destruct (Ascii.eqb_spec c "-"%char) as [->|]; [by destruct Hd|].
  destruct (Ascii.eqb_spec c "+"%char) as [->|]; [by destruct Hd|done].
Qed.

(** The digits of a natural number. *)
Lemma pretty_N_digits (x : N) :
  ∃ c l, String.list_ascii_of_string (pretty x) = c :: l ∧ is_Some (digit c) ∧
    read_digits 0 (c :: l) = (Z.of_N x, S (length l)).
Proof.
  rw /pretty /pretty_N. case_decide as Hx; [subst; by exists "0"%char, []|].
  destruct (pretty_go_digits x "") as (l & Hl & Hd & Hne & Hr). rw app_nil_r in Hl. rw Hl.
  destruct l as [|c l]; [by destruct Hne; [lia|]|]. exists c, l. split_and!; [done|by inversion Hd|].
  rw Hr. done.
Qed.

Lemma length_list_ascii s : length (String.list_ascii_of_string s) = String.length s.
Proof. induction s as [|c s IH]; simpl; [done|]. by rw IH. Qed.

(** A decimal of a value of 64 bits is a numeral for it. *)
Lemma pretty_numeral v : fits_i64 v → numeral (pretty v) v.
Proof.
  intros [Hlo Hhi]. rw /numeral /stoll -length_list_ascii.
  assert (∀ x : N, ∃ c l, String.list_ascii_of_string (pretty x) = c :: l ∧ is_Some (digit c) ∧
    read_digits 0 (c :: l) = (Z.of_N x, S (length l))) as Hdigits by apply pretty_N_digits.
  destruct v as [|x|x]; [done| |].
  - change (pretty (Z.pos x)) with (pretty (N.pos x)). destruct (Hdigits (N.pos x)) as (c & l & -> & Hd & Hr).
    rw skip_spaces_digit // read_sign_digit // Hr. cbn [Nat.eqb].
    replace (1 * Z.of_N (N.pos x)) with (Z.pos x) by lia.
    destruct (_ || _) eqn:Hb; [exfalso; apply orb_true_iff in Hb as [Hb|Hb]; guards; lia|done].
  - change (pretty (Z.neg x)) with ("-" +:+ pretty (N.pos x)).
    destruct (Hdigits (N.pos x)) as (c & l & Hl & Hd & Hr).
    change (String.list_ascii_of_string ("-" +:+ pretty (N.pos x))) with
      ("-"%char :: String.list_ascii_of_string (pretty (N.pos x))). rw Hl.
    assert (skip_spaces ("-"%char :: c :: l) = (0%nat, "-"%char :: c :: l)) as -> by done.
    assert (read_sign ("-"%char :: c :: l) = (-1, 1%nat, c :: l)) as -> by done. rw Hr. cbn [Nat.eqb].
    replace (-1 * Z.of_N (N.pos x)) with (Z.neg x) by lia.
    destruct (_ || _) eqn:Hb; [exfalso; apply orb_true_iff in Hb as [Hb|Hb]; guards; lia|done].
Qed.

(** ** The readers *)

Section config_theorems.
  Context (env : string → option string).

(** A reader always returns [v], and adds no error exactly when [ok] holds. *)
Definition reads {A} (m : M (list string) A) (v : A) (ok : Prop) : Prop :=
  ∃ l, (l = [] ↔ ok) ∧ ∀ errors, m errors = (Ok v, errors ++ l).

Lemma reads_ret {A} (v : A) : reads (mret v) v True.
Proof. exists []. split; [done|]. intros errors. by rw app_nil_r. Qed.

Lemma reads_bind {A B} (m : M (list string) A) (f : A → M (list string) B) v w ok1 ok2 :
  reads m v ok1 → reads (f v) w ok2 → reads (m ≫= f) w (ok1 ∧ ok2).
Proof.
  intros (l1 & H1 & Hm) (l2 & H2 & Hf). exists (l1 ++ l2). split.
  - rw -H1 -H2. apply app_nil.
  - intros errors. rw /mbind /M_bind Hm Hf app_assoc. done.
Qed.

(** A setting that is absent, or a numeral in its range. *)
Definition good_setting (name : string) (lo hi : Z) : Prop :=
  match env name with
  | None => True
  | Some s => ∃ v, numeral s v ∧ lo ≤ v ≤ hi
  end.

Definition setting_value (name : string) (fallback lo hi : Z) : Z :=
  match env name with
  | None => fallback
  | Some s => match parse_integer s lo hi with Ok v => v | _ => fallback end
  end.

Lemma parse_integer_spec s lo hi :
  (∃ v, parse_integer s lo hi = Ok v ∧ numeral s v ∧ lo ≤ v ≤ hi) ∨
  ((∃ e, parse_integer s lo hi = Throw e) ∧ ¬ ∃ v, numeral s v ∧ lo ≤ v ≤ hi).
Proof.
  rw /parse_integer /numeral. assert (stoll s ≠ Undef) as Hu.
  { rw /stoll. destruct (skip_spaces _) as [n l]. destruct (read_sign l) as [[sg k] l'].
    destruct (read_digits 0 l') as [v d]. destruct (d =? 0)%nat; [done|]. by destruct (_ || _). }
  destruct (stoll s) as [[v n]|e|] eqn:Hs; [|right|done].
  - cbn. destruct (_ || _) eqn:Hb.
    + right. split; [by eexists|]. intros (v' & Heq & Hr). injection Heq as -> ->.
      rw Nat.eqb_refl in Hb. apply orb_true_iff in Hb as [Hb|Hb]; guards; [|lia].
      cbn in Hb. guards. lia.
    + guards. left. exists v. subst n. split_and!; [done|done|lia..].
  - split; [by eexists|]. by intros (v' & ? & _).
Qed.

Lemma integer_reads name fallback lo hi :
  reads (integer env name fallback lo hi) (setting_value name fallback lo hi) (good_setting name lo hi).
Proof.
  rw /integer /setting_value /good_setting. destruct (env name) as [s|]; [|apply reads_ret].
  destruct (parse_integer_spec s lo hi) as [(v & -> & Hn & Hr)|[(e & ->) Hbad]].
  - exists []. split; [split; [intros _; by exists v|done]|]. intros errors. by rw app_nil_r.
  - exists [range_error name lo hi]. split; [by split|]. done.
Qed.

Lemma require_reads b message : reads (require b message) tt (b = true).
Proof.
  rw /require. destruct b; [destruct (reads_ret tt) as (l & ? & ?); exists l; by split; [tauto|]|].
  exists [message]. by split.
Qed.

(** The integer settings: name, default, bounds, and the field they fill. *)
Definition settings : list (string * Z * Z * Z * (ServerConfig → Z)) :=
  [("POKER_LISTEN_PORT"%string, 7000, 1, 65535, sc_listen_port);
   ("POKER_METRICS_PORT"%string, 9100, 1, 65535, sc_metrics_port);
   ("POKER_IO_THREADS"%string, 4, 1, 128, sc_io_threads);
   ("POKER_LOGIC_SHARDS"%string, 4, 1, 128, sc_logic_shards);
   ("POKER_ACTION_TIMEOUT_MS"%string, 20000, 1000, 300000, sc_action_timeout_ms);
   ("POKER_CONNECTION_IDLE_TIMEOUT_MS"%string, 45000, 10000, 600000, sc_connection_idle_timeout_ms);
   ("POKER_NODE_FAILURE_GRACE_MS"%string, 15000, 6000, 300000, sc_node_failure_grace_ms);
   ("POKER_MAX_FRAME_BYTES"%string, 1048576, 1024, 16777216, sc_max_frame_bytes);
   ("POKER_MAX_PENDING_SEND_BYTES"%string, 4194304, 65536, 67108864, sc_max_pending_send_bytes);
   ("POKER_REQUESTS_PER_SECOND"%string, 100, 1, 1000000, sc_requests_per_second);
   ("POKER_REQUEST_BURST"%string, 200, 1, 1000000, sc_request_burst);
   ("POKER_SESSION_TTL_SECONDS"%string, 86400, 300, 2592000, sc_session_ttl_seconds);
   ("POKER_MYSQL_PORT"%string, 3306, 1, 65535, my_port ∘ sc_mysql);
   ("POKER_MYSQL_POOL_SIZE"%string, 8, 1, 128, my_pool_size ∘ sc_mysql);
   ("POKER_REDIS_PORT"%string, 6379, 1, 65535, rd_port ∘ sc_redis);
   ("POKER_REDIS_DATABASE"%string, 0, 0, 15, rd_database ∘ sc_redis)].

Definition good_environment : Prop :=
  (∀ name fallback lo hi f, (name, fallback, lo, hi, f) ∈ settings → good_setting name lo hi) ∧
  text env "POKER_ROLE" "standalone" ∈ ["standalone"; "lobby"; "game"]%string ∧
  text env "POKER_NODE_ID" "game-1" ≠ ""%string ∧
  text env "POKER_PUBLIC_ENDPOINT" "127.0.0.1:7000" ≠ ""%string ∧
  text env "POKER_METRICS_HOST" "0.0.0.0" ≠ ""%string ∧
  text env "POKER_MYSQL_PASSWORD" "" ≠ ""%string.

Lemma role_reads :
  ∃ r, reads (role env) r (text env "POKER_ROLE" "standalone" ∈ ["standalone"; "lobby"; "game"]%string) ∧
    (text env "POKER_ROLE" "standalone" ∈ ["standalone"; "lobby"; "game"]%string →
     ServerRole_toString r = text env "POKER_ROLE" "standalone").
Proof.
  rw /role. set (v := text env "POKER_ROLE" "standalone").
  assert (∀ (r : ServerRole), v ∈ ["standalone"; "lobby"; "game"]%string →
    reads (mret r) r (v ∈ ["standalone"; "lobby"; "game"]%string)) as Hret.
  { intros r Hv. destruct (reads_ret r) as (l & Hl & Hm). exists l. split; [tauto|done]. }
  case_bool_decide as H1; [exists Role_standalone; split; [apply Hret; rw H1; set_solver|done]|].
  case_bool_decide as H2; [exists Role_lobby; split; [apply Hret; rw H2; set_solver|done]|].
  case_bool_decide as H3; [exists Role_game; split; [apply Hret; rw H3; set_solver|done]|].
  assert (v ∉ ["standalone"; "lobby"; "game"]%string) as Hv.
  { rw !elem_of_cons. intros [?|[?|[?|?%not_elem_of_nil]]]; done. }
  exists Role_standalone. split; [|done]. eexists. split; [|done]. by split.
Qed.

Lemma nonempty_true s : nonempty s = true ↔ s ≠ ""%string.
Proof. rw /nonempty negb_true_iff bool_decide_eq_false. done. Qed.

Ltac reads_step :=
  first [apply integer_reads | apply require_reads | apply reads_ret
        | eapply reads_bind; [|]; cbv beta].

Lemma reads_iff {A} (m : M (list string) A) v ok ok' :
  (ok ↔ ok') → reads m v ok → reads m v ok'.
Proof. intros Hok (l & Hl & Hm). exists l. split; [tauto|done]. Qed.

(** The whole configuration: every field from its setting. *)
Lemma checked_config_reads :
  ∃ c, reads (checked_config env) c good_environment ∧
    (∀ name fallback lo hi f, (name, fallback, lo, hi, f) ∈ settings →
       f c = setting_value name fallback lo hi) ∧
    (good_environment → ServerRole_toString (sc_role c) = text env "POKER_ROLE" "standalone").
Proof.
  destruct role_reads as (r & Hr & Hrole). eexists. split; [|split].
  - eapply reads_iff; last first.
    { rw /checked_config /read_config /read_mysql /read_redis.
      eapply reads_bind; [eapply reads_bind; [exact Hr|]|]; repeat reads_step. }
    cbn [sc_node_id sc_public_endpoint sc_metrics_host sc_mysql my_password].
    rw !nonempty_true /good_environment /settings.
    split.
    + intros H. destruct_and!. split_and!; try done. intros name fb lo hi f Hin.
      repeat (apply elem_of_cons in Hin as [[= -> -> -> -> ->]|Hin]; [done|]).
      by apply not_elem_of_nil in Hin.
    + intros (Hall & H). destruct_and!. split_and!; try done;
        (eapply Hall; repeat first [apply list_elem_of_here | apply list_elem_of_further]).
  - intros name fb lo hi f Hin. rw /settings in Hin.
    repeat (apply elem_of_cons in Hin as [[= -> -> -> -> ->]|Hin]; [reflexivity|]).
    by apply not_elem_of_nil in Hin.
  - intros (_ & Hv & _). by apply Hrole.
Qed.

(** Every setting has a default in its range. *)
Lemma settings_defaults name fallback lo hi f :
  (name, fallback, lo, hi, f) ∈ settings → lo ≤ fallback ≤ hi.
Proof.
  intros Hin. rw /settings in Hin.
  repeat (apply elem_of_cons in Hin as [[= -> -> -> -> ->]|Hin]; [done|]). by apply not_elem_of_nil in Hin.
Qed.

(** Loading the configuration never throws, whatever the environment holds.
    It succeeds exactly when every integer setting that is present is a numeral
    in its range, the role is known, and the required texts are not empty;
    otherwise there is no configuration and at least one error. In a
    configuration every setting lies in its range, has its default when it is
    absent and the value of its numeral when it is present (the decimal of a
    64-bit value being one). *)
Lemma loadFromEnvironment_correct :
  ∃ r, loadFromEnvironment env = Ok r ∧
    (cr_bool r = true ↔ good_environment) ∧
    (cr_bool r = false → cr_value r = None ∧ cr_errors r ≠ []) ∧
    (∀ c, cr_value r = Some c →
       ServerRole_toString (sc_role c) = text env "POKER_ROLE" "standalone" ∧
       ∀ name fallback lo hi f, (name, fallback, lo, hi, f) ∈ settings →
         lo ≤ f c ≤ hi ∧ (env name = None → f c = fallback) ∧
         (∀ s v, env name = Some s → numeral s v → f c = v) ∧
         (∀ v, fits_i64 v → env name = Some (pretty v) → f c = v)).
Proof.
  destruct checked_config_reads as (c & (l & Hl & Hm) & Hfields & Hrole).
  exists (mkConfigResult (if bool_decide (l = []) then Some c else None) l).
  rw /loadFromEnvironment Hm /=. split; [done|]. rw /cr_bool /=.
  destruct (decide (l = [])) as [->|Hne]; last first.
  { rw (bool_decide_eq_false_2 (l = [])) // andb_false_r. split_and!; [|done|done].
    rw -Hl. by split. }
  rw bool_decide_eq_true_2 //. assert (good_environment) as Hgood by by apply Hl.
  split; [by rw bool_decide_eq_true_2; [by eexists|]|]. split; [by rw bool_decide_eq_true_2; [by eexists|]|].
  intros c' [= <-]. split; [by apply Hrole|]. intros name fb lo hi f Hin.
  pose proof (proj1 Hgood _ _ _ _ _ Hin) as Hset. rw (Hfields _ _ _ _ _ Hin) /setting_value.
  rw /good_setting in Hset. destruct (env name) as [s|].
  - destruct Hset as (w & Hw & Hr).
    destruct (parse_integer_spec s lo hi) as [(v & -> & Hv & Hvr)|[_ []]]; [|by exists w].
    split_and!; [lia..|done| |]; rw /numeral in Hv.
    + intros s' v' [= <-] Hv'. rw /numeral in Hv'. congruence.
    + intros v' Hfit [= ->]. apply pretty_numeral in Hfit. rw /numeral in Hfit. congruence.
  - pose proof (settings_defaults _ _ _ _ _ Hin). split_and!; [lia..|done|done|done].
Qed.
End config_theorems.

(** ** A concrete environment *)

Module ConfigDemo.
Definition env (name : string) : option string :=
  if bool_decide (name = "POKER_MYSQL_PASSWORD"%string) then Some "secret"%string
  else if bool_decide (name = "POKER_LISTEN_PORT"%string) then Some " +8080"%string
  else if bool_decide (name = "POKER_ROLE"%string) then Some "game"%string
  else None.

(** Spaces and a sign are accepted; a default stands for what is absent. *)
Example load_env :
  (λ r, (λ c, (sc_role c, sc_listen_port c, sc_io_threads c)) <$> cr_value r) <$> loadFromEnvironment env
  = Ok (Some (Role_game, 8080, 4)).
Proof. vm_compute. reflexivity. Qed.

(** A port out of range and a missing password are both reported. *)
Example load_bad :
  (λ r, (bool_decide (is_Some (cr_value r)), cr_errors r)) <$>
    loadFromEnvironment (λ n, if bool_decide (n = "POKER_LISTEN_PORT"%string) then Some "65536"%string else None)
  = Ok (false, ["POKER_LISTEN_PORT must be an integer in [1, 65535]";
                "POKER_MYSQL_PASSWORD must be provided; credentials are never compiled in"]%string).
Proof. vm_compute. reflexivity. Qed.
End ConfigDemo.
