(* ===== verification/Metrics.v ===== *)
(** * Metrics

    Model of [include/poker/observability/metrics.hpp] and
    [src/poker/observability/metrics.cpp]: 64-bit counters, each updated by one
    atomic operation. Printing a number of microseconds as seconds is the
    stream's formatting of a [double], a parameter of the rendering. *)
From stdpp Require Import pretty.
From Stdlib Require Import Ascii.
From S2P Require Import Prelude.

Record MetricsRegistry := mkMetrics {
  active_connections_ : Z;
  opened_connections_ : Z;
  requests_ : Z;
  responses_ : Z;
  invalid_frames_ : Z;
  rejected_requests_ : Z;
  accepted_actions_ : Z;
  rejected_actions_ : Z;
  storage_failures_ : Z;
  tables_gauge_ : Z;
  latency_buckets_ : list Z;
  latency_count_ : Z;
  latency_sum_us_ : Z;
}.

Definition latency_bounds_us_ : list Z :=
  [1000; 5000; 10000; 25000; 50000; 100000; 250000; 500000; 1000000; 5000000].

Definition Metrics_new : MetricsRegistry := mkMetrics 0 0 0 0 0 0 0 0 0 0 (replicate 11 0) 0 0.

Definition connectionOpened (m : MetricsRegistry) : MetricsRegistry :=
  mkMetrics (u64_succ (active_connections_ m)) (u64_succ (opened_connections_ m)) (requests_ m)
    (responses_ m) (invalid_frames_ m) (rejected_requests_ m) (accepted_actions_ m)
    (rejected_actions_ m) (storage_failures_ m) (tables_gauge_ m) (latency_buckets_ m)
    (latency_count_ m) (latency_sum_us_ m).

(** The loop retries until its exchange succeeds; the effect is one step. *)
Definition connectionClosed (m : MetricsRegistry) : MetricsRegistry :=
  mkMetrics (if 0 <? active_connections_ m then active_connections_ m - 1 else active_connections_ m)
    (opened_connections_ m) (requests_ m) (responses_ m) (invalid_frames_ m) (rejected_requests_ m)
    (accepted_actions_ m) (rejected_actions_ m) (storage_failures_ m) (tables_gauge_ m)
    (latency_buckets_ m) (latency_count_ m) (latency_sum_us_ m).

Definition with_requests requests responses invalid rejected (m : MetricsRegistry) : MetricsRegistry :=
  mkMetrics (active_connections_ m) (opened_connections_ m) requests responses invalid rejected
    (accepted_actions_ m) (rejected_actions_ m) (storage_failures_ m) (tables_gauge_ m)
    (latency_buckets_ m) (latency_count_ m) (latency_sum_us_ m).

Definition with_actions_failures accepted rejected failures tables (m : MetricsRegistry) : MetricsRegistry :=
  mkMetrics (active_connections_ m) (opened_connections_ m) (requests_ m) (responses_ m)
    (invalid_frames_ m) (rejected_requests_ m) accepted rejected failures tables
    (latency_buckets_ m) (latency_count_ m) (latency_sum_us_ m).

Definition requestReceived m :=
  with_requests (u64_succ (requests_ m)) (responses_ m) (invalid_frames_ m) (rejected_requests_ m) m.
Definition responseSent m :=
  with_requests (requests_ m) (u64_succ (responses_ m)) (invalid_frames_ m) (rejected_requests_ m) m.
Definition invalidFrame m :=
  with_requests (requests_ m) (responses_ m) (u64_succ (invalid_frames_ m)) (rejected_requests_ m) m.
Definition rejectedRequest m :=
  with_requests (requests_ m) (responses_ m) (invalid_frames_ m) (u64_succ (rejected_requests_ m)) m.
Definition actionAccepted m :=
  with_actions_failures (u64_succ (accepted_actions_ m)) (rejected_actions_ m) (storage_failures_ m)
    (tables_gauge_ m) m.
Definition actionRejected m :=
  with_actions_failures (accepted_actions_ m) (u64_succ (rejected_actions_ m)) (storage_failures_ m)
    (tables_gauge_ m) m.
Definition storageFailure m :=
  with_actions_failures (accepted_actions_ m) (rejected_actions_ m) (u64_succ (storage_failures_ m))
    (tables_gauge_ m) m.
Definition setTables value m :=
  with_actions_failures (accepted_actions_ m) (rejected_actions_ m) (storage_failures_ m) (u64 value) m.

(** The index of the [while] loop over the bounds. *)
Fixpoint find_bucket (bounds : list Z) (value : Z) : nat :=
  match bounds with
  | [] => 0%nat
  | bound :: bounds => if bound <? value then S (find_bucket bounds value) else 0%nat
  end.

Definition observeRequestLatency (latency : Z) (m : MetricsRegistry) : MetricsRegistry :=
  let value := if latency <? 0 then 0 else latency in
  let bucket := find_bucket latency_bounds_us_ value in
  mkMetrics (active_connections_ m) (opened_connections_ m) (requests_ m) (responses_ m)
    (invalid_frames_ m) (rejected_requests_ m) (accepted_actions_ m) (rejected_actions_ m)
    (storage_failures_ m) (tables_gauge_ m)
    (alter u64_succ bucket (latency_buckets_ m)) (u64_succ (latency_count_ m))
    (u64 (latency_sum_us_ m + value)).

Definition activeConnections (m : MetricsRegistry) : Z := active_connections_ m.

(** ** Rendering *)

(** The running sums the [for] loop prints, and the final one. *)
Fixpoint cumulate (acc : Z) (buckets : list Z) : list Z :=
  match buckets with
  | [] => []
  | b :: buckets => u64 (acc + b) :: cumulate (u64 (acc + b)) buckets
  end.

Definition newline : string := String.String "010"%char "".
Definition quote : string := String.String "034"%char "".

Definition type (name metric_type : string) : string :=
  "# TYPE " +:+ name +:+ " " +:+ metric_type +:+ newline.

Definition line (name : string) (value : string) : string := name +:+ " " +:+ value +:+ newline.

Definition counter (name kind : string) (value : Z) : string := type name kind +:+ line name (pretty value).

Definition bucket_line (le : string) (value : Z) : string :=
  line ("poker_request_latency_seconds_bucket{le=" +:+ quote +:+ le +:+ quote +:+ "}") (pretty value).

Definition labelled (label : string) (value : Z) : string :=
  line ("poker_actions_total{result=" +:+ quote +:+ label +:+ quote +:+ "}") (pretty value).

Definition renderPrometheus (show_seconds : Z → string) (m : MetricsRegistry) : string :=
  let sums := cumulate 0 (latency_buckets_ m) in
  counter "poker_connections" "gauge" (active_connections_ m) +:+
  counter "poker_connections_opened_total" "counter" (opened_connections_ m) +:+
  counter "poker_requests_total" "counter" (requests_ m) +:+
  counter "poker_responses_total" "counter" (responses_ m) +:+
  counter "poker_invalid_frames_total" "counter" (invalid_frames_ m) +:+
  counter "poker_rejected_requests_total" "counter" (rejected_requests_ m) +:+
  type "poker_actions_total" "counter" +:+
  labelled "accepted" (accepted_actions_ m) +:+ labelled "rejected" (rejected_actions_ m) +:+
  counter "poker_storage_failures_total" "counter" (storage_failures_ m) +:+
  counter "poker_tables" "gauge" (tables_gauge_ m) +:+
  type "poker_request_latency_seconds" "histogram" +:+
  String.concat "" (zip_with (λ bound sum, bucket_line (show_seconds bound) sum) latency_bounds_us_ sums) +:+
  bucket_line "+Inf" (default 0 (last sums)) +:+
  line "poker_request_latency_seconds_count" (pretty (latency_count_ m)) +:+
  line "poker_request_latency_seconds_sum" (show_seconds (latency_sum_us_ m)).

(** ** The histogram *)

Definition observe_all (latencies : list Z) (m : MetricsRegistry) : MetricsRegistry :=
  foldl (λ m l, observeRequestLatency l m) m latencies.

(** The observations not above a bound. *)
Definition at_most (bound : Z) (latencies : list Z) : Z :=
  Z.of_nat (length (filter (λ l, l ≤ bound) latencies)).

Lemma at_most_snoc bound ls l :
  at_most bound (ls ++ [l]) = at_most bound ls + (if decide (l ≤ bound) then 1 else 0).
Proof.
  rw /at_most filter_app length_app Nat2Z.inj_add. f_equal. rw filter_cons filter_nil.
  by destruct (decide (l ≤ bound)).
Qed.

Lemma at_most_bounds bound ls : 0 ≤ at_most bound ls ≤ Z.of_nat (length ls).
Proof. rw /at_most. pose proof (length_filter (λ l, l ≤ bound) ls). lia. Qed.

Lemma at_most_mono b b' ls : b ≤ b' → at_most b ls ≤ at_most b' ls.
Proof.
  intros Hb. rw /at_most. induction ls as [|l ls IH]; [done|]. rw !filter_cons.
  destruct (decide (l ≤ b)), (decide (l ≤ b')); cbn [length]; lia.
Qed.

(** The differences of the counts of observations. *)
Definition bucket_counts (ls : list Z) : list Z :=
  zip_with Z.sub ((λ b, at_most b ls) <$> latency_bounds_us_) (0 :: ((λ b, at_most b ls) <$> latency_bounds_us_))
  ++ [Z.of_nat (length ls) - at_most 5000000 ls].

Lemma observe_counts ls :
  Z.of_nat (length ls) ≤ u64_max →
  latency_buckets_ (observe_all ls Metrics_new) = bucket_counts ls ∧
  latency_count_ (observe_all ls Metrics_new) = Z.of_nat (length ls).
Proof.
  induction ls as [|l ls IH] using rev_ind; intros Hlen; [done|].
  rw length_app /= in Hlen. destruct IH as [IHb IHc]; [lia|].
  rw /observe_all foldl_app -/(observe_all ls Metrics_new) /=. rw IHb IHc length_app /=.
  assert (∀ x, 0 ≤ x ≤ Z.of_nat (length ls) → u64_succ x = x + 1) as Hsucc.
  { intros x Hx. rw /u64_succ u64_small //. rw /fits_u64. lia. }
  split; [|rw Hsucc; lia].
  pose proof (λ b, at_most_bounds b ls) as Hb.
  pose proof (at_most_mono 1000 5000 ls ltac:(lia)). pose proof (at_most_mono 5000 10000 ls ltac:(lia)).
  pose proof (at_most_mono 10000 25000 ls ltac:(lia)). pose proof (at_most_mono 25000 50000 ls ltac:(lia)).
  pose proof (at_most_mono 50000 100000 ls ltac:(lia)). pose proof (at_most_mono 100000 250000 ls ltac:(lia)).
  pose proof (at_most_mono 250000 500000 ls ltac:(lia)). pose proof (at_most_mono 500000 1000000 ls ltac:(lia)).
  pose proof (at_most_mono 1000000 5000000 ls ltac:(lia)).
  pose proof (Hb 1000). pose proof (Hb 5000). pose proof (Hb 10000). pose proof (Hb 25000).
  pose proof (Hb 50000). pose proof (Hb 100000). pose proof (Hb 250000). pose proof (Hb 500000).
  pose proof (Hb 1000000). pose proof (Hb 5000000).
  rw /bucket_counts /latency_bounds_us_. cbn [fmap list_fmap zip_with app].
  rw length_app !at_most_snoc. cbn [length].
  set (v := if l <? 0 then 0 else l).
  assert (∀ b, 0 ≤ b → (b <? v) = negb (bool_decide (l ≤ b))) as Hv.
  { intros b Hb0. rw /v. destruct (Z.ltb_spec l 0); case_bool_decide; cbn;
      [apply Z.ltb_ge|..|apply Z.ltb_ge|apply Z.ltb_lt]; lia. }
  cbn [find_bucket]. rw !Hv; [lia..|].
  assert (l ≤ 1000 ∨ 1000 < l ≤ 5000 ∨ 5000 < l ≤ 10000 ∨ 10000 < l ≤ 25000 ∨ 25000 < l ≤ 50000 ∨
    50000 < l ≤ 100000 ∨ 100000 < l ≤ 250000 ∨ 250000 < l ≤ 500000 ∨ 500000 < l ≤ 1000000 ∨
    1000000 < l ≤ 5000000 ∨ 5000000 < l) as Hcases by lia.
  destruct_or! Hcases; repeat (case_bool_decide; [try lia|try lia]);
    repeat (case_decide; [try lia|try lia]); cbn [negb alter list_alter];
    (rw Hsucc; [lia|]); repeat (apply (f_equal2 cons); [lia|]); done.
Qed.

(** The latency histogram counts what it says: after any observations, the
    running sums printed for the bounds are the numbers of observations not
    above each bound, negative readings counting as zero, and the [+Inf] bucket
    and the count are the number of all observations. *)
Lemma histogram_correct (ls : list Z) :
  Z.of_nat (length ls) ≤ u64_max →
  cumulate 0 (latency_buckets_ (observe_all ls Metrics_new)) =
    ((λ b, at_most b ls) <$> latency_bounds_us_) ++ [Z.of_nat (length ls)] ∧
  latency_count_ (observe_all ls Metrics_new) = Z.of_nat (length ls).
Proof.
  intros Hlen. destruct (observe_counts ls Hlen) as [-> ->]. split; [|done].
  pose proof (λ b, at_most_bounds b ls) as Hb.
  rw /bucket_counts /latency_bounds_us_. cbn [fmap list_fmap zip_with app cumulate].
  assert (∀ a x, a = x → 0 ≤ x ≤ Z.of_nat (length ls) → u64 a = x) as Hu.
  { intros a x -> Hx. apply u64_small. rw /fits_u64. lia. }
  rw (Hu (0 + _) (at_most 1000 ls)); [lia|apply Hb|].
  rw (Hu (at_most 1000 ls + _) (at_most 5000 ls)); [lia|apply Hb|].
  rw (Hu (at_most 5000 ls + _) (at_most 10000 ls)); [lia|apply Hb|].
  rw (Hu (at_most 10000 ls + _) (at_most 25000 ls)); [lia|apply Hb|].
  rw (Hu (at_most 25000 ls + _) (at_most 50000 ls)); [lia|apply Hb|].
  rw (Hu (at_most 50000 ls + _) (at_most 100000 ls)); [lia|apply Hb|].
  rw (Hu (at_most 100000 ls + _) (at_most 250000 ls)); [lia|apply Hb|].
  rw (Hu (at_most 250000 ls + _) (at_most 500000 ls)); [lia|apply Hb|].
  rw (Hu (at_most 500000 ls + _) (at_most 1000000 ls)); [lia|apply Hb|].
  rw (Hu (at_most 1000000 ls + _) (at_most 5000000 ls)); [lia|apply Hb|].
  rw (Hu (at_most 5000000 ls + _) (Z.of_nat (length ls))); [lia|lia|done].
Qed.

Lemma histogram_correct_witness :
  cumulate 0 (latency_buckets_ (observe_all [500; 7000; -3; 9000000] Metrics_new))
  = [2; 2; 3; 3; 3; 3; 3; 3; 3; 3; 4].
Proof.
  destruct (histogram_correct [500; 7000; -3; 9000000]) as [-> _]; [discriminate|reflexivity].
Defined.
