(* ===== verification/BlockingExecutor.v ===== *)
(** * The blocking executor

    Model of [include/poker/application/blocking_executor.hpp] and
    [src/poker/application/blocking_executor.cpp]: one bounded queue, several
    worker threads. The atomic actions are posting (under the mutex), a worker
    taking the front task (under the mutex), the end of a task, the return of a
    worker, and the setting of [stopping_]; workers run tasks side by side. *)
From S2P Require Import Prelude.

Section blocking.
  Context {Task : Type}.

(** What a worker is doing: between tasks, in a task, or returned from [run]. *)
Inductive WorkerState := Waiting | Running (task : Task) | Returned.

Record BlockingExecutor := mkBlocking {
  be_max_pending : nat;
  be_tasks : list Task;
  be_workers : list WorkerState;
  be_stopping : bool;
}.

Implicit Types (e : BlockingExecutor).

Definition BlockingExecutor_new (thread_count max_pending : nat) : result BlockingExecutor :=
  if (thread_count =? 0)%nat || (max_pending =? 0)%nat
  then Throw (invalid_argument "blocking executor requires positive thread and queue sizes")
  else Ok (mkBlocking max_pending [] (replicate thread_count Waiting) false).

(** An empty [std::function] is [None]. *)
Definition blocking_post (task : option Task) e : bool * BlockingExecutor :=
  match task with
  | None => (false, e)
  | Some task =>
      if be_stopping e || (be_max_pending e <=? length (be_tasks e))%nat then (false, e)
      else (true, mkBlocking (be_max_pending e) (be_tasks e ++ [task]) (be_workers e) (be_stopping e))
  end.

(** The locked part of an iteration of [run], for a worker that is waiting:
    [None] while the wait goes on. *)
Definition worker_step (w : nat) e : option BlockingExecutor :=
  match be_workers e !! w with
  | Some Waiting =>
      match be_tasks e with
      | task :: rest =>
          Some (mkBlocking (be_max_pending e) rest (<[w := Running task]> (be_workers e)) (be_stopping e))
      | [] =>
          if be_stopping e
          then Some (mkBlocking (be_max_pending e) [] (<[w := Returned]> (be_workers e)) true)
          else None
      end
  | _ => None
  end.

(** The task ends; an exception it throws is caught and given to the handler,
    so the worker goes on either way. *)
Definition finish_task (w : nat) e : option BlockingExecutor :=
  match be_workers e !! w with
  | Some (Running _) =>
      Some (mkBlocking (be_max_pending e) (be_tasks e) (<[w := Waiting]> (be_workers e)) (be_stopping e))
  | _ => None
  end.

Definition blocking_stop e : BlockingExecutor :=
  mkBlocking (be_max_pending e) (be_tasks e) (be_workers e) true.

(** What the joins of [stop] wait for. *)
Definition all_returned e : Prop := Forall (λ s, s = Returned) (be_workers e).

Definition blocking_pending e : nat := length (be_tasks e).

(** ** Runs *)

Inductive blocking_event :=
  | Accepted (task : Task)
  | Rejected (task : Task)
  | Worked (w : nat)
  | Finished (w : nat)
  | Stopped.

Inductive blocking_step : BlockingExecutor → blocking_event → BlockingExecutor → Prop :=
  | blocking_accept t e e' : blocking_post (Some t) e = (true, e') → blocking_step e (Accepted t) e'
  | blocking_reject t e : blocking_post (Some t) e = (false, e) → blocking_step e (Rejected t) e
  | blocking_work w e e' : worker_step w e = Some e' → blocking_step e (Worked w) e'
  | blocking_finish w e e' : finish_task w e = Some e' → blocking_step e (Finished w) e'
  | blocking_stopped e : blocking_step e Stopped (blocking_stop e).

(** A run, with the tasks in the order in which they were started. *)
Inductive blocking_run e0 : list blocking_event → list Task → BlockingExecutor → Prop :=
  | blocking_nil : blocking_run e0 [] [] e0
  | blocking_start evs started e w t rest e' :
      blocking_run e0 evs started e → be_tasks e = t :: rest → worker_step w e = Some e' →
      blocking_run e0 (evs ++ [Worked w]) (started ++ [t]) e'
  | blocking_other evs started e ev e' :
      blocking_run e0 evs started e → blocking_step e ev e' →
      (∀ w, ev = Worked w → be_tasks e = []) →
      blocking_run e0 (evs ++ [ev]) started e'.

Definition accepted_tasks (evs : list blocking_event) : list Task :=
  omap (λ ev, match ev with Accepted t => Some t | _ => None end) evs.

Record blocking_inv (n max : nat) (evs : list blocking_event) (started : list Task) e : Prop := {
  bi_fifo : started ++ be_tasks e = accepted_tasks evs;
  bi_bound : (length (be_tasks e) ≤ max)%nat;
  bi_max : be_max_pending e = max;
  bi_workers : length (be_workers e) = n;
  bi_stopped : Stopped ∈ evs ↔ be_stopping e = true;
  bi_returned : ∀ w, be_workers e !! w = Some Returned → be_stopping e = true ∧ be_tasks e = [];
}.

Lemma worker_step_Some w e e' :
  worker_step w e = Some e' →
  be_workers e !! w = Some Waiting ∧
  ((∃ t rest, be_tasks e = t :: rest ∧
      e' = mkBlocking (be_max_pending e) rest (<[w := Running t]> (be_workers e)) (be_stopping e)) ∨
   (be_tasks e = [] ∧ be_stopping e = true ∧
      e' = mkBlocking (be_max_pending e) [] (<[w := Returned]> (be_workers e)) true)).
Proof.
  rw /worker_step. destruct (be_workers e !! w) as [[| |]|]; try done.
  destruct (be_tasks e) as [|t rest].
  - destruct (be_stopping e); [|done]. intros [= <-]. split; [done|]. by right.
  - intros [= <-]. split; [done|]. left. by exists t, rest.
Qed.

Lemma accepted_snoc evs ev :
  accepted_tasks (evs ++ [ev]) =
  accepted_tasks evs ++ match ev with Accepted t => [t] | _ => [] end.
Proof. rw /accepted_tasks omap_app /=. by destruct ev. Qed.

Lemma elem_of_snoc_other {A} (l : list A) x y : y ≠ x → x ∈ l ++ [y] ↔ x ∈ l.
Proof. intros Hne. rw elem_of_app list_elem_of_singleton. naive_solver. Qed.

Lemma blocking_run_inv n max e0 evs started e :
  BlockingExecutor_new n max = Ok e0 → blocking_run e0 evs started e → blocking_inv n max evs started e.
Proof.
  intros Hnew Hrun. induction Hrun as [|evs started e w t rest e' Hrun IH Ht Hw|evs started e ev e' Hrun IH Hs Hq].
  - rw /BlockingExecutor_new in Hnew. destruct (_ || _); [done|]. injection Hnew as <-.
    split; cbn; rw ?length_replicate; try done; [lia| |].
    + split; [by intros ?%not_elem_of_nil|done].
    + by intros w [? _]%lookup_replicate.
  - destruct IH as [H1 H2 H3 H4 H5 H6]. apply worker_step_Some in Hw as [Hwait [(t' & rest' & Ht' & ->)|(? & _)]]; [|congruence].
    rw Ht in Ht'. injection Ht' as <- <-. rw Ht /= in H2. split; cbn; try done; [| lia | | |].
    + rw accepted_snoc app_nil_r -H1 Ht -app_assoc //.
    + by rw length_insert.
    + by rw elem_of_snoc_other.
    + intros w'. rw list_lookup_insert. case_decide; [done|]. intros Hr. apply H6 in Hr as [_ Hr]. congruence.
  - destruct IH as [H1 H2 H3 H4 H5 H6]. destruct Hs as [t e e' Hp|t e Hp|w e e' Hw|w e e' Hf|e].
    + rw /blocking_post in Hp. destruct (_ || _) eqn:Hb; [done|]. guards. injection Hp as <-.
      split; cbn; try done.
      * by rw accepted_snoc app_assoc H1.
      * rw length_app /=. lia.
      * by rw elem_of_snoc_other.
      * intros w Hr. apply H6 in Hr as [Hr _]. congruence.
    + split; try done; [by rw accepted_snoc app_nil_r|by rw elem_of_snoc_other].
    + apply worker_step_Some in Hw as [Hwait [(t & rest & Ht & _)|(Ht & Hst & ->)]].
      { rw (Hq w eq_refl) in Ht. done. }
      split; cbn; try done; [by rw accepted_snoc -H1 Ht !app_nil_r|lia|by rw length_insert|rw elem_of_snoc_other //; by rw H5 Hst].
    + rw /finish_task in Hf. destruct (be_workers e !! w) as [[|t|]|] eqn:Hwk; try done. injection Hf as <-.
      split; cbn; try done; [by rw accepted_snoc app_nil_r|by rw length_insert|by rw elem_of_snoc_other|].
      intros w'. rw list_lookup_insert. case_decide; [done|]. apply H6.
    + split; cbn; try done; [by rw accepted_snoc app_nil_r| |].
      * split; [done|]. intros _. apply elem_of_app. right. by left.
      * intros w Hr. split; [done|]. by apply H6 in Hr as [_ ?].
Qed.

(** What is left to do for the workers. *)
Definition worker_work (s : WorkerState) : Z :=
  match s with Waiting => 1 | Running _ => 2 | Returned => 0 end.

Definition work_left e : Z := 3 * Z.of_nat (length (be_tasks e)) + sumZ worker_work (be_workers e).

Lemma worker_step_work w e e' : worker_step w e = Some e' → work_left e' < work_left e.
Proof.
  intros [Hw [(t & rest & Ht & ->)|(Ht & Hst & ->)]]%worker_step_Some; rw /work_left Ht /=;
    rw (sumZ_insert worker_work _ _ _ _ Hw) /=; lia.
Qed.

Lemma finish_task_work w e e' : finish_task w e = Some e' → work_left e' < work_left e.
Proof.
  rw /finish_task. destruct (be_workers e !! w) as [[|t|]|] eqn:Hw; try done. intros [= <-].
  rw /work_left /= (sumZ_insert worker_work _ _ _ _ Hw) /=. lia.
Qed.

Lemma work_left_nonneg e : 0 ≤ work_left e.
Proof.
  rw /work_left. pose proof (sumZ_nonneg worker_work (be_workers e)) as H.
  assert (0 ≤ sumZ worker_work (be_workers e)); [|lia]. apply H. by intros [].
Qed.

Lemma stuck_returned e :
  be_stopping e = true → (∀ w, worker_step w e = None ∧ finish_task w e = None) → all_returned e.
Proof.
  intros Hst Hstuck. apply Forall_lookup. intros w s Hw. destruct (Hstuck w) as [H1 H2].
  rw /worker_step Hw Hst in H1. rw /finish_task Hw in H2. destruct s; [|done|done].
  by destruct (be_tasks e).
Qed.

(** The blocking executor starts exactly the tasks it accepted, each once
    and in order, under every interleaving of posts and workers, and its queue
    never exceeds its bound. After [stop] has set its flag nothing more is
    accepted, the workers can take only finitely many steps, and when they can
    take none every worker has returned, so the joins succeed, and every task
    ever accepted has been started. *)
Lemma blocking_correct (n max : nat) (e0 e : BlockingExecutor) evs started :
  BlockingExecutor_new n max = Ok e0 → blocking_run e0 evs started e →
  started ++ be_tasks e = accepted_tasks evs ∧ (blocking_pending e ≤ max)%nat ∧
  (be_stopping e = true →
     (∀ t, blocking_post (Some t) e = (false, e)) ∧
     (∀ w e', worker_step w e = Some e' ∨ finish_task w e = Some e' →
        0 ≤ work_left e' < work_left e) ∧
     ((∀ w, worker_step w e = None ∧ finish_task w e = None) →
        all_returned e ∧ started = accepted_tasks evs)).
Proof.
  intros Hnew Hrun. destruct (blocking_run_inv n max e0 evs started e Hnew Hrun) as [H1 H2 H3 H4 H5 H6].
  split_and!; [done|done|]. intros Hst. split_and!.
  - intros t. by rw /blocking_post Hst.
  - intros w e' Hw. split; [apply work_left_nonneg|].
    destruct Hw; [by eapply worker_step_work|by eapply finish_task_work].
  - intros Hstuck. pose proof (stuck_returned e Hst Hstuck) as Hall. split; [done|].
    rw /BlockingExecutor_new in Hnew. destruct (_ || _) eqn:Hb; [done|]. guards.
    assert (is_Some (be_workers e !! 0%nat)) as [s Hs] by (apply lookup_lt_is_Some; lia).
    rw /all_returned Forall_lookup in Hall. pose proof (Hall _ _ Hs) as ->.
    apply H6 in Hs as [_ Hnil]. by rw Hnil app_nil_r in H1.
Qed.
End blocking.
Arguments BlockingExecutor : clear implicits.
Arguments WorkerState : clear implicits.
Arguments blocking_event : clear implicits.

(** ** A concrete run *)

Module BlockingDemo.
Definition e0 : BlockingExecutor nat := mkBlocking 2 [] [Waiting; Waiting] false.
Definition e1 := (blocking_post (Some 7%nat) e0).2.
Definition e2 := (blocking_post (Some 8%nat) e1).2.
Definition e3 := default e2 (worker_step 1 e2).
Definition e4 := blocking_stop e3.

Lemma run4 : blocking_run e0 [Accepted 7%nat; Accepted 8%nat; Worked 1; Stopped] [7%nat] e4.
Proof.
  apply (blocking_other _ [Accepted 7%nat; Accepted 8%nat; Worked 1] _ e3); [|constructor|done].
  eapply (blocking_start _ [Accepted 7%nat; Accepted 8%nat] [] e2); [|reflexivity|reflexivity].
  apply (blocking_other _ [Accepted 7%nat] _ e1); [|by constructor|done].
  apply (blocking_other _ [] _ e0); [constructor|by constructor|done].
Qed.

Lemma blocking_correct_witness : [7%nat] ++ be_tasks e4 = [7%nat; 8%nat] ∧ blocking_post (Some 9%nat) e4 = (false, e4).
Proof.
  destruct (blocking_correct 2 2 e0 e4 _ _ eq_refl run4) as (H1 & _ & H3).
  split; [exact H1|]. destruct (H3 eq_refl) as [H4 _]. exact (H4 9%nat).
Defined.
End BlockingDemo.
