(* ===== verification/ConnectionPool.v ===== *)
(** * The MySQL connection pool

    Model of [include/poker/storage/mysql_connection_pool.hpp] and
    [src/poker/infrastructure/mysql_connection_pool.cpp]. The MySQL client
    library is a parameter: each call of it takes its outcome from a
    [LibraryAnswer], and the set of handles that are open is kept, so that the
    use or the second closing of a closed handle is undefined behaviour. A call
    of the pool is a sequence of atomic segments, between two of which other
    threads run: what a thread still has to do is an [Activity]. *)
From S2P Require Import Prelude.

(** A [MYSQL*]. *)
Definition Conn := nat.

(** The outcomes of the calls of the library a segment may make. *)
Record LibraryAnswer := mkAnswer {
  la_init : gset Conn → option Conn;
  la_connect_error : option string;
  la_ping_ok : bool;
  la_rollback_ok : bool;
  la_autocommit_ok : bool;
}.

(** A handle that is allocated is none of the open ones. *)
Definition lawful (answer : LibraryAnswer) : Prop :=
  ∀ used c, la_init answer used = Some c → c ∉ used.

Record MySqlConnectionPool := mkPool {
  all_ : list Conn;
  available_ : list Conn;
  stopping_ : bool;
}.

(** The pool and the open handles, which the segments of all threads share. *)
Record Shared := mkShared { sh_pool : MySqlConnectionPool; sh_handles : gset Conn }.

Implicit Types (sh : Shared) (c failed replacement : Conn).

(** ** Calls of the client library *)

Definition use_handle c : M Shared unit :=
  sh ← mget; if decide (c ∈ sh_handles sh) then mret tt else mundef.

Definition mysql_close c : M Shared unit :=
  use_handle c ≫= λ _, mmodify (λ sh, mkShared (sh_pool sh) (sh_handles sh ∖ {[c]})).

Definition mysql_init (answer : LibraryAnswer) : M Shared (option Conn) := λ sh,
  match la_init answer (sh_handles sh) with
  | None => (Ok None, sh)
  | Some c => (Ok (Some c), mkShared (sh_pool sh) ({[c]} ∪ sh_handles sh))
  end.

Definition mysql_ping (answer : LibraryAnswer) c : M Shared bool :=
  use_handle c ≫= λ _, mret (la_ping_ok answer).

Definition on_pool (f : MySqlConnectionPool → MySqlConnectionPool) : M Shared unit :=
  mmodify (λ sh, mkShared (f (sh_pool sh)) (sh_handles sh)).

(** [connectOne]: setting options always succeeds. *)
Definition connectOne (answer : LibraryAnswer) : M Shared Conn :=
  o ← mysql_init answer;
  match o with
  | None => mthrow (runtime_error "mysql_init failed")
  | Some connection =>
      match la_connect_error answer with
      | Some error =>
          mysql_close connection ≫= λ _,
          mthrow (runtime_error ("mysql connection failed: " +:+ error))
      | None => mret connection
      end
  end.

(** ** The constructor *)

Definition add_connection connection (p : MySqlConnectionPool) : MySqlConnectionPool :=
  mkPool (all_ p ++ [connection]) (available_ p ++ [connection]) (stopping_ p).

(** The loop of the constructor; the answers of the library are numbered by
    the iterations. *)
Fixpoint connect_all (answers : nat → LibraryAnswer) (index remaining : nat) : M Shared unit :=
  match remaining with
  | O => mret tt
  | S remaining =>
      connection ← connectOne (answers index);
      on_pool (add_connection connection) ≫= λ _,
      connect_all answers (S index) remaining
  end.

(** [library_ok] is the outcome of [mysql_library_init], or [true] when an
    earlier constructor has made the call. *)
Definition MySqlConnectionPool_new (library_ok : bool) (answers : nat → LibraryAnswer)
    (pool_size : nat) : M Shared unit :=
  if library_ok then λ sh,
    match connect_all answers 0 pool_size sh with
    | (Throw e, sh') => (mfor (all_ (sh_pool sh')) mysql_close ≫= λ _, mthrow e) sh'
    | r => r
    end
  else mthrow (runtime_error "mysql client library initialization failed").

(** ** Leases *)

Record MySqlLease := mkLease { lease_pool : bool; lease_connection : option Conn }.

Definition empty_lease : MySqlLease := mkLease false None.

(** What [release] gives back to the pool. *)
Definition released (l : MySqlLease) : option Conn :=
  if lease_pool l then lease_connection l else None.

Definition lease_valid (l : MySqlLease) : bool := bool_decide (is_Some (lease_connection l)).

(** ** The segments of the pool's calls *)

(** Which call an activity belongs to. *)
Inductive Purpose := ForAcquire | ForPing | ForGiveBack.

Inductive Activity :=
  (** The connection is popped, [mysql_ping] follows. *)
  | Pinging (p : Purpose) (connection : Conn)
  (** [giveBack] starts with the rollback. *)
  | Resetting (connection : Conn)
  (** [replaceConnection] starts with [connectOne]. *)
  | Connecting (p : Purpose) (failed : Conn)
  (** [replaceConnection] is about to take the lock. *)
  | Swapping (p : Purpose) (failed replacement : Conn)
  (** [replaceConnection] has put the replacement in, [mysql_close] follows. *)
  | ClosingOld (p : Purpose) (failed replacement : Conn)
  (** [returnAvailable] is about to take the lock; for [ping], with its result. *)
  | Returning (p : Purpose) (connection : Conn) (healthy : bool).

(** What a call of the pool ends with. *)
Inductive Outcome :=
  | Acquired (connection : Conn)
  | NotAcquired
  | Pinged (healthy : bool)
  | GivenBack.

(** A segment ends the call or leaves the thread with the next one. *)
Definition Next : Type := Activity + Outcome.

(** Where the callers of [replaceConnection] go on. *)
Definition after_replace (p : Purpose) failed (r : option Conn) : Next :=
  match p, r with
  | ForAcquire, Some replacement => inr (Acquired replacement)
  | ForPing, Some replacement => inl (Returning ForPing replacement true)
  | ForGiveBack, Some replacement => inl (Returning ForGiveBack replacement true)
  | _, None => inl (Returning p failed false)
  end.

Definition take_back (p : MySqlConnectionPool) : option (Conn * MySqlConnectionPool) :=
  match last (available_ p) with
  | Some connection =>
      Some (connection, mkPool (all_ p) (take (length (available_ p) - 1) (available_ p)) (stopping_ p))
  | None => None
  end.

(** The wait of [acquire] ends when its predicate holds or at the timeout,
    where the predicate is evaluated once more; either way under the lock. *)
Definition acquire (pool : MySqlConnectionPool) : Next * MySqlConnectionPool :=
  if stopping_ pool then (inr NotAcquired, pool)
  else match take_back pool with
       | None => (inr NotAcquired, pool)
       | Some (connection, pool) => (inl (Pinging ForAcquire connection), pool)
       end.

Definition ping (pool : MySqlConnectionPool) : Next * MySqlConnectionPool :=
  if stopping_ pool then (inr (Pinged false), pool)
  else match take_back pool with
       | None => (inr (Pinged (bool_decide (all_ pool ≠ []))), pool)
       | Some (connection, pool) => (inl (Pinging ForPing connection), pool)
       end.

Definition returnAvailable connection : M Shared unit :=
  sh ← mget;
  if stopping_ (sh_pool sh) then mret tt
  else on_pool (λ p, mkPool (all_ p) (available_ p ++ [connection]) (stopping_ p)).

(** The locked part of [replaceConnection]; [false] for the returns of
    [nullptr]. *)
Definition swap_connection failed replacement : M Shared bool :=
  sh ← mget;
  if stopping_ (sh_pool sh) then mysql_close replacement ≫= λ _, mret false
  else match list_find (λ c, c = failed) (all_ (sh_pool sh)) with
       | None => mysql_close replacement ≫= λ _, mret false
       | Some (i, _) =>
           on_pool (λ p, mkPool (<[i:=replacement]> (all_ p)) (available_ p) (stopping_ p)) ≫= λ _,
           mret true
       end.

(** [catch (...) { return nullptr; }] around [connectOne]. *)
Definition try_connect (answer : LibraryAnswer) : M Shared (option Conn) := λ sh,
  match connectOne answer sh with
  | (Ok c, sh') => (Ok (Some c), sh')
  | (Throw _, sh') => (Ok None, sh')
  | (Undef, sh') => (Undef, sh')
  end.

Definition advance (answer : LibraryAnswer) (a : Activity) : M Shared Next :=
  match a with
  | Pinging p connection =>
      ok ← mysql_ping answer connection;
      if (ok : bool) then mret match p with
                      | ForPing => inl (Returning ForPing connection true)
                      | _ => inr (Acquired connection)
                      end
      else mret (inl (Connecting p connection))
  | Resetting connection =>
      use_handle connection ≫= λ _,
      if negb (la_rollback_ok answer) || negb (la_autocommit_ok answer)
      then mret (inl (Connecting ForGiveBack connection))
      else mret (inl (Returning ForGiveBack connection true))
  | Connecting p failed =>
      r ← try_connect answer;
      match r with
      | Some replacement => mret (inl (Swapping p failed replacement))
      | None => mret (after_replace p failed None)
      end
  | Swapping p failed replacement =>
      swapped ← swap_connection failed replacement;
      if (swapped : bool) then mret (inl (ClosingOld p failed replacement))
      else mret (after_replace p failed None)
  | ClosingOld p failed replacement =>
      mysql_close failed ≫= λ _, mret (after_replace p failed (Some replacement))
  | Returning p connection healthy =>
      returnAvailable connection ≫= λ _,
      mret match p with
           | ForAcquire => inr NotAcquired
           | ForPing => inr (Pinged healthy)
           | ForGiveBack => inr GivenBack
           end
  end.

(** [~MySqlConnectionPool]: the locked part, and the closing of everything. *)
Definition stop_pool (p : MySqlConnectionPool) : MySqlConnectionPool :=
  mkPool (all_ p) (available_ p) true.

Definition close_pool : M Shared unit :=
  sh ← mget; mfor (all_ (sh_pool sh)) mysql_close.

(** ** A pool in use *)

(** The pool, the lease objects of its users, the calls under way, and whether
    the pool has been destroyed. *)
Record PoolWorld := mkPoolWorld {
  pw_shared : Shared;
  pw_leases : list MySqlLease;
  pw_activities : list Activity;
  pw_destroyed : bool;
}.

Implicit Types (w : PoolWorld).

Definition with_shared sh w := mkPoolWorld sh (pw_leases w) (pw_activities w) (pw_destroyed w).

(** A thread goes on with a call, or receives its result: [acquire] returns a
    new lease. *)
Definition go_on (n : Next) w : PoolWorld :=
  match n with
  | inl a => mkPoolWorld (pw_shared w) (pw_leases w) (pw_activities w ++ [a]) (pw_destroyed w)
  | inr (Acquired c) =>
      mkPoolWorld (pw_shared w) (pw_leases w ++ [mkLease true (Some c)]) (pw_activities w) (pw_destroyed w)
  | inr NotAcquired =>
      mkPoolWorld (pw_shared w) (pw_leases w ++ [empty_lease]) (pw_activities w) (pw_destroyed w)
  | inr _ => w
  end.

Definition start_call (call : MySqlConnectionPool → Next * MySqlConnectionPool) w : PoolWorld :=
  let '(n, pool) := call (sh_pool (pw_shared w)) in
  go_on n (with_shared (mkShared pool (sh_handles (pw_shared w))) w).

(** [release] of lease [i], which takes the fields of [l] afterwards; no other
    thread looks at the lease in between. *)
Definition release_into (i : nat) (l : MySqlLease) w : PoolWorld :=
  let back := match pw_leases w !! i with
              | Some old => Resetting <$> option_list (released old)
              | None => []
              end in
  mkPoolWorld (pw_shared w) (<[i:=l]> (pw_leases w)) (pw_activities w ++ back) (pw_destroyed w).

(** The destructor, and the moving constructor and assignment, of leases. *)
Definition lease_destroy (i : nat) w : PoolWorld := release_into i empty_lease w.

Definition lease_move (i : nat) w : PoolWorld :=
  let l := default empty_lease (pw_leases w !! i) in
  mkPoolWorld (pw_shared w) (<[i:=empty_lease]> (pw_leases w) ++ [l]) (pw_activities w) (pw_destroyed w).

Definition lease_assign (i j : nat) w : PoolWorld :=
  if (i =? j)%nat then w
  else let l := default empty_lease (pw_leases w !! j) in
       let w := release_into i l w in
       mkPoolWorld (pw_shared w) (<[j:=empty_lease]> (pw_leases w)) (pw_activities w) (pw_destroyed w).

(** One segment of one thread. Nobody uses the pool or a lease of it once its
    destructor closes the connections. *)
Inductive pool_step w : PoolWorld → Prop :=
  | step_acquire : pw_destroyed w = false → pool_step w (start_call acquire w)
  | step_ping : pw_destroyed w = false → pool_step w (start_call ping w)
  | step_advance i a answer n sh :
      pw_destroyed w = false → pw_activities w !! i = Some a → lawful answer →
      advance answer a (pw_shared w) = (Ok n, sh) →
      pool_step w (go_on n (mkPoolWorld sh (pw_leases w) (delete i (pw_activities w)) false))
  | step_destroy_lease i :
      pw_destroyed w = false → is_Some (pw_leases w !! i) → pool_step w (lease_destroy i w)
  | step_move i :
      pw_destroyed w = false → is_Some (pw_leases w !! i) → pool_step w (lease_move i w)
  | step_assign i j :
      pw_destroyed w = false → is_Some (pw_leases w !! i) → is_Some (pw_leases w !! j) →
      pool_step w (lease_assign i j w)
  | step_stop :
      pw_destroyed w = false →
      pool_step w (with_shared (mkShared (stop_pool (sh_pool (pw_shared w))) (sh_handles (pw_shared w))) w)
  | step_close sh :
      pw_destroyed w = false → stopping_ (sh_pool (pw_shared w)) = true → pw_activities w = [] →
      Forall (λ l, released l = None) (pw_leases w) →
      close_pool (pw_shared w) = (Ok tt, sh) →
      pool_step w (mkPoolWorld sh (pw_leases w) [] true).

Definition pool_run : PoolWorld → PoolWorld → Prop := rtc pool_step.

(** Before the constructor. *)
Definition no_pool : Shared := mkShared (mkPool [] [] false) ∅.

(** The states that a pool of [size] connections can be in. *)
Definition pool_reachable (size : nat) w : Prop :=
  ∃ answers sh, (∀ i, lawful (answers i)) ∧
    MySqlConnectionPool_new true answers size no_pool = (Ok tt, sh) ∧
    pool_run (mkPoolWorld sh [] [] false) w.

(** ** Where the connections are *)

(** The connection of [all_] an activity holds, and the open handle outside
    of [all_] it is responsible for. *)
Definition held_by (a : Activity) : option Conn :=
  match a with
  | Pinging _ c | Resetting c | Connecting _ c | Swapping _ c _ | Returning _ c _ => Some c
  | ClosingOld _ _ c => Some c
  end.

Definition outside (a : Activity) : option Conn :=
  match a with
  | Swapping _ _ c => Some c
  | ClosingOld _ c _ => Some c
  | _ => None
  end.

Definition leased w : list Conn := omap released (pw_leases w).

Definition held w : list Conn :=
  available_ (sh_pool (pw_shared w)) ++ leased w ++ omap held_by (pw_activities w).

(** Every connection is in one place: available, in [held] (leased or in a
    call), or given up because the pool stops; all of them and the handles in
    [outside] (a replacement is under way with them) are open, and nothing
    else. *)
Record conns_inv (size : nat) sh (held outside : list Conn) : Prop := {
  ci_size : length (all_ (sh_pool sh)) = size;
  ci_places : ∃ dropped, available_ (sh_pool sh) ++ held ++ dropped ≡ₚ all_ (sh_pool sh) ∧
    (stopping_ (sh_pool sh) = false → dropped = []);
  ci_distinct : NoDup (all_ (sh_pool sh) ++ outside);
  ci_open : ∀ c, c ∈ sh_handles sh ↔ c ∈ all_ (sh_pool sh) ++ outside;
}.

Definition pool_inv (size : nat) w : Prop :=
  conns_inv size (pw_shared w) (leased w ++ omap held_by (pw_activities w)) (omap outside (pw_activities w)).

#[export] Instance conns_inv_Permutation size sh : Proper ((≡ₚ) ==> (≡ₚ) ==> iff) (conns_inv size sh).
Proof.
  cut (Proper ((≡ₚ) ==> (≡ₚ) ==> impl) (conns_inv size sh)).
  { intros HP h h' Hh o o' Ho. split; by apply HP. }
  intros h h' Hh o o' Ho [H1 (d & H2 & H3) H4 H5]. split; [done| | |].
  - exists d. by rw -Hh.
  - by rw -Ho.
  - intros c. by rw -Ho.
Qed.

Lemma omap_insert_Permutation {A B} (f : A → option B) l i x y :
  l !! i = Some x →
  option_list (f x) ++ omap f (<[i:=y]> l) ≡ₚ option_list (f y) ++ omap f l.
Proof.
  intros Hi. pose proof (insert_cons_Permutation l i x y Hi) as Hp.
  apply (omap_Permutation f) in Hp. cbn in Hp. destruct (f x), (f y); cbn; by rw Hp.
Qed.

Lemma omap_delete_Permutation {A B} (f : A → option B) l i x :
  l !! i = Some x → omap f l ≡ₚ option_list (f x) ++ omap f (delete i l).
Proof. intros Hi. rw {1}(delete_Permutation l i x Hi) /=. by destruct (f x). Qed.

(** ** Every segment keeps the connections in their places *)

Definition next_held (n : Next) : list Conn :=
  match n with
  | inl a => option_list (held_by a)
  | inr (Acquired c) => [c]
  | inr _ => []
  end.

Definition next_outside (n : Next) : list Conn :=
  match n with inl a => option_list (outside a) | inr _ => [] end.

Section segments.
  Context (size : nat).

Lemma held_open sh H O c : conns_inv size sh H O → c ∈ H → c ∈ all_ (sh_pool sh) ∧ c ∈ sh_handles sh.
Proof.
  intros [_ (d & Hp & _) _ Hopen] Hc. assert (c ∈ all_ (sh_pool sh)) as Ha.
  { rw -Hp. set_solver. }
  split; [done|]. apply Hopen. set_solver.
Qed.

Lemma use_open sh c : c ∈ sh_handles sh → use_handle c sh = (Ok tt, sh).
Proof. intros Hc. rw /use_handle /mbind /M_bind /mget. by rw decide_True. Qed.

Lemma close_outside sh H O c :
  conns_inv size sh H (c :: O) →
  ∃ sh', mysql_close c sh = (Ok tt, sh') ∧ conns_inv size sh' H O ∧ sh_pool sh' = sh_pool sh.
Proof.
  intros [H1 H2 H3 H4]. rw /mysql_close /mbind /M_bind use_open; [apply H4; set_solver|].
  eexists. split_and!; [reflexivity| |reflexivity].
  assert (c ∉ all_ (sh_pool sh) ++ O ∧ NoDup (all_ (sh_pool sh) ++ O)) as [Hc Hnd].
  { by rw -Permutation_middle NoDup_cons in H3. }
  split; cbn; [done|done|done|]. intros d. rw elem_of_difference H4 elem_of_singleton.
  set_solver.
Qed.

Lemma connectOne_spec answer sh H O :
  lawful answer → conns_inv size sh H O →
  ∃ sh', sh_pool sh' = sh_pool sh ∧
    ((∃ c, connectOne answer sh = (Ok c, sh') ∧ conns_inv size sh' H (c :: O)) ∨
     (∃ e, connectOne answer sh = (Throw e, sh') ∧ conns_inv size sh' H O)).
Proof.
  intros Hl Hi. rw /connectOne /mysql_init /mbind /M_bind.
  destruct (la_init answer (sh_handles sh)) as [c|] eqn:Hc; cbn; [|exists sh; eauto].
  apply Hl in Hc. set sh1 := mkShared _ _.
  assert (conns_inv size sh1 H (c :: O)) as Hi1.
  { destruct Hi as [H1 H2 H3 H4]. split; cbn; [done|done| |].
    - rw -Permutation_middle NoDup_cons. split; [by rw -H4|done].
    - intros d. rw elem_of_union H4 elem_of_singleton. set_solver. }
  destruct (la_connect_error answer) as [e|].
  - destruct (close_outside sh1 H O c Hi1) as (sh2 & -> & Hi2 & Hp). exists sh2. eauto.
  - exists sh1. eauto.
Qed.

Lemma connect_spec answer sh H O :
  lawful answer → conns_inv size sh H O →
  ∃ r sh', try_connect answer sh = (Ok r, sh') ∧ conns_inv size sh' H (option_list r ++ O).
Proof.
  intros Hl Hi. rw /try_connect.
  destruct (connectOne_spec answer sh H O Hl Hi) as (sh' & _ & [(c & -> & ?)|(e & -> & ?)]).
  - by exists (Some c), sh'.
  - by exists None, sh'.
Qed.

Lemma swap_spec sh H O c r :
  conns_inv size sh (c :: H) (r :: O) →
  ∃ b sh', swap_connection c r sh = (Ok b, sh') ∧
    if (b : bool) then conns_inv size sh' (r :: H) (c :: O) else conns_inv size sh' (c :: H) O.
Proof.
  intros Hi. rw /swap_connection /mbind /M_bind /mget.
  destruct (stopping_ (sh_pool sh)) eqn:Hst.
  { destruct (close_outside sh _ O r Hi) as (sh' & -> & Hi' & _). by exists false, sh'. }
  destruct (held_open sh _ _ c Hi) as [Hall _]; [left|].
  destruct (list_find_elem_of (λ x, x = c) (all_ (sh_pool sh)) c Hall eq_refl) as [[i c'] Hf].
  rw Hf. apply list_find_Some in Hf as (Hi' & -> & _). cbn.
  eexists true, _. split; [reflexivity|]. cbn. destruct Hi as [H1 (d & H2 & H2') H3 H4].
  pose proof (insert_cons_Permutation _ _ _ r Hi') as Hp. split; cbn.
  - by rw length_insert.
  - exists d. split; [|done]. apply (Permutation_cons_inv (a:=c)). rw -Hp -H2.
    rw -!Permutation_middle. apply Permutation_swap.
  - rw -Permutation_middle app_comm_cons -Hp /=. by rw -Permutation_middle in H3.
  - intros x. rw H4. by rw -!Permutation_middle !app_comm_cons -Hp.
Qed.

Lemma return_spec sh H O c :
  conns_inv size sh (c :: H) O →
  ∃ sh', returnAvailable c sh = (Ok tt, sh') ∧ conns_inv size sh' H O.
Proof.
  intros [H1 (d & H2 & H2') H3 H4]. rw /returnAvailable /mbind /M_bind /mget.
  destruct (stopping_ (sh_pool sh)) eqn:Hst.
  - exists sh. split; [done|]. split; [done| |done|done]. exists (c :: d). cbn.
    split; [|congruence]. rw -H2 -!Permutation_middle. done.
  - eexists. split; [reflexivity|]. split; cbn; [done| |done|done].
    exists d. split; [|intros; by apply H2']. by rw -H2 -app_assoc.
Qed.

(** A segment of a call runs to its end, whatever the library answers. *)
Lemma advance_spec answer a sh H O :
  lawful answer → conns_inv size sh (option_list (held_by a) ++ H) (option_list (outside a) ++ O) →
  ∃ n sh', advance answer a sh = (Ok n, sh') ∧ conns_inv size sh' (next_held n ++ H) (next_outside n ++ O).
Proof.
  intros Hl Hi. rw /advance. destruct a as [p c|c|p c|p c r|p c r|p c b]; cbn in Hi.
  - rw /mysql_ping /mbind /M_bind use_open; [by eapply held_open; [done|left]|]. cbn.
    destruct (la_ping_ok answer); [|by do 2 eexists]. by destruct p; do 2 eexists.
  - rw /mbind /M_bind use_open; [by eapply held_open; [done|left]|].
    by destruct (_ || _); do 2 eexists.
  - rw /mbind /M_bind. destruct (connect_spec answer sh _ O Hl Hi) as (r & sh' & -> & Hi').
    destruct r; [by do 2 eexists|]. by destruct p; do 2 eexists.
  - rw /mbind /M_bind. destruct (swap_spec sh H O c r Hi) as ([|] & sh' & -> & Hi'); [by do 2 eexists|].
    by destruct p; do 2 eexists.
  - rw /mbind /M_bind. destruct (close_outside sh _ O c Hi) as (sh' & -> & Hi' & _).
    by destruct p; do 2 eexists.
  - rw /mbind /M_bind. destruct (return_spec sh H O c Hi) as (sh' & -> & Hi').
    by destruct p; do 2 eexists.
Qed.

Lemma take_back_spec pool c pool' :
  take_back pool = Some (c, pool') →
  available_ pool = available_ pool' ++ [c] ∧ all_ pool' = all_ pool ∧ stopping_ pool' = stopping_ pool.
Proof.
  rw /take_back. destruct (last (available_ pool)) as [x|] eqn:Hx; [|done]. intros [= -> <-].
  apply last_Some in Hx as [l Hx]. rw Hx. cbn. split_and!; [|done|done].
  by rw length_app Nat.add_sub take_app_length.
Qed.
End segments.

(** ** Construction and destruction *)

Lemma close_list l sh :
  NoDup l → (∀ c, c ∈ sh_handles sh ↔ c ∈ l) →
  ∃ sh', mfor l mysql_close sh = (Ok tt, sh') ∧ ∀ c, c ∉ sh_handles sh'.
Proof.
  revert sh. induction l as [|c l IH]; intros sh Hnd Hopen.
  { exists sh. split; [done|]. intros c. rw Hopen. apply not_elem_of_nil. }
  apply NoDup_cons in Hnd as [Hc Hnd]. cbn. rw /mysql_close /mbind /M_bind use_open; [apply Hopen; left|].
  cbn. apply IH; [done|]. intros d. cbn. rw elem_of_difference Hopen elem_of_cons elem_of_singleton.
  split; [naive_solver|]. intros Hd. split; [by right|]. by intros ->.
Qed.

Lemma close_pool_spec size sh H :
  conns_inv size sh H [] → ∃ sh', close_pool sh = (Ok tt, sh') ∧ ∀ c, c ∉ sh_handles sh'.
Proof.
  intros [_ _ H3 H4]. apply close_list; [by rw app_nil_r in H3|]. intros c. by rw H4 app_nil_r.
Qed.

Lemma add_connection_inv size sh c :
  conns_inv size sh [] [c] → stopping_ (sh_pool sh) = false →
  conns_inv (S size) (mkShared (add_connection c (sh_pool sh)) (sh_handles sh)) [] [].
Proof.
  intros [H1 (d & H2 & H2') H3 H4] Hst. rw (H2' Hst) /= app_nil_r in H2. split; cbn.
  - rw length_app /=. lia.
  - exists []. split; [|done]. by rw !app_nil_r H2.
  - by rw app_nil_r.
  - intros x. by rw H4 app_nil_r.
Qed.

Lemma connect_all_spec answers : (∀ i, lawful (answers i)) → ∀ n index size sh,
  conns_inv size sh [] [] → stopping_ (sh_pool sh) = false →
  match connect_all answers index n sh with
  | (Ok _, sh') => conns_inv (size + n) sh' [] [] ∧ stopping_ (sh_pool sh') = false
  | (Throw _, sh') => ∃ size', conns_inv size' sh' [] []
  | (Undef, _) => False
  end.
Proof.
  intros Hl. induction n as [|n IH]; intros index size sh Hi Hst; cbn.
  { by rw Nat.add_0_r. }
  rw /mbind /M_bind.
  destruct (connectOne_spec size (answers index) sh [] [] (Hl index) Hi)
    as (sh' & Hp & [(c & -> & Hi')|(e & -> & Hi')]); [|by eexists].
  rw /on_pool /=. specialize (IH (S index) (S size) (mkShared (add_connection c (sh_pool sh')) (sh_handles sh'))).
  rw -Nat.add_succ_comm. apply IH; [|by rw /= Hp].
  apply add_connection_inv; [done|by rw Hp].
Qed.

(** The constructor connects [size] times, or throws and leaves nothing open. *)
Lemma pool_new_spec library_ok answers size : (∀ i, lawful (answers i)) →
  match MySqlConnectionPool_new library_ok answers size no_pool with
  | (Ok _, sh) => conns_inv size sh [] [] ∧ stopping_ (sh_pool sh) = false
  | (Throw _, sh) => ∀ c, c ∉ sh_handles sh
  | (Undef, _) => False
  end.
Proof.
  intros Hl. destruct library_ok; cbn; [|set_solver].
  assert (conns_inv 0 no_pool [] []) as H0.
  { split; cbn; [done|by exists []|by constructor|set_solver]. }
  pose proof (connect_all_spec answers Hl size 0 0 no_pool H0 eq_refl) as Hc.
  destruct (connect_all answers 0 size no_pool) as [[u|e|] sh]; [done| |done].
  destruct Hc as [size' Hc]. destruct (close_pool_spec size' sh [] Hc) as (sh' & Hclose & Hnone).
  rw /close_pool /mbind /M_bind /mget in Hclose. by rw /mbind /M_bind Hclose.
Qed.

(** ** Every step keeps the invariant *)

Lemma omap_snoc {A B} (f : A → option B) l x : omap f (l ++ [x]) ≡ₚ option_list (f x) ++ omap f l.
Proof. rw omap_app Permutation_app_comm /=. by destruct (f x). Qed.

Lemma go_on_inv size sh leases acts n :
  conns_inv size sh (next_held n ++ omap released leases ++ omap held_by acts)
    (next_outside n ++ omap outside acts) →
  pool_inv size (go_on n (mkPoolWorld sh leases acts false)).
Proof.
  rw /pool_inv /leased. destruct n as [a|[c| |b|]]; cbn.
  - rw !omap_snoc. by rw !(Permutation_app_swap_app (option_list (held_by a))).
  - by rw omap_snoc.
  - by rw omap_snoc.
  - done.
  - done.
Qed.

Lemma start_call_inv size call w :
  (∀ pool, (∃ n, call pool = (n, pool) ∧ next_held n = [] ∧ next_outside n = []) ∨
     ∃ p c pool', take_back pool = Some (c, pool') ∧ call pool = (inl (Pinging p c), pool')) →
  pw_destroyed w = false → pool_inv size w → pool_inv size (start_call call w).
Proof.
  destruct w as [[pool hs] leases acts d]. cbn. intros Hcall -> Hi. rw /start_call /=.
  destruct (Hcall pool) as [(n & -> & Hh & Ho)|(p & c & pool' & Ht & ->)].
  { apply go_on_inv. by rw Hh Ho. }
  apply take_back_spec in Ht as (Ha & Hall & Hst'). apply (go_on_inv size _ _ _ (inl _)). cbn.
  destruct Hi as [H1 (dr & H2 & H2') H3 H4]. cbn in *.
  split; cbn; rw ?Hall ?Hst'; [done| |done|done]. exists dr. split; [|done].
  by rw -H2 Ha -!app_assoc.
Qed.

Lemma acquire_call pool :
  (∃ n, acquire pool = (n, pool) ∧ next_held n = [] ∧ next_outside n = []) ∨
  ∃ p c pool', take_back pool = Some (c, pool') ∧ acquire pool = (inl (Pinging p c), pool').
Proof.
  rw /acquire. destruct (stopping_ pool); [left; by eexists|].
  destruct (take_back pool) as [[c pool']|]; [right|left]; by repeat eexists.
Qed.

Lemma ping_call pool :
  (∃ n, ping pool = (n, pool) ∧ next_held n = [] ∧ next_outside n = []) ∨
  ∃ p c pool', take_back pool = Some (c, pool') ∧ ping pool = (inl (Pinging p c), pool').
Proof.
  rw /ping. destruct (stopping_ pool); [left; by eexists|].
  destruct (take_back pool) as [[c pool']|]; [right|left]; by repeat eexists.
Qed.

(** What leases hold may move between leases and calls. *)
Lemma pool_inv_move size w w' :
  pw_shared w' = pw_shared w → omap outside (pw_activities w') ≡ₚ omap outside (pw_activities w) →
  leased w' ++ omap held_by (pw_activities w') ≡ₚ leased w ++ omap held_by (pw_activities w) →
  pool_inv size w → pool_inv size w'.
Proof. rw /pool_inv. by intros -> -> ->. Qed.

Lemma release_into_places i l l' w :
  pw_leases w !! i = Some l' →
  let w' := release_into i l w in
  leased w' ++ omap held_by (pw_activities w') ≡ₚ
    option_list (released l) ++ leased w ++ omap held_by (pw_activities w).
Proof.
  intros Hl. cbn. rw Hl /leased /=. pose proof (omap_insert_Permutation released _ _ _ l Hl) as Hp.
  rw omap_app !app_assoc -Hp.
  destruct (released l'); cbn; rw ?app_nil_r; [|done]. by rw Permutation_app_comm.
Qed.

Lemma release_into_outside i l w :
  omap outside (pw_activities (release_into i l w)) = omap outside (pw_activities w).
Proof.
  rw /release_into /= omap_app. destruct (pw_leases w !! i) as [l'|]; cbn; [|by rw app_nil_r].
  destruct (released l'); by rw app_nil_r.
Qed.

Lemma lease_move_inv size i w :
  is_Some (pw_leases w !! i) → pool_inv size w → pool_inv size (lease_move i w).
Proof.
  intros [l Hl]. apply pool_inv_move; [done|done|]. rw /lease_move /leased /= Hl /= omap_snoc.
  by rw (omap_insert_Permutation released _ _ _ empty_lease Hl).
Qed.

Lemma lease_destroy_inv size i w :
  is_Some (pw_leases w !! i) → pool_inv size w → pool_inv size (lease_destroy i w).
Proof.
  intros [l Hl]. apply pool_inv_move; [done|by rw release_into_outside|].
  by rw (release_into_places _ _ _ _ Hl).
Qed.

Lemma lease_assign_inv size i j w :
  is_Some (pw_leases w !! i) → is_Some (pw_leases w !! j) →
  pool_inv size w → pool_inv size (lease_assign i j w).
Proof.
  rw /lease_assign. destruct (Nat.eqb_spec i j) as [|Hij]; [done|]. intros [l Hl] [l' Hl'].
  apply pool_inv_move; [done|by rw -(release_into_outside i l' w) Hl'|].
  rw Hl' /=. apply (Permutation_app_inv_l (option_list (released l'))).
  rw -(release_into_places _ _ _ _ Hl) app_assoc. apply Permutation_app; [|by rw /= Hl].
  rw /leased /= (omap_insert_Permutation released _ _ _ empty_lease) //.
  by rw list_lookup_insert_ne.
Qed.

Definition world_inv (size : nat) w : Prop :=
  if pw_destroyed w then ∀ c, c ∉ sh_handles (pw_shared w) else pool_inv size w.

Lemma go_on_destroyed n w : pw_destroyed (go_on n w) = pw_destroyed w.
Proof. by destruct n as [|[]]. Qed.

Lemma start_call_destroyed call w : pw_destroyed (start_call call w) = pw_destroyed w.
Proof. rw /start_call. destruct (call _). by rw go_on_destroyed. Qed.

Lemma pool_step_inv size w w' : pool_step w w' → world_inv size w → world_inv size w'.
Proof.
  rw /world_inv. intros Hs. destruct Hs as [Hd|Hd|i a answer n sh Hd Ha Hl Hadv|i Hd Hi|i Hd Hi|i j Hd Hi Hj|Hd|sh Hd _ Hacts Hleases Hclose];
    rw ?start_call_destroyed ?go_on_destroyed ?Hd; intros Hinv.
  - by apply (start_call_inv size acquire w acquire_call).
  - by apply (start_call_inv size ping w ping_call).
  - apply go_on_inv. rw /pool_inv (omap_delete_Permutation held_by _ _ _ Ha) in Hinv.
    rw (omap_delete_Permutation outside _ _ _ Ha) (Permutation_app_swap_app (leased w)) in Hinv.
    destruct (advance_spec size answer a _ _ _ Hl Hinv) as (n' & sh' & Hadv' & Hinv').
    rw Hadv' in Hadv. by injection Hadv as -> ->.
  - cbn. rw ?Hd. by apply lease_destroy_inv.
  - cbn. rw ?Hd. by apply lease_move_inv.
  - assert (pw_destroyed (lease_assign i j w) = false) as ->; [|by apply lease_assign_inv].
    rw /lease_assign. by destruct (_ =? _)%nat.
  - cbn. rw ?Hd. destruct Hinv as [H1 (d & H2 & _) H3 H4]. split; cbn; [done| |done|done].
    by exists d.
  - cbn. rw /pool_inv Hacts /= in Hinv.
    destruct (close_pool_spec size _ _ Hinv) as (sh' & Hclose' & Hnone). rw Hclose' in Hclose.
    by injection Hclose as ->.
Qed.

Lemma pool_reachable_inv size w : pool_reachable size w → world_inv size w.
Proof.
  intros (answers & sh & Hl & Hnew & Hrun).
  pose proof (pool_new_spec true answers size Hl) as Hs. rw Hnew in Hs. destruct Hs as [Hs _].
  assert (world_inv size (mkPoolWorld sh [] [] false)) as H0 by done.
  clear Hnew Hs. induction Hrun as [|w1 w2 w3 Hstep Hrun IH]; [done|].
  by apply IH, (pool_step_inv size w1).
Qed.

(** The segments a call still needs at most. *)
Definition segments_left (a : Activity) : nat :=
  match a with
  | Pinging _ _ | Resetting _ => 5
  | Connecting _ _ => 4
  | Swapping _ _ _ => 3
  | ClosingOld _ _ _ => 2
  | Returning _ _ _ => 1
  end.

Lemma segments_decrease answer a a' sh sh' :
  advance answer a sh = (Ok (inl a'), sh') → (segments_left a' < segments_left a)%nat.
Proof.
  destruct a as [p c|c|p c|p c r|p c r|p c b]; cbn; rw /mbind /M_bind;
    [destruct (mysql_ping answer c sh) as [[b| |] s1]|destruct (use_handle c sh) as [[u| |] s1]
    |destruct (try_connect answer sh) as [[o| |] s1]|destruct (swap_connection c r sh) as [[b| |] s1]
    |destruct (mysql_close c sh) as [[u| |] s1]|destruct (returnAvailable c sh) as [[u| |] s1]]; try done.
  - destruct b, p; intros [= <- _]; cbn; lia.
  - destruct (_ || _); intros [= <- _]; cbn; lia.
  - destruct o, p; intros [= <- _]; cbn; lia.
  - destruct b, p; intros [= <- _]; cbn; lia.
  - destruct p; intros [= <- _]; cbn; lia.
  - by destruct p.
Qed.

(** C26: Whatever the database answers and however threads interleave, the
    connection pool keeps its number of distinct connections, a connection is
    leased to at most one user, is open as long as it is leased and is never
    available at the same time; no closed handle is used or closed again, no call
    throws, and every call ends after at most five segments; when nobody uses the
    pool all of its connections are available, and a destroyed pool leaves no
    handle open. *)
Theorem pool_exclusive (size : nat) (w : PoolWorld) :
  pool_reachable size w →
  (pw_destroyed w = false →
     let sh := pw_shared w in
     NoDup (all_ (sh_pool sh)) ∧ length (all_ (sh_pool sh)) = size ∧
     NoDup (leased w) ∧
     (∀ c, c ∈ leased w → c ∈ sh_handles sh ∧ c ∉ available_ (sh_pool sh)) ∧
     (∀ a answer, a ∈ pw_activities w → lawful answer → ∃ n sh', advance answer a sh = (Ok n, sh') ∧
        ∀ a', n = inl a' → (segments_left a' < segments_left a ≤ 5)%nat) ∧
     (pw_activities w = [] → leased w = [] → stopping_ (sh_pool sh) = false →
        available_ (sh_pool sh) ≡ₚ all_ (sh_pool sh) ∧ ∀ c, c ∈ sh_handles sh ↔ c ∈ all_ (sh_pool sh))) ∧
  (pw_destroyed w = true → ∀ c, c ∉ sh_handles (pw_shared w)).
Proof.
  intros Hr%pool_reachable_inv. rw /world_inv in Hr. destruct (pw_destroyed w); split; try done.
  intros _. cbv zeta. pose proof Hr as [Hsize (d & Hplaces & Hdrop) Hdist Hopen].
  assert (NoDup (all_ (sh_pool (pw_shared w)))) as Hnd by by apply NoDup_app in Hdist as [? _].
  pose proof Hnd as Hnd'. rw -Hplaces -!app_assoc in Hnd'.
  apply NoDup_app in Hnd' as (_ & Hapart & Hheld). apply NoDup_app in Hheld as (Hleased & _ & _).
  split_and!; [done|done|done| | |].
  - intros c Hc. split; [|intros Ha; apply (Hapart c Ha); set_solver].
    apply (held_open _ _ _ _ c Hr). set_solver.
  - intros a answer Ha Hl. apply list_elem_of_lookup in Ha as [i Ha]. rw /pool_inv in Hr.
    rw (omap_delete_Permutation held_by _ _ _ Ha) (omap_delete_Permutation outside _ _ _ Ha)
      (Permutation_app_swap_app (leased w)) in Hr.
    destruct (advance_spec size answer a _ _ _ Hl Hr) as (n & sh' & Hadv & _). exists n, sh'. split; [done|].
    intros a' ->. split; [by eapply segments_decrease|]. destruct a; cbn; lia.
  - intros Hacts Hl Hst. rw Hl Hacts (Hdrop Hst) /= !app_nil_r in Hplaces. split; [done|].
    intros c. by rw Hopen Hacts app_nil_r.
Qed.

(** ** A concrete run *)

Module PoolDemo.
Definition next_handle (used : gset Conn) : option Conn := Some (S (foldr Nat.max 0%nat (elements used))).

Definition healthy : LibraryAnswer := mkAnswer next_handle None true true true.
Definition broken : LibraryAnswer := mkAnswer next_handle None false false false.

Lemma next_handle_fresh used c : next_handle used = Some c → c ∉ used.
Proof.
  intros [= <-] Hin%elem_of_elements. induction (elements used) as [|d l IH]; [by apply not_elem_of_nil in Hin|].
  assert (∀ x, x ∈ d :: l → (x ≤ foldr Nat.max 0 (d :: l))%nat) as Hmax.
  { clear. induction (d :: l) as [|y l' IH]; intros x Hx; [by apply not_elem_of_nil in Hx|].
    apply elem_of_cons in Hx as [->|Hx%IH]; cbn; lia. }
  apply Hmax in Hin. lia.
Qed.

Definition w0 : PoolWorld :=
  mkPoolWorld (MySqlConnectionPool_new true (λ _, healthy) 2 no_pool).2 [] [] false.

(** The next segment of the first call under way. *)
Definition segment (answer : LibraryAnswer) w : PoolWorld :=
  match pw_activities w with
  | a :: rest =>
      match advance answer a (pw_shared w) with
      | (Ok n, sh) => go_on n (mkPoolWorld sh (pw_leases w) rest false)
      | _ => w
      end
  | [] => w
  end.

(** A connection is found broken and replaced by [acquire], given back, and a
    second one is acquired meanwhile. *)
Definition w1 := start_call acquire w0.
Definition w2 := segment broken w1.
Definition w3 := segment healthy w2.
Definition w4 := segment healthy w3.
Definition w5 := segment healthy w4.
Definition w6 := lease_move 0 w5.
Definition w7 := start_call acquire w6.
Definition w8 := segment healthy w7.
Definition w9 := lease_destroy 1 w8.

Lemma segment_step answer w a rest n sh :
  lawful answer → pw_destroyed w = false → pw_activities w = a :: rest →
  advance answer a (pw_shared w) = (Ok n, sh) → pool_step w (segment answer w).
Proof.
  intros Hl Hd Ha Hadv. rw /segment Ha Hadv.
  assert (rest = delete 0%nat (pw_activities w)) as -> by by rw Ha.
  apply (step_advance w 0%nat a answer); [done|by rw Ha|done|done].
Qed.

Lemma w9_reachable : pool_reachable 2 w9.
Proof.
  exists (λ _, healthy), (pw_shared w0). split_and!; [intros _; exact next_handle_fresh|by vm_compute|].
  apply (rtc_l _ _ w1); [by constructor|].
  apply (rtc_l _ _ w2); [by eapply segment_step; [exact next_handle_fresh|vm_compute..]|].
  apply (rtc_l _ _ w3); [by eapply segment_step; [exact next_handle_fresh|vm_compute..]|].
  apply (rtc_l _ _ w4); [by eapply segment_step; [exact next_handle_fresh|vm_compute..]|].
  apply (rtc_l _ _ w5); [by eapply segment_step; [exact next_handle_fresh|vm_compute..]|].
  apply (rtc_l _ _ w6); [constructor; [done|by eexists]|].
  apply (rtc_l _ _ w7); [by constructor|].
  apply (rtc_l _ _ w8); [by eapply segment_step; [exact next_handle_fresh|vm_compute..]|].
  apply rtc_once. constructor; [done|by eexists].
Qed.

Lemma pool_exclusive_witness :
  leased w9 = [1%nat] ∧ 1%nat ∈ sh_handles (pw_shared w9) ∧ 1%nat ∉ available_ (sh_pool (pw_shared w9)) ∧
  ∃ n sh', advance broken (Resetting 3%nat) (pw_shared w9) = (Ok n, sh').
Proof.
  destruct (pool_exclusive 2 w9 w9_reachable) as [H _].
  destruct (H eq_refl) as (_ & _ & _ & Hopen & Hadv & _).
  assert (leased w9 = [1%nat]) as Hl by (vm_compute; reflexivity).
  split; [exact Hl|]. destruct (Hopen 1%nat) as [H1 H2]; [rewrite Hl; left|].
  split; [exact H1|]. split; [exact H2|].
  destruct (Hadv (Resetting 3%nat) broken) as (n & sh' & Hn & _); [vm_compute; left|exact next_handle_fresh|].
  exists n, sh'. exact Hn.
Defined.

(** All leases given back and the pool stopped and destroyed. *)
Example pool_closed :
  let w := segment healthy (segment healthy (lease_destroy 2 (segment healthy (segment healthy w9)))) in
  (available_ (sh_pool (pw_shared w)), pw_activities w, leased w,
   elements (sh_handles (close_pool (pw_shared w)).2)) = ([3; 1]%nat, [], [], []).
Proof. vm_compute. reflexivity. Qed.
End PoolDemo.
