(* ===== verification/Protocol.v ===== *)
(** * The wire protocol, and records derived from snapshots

    Model of [src/proto/] (the messages of poker.proto, with one constructor of
    [Body] per field of the [oneof]) and of the free functions of
    [apps/server/protocol_service.cpp]: the writing of snapshots into messages,
    error codes, persistent hand ids, and the records of a hand's start and
    settlement the service derives from audit snapshots. Enumerations are open:
    an unknown number is kept as such. Text and byte fields are strings. *)
From S2P Require Import Prelude Card Table AccountStore GameStore.

(** ** Messages *)

Inductive MessageType :=
  | MESSAGE_TYPE_UNSPECIFIED
  | REGISTER_REQUEST
  | REGISTER_RESPONSE
  | LOGIN_REQUEST
  | LOGIN_RESPONSE
  | LOGOUT_REQUEST
  | REFRESH_SESSION_REQUEST
  | HEARTBEAT
  | AUTHENTICATE_SESSION_REQUEST
  | AUTHENTICATE_SESSION_RESPONSE
  | REFRESH_SESSION_RESPONSE
  | CREATE_TABLE_REQUEST
  | CREATE_TABLE_RESPONSE
  | LIST_TABLES_REQUEST
  | LIST_TABLES_RESPONSE
  | JOIN_TABLE_REQUEST
  | JOIN_TABLE_RESPONSE
  | LEAVE_TABLE_REQUEST
  | SIT_DOWN_REQUEST
  | READY_REQUEST
  | ACTION_REQUEST
  | SNAPSHOT_REQUEST
  | RECONNECT_REQUEST
  | TABLE_SNAPSHOT
  | TABLE_EVENT
  | COMMAND_ACK
  | ERROR_RESPONSE
  | UNKNOWN_MESSAGE_TYPE (number : Z).

#[export] Instance MessageType_eq_dec : EqDecision MessageType.
Proof. solve_decision. Defined.

Inductive ErrorCode :=
  | ERROR_CODE_OK
  | INVALID_MESSAGE
  | UNAUTHENTICATED
  | FORBIDDEN
  | NOT_FOUND
  | CONFLICT
  | RATE_LIMITED
  | OUT_OF_SEQUENCE
  | INTERNAL_ERROR
  | SERVICE_UNAVAILABLE
  | TABLE_RULE_VIOLATION.

#[export] Instance ErrorCode_eq_dec : EqDecision ErrorCode.
Proof. solve_decision. Defined.

Inductive ProtoAction :=
  | ACTION_TYPE_UNSPECIFIED
  | FOLD
  | CHECK
  | CALL
  | BET
  | RAISE
  | ALL_IN
  | UNKNOWN_ACTION (number : Z).

#[export] Instance ProtoAction_eq_dec : EqDecision ProtoAction.
Proof. solve_decision. Defined.

Inductive ProtoStreet :=
  | STREET_UNSPECIFIED
  | WAITING
  | PREFLOP
  | FLOP
  | TURN
  | RIVER
  | SHOWDOWN
  | SETTLED.

Record ProtoCard := mkProtoCard { pc_rank : Z; pc_suit : Z }.

Record PlayerState := mkPlayerState {
  ps_user_id : Z;
  ps_seat : Z;
  ps_stack : Z;
  ps_street_commitment : Z;
  ps_hand_commitment : Z;
  ps_status : string;
  ps_ready : bool;
  ps_connected : bool;
  ps_visible_hole_cards : list ProtoCard;
}.

Record ProtoSnapshot := mkProtoSnapshot {
  pn_table_id : Z;
  pn_hand_id : Z;
  pn_server_sequence : Z;
  pn_street : ProtoStreet;
  pn_dealer_user_id : Z;
  pn_acting_user_id : Z;
  pn_current_bet : Z;
  pn_minimum_raise : Z;
  pn_pot : Z;
  pn_board : list ProtoCard;
  pn_players : list PlayerState;
}.

Record TableSummary := mkSummary {
  ts_table_id : Z;
  ts_name : string;
  ts_seated_players : Z;
  ts_max_players : Z;
  ts_small_blind : Z;
  ts_big_blind : Z;
  ts_game_node_id : string;
}.

Record CreateTableRequest := mkCreateTable {
  ct_name : string;
  ct_max_players : Z;
  ct_small_blind : Z;
  ct_big_blind : Z;
  ct_min_buy_in : Z;
  ct_max_buy_in : Z;
}.

Record SitDownRequest := mkSitDown {
  sd_table_id : Z;
  sd_seat : Z;
  sd_buy_in : Z;
  sd_join_ticket : string;
}.

Record ReadyRequest := mkReady { rr_table_id : Z; rr_ready : bool }.

Record ActionRequest := mkActionRequest {
  ar_table_id : Z;
  ar_hand_id : Z;
  ar_action : ProtoAction;
  ar_target : Z;
}.

(** The [oneof] of the envelope. *)
Inductive Body :=
  | No_body
  | Register_request (username password : string)
  | Register_response (user_id : Z)
  | Login_request (username password : string)
  | Login_response (user_id : Z) (token : string) (wallet expires : Z)
  | Logout_request
  | Refresh_session_request (token : string)
  | Refresh_session_response (token : string) (expires : Z)
  | Heartbeat_body (client_time server_time : Z)
  | Authenticate_session_request (token : string)
  | Authenticate_session_response (user_id : Z) (username : string) (wallet expires : Z)
  | Create_table_request (request : CreateTableRequest)
  | Create_table_response (table : TableSummary) (endpoint ticket : string)
  | List_tables_request (page_size : Z) (page_token : string)
  | List_tables_response (tables : list TableSummary)
  | Join_table_request (table_id : Z)
  | Join_table_response (endpoint ticket : string)
  | Leave_table_request (table_id : Z)
  | Sit_down_request (request : SitDownRequest)
  | Ready_request (request : ReadyRequest)
  | Action_request (request : ActionRequest)
  | Snapshot_request (table_id after : Z)
  | Reconnect_request (table_id : Z) (token : string) (last : Z)
  | Table_snapshot (snapshot : ProtoSnapshot)
  | Table_event (table_id hand_id sequence : Z) (kind payload : string)
  | Command_ack (accepted : bool) (message : string)
  | Error_response (code : ErrorCode) (message : string) (related_request_id : Z).

Record Envelope := mkEnvelope {
  protocol_version : Z;
  request_id : Z;
  client_sequence : Z;
  message_type : MessageType;
  session_token : string;
  env_table_id : Z;
  env_hand_id : Z;
  env_server_sequence : Z;
  body : Body;
}.

(** A fresh [Envelope] with its type and body set. *)
Definition message (type : MessageType) (b : Body) : Envelope :=
  mkEnvelope 0 0 0 type "" 0 0 0 b.

(** [set_protocol_version(1)] and [set_request_id]. *)
Definition answering (request_id : Z) (e : Envelope) : Envelope :=
  mkEnvelope 1 request_id (client_sequence e) (message_type e) (session_token e) (env_table_id e)
    (env_hand_id e) (env_server_sequence e) (body e).

(** The protobuf library: serialisation and parsing. *)
Class EnvelopeCodec := {
  SerializeToString : Envelope → list Z;
  ParseFromArray : list Z → option Envelope;
}.

(** ** Writing snapshots *)

Definition playerStatus (status : PlayerStatus) : string :=
  match status with
  | Status_waiting => "waiting"
  | Status_active => "active"
  | Status_folded => "folded"
  | Status_all_in => "all_in"
  | Status_disconnected => "disconnected"
  end.

Definition street (value : Street) : ProtoStreet :=
  match value with
  | Street_waiting => WAITING
  | Street_preflop => PREFLOP
  | Street_flop => FLOP
  | Street_turn => TURN
  | Street_river => RIVER
  | Street_showdown => SHOWDOWN
  | Street_settled => SETTLED
  end.

Definition writeCard (card : Card) : ProtoCard := mkProtoCard (rankValue (rank card)) (suit card).

Definition writePlayer (p : PlayerView) : PlayerState :=
  mkPlayerState (view_id p) (Z.of_nat (view_seat p)) (view_stack p) (view_street_commitment p)
    (view_hand_commitment p) (playerStatus (view_status p)) (view_ready p) (view_connected p)
    (writeCard <$> view_hole_cards p).

Definition writeSnapshot (table_id : Z) (s : TableSnapshot) : ProtoSnapshot :=
  mkProtoSnapshot table_id (snap_hand_id s) (snap_server_sequence s) (street (snap_street s))
    (default 0 (snap_dealer s)) (default 0 (snap_acting_player s)) (snap_current_bet s)
    (snap_minimum_raise s) (snap_pot s) (writeCard <$> snap_board s) (writePlayer <$> snap_players s).

Definition validConfig (c : TableConfig) : result bool :=
  if (2 <=? min_players c)%nat && (min_players c <=? max_players c)%nat && (max_players c <=? 6)%nat
     && (0 <? small_blind c)
  then
    doubled ← i64 (small_blind c * 2);
    mret ((doubled <=? big_blind c) && (0 <? min_buy_in c) && (min_buy_in c <=? max_buy_in c))
  else mret false.

(** It is undefined exactly for a table it would otherwise go on to check, with a
    small blind that has no double. *)
Lemma validConfig_cases c :
  (∃ b, validConfig c = Ok b) ∨
  (validConfig c = Undef ∧ (2 ≤ min_players c ≤ max_players c)%nat ∧ (max_players c ≤ 6)%nat ∧ ¬ blinds_fit c).
Proof.
  rw /validConfig. destruct (_ && _) eqn:Hc; [|left; by eexists]. guards. rw /i64 /blinds_fit.
  destruct ((i64_min <=? _) && _) eqn:Hfit; [left; by eexists|]. right. split_and!; [done|lia..|].
  rw /i64_min in Hfit. lia.
Qed.

Lemma validConfig_returns c : blinds_fit c → ∃ b, validConfig c = Ok b.
Proof. intros Hc. by destruct (validConfig_cases c) as [?|(_ & _ & _ & ?)]. Qed.

Lemma validConfig_true c : validConfig c = Ok true → blinds_fit c.
Proof.
  rw /validConfig. destruct (_ && _); [|done]. rw /i64 /blinds_fit.
  destruct ((i64_min <=? _) && _) eqn:Hfit; [|done]. intros _. lia.
Qed.

(** ** Records for the store *)

Definition persistentHandId (table_id hand_number : Z) : Z :=
  if (table_id =? 0) || (u32_max <? table_id) || (hand_number =? 0) || (u32_max <? hand_number)
  then 0
  else Z.lor (u64 (Z.shiftl table_id 32)) hand_number.

Definition view_with_id (id : Z) (s : TableSnapshot) : option PlayerView :=
  List.find (λ p, view_id p =? id) (snap_players s).

Definition dealerSeat (s : TableSnapshot) : Z :=
  match snap_dealer s with
  | None => 0
  | Some id => match view_with_id id s with Some p => u32 (Z.of_nat (view_seat p)) | None => 0 end
  end.

Definition handStart (table_id : Z) (s : TableSnapshot) : HandStartRecord :=
  mkHandStart (persistentHandId table_id (snap_hand_id s)) table_id (snap_hand_id s) (dealerSeat s)
    (omap (λ p, if (length (view_hole_cards p) =? 2)%nat
                then Some (mkStartPlayer (view_id p) (u32 (Z.of_nat (view_seat p)))
                             (view_stack p + view_hand_commitment p) (view_hole_cards p))
                else None) (snap_players s)).

(** The inner loop over the winners of an award, from position [index] on. *)
Fixpoint add_winnings (award : PotAward) (index : Z) (ws : list Z) (winnings : gmap Z Z) : gmap Z Z :=
  match ws with
  | [] => winnings
  | w :: ws =>
      add_winnings award (index + 1) ws
        (<[w := default 0 (winnings !! w) + (equal_share award +
                  (if index <? odd_chips award then 1 else 0))]> winnings)
  end.

Definition award_winnings (awards : list PotAward) : gmap Z Z :=
  foldl (λ m award, add_winnings award 0 (winners award) m) ∅ awards.

Definition settlement_player (winnings : gmap Z Z) (p : PlayerView) : option HandPlayerSettlement :=
  if (length (view_hole_cards p) =? 2)%nat then
    let won := default 0 (winnings !! view_id p) in
    Some (mkPlayerSettlement (view_id p) (u32 (Z.of_nat (view_seat p)))
            (view_stack p + view_hand_commitment p - won) (view_hand_commitment p) won
            (view_stack p) (view_hole_cards p) (bool_decide (view_status p = Status_folded)))
  else None.

Definition handSettlement (table_id : Z) (s : TableSnapshot) (awards : list PotAward)
    : HandSettlementRecord :=
  mkSettlement (persistentHandId table_id (snap_hand_id s)) table_id (snap_hand_id s) (dealerSeat s)
    (snap_board s) (sumZ pot_size awards)
    (omap (settlement_player (award_winnings awards)) (snap_players s)).

(** ** Error codes and actions *)

Definition map_table_error (error : TableError) : ErrorCode :=
  match error with
  | Error_ok => ERROR_CODE_OK
  | Error_player_not_found => NOT_FOUND
  | Error_seat_occupied | Error_player_already_seated | Error_hand_in_progress => CONFLICT
  | Error_service_unavailable => SERVICE_UNAVAILABLE
  | _ => TABLE_RULE_VIOLATION
  end.

Definition map_storage_error (error : StorageError) : ErrorCode :=
  match error with
  | Storage_ok => ERROR_CODE_OK
  | Storage_not_found => NOT_FOUND
  | Storage_duplicate | Storage_conflict => CONFLICT
  | Storage_insufficient_funds => TABLE_RULE_VIOLATION
  | Storage_invalid_data => INVALID_MESSAGE
  | Storage_unavailable => SERVICE_UNAVAILABLE
  end.

Definition map_action (action : ProtoAction) : ActionType :=
  match action with
  | FOLD => Action_fold
  | CHECK => Action_check
  | CALL => Action_call
  | BET => Action_bet
  | RAISE => Action_raise
  | ALL_IN => Action_all_in
  | _ => Action_fold
  end.

(** ** Snapshot envelopes *)

(** The table id of a request: its own field, or that of its body. *)
Definition request_table_id (request : Envelope) : Z :=
  if negb (env_table_id request =? 0) then env_table_id request
  else match body request with
  | Action_request b => ar_table_id b
  | Ready_request b => rr_table_id b
  | Sit_down_request b => sd_table_id b
  | Snapshot_request id _ => id
  | Reconnect_request id _ _ => id
  | _ => 0
  end.

Definition snapshotEnvelope (request : Envelope) (s : TableSnapshot) : Envelope :=
  let id := request_table_id request in
  mkEnvelope 1 (request_id request) 0 TABLE_SNAPSHOT "" id (snap_hand_id s) (snap_server_sequence s)
    (Table_snapshot (writeSnapshot id s)).

Definition pushSnapshotEnvelope (table_id : Z) (s : TableSnapshot) : Envelope :=
  mkEnvelope 1 0 0 TABLE_SNAPSHOT "" table_id (snap_hand_id s) (snap_server_sequence s)
    (Table_snapshot (writeSnapshot table_id s)).
