(* ===== verification/TcpServer.v ===== *)
(** * The TCP server

    Model of [apps/server/poker_tcp_server.hpp/.cpp]: connections, their frames,
    the rate limit, the binding of users to connections, answers and pushes. The
    service behind it is any [SessionService]; [ServerStack] gives the instance of
    the protocol service.

    Connections (objects of the muduo library) are named by numbers in the order
    in which they are accepted; of the library the model has what the code uses:
    whether a connection is connected, the bytes sent, the requests to shut down,
    whether the object is alive (for [weak_ptr::lock]). A method that takes
    several mutexes one after the other is a sequence of segments, as in
    [ConnectionPool]: what a thread still has to do is an [Activity], and
    activities run in any interleaving. Logging is left out. *)
From S2P Require Import Prelude Metrics ServerConfig Codec TokenBucket Protocol.

(** ** The service behind the server *)

(** What the server uses of [ProtocolService], and what happens in it otherwise.
    The [send] object of a request is named by the number of requests received
    before it; [sv_sent] and [sv_pushed] log the calls of [send] objects and of
    the [push] function. *)
Class SessionService (V : Type) := {
  sv_connect : V → nat * V;
  sv_user : nat → V → option Z;
  sv_requests : V → nat;
  sv_handle : Envelope → nat → M V unit;
  sv_disconnect : nat → M V unit;
  sv_metrics : (MetricsRegistry → MetricsRegistry) → V → V;
  sv_sent : V → list (nat * Envelope);
  sv_pushed : V → list (Z * Envelope);
  sv_step : V → V → Prop;
}.

(** ** Data *)

(** Why an envelope was sent on a connection. *)
Inductive Origin :=
  | Answer (send : nat)
  | Pushed (user_id : Z)
  | Notice.

Record TcpConnection := mkTcpConnection {
  conn_connected : bool;
  (** The callback of the end of the connection has not run yet. *)
  conn_open : bool;
  conn_alive : bool;
  conn_shutdown : bool;
  conn_bytes : list Z;
  (** For the statements: what the bytes are, and the session of the [State]. *)
  conn_log : list (Origin * Envelope);
  conn_session : nat;
}.

Definition TcpConnection_new (session : nat) : TcpConnection :=
  mkTcpConnection true true true false [] [] session.

(** [State]; its [connection] is the one it is found under. *)
Record State := mkState {
  st_codec : LengthFieldCodec;
  st_limiter : TokenBucket;
  st_session : nat;
  st_generation : Z;
  st_last_activity_ms : Z;
}.

Record UserBinding := mkBinding { ub_connection : nat; ub_generation : Z }.

(** The captures of the [send] lambda. *)
Record SendLambda := mkSend {
  sl_connection : nat;
  sl_session : nat;
  sl_generation : Z;
  sl_started : Z;
}.

(** What follows a call of [bindAuthenticated]: the end of the [send] lambda, or
    the rest of the loop of [onMessage]. *)
Inductive Then :=
  | ThenSend (send : nat) (envelope : Envelope)
  | ThenFrames (frames : list (list Z)).

Inductive Activity :=
  (** [bindAuthenticated]: about to look at [states_], to read the session, to
      change [users_], to tell the superseded connection. *)
  | BindCheck (c session : nat) (generation : Z) (next : Then)
  | BindRead (c session : nat) (generation : Z) (next : Then)
  | BindUpdate (c : nat) (generation : Z) (user : option Z) (next : Then)
  | BindReplace (c previous : nat) (next : Then)
  (** [send] at the end of the lambda. *)
  | SendAnswer (c send : nat) (envelope : Envelope)
  (** The loop of [onMessage]. *)
  | FrameLoop (c : nat) (frames : list (list Z))
  (** [push]: about to look at [users_], to send. *)
  | PushLookup (user_id : Z) (envelope : Envelope)
  | PushSend (c : nat) (user_id : Z) (envelope : Envelope)
  (** [onConnection] of a lost connection: about to look at [states_], to read the
      session, to change [users_], to call the service, to end. *)
  | LostStates (c : nat)
  | LostRead (c session : nat) (generation : Z)
  | LostUsers (c session : nat) (generation user : Z)
  | LostService (session : nat)
  | LostEnd
  (** The second loop of [closeIdleConnections]. *)
  | CloseIdle (connections : list nat).

Record TcpWorld (V : Type) := mkWorld {
  tw_service : V;
  tw_connections : list TcpConnection;
  tw_states : gmap nat State;
  tw_users : gmap Z UserBinding;
  tw_next_generation : Z;
  tw_lambdas : gmap nat SendLambda;
  (** How many of the calls of [send] and of [push] have begun. *)
  tw_answered : nat;
  tw_pushed : nat;
  tw_activities : list Activity;
  (** The users that [bindAuthenticated] has found signed in on a connection. *)
  tw_seen : list (nat * Z);
}.
Arguments mkWorld {V}.
Arguments tw_service {V}.
Arguments tw_connections {V}.
Arguments tw_states {V}.
Arguments tw_users {V}.
Arguments tw_next_generation {V}.
Arguments tw_lambdas {V}.
Arguments tw_answered {V}.
Arguments tw_pushed {V}.
Arguments tw_activities {V}.
Arguments tw_seen {V}.

Section server.
  Context {V : Type} `{!SessionService V, !EnvelopeCodec}.
  Context (config : ServerConfig).
  Implicit Types (w : TcpWorld V) (c session : nat).

Notation World := (TcpWorld V).

Definition with_service v w : World :=
  mkWorld v (tw_connections w) (tw_states w) (tw_users w) (tw_next_generation w) (tw_lambdas w)
    (tw_answered w) (tw_pushed w) (tw_activities w) (tw_seen w).
Definition with_connections l w : World :=
  mkWorld (tw_service w) l (tw_states w) (tw_users w) (tw_next_generation w) (tw_lambdas w)
    (tw_answered w) (tw_pushed w) (tw_activities w) (tw_seen w).
Definition with_states m w : World :=
  mkWorld (tw_service w) (tw_connections w) m (tw_users w) (tw_next_generation w) (tw_lambdas w)
    (tw_answered w) (tw_pushed w) (tw_activities w) (tw_seen w).
Definition with_users m w : World :=
  mkWorld (tw_service w) (tw_connections w) (tw_states w) m (tw_next_generation w) (tw_lambdas w)
    (tw_answered w) (tw_pushed w) (tw_activities w) (tw_seen w).
Definition with_lambdas m w : World :=
  mkWorld (tw_service w) (tw_connections w) (tw_states w) (tw_users w) (tw_next_generation w) m
    (tw_answered w) (tw_pushed w) (tw_activities w) (tw_seen w).
Definition with_activities l w : World :=
  mkWorld (tw_service w) (tw_connections w) (tw_states w) (tw_users w) (tw_next_generation w)
    (tw_lambdas w) (tw_answered w) (tw_pushed w) l (tw_seen w).
Definition with_seen l w : World :=
  mkWorld (tw_service w) (tw_connections w) (tw_states w) (tw_users w) (tw_next_generation w)
    (tw_lambdas w) (tw_answered w) (tw_pushed w) (tw_activities w) l.

(** ** The service, the metrics and the connections *)

Definition on_service {X} (m : M V X) : M World X := λ w,
  let '(r, v) := m (tw_service w) in (r, with_service v w).

Definition on_metrics (f : MetricsRegistry → MetricsRegistry) : M World unit :=
  mmodify (λ w, with_service (sv_metrics f (tw_service w)) w).

Definition on_connection c (f : TcpConnection → TcpConnection) : M World unit :=
  mmodify (λ w, with_connections (alter f c (tw_connections w)) w).

Definition connected c w : bool := from_option conn_connected false (tw_connections w !! c).

(** [weak_ptr::lock] of a connection. *)
Definition lock c w : option nat :=
  if from_option conn_alive false (tw_connections w !! c) then Some c else None.

Definition shut_down (x : TcpConnection) : TcpConnection :=
  mkTcpConnection (conn_connected x) (conn_open x) (conn_alive x) true (conn_bytes x) (conn_log x)
    (conn_session x).

Definition disconnected (x : TcpConnection) : TcpConnection :=
  mkTcpConnection false (conn_open x) (conn_alive x) (conn_shutdown x) (conn_bytes x) (conn_log x)
    (conn_session x).

Definition transmit (o : Origin) (e : Envelope) (frame : list Z) (x : TcpConnection) : TcpConnection :=
  mkTcpConnection (conn_connected x) (conn_open x) (conn_alive x) (conn_shutdown x)
    (conn_bytes x ++ frame) (conn_log x ++ [(o, e)]) (conn_session x).

(** [send]; protobuf's serialisation does not fail on these messages. *)
Definition send c (o : Origin) (e : Envelope) : M World unit :=
  w ← mget;
  if connected c w then
    match encode (SerializeToString e) (sc_max_frame_bytes config) with
    | Ok frame => on_connection c (transmit o e frame) ≫= λ _, on_metrics responseSent
    | Throw _ => on_connection c shut_down
    | Undef => mundef
    end
  else mret tt.

Definition sendProtocolError c (code : ErrorCode) (text : string) : M World unit :=
  send c Notice (mkEnvelope 1 0 0 ERROR_RESPONSE "" 0 0 0 (Error_response code text 0)).

Definition monotonicMilliseconds (now : Z) : Z := now / 1000000.

(** ** [bindAuthenticated] *)

(** Where the callers go on. *)
Definition continue_with c (next : Then) : list Activity :=
  match next with
  | ThenSend n e => [SendAnswer c n e]
  | ThenFrames frames => [FrameLoop c frames]
  end.

(** The condition of the erasing loops. *)
Definition bound_to c (generation : Z) (b : UserBinding) w : bool :=
  (ub_generation b =? generation) &&
  match lock (ub_connection b) w with
  | None => true
  | Some bound => (bound =? c)%nat
  end.

Definition bind_check c session (generation : Z) (next : Then) : M World (list Activity) :=
  w ← mget;
  if connected c w && from_option (λ st, st_generation st =? generation) false (tw_states w !! c)
  then mret [BindRead c session generation next] else mret (continue_with c next).

Definition bind_read c session (generation : Z) (next : Then) : M World (list Activity) :=
  w ← mget;
  let user := sv_user session (tw_service w) in
  mmodify (with_seen (tw_seen w ++ ((λ u, (c, u)) <$> option_list user))) ≫= λ _,
  mret [BindUpdate c generation user next].

Definition bind_update c (generation : Z) (user : option Z) (next : Then) : M World (list Activity) :=
  w ← mget;
  match user with
  | None =>
      mmodify (with_users (filter (λ e, bound_to c generation e.2 w = false) (tw_users w))) ≫= λ _,
      mret (continue_with c next)
  | Some u =>
      let users := filter (λ e, e.1 = u ∨ bound_to c generation e.2 w = false) (tw_users w) in
      match users !! u with
      | Some b =>
          if generation <? ub_generation b
          then mmodify (with_users users) ≫= λ _, mret (continue_with c next)
          else
            mmodify (with_users (<[u := mkBinding c generation]> users)) ≫= λ _,
            match lock (ub_connection b) w with
            | Some previous =>
                if (previous =? c)%nat then mret (continue_with c next)
                else mret [BindReplace c previous next]
            | None => mret (continue_with c next)
            end
      | None =>
          mmodify (with_users (<[u := mkBinding c generation]> users)) ≫= λ _,
          mret (continue_with c next)
      end
  end.

Definition replaced : Envelope :=
  mkEnvelope 1 0 0 TABLE_EVENT "" 0 0 0
    (Table_event 0 0 0 "session_replaced" "this session was replaced by a newer connection").

Definition bind_replace c previous (next : Then) : M World (list Activity) :=
  w ← mget;
  (if connected previous w
   then send previous Notice replaced ≫= λ _, on_connection previous shut_down
   else mret tt : M World unit) ≫= λ _,
  mret (continue_with c next).

(** ** Connections *)

(** [onConnection] of a new connection. *)
Definition onConnection_up (now : Z) : M World unit :=
  on_metrics connectionOpened ≫= λ _,
  w ← mget;
  codec ← mlift (LengthFieldCodec_new (sc_max_frame_bytes config));
  limiter ← mlift (TokenBucket_new (double_of (sc_requests_per_second config)) (sc_request_burst config) now);
  let '(session, v) := sv_connect (tw_service w) in
  let generation := tw_next_generation w in
  let st := mkState codec limiter session generation (monotonicMilliseconds now) in
  mmodify (λ w, mkWorld v (tw_connections w ++ [TcpConnection_new session])
    (<[length (tw_connections w) := st]> (tw_states w)) (tw_users w) (u64_succ generation)
    (tw_lambdas w) (tw_answered w) (tw_pushed w) (tw_activities w) (tw_seen w)).

(** The segments of [onConnection] of a lost one, and of [unbind]. *)
Definition lost_states c : M World (list Activity) :=
  w ← mget;
  match tw_states w !! c with
  | Some st =>
      mmodify (with_states (delete c (tw_states w))) ≫= λ _,
      mret [LostRead c (st_session st) (st_generation st)]
  | None => mret [LostEnd]
  end.

Definition lost_read c session (generation : Z) : M World (list Activity) :=
  w ← mget;
  match sv_user session (tw_service w) with
  | None => mret [LostService session]
  | Some u => mret [LostUsers c session generation u]
  end.

Definition lost_users c session (generation user : Z) : M World (list Activity) :=
  w ← mget;
  match tw_users w !! user with
  | None => mret [LostService session]
  | Some b =>
      let owns_binding :=
        match lock (ub_connection b) w with
        | None => true
        | Some current => (current =? c)%nat && (ub_generation b =? generation)
        end in
      if owns_binding
      then mmodify (with_users (delete user (tw_users w))) ≫= λ _, mret [LostService session]
      else mret [LostEnd]
  end.

Definition lost_service session : M World (list Activity) :=
  on_service (sv_disconnect session) ≫= λ _, mret [LostEnd].

Definition lost_end : M World (list Activity) := on_metrics connectionClosed ≫= λ _, mret [].

(** ** Messages *)

Definition touch (now : Z) (st : State) : State :=
  mkState (st_codec st) (st_limiter st) (st_session st) (st_generation st) (monotonicMilliseconds now).

Definition with_codec codec (st : State) : State :=
  mkState codec (st_limiter st) (st_session st) (st_generation st) (st_last_activity_ms st).

Definition with_limiter limiter (st : State) : State :=
  mkState (st_codec st) limiter (st_session st) (st_generation st) (st_last_activity_ms st).

Definition set_state c (st : State) : M World unit := mmodify (λ w, with_states (<[c := st]> (tw_states w)) w).

(** [onMessage] up to its loop. *)
Definition onMessage (now : Z) c (bytes : list Z) : M World (list Activity) :=
  w ← mget;
  match tw_states w !! c with
  | None => on_connection c shut_down ≫= λ _, mret []
  | Some st =>
      let '(r, codec) := feed bytes (st_codec st) in
      set_state c (with_codec codec (touch now st)) ≫= λ _,
      decoded ← mlift r;
      match dr_error decoded with
      | Codec_none => mret [FrameLoop c (dr_frames decoded)]
      | error =>
          on_metrics invalidFrame ≫= λ _,
          sendProtocolError c INVALID_MESSAGE ("invalid TCP frame: " +:+ CodecError_toString error) ≫= λ _,
          on_connection c shut_down ≫= λ _, mret []
      end
  end.

(** One iteration of its loop. [state] is found in [states_], where it stays as
    long as the connection's thread is busy with the message. *)
Definition onFrame (now : Z) c (frame : list Z) (rest : list (list Z)) : M World (list Activity) :=
  w ← mget;
  st ← mderef (tw_states w !! c);
  let '(allowed, limiter) := allow now (st_limiter st) in
  set_state c (with_limiter limiter st) ≫= λ _,
  if (allowed : bool) then
    on_metrics requestReceived ≫= λ _,
    match ParseFromArray frame with
    | None =>
        on_metrics invalidFrame ≫= λ _,
        sendProtocolError c INVALID_MESSAGE "payload is not a valid protobuf Envelope" ≫= λ _,
        mret [FrameLoop c rest]
    | Some request =>
        w ← mget;
        let l := mkSend c (st_session st) (st_generation st) now in
        mmodify (with_lambdas (<[sv_requests (tw_service w) := l]> (tw_lambdas w))) ≫= λ _,
        on_service (sv_handle request (st_session st)) ≫= λ _,
        mret [BindCheck c (st_session st) (st_generation st) (ThenFrames rest)]
    end
  else
    on_metrics rejectedRequest ≫= λ _,
    sendProtocolError c RATE_LIMITED "connection request rate exceeded" ≫= λ _,
    mret [FrameLoop c rest].

(** The [send] lambda, up to [bindAuthenticated]. *)
Definition answer (now : Z) (n : nat) (e : Envelope) (l : SendLambda) : M World (list Activity) :=
  on_metrics (observeRequestLatency ((now - sl_started l) / 1000)) ≫= λ _,
  mret [BindCheck (sl_connection l) (sl_session l) (sl_generation l) (ThenSend n e)].

(** ** Pushes *)

Definition push_lookup (user_id : Z) (e : Envelope) : M World (list Activity) :=
  w ← mget;
  match tw_users w !! user_id with
  | None => mret []
  | Some b =>
      match lock (ub_connection b) w with
      | Some c => mret [PushSend c user_id e]
      | None => mmodify (with_users (delete user_id (tw_users w))) ≫= λ _, mret []
      end
  end.

(** ** Idle connections *)

(** The first loop of [closeIdleConnections]. *)
Definition idle_connections (now : Z) w : list nat :=
  omap (λ '(c, st),
    if monotonicMilliseconds now - st_last_activity_ms st <? sc_connection_idle_timeout_ms config
    then None else lock c w) (map_to_list (tw_states w)).

Definition close_idle (l : list nat) : M World (list Activity) :=
  match l with
  | [] => mret []
  | c :: l =>
      sendProtocolError c SERVICE_UNAVAILABLE "connection heartbeat timed out" ≫= λ _,
      on_connection c shut_down ≫= λ _, mret [CloseIdle l]
  end.

(** ** Activities *)

(** The next segment of an activity, and what is left to do after it. *)
Definition run_activity (now : Z) (a : Activity) : M World (list Activity) :=
  match a with
  | BindCheck c session generation next => bind_check c session generation next
  | BindRead c session generation next => bind_read c session generation next
  | BindUpdate c generation user next => bind_update c generation user next
  | BindReplace c previous next => bind_replace c previous next
  | SendAnswer c n e => send c (Answer n) e ≫= λ _, mret []
  | FrameLoop c [] => mret []
  | FrameLoop c (frame :: rest) => onFrame now c frame rest
  | PushLookup u e => push_lookup u e
  | PushSend c u e => send c (Pushed u) e ≫= λ _, mret []
  | LostStates c => lost_states c
  | LostRead c session generation => lost_read c session generation
  | LostUsers c session generation user => lost_users c session generation user
  | LostService session => lost_service session
  | LostEnd => lost_end
  | CloseIdle l => close_idle l
  end.

(** The connection whose event loop is in the activity: the library runs the
    callbacks of a connection one after the other. *)
Definition loop_of (a : Activity) : option nat :=
  match a with
  | FrameLoop c _ | LostStates c => Some c
  | BindCheck c _ _ (ThenFrames _) | BindRead c _ _ (ThenFrames _)
  | BindUpdate c _ _ (ThenFrames _) | BindReplace c _ (ThenFrames _) => Some c
  | _ => None
  end.

Definition add_activities (l : list Activity) w : World := with_activities (tw_activities w ++ l) w.

Definition lost (x : TcpConnection) : TcpConnection :=
  mkTcpConnection false false (conn_alive x) (conn_shutdown x) (conn_bytes x) (conn_log x) (conn_session x).

Definition destroyed (x : TcpConnection) : TcpConnection :=
  mkTcpConnection (conn_connected x) (conn_open x) false (conn_shutdown x) (conn_bytes x) (conn_log x)
    (conn_session x).

(** One segment of one thread, or an action of the library. When the library
    lets [connected] become false after a request to shut down, and when it
    destroys a connection that is lost, is left open. *)
Inductive tcp_step w : World → Prop :=
  | tcp_accept now w' : onConnection_up now w = (Ok tt, w') → tcp_step w w'
  | tcp_message now c x bytes acts w' :
      tw_connections w !! c = Some x → conn_open x = true → c ∉ omap loop_of (tw_activities w) →
      Forall byte bytes → onMessage now c bytes w = (Ok acts, w') → tcp_step w (add_activities acts w')
  | tcp_activity i a now acts w' :
      tw_activities w !! i = Some a →
      run_activity now a (with_activities (delete i (tw_activities w)) w) = (Ok acts, w') →
      tcp_step w (add_activities acts w')
  | tcp_answer n e l now acts w' :
      sv_sent (tw_service w) !! tw_answered w = Some (n, e) → tw_lambdas w !! n = Some l →
      answer now n e l (mkWorld (tw_service w) (tw_connections w) (tw_states w) (tw_users w)
        (tw_next_generation w) (tw_lambdas w) (S (tw_answered w)) (tw_pushed w) (tw_activities w)
        (tw_seen w)) = (Ok acts, w') →
      tcp_step w (add_activities acts w')
  | tcp_push u e :
      sv_pushed (tw_service w) !! tw_pushed w = Some (u, e) →
      tcp_step w (mkWorld (tw_service w) (tw_connections w) (tw_states w) (tw_users w)
        (tw_next_generation w) (tw_lambdas w) (tw_answered w) (S (tw_pushed w))
        (tw_activities w ++ [PushLookup u e]) (tw_seen w))
  | tcp_service v : sv_step (tw_service w) v → tcp_step w (with_service v w)
  | tcp_idle now : tcp_step w (add_activities [CloseIdle (idle_connections now w)] w)
  | tcp_high_water c w' :
      (on_metrics rejectedRequest ≫= λ _, on_connection c shut_down) w = (Ok tt, w') → tcp_step w w'
  | tcp_down c x :
      tw_connections w !! c = Some x → conn_shutdown x = true →
      tcp_step w (with_connections (alter disconnected c (tw_connections w)) w)
  | tcp_lost c x :
      tw_connections w !! c = Some x → conn_open x = true → c ∉ omap loop_of (tw_activities w) →
      tcp_step w (add_activities [LostStates c] (with_connections (alter lost c (tw_connections w)) w))
  | tcp_destroy c x :
      tw_connections w !! c = Some x → conn_open x = false →
      tcp_step w (with_connections (alter destroyed c (tw_connections w)) w).

Inductive tcp_run w0 : World → Prop :=
  | tcp_start : tcp_run w0 w0
  | tcp_next w w' : tcp_run w0 w → tcp_step w w' → tcp_run w0 w'.

(** The server just constructed, around a service. *)
Definition Tcp_new (v : V) : World := mkWorld v [] ∅ ∅ 1 ∅ (length (sv_sent v)) (length (sv_pushed v)) [] [].
End server.
