(* ===== verification/TcpInv.v ===== *)
(** * The TCP server keeps its invariant

    What the server relies on of the service behind it ([SessionServiceLaws]), the
    invariant of [TcpServer.tcp_step], and that every segment runs to its end and
    keeps it. The invariant is stated for the activities [L] of all threads, so
    that the segment of one of them is a change of [L]. *)
From S2P Require Import Prelude Metrics ServerConfig Codec TokenBucket Protocol TcpServer.

(** ** The service *)

(** The logs of the service only grow, requests are numbered upwards, and
    sessions stay. *)
Definition grows {V} `{!SessionService V} (known : nat → V → Prop) (v v' : V) : Prop :=
  sv_sent v `prefix_of` sv_sent v' ∧ sv_pushed v `prefix_of` sv_pushed v' ∧
  (sv_requests v ≤ sv_requests v')%nat ∧ ∀ session, known session v → known session v'.

Class SessionServiceLaws (V : Type) `{!SessionService V} := {
  sv_ok : V → Prop;
  sv_known : nat → V → Prop;
  (** Requests that the service may leave undefined. *)
  sv_undefined : Envelope → Prop;
  sv_connect_law v session v' : sv_ok v → sv_connect v = (session, v') →
    sv_ok v' ∧ grows sv_known v v' ∧ sv_known session v' ∧ ¬ sv_known session v ∧ sv_user session v' = None;
  sv_handle_law v session e : sv_ok v → sv_known session v →
    wp_unless (sv_undefined e) (sv_handle e session)
      (λ _ v', sv_ok v' ∧ grows sv_known v v' ∧ (sv_requests v < sv_requests v')%nat) v;
  sv_disconnect_law v session : sv_ok v → sv_known session v →
    ∃ v', sv_disconnect session v = (Ok tt, v') ∧ sv_ok v' ∧ grows sv_known v v';
  sv_metrics_law v f : sv_ok v → sv_ok (sv_metrics f v) ∧ grows sv_known v (sv_metrics f v);
  sv_step_law v v' : sv_ok v → sv_step v v' → sv_ok v' ∧ grows sv_known v v';
  (** No request is answered twice. *)
  sv_answers v : sv_ok v → NoDup (sv_sent v).*1;
}.

(** A configuration that [loadFromEnvironment] accepts. *)
Record config_ok (config : ServerConfig) : Prop := {
  co_frame : 0 < sc_max_frame_bytes config ≤ u32_max;
  co_rate : 0 < sc_requests_per_second config ≤ u32_max;
  co_burst : 0 < sc_request_burst config ≤ u32_max;
}.

(** The generation of a connection. *)
Definition generation_of (c : nat) : Z := u64 (1 + Z.of_nat c).

Section inv.
  Context {V : Type} `{!SessionService V, !SessionServiceLaws V, !EnvelopeCodec}.
  Context (config : ServerConfig).
  Implicit Types (w : TcpWorld V) (c session : nat) (L : list Activity).

Notation World := (TcpWorld V).

(** ** The invariant *)

(** Connection [c] exists and has session [session]. *)
Definition session_is c session w : Prop :=
  ∃ x, tw_connections w !! c = Some x ∧ conn_session x = session.

(** Request [n] was received on connection [c]. *)
Definition asked c n w : Prop := ∃ l, tw_lambdas w !! n = Some l ∧ sl_connection l = c.

(** What is sent on connection [c], and why: an answer is what the service sent
    for a request received on it; a push is one to a user who was signed in on it. *)
Definition origin_ok c (o : Origin) (e : Envelope) w : Prop :=
  match o with
  | Answer n => asked c n w ∧ (n, e) ∈ sv_sent (tw_service w)
  | Pushed u => (c, u) ∈ tw_seen w ∧ (u, e) ∈ sv_pushed (tw_service w)
  | Notice => True
  end.

Definition next_ok c (next : Then) w : Prop :=
  match next with ThenSend n e => origin_ok c (Answer n) e w | ThenFrames _ => True end.

Definition is_lost c w : Prop := ∃ x, tw_connections w !! c = Some x ∧ conn_open x = false.

Definition activity_ok w (a : Activity) : Prop :=
  match a with
  | BindCheck c session generation next | BindRead c session generation next =>
      session_is c session w ∧ generation = generation_of c ∧ next_ok c next w
  | BindUpdate c generation user next =>
      (∃ x, tw_connections w !! c = Some x) ∧ generation = generation_of c ∧ next_ok c next w ∧
      ∀ u, user = Some u → (c, u) ∈ tw_seen w
  | BindReplace c _ next => next_ok c next w
  | SendAnswer c n e => origin_ok c (Answer n) e w
  | PushLookup u e => (u, e) ∈ sv_pushed (tw_service w)
  | PushSend c u e => origin_ok c (Pushed u) e w
  | LostStates c => is_lost c w
  | LostRead _ session _ | LostUsers _ session _ _ | LostService session => sv_known session (tw_service w)
  | FrameLoop _ _ | LostEnd | CloseIdle _ => True
  end.

(** The bytes sent on a connection are the frames of its log. *)
Definition wire (x : TcpConnection) : Prop :=
  ∃ frames, mapM (λ e, encode (SerializeToString e) (sc_max_frame_bytes config)) (conn_log x).*2 = Ok frames ∧
    conn_bytes x = concat frames.

Definition state_ok c (st : State) w : Prop :=
  session_is c (st_session st) w ∧ st_generation st = generation_of c ∧
  codec_inv (st_codec st) ∧ max_frame_size_ (st_codec st) = sc_max_frame_bytes config ∧
  bucket_inv (sc_request_burst config) (st_limiter st).

(** Which answers an activity or a log accounts for. *)
Definition tag_of (o : Origin) : list nat := match o with Answer n => [n] | _ => [] end.

Definition answer_of (a : Activity) : option nat :=
  match a with
  | SendAnswer _ n _ => Some n
  | BindCheck _ _ _ (ThenSend n _) | BindRead _ _ _ (ThenSend n _)
  | BindUpdate _ _ _ (ThenSend n _) | BindReplace _ _ (ThenSend n _) => Some n
  | _ => None
  end.

Definition log_tags (x : TcpConnection) : list nat := conn_log x ≫= (λ e, tag_of e.1).

Definition answer_tags L w : list nat := omap answer_of L ++ (tw_connections w ≫= log_tags).

(** What makes the rest of the invariant monotone: connections, sessions,
    requests and what has been seen only get more. *)
Record extends w w' : Prop := {
  ex_service : grows sv_known (tw_service w) (tw_service w');
  ex_connections c x : tw_connections w !! c = Some x →
    ∃ x', tw_connections w' !! c = Some x' ∧ conn_session x' = conn_session x ∧
      (conn_open x' = true → conn_open x = true);
  ex_lambdas n l : tw_lambdas w !! n = Some l → tw_lambdas w' !! n = Some l;
  ex_seen e : e ∈ tw_seen w → e ∈ tw_seen w';
}.

Record tcp_inv L w : Prop := {
  ti_service : sv_ok (tw_service w);
  ti_generation : tw_next_generation w = generation_of (length (tw_connections w));
  ti_connections c x : tw_connections w !! c = Some x →
    sv_known (conn_session x) (tw_service w) ∧ wire x ∧
    (∀ o e, (o, e) ∈ conn_log x → origin_ok c o e w) ∧
    (conn_open x = true → is_Some (tw_states w !! c));
  ti_states c st : tw_states w !! c = Some st → state_ok c st w;
  ti_lambdas n l : tw_lambdas w !! n = Some l →
    (n < sv_requests (tw_service w))%nat ∧ session_is (sl_connection l) (sl_session l) w ∧
    sl_generation l = generation_of (sl_connection l);
  ti_users u b : tw_users w !! u = Some b →
    ub_generation b = generation_of (ub_connection b) ∧ (ub_connection b, u) ∈ tw_seen w;
  ti_unique u u' b b' : tw_users w !! u = Some b → tw_users w !! u' = Some b' →
    ub_connection b = ub_connection b' → u = u';
  ti_seen c u : (c, u) ∈ tw_seen w → is_Some (tw_connections w !! c);
  ti_activities a : a ∈ L → activity_ok w a;
  ti_busy c : c ∈ omap loop_of L → is_Some (tw_states w !! c);
  ti_loops : NoDup (omap loop_of L);
  ti_answers : answer_tags L w ⊆+ take (tw_answered w) (sv_sent (tw_service w)).*1;
}.

(** ** Monotonicity *)

Lemma grows_refl v : grows sv_known v v.
Proof. by split_and!. Qed.

Lemma grows_trans v1 v2 v3 : grows sv_known v1 v2 → grows sv_known v2 v3 → grows sv_known v1 v3.
Proof. intros (?&?&?&?) (?&?&?&?). split_and!; [by etrans|by etrans|lia|auto]. Qed.

Lemma extends_refl w : extends w w.
Proof. split; [apply grows_refl|eauto|done|done]. Qed.

Lemma asked_extends w w' c n : extends w w' → asked c n w → asked c n w'.
Proof. intros He (l & Hl & Hc). exists l. split; [by apply (ex_lambdas _ _ He)|done]. Qed.

Lemma session_extends w w' c session : extends w w' → session_is c session w → session_is c session w'.
Proof.
  intros He (x & Hx & Hs). destruct (ex_connections _ _ He c x Hx) as (x' & Hx' & Hs' & _).
  exists x'. split; [done|congruence].
Qed.

Lemma lost_extends w w' c : extends w w' → is_lost c w → is_lost c w'.
Proof.
  intros He (x & Hx & Ho). destruct (ex_connections _ _ He c x Hx) as (x' & Hx' & _ & Hopen).
  exists x'. split; [done|]. destruct (conn_open x'); [|done]. by rw Hopen in Ho.
Qed.

Lemma sent_extends w w' e : extends w w' → e ∈ sv_sent (tw_service w) → e ∈ sv_sent (tw_service w').
Proof. intros He. destruct (ex_service _ _ He) as ([l ->] & _). set_solver. Qed.

Lemma pushed_extends w w' e : extends w w' → e ∈ sv_pushed (tw_service w) → e ∈ sv_pushed (tw_service w').
Proof. intros He. destruct (ex_service _ _ He) as (_ & [l ->] & _). set_solver. Qed.

Lemma origin_extends w w' c o e : extends w w' → origin_ok c o e w → origin_ok c o e w'.
Proof.
  intros He. destruct o; cbn; [|intros [Hs Hp]; split|done].
  - intros [Ha Hs]. split; [by eapply asked_extends|by eapply sent_extends].
  - by apply (ex_seen _ _ He).
  - by eapply pushed_extends.
Qed.

Lemma next_extends w w' c next : extends w w' → next_ok c next w → next_ok c next w'.
Proof. intros He. destruct next; [by apply origin_extends|done]. Qed.

Lemma known_extends w w' session :
  extends w w' → sv_known session (tw_service w) → sv_known session (tw_service w').
Proof. intros He. apply (ex_service _ _ He). Qed.

Lemma connection_extends w w' c : extends w w' →
  (∃ x, tw_connections w !! c = Some x) → ∃ x, tw_connections w' !! c = Some x.
Proof. intros He (x & Hx). destruct (ex_connections _ _ He c x Hx) as (x' & Hx' & _). eauto. Qed.

Hint Resolve asked_extends sent_extends pushed_extends session_extends lost_extends origin_extends next_extends known_extends
  connection_extends : core.

Lemma activity_extends w w' a : extends w w' → activity_ok w a → activity_ok w' a.
Proof.
  intros He. destruct a; cbn; intros; destruct_and?; split_and?; eauto;
    try (intros; apply (ex_seen _ _ He); auto).
Qed.

Lemma state_extends w w' c st : extends w w' → state_ok c st w → state_ok c st w'.
Proof. intros He (?&?&?&?&?). split_and!; eauto. Qed.

(** ** Changes that keep the invariant *)

#[export] Instance tcp_inv_Permutation : Proper ((≡ₚ) ==> (=) ==> iff) tcp_inv.
Proof.
  assert (∀ L L' w, L ≡ₚ L' → tcp_inv L w → tcp_inv L' w) as HP.
  { intros L L' w HL [H1 H2 H3 H4 H5 H6 H7 H8 H9 H10 H11 H12]. split; try done.
    - intros a. rw -HL. apply H9.
    - intros c. rw -HL. apply H10.
    - by rw -HL.
    - by rw /answer_tags -HL. }
  intros L L' HL w _ <-. split; by apply HP.
Qed.

(** Fewer activities. *)
Lemma inv_drop L L' w : tcp_inv (L' ++ L) w → tcp_inv L w.
Proof.
  intros [H1 H2 H3 H4 H5 H6 H7 H8 H9 H10 H11 H12]. split; try done.
  - intros a Ha. apply H9. set_solver.
  - intros c Hc. apply H10. rw omap_app. set_solver.
  - rw omap_app in H11. by apply NoDup_app in H11 as (_ & _ & ?).
  - etrans; [|exact H12]. rw /answer_tags omap_app -app_assoc. by apply submseteq_inserts_l.
Qed.

(** An activity goes on as another one of the same thread. *)
Lemma inv_replace L a a' w :
  tcp_inv (a :: L) w → activity_ok w a' → (loop_of a' = loop_of a ∨ loop_of a' = None) →
  (answer_of a' = answer_of a ∨ answer_of a' = None) → tcp_inv (a' :: L) w.
Proof.
  intros Hi Ha Hl Ht. pose proof (inv_drop L [a] w Hi) as Hd. destruct Hi as [H1 H2 H3 H4 H5 H6 H7 H8 H9 H10 H11 H12].
  split; try done.
  - intros b [->|Hb]%elem_of_cons; [done|]. by apply (ti_activities _ _ Hd).
  - intros c Hc. cbn in Hc. destruct Hl as [Hl|Hl]; rw Hl in Hc; [by apply H10|by apply (ti_busy _ _ Hd)].
  - cbn. destruct Hl as [Hl|Hl]; rw Hl; [done|apply (ti_loops _ _ Hd)].
  - rw /answer_tags /=. destruct Ht as [Ht|Ht]; rw Ht; [done|apply (ti_answers _ _ Hd)].
Qed.

(** An activity that is of no thread's loop and answers nothing. *)
Lemma inv_add L a w :
  tcp_inv L w → activity_ok w a → loop_of a = None → answer_of a = None → tcp_inv (a :: L) w.
Proof.
  intros [H1 H2 H3 H4 H5 H6 H7 H8 H9 H10 H11 H12] Ha Hl Ht. split; try done.
  - intros b [->|Hb]%elem_of_cons; [done|]. by apply H9.
  - cbn. by rw Hl.
  - cbn. by rw Hl.
  - by rw /answer_tags /= Ht.
Qed.

Lemma inv_service L w v :
  tcp_inv L w → sv_ok v → grows sv_known (tw_service w) v → tcp_inv L (with_service v w).
Proof.
  intros [H1 H2 H3 H4 H5 H6 H7 H8 H9 H10 H11 H12] Hok Hg.
  assert (extends w (with_service v w)) as He by (split; cbn; eauto).
  split; [done..| | |  |done|done|done| |done|done|].
  - intros c x Hx. destruct (H3 c x Hx) as (? & ? & ? & ?). split_and!; eauto.
  - intros c st Hst. eapply state_extends; eauto.
  - intros n l Hl. destruct (H5 n l Hl) as (? & ? & ?). destruct Hg as (_ & _ & Hr & _).
    split_and!; [cbn; lia|eauto|done].
  - intros a Ha. eapply activity_extends; eauto.
  - etrans; [exact H12|]. destruct Hg as ([l Hs] & _). cbn. rw Hs fmap_app take_app.
    by apply submseteq_inserts_r.
Qed.

Lemma inv_metrics L w f : tcp_inv L w → tcp_inv L (with_service (sv_metrics f (tw_service w)) w).
Proof. intros Hi. destruct (sv_metrics_law (tw_service w) f (ti_service _ _ Hi)). by apply inv_service. Qed.

Lemma lookup_alter_inv (f : TcpConnection → TcpConnection) (l : list TcpConnection) c d y :
  alter f c l !! d = Some y → ∃ x, l !! d = Some x ∧ (y = x ∨ (c = d ∧ y = f x)).
Proof.
  destruct (decide (c = d)) as [->|Hne].
  - rw list_lookup_alter_eq. intros (x & -> & Hx)%fmap_Some. exists x. by auto.
  - rw list_lookup_alter_ne //. intros Hy. exists y. by auto.
Qed.

(** A change of one connection. *)
Lemma inv_connection L w c f :
  (∀ x, tw_connections w !! c = Some x →
     conn_session (f x) = conn_session x ∧ (conn_open (f x) = true → conn_open x = true) ∧
     (wire x → wire (f x)) ∧ ∀ o e, (o, e) ∈ conn_log (f x) → (o, e) ∈ conn_log x ∨ origin_ok c o e w) →
  answer_tags L (with_connections (alter f c (tw_connections w)) w) ⊆+
    take (tw_answered w) (sv_sent (tw_service w)).*1 →
  tcp_inv L w → tcp_inv L (with_connections (alter f c (tw_connections w)) w).
Proof.
  intros Hf Htags [H1 H2 H3 H4 H5 H6 H7 H8 H9 H10 H11 H12]. set (w' := with_connections _ w).
  assert (∀ d x, tw_connections w !! d = Some x → ∃ x', tw_connections w' !! d = Some x' ∧
    conn_session x' = conn_session x ∧ (conn_open x' = true → conn_open x = true)) as Hup.
  { intros d x Hx. cbn. destruct (decide (c = d)) as [->|Hne].
    - rw list_lookup_alter_eq Hx. exists (f x). destruct (Hf x Hx) as (? & ? & _). by split_and!.
    - rw list_lookup_alter_ne // Hx. eauto. }
  assert (extends w w') as He by (split; cbn; [apply grows_refl|done..]).
  split; [done| | | | |done|done| | |done|done|done].
  - cbn. by rw length_alter.
  - intros d y (x & Hx & Hy)%lookup_alter_inv. destruct (H3 d x Hx) as (Hk & Hw & Hl & Ho).
    destruct Hy as [->|[-> ->]].
    + split_and!; [done..| |auto]. intros o e Hin. eapply origin_extends; eauto.
    + destruct (Hf x Hx) as (E1 & E2 & E3 & E4). rw E1. split_and!; [done|auto| |auto].
      intros o e [Hin|Hin]%E4; eapply origin_extends; eauto.
  - intros d st Hst. eapply state_extends; eauto.
  - intros n l Hl. destruct (H5 n l Hl) as (? & ? & ?). split_and!; eauto.
  - intros d u Hu. destruct (H8 d u Hu) as [x Hx]. destruct (Hup d x Hx) as (x' & Hx' & _). by exists x'.
  - intros a Ha. eapply activity_extends; eauto.
Qed.

Lemma tags_alter (f : TcpConnection → TcpConnection) (l : list TcpConnection) c T :
  (∀ x, l !! c = Some x → log_tags (f x) = log_tags x ++ T) →
  (alter f c l ≫= log_tags) ⊆+ T ++ (l ≫= log_tags).
Proof.
  revert c. induction l as [|x l IH]; intros [|c] Hf; cbn; [apply submseteq_nil_l..| |].
  - rw (Hf x) //. by rw -app_assoc (Permutation_app_swap_app T).
  - rw (Permutation_app_swap_app T). apply submseteq_app; [done|]. by apply IH.
Qed.

(** Changes of its flags. *)
Lemma inv_flags L w c f :
  (∀ x, conn_session (f x) = conn_session x ∧ conn_bytes (f x) = conn_bytes x ∧
     conn_log (f x) = conn_log x ∧ (conn_open (f x) = true → conn_open x = true)) →
  tcp_inv L w → tcp_inv L (with_connections (alter f c (tw_connections w)) w).
Proof.
  intros Hf Hi. apply inv_connection; [| |done].
  - intros x Hx. destruct (Hf x) as (? & E1 & E2 & ?). rw /wire E1 E2. split_and!; auto.
  - etrans; [|apply Hi]. rw /answer_tags /=. apply submseteq_app; [done|]. apply (tags_alter _ _ _ []).
    intros x _. rw /log_tags app_nil_r. by destruct (Hf x) as (_ & _ & -> & _).
Qed.

Lemma mapM_snoc {A B} (g : A → result B) l x bs b :
  mapM g l = Ok bs → g x = Ok b → mapM g (l ++ [x]) = Ok (bs ++ [b]).
Proof.
  revert bs. induction l as [|y l IH]; intros bs; cbn; [by intros [= <-] ->|].
  intros Hl Hx. destruct (g y) as [b'| |]; [|done..]. cbn in Hl |- *.
  destruct (mapM g l) as [bs'| |]; [|done..]. injection Hl as <-. by rw (IH bs').
Qed.

(** An envelope is sent; [T] is the answer it may be, which the activities [L] no
    longer owe. *)
Lemma inv_transmit L w c o e frame :
  encode (SerializeToString e) (sc_max_frame_bytes config) = Ok frame → origin_ok c o e w →
  tag_of o ++ answer_tags L w ⊆+ take (tw_answered w) (sv_sent (tw_service w)).*1 →
  tcp_inv L w → tcp_inv L (with_connections (alter (transmit o e frame) c (tw_connections w)) w).
Proof.
  intros Henc Ho Htags Hi. apply inv_connection; [| |done].
  - intros x Hx. cbn. split_and!; [done..| |].
    + intros (frames & Hf & Hb). exists (frames ++ [frame]). rw /= fmap_app. split; [by apply mapM_snoc|].
      by rw Hb concat_app /= app_nil_r.
    + intros o' e' [|[= -> ->]%list_elem_of_singleton]%elem_of_app; auto.
  - etrans; [|exact Htags]. rw /answer_tags /= (Permutation_app_swap_app (tag_of o)).
    apply submseteq_app; [done|]. apply tags_alter. intros x _. by rw /log_tags /= bind_app /= app_nil_r.
Qed.

(** ** Segments

    A segment that starts in [w] leaves the activities of the other threads alone
    and its own to be [Q x]. *)

(** The server will send nothing more on a connection, or was asked to end it. *)
Definition closed (x : TcpConnection) : Prop := conn_connected x = false ∨ conn_shutdown x = true.

(** What only gets more: what was sent on connections, the connections that end,
    the requests received and the answers of the service. *)
Definition outward w : list TcpConnection * gmap nat SendLambda * list (nat * Envelope) :=
  (tw_connections w, tw_lambdas w, sv_sent (tw_service w)).

Record ahead (o o' : list TcpConnection * gmap nat SendLambda * list (nat * Envelope)) : Prop := {
  ah_connections c x : o.1.1 !! c = Some x →
    ∃ x', o'.1.1 !! c = Some x' ∧ conn_log x `prefix_of` conn_log x' ∧ (closed x → closed x');
  ah_lambdas : o.1.2 ⊆ o'.1.2;
  ah_sent : o.2 `prefix_of` o'.2;
}.

#[export] Instance ahead_preorder : PreOrder ahead.
Proof.
  split; [intros o; split; [eauto|done..]|]. intros o1 o2 o3 [H1 H2 H3] [H1' H2' H3']. split; [|by etrans..].
  intros c x Hx. destruct (H1 c x Hx) as (x' & Hx' & Hl & Hc). destruct (H1' c x' Hx') as (x'' & Hx'' & Hl' & Hc').
  exists x''. split_and!; [done|by etrans|auto].
Qed.

Lemma ahead_alter (f : TcpConnection → TcpConnection) c w :
  (∀ x, conn_log x `prefix_of` conn_log (f x) ∧ (closed x → closed (f x))) →
  ahead (outward w) (outward (with_connections (alter f c (tw_connections w)) w)).
Proof.
  intros Hf. split; [|done..]. cbn. intros d x Hx. destruct (decide (c = d)) as [->|Hne].
  - rw list_lookup_alter_eq Hx. exists (f x). by destruct (Hf x).
  - rw list_lookup_alter_ne // Hx. eauto.
Qed.

Lemma ahead_service w v : grows sv_known (tw_service w) v → ahead (outward w) (outward (with_service v w)).
Proof. intros (Hs & _). split; [eauto|done|done]. Qed.

Record same w w' : Prop := {
  same_activities : tw_activities w' = tw_activities w;
  same_seen : tw_seen w' = tw_seen w;
  same_users : tw_users w' = tw_users w;
  same_answered : tw_answered w' = tw_answered w;
  same_ahead : ahead (outward w) (outward w');
}.

Definition kept w {X} (Q : X → list Activity) (x : X) w' : Prop := tcp_inv (Q x) w' ∧ same w w'.

Lemma same_trans w1 w2 w3 : same w1 w2 → same w2 w3 → same w1 w3.
Proof. intros [????] [????]. split; [congruence..|by etrans]. Qed.

Lemma kept_from w w1 {X} (Q : X → list Activity) x w' : same w w1 → kept w1 Q x w' → kept w Q x w'.
Proof. intros Hs [Hi Hs']. split; [done|by eapply same_trans]. Qed.

Definition segment L {X} (m : M World X) (Q : X → list Activity) : Prop :=
  ∀ w, tcp_inv L w → wp m (kept w Q) w.

(** Four segments change what has been seen or the bindings: only by users who
    are signed in, and never from a newer connection to an older one. *)
Definition signed_in c u w : Prop :=
  ∃ x, tw_connections w !! c = Some x ∧ sv_user (conn_session x) (tw_service w) = Some u.

Record moves w w' : Prop := {
  mv_activities : tw_activities w' = tw_activities w;
  mv_answered : tw_answered w' = tw_answered w;
  mv_ahead : ahead (outward w) (outward w');
  mv_seen c u : (c, u) ∈ tw_seen w' → (c, u) ∈ tw_seen w ∨ signed_in c u w;
  mv_still_seen e : e ∈ tw_seen w → e ∈ tw_seen w';
  mv_users u b b' : tw_users w !! u = Some b → tw_users w' !! u = Some b' → ub_generation b ≤ ub_generation b';
}.

Definition moved w {X} (Q : X → list Activity) (x : X) w' : Prop := tcp_inv (Q x) w' ∧ moves w w'.

Lemma same_moves w w' : same w w' → moves w w'.
Proof.
  intros [H1 H2 H3 H4 H5]. split; [done|done|done|rewrite H2; by left|by rewrite H2|]. rw H3. intros u b b' -> [= ->]. lia.
Qed.

Lemma kept_moved w {X} (Q : X → list Activity) x w' : kept w Q x w' → moved w Q x w'.
Proof. intros [? ?%same_moves]. by split. Qed.

(** Only the bindings change, and some are removed. *)
Lemma moves_users w m :
  (∀ u b b', tw_users w !! u = Some b → m !! u = Some b' → ub_generation b ≤ ub_generation b') →
  moves w (with_users m w).
Proof. intros Hm. split; [done|done|done|by left|done|done]. Qed.

Lemma moves_fewer_users w m : m ⊆ tw_users w → moves w (with_users m w).
Proof.
  intros Hm. apply moves_users. intros u b b' Hb Hb'. eapply lookup_weaken in Hb'; [|done].
  assert (b = b') as -> by congruence. lia.
Qed.

Lemma segment_ret L {X} (x : X) (Q : X → list Activity) : Q x = L → segment L (mret x) Q.
Proof. intros <- w Hi. by apply wp_ret. Qed.

Lemma segment_bind L {X Y} (m : M World X) (f : X → M World Y) (P : X → list Activity) (Q : Y → list Activity) :
  segment L m P → (∀ x, segment (P x) (f x) Q) → segment L (m ≫= f) Q.
Proof.
  intros Hm Hf w Hi. apply wp_bind. eapply wp_mono, Hm, Hi. intros x w' [Hi' Ha].
  eapply wp_mono, Hf, Hi'. intros y w'' [Hi'' Ha']. split; [done|by eapply same_trans].
Qed.

(** The state is read, and what holds of it is known after. *)
Lemma segment_get L {X} (f : World → M World X) (Q : X → list Activity) :
  (∀ w, tcp_inv L w → wp (f w) (kept w Q) w) → segment L (mget ≫= f) Q.
Proof. intros Hf w Hi. apply wp_bind, wp_get. by apply Hf. Qed.

Lemma segment_modify L L' (f : World → World) :
  (∀ w, tcp_inv L w → tcp_inv L' (f w) ∧ same w (f w)) →
  segment L (mmodify f) (λ _, L').
Proof. intros Hf w Hi. apply wp_modify. by apply Hf. Qed.

Lemma same_metrics L f w : tcp_inv L w → same w (with_service (sv_metrics f (tw_service w)) w).
Proof. intros Hi. split; [done..|]. apply ahead_service. by apply (sv_metrics_law _ f (ti_service _ _ Hi)). Qed.

Lemma segment_metrics L f : segment L (on_metrics f) (λ _, L).
Proof. apply segment_modify. intros w Hi. split; [by apply inv_metrics|by eapply same_metrics]. Qed.

Lemma segment_flags L c f :
  (∀ x, conn_session (f x) = conn_session x ∧ conn_bytes (f x) = conn_bytes x ∧
     conn_log (f x) = conn_log x ∧ (conn_open (f x) = true → conn_open x = true)) →
  (∀ x, closed x → closed (f x)) → segment L (on_connection c f) (λ _, L).
Proof.
  intros Hf Hc. apply segment_modify. intros w Hi. split; [by apply inv_flags|]. split; [done..|].
  apply ahead_alter. intros x. destruct (Hf x) as (_ & _ & -> & _). auto.
Qed.

Lemma segment_shut_down L c : segment L (on_connection c shut_down) (λ _, L).
Proof. apply segment_flags; [done|]. by right. Qed.

Lemma wp_send L w c o e :
  tcp_inv L w → origin_ok c o e w →
  tag_of o ++ answer_tags L w ⊆+ take (tw_answered w) (sv_sent (tw_service w)).*1 →
  wp (send config c o e) (kept w (λ _, L)) w.
Proof.
  intros Hi Ho Ht. rw /send. apply wp_bind, wp_get. destruct (connected c w); [|by split].
  destruct (encode _ _) as [frame|ex|] eqn:Henc.
  - assert (segment L (on_metrics responseSent) (λ _, L)) as Hm by apply segment_metrics.
    apply wp_bind, wp_modify. eapply wp_mono, Hm; [|by apply inv_transmit]. intros x w'. apply kept_from.
    split; [done..|]. apply ahead_alter. intros y. split; [by eexists|done].
  - by apply segment_shut_down.
  - exfalso. rw /encode in Henc. by repeat case_match.
Qed.

Lemma segment_notice L c e : segment L (send config c Notice e) (λ _, L).
Proof. intros w Hi. by apply wp_send, (ti_answers _ _ Hi). Qed.

Lemma segment_error L c code text : segment L (sendProtocolError config c code text) (λ _, L).
Proof. apply segment_notice. Qed.

(** ** Changes of the tables *)

Lemma inv_users L w m :
  (∀ u b, m !! u = Some b → ub_generation b = generation_of (ub_connection b) ∧ (ub_connection b, u) ∈ tw_seen w) →
  (∀ u u' b b', m !! u = Some b → m !! u' = Some b' → ub_connection b = ub_connection b' → u = u') →
  tcp_inv L w → tcp_inv L (with_users m w).
Proof. intros Hm Hu [H1 H2 H3 H4 H5 _ _ H8 H9 H10 H11 H12]. by split. Qed.

(** Bindings are removed. *)
Lemma inv_fewer_users L w m :
  m ⊆ tw_users w → tcp_inv L w → tcp_inv L (with_users m w).
Proof.
  intros Hm Hi. apply inv_users; [| |done].
  - intros u b Hb. apply (ti_users _ _ Hi). by eapply lookup_weaken.
  - intros u u' b b' Hb Hb'. apply (ti_unique _ _ Hi); by eapply lookup_weaken.
Qed.

(** A user is bound to a connection of which the other bindings are removed. *)
Lemma inv_bind_user L w c u :
  (c, u) ∈ tw_seen w → tcp_inv L w →
  tcp_inv L (with_users (<[u := mkBinding c (generation_of c)]>
    (filter (λ e, e.1 = u ∨ bound_to c (generation_of c) e.2 w = false) (tw_users w))) w).
Proof.
  intros Hu Hi. set (m := filter _ _).
  assert (∀ u' b, m !! u' = Some b → tw_users w !! u' = Some b ∧ (u' = u ∨ ub_connection b ≠ c)) as Hm.
  { intros u' b (Hb & Hor)%map_lookup_filter_Some. split; [done|]. destruct Hor as [Hor|Hor]; [by left|right].
    intros Hc. destruct (ti_users _ _ Hi u' b Hb) as [Hg _]. rw /bound_to Hg Hc Z.eqb_refl /lock in Hor.
    destruct (from_option _ _ _); [|done]. by rw Nat.eqb_refl in Hor. }
  apply inv_users; [| |done].
  - intros u' b [[<- <-]|[_ [Hb _]%Hm]]%lookup_insert_Some; [done|]. by apply (ti_users _ _ Hi).
  - intros u1 u2 b1 b2 [[<- <-]|[Hn1 [Hb1 Ho1]%Hm]]%lookup_insert_Some [[<- <-]|[Hn2 [Hb2 Ho2]%Hm]]%lookup_insert_Some;
      cbn; intros He; [done|destruct Ho2; congruence|destruct Ho1; congruence|].
    by eapply (ti_unique _ _ Hi).
Qed.

Lemma inv_seen L w l :
  (∀ c u, (c, u) ∈ l → is_Some (tw_connections w !! c)) →
  tcp_inv L w → tcp_inv L (with_seen (tw_seen w ++ l) w).
Proof.
  intros Hl [H1 H2 H3 H4 H5 H6 H7 H8 H9 H10 H11 H12]. set (w' := with_seen _ w).
  assert (extends w w') as He.
  { split; cbn; [apply grows_refl|eauto|done|]. intros e Hin. apply elem_of_app. by left. }
  split; [done..| | | |  |done| | |done|done|done].
  - intros c x Hx. destruct (H3 c x Hx) as (? & ? & Ho & ?). split_and!; [done..| |done].
    intros o e Hin. eapply origin_extends; eauto.
  - intros c st Hst. eapply state_extends; eauto.
  - intros n s Hs. destruct (H5 n s Hs) as (? & ? & ?). split_and!; eauto.
  - intros u b Hb. destruct (H6 u b Hb) as [? ?]. split; [done|]. by apply (ex_seen _ _ He).
  - intros c u [Hin|Hin]%elem_of_app; eauto.
  - intros a Ha. eapply activity_extends; eauto.
Qed.

Lemma inv_states L w m :
  (∀ c st, m !! c = Some st → state_ok c st w) →
  (∀ c x, tw_connections w !! c = Some x → conn_open x = true → is_Some (m !! c)) →
  (∀ c, c ∈ omap loop_of L → is_Some (m !! c)) →
  tcp_inv L w → tcp_inv L (with_states m w).
Proof.
  intros Hst Ho Hl [H1 H2 H3 _ H5 H6 H7 H8 H9 _ H11 H12]. split; try done.
  intros c x Hx. destruct (H3 c x Hx) as (? & ? & ? & ?). split_and!; eauto.
Qed.

Lemma inv_set_state L w c st st' :
  tw_states w !! c = Some st → st_session st' = st_session st → st_generation st' = st_generation st →
  codec_inv (st_codec st') → max_frame_size_ (st_codec st') = sc_max_frame_bytes config →
  bucket_inv (sc_request_burst config) (st_limiter st') →
  tcp_inv L w → tcp_inv L (with_states (<[c := st']> (tw_states w)) w).
Proof.
  intros Hst Hs Hg Hc Hm Hb Hi. apply inv_states; [| | |done].
  - intros d st'' [[<- <-]|[_ Hd]]%lookup_insert_Some; [|by apply (ti_states _ _ Hi)].
    destruct (ti_states _ _ Hi c st Hst) as (? & ? & _). rw /state_ok Hs Hg. by split_and!.
  - intros d x Hx Ho. rw lookup_insert_is_Some. destruct (decide (c = d)); [by left|right].
    split; [done|]. by apply (ti_connections _ _ Hi d x).
  - intros d Hd. rw lookup_insert_is_Some. destruct (decide (c = d)); [by left|right].
    split; [done|]. by apply (ti_busy _ _ Hi).
Qed.

Lemma inv_delete_state L w c :
  tcp_inv (LostStates c :: L) w → tcp_inv L (with_states (delete c (tw_states w)) w).
Proof.
  intros Hi. pose proof (ti_activities _ _ Hi (LostStates c)) as (x & Hx & Ho); [by left|].
  pose proof (ti_loops _ _ Hi) as [Hc _]%NoDup_cons.
  pose proof (inv_drop L [LostStates c] w Hi) as Hd. apply inv_states; [| | |done].
  - intros d st [_ Hst]%lookup_delete_Some. by apply (ti_states _ _ Hd).
  - intros d y Hy Hopen. rw lookup_delete_ne; [by intros ->; rewrite Hx in Hy; injection Hy as ->; rewrite Ho in Hopen|].
    by apply (ti_connections _ _ Hd d y).
  - intros d Hin. rw lookup_delete_ne; [by intros ->|]. by apply (ti_busy _ _ Hd).
Qed.

(** ** The segments *)

Lemma inv_continue L c previous next w :
  tcp_inv (BindReplace c previous next :: L) w → tcp_inv (continue_with c next ++ L) w.
Proof.
  intros Hi. pose proof (ti_activities _ _ Hi (BindReplace c previous next)) as Hn. cbn in Hn.
  destruct next as [n e|frames]; eapply inv_replace; try done; try (by left); apply Hn; by left.
Qed.

(** [BindReplace] stands for any activity that only has [next] left to do. *)
Lemma inv_replace_next L a c previous next w :
  tcp_inv (a :: L) w → next_ok c next w → loop_of a = loop_of (BindReplace c previous next) →
  answer_of a = answer_of (BindReplace c previous next) → tcp_inv (BindReplace c previous next :: L) w.
Proof. intros Hi Hn Hl Ha. apply (inv_replace L a); auto. Qed.

Lemma segment_bind_check L c session g next :
  segment (BindCheck c session g next :: L) (bind_check c session g next) (λ acts, acts ++ L).
Proof.
  apply segment_get. intros w Hi. destruct (ti_activities _ _ Hi (BindCheck c session g next)) as (Hs & Hg & Hn);
    [by left|]. destruct (connected c w && _); apply wp_ret; (split; [|done]).
  - eapply inv_replace; [exact Hi|done|destruct next; auto|destruct next; auto].
  - apply (inv_continue _ _ 0%nat). eapply inv_replace_next; [exact Hi|done|by destruct next..].
Qed.

Lemma wp_bind_read L c session g next w :
  tcp_inv (BindRead c session g next :: L) w → wp (bind_read c session g next) (moved w (λ acts, acts ++ L)) w.
Proof.
  intros Hi. apply wp_bind, wp_get.
  destruct (ti_activities _ _ Hi (BindRead c session g next)) as ((x & Hx & Hs) & Hg & Hn); [by left|].
  apply wp_bind, wp_modify, wp_ret. set (user := sv_user session (tw_service w)).
  set (l := _ <$> option_list user). split.
  - assert (tcp_inv (BindRead c session g next :: L) (with_seen (tw_seen w ++ l) w)) as Hi'.
    { apply inv_seen; [|done]. intros d u (u' & [= -> ->] & _)%list_elem_of_fmap. by eexists. }
    eapply inv_replace; [exact Hi'| |destruct next; auto|destruct next; auto].
    destruct (ti_activities _ _ Hi' (BindRead c session g next)) as (_ & _ & Hn'); [by left|].
    split_and!; [by exists x|done|done|]. intros u Hu. rw /= /l Hu. apply elem_of_app. right. by left.
  - split; [done|done|done| | |].
    + cbn. intros d u [Hin|(u' & [= -> ->] & Hin)%list_elem_of_fmap]%elem_of_app; [by left|right].
      exists x. split; [done|]. rw Hs. fold user. destruct user; [|by apply not_elem_of_nil in Hin].
      by apply list_elem_of_singleton in Hin as ->.
    + cbn. intros e Hin. apply elem_of_app. by left.
    + cbn. intros u b b' -> [= ->]. lia.
Qed.

Lemma wp_bind_update L c g user next w :
  tcp_inv (BindUpdate c g user next :: L) w → wp (bind_update c g user next) (moved w (λ acts, acts ++ L)) w.
Proof.
  intros Hi. apply wp_bind, wp_get.
  destruct (ti_activities _ _ Hi (BindUpdate c g user next)) as (Hx & -> & Hn & Hu); [by left|].
  assert (∀ m p, tcp_inv (BindUpdate c (generation_of c) user next :: L) (with_users m w) →
    moves w (with_users m w) →
    wp (mmodify (with_users m) ≫= λ _, mret (continue_with c next))
      (moved w (λ acts, acts ++ L)) w ∧
    wp (mmodify (with_users m) ≫= λ _, mret [BindReplace c p next]) (moved w (λ acts, acts ++ L)) w) as Hdone.
  { intros m p Hm Hmv. assert (tcp_inv (BindReplace c p next :: L) (with_users m w)) as Hr.
    { eapply inv_replace_next; [exact Hm|done|by destruct next..]. }
    split; apply wp_bind, wp_modify, wp_ret; (split; [|done]); [|done].
    by apply (inv_continue _ _ p). }
  assert (∀ P `{!∀ e, Decision (P e)}, let m := filter P (tw_users w) in
    tcp_inv (BindUpdate c (generation_of c) user next :: L) (with_users m w) ∧ moves w (with_users m w)) as Hfew.
  { intros P HP m. split; [apply inv_fewer_users; [|done]|apply moves_fewer_users]; apply map_filter_subseteq. }
  destruct user as [u|]; [|by apply (Hdone _ 0%nat); apply Hfew].
  pose proof (inv_bind_user _ _ c u (Hu u eq_refl) Hi) as Hbind.
  set (m := filter _ _) in Hbind |- *. cbv beta zeta.
  assert (m !! u = tw_users w !! u) as Hsame.
  { apply option_eq. intros b. rw map_lookup_filter_Some. split; [by intros [? _]|]. intros Hb. split; [done|by left]. }
  assert (tcp_inv (BindUpdate c (generation_of c) (Some u) next :: L) (with_users m w) ∧
    moves w (with_users m w)) as [Hf1 Hf2] by by apply Hfew.
  rw Hsame. destruct (tw_users w !! u) as [b|] eqn:Hb; [destruct (Z.ltb_spec (generation_of c) (ub_generation b)) as [|Hle]|].
  - by apply (Hdone _ 0%nat).
  - assert (moves w (with_users (<[u:=mkBinding c (generation_of c)]> m) w)) as Hmv.
    { apply moves_users. intros u' b1 b2 Hb1 [[<- <-]|[_ Hb2]]%lookup_insert_Some.
      - cbn. rw Hb in Hb1. by injection Hb1 as <-.
      - by apply (mv_users _ _ Hf2 u' b1 b2). }
    destruct (lock _ _) as [p|]; [|by apply (Hdone _ 0%nat)].
    destruct (p =? c)%nat; by apply (Hdone _ p).
  - apply (Hdone _ 0%nat); [done|]. apply moves_users. intros u' b1 b2 Hb1 [[<- <-]|[_ Hb2]]%lookup_insert_Some.
    + by rw Hb in Hb1.
    + by apply (mv_users _ _ Hf2 u' b1 b2).
Qed.

Lemma segment_bind_replace L c previous next :
  segment (BindReplace c previous next :: L) (bind_replace config c previous next) (λ acts, acts ++ L).
Proof.
  apply segment_get. intros w Hi. apply wp_bind.
  assert (segment (BindReplace c previous next :: L)
    (if connected previous w then send config previous Notice replaced ≫= λ _, on_connection previous shut_down
     else mret tt : M World unit) (λ _, BindReplace c previous next :: L)) as Hm.
  { destruct (connected previous w); [|by apply segment_ret].
    eapply segment_bind; [apply segment_notice|]. intros ?. apply segment_shut_down. }
  eapply wp_mono, Hm, Hi. intros [] w' [Hi' Ha]. apply wp_ret. split; [|done]. by apply (inv_continue _ _ previous).
Qed.

Lemma segment_send_answer L c n e :
  segment (SendAnswer c n e :: L) (send config c (Answer n) e ≫= λ _, mret []) (λ acts, acts ++ L).
Proof.
  intros w Hi. apply wp_bind. eapply wp_mono; [|apply (wp_send L)].
  - intros [] w' [Hi' Ha]. by apply wp_ret.
  - by apply (inv_drop L [SendAnswer c n e]).
  - apply (ti_activities _ _ Hi (SendAnswer c n e)). by left.
  - apply (ti_answers _ _ Hi).
Qed.

Lemma wp_push_lookup L u e w :
  tcp_inv (PushLookup u e :: L) w → wp (push_lookup u e) (moved w (λ acts, acts ++ L)) w.
Proof.
  intros Hi. apply wp_bind, wp_get. pose proof (inv_drop L [PushLookup u e] w Hi) as Hd.
  assert ((u, e) ∈ sv_pushed (tw_service w)) as Hp.
  { apply (ti_activities _ _ Hi (PushLookup u e)). by left. }
  destruct (tw_users w !! u) as [b|] eqn:Hb; [|by apply wp_ret, kept_moved].
  rw /lock. destruct (from_option _ _ _).
  - apply wp_ret, kept_moved. split; [|done]. apply inv_add; [done| |done|done].
    split; [|done]. by apply (ti_users _ _ Hd u b Hb).
  - apply wp_bind, wp_modify, wp_ret.
    split; [apply inv_fewer_users; [|done]|apply moves_fewer_users]; apply delete_subseteq.
Qed.

Lemma segment_push_send L c u e :
  segment (PushSend c u e :: L) (send config c (Pushed u) e ≫= λ _, mret []) (λ acts, acts ++ L).
Proof.
  intros w Hi. pose proof (inv_drop L [PushSend c u e] w Hi) as Hd. apply wp_bind.
  eapply wp_mono; [|apply (wp_send L)]; [|done| |apply (ti_answers _ _ Hd)].
  - intros [] w' [Hi' Ha]. by apply wp_ret.
  - apply (ti_activities _ _ Hi (PushSend c u e)). by left.
Qed.

Lemma segment_lost_states L c :
  segment (LostStates c :: L) (lost_states c) (λ acts, acts ++ L).
Proof.
  apply segment_get. intros w Hi. pose proof (inv_drop L [LostStates c] w Hi) as Hd.
  destruct (tw_states w !! c) as [st|] eqn:Hst; apply wp_bind || apply wp_ret.
  - apply wp_modify, wp_ret. split; [|done]. apply inv_add; [by apply inv_delete_state| |done|done].
    destruct (ti_states _ _ Hi c st Hst) as ((x & Hx & <-) & _). apply (ti_connections _ _ Hi c x Hx).
  - split; [|done]. by apply inv_add.
Qed.

Lemma segment_lost_read L c session g :
  segment (LostRead c session g :: L) (lost_read c session g) (λ acts, acts ++ L).
Proof.
  apply segment_get. intros w Hi. pose proof (inv_drop L [LostRead c session g] w Hi) as Hd.
  pose proof (ti_activities _ _ Hi (LostRead c session g)) as Hk. cbn in Hk.
  destruct (sv_user session (tw_service w)); apply wp_ret; (split; [|done]);
    (apply inv_add; [done| |done|done]); apply Hk; by left.
Qed.

Lemma wp_lost_users L c session g u w :
  tcp_inv (LostUsers c session g u :: L) w → wp (lost_users c session g u) (moved w (λ acts, acts ++ L)) w.
Proof.
  intros Hi. apply wp_bind, wp_get. pose proof (inv_drop L [LostUsers c session g u] w Hi) as Hd.
  assert (sv_known session (tw_service w)) as Hk.
  { apply (ti_activities _ _ Hi (LostUsers c session g u)). by left. }
  destruct (tw_users w !! u) as [b|].
  - set (owns := match lock _ w with None => _ | Some _ => _ end). destruct owns.
    + apply wp_bind, wp_modify, wp_ret. split; [|apply moves_fewer_users, delete_subseteq].
      apply inv_add; [|done..]. apply inv_fewer_users; [apply delete_subseteq|done].
    + apply wp_ret, kept_moved. split; [|done]. by apply inv_add.
  - apply wp_ret, kept_moved. split; [|done]. by apply inv_add.
Qed.

Lemma segment_lost_service L session :
  segment (LostService session :: L) (lost_service session) (λ acts, acts ++ L).
Proof.
  intros w Hi. pose proof (inv_drop L [LostService session] w Hi) as Hd. rw /lost_service.
  destruct (sv_disconnect_law (tw_service w) session) as (v & Hv & Hok & Hg);
    [apply (ti_service _ _ Hi)|apply (ti_activities _ _ Hi (LostService session)); by left|].
  apply wp_bind. rw /wp /on_service Hv. apply wp_ret. split; [|by split; try apply ahead_service].
  apply inv_add; [|done..]. by apply inv_service.
Qed.

Lemma segment_lost_end L : segment (LostEnd :: L) lost_end (λ acts, acts ++ L).
Proof.
  intros w Hi. apply (inv_drop L [LostEnd]) in Hi. revert w Hi.
  eapply segment_bind; [apply segment_metrics|]. intros ?. by apply segment_ret.
Qed.

Lemma segment_close_idle L l :
  segment (CloseIdle l :: L) (close_idle config l) (λ acts, acts ++ L).
Proof.
  destruct l as [|c l]; cbn.
  - intros w Hi. apply wp_ret. split; [|done]. by apply (inv_drop L [CloseIdle []]).
  - eapply segment_bind; [apply segment_error|]. intros ?.
    eapply segment_bind; [apply segment_shut_down|]. intros ? w Hi. apply wp_ret. split; [|done].
    eapply inv_replace; [exact Hi|done|by left..].
Qed.

(** A request is given to the service. *)
Lemma inv_request L w c session now request v :
  session_is c session w → sv_handle request session (tw_service w) = (Ok tt, v) →
  sv_ok v → grows sv_known (tw_service w) v → (sv_requests (tw_service w) < sv_requests v)%nat →
  tcp_inv L w →
  tcp_inv L (with_service v (with_lambdas
    (<[sv_requests (tw_service w) := mkSend c session (generation_of c) now]> (tw_lambdas w)) w)).
Proof.
  intros Hs Hv Hok Hg Hr Hi. set (w1 := with_lambdas _ w).
  assert (∀ n l, tw_lambdas w !! n = Some l → tw_lambdas w1 !! n = Some l) as Hl.
  { intros n l Hn. cbn. rw lookup_insert_ne //. intros <-. destruct (ti_lambdas _ _ Hi _ _ Hn). lia. }
  assert (extends w w1) as He by (split; cbn; [apply grows_refl|eauto|done|done]).
  assert (extends w (with_service v w1)) as He' by (split; cbn; eauto).
  destruct Hi as [H1 H2 H3 H4 H5 H6 H7 H8 H9 H10 H11 H12].
  split; [done..| | | |done|done|done| |done|done|].
  - intros d x Hx. destruct (H3 d x Hx) as (? & ? & ? & ?). split_and!; eauto.
  - intros d st Hst. eapply state_extends; eauto.
  - intros n l Hn. cbn in Hn. apply lookup_insert_Some in Hn as [[<- <-]|[_ Hn]]; [by split_and!|].
    destruct (H5 n l Hn) as (? & ? & ?). split_and!; [cbn; lia|done|done].
  - intros a Ha. eapply activity_extends; eauto.
  - etrans; [exact H12|]. destruct Hg as ([l Hsent] & _). cbn. rw Hsent fmap_app take_app.
    by apply submseteq_inserts_r.
Qed.

Lemma same_request L w l v :
  tcp_inv L w → grows sv_known (tw_service w) v →
  same w (with_service v (with_lambdas (<[sv_requests (tw_service w) := l]> (tw_lambdas w)) w)).
Proof.
  intros Hi (Hs & _). split; [done..|]. split; [cbn; eauto| |done]. cbn. apply insert_subseteq, eq_None_not_Some.
  intros [l' Hl]. destruct (ti_lambdas _ _ Hi _ _ Hl). lia.
Qed.

Context (Hconfig : config_ok config).

Lemma burst_in_range : 0 ≤ sc_request_burst config < 2 ^ 53.
Proof. destruct Hconfig as [_ _ Hb]. rw /u32_max in Hb. lia. Qed.

(** The segment passes a request on that the service may leave undefined. *)
Definition undefined_request a : Prop :=
  ∃ c frame rest request, a = FrameLoop c (frame :: rest) ∧ ParseFromArray frame = Some request ∧ sv_undefined request.

Lemma wp_frame L now c frame rest w :
  let a := FrameLoop c (frame :: rest) in tcp_inv (a :: L) w →
  wp_unless (undefined_request a) (onFrame config now c frame rest) (kept w (λ acts, acts ++ L)) w.
Proof.
  intros a Hi. apply wp_unless_bind, wp_get.
  destruct (ti_busy _ _ Hi c) as [st Hst]; [left|].
  destruct (ti_states _ _ Hi c st Hst) as (Hs & Hg & Hc & Hm & Hb).
  apply wp_unless_bind. eapply wp_deref; [exact Hst|].
  destruct (allow_spec _ burst_in_range now (st_limiter st) Hb) as (_ & Hb' & _).
  destruct (allow now (st_limiter st)) as [allowed limiter]. cbn in Hb'.
  apply wp_unless_bind, wp_modify. set (w1 := with_states _ w).
  assert (tcp_inv (a :: L) w1) as Hi1 by by eapply inv_set_state.
  eapply wp_unless_mono; [intros acts w2; by apply (kept_from w w1)|].
  assert (session_is c (st_session st) w1) as Hs1 by done. clearbody w1.
  assert (∀ e, segment (a :: L) (sendProtocolError config c e.1 e.2 ≫= λ _, mret [FrameLoop c rest])
    (λ acts, acts ++ L)) as Herr.
  { intros [code text]. eapply segment_bind; [apply segment_error|]. intros ? w3 Hi3. apply wp_ret.
    split; [|done]. eapply inv_replace; [exact Hi3|done|by left..]. }
  destruct allowed.
  - apply wp_unless_bind, wp_modify. set (w2 := with_service _ w1).
    assert (tcp_inv (a :: L) w2) as Hi2 by by apply inv_metrics.
    assert (same w1 w2) as H12 by by eapply same_metrics.
    destruct (ParseFromArray frame) as [request|] eqn:Hrequest.
    + apply wp_unless_bind, wp_get, wp_unless_bind, wp_modify, wp_unless_then.
      assert (session_is c (st_session st) w2) as Hs2 by done.
      pose proof (sv_handle_law (tw_service w2) (st_session st) request) as Hlaw.
      destruct Hlaw as [([] & v & Hv & Hok & Hgr & Hr)%wp_inv|[Hu HU]];
        [apply Hi2|destruct Hs2 as (x & Hx & <-); apply (ti_connections _ _ Hi2 c x Hx)| |].
      2: { right. split; [|by exists c, frame, rest, request]. rw /on_service [tw_service _]/=. revert Hu.
           by destruct (sv_handle _ _ _). }
      left. rw /wp /on_service [tw_service _]/= Hv. apply wp_ret. split; [|eapply same_trans; [exact H12|by eapply same_request]].
      rw Hg. pose proof (inv_request _ w2 c _ now _ _ Hs2 Hv Hok Hgr Hr Hi2) as Hi3.
      eapply inv_replace; [exact Hi3|by split_and!|by left..].
    + assert (segment (a :: L) (on_metrics invalidFrame ≫= λ _,
        sendProtocolError config c INVALID_MESSAGE "payload is not a valid protobuf Envelope" ≫= λ _,
        mret [FrameLoop c rest]) (λ acts, acts ++ L)) as Hs2.
      { eapply segment_bind; [apply segment_metrics|]. intros ?. apply (Herr (_, _)). }
      left. eapply wp_mono, Hs2; [|done]. intros acts w3. by apply kept_from.
  - left. assert (segment (a :: L) (on_metrics rejectedRequest ≫= λ _,
      sendProtocolError config c RATE_LIMITED "connection request rate exceeded" ≫= λ _,
      mret [FrameLoop c rest]) (λ acts, acts ++ L)) as Hs2.
    { eapply segment_bind; [apply segment_metrics|]. intros ?. apply (Herr (_, _)). }
    by apply Hs2.
Qed.

(** Every segment of every activity runs to its end, unless it passes on a request that
    the service leaves undefined. *)
Lemma wp_activity L now a w :
  tcp_inv (a :: L) w →
  wp_unless (undefined_request a) (run_activity config now a) (moved w (λ acts, acts ++ L)) w.
Proof.
  assert (∀ m, segment (a :: L) m (λ acts, acts ++ L) → tcp_inv (a :: L) w →
    wp_unless (undefined_request a) m (moved w (λ acts, acts ++ L)) w) as Hseg.
  { intros m Hm Hi. left. eapply wp_mono, Hm, Hi. intros acts w'. apply kept_moved. }
  destruct a as [| | | | |c [|frame rest]| | | | | | | |]; cbn [run_activity].
  - apply Hseg, segment_bind_check.
  - left. by apply wp_bind_read.
  - left. by apply wp_bind_update.
  - apply Hseg, segment_bind_replace.
  - apply Hseg, segment_send_answer.
  - intros Hi. apply wp_unless_wp, wp_ret, kept_moved. split; [|done]. by apply (inv_drop L [FrameLoop c []]).
  - intros Hi. eapply wp_unless_mono, wp_frame, Hi. intros acts w'. apply kept_moved.
  - left. by apply wp_push_lookup.
  - apply Hseg, segment_push_send.
  - apply Hseg, segment_lost_states.
  - apply Hseg, segment_lost_read.
  - left. by apply wp_lost_users.
  - apply Hseg, segment_lost_service.
  - apply Hseg, segment_lost_end.
  - apply Hseg, segment_close_idle.
Qed.

(** ** The other steps *)

(** A connection's thread starts its loop. *)
Lemma inv_start_loop L w a c :
  tcp_inv L w → activity_ok w a → loop_of a = Some c → answer_of a = None →
  c ∉ omap loop_of L → is_Some (tw_states w !! c) → tcp_inv (a :: L) w.
Proof.
  intros [H1 H2 H3 H4 H5 H6 H7 H8 H9 H10 H11 H12] Ha Hl Ht Hc Hst. split; try done.
  - intros b [->|Hb]%elem_of_cons; [done|]. by apply H9.
  - cbn. rw Hl. intros d [->|Hd]%elem_of_cons; [done|]. by apply H10.
  - cbn. rw Hl. by apply NoDup_cons.
  - by rw /answer_tags /= Ht.
Qed.

Lemma message_spec L now c x bytes w :
  tcp_inv L w → tw_connections w !! c = Some x → conn_open x = true → c ∉ omap loop_of L → Forall byte bytes →
  wp (onMessage config now c bytes) (kept w (λ acts, acts ++ L)) w.
Proof.
  intros Hi Hx Ho Hc Hbytes. apply wp_bind, wp_get.
  destruct (ti_connections _ _ Hi c x Hx) as (_ & _ & _ & Hopen). destruct (Hopen Ho) as [st Hst]. rw Hst.
  destruct (ti_states _ _ Hi c st Hst) as (Hs & Hg & Hcodec & Hm & Hb).
  destruct (feed_refines (st_codec st) bytes Hcodec Hbytes) as (r & codec & -> & Hcodec' & Hm' & _).
  apply wp_bind, wp_modify. set (w1 := with_states _ w).
  assert (tcp_inv L w1) as Hi1 by by eapply inv_set_state; [exact Hst|..]; rewrite ?Hm'.
  apply wp_bind, wp_ret.
  assert (∀ e, segment L (on_metrics invalidFrame ≫= λ _,
    sendProtocolError config c INVALID_MESSAGE ("invalid TCP frame: " +:+ CodecError_toString e) ≫= λ _,
    on_connection c shut_down ≫= λ _, mret []) (λ acts, acts ++ L)) as Herr.
  { intros e. eapply segment_bind; [apply segment_metrics|]. intros ?.
    eapply segment_bind; [apply segment_error|]. intros ?.
    eapply segment_bind; [apply segment_shut_down|]. intros ?. by apply segment_ret. }
  assert (same w w1) as Hsame by done.
  destruct (dr_error r); [|eapply wp_mono, (Herr _ w1 Hi1); intros acts w2; by apply kept_from..].
  apply wp_ret. split; [|done].
  apply (inv_start_loop _ _ _ c); [done..|]. cbn. by rw lookup_insert_eq.
Qed.

Lemma generation_succ c : u64_succ (generation_of c) = generation_of (S c).
Proof. rw /u64_succ /generation_of /u64 Zplus_mod_idemp_l. f_equal. lia. Qed.

Lemma new_codec : ∃ codec, LengthFieldCodec_new (sc_max_frame_bytes config) = Ok codec ∧ codec_inv codec ∧
  max_frame_size_ codec = sc_max_frame_bytes config.
Proof.
  destruct Hconfig as [Hf _ _]. eexists. rw {1}/LengthFieldCodec_new.
  destruct (_ || _) eqn:Hor; [apply orb_true_iff in Hor; lia|]. split; [done|]. split; [|done].
  apply (codec_inv_new (sc_max_frame_bytes config)); [|lia]. by rw /LengthFieldCodec_new Hor.
Qed.

Lemma new_limiter now : ∃ limiter,
  TokenBucket_new (double_of (sc_requests_per_second config)) (sc_request_burst config) now = Ok limiter ∧
  bucket_inv (sc_request_burst config) limiter.
Proof.
  destruct Hconfig as [_ Hr Hb]. rw /u32_max in Hr Hb.
  destruct (double_of_exact (sc_requests_per_second config)) as [Ha Hu]; [lia|].
  pose proof (amount_canonical _ Ha) as Hcan.
  assert (∃ limiter, TokenBucket_new (double_of (sc_requests_per_second config)) (sc_request_burst config) now
    = Ok limiter) as [limiter Hnew].
  { rw /TokenBucket_new (proj2 (Z.eqb_neq _ _)); [lia|].
    destruct (double_of (sc_requests_per_second config)) as [s|s| |s m e]; try done.
    - cbn in Hu. lia.
    - destruct Ha as [-> _]. by eexists. }
  exists limiter. split; [done|].
  by destruct (TokenBucket_new_inv _ burst_in_range _ now limiter Hcan Hnew).
Qed.

(** A new connection. *)
Lemma inv_accept L w st session v :
  sv_connect (tw_service w) = (session, v) → st_session st = session →
  st_generation st = tw_next_generation w → codec_inv (st_codec st) →
  max_frame_size_ (st_codec st) = sc_max_frame_bytes config →
  bucket_inv (sc_request_burst config) (st_limiter st) →
  tcp_inv L w →
  tcp_inv L (mkWorld v (tw_connections w ++ [TcpConnection_new session])
    (<[length (tw_connections w) := st]> (tw_states w)) (tw_users w) (u64_succ (tw_next_generation w))
    (tw_lambdas w) (tw_answered w) (tw_pushed w) (tw_activities w) (tw_seen w)).
Proof.
  intros Hv Hs Hg Hc Hm Hb [H1 H2 H3 H4 H5 H6 H7 H8 H9 H10 H11 H12]. set (w' := mkWorld v _ _ _ _ _ _ _ _ _).
  destruct (sv_connect_law (tw_service w) session v H1 Hv) as (Hok & Hgr & Hk & _ & _).
  assert (∀ c x, tw_connections w !! c = Some x → tw_connections w' !! c = Some x) as Hup.
  { intros c x Hx. cbn. rw lookup_app_l //. by eapply lookup_lt_Some. }
  assert (extends w w') as He by (split; cbn; eauto).
  assert (∀ c, is_Some (tw_states w !! c) → is_Some (tw_states w' !! c)) as Hst.
  { intros c Hin. cbn. rw lookup_insert_is_Some. destruct (decide (length (tw_connections w) = c)); auto. }
  split; [done| | | | |done|done| | | |done|].
  - cbn. by rw H2 generation_succ length_app Nat.add_1_r.
  - intros c x Hx. cbn in Hx. apply lookup_app_Some in Hx as [Hx|[Hlen Hx]].
    + destruct (H3 c x Hx) as (? & ? & ? & ?). split_and!; eauto.
    + apply list_lookup_singleton_Some in Hx as [Hc0 <-]. cbn.
      split_and!; [done|by exists []|by intros o e ?%not_elem_of_nil|]. intros _.
      rw lookup_insert_is_Some. left. lia.
  - intros c st' Hst'. cbn in Hst'. apply lookup_insert_Some in Hst' as [[<- <-]|[_ Hc']].
    + split_and!; [|by rewrite Hg H2|done..]. eexists. cbn. rw lookup_app_r // Nat.sub_diag /=. by split.
    + eapply state_extends; eauto.
  - intros n l Hl. destruct (H5 n l Hl) as (? & ? & ?). destruct Hgr as (_ & _ & Hr & _).
    split_and!; [cbn; lia|eauto|done].
  - intros c u Hu. destruct (H8 c u Hu) as [x Hx]. exists x. eauto.
  - intros a Ha. eapply activity_extends; eauto.
  - intros c Hin. eauto.
  - destruct Hgr as ([l Hsent] & _). rw /answer_tags /= bind_app /= !app_nil_r Hsent fmap_app take_app.
    by apply submseteq_inserts_r.
Qed.

Lemma accept_spec L now w :
  tcp_inv L w → wp (onConnection_up config now) (kept w (λ _, L)) w.
Proof.
  intros Hi. apply wp_bind, wp_modify. set (w1 := with_service _ w).
  assert (tcp_inv L w1) as Hi1 by by apply inv_metrics.
  apply wp_bind, wp_get. destruct new_codec as (codec & Hcodec & Hc & Hm).
  apply wp_bind. eapply wp_lift; [exact Hcodec|]. destruct (new_limiter now) as (limiter & Hlim & Hb).
  apply wp_bind. eapply wp_lift; [exact Hlim|].
  destruct (sv_connect (tw_service w1)) as [session v] eqn:Hv. apply wp_modify. split; [by apply inv_accept|].
  eapply same_trans; [by eapply same_metrics|]. split; [done..|].
  destruct (sv_connect_law (tw_service w1) session v (ti_service _ _ Hi1) Hv) as (_ & (Hs & _) & _).
  split; [|done|exact Hs]. cbn. intros c x Hx. exists x. rw lookup_app_l; [by eapply lookup_lt_Some|done].
Qed.

(** ** Every step keeps the invariant *)

Lemma inv_activities L l w : tcp_inv L w → tcp_inv L (with_activities l w).
Proof. intros [H1 H2 H3 H4 H5 H6 H7 H8 H9 H10 H11 H12]. by split. Qed.

Definition world_ok w : Prop := tcp_inv (tw_activities w) w.

(** What a step may change besides. *)
Definition step_moves w w' : Prop :=
  (∀ c u, (c, u) ∈ tw_seen w' → (c, u) ∈ tw_seen w ∨ signed_in c u w) ∧
  (∀ e, e ∈ tw_seen w → e ∈ tw_seen w') ∧
  (∀ u b b', tw_users w !! u = Some b → tw_users w' !! u = Some b' → ub_generation b ≤ ub_generation b') ∧
  ahead (outward w) (outward w').

(** A segment's activities join those of the other threads. *)
Lemma moved_step w w' acts :
  moved w (λ acts, acts ++ tw_activities w) acts w' →
  world_ok (add_activities acts w') ∧ step_moves w (add_activities acts w').
Proof.
  intros [Hi [Ha _ Hd Hs Hk Hu]]. split; [|by split_and!]. apply inv_activities. cbn. by rw Ha Permutation_app_comm.
Qed.

Lemma kept_step w w' acts :
  kept w (λ acts, acts ++ tw_activities w) acts w' →
  world_ok (add_activities acts w') ∧ step_moves w (add_activities acts w').
Proof. intros Hk. by apply moved_step, kept_moved. Qed.

(** A step without an activity of its own. *)
Lemma kept_step_none {X} w w' (x : X) :
  kept w (λ _, tw_activities w) x w' → world_ok w' ∧ step_moves w w'.
Proof. intros [Hi Hs]. pose proof (same_moves _ _ Hs) as [Ha _ ? ? ? ?]. split; [|by split_and!]. by rw /world_ok Ha. Qed.

Lemma answered_inv L w n e l now :
  tcp_inv L w → sv_sent (tw_service w) !! tw_answered w = Some (n, e) → tw_lambdas w !! n = Some l →
  let w1 := mkWorld (tw_service w) (tw_connections w) (tw_states w) (tw_users w) (tw_next_generation w)
    (tw_lambdas w) (S (tw_answered w)) (tw_pushed w) (tw_activities w) (tw_seen w) in
  wp (answer now n e l) (kept w1 (λ acts, acts ++ L)) w1.
Proof.
  intros Hi Hn Hl w1. destruct (ti_lambdas _ _ Hi n l Hl) as (_ & Hs & Hg).
  set (a := BindCheck (sl_connection l) (sl_session l) (sl_generation l) (ThenSend n e)).
  assert (activity_ok w a) as Ha.
  { split_and!; [done|done|]. split; [by exists l|by eapply list_elem_of_lookup_2]. }
  assert (tcp_inv (a :: L) w1) as Hi1.
  { destruct Hi as [H1 H2 H3 H4 H5 H6 H7 H8 H9 H10 H11 H12]. split; try done.
    - intros b [->|Hb]%elem_of_cons; [exact Ha|by apply H9].
    - rw [tw_answered w1]/= (take_S_r _ _ n); [by rewrite list_lookup_fmap Hn|].
      rw Permutation_app_comm. by apply submseteq_skip. }
  assert (segment (a :: L) (answer now n e l) (λ acts, acts ++ L)) as Hseg.
  { eapply segment_bind; [apply segment_metrics|]. intros ?. by apply segment_ret. }
  by apply Hseg.
Qed.

Lemma step_ok w w' : tcp_step config w w' → world_ok w → world_ok w' ∧ step_moves w w'.
Proof.
  intros Hstep Hi. rw {1}/world_ok in Hi.
  destruct Hstep as [now w' Hw'|now c x bytes acts w' Hx Ho Hc Hb Hw'|i a now acts w' Ha Hw'|n e l now acts w' Hn Hl Hw'
    |u e Hu|v Hv|now|c w' Hw'|c x Hx Hs|c x Hx Ho Hc|c x Hx Ho].
  - eapply kept_step_none, wp_result, Hw'. by apply accept_spec.
  - eapply kept_step, wp_result, Hw'. by apply (message_spec _ _ _ x).
  - rw (delete_Permutation _ _ _ Ha) in Hi.
    set (w0 := with_activities (delete i (tw_activities w)) w) in Hw'.
    assert (tcp_inv (a :: tw_activities w0) w0) as Hi0 by by apply inv_activities.
    exact (moved_step w0 _ _ (wp_unless_result _ _ _ _ _ _ (wp_activity (tw_activities w0) now a w0 Hi0) Hw')).
  - exact (kept_step _ _ _ (wp_result _ _ _ _ _ (answered_inv _ _ n e l now Hi Hn Hl) Hw')).
  - set (w1 := mkWorld (tw_service w) (tw_connections w) (tw_states w) (tw_users w)
      (tw_next_generation w) (tw_lambdas w) (tw_answered w) (S (tw_pushed w)) (tw_activities w) (tw_seen w)).
    apply (kept_step w w1 [PushLookup u e]). split; [|done].
    apply inv_add; [|by eapply list_elem_of_lookup_2|done..].
    destruct Hi as [H1 H2 H3 H4 H5 H6 H7 H8 H9 H10 H11 H12]. by split.
  - destruct (sv_step_law _ _ (ti_service _ _ Hi) Hv). apply (kept_step_none w _ tt).
    split; [by apply inv_service|]. split; [done..|by apply ahead_service].
  - apply (kept_step w). split; [|done]. by apply inv_add.
  - assert (segment (tw_activities w) (on_metrics rejectedRequest ≫= λ _, on_connection c shut_down)
      (λ _, tw_activities w)) as Hseg.
    { eapply segment_bind; [apply segment_metrics|]. intros ?. apply segment_shut_down. }
    eapply kept_step_none, wp_result, Hw'. by apply Hseg.
  - apply (kept_step_none w _ tt). split; [by apply inv_flags|]. split; [done..|].
    apply ahead_alter. intros y. split; [done|by left].
  - set (w1 := with_connections (alter lost c (tw_connections w)) w).
    assert (tcp_inv (tw_activities w) w1) as Hi1 by by apply inv_flags.
    apply (kept_step w w1). split; [|split; [done..|apply ahead_alter; intros y; split; [done|by left]]].
    apply (inv_start_loop _ _ _ c); [done| |done|done|done|].
    + exists (lost x). cbn. by rw list_lookup_alter_eq Hx.
    + by apply (ti_connections _ _ Hi c x Hx).
  - apply (kept_step_none w _ tt). split; [by apply inv_flags|]. split; [done..|by apply ahead_alter].
Qed.

Lemma new_ok v : sv_ok v → world_ok (Tcp_new v).
Proof.
  intros Hok. split; cbn; try done; try by intros ? ?%not_elem_of_nil.
  - by intros c u ?%not_elem_of_nil.
  - constructor.
  - apply submseteq_nil_l.
Qed.

Lemma run_ok v w : sv_ok v → tcp_run config (Tcp_new v) w → world_ok w.
Proof. intros Hok. induction 1 as [|w w' Hrun IH Hstep]; [by apply new_ok|by eapply (step_ok w)]. Qed.

(** Over all connections every answer is sent at most once. *)
Lemma answers_once v w : sv_ok v → tcp_run config (Tcp_new v) w → NoDup (tw_connections w ≫= log_tags).
Proof.
  intros Hok Hrun. pose proof (run_ok v w Hok Hrun) as Hi.
  pose proof (ti_answers _ _ Hi) as Ht. pose proof (sv_answers _ (ti_service _ _ Hi)) as Hnd.
  assert (NoDup (answer_tags (tw_activities w) w)) as Ha.
  { rw -(take_drop (tw_answered w) (_.*1)) in Hnd. apply NoDup_app in Hnd as [Hnd _].
    apply submseteq_Permutation in Ht as [d Ht].
    rw Ht in Hnd. by apply NoDup_app in Hnd as [? _]. }
  by apply NoDup_app in Ha as (_ & _ & ?).
Qed.
End inv.
