(* ===== verification/TcpDelivery.v ===== *)
(** * Answers are delivered

    What the service has answered is on its way or was sent, unless the connection
    is ending; with [deliveries_routed], an answer is neither lost nor duplicated. *)
From S2P Require Import Prelude Metrics ServerConfig Codec TokenBucket Protocol TcpServer TcpInv.

Section delivery.
  Context {V : Type} `{!SessionService V, !SessionServiceLaws V, !EnvelopeCodec}.
  Context (config : ServerConfig) (Hconfig : config_ok config).
  Implicit Types (w : TcpWorld V) (c : nat) (L : list Activity).

Notation World := (TcpWorld V).

(** An answer was sent on its connection, or the connection is ending. *)
Definition finished c n e w : Prop :=
  ∃ x, tw_connections w !! c = Some x ∧ ((Answer n, e) ∈ conn_log x ∨ closed x).

(** The activities that are about to send an answer. *)
Definition carries c n e (a : Activity) : Prop :=
  match a with
  | SendAnswer c' n' e' => c' = c ∧ n' = n ∧ e' = e
  | BindCheck c' _ _ next | BindRead c' _ _ next | BindUpdate c' _ _ next | BindReplace c' _ next =>
      c' = c ∧ next = ThenSend n e
  | _ => False
  end.

Definition underway L c n e w : Prop := (∃ a, a ∈ L ∧ carries c n e a) ∨ finished c n e w.

Lemma finished_ahead c n e w w' : ahead (outward w) (outward w') → finished c n e w → finished c n e w'.
Proof.
  intros [Hc _ _] (x & Hx & Hor). destruct (Hc c x Hx) as (x' & Hx' & [l Hl] & Hclosed).
  exists x'. split; [done|]. destruct Hor as [Hin|]; [left|by right; auto]. rw Hl. apply elem_of_app. by left.
Qed.

Lemma carries_next c n e next : next = ThenSend n e → ∃ a, a ∈ continue_with c next ∧ carries c n e a.
Proof. intros ->. exists (SendAnswer c n e). split; [by left|done]. Qed.

(** Sending ends it. *)
Lemma send_finishes c n e w u w' :
  is_Some (tw_connections w !! c) → send config c (Answer n) e w = (Ok u, w') → finished c n e w'.
Proof.
  intros [x Hx]. rw /send /mbind /M_bind /mget /connected Hx /=. destruct (conn_connected x) eqn:Hcon.
  - destruct (encode _ _) as [frame|ex|]; rw ?/on_connection ?/on_metrics ?/mmodify; [|intros [= <- <-]|done].
    + intros [= <- <-]. exists (transmit (Answer n) e frame x). cbn. rw list_lookup_alter_eq Hx. split; [done|].
      left. apply elem_of_app. right. by left.
    + exists (shut_down x). cbn. rw list_lookup_alter_eq Hx. split; [done|]. by right; right.
  - intros [= <- <-]. exists x. split; [done|]. by right; left.
Qed.

(** A segment of an activity that carries an answer passes it on or sends it. *)
Lemma activity_carries now a c n e w acts w' :
  carries c n e a → is_Some (tw_connections w !! c) → run_activity config now a w = (Ok acts, w') →
  (∃ a', a' ∈ acts ∧ carries c n e a') ∨ finished c n e w'.
Proof.
  intros Ha Hc Hrun.
  assert (∀ next, next = ThenSend n e → acts = continue_with c next → ∃ a', a' ∈ acts ∧ carries c n e a') as Hnext.
  { intros next Hn ->. by apply carries_next. }
  assert (∀ a', acts = [a'] → carries c n e a' → ∃ a', a' ∈ acts ∧ carries c n e a') as Hone.
  { intros a' -> Ha'. exists a'. split; [by left|done]. }
  destruct a; try done; cbn [run_activity] in Hrun; destruct Ha as (-> & Ha).
  - left. revert Hrun. rw /bind_check /mbind /M_bind /mget. destruct (_ && _); intros [= <- <-]; [by eapply Hone|by eapply Hnext].
  - left. revert Hrun. rw /bind_read /mbind /M_bind /mget /mmodify. intros [= <- <-]. by eapply Hone.
  - left. revert Hrun. rw /bind_update /mbind /M_bind /mget /mmodify /mret /M_ret.
    repeat case_match; intros [= <- <-]; first [by eapply Hnext|by eapply Hone].
  - left. revert Hrun. rw /bind_replace /mbind /M_bind /mget.
    destruct (if connected _ _ then _ else _) as [[[]| |] w1]; [|done..]. intros [= <- <-]. by eapply Hnext.
  - right. destruct Ha as [-> ->]. revert Hrun. rw /mbind /M_bind.
    destruct (send config c (Answer n) e w) as [[u| |] w1] eqn:Hs; [|done..]. intros [= <- <-].
    by apply (send_finishes c n e w u).
Qed.

(** Every answer that was taken from the service is on its way to the connection of
    its request, or is done. *)
Definition delivering w : Prop :=
  (tw_answered w ≤ length (sv_sent (tw_service w)))%nat ∧
  ∀ i n e, (i < tw_answered w)%nat → sv_sent (tw_service w) !! i = Some (n, e) →
    ∃ l, tw_lambdas w !! n = Some l ∧ underway (tw_activities w) (sl_connection l) n e w.

Lemma delivering_next w w' :
  ahead (outward w) (outward w') → tw_answered w' = tw_answered w →
  (∀ a n l e, a ∈ tw_activities w → tw_lambdas w !! n = Some l → carries (sl_connection l) n e a →
     underway (tw_activities w') (sl_connection l) n e w') →
  delivering w → delivering w'.
Proof.
  intros Ha Heq Hacts [Hle Hd]. pose proof Ha as [_ Hlam [t Hsent]]. cbn in Hlam, Hsent. split.
  - rw Heq Hsent length_app. lia.
  - intros i n e Hi Hn. rw Heq in Hi. rw Hsent lookup_app_l in Hn; [lia|].
    destruct (Hd i n e Hi Hn) as (l & Hl & Hu). exists l. split; [by eapply lookup_weaken|].
    destruct Hu as [(a & Hin & Hc)|Hf]; [by eapply Hacts|]. right. by eapply finished_ahead.
Qed.

Lemma delivering_more w w' :
  ahead (outward w) (outward w') → tw_answered w' = tw_answered w →
  (∀ a, a ∈ tw_activities w → a ∈ tw_activities w') → delivering w → delivering w'.
Proof. intros Ha Heq Hmore. apply delivering_next; [done..|]. intros a n l e Hin _ Hc. left. exists a. auto. Qed.

Lemma lambda_connection w n l : world_ok config w → tw_lambdas w !! n = Some l → is_Some (tw_connections w !! sl_connection l).
Proof. intros Hi Hl. destruct (ti_lambdas _ _ _ Hi n l Hl) as (_ & (x & Hx & _) & _). by exists x. Qed.

Lemma step_delivering w w' : tcp_step config w w' → world_ok config w → delivering w → delivering w'.
Proof.
  intros Hstep Hi Hd. destruct (step_ok config Hconfig w w' Hstep Hi) as [_ (_ & _ & _ & Ha)].
  pose proof Hi as Hinv. rw /world_ok in Hinv.
  destruct Hstep as [now w' Hw'|now c x bytes acts w' Hx Ho Hc Hb Hw'|i a now acts w' Hact Hw'|n e l now acts w' Hn Hl Hw'
    |u e Hu|v Hv|now|c w' Hw'|c x Hx Hs|c x Hx Ho Hc|c x Hx Ho].
  - destruct (wp_result _ _ _ _ _ (accept_spec config Hconfig _ now w Hinv) Hw') as [_ [Has _ _ Hans _]].
    apply (delivering_more w); [done..|by rw Has|done].
  - destruct (wp_result _ _ _ _ _ (message_spec config _ now c x bytes w Hinv Hx Ho Hc Hb) Hw') as [_ [Has _ _ Hans _]].
    apply (delivering_more w); [done..| |done]. cbn. rw Has. intros a Hin. apply elem_of_app. by left.
  - rw (delete_Permutation _ _ _ Hact) in Hinv. set (w0 := with_activities (delete i (tw_activities w)) w) in Hw'.
    assert (tcp_inv config (a :: tw_activities w0) w0) as Hi0 by by apply inv_activities.
    destruct (wp_unless_result _ _ _ _ _ _ (wp_activity config Hconfig (tw_activities w0) now a w0 Hi0) Hw') as [_ [Has Hans _ _ _ _]].
    apply (delivering_next w); [done..| |done]. intros b n l e Hin Hl Hcar. cbn. rw Has.
    rw (delete_Permutation _ _ _ Hact) in Hin. apply elem_of_cons in Hin as [->|Hin].
    + destruct (activity_carries now a (sl_connection l) n e w0 acts w' Hcar) as [(b & Hb & Hcb)|Hf];
        [by apply (lambda_connection w n)|done| |by right].
      left. exists b. split; [apply elem_of_app; by right|done].
    + left. exists b. split; [apply elem_of_app; by left|done].
  - rw /answer /on_metrics /mmodify /mbind /M_bind in Hw'. injection Hw' as <- <-.
    destruct Hd as [Hle Hd]. pose proof Ha as [_ Hlam [t Hsent]]. cbn in Hlam, Hsent.
    pose proof (lookup_lt_Some _ _ _ Hn) as Hlt. split; cbn; rw Hsent.
    + rw length_app. lia.
    + intros j m f Hj Hm. rw lookup_app_l in Hm; [lia|]. destruct (decide (j = tw_answered w)) as [->|Hne].
      * rw Hn in Hm. injection Hm as <- <-. exists l. split; [done|]. left.
        exists (BindCheck (sl_connection l) (sl_session l) (sl_generation l) (ThenSend n e)).
        split; [apply elem_of_app; right; by left|done].
      * destruct (Hd j m f) as (l' & Hl' & Hu'); [lia|done|]. exists l'. split; [done|].
        destruct Hu' as [(b & Hb & Hcb)|Hf]; [left; exists b; split; [apply elem_of_app; by left|done]|right].
        by eapply finished_ahead.
  - apply (delivering_more w); [done..| |done]. intros a Hin. apply elem_of_app. by left.
  - by apply (delivering_more w).
  - apply (delivering_more w); [done..| |done]. intros a Hin. apply elem_of_app. by left.
  - rw /on_metrics /on_connection /mmodify /mbind /M_bind in Hw'. injection Hw' as <-. by apply (delivering_more w).
  - by apply (delivering_more w).
  - apply (delivering_more w); [done..| |done]. intros a Hin. apply elem_of_app. by left.
  - by apply (delivering_more w).
Qed.

Lemma run_delivering v w :
  sv_ok v → sv_sent v = [] → tcp_run config (Tcp_new v) w → delivering w.
Proof.
  intros Hok Hsent Hrun. induction Hrun as [|w w' Hrun IH Hstep].
  - rw /delivering /= Hsent. split; [done|]. intros i n e Hi. cbn in Hi. lia.
  - eapply step_delivering; [done| |done]. by eapply run_ok.
Qed.

(** When nothing is under way, every answer of the service was sent on the
    connection of its request, unless that is ending. *)
Lemma answers_delivered v w n e :
  sv_ok v → sv_sent v = [] → tcp_run config (Tcp_new v) w →
  tw_activities w = [] → tw_answered w = length (sv_sent (tw_service w)) → (n, e) ∈ sv_sent (tw_service w) →
  ∃ l, tw_lambdas w !! n = Some l ∧ finished (sl_connection l) n e w.
Proof.
  intros Hok Hsent Hrun Hacts Hall Hin. destruct (run_delivering v w Hok Hsent Hrun) as [_ Hd].
  apply list_elem_of_lookup in Hin as [i Hi]. pose proof (lookup_lt_Some _ _ _ Hi) as Hlt.
  destruct (Hd i n e) as (l & Hl & [(a & Ha & _)|Hf]); [lia|done| |by exists l].
  rw Hacts in Ha. by apply not_elem_of_nil in Ha.
Qed.
End delivery.
