(* ===== verification/TcpTheorems.v ===== *)
(** * Properties of the TCP server

    Over any service that keeps its laws; the last part has a small service, with
    which the theorems are applied to concrete runs. *)
From S2P Require Import Prelude Metrics ServerConfig Codec TokenBucket Protocol TcpServer TcpInv.

Section theorems.
  Context {V : Type} `{!SessionService V, !SessionServiceLaws V, !EnvelopeCodec}.
  Context (config : ServerConfig) (Hconfig : config_ok config).
  Implicit Types (w : TcpWorld V) (c : nat).

Lemma tcp_run_trans w1 w2 w3 : tcp_run config w1 w2 → tcp_run config w2 w3 → tcp_run config w1 w3.
Proof. intros H12. induction 1; [done|by eapply tcp_next]. Qed.

(** A user was signed in on a connection at some state of the run. *)
Definition was_signed_in (v : V) w c u : Prop :=
  ∃ w1, tcp_run config (Tcp_new v) w1 ∧ tcp_run config w1 w ∧ signed_in c u w1.

Lemma seen_signed_in v w c u :
  sv_ok v → tcp_run config (Tcp_new v) w → (c, u) ∈ tw_seen w → was_signed_in v w c u.
Proof.
  intros Hok Hrun. induction Hrun as [|w w' Hrun IH Hstep]; [by intros ?%not_elem_of_nil|].
  destruct (step_ok config Hconfig w w' Hstep) as [_ [Hseen _]]; [by eapply run_ok|].
  intros [Hin|Hnow]%Hseen.
  - destruct (IH Hin) as (w1 & H1 & H2 & H3). exists w1. split_and!; [done|by eapply tcp_next|done].
  - exists w. split_and!; [done|eapply tcp_next; [apply tcp_start|done]|done].
Qed.

(** C6: answers and pushes reach the connections they are meant for. Over all
    connections every answer is sent at most once, on the connection that the
    request came from, and is what the service sent for it; a push is sent only on
    connections on which its user has been signed in. *)
Theorem deliveries_routed (v : V) w :
  sv_ok v → tcp_run config (Tcp_new v) w →
  NoDup (tw_connections w ≫= log_tags) ∧
  ∀ c x o e, tw_connections w !! c = Some x → (o, e) ∈ conn_log x →
    match o with
    | Answer n => (n, e) ∈ sv_sent (tw_service w) ∧ asked c n w
    | Pushed u => (u, e) ∈ sv_pushed (tw_service w) ∧ was_signed_in v w c u
    | Notice => True
    end.
Proof.
  intros Hok Hrun. pose proof (run_ok config Hconfig v w Hok Hrun) as Hi. split.
  - by eapply answers_once.
  - intros c x o e Hx Hin. destruct (ti_connections _ _ _ Hi c x Hx) as (_ & _ & Hlog & _).
    specialize (Hlog o e Hin). destruct o as [n|u|]; [by destruct Hlog| |done].
    destruct Hlog as [Hs Hp]. split; [done|by apply seen_signed_in].
Qed.

(** C24: a connection is bound to at most one user, who has been signed in on it;
    and the newest connection of a user wins: a step never replaces a user's
    binding by one to a connection accepted earlier. *)
Theorem bindings_exclusive (v : V) w :
  sv_ok v → tcp_run config (Tcp_new v) w →
  (∀ u b, tw_users w !! u = Some b → was_signed_in v w (ub_connection b) u) ∧
  (∀ u u' b b', tw_users w !! u = Some b → tw_users w !! u' = Some b' →
     ub_connection b = ub_connection b' → u = u') ∧
  (∀ w' u b b', tcp_step config w w' → Z.of_nat (length (tw_connections w')) < u64_max →
     tw_users w !! u = Some b → tw_users w' !! u = Some b' → (ub_connection b ≤ ub_connection b')%nat).
Proof.
  intros Hok Hrun. pose proof (run_ok config Hconfig v w Hok Hrun) as Hi. split_and!.
  - intros u b Hb. apply seen_signed_in; [done..|]. by apply (ti_users _ _ _ Hi).
  - intros u u' b b'. apply (ti_unique _ _ _ Hi).
  - intros w' u b b' Hstep Hlen Hb Hb'. destruct (step_ok config Hconfig w w' Hstep Hi) as [Hi' (_ & Hkeep & Hnew & _)].
    specialize (Hnew u b b' Hb Hb'). destruct (ti_users _ _ _ Hi u b Hb) as [Hg Hs].
    destruct (ti_users _ _ _ Hi' u b' Hb') as [Hg' Hs'].
    assert (ub_connection b' < length (tw_connections w'))%nat as Hlt.
    { apply lookup_lt_is_Some. by apply (ti_seen _ _ _ Hi' _ u). }
    rw Hg Hg' /generation_of in Hnew. rw /u64_max in Hlen.
    destruct (Nat.le_gt_cases (ub_connection b) (ub_connection b')) as [|Hgt]; [done|].
    assert (ub_connection b < length (tw_connections w'))%nat as Hltb.
    { apply lookup_lt_is_Some. apply (ti_seen _ _ _ Hi' _ u). by apply Hkeep. }
    rw !u64_small in Hnew; rw /fits_u64 /u64_max; lia.
Qed.

(** What a client reads is what was sent. However the bytes sent on a
    connection are cut into small chunks, a codec that accepts the server's frames
    decodes them to payloads, nothing is left over, and, when protobuf reads back
    what it has written, the payloads parse to the envelopes sent on the connection,
    in order. *)
Lemma wire_decodes (v : V) w c x (chunks : list (list Z)) (codec : LengthFieldCodec) :
  sv_ok v → tcp_run config (Tcp_new v) w → tw_connections w !! c = Some x →
  Forall (λ e, ParseFromArray (SerializeToString e) = Some e) (conn_log x).*2 →
  codec_inv codec → failed_ codec = false → pending codec = [] →
  sc_max_frame_bytes config ≤ max_frame_size_ codec →
  concat chunks = conn_bytes x → Forall (Forall byte) chunks →
  Forall (λ chunk, size chunk ≤ max_frame_size_ codec + 1 - sc_max_frame_bytes config) chunks →
  ∃ payloads codec', feed_all chunks codec = (Ok payloads, codec') ∧
    failed_ codec' = false ∧ pending codec' = [] ∧
    mapM ParseFromArray payloads = Some (conn_log x).*2.
Proof.
  intros Hok Hrun Hx Hparse Hc Hf Hp Hmax Hchunks Hbytes Hsizes.
  destruct (ti_connections _ _ _ (run_ok config Hconfig v w Hok Hrun) c x Hx) as (_ & (frames & Hframes & Hwire) & _).
  set (payloads := SerializeToString <$> (conn_log x).*2).
  assert (mapM (λ p, encode p (sc_max_frame_bytes config)) payloads = Ok frames) as Henc.
  { rw -Hframes /payloads. by elim: ((conn_log x).*2) => [|e l IH] //=; rewrite IH. }
  assert (parse (sc_max_frame_bytes config) (pending codec ++ concat chunks) payloads (Codec_none, [])) as Hstream.
  { rw Hp Hchunks Hwire /=. by apply parse_frames. }
  assert (0 < sc_max_frame_bytes config ≤ max_frame_size_ codec) as Hlimit by (split; [apply Hconfig|done]).
  destruct (feed_all_stream (sc_max_frame_bytes config) chunks codec payloads)
    as [[_ (codec' & Hfeed & _ & Hf' & Hp')]|[Hover _]]; try done.
  2: { destruct Hover. by eapply small_roomy. }
  exists payloads, codec'. split_and!; [done..|]. rw /payloads.
  elim: ((conn_log x).*2) Hparse => [|e l IH] //= /Forall_cons [He Hl]. by rw He IH.
Qed.

(** The server's own code never fails. In every reachable state a new
    connection, a message on an open connection, the next segment of every
    activity and the next answer run to their ends without an exception or
    undefined behaviour, but for a segment that passes on a request which the
    service leaves undefined. *)
Lemma segments_return (v : V) w :
  sv_ok v → tcp_run config (Tcp_new v) w →
  (∀ now, ∃ w', onConnection_up config now w = (Ok tt, w')) ∧
  (∀ now c x bytes, tw_connections w !! c = Some x → conn_open x = true →
     c ∉ omap loop_of (tw_activities w) → Forall byte bytes →
     ∃ acts w', onMessage config now c bytes w = (Ok acts, w')) ∧
  (∀ i a now, tw_activities w !! i = Some a →
     let outcome := run_activity config now a (with_activities (delete i (tw_activities w)) w) in
     (∃ acts w', outcome = (Ok acts, w')) ∨ (outcome.1 = Undef ∧ undefined_request a)) ∧
  (∀ n e l now, sv_sent (tw_service w) !! tw_answered w = Some (n, e) → tw_lambdas w !! n = Some l →
     ∃ acts w', answer now n e l w = (Ok acts, w')).
Proof.
  intros Hok Hrun. pose proof (run_ok config Hconfig v w Hok Hrun) as Hi. rw /world_ok in Hi. split_and!.
  - intros now. destruct (wp_inv _ _ _ (accept_spec config Hconfig _ now w Hi)) as ([] & w' & ? & _). by exists w'.
  - intros now c x bytes Hx Ho Hc Hb.
    destruct (wp_inv _ _ _ (message_spec config _ now c x bytes w Hi Hx Ho Hc Hb)) as (acts & w' & ? & _).
    by exists acts, w'.
  - intros i a now Ha. rw (delete_Permutation _ _ _ Ha) in Hi.
    apply (inv_activities _ _ (delete i (tw_activities w))) in Hi.
    destruct (wp_activity config Hconfig _ now a _ Hi) as [(acts & w' & ? & _)%wp_inv|Hu]; [left; by exists acts, w'|by right].
  - intros n e l now _ _. by do 2 eexists.
Qed.
End theorems.

(** ** Schedules

    Runs are computed from a list of moves; [inner] computes the [k]-th of the
    service's own steps. *)

Inductive Move :=
  | Accept
  | Receive (c : nat) (bytes : list Z)
  | Run (i : nat)
  | Respond
  | PushOut
  | Service (k : nat).

Section schedules.
  Context {V : Type} `{!SessionService V, !EnvelopeCodec}.
  Context (config : ServerConfig) (inner : nat → V → option V).

Notation World := (TcpWorld V).

Definition done {X} (r : result X * World) (f : X → World → World) : option World :=
  match r with (Ok x, w) => Some (f x w) | _ => None end.

Definition move (m : Move) (w : World) : option World :=
  match m with
  | Accept => done (onConnection_up config 0 w) (λ _ w, w)
  | Receive c bytes =>
      x ← tw_connections w !! c;
      if conn_open x && bool_decide (c ∉ omap loop_of (tw_activities w)) &&
         forallb (λ b, (0 <=? b) && (b <? 256)) bytes
      then done (onMessage config 0 c bytes w) add_activities else None
  | Run i =>
      a ← tw_activities w !! i;
      done (run_activity config 0 a (with_activities (delete i (tw_activities w)) w)) add_activities
  | Respond =>
      '(n, e) ← sv_sent (tw_service w) !! tw_answered w; l ← tw_lambdas w !! n;
      done (answer 0 n e l (mkWorld (tw_service w) (tw_connections w) (tw_states w) (tw_users w)
        (tw_next_generation w) (tw_lambdas w) (S (tw_answered w)) (tw_pushed w) (tw_activities w)
        (tw_seen w))) add_activities
  | PushOut =>
      '(u, e) ← sv_pushed (tw_service w) !! tw_pushed w;
      Some (mkWorld (tw_service w) (tw_connections w) (tw_states w) (tw_users w)
        (tw_next_generation w) (tw_lambdas w) (tw_answered w) (S (tw_pushed w))
        (tw_activities w ++ [PushLookup u e]) (tw_seen w))
  | Service k => v ← inner k (tw_service w); Some (with_service v w)
  end.

Fixpoint moves (l : list Move) (w : World) : option World :=
  match l with
  | [] => Some w
  | m :: l => w ← move m w; moves l w
  end.

Lemma done_Some {X} (r : result X * World) f w' : done r f = Some w' → ∃ x w, r = (Ok x, w) ∧ w' = f x w.
Proof. destruct r as [[x|e|] w]; try done. intros [= <-]. by exists x, w. Qed.

Context (inner_step : ∀ k v v', inner k v = Some v' → sv_step v v').

Lemma move_tcp_step m w w' : move m w = Some w' → tcp_step config w w'.
Proof.
  destruct m; cbn.
  - intros ([] & w1 & Hr & ->)%done_Some. by eapply tcp_accept.
  - intros (x & Hx & Hm)%bind_Some. destruct (_ && _) eqn:Hg; [|done].
    apply andb_true_iff in Hg as [[Ho Hl%bool_decide_eq_true]%andb_true_iff Hb].
    apply done_Some in Hm as (acts & w1 & Hr & ->). eapply tcp_message; [done..| |exact Hr].
    apply Is_true_true, forallb_True in Hb. eapply Forall_impl; [exact Hb|]. intros b Hb'%Is_true_true. rw /byte. lia.
  - intros (a & Ha & (acts & w1 & Hr & ->)%done_Some)%bind_Some. by eapply tcp_activity.
  - intros ([n e] & Hn & (l & Hl & Hm)%bind_Some)%bind_Some.
    apply done_Some in Hm as (acts & w1 & Hr & ->). by eapply (tcp_answer _ _ n e l).
  - intros ([u e] & Hu & [= <-])%bind_Some. by apply tcp_push.
  - intros (v & Hv & [= <-])%bind_Some. apply tcp_service. by eapply inner_step.
Qed.

Lemma run_moves l w w' : moves l w = Some w' → tcp_run config w w'.
Proof.
  revert w. induction l as [|m l IH]; intros w; cbn; [intros [= ->]; apply tcp_start|].
  intros (w1 & Hm%move_tcp_step & Hr%IH)%bind_Some. eapply tcp_run_trans; [|exact Hr].
  eapply tcp_next; [apply tcp_start|done].
Qed.
End schedules.

(** ** A small service

    It signs users in at once and out later, answers, and pushes to the user a
    request names. *)

Module TcpDemo.
Record Toy := mkToy {
  toy_sessions : list (option Z);
  toy_requests : nat;
  toy_sent : list (nat * Envelope);
  toy_pushed : list (Z * Envelope);
  toy_queue : list (nat * nat);
}.

Definition ack : Envelope := message COMMAND_ACK (Command_ack true "").
Definition event : Envelope := message TABLE_EVENT (Table_event 1 1 1 "cards" "").

Definition toy_handle (e : Envelope) (session : nat) : M Toy unit := λ v,
  let n := toy_requests v in
  if (session <? length (toy_sessions v))%nat then
    (Ok tt,
     match message_type e with
     | LOGIN_REQUEST =>
         mkToy (<[session := Some (request_id e)]> (toy_sessions v)) (S n) (toy_sent v ++ [(n, ack)])
           (toy_pushed v) (toy_queue v)
     | LOGOUT_REQUEST =>
         mkToy (toy_sessions v) (S n) (toy_sent v) (toy_pushed v) (toy_queue v ++ [(session, n)])
     | _ =>
         mkToy (toy_sessions v) (S n) (toy_sent v ++ [(n, ack)])
           (toy_pushed v ++ [(request_id e, event)]) (toy_queue v)
     end)
  else (Undef, v).

Definition toy_logout (v : Toy) : option Toy :=
  match toy_queue v with
  | (session, n) :: queue =>
      Some (mkToy (<[session := None]> (toy_sessions v)) (toy_requests v) (toy_sent v ++ [(n, ack)])
              (toy_pushed v) queue)
  | [] => None
  end.

#[export] Instance toy_service : SessionService Toy := {
  sv_connect v :=
    (length (toy_sessions v),
     mkToy (toy_sessions v ++ [None]) (toy_requests v) (toy_sent v) (toy_pushed v) (toy_queue v));
  sv_user session v := mjoin (toy_sessions v !! session);
  sv_requests := toy_requests;
  sv_handle := toy_handle;
  sv_disconnect session := mret tt;
  sv_metrics f v := v;
  sv_sent := toy_sent;
  sv_pushed := toy_pushed;
  sv_step v v' := toy_logout v = Some v';
}.

(** Every request is in the queue or answered, once. *)
Definition toy_ok (v : Toy) : Prop :=
  NoDup ((toy_queue v).*2 ++ (toy_sent v).*1) ∧
  ∀ n, n ∈ (toy_queue v).*2 ++ (toy_sent v).*1 → (n < toy_requests v)%nat.

Definition toy_known (session : nat) (v : Toy) : Prop := (session < length (toy_sessions v))%nat.

Lemma toy_grows v v' :
  toy_sent v `prefix_of` toy_sent v' → toy_pushed v `prefix_of` toy_pushed v' →
  (toy_requests v ≤ toy_requests v')%nat → (length (toy_sessions v) ≤ length (toy_sessions v'))%nat →
  grows toy_known v v'.
Proof. intros. split_and!; [done..|]. rw /toy_known. lia. Qed.

(** A request joins the queue or the answers. *)
Lemma toy_ok_request v v' :
  toy_ok v → (toy_queue v').*2 ++ (toy_sent v').*1 ≡ₚ toy_requests v :: (toy_queue v).*2 ++ (toy_sent v).*1 →
  toy_requests v' = S (toy_requests v) → toy_ok v'.
Proof.
  intros [H1 H2] Hp Hr. split.
  - rw Hp NoDup_cons. split; [|done]. intros Hin%H2. lia.
  - intros n. rw Hp Hr elem_of_cons. intros [->|Hn%H2]; lia.
Qed.

#[export] Program Instance toy_laws : SessionServiceLaws Toy := {
  sv_ok := toy_ok;
  sv_known := toy_known;
  sv_undefined _ := False;
}.
Next Obligation.
  intros v session v' Hok [= <- <-]. split_and!; [done| | | |].
  - apply toy_grows; try done. cbn. rw length_app. lia.
  - rw /toy_known /= length_app /=. lia.
  - rw /toy_known. lia.
  - cbn. by rw lookup_app_r // Nat.sub_diag.
Qed.
Next Obligation.
  intros v session e Hok Hk. left. rw /wp /= /toy_handle (proj2 (Nat.ltb_lt _ _) Hk).
  set (n := toy_requests v).
  assert (∀ s, toy_ok (mkToy s (S n) (toy_sent v ++ [(n, ack)]) (toy_pushed v) (toy_queue v))) as Hnow.
  { intros s. apply (toy_ok_request v); [done| |done]. cbn. by rw fmap_app app_assoc -Permutation_cons_append. }
  assert (∀ p, toy_ok (mkToy (toy_sessions v) (S n) (toy_sent v ++ [(n, ack)]) p (toy_queue v))) as Hpush.
  { intros p. apply (Hnow (toy_sessions v)). }
  assert (toy_ok (mkToy (toy_sessions v) (S n) (toy_sent v) (toy_pushed v) (toy_queue v ++ [(session, n)]))) as Hlater.
  { apply (toy_ok_request v); [done| |done]. cbn. by rw fmap_app -app_assoc -Permutation_middle. }
  destruct (message_type e); (split_and!; [auto; done| |cbn; lia]);
    (apply toy_grows; cbn; rw ?length_insert; by [|apply prefix_app_r|lia]).
Qed.
Next Obligation. intros v session Hok _. exists v. split_and!; [done..|apply toy_grows; done]. Qed.
Next Obligation. intros v f Hok. split; [done|by apply toy_grows]. Qed.
Next Obligation.
  intros v v' [H1 H2]. rw /= /toy_logout. destruct (toy_queue v) as [|[session n] queue] eqn:Hq; [done|].
  intros [= <-]. cbn in H1, H2.
  assert (n :: queue.*2 ++ (toy_sent v).*1 ≡ₚ queue.*2 ++ (toy_sent v ++ [(n, ack)]).*1) as Hp.
  { by rw fmap_app app_assoc -Permutation_cons_append. }
  split; [split; cbn|].
  - by rw -Hp.
  - intros m. rw -Hp. apply H2.
  - apply toy_grows; cbn; rw ?length_insert; by [|apply prefix_app_r].
Qed.
Next Obligation. intros v [H1 _]. by apply NoDup_app in H1 as (_ & _ & ?). Qed.

(** The kind of a message in one byte, and the number of its request. *)
#[export] Instance toy_codec : EnvelopeCodec := {
  SerializeToString e :=
    match message_type e with
    | COMMAND_ACK => [1; 0]
    | LOGIN_REQUEST => [2; request_id e]
    | LOGOUT_REQUEST => [3; request_id e]
    | TABLE_EVENT => [4; 0]
    | _ => [5; request_id e]
    end;
  ParseFromArray l :=
    match l with
    | [kind; id] =>
        if kind =? 1 then Some ack
        else if kind =? 4 then Some event
        else Some (mkEnvelope 1 id 0
          (if kind =? 2 then LOGIN_REQUEST else if kind =? 3 then LOGOUT_REQUEST else HEARTBEAT) "" 0 0 0 No_body)
    | _ => None
    end;
}.

Definition node : ServerConfig :=
  mkServerConfig Role_standalone "game-1" "127.0.0.1:7000" "0.0.0.0" 7000 "0.0.0.0" 9100 4 1 20000 45000
    15000 64 4194304 100 200 3600 (mkMySql "127.0.0.1" 3306 "poker" "x" "poker" 8 5)
    (mkRedis "127.0.0.1" 6379 "" 0 2000).

Lemma node_ok : config_ok node.
Proof. split; cbn; rw /u32_max; lia. Qed.

Notation World := (TcpWorld Toy).

Definition toy_step (k : nat) (v : Toy) : option Toy := toy_logout v.

Notation moves := (moves node toy_step).

Lemma moves_tcp_run l w w' : moves l w = Some w' → tcp_run node w w'.
Proof. by apply run_moves. Qed.

(** ** Two connections *)

Definition toy0 : Toy := mkToy [] 0 [] [] [].

Lemma toy0_ok : sv_ok toy0.
Proof. split; [constructor|by intros n ?%not_elem_of_nil]. Qed.

Definition frame (kind id : Z) : list Z := [0; 0; 0; 2; kind; id].

(** An answer is bound and sent by the activity at index [i]. *)
Definition respond (i : nat) : list Move := [Respond; Run i; Run i; Run i; Run i].

(** User 7 signs in on the first connection, and a request on the second one
    pushes to the user. *)
Definition signing_in : list Move :=
  [Accept; Receive 0 (frame 2 7); Run 0; Run 0; Run 0; Run 0; Run 0] ++ respond 0.
Definition pushing : list Move :=
  [Accept; Receive 1 (frame 5 7); Run 0; Run 0; Run 0; Run 0; Run 0] ++ respond 0 ++ [PushOut; Run 0; Run 0].

Definition w0 : World := Tcp_new toy0.
Definition w1 : World := default w0 (moves (signing_in ++ pushing) w0).

Lemma run1 : tcp_run node w0 w1.
Proof. apply (moves_tcp_run (signing_in ++ pushing)). vm_compute. reflexivity. Qed.

(** What a connection was sent. *)
Definition log_of (c : nat) (w : World) : list Origin := from_option (fmap fst ∘ conn_log) [] (tw_connections w !! c).

Example run1_logs :
  log_of 0 w1 = [Answer 0; Pushed 7] ∧ log_of 1 w1 = [Answer 1] ∧ tw_users w1 !! 7 = Some (mkBinding 0 1) ∧
  tw_activities w1 = [].
Proof. vm_compute. split_and!; reflexivity. Qed.

Lemma run1_node : config_ok node ∧ sv_ok toy0 ∧ tcp_run node (Tcp_new toy0) w1.
Proof. split_and!; [apply node_ok|apply toy0_ok|apply run1]. Qed.

(** The push reached the connection on which its user was signed in. *)
Lemma deliveries_routed_witness :
  (config_ok node ∧ sv_ok toy0 ∧ tcp_run node (Tcp_new toy0) w1) ∧
  (7, event) ∈ sv_pushed (tw_service w1) ∧ was_signed_in node toy0 w1 0 7.
Proof.
  split; [apply run1_node|].
  destruct (deliveries_routed node node_ok toy0 w1 toy0_ok run1) as [_ H].
  apply (H 0%nat (default (TcpConnection_new 0) (tw_connections w1 !! 0%nat)) (Pushed 7) event).
  - vm_compute. reflexivity.
  - apply list_elem_of_lookup_2 with 1%nat. vm_compute. reflexivity.
Defined.

(** User 7 signs in again on a third connection, which replaces the first one. *)
Definition w2 : World :=
  default w1 (moves ([Accept; Receive 2 (frame 2 7); Run 0; Run 0; Run 0; Run 0; Run 0; Run 0]) w1).

Lemma run_replace : tcp_run node w1 w2.
Proof.
  apply (moves_tcp_run [Accept; Receive 2 (frame 2 7); Run 0; Run 0; Run 0; Run 0; Run 0; Run 0]).
  vm_compute. reflexivity.
Qed.

Example run_replace_logs :
  tw_users w2 !! 7 = Some (mkBinding 2 3) ∧ log_of 0 w2 = [Answer 0; Pushed 7; Notice] ∧
  conn_shutdown <$> tw_connections w2 !! 0%nat = Some true.
Proof. vm_compute. split_and!; reflexivity. Qed.

Lemma bindings_exclusive_witness :
  (config_ok node ∧ sv_ok toy0 ∧ tcp_run node (Tcp_new toy0) w2) ∧
  tw_users w2 !! 7 = Some (mkBinding 2 3) ∧ was_signed_in node toy0 w2 2 7.
Proof.
  assert (tcp_run node (Tcp_new toy0) w2) as Hrun by (eapply tcp_run_trans; [apply run1|apply run_replace]).
  assert (tw_users w2 !! 7 = Some (mkBinding 2 3)) as H7 by (vm_compute; reflexivity).
  split; [split_and!; [apply node_ok|apply toy0_ok|done]|]. split; [done|].
  destruct (bindings_exclusive node node_ok toy0 w2 toy0_ok Hrun) as [H _].
  exact (H 7 (mkBinding 2 3) H7).
Defined.

(** The first connection's bytes, read one by one. *)
Definition reader : LengthFieldCodec := mkCodec 80 [] 0 false.

Lemma reader_inv : codec_inv reader.
Proof. by apply (codec_inv_new 80). Qed.

Lemma wire_decodes_witness :
  ∃ x payloads codec', tw_connections w1 !! 0%nat = Some x ∧
    feed_all ((λ b, [b]) <$> conn_bytes x) reader = (Ok payloads, codec') ∧
    failed_ codec' = false ∧ pending codec' = [] ∧ mapM ParseFromArray payloads = Some [ack; event].
Proof.
  set (x := default (TcpConnection_new 0) (tw_connections w1 !! 0%nat)).
  assert (tw_connections w1 !! 0%nat = Some x) as Hx by (vm_compute; reflexivity).
  destruct (wire_decodes node node_ok toy0 w1 0 x ((λ b, [b]) <$> conn_bytes x) reader) as (payloads & codec' & H);
    [exact toy0_ok|exact run1|exact Hx| |exact reader_inv|reflexivity|reflexivity|cbn; lia| | | |].
  - vm_compute. repeat constructor.
  - vm_compute. reflexivity.
  - vm_compute. repeat constructor; discriminate.
  - vm_compute. repeat constructor; discriminate.
  - exists x, payloads, codec'. split; [exact Hx|exact H].
Defined.

Lemma segments_return_witness :
  (config_ok node ∧ sv_ok toy0 ∧ tcp_run node (Tcp_new toy0) w1) ∧
  ∃ w', onConnection_up node 5 w1 = (Ok tt, w').
Proof.
  split; [apply run1_node|].
  destruct (segments_return node node_ok toy0 w1 toy0_ok run1) as [H _]. exact (H 5).
Defined.

(** ** A late binding

    The thread of the first connection has passed a logout on and read that user 7
    is signed in; the logout runs and is answered, which unbinds the user; then the
    thread binds the user again, and a push for the user reaches the connection. *)
Definition logging_out : list Move :=
  [Receive 0 (frame 3 7); Run 0; Run 0; Run 0; Service 0; Respond; Run 1; Run 1; Run 1; Run 1].

Definition before : option World := moves (signing_in ++ logging_out) w0.
Definition after : option World := w ← before; moves (replicate 2 (Run 0) ++ pushing) w.

Example stale_binding :
  (tw_users <$> before) = Some ∅ ∧
  ((λ w, (sv_user 0%nat (tw_service w), tw_users w !! 7)) <$> after) = Some (None, Some (mkBinding 0 1)) ∧
  (log_of 0 <$> after) = Some [Answer 0; Answer 1; Pushed 7].
Proof. vm_compute. split_and!; reflexivity. Qed.
End TcpDemo.
