(* ===== verification/Settlement.v ===== *)
(** * The settlement of a hand, from the table to the store

    The record that [handSettlement] builds from a settled table, against the
    check the store makes before it commits it. *)
From S2P Require Import Prelude Card Deck HandEvaluator Table TableLib TableInv TableBetting TablePots TableAdvance TableAct TableDeal TableStart TableChips TableLife TableTheorems AccountStore GameStore GameStoreLib Protocol.

(** ** Winnings *)

Lemma add_winnings_spec award ws k m id :
  default 0 (add_winnings award (Z.of_nat k) ws m !! id) =
  default 0 (m !! id) + shares (award_share award) ws k id.
Proof.
  revert k m. induction ws as [|w ws IH]; intros k m; cbn [add_winnings shares]; [lia|].
  replace (Z.of_nat k + 1) with (Z.of_nat (S k)) by lia. rw IH lookup_insert /award_share.
  case_decide as Hw; [subst; rw Z.eqb_refl; cbn; lia|].
  destruct (Z.eqb_spec w id); [done|]. lia.
Qed.

Lemma award_winnings_spec awards id : default 0 (award_winnings awards !! id) = winnings awards id.
Proof.
  rw /award_winnings. cut (∀ m : gmap Z Z, default 0
    (foldl (λ m award, add_winnings award 0 (winners award) m) m awards !! id) =
    default 0 (m !! id) + winnings awards id).
  { intros Hcut. by rw Hcut lookup_empty. }
  induction awards as [|a awards IH]; intros m; cbn [foldl]; [rw /winnings /=; lia|].
  rw IH (add_winnings_spec a (winners a) 0 m id) winnings_cons /award_to. lia.
Qed.

Lemma shares_notin f ids k id : id ∉ ids → shares f ids k id = 0.
Proof.
  revert k. induction ids as [|x ids IH]; intros k; cbn [shares]; [done|].
  rw not_elem_of_cons. intros [Hne Hno]. destruct (Z.eqb_spec x id); [congruence|]. by rw IH.
Qed.

Lemma shared_contender level p : eligible level p = true → is_contender p = true.
Proof. rw /eligible /is_contender. destruct (contributed level p); [|done]. by destruct (pl_status p). Qed.

Lemma pots_contenders t levels previous awards p :
  unique_ids t → pots_spec t levels previous awards → p ∈ players t → is_contender p = false →
  winnings awards (pl_id p) = 0.
Proof.
  intros Hids Hpots Hp Hno. induction Hpots as [| |level levels previous a awards Hpos Ha _ IH]; [done|done|].
  rw winnings_cons IH. enough (award_to a (pl_id p) = 0) as ->; [done|].
  rw /award_to. apply shares_notin. intros (q & Hq & Hid & He & _)%(award_winners _ _ _ _ Ha).
  assert (q = p) as -> by by apply (unique_ids_eq t). apply shared_contender in He. congruence.
Qed.

(** Only players still in the hand win, and never less than nothing. *)
Lemma paid_winnings t p :
  paid t → p ∈ players t →
  0 ≤ winnings (last_awards_ t) (pl_id p) ∧
  (is_contender p = false → winnings (last_awards_ t) (pl_id p) = 0).
Proof.
  intros ((Hok & _) & Hcase & _) Hp. pose proof (ok_ids t Hok) as Hids.
  destruct Hcase as [(_ & w & Hw & Hc & ->)|(_ & _ & Hpots)].
  - assert (0 ≤ potSize t).
    { apply sumZ_nonneg. intros q Hq. destruct (ok_chips t Hok q Hq). lia. }
    rw /winnings /= /award_to /= /award_share /=. destruct (Z.eqb_spec (pl_id w) (pl_id p)) as [Heq|].
    + assert (w = p) as -> by by apply (unique_ids_eq t). rw Hc. split; [lia|done].
    + split; [lia|done].
  - split; [by eapply winnings_nonneg|]. by eapply pots_contenders.
Qed.

Lemma paid_sizes t :
  paid t → sumZ pot_size (last_awards_ t) = sumZ (λ p, winnings (last_awards_ t) (pl_id p)) (players t).
Proof.
  intros Hpaid. pose proof (sum_winnings t Hpaid) as Hsum. destruct Hpaid as ((Hok & Hs & _) & Hcase & _).
  destruct Hcase as [(H1 & w & Hw & Hc & Ha)|(H2 & _ & Hp)].
  - revert Hsum. rw /dead_chips decide_False; [lia|]. rw Ha /=. lia.
  - symmetry. eapply winnings_paid; [apply ok_ids, Hok|done].
Qed.

(** ** The audit snapshot *)

(** Its players: what everyone may know, and the hole cards. *)
Definition audited (p : Player) : PlayerView :=
  mkPlayerView (pl_id p) (pl_seat p) (pl_stack p) (pl_street_commitment p) (pl_hand_commitment p)
    (pl_status p) (pl_ready p) (pl_connected p) (hole_cards p).

Lemma audit_players t : unique_ids t → snap_players (auditSnapshot t) = audited <$> players t.
Proof.
  intros Hids. cbn. rw -list_fmap_compose. apply list_fmap_ext. intros i p Hi.
  apply list_elem_of_lookup_2 in Hi. destruct (findPlayer_is_Some t p Hids Hi) as (j & Hf & _).
  rw /compose /audit_view /audited /hole_cards /= Hf. destruct (pl_has_hole p) eqn:Hh; [done|].
  by rw /player_view Hh.
Qed.

(** The record of a player with cards. *)
Definition settled_player (w : Z → Z) (p : Player) : HandPlayerSettlement :=
  mkPlayerSettlement (pl_id p) (u32 (Z.of_nat (pl_seat p))) (pl_stack p + pl_hand_commitment p - w (pl_id p))
    (pl_hand_commitment p) (w (pl_id p)) (pl_stack p) (hole_list p)
    (bool_decide (pl_status p = Status_folded)).

Lemma settlement_players id t awards :
  unique_ids t →
  hst_players (handSettlement id (auditSnapshot t) awards) =
  settled_player (winnings awards) <$> List.filter pl_has_hole (players t).
Proof.
  intros Hids. cbn [handSettlement hst_players]. rw audit_players //.
  induction (players t) as [|p l IH]; cbn [fmap list_fmap omap list_omap List.filter]; [done|].
  rw /settlement_player /audited /hole_cards /= award_winnings_spec. destruct (pl_has_hole p) eqn:Hh; cbn.
  - apply (f_equal2 cons); [done|]. exact IH.
  - exact IH.
Qed.

(** ** The check *)

Lemma length_players t : (length (players t) ≤ length (seats_ t))%nat.
Proof. rw /players. induction (seats_ t) as [|[p|] l IH]; cbn; lia. Qed.

(** Sums over the players with cards, when the others add nothing. *)
Lemma sum_holes f (l : list Player) :
  (∀ p, p ∈ l → pl_has_hole p = false → f p = 0) → sumZ f (List.filter pl_has_hole l) = sumZ f l.
Proof.
  induction l as [|p l IH]; intros Hf; cbn [List.filter]; [done|].
  assert (sumZ f (List.filter pl_has_hole l) = sumZ f l) as Heq.
  { apply IH. intros q Hq. apply Hf. by right. }
  destruct (pl_has_hole p) eqn:Hh; simpl; [by rw Heq|]. rw Heq (Hf p); [by left|done|lia].
Qed.

Lemma holes_cards w (l : list Player) :
  hand_cards (settled_player w <$> List.filter pl_has_hole l) = mjoin (hole_cards <$> l).
Proof.
  rw /hand_cards. induction l as [|p l IH]; cbn [List.filter fmap list_fmap mjoin list_join]; [done|].
  rw -IH /hole_cards. by destruct (pl_has_hole p).
Qed.

Lemma elem_of_holes (l : list Player) p : p ∈ List.filter pl_has_hole l ↔ p ∈ l ∧ pl_has_hole p = true.
Proof. rw !list_elem_of_In. apply filter_In. Qed.

Lemma persistentHandId_nonzero id n : 0 < id ≤ u32_max → 0 < n ≤ u32_max → persistentHandId id n ≠ 0.
Proof.
  intros Hid Hn. rw /persistentHandId.
  replace ((id =? 0) || (u32_max <? id) || (n =? 0) || (u32_max <? n)) with false by (symmetry; lia).
  intros [_ ?]%Z.lor_eq_0_iff. lia.
Qed.

Lemma filter_sublist {A B} (f : A → bool) (g : A → B) (l : list A) :
  g <$> List.filter f l `sublist_of` g <$> l.
Proof.
  induction l as [|x l IH]; cbn; [constructor|]. destruct (f x); by constructor.
Qed.

Lemma valid_card_u8 c : valid_card c → u8_card c.
Proof. rw /valid_card /u8_card. lia. Qed.

Lemma paid_total t : paid t → totalChips t = sumZ pl_stack (players t).
Proof.
  intros ((_ & Hs & _) & _). rw /totalChips. apply sumZ_ext. intros p _. rw decide_True //. lia.
Qed.

Lemma settlement_checked t id :
  paid t → (2 ≤ count_players pl_has_hole t)%nat → (length (players t) ≤ 6)%nat →
  (∀ p, p ∈ players t → (pl_seat p < 6)%nat) →
  (∀ p, p ∈ players t → pl_id p ≠ 0) → 0 < id ≤ u32_max → 0 < hand_id_ t ≤ u32_max →
  totalChips t ≤ i64_max →
  validHandSettlement (handSettlement id (auditSnapshot t) (last_awards_ t)) = true ↔ dead_chips t = 0.
Proof.
  intros Hpaid Hcount Hlen Hseats Hnz Hid Hhand Htotal.
  pose proof Hpaid as ((Hok & Hs & _) & _ & [[Hnd Hval] Hboard Hhole Hstack]).
  pose proof (ok_ids t Hok) as Hids. pose proof (paid_sizes t Hpaid) as Hsizes.
  pose proof (sum_winnings t Hpaid) as Hsum. rw (paid_total t Hpaid) in Htotal.
  set (w := winnings (last_awards_ t)) in *.
  assert (∀ p, p ∈ players t → 0 ≤ w (pl_id p) ≤ pl_stack p ∧ pl_stack p ≤ sumZ pl_stack (players t)) as Hw.
  { intros p Hp. split; [split; [by apply paid_winnings|by apply Hstack]|].
    apply sumZ_elem_le; [|done]. intros q Hq. by destruct (ok_chips t Hok q Hq). }
  set (v := handSettlement _ _ _).
  assert (hst_players v = settled_player w <$> List.filter pl_has_hole (players t)) as Hpl.
  { by apply settlement_players. }
  assert (hst_board v ++ hand_cards (hst_players v) ≡ₚ dealt t) as Hcards.
  { rw Hpl holes_cards /dealt (Permutation_app_comm (mjoin _)). done. }
  assert (sumZ hp_committed (hst_players v) = potSize t) as Hcommitted.
  { rw Hpl sumZ_fmap. apply sum_holes. intros p Hp Hh. by apply Hhole. }
  assert (sumZ hp_winnings (hst_players v) = hst_total_pot v) as Hwon.
  { rw Hpl sumZ_fmap. cbn [v handSettlement hst_total_pot]. rw Hsizes.
    apply (sum_holes (λ p, w (pl_id p))). intros p Hp Hh. apply paid_winnings; [done..|by apply Hhole]. }
  assert (hst_total_pot v = sumZ (λ p, w (pl_id p)) (players t)) as Hpot by exact Hsizes.
  rw validHandSettlement_correct.
  { rw Hpot. etrans; [|exact Htotal]. apply sumZ_le. intros p Hp. by apply Hw. }
  { rw Hcards. eapply Forall_impl; [exact Hval|]. intros c. apply valid_card_u8. }
  split.
  - intros Hv. pose proof (sv_committed _ Hv) as Hc. lia.
  - intros Hdead. split.
    + split_and!; [by apply persistentHandId_nonzero|cbn; lia..].
    + rw Hpl length_fmap. split; [exact Hcount|]. etrans; [|exact Hlen].
      rw -(length_fmap pl_id) -(length_fmap pl_id (players t)). apply sublist_length, filter_sublist.
    + exact Hboard.
    + rw Hpl Forall_fmap. apply Forall_forall. intros p [Hp Hh]%elem_of_holes.
      destruct (Hw p Hp) as [[? ?] ?], (ok_chips t Hok p Hp) as [? [? ?]].
      pose proof (Hseats p Hp) as Hseat.
      rw /player_valid /=. split_and!; try lia; [by apply Hnz|].
      rw /u32 Z.mod_small; lia.
    + rw Hpl -list_fmap_compose. eapply sublist_NoDup; [exact Hids|].
      apply (filter_sublist pl_has_hole pl_id).
    + by rw Hcards.
    + by rw Hcards.
    + lia.
    + done.
Qed.

(** C8: a settled hand can always be stored, unless it lost chips. After the
    command that settles a hand, the record the service builds from the table's
    audit snapshot and the awards passes the store's check exactly when no layer
    of the pot went to nobody; for tables of at most six seats, ids that fit the
    hand id, and chips that fit 64 bits. *)
Theorem settlement_accepted table_config t cmd r t' id :
  reachable table_config t → act cmd t = (Ok r, t') → res_error r = Error_ok →
  street_ t' = Street_settled → (length (seats_ t) ≤ 6)%nat → (∀ p, p ∈ players t → pl_id p ≠ 0) →
  0 < id ≤ u32_max → 0 < hand_id_ t' ≤ u32_max → totalChips t ≤ i64_max →
  validHandSettlement (handSettlement id (auditSnapshot t') (res_awards r)) = true ↔ dead_chips t' = 0.
Proof.
  intros Hr Hact Herr Hs Hlen Hnz Hid Hhand Htotal.
  pose proof (reachable_inv table_config t Hr) as Hinv.
  pose proof (act_ok cmd t Hinv) as Hwp. rw /wp Hact in Hwp.
  destruct Hwp as [(? & _)|(Ha & Hend & Hrep & (f & Hpl & Hf) & _)]; [done|].
  destruct Hend as [Ha'|Hpaid]; [by apply awaiting_unsettled in Ha'|].
  destruct Hrep as [_ -> _ _].
  assert (∀ p', p' ∈ players t' → ∃ p, p ∈ players t ∧ pl_id p' = pl_id p ∧ pl_seat p' = pl_seat p) as Hback.
  { intros p'. rw Hpl. intros (p & -> & Hp)%list_elem_of_fmap. exists p. split; [done|].
    destruct (Hf p Hp) as ([? ?] & _). done. }
  destruct Ha as (Hok & _ & H2 & _). pose proof (hand_base t Hok) as Hbase.
  apply settlement_checked; try done.
  - rw /count_players Hpl filter_length_fmap. etrans; [exact H2|]. apply count_players_le.
    intros p Hp Hc. destruct (Hf p Hp) as (_ & _ & Hh). rw /compose Hh.
    by apply (hand_players t Hok p Hp), (contender_in_hand t).
  - rw Hpl length_fmap. etrans; [apply length_players|done].
  - intros p' (p & Hp & _ & ->)%Hback. apply elem_of_players in Hp as [i Hi].
    rw (ok_seats t Hbase i p Hi). apply seat_at_lt in Hi. lia.
  - intros p' (p & Hp & -> & _)%Hback. by apply Hnz.
  - destruct (act_accounts_ok cmd t r t' Hinv Hact) as [->|Htot]; [done|].
    pose proof (dead_chips_nonneg t'). lia.
Qed.

Module SettlementDemo.
Lemma settlement_accepted_witness :
  let t' := snd (Demo.step Action_fold) in
  street_ t' = Street_settled ∧
  validHandSettlement (handSettlement 7 (auditSnapshot t') (res_awards (Demo.answer Action_fold))) = true.
Proof.
  split; [by vm_compute|].
  apply (settlement_accepted Demo.config Demo.hand (mkCommand 10 Action_fold 0) (Demo.answer Action_fold)).
  - apply Demo.hand_reachable.
  - apply Demo.step_Ok.
  - by vm_compute.
  - by vm_compute.
  - vm_compute. lia.
  - intros p Hp. vm_compute in Hp. revert p Hp. apply Forall_forall. by repeat constructor.
  - done.
  - by vm_compute.
  - by vm_compute.
  - by vm_compute.
Defined.

(** The hand that loses a layer cannot be stored. *)
Example lost_layer_refused :
  validHandSettlement (handSettlement 7 (auditSnapshot Demo.side_pot_end) (last_awards_ Demo.side_pot_end)) = false.
Proof. by vm_compute. Qed.
End SettlementDemo.
