(* ===== verification/GameStoreSpec.v ===== *)
(** * What clients may rely on of the two stores

    [apps/server/main.cpp] gives the account store and the game store the same
    database, so their state is one: registering a user opens a wallet that the game
    store pays from. Here are the operations of both interfaces as transformations of
    that state, and the class of the laws every one of them keeps: an invariant, and
    that chips come about only with a new wallet. The pair of in-memory stores is an
    instance, with the wallet of a new account seeded as the tests do it by hand. *)
From S2P Require Import Prelude Card Table AccountStore GameStore GameStoreLib GameStoreInv.

Inductive gs_op {W} `{!GameStore W} : (W → W) → Prop :=
  | op_findTable id : gs_op (λ w, (gs_findTable id w).2)
  | op_listOpenTables limit : gs_op (λ w, (gs_listOpenTables limit w).2)
  | op_countOpenTables node : gs_op (λ w, (gs_countOpenTables node w).2)
  | op_createTable t : gs_op (λ w, (gs_createTable t w).2)
  | op_reserveBuyIn id u seat amount key : gs_op (λ w, (gs_reserveBuyIn id u seat amount key w).2)
  | op_cashOut id u key : gs_op (λ w, (gs_cashOut id u key w).2)
  | op_beginHand hand : gs_op (λ w, (gs_beginHand hand w).2)
  | op_appendAction a : gs_op (λ w, (gs_appendAction a w).2)
  | op_settleHand v : gs_op (λ w, (gs_settleHand v w).2)
  | op_abortTable id : gs_op (λ w, (gs_abortTableAndRefund id w).2).

(** Every account is opened with [grant] chips. *)
Inductive account_op {W} `{!AccountStore W} (grant : Z) : (W → W) → Prop :=
  | op_createUser name hash : account_op grant (λ w, (createUser name hash grant w).2)
  | op_findUserByName name : account_op grant (λ w, (findUserByName name w).2)
  | op_findUserById id : account_op grant (λ w, (findUserById id w).2)
  | op_storeSession x : account_op grant (λ w, (storeSession x w).2)
  | op_findSession hash now : account_op grant (λ w, (findSession hash now w).2)
  | op_rotateSession hash x now : account_op grant (λ w, (rotateSession hash x now w).2)
  | op_revokeSession hash : account_op grant (λ w, (revokeSession hash w).2)
  | op_updateSequence hash expected replacement :
      account_op grant (λ w, (updateSessionSequence hash expected replacement w).2).

Definition store_op {W} `{!AccountStore W, !GameStore W} (grant : Z) (f : W → W) : Prop :=
  gs_op f ∨ account_op grant f.

Class StoreLaws (W : Type) `{!AccountStore W, !GameStore W} (grant : Z) := {
  st_inv : W → Prop;
  (** The chips in wallets and on tables, and the number of wallets. *)
  st_chips : W → Z;
  st_wallets : W → Z;
  st_keeps : ∀ f w, store_op grant f → st_inv w →
    st_inv (f w) ∧ st_wallets w ≤ st_wallets (f w) ∧
    st_chips (f w) = st_chips w + grant * (st_wallets (f w) - st_wallets w);
  (** The check of a table's blinds does not overflow when they fit, and tables with
      other blinds are not found. *)
  st_create : ∀ t w, blinds_fit (table_config t) → ∃ e w', gs_createTable t w = (Ok e, w');
  st_blinds : ∀ id t w, st_inv w → sr_bool (gs_findTable id w).1 = true →
    sr_value (gs_findTable id w).1 = Some t → blinds_fit (table_config t);
}.

(** ** Sequences of operations *)

Section calls.
  Context {W : Type} `{!AccountStore W, !GameStore W} (grant : Z) `{!StoreLaws W grant}.
  Implicit Types (w : W).

(** The chips of [w'] are those of [w] and the grants of the wallets opened since. *)
Record only_grants w w' : Prop := {
  og_inv : st_inv w → st_inv w';
  og_wallets : st_inv w → st_wallets w ≤ st_wallets w';
  og_chips : st_inv w → st_chips w' = st_chips w + grant * (st_wallets w' - st_wallets w);
}.

#[export] Instance only_grants_preorder : PreOrder only_grants.
Proof.
  split; [intros w; split; [done|done|lia]|]. intros w1 w2 w3 [H1 H2 H3] [H1' H2' H3'].
  split; intros Hw; specialize (H1 Hw); specialize (H2 Hw); specialize (H3 Hw); specialize (H1' H1);
    specialize (H2' H1); specialize (H3' H1); [done|lia|nia].
Qed.

Lemma store_op_grants f w : store_op grant f → only_grants w (f w).
Proof. intros Hf. by split; intros Hw; destruct (st_keeps f w Hf Hw) as (? & ? & ?). Qed.

Lemma gs_op_grants f w : gs_op f → only_grants w (f w).
Proof. intros Hf. apply store_op_grants. by left. Qed.

Lemma account_op_grants f w : account_op grant f → only_grants w (f w).
Proof. intros Hf. apply store_op_grants. by right. Qed.
End calls.

(** ** The in-memory stores *)

Notation MemoryStores := (InMemoryAccountStore * InMemoryGameStore)%type.

(** The account and its wallet. *)
Definition memory_createUser (name hash : string) (chips : Z) (w : MemoryStores)
    : StorageResult UserRecord * MemoryStores :=
  let '(r, s) := mem_createUser name hash chips w.1 in
  match sr_value r with
  | None => (r, (s, w.2))
  | Some u =>
      let '(e, g) := seedWallet (user_id u) chips w.2 in
      (if bool_decide (e = Storage_ok) then r else sr_fail e "wallet exists", (s, g))
  end.

(** A call of one of the two. *)
Definition on_first {X} (f : InMemoryAccountStore → X * InMemoryAccountStore) (w : MemoryStores) : X * MemoryStores :=
  let '(x, s) := f w.1 in (x, (s, w.2)).
Definition on_second {X} (f : InMemoryGameStore → X * InMemoryGameStore) (w : MemoryStores) : X * MemoryStores :=
  let '(x, g) := f w.2 in (x, (w.1, g)).

#[export] Instance memory_accounts : AccountStore MemoryStores := {
  createUser := memory_createUser;
  findUserByName name := on_first (findUserByName name);
  findUserById id := on_first (findUserById id);
  storeSession x := on_first (storeSession x);
  findSession hash now := on_first (findSession hash now);
  rotateSession hash x now := on_first (rotateSession hash x now);
  revokeSession hash := on_first (revokeSession hash);
  updateSessionSequence hash expected replacement := on_first (updateSessionSequence hash expected replacement);
}.

#[export] Instance memory_games : GameStore MemoryStores := {
  gs_findTable id := on_second (gs_findTable id);
  gs_listOpenTables limit := on_second (gs_listOpenTables limit);
  gs_countOpenTables node := on_second (gs_countOpenTables node);
  gs_createTable t := on_second (gs_createTable t);
  gs_reserveBuyIn id u seat amount key := on_second (gs_reserveBuyIn id u seat amount key);
  gs_cashOut id u key := on_second (gs_cashOut id u key);
  gs_beginHand hand := on_second (gs_beginHand hand);
  gs_appendAction a := on_second (gs_appendAction a);
  gs_settleHand v := on_second (gs_settleHand v);
  gs_abortTableAndRefund id := on_second (gs_abortTableAndRefund id);
}.

(** Only seeding opens a wallet. *)
Definition is_seed (c : GameCall) : bool := match c with SeedWallet _ _ => true | _ => false end.

Lemma refund_wallets seats w : dom (refund_seats seats w).1 = dom w.
Proof.
  revert w. induction seats as [|[u s] seats IH]; intros w; cbn; [done|].
  destruct (w !! u) as [b|] eqn:Hu; [|done]. rw IH. apply dom_insert_lookup_L. by eexists.
Qed.

Lemma call_wallets c g : is_seed c = false → dom (wallets (game_step c g)) = dom (wallets g).
Proof.
  destruct c as [|t|id u seat amount key|id u key|hand|a|v|id]; cbn [is_seed game_step]; intros Hseed; [done|..].
  - by destruct (createTable_cases t g) as [[-> _]|[(e & -> & _)|[-> _]]].
  - destruct (reserveBuyIn_cases id u seat amount key g) as [[-> _]|(_ & t & w & Hmay & ->)]; [done|].
    destruct Hmay as (_ & _ & _ & _ & _ & _ & Hw & _). apply dom_insert_lookup_L. by eexists.
  - destruct (cashOut_cases id u key g) as [[-> _]|(_ & t & w & s & Hmay & ->)]; [done|].
    destruct Hmay as (_ & _ & _ & _ & _ & Hw & _). apply dom_insert_lookup_L. by eexists.
  - rw /beginHand. by repeat case_match.
  - rw /appendAction. by repeat case_match.
  - rw /settleHand. by repeat case_match.
  - rw /abortTableAndRefund. destruct (tables g !! id) as [t|]; [|done]. destruct (st_aborted t); [done|].
    pose proof (refund_wallets (map_to_list (st_seats t)) (wallets g)) as Hd.
    destruct (refund_seats _ _) as [w []]; exact Hd.
Qed.

(** A wallet is seeded for a new user or not at all. *)
Lemma seed_wallets u b g :
  (dom (wallets (seedWallet u b g).2) = dom (wallets g) ∧ seeded (SeedWallet u b) g = 0) ∨
  (size (wallets (seedWallet u b g).2) = S (size (wallets g)) ∧ seeded (SeedWallet u b) g = b).
Proof.
  rw /seeded /seedWallet. destruct (_ || _); [by left|]. destruct (wallets g !! u) eqn:Hu; [by left|].
  right. split; [|done]. cbn. by rw map_size_insert_None.
Qed.

Lemma on_first_games {X} (f : InMemoryAccountStore → X * InMemoryAccountStore) w : (on_first f w).2.2 = w.2.
Proof. rw /on_first. by destruct (f w.1). Qed.

Lemma on_second_games {X} (f : InMemoryGameStore → X * InMemoryGameStore) w : (on_second f w).2.2 = (f w.2).2.
Proof. rw /on_second. by destruct (f w.2). Qed.

#[export] Program Instance memory_laws grant : StoreLaws MemoryStores grant := {
  st_inv w := games_inv w.2;
  st_chips w := store_chips w.2;
  st_wallets w := Z.of_nat (size (wallets w.2));
}.
Next Obligation.
  intros grant f w Hf Hw. cbn in Hw.
  assert (∀ c, is_seed c = false → games_inv (game_step c w.2) ∧ size (wallets (game_step c w.2)) = size (wallets w.2) ∧
    store_chips (game_step c w.2) = store_chips w.2) as Hcall.
  { intros c Hc. destruct (game_step_keeps c w.2 Hw) as (Hi & Hchips & _). split_and!; [done| |].
    - by rw -!size_dom call_wallets.
    - destruct c; cbn [is_seed seeded] in Hc, Hchips; [done|lia..]. }
  assert (∀ w' : MemoryStores, (games_inv w'.2 ∧ size (wallets w'.2) = size (wallets w.2) ∧ store_chips w'.2 = store_chips w.2) →
    games_inv w'.2 ∧ Z.of_nat (size (wallets w.2)) ≤ Z.of_nat (size (wallets w'.2)) ∧
    store_chips w'.2 = store_chips w.2 + grant * (Z.of_nat (size (wallets w'.2)) - Z.of_nat (size (wallets w.2)))) as Hkeep.
  { intros w' (? & -> & ->). split_and!; [done..|lia]. }
  destruct Hf as [[id|limit|node|t|id u seat amount key|id u key|hand|a|v|id]|[name hash|name|id|x|hash now|hash x now|hash|hash e r]];
    lazymatch goal with |- context [createUser] => idtac | _ => apply Hkeep; rw ?on_second_games ?on_first_games // end.
  - by apply (Hcall (CreateTable t)).
  - by apply (Hcall (ReserveBuyIn id u seat amount key)).
  - by apply (Hcall (CashOut id u key)).
  - by apply (Hcall (BeginHand hand)).
  - by apply (Hcall (AppendAction a)).
  - by apply (Hcall (SettleHand v)).
  - by apply (Hcall (AbortTable id)).
  - cbn. rw /memory_createUser. destruct (mem_createUser _ _ _ _) as [r s] eqn:Hc. destruct (sr_value r) as [u|] eqn:Hu.
    2: by apply Hkeep.
    destruct (game_step_keeps (SeedWallet (user_id u) grant) w.2 Hw) as (Hi & Hchips & _). cbn [game_step] in Hi, Hchips.
    pose proof (seed_wallets (user_id u) grant w.2) as Hs. destruct (seedWallet (user_id u) grant w.2) as [e g]. cbn in *.
    split; [done|]. rw Hchips. destruct Hs as [[Hd ->]|[-> ->]].
    + rw -!size_dom Hd. lia.
    + lia.
Qed.
Next Obligation.
  intros grant t [s g] Hfit. destruct (createTable_returns t g Hfit) as [e He]. cbn. rw /on_second. cbn.
  destruct (createTable t g) as [r g'] eqn:Hc. cbn in He. subst r. by eexists e, _.
Qed.
Next Obligation.
  intros grant id t [s g] Hg. cbn in Hg. rw /= /findTable. destruct (tables g !! id) as [t'|] eqn:Ht; [|done].
  destruct (st_aborted t'); [done|]. cbn. intros _ [= <-]. exact (ti_blinds _ _ _ (gi_tables g Hg id t' Ht)).
Qed.
