(* ===== verification/MySqlDatabase.v ===== *)
(** * The database

    The tables of [deploy/mysql/init/001_schema.sql] as finite maps over their
    primary keys, and the SQL statements of [mysql_game_store.cpp] as functions on
    them, with the constraints the schema declares: keys, foreign keys, checks and
    the ranges of columns. A statement that breaks a constraint changes nothing
    (strict mode of InnoDB) and reports whether a key was duplicate (error 1062).

    How the server compares texts and measures them depends on its character set
    and collation; this is the class [Collation]. Times of rows and versions of
    wallets and seats are not read by the program and left out. *)
From stdpp Require Import pretty.
From S2P Require Import Prelude.

(** The weights by which texts are compared, and whether a text fits a
    [VARCHAR(n)]. *)
Class Collation := {
  weight_string : string → string;
  fits_varchar : nat → string → bool;
}.

(** [a = b] in SQL. *)
Definition same_text `{!Collation} (a b : string) : bool := bool_decide (weight_string a = weight_string b).

(** ** Rows *)

Record UserRow := mkUserRow { us_username : string; us_password_hash : string; us_disabled : bool }.

Inductive TableStatus := Status_waiting_table | Status_playing | Status_closing | Status_closed | Status_aborted.

#[export] Instance TableStatus_eq_dec : EqDecision TableStatus.
Proof. solve_decision. Defined.

Record PokerTable := mkPokerTable {
  pt_name : string;
  pt_game_node_id : string;
  pt_status : TableStatus;
  pt_max_players : Z;
  pt_small_blind : Z;
  pt_big_blind : Z;
  pt_min_buy_in : Z;
  pt_max_buy_in : Z;
  pt_created_by : Z;
}.

Record TableSeat := mkTableSeat { ts_seat_no : Z; ts_stack : Z; ts_hand_start_stack : Z }.

Inductive HandStatus := Hand_playing | Hand_settled | Hand_aborted.

#[export] Instance HandStatus_eq_dec : EqDecision HandStatus.
Proof. solve_decision. Defined.

(** Cards are kept as the bytes of [encodeCards]. *)
Record HandRow := mkHandRow {
  hd_table_id : Z;
  hd_hand_number : Z;
  hd_status : HandStatus;
  hd_dealer_seat : Z;
  hd_board_cards : option (list Z);
  hd_total_pot : Z;
}.

Record HandPlayerRow := mkHandPlayerRow {
  hr_seat_no : Z;
  hr_start_stack : Z;
  hr_committed : Z;
  hr_winnings : Z;
  hr_end_stack : option Z;
  hr_hole_cards : option (list Z);
  hr_folded : bool;
}.

Record HandActionRow := mkHandActionRow {
  hc_request_id : Z;
  hc_user_id : Z;
  hc_street : string;
  hc_action_type : string;
  hc_target_amount : Z;
}.

Record LedgerRow := mkLedgerRow {
  wl_user_id : Z;
  wl_idempotency_key : string;
  wl_delta_amount : Z;
  wl_balance_after : Z;
  wl_reason : string;
  wl_reference_id : option string;
}.

Record SessionRow := mkSessionRow {
  ss_user_id : Z;
  ss_last_client_sequence : Z;
  ss_expires_at : Z;
  ss_revoked : bool;
}.

(** The ledger is in the order of its [AUTO_INCREMENT] ids; [db_next_user] is
    that counter of [users]. Sessions are kept under their [token_hash]. *)
Record Database := mkDatabase {
  db_users : gmap Z UserRow;
  db_next_user : Z;
  db_wallets : gmap Z Z;
  db_sessions : gmap string SessionRow;
  db_tables : gmap Z PokerTable;
  db_seats : gmap (Z * Z) TableSeat;
  db_hands : gmap Z HandRow;
  db_hand_players : gmap (Z * Z) HandPlayerRow;
  db_hand_actions : gmap (Z * Z) HandActionRow;
  db_ledger : list LedgerRow;
}.

Definition set_users m next db :=
  mkDatabase m next (db_wallets db) (db_sessions db) (db_tables db) (db_seats db) (db_hands db)
    (db_hand_players db) (db_hand_actions db) (db_ledger db).
Definition set_wallets m db :=
  mkDatabase (db_users db) (db_next_user db) m (db_sessions db) (db_tables db) (db_seats db) (db_hands db)
    (db_hand_players db) (db_hand_actions db) (db_ledger db).
Definition set_sessions m db :=
  mkDatabase (db_users db) (db_next_user db) (db_wallets db) m (db_tables db) (db_seats db) (db_hands db)
    (db_hand_players db) (db_hand_actions db) (db_ledger db).
Definition set_tables m db :=
  mkDatabase (db_users db) (db_next_user db) (db_wallets db) (db_sessions db) m (db_seats db) (db_hands db)
    (db_hand_players db) (db_hand_actions db) (db_ledger db).
Definition set_seats m db :=
  mkDatabase (db_users db) (db_next_user db) (db_wallets db) (db_sessions db) (db_tables db) m (db_hands db)
    (db_hand_players db) (db_hand_actions db) (db_ledger db).
Definition set_hands m db :=
  mkDatabase (db_users db) (db_next_user db) (db_wallets db) (db_sessions db) (db_tables db) (db_seats db) m
    (db_hand_players db) (db_hand_actions db) (db_ledger db).
Definition set_hand_players m db :=
  mkDatabase (db_users db) (db_next_user db) (db_wallets db) (db_sessions db) (db_tables db) (db_seats db)
    (db_hands db) m (db_hand_actions db) (db_ledger db).
Definition set_hand_actions m db :=
  mkDatabase (db_users db) (db_next_user db) (db_wallets db) (db_sessions db) (db_tables db) (db_seats db)
    (db_hands db) (db_hand_players db) m (db_ledger db).
Definition set_ledger l db :=
  mkDatabase (db_users db) (db_next_user db) (db_wallets db) (db_sessions db) (db_tables db) (db_seats db)
    (db_hands db) (db_hand_players db) (db_hand_actions db) l.

(** ** Running statements *)

Inductive Ran :=
  | Changed (rows : nat) (db : Database)
  | Refused (duplicate : bool).

(** A statement that inserts one row. The values are checked first (lengths, ranges
    and [CHECK]s), then the keys, then the rows that foreign keys name. *)
Definition insert_row (values duplicate references : bool) (db : Database) : Ran :=
  if values then if duplicate then Refused true else if references then Changed 1 db else Refused false
  else Refused false.

Lemma insert_row_Changed values duplicate references db n a :
  insert_row values duplicate references db = Changed n a →
  values = true ∧ duplicate = false ∧ references = true ∧ n = 1%nat ∧ a = db.
Proof. rw /insert_row. by destruct values, duplicate, references; intros [= <- <-]. Qed.

Lemma insert_row_duplicate values duplicate references db :
  insert_row values duplicate references db = Refused true → duplicate = true.
Proof. by rw /insert_row; destruct values, duplicate, references. Qed.

Definition bigint (x : Z) : bool := (i64_min <=? x) && (x <=? i64_max).
Definition tinyint_unsigned (x : Z) : bool := (0 <=? x) && (x <=? 255).
Definition has `{Countable K} {A} (k : K) (m : gmap K A) : bool := bool_decide (is_Some (m !! k)).

Section statements.
  Context `{!Collation}.
  Implicit Types (db : Database).

(** ** Tables *)

Definition is_open (t : PokerTable) : bool :=
  bool_decide (pt_status t = Status_waiting_table) || bool_decide (pt_status t = Status_playing).

Definition sql_find_table (id : Z) db : option (Z * PokerTable) :=
  t ← db_tables db !! id; if is_open t then Some (id, t) else None.

Definition by_id {A} (l r : Z * A) : Prop := l.1 ≤ r.1.

#[export] Instance by_id_dec {A} : RelDecision (@by_id A).
Proof. intros l r. rw /by_id. apply _. Defined.

Definition sql_open_tables (limit : Z) db : list (Z * PokerTable) :=
  take (Z.to_nat limit) (merge_sort by_id (filter (λ e, is_open e.2 = true) (map_to_list (db_tables db)))).

Definition sql_count_tables (node : string) db : Z :=
  Z.of_nat (length (filter (λ e, is_open e.2 && same_text (pt_game_node_id e.2) node = true)
    (map_to_list (db_tables db)))).

Definition table_checks (t : PokerTable) : bool :=
  (2 <=? pt_max_players t) && (pt_max_players t <=? 6)
  && (0 <? pt_small_blind t) && bigint (pt_small_blind t * 2) && (pt_small_blind t * 2 <=? pt_big_blind t)
  && (0 <? pt_min_buy_in t) && (pt_min_buy_in t <=? pt_max_buy_in t).

Definition sql_insert_table (id : Z) (t : PokerTable) db : Ran :=
  insert_row (fits_varchar 64 (pt_name t) && fits_varchar 64 (pt_game_node_id t) && table_checks t)
    (has id (db_tables db)) (has (pt_created_by t) (db_users db))
    (set_tables (<[id := t]> (db_tables db)) db).

(** [SELECT max_players,min_buy_in,max_buy_in ... WHERE id=? AND status='waiting'] *)
Definition sql_table_rules (id : Z) db : option (Z * Z * Z) :=
  t ← db_tables db !! id;
  if bool_decide (pt_status t = Status_waiting_table)
  then Some (pt_max_players t, pt_min_buy_in t, pt_max_buy_in t) else None.

(** [SELECT status='...' FROM poker_tables WHERE id=?] *)
Definition sql_status_is (status : TableStatus) (id : Z) db : option Z :=
  t ← db_tables db !! id; Some (if bool_decide (pt_status t = status) then 1 else 0).

Definition table_with_status status (t : PokerTable) : PokerTable :=
  mkPokerTable (pt_name t) (pt_game_node_id t) status (pt_max_players t) (pt_small_blind t)
    (pt_big_blind t) (pt_min_buy_in t) (pt_max_buy_in t) (pt_created_by t).

(** [UPDATE poker_tables SET status=... WHERE id=? AND ...]; a row that has the
    status already does not count as affected. *)
Definition sql_set_status (status : TableStatus) (condition : PokerTable → bool) (id : Z) db : Ran :=
  match db_tables db !! id with
  | Some t =>
      if condition t then
        Changed (if bool_decide (pt_status t = status) then 0%nat else 1%nat)
          (set_tables (<[id := table_with_status status t]> (db_tables db)) db)
      else Changed 0 db
  | None => Changed 0 db
  end.

(** [status='closed'] and [status='aborted'] are the other two. *)
Definition is_closable (t : PokerTable) : bool :=
  is_open t || bool_decide (pt_status t = Status_closing).

(** ** Seats and wallets *)

Definition sql_seat_no (table user : Z) db : option Z := ts_seat_no <$> db_seats db !! (table, user).
Definition sql_stack (table user : Z) db : option Z := ts_stack <$> db_seats db !! (table, user).
Definition sql_balance (user : Z) db : option Z := db_wallets db !! user.

Definition seat_taken (table seat : Z) db : bool :=
  existsb (λ '((t, _), s), (t =? table) && (ts_seat_no s =? seat)) (map_to_list (db_seats db)).

Definition sql_insert_seat (table user : Z) (s : TableSeat) db : Ran :=
  insert_row (tinyint_unsigned (ts_seat_no s) && (0 <=? ts_stack s) && (0 <=? ts_hand_start_stack s))
    (has (table, user) (db_seats db) || seat_taken table (ts_seat_no s) db)
    (has table (db_tables db) && has user (db_users db))
    (set_seats (<[(table, user) := s]> (db_seats db)) db).

(** The checks of a new balance. *)
Definition balance_ok (balance : Z) : bool := bigint balance && (0 <=? balance).

Definition set_balance (user balance : Z) db : Ran :=
  if balance_ok balance then Changed 1 (set_wallets (<[user := balance]> (db_wallets db)) db) else Refused false.

Definition sql_debit (amount user : Z) db : Ran :=
  match db_wallets db !! user with
  | Some balance => if amount <=? balance then set_balance user (balance - amount) db else Changed 0 db
  | None => Changed 0 db
  end.

Definition sql_credit (amount user : Z) db : Ran :=
  match db_wallets db !! user with
  | Some balance => set_balance user (balance + amount) db
  | None => Changed 0 db
  end.

Definition sql_delete_seat (table user : Z) db : Ran :=
  Changed (if has (table, user) (db_seats db) then 1%nat else 0%nat)
    (set_seats (delete (table, user) (db_seats db)) db).

(** ** The ledger *)

Definition has_key (user : Z) (key : string) (r : LedgerRow) : bool :=
  (wl_user_id r =? user) && same_text (wl_idempotency_key r) key.

Definition sql_ledger (user : Z) (key : string) db : option LedgerRow := List.find (has_key user key) (db_ledger db).

Definition ledger_checks (r : LedgerRow) : bool :=
  fits_varchar 96 (wl_idempotency_key r) && (0 <=? wl_balance_after r)
  && bigint (wl_balance_after r) && bigint (wl_delta_amount r)
  && from_option (fits_varchar 96) true (wl_reference_id r).

Definition sql_insert_ledger (r : LedgerRow) db : Ran :=
  insert_row (ledger_checks r) (existsb (has_key (wl_user_id r) (wl_idempotency_key r)) (db_ledger db))
    (has (wl_user_id r) (db_users db)) (set_ledger (db_ledger db ++ [r]) db).

(** ** Hands *)

Definition number_taken (table number : Z) db : bool :=
  existsb (λ '(_, h), (hd_table_id h =? table) && (hd_hand_number h =? number)) (map_to_list (db_hands db)).

Definition sql_insert_hand (id : Z) (h : HandRow) db : Ran :=
  insert_row (tinyint_unsigned (hd_dealer_seat h))
    (has id (db_hands db) || number_taken (hd_table_id h) (hd_hand_number h) db)
    (has (hd_table_id h) (db_tables db))
    (set_hands (<[id := h]> (db_hands db)) db).

Definition varbinary (n : nat) (bytes : option (list Z)) : bool :=
  from_option (λ l, (length l <=? n)%nat) true bytes.

Definition sql_insert_hand_player (hand user : Z) (p : HandPlayerRow) db : Ran :=
  insert_row (tinyint_unsigned (hr_seat_no p) && varbinary 4 (hr_hole_cards p))
    (has (hand, user) (db_hand_players db)) (has hand (db_hands db) && has user (db_users db))
    (set_hand_players (<[(hand, user) := p]> (db_hand_players db)) db).

(** [UPDATE table_seats SET hand_start_stack=? ... WHERE table_id=? AND user_id=? AND stack=?];
    the version changes, so a row that is found is affected. *)
Definition sql_mark_start (start table user expected : Z) db : Ran :=
  match db_seats db !! (table, user) with
  | Some s =>
      if ts_stack s =? expected then
        if 0 <=? start
        then Changed 1 (set_seats (<[(table, user) := mkTableSeat (ts_seat_no s) (ts_stack s) start]> (db_seats db)) db)
        else Refused false
      else Changed 0 db
  | None => Changed 0 db
  end.

Definition action_matches (hand user request : Z) (sequence : option Z) (e : Z * Z * HandActionRow) : bool :=
  (e.1.1 =? hand)
  && (from_option (Z.eqb e.1.2) false sequence || ((hc_user_id e.2 =? user) && (hc_request_id e.2 =? request))).

(** [INSERT INTO hand_actions(...) SELECT ?,... FROM hands WHERE id=? AND status='playing'] *)
Definition sql_insert_action (hand sequence : Z) (a : HandActionRow) db : Ran :=
  match db_hands db !! hand with
  | Some h =>
      if bool_decide (hd_status h = Hand_playing) then
        insert_row true
          (has (hand, sequence) (db_hand_actions db)
           || existsb (action_matches hand (hc_user_id a) (hc_request_id a) None) (map_to_list (db_hand_actions db)))
          (has (hc_user_id a) (db_users db))
          (set_hand_actions (<[(hand, sequence) := a]> (db_hand_actions db)) db)
      else Changed 0 db
  | None => Changed 0 db
  end.

(** The query of [isExactActionDuplicate]; which of two rows [LIMIT 1] keeps is
    left to the order of [map_to_list]. *)
Definition sql_find_action (hand sequence user request : Z) db : option (Z * HandActionRow) :=
  e ← List.find (action_matches hand user request (Some sequence)) (map_to_list (db_hand_actions db));
  Some (e.1.2, e.2).

Definition sql_settle_hand (board : list Z) (total_pot hand table : Z) db : Ran :=
  match db_hands db !! hand with
  | Some h =>
      if (hd_table_id h =? table) && bool_decide (hd_status h = Hand_playing) then
        if varbinary 10 (Some board) then
          Changed 1 (set_hands (<[hand := mkHandRow (hd_table_id h) (hd_hand_number h) Hand_settled
            (hd_dealer_seat h) (Some board) total_pot]> (db_hands db)) db)
        else Refused false
      else Changed 0 db
  | None => Changed 0 db
  end.

(** [UPDATE hand_players SET committed=?, ... WHERE hand_id=? AND user_id=? AND start_stack=?] *)
Definition sql_settle_player (hand user start : Z) (p : HandPlayerRow) db : Ran :=
  match db_hand_players db !! (hand, user) with
  | Some old =>
      if hr_start_stack old =? start then
        if varbinary 4 (hr_hole_cards p) then
          let new := mkHandPlayerRow (hr_seat_no old) (hr_start_stack old) (hr_committed p) (hr_winnings p)
                       (hr_end_stack p) (hr_hole_cards p) (hr_folded p) in
          Changed (if bool_decide (hr_committed old = hr_committed p ∧ hr_winnings old = hr_winnings p ∧
                     hr_end_stack old = hr_end_stack p ∧ hr_hole_cards old = hr_hole_cards p ∧
                     hr_folded old = hr_folded p) then 0%nat else 1%nat)
            (set_hand_players (<[(hand, user) := new]> (db_hand_players db)) db)
        else Refused false
      else Changed 0 db
  | None => Changed 0 db
  end.

(** [UPDATE table_seats SET stack=?,hand_start_stack=?,... WHERE ... AND hand_start_stack=?] *)
Definition sql_settle_seat (stack table user expected : Z) db : Ran :=
  match db_seats db !! (table, user) with
  | Some s =>
      if ts_hand_start_stack s =? expected then
        if 0 <=? stack
        then Changed 1 (set_seats (<[(table, user) := mkTableSeat (ts_seat_no s) stack stack]> (db_seats db)) db)
        else Refused false
      else Changed 0 db
  | None => Changed 0 db
  end.

(** ** Refunds *)

Definition seats_of (table : Z) db : list (Z * TableSeat) :=
  omap (λ '((t, u), s), if t =? table then Some (u, s) else None) (map_to_list (db_seats db)).

(** [UPDATE wallets w JOIN table_seats s ... SET w.balance=w.balance+s.stack ...] *)
Definition refund_wallet (table : Z) db (user balance : Z) : Z :=
  from_option (λ s, balance + ts_stack s) balance (db_seats db !! (table, user)).

Definition sql_refund_wallets (table : Z) db : Ran :=
  let w := map_imap (λ u b, Some (refund_wallet table db u b)) (db_wallets db) in
  if forallb (λ e, balance_ok e.2) (map_to_list w)
  then Changed (length (filter (λ e, has e.1 (db_wallets db) = true) (seats_of table db))) (set_wallets w db)
  else Refused false.

Definition crash_key (table user : Z) : string :=
  "crash:" +:+ pretty (Z.to_N table) +:+ ":" +:+ pretty (Z.to_N user).

(** The rows of [INSERT INTO wallet_ledger(...) SELECT ... FROM table_seats s JOIN wallets w ...] *)
Definition refund_rows (table : Z) db : list LedgerRow :=
  omap (λ '(u, s),
    balance ← db_wallets db !! u;
    Some (mkLedgerRow u (crash_key table u) (ts_stack s) balance "crash_refund" (Some (pretty (Z.to_N table)))))
    (seats_of table db).

Fixpoint insert_ledger_rows (rows : list LedgerRow) db : Ran :=
  match rows with
  | [] => Changed 0 db
  | r :: rows =>
      match sql_insert_ledger r db with
      | Changed _ db => match insert_ledger_rows rows db with
                        | Changed n db => Changed (S n) db
                        | Refused d => Refused d
                        end
      | Refused d => Refused d
      end
  end.

Definition sql_refund_ledger (table : Z) db : Ran := insert_ledger_rows (refund_rows table db) db.

Definition sql_delete_seats (table : Z) db : Ran :=
  Changed (length (seats_of table db)) (set_seats (filter (λ e, e.1.1 ≠ table) (db_seats db)) db).

Definition abort_hand (table : Z) (h : HandRow) : HandRow :=
  if (hd_table_id h =? table) && bool_decide (hd_status h = Hand_playing)
  then mkHandRow (hd_table_id h) (hd_hand_number h) Hand_aborted (hd_dealer_seat h) (hd_board_cards h) (hd_total_pot h)
  else h.

Definition sql_abort_hands (table : Z) db : Ran :=
  Changed (length (filter (λ e, (hd_table_id e.2 =? table) && bool_decide (hd_status e.2 = Hand_playing) = true)
    (map_to_list (db_hands db))))
    (set_hands (abort_hand table <$> db_hands db) db).
End statements.
