(* ===== verification/MySqlClient.v ===== *)
(** * The MySQL client library

    What the stores use of the library: prepared statements, results, transactions.
    Every call may fail, and between two calls other clients may change the
    database, as long as this connection has no open transaction: transactions
    that read and write the same rows wait for each other, since every read inside
    a transaction of the stores locks what it reads. A call that fails may have
    been carried out all the same (its answer was lost). A failed [mysql_rollback]
    means that the connection is lost, and then the server rolls back. *)
From S2P Require Import Prelude MySqlDatabase.

(** What happens at a call of the library. *)
Record Weather := mkWeather {
  wt_error : option string;
  (** A statement or a commit that fails is carried out all the same. *)
  wt_carried_out : bool;
  (** What other clients do before the call. *)
  wt_meanwhile : Database → Database;
}.

Record Link := mkLink {
  ln_db : Database;
  (** The database at the start of the open transaction. *)
  ln_saved : option Database;
  ln_weather : nat → Weather;
  ln_calls : nat;
  (** For the statements: the changes this client has committed, oldest first. *)
  ln_commits : list (Database * Database);
}.

(** ** Computations over a connection *)

Definition Db (A : Type) : Type := Link → A * Link.

#[export] Instance Db_ret : MRet Db := λ A a l, (a, l).
#[export] Instance Db_bind : MBind Db := λ A B f m l, let '(a, l') := m l in f a l'.

Notation "m ;;; k" := (mbind (M:=Db) (λ _, k) m) (at level 100, right associativity) : poker_scope.
Open Scope poker_scope.

(** Arriving at a call. *)
Definition arrive : Db Weather := λ l,
  let w := ln_weather l (ln_calls l) in
  (w, mkLink (match ln_saved l with None => wt_meanwhile w (ln_db l) | Some _ => ln_db l end)
        (ln_saved l) (ln_weather l) (S (ln_calls l)) (ln_commits l)).

(** A call that only succeeds or fails. *)
Definition call : Db (option string) := w ← arrive; mret (wt_error w).

Definition succeeds : Db bool := error ← call; mret (bool_decide (error = None)).

Definition committed (before after : Database) (l : Link) : Link :=
  mkLink after None (ln_weather l) (ln_calls l) (ln_commits l ++ [(before, after)]).

(** Keeping what the open transaction has done. *)
Definition keep_transaction : Db unit := λ l,
  (tt, match ln_saved l with Some before => committed before (ln_db l) l | None => l end).

(** A change of the database: outside of transactions it is kept at once. *)
Definition change (db : Database) : Db unit := λ l,
  (tt, match ln_saved l with
       | Some _ => mkLink db (ln_saved l) (ln_weather l) (ln_calls l) (ln_commits l)
       | None => committed (ln_db l) db l
       end).

Definition database : Db Database := λ l, (ln_db l, l).

(** ** Transactions *)

Definition open_transaction : Db unit := λ l,
  (tt, mkLink (ln_db l) (Some (ln_db l)) (ln_weather l) (ln_calls l) (ln_commits l)).

(** [mysql_autocommit(connection, false)] *)
Definition autocommit_off : Db bool :=
  ok ← succeeds;
  if (ok : bool) then open_transaction ;;; mret true else mret false.

(** [mysql_autocommit(connection, true)] commits what is open. *)
Definition autocommit_on : Db unit :=
  ok ← succeeds;
  if (ok : bool) then keep_transaction else mret tt.

Definition mysql_commit : Db bool :=
  w ← arrive;
  match wt_error w with
  | None => keep_transaction ;;; mret true
  | Some _ => (if wt_carried_out w then keep_transaction else mret tt : Db unit) ;;; mret false
  end.

Definition discard_transaction : Db unit := λ l,
  (tt, match ln_saved l with
       | Some before => mkLink before None (ln_weather l) (ln_calls l) (ln_commits l)
       | None => l
       end).

Definition mysql_rollback : Db unit := call ;;; discard_transaction.

(** A lease of the pool; [giveBack] rolls back and turns autocommit on. *)
Definition acquire : Db bool := succeeds.
Definition give_back : Db unit := mysql_rollback ;;; autocommit_on.

(** ** Statements *)

Definition prepare : Db bool := succeeds.

(** The outcome of [mysql_stmt_execute], the rows it affected and its error. *)
Record Executed := mkExecuted { ex_ok : bool; ex_rows : nat; ex_duplicate : bool; ex_error : string }.

(** The text of [mysql_stmt_error] for a broken constraint. *)
Definition constraint_error (duplicate : bool) : string :=
  if duplicate then "Duplicate entry" else "Constraint violated".

(** [mysql_stmt_bind_param] and [mysql_stmt_execute] of a statement that writes. *)
Definition execute (statement : Database → Ran) : Db Executed :=
  w ← arrive;
  db ← database;
  match wt_error w, statement db with
  | None, Changed rows db' => change db' ;;; mret (mkExecuted true rows false "")
  | None, Refused duplicate => mret (mkExecuted false 0 duplicate (constraint_error duplicate))
  | Some error, Changed _ db' =>
      (if wt_carried_out w then change db' else mret tt : Db unit) ;;; mret (mkExecuted false 0 false error)
  | Some error, Refused _ => mret (mkExecuted false 0 false error)
  end.

Fixpoint prepare_all (n : nat) : Db bool :=
  match n with
  | O => mret true
  | S n => ok ← prepare; all_ok ← prepare_all n; mret (ok && all_ok)
  end.

Fixpoint execute_all (statements : list (Database → Ran)) (last : Executed) : Db Executed :=
  match statements with
  | [] => mret last
  | statement :: statements =>
      e ← execute statement;
      if ex_ok e then execute_all statements e else mret e
  end.

(** Statements are prepared, and if that succeeds executed up to the first one
    that fails; the answer is of the last one executed. *)
Definition run_all (statements : list (Database → Ran)) : Db (option Executed) :=
  ok ← prepare_all (length statements);
  if (ok : bool) then e ← execute_all statements (mkExecuted true 0 false ""); mret (Some e)
  else mret None.

(** [mysql_stmt_bind_param], [mysql_stmt_execute] and [mysql_stmt_store_result] of
    a query. *)
Definition select {A} (query : Database → A) : Db (string + A) :=
  error ← call;
  match error with
  | Some text => mret (inl text)
  | None => db ← database; mret (inr (query db))
  end.

Definition was_ok (e : option Executed) : bool := from_option ex_ok false e.
Definition was_duplicate (e : option Executed) : bool := from_option ex_duplicate false e.
(** It succeeded and affected one row. *)
Definition changed_one (e : option Executed) : bool :=
  from_option (λ e, ex_ok e && (ex_rows e =? 1)%nat) false e.

(** [mysql_stmt_bind_result] and [mysql_stmt_fetch] of one row; [truncated] is
    whether the buffers are too small for it. *)
Definition fetch_row {A} (truncated : A → bool) (row : option A) : Db (string + option A) :=
  error ← call;
  match error with
  | Some text => mret (inl text)
  | None =>
      error ← call;
      match error, row with
      | Some text, _ => mret (inl text)
      | None, Some a => mret (if truncated a then inl ""%string else inr (Some a))
      | None, None => mret (inr None)
      end
  end.

(** ** Leases *)

(** The scope of [auto lease = pool_.acquire()]. *)
Definition with_lease {A} (unavailable : A) (body : Db A) : Db A :=
  ok ← acquire;
  if (ok : bool) then r ← body; give_back ;;; mret r else mret unavailable.
