(* ===== verification/MySqlGameStore.v ===== *)
(** * The game store on MySQL

    Model of [mysql_game_store.hpp/.cpp]: every method as a computation over a
    connection. The text of [mysql_stmt_error] is that of the failed call. *)
From stdpp Require Import pretty.
From S2P Require Import Prelude Card Table AccountStore GameStore MySqlDatabase MySqlClient.

Section store.
  Context `{!Collation}.

(** ** Queries with one result *)

(** The row, if it was fetched. *)
Definition fetched_row {A} (fetched : string + option A) : option A :=
  match fetched with inr row => row | inl _ => None end.

Definition querySigned (query : Database → option Z) : Db (option Z) :=
  ok ← prepare;
  if (ok : bool) then
    rows ← select query;
    match rows with
    | inl _ => mret None
    | inr row => fetched ← fetch_row (λ _, false) row; mret (fetched_row fetched)
    end
  else mret None.

Record LedgerReplay := mkReplay {
  rp_reason : string;
  rp_reference_id : string;
  rp_delta : Z;
  rp_balance_after : Z;
}.

(** The columns, with [COALESCE(reference_id,'')]. *)
Definition replay_of (r : LedgerRow) : LedgerReplay :=
  mkReplay (wl_reason r) (default ""%string (wl_reference_id r)) (wl_delta_amount r) (wl_balance_after r).

(** The buffers hold 32 and 97 bytes. *)
Definition replay_truncated (r : LedgerReplay) : bool :=
  (32 <? String.length (rp_reason r))%nat || (97 <? String.length (rp_reference_id r))%nat.

Definition queryLedger (user_id : Z) (idempotency_key : string) : Db (option LedgerReplay) :=
  ok ← prepare;
  if (ok : bool) then
    rows ← select (λ db, replay_of <$> sql_ledger user_id idempotency_key db);
    match rows with
    | inl _ => mret None
    | inr row => fetched ← fetch_row replay_truncated row; mret (fetched_row fetched)
    end
  else mret None.

(** [std::to_string] of an id. *)
Definition reference (table_id : Z) : string := pretty (Z.to_N table_id).

Definition replayBuyIn (replay : option LedgerReplay) (table_id expected_amount : Z)
    : StorageResult BuyInReceipt :=
  match replay with
  | None => sr_fail Storage_not_found ""
  | Some r =>
      if negb (bool_decide (rp_reason r = "table_buy_in"%string))
         || negb (bool_decide (rp_reference_id r = reference table_id)) || (0 <=? rp_delta r)
         || negb (- rp_delta r =? expected_amount)
      then sr_fail Storage_conflict "idempotency key was reused"
      else sr_ok (mkBuyInReceipt (rp_balance_after r) (- rp_delta r))
  end.

Definition replayCashOut (replay : option LedgerReplay) (table_id : Z) : StorageResult CashOutReceipt :=
  match replay with
  | None => sr_fail Storage_not_found ""
  | Some r =>
      if negb (bool_decide (rp_reason r = "table_cash_out"%string))
         || negb (bool_decide (rp_reference_id r = reference table_id)) || (rp_delta r <? 0)
      then sr_fail Storage_conflict "idempotency key was reused"
      else sr_ok (mkCashOutReceipt (rp_balance_after r) (rp_delta r))
  end.

(** ** Transactions *)

Definition begin : Db bool := autocommit_off.
Definition commit : Db bool := ok ← mysql_commit; autocommit_on ;;; mret ok.
Definition rollback : Db unit := mysql_rollback ;;; autocommit_on.

(** [rollback(connection); return answer;] *)
Definition abandon {A} (answer : A) : Db A := rollback ;;; mret answer.

(** ** Encodings *)

Definition encodeCards (cards : list Card) : list Z := (λ card, u8 (cardIndex card)) <$> cards.

Definition streetName (street : Street) : string :=
  match street with
  | Street_flop => "flop"
  | Street_turn => "turn"
  | Street_river => "river"
  | _ => "preflop"
  end.

Definition actionName (action : ActionType) : string :=
  match action with
  | Action_fold => "fold"
  | Action_check => "check"
  | Action_call => "call"
  | Action_bet => "bet"
  | Action_raise => "raise"
  | Action_all_in => "all_in"
  end.

(** The rows for an action. *)
Definition action_row (a : HandActionRecord) : HandActionRow :=
  mkHandActionRow (ha_request_id a) (ha_user_id a) (streetName (ha_street a)) (actionName (ha_action a))
    (ha_target_amount a).

Definition isExactActionDuplicate (a : HandActionRecord) : Db bool :=
  ok ← prepare;
  if (ok : bool) then
    rows ← select (sql_find_action (ha_hand_id a) (ha_sequence a) (ha_user_id a) (ha_request_id a));
    match rows with
    | inl _ => mret false
    | inr row =>
        fetched ← fetch_row (λ _, false) row;
        mret match fetched with
             | inr (Some (sequence, stored)) =>
                 (sequence =? ha_sequence a) && (hc_request_id stored =? ha_request_id a)
                 && (hc_user_id stored =? ha_user_id a) && (hc_target_amount stored =? ha_target_amount a)
                 && bool_decide (hc_street stored = streetName (ha_street a))
                 && bool_decide (hc_action_type stored = actionName (ha_action a))
             | _ => false
             end
    end
  else mret false.

(** [TableRow::record] *)
Definition record (row : Z * PokerTable) : TableRecord :=
  let t := row.2 in
  mkTableRecord row.1 (pt_name t) (pt_game_node_id t)
    (mkConfig 2 (Z.to_nat (pt_max_players t)) (pt_small_blind t) (pt_big_blind t) (pt_min_buy_in t)
      (pt_max_buy_in t)) (pt_created_by t).

(** The buffers of a [TableRow] hold 65 bytes each. *)
Definition row_truncated (row : Z * PokerTable) : bool :=
  (65 <? String.length (pt_name row.2))%nat || (65 <? String.length (pt_game_node_id row.2))%nat.

(** ** Reading tables *)

Definition findTable (table_id : Z) : Db (StorageResult TableRecord) :=
  with_lease (sr_fail Storage_unavailable "mysql is unavailable") (
    ok ← prepare;
    if (ok : bool) then
      rows ← select (sql_find_table table_id);
      match rows with
      | inl text => mret (sr_fail Storage_unavailable text)
      | inr row =>
          fetched ← fetch_row row_truncated row;
          mret match fetched with
               | inl text => sr_fail Storage_unavailable text
               | inr None => sr_fail Storage_not_found "table not found"
               | inr (Some row) => sr_ok (record row)
               end
      end
    else mret (sr_fail Storage_unavailable "table query could not be prepared")).

(** The fetching loop. *)
Fixpoint fetch_records (rows : list (Z * PokerTable)) : Db (StorageResult (list TableRecord)) :=
  error ← call;
  match error, rows with
  | Some text, _ => mret (sr_fail Storage_unavailable text)
  | None, [] => mret (sr_ok [])
  | None, row :: rows =>
      if row_truncated row then mret (sr_fail Storage_unavailable "")
      else
        rest ← fetch_records rows;
        mret match sr_value rest with
             | Some l => sr_ok (record row :: l)
             | None => rest
             end
  end.

Definition listOpenTables (limit : nat) : Db (StorageResult (list TableRecord)) :=
  if (limit =? 0)%nat then mret (sr_fail Storage_invalid_data "limit must be positive")
  else
    with_lease (sr_fail Storage_unavailable "mysql is unavailable") (
      ok ← prepare;
      if (ok : bool) then
        rows ← select (sql_open_tables (Z.min (Z.of_nat limit) 10000));
        match rows with
        | inl text => mret (sr_fail Storage_unavailable text)
        | inr rows =>
            error ← call;
            match error with
            | Some text => mret (sr_fail Storage_unavailable text)
            | None => fetch_records rows
            end
        end
      else mret (sr_fail Storage_unavailable "table list could not be prepared")).

Definition countOpenTables (node : string) : Db (StorageResult nat) :=
  if bool_decide (node = ""%string) then mret (sr_fail Storage_invalid_data "node id is required")
  else
    with_lease (sr_fail Storage_unavailable "mysql is unavailable") (
      ok ← prepare;
      if (ok : bool) then
        rows ← select (sql_count_tables node);
        match rows with
        | inl text => mret (sr_fail Storage_unavailable text)
        | inr count =>
            fetched ← fetch_row (λ _, false) (Some count);
            mret match fetched with
                 | inr (Some count) => sr_ok (Z.to_nat count)
                 | inr None => sr_fail Storage_unavailable ""
                 | inl text => sr_fail Storage_unavailable text
                 end
        end
      else mret (sr_fail Storage_unavailable "table count could not be prepared")).

(** The row for a new table. *)
Definition table_row (t : TableRecord) : PokerTable :=
  let c := table_config t in
  mkPokerTable (table_name t) (node_id t) Status_waiting_table (Z.of_nat (max_players c)) (small_blind c)
    (big_blind c) (min_buy_in c) (max_buy_in c) (created_by t).

Definition createTable (t : TableRecord) : Db StorageError :=
  with_lease Storage_unavailable (
    e ← run_all [sql_insert_table (table_id t) (table_row t)];
    mret (if was_ok e then Storage_ok
          else if was_duplicate e then Storage_duplicate else Storage_unavailable)).

(** ** Money *)

(** The answer to a repeated key: the receipt counts while the player has the seat. *)
Definition answer_replay (table_id user_id seat : Z) (existing : StorageResult BuyInReceipt)
    : Db (StorageResult BuyInReceipt) :=
  if bool_decide (sr_error existing = Storage_ok) then
    persisted_seat ← querySigned (sql_seat_no table_id user_id);
    mret (if bool_decide (persisted_seat = Some seat) then existing
          else sr_fail Storage_conflict "idempotent buy-in does not match the active seat")
  else mret existing.

(** The transaction: from [begin] to [commit]. *)
Definition buy_in_transaction (table_id user_id seat amount : Z) (idempotency_key : string)
    : Db (StorageResult BuyInReceipt) :=
  ok ← prepare;
  rules ← (if (ok : bool) then select (sql_table_rules table_id) else mret (inl ""%string)
            : Db (string + option (Z * Z * Z)));
  match rules with
  | inl _ => abandon (sr_fail Storage_unavailable "table rules could not be read")
  | inr rules =>
      fetched ← fetch_row (λ _, false) rules;
      match fetched with
      | inl _ => abandon (sr_fail Storage_unavailable "table rules could not be decoded")
      | inr None => abandon (sr_fail Storage_conflict "table is missing or a hand is in progress")
      | inr (Some (max_players, min_buy_in, max_buy_in)) =>
          if (max_players <=? seat) || (amount <? min_buy_in) || (max_buy_in <? amount)
          then abandon (sr_fail Storage_invalid_data "seat or buy-in is outside table rules")
          else
            balance ← querySigned (sql_balance user_id);
            match balance with
            | None => abandon (sr_fail Storage_not_found "wallet not found")
            | Some balance =>
                if balance <? amount
                then abandon (sr_fail Storage_insufficient_funds "insufficient wallet balance")
                else
                  inserted ← run_all [sql_insert_seat table_id user_id (mkTableSeat seat amount amount)];
                  if negb (was_ok inserted) then
                    rollback ;;;
                    replay ← queryLedger user_id idempotency_key;
                    let replay := replayBuyIn replay table_id amount in
                    mret (if bool_decide (sr_error replay = Storage_not_found)
                          then sr_fail (if was_duplicate inserted then Storage_conflict else Storage_unavailable)
                                 "seat could not be reserved"
                          else replay)
                  else
                    debited ← run_all [sql_debit amount user_id];
                    if negb (changed_one debited)
                    then abandon (sr_fail Storage_conflict "wallet changed concurrently")
                    else
                      let after := balance - amount in
                      written ← run_all [sql_insert_ledger (mkLedgerRow user_id idempotency_key (- amount)
                                           after "table_buy_in" (Some (reference table_id)))];
                      kept ← (if was_ok written then commit else mret false : Db bool);
                      if (kept : bool) then mret (sr_ok (mkBuyInReceipt after amount))
                      else abandon (sr_fail Storage_unavailable "buy-in ledger commit failed")
            end
      end
  end.

Definition reserveBuyIn (table_id user_id seat amount : Z) (idempotency_key : string)
    : Db (StorageResult BuyInReceipt) :=
  if (table_id =? 0) || (user_id =? 0) || (amount <=? 0) || bool_decide (idempotency_key = ""%string)
     || (96 <? String.length idempotency_key)%nat
  then mret (sr_fail Storage_invalid_data "invalid buy-in")
  else
    with_lease (sr_fail Storage_unavailable "mysql is unavailable") (
      replay ← queryLedger user_id idempotency_key;
      let existing := replayBuyIn replay table_id amount in
      if negb (bool_decide (sr_error existing = Storage_not_found))
      then answer_replay table_id user_id seat existing
      else
        ok ← begin;
        if (ok : bool) then buy_in_transaction table_id user_id seat amount idempotency_key
        else mret (sr_fail Storage_unavailable "mysql is unavailable")).

Definition cash_out_transaction (table_id user_id : Z) (idempotency_key : string)
    : Db (StorageResult CashOutReceipt) :=
  table_waiting ← querySigned (sql_status_is Status_waiting_table table_id);
  match table_waiting with
  | None => abandon (sr_fail Storage_not_found "table not found")
  | Some waiting =>
      if waiting =? 0
      then abandon (sr_fail Storage_conflict "cash-out is not allowed during a hand")
      else
        stack ← querySigned (sql_stack table_id user_id);
        balance ← querySigned (sql_balance user_id);
        match stack, balance with
        | Some stack, Some balance =>
            updated ← run_all [sql_credit stack user_id; sql_delete_seat table_id user_id];
            if negb (was_ok updated)
            then abandon (sr_fail Storage_unavailable "cash-out update failed")
            else
              let after := balance + stack in
              written ← run_all [sql_insert_ledger (mkLedgerRow user_id idempotency_key stack after
                                   "table_cash_out" (Some (reference table_id)))];
              kept ← (if was_ok written then commit else mret false : Db bool);
              if (kept : bool) then mret (sr_ok (mkCashOutReceipt after stack))
              else abandon (sr_fail Storage_unavailable "cash-out ledger commit failed")
        | _, _ =>
            rollback ;;;
            replay ← queryLedger user_id idempotency_key;
            let replay := replayCashOut replay table_id in
            mret (if bool_decide (sr_error replay = Storage_not_found)
                  then sr_fail Storage_not_found "seat or wallet not found" else replay)
        end
  end.

Definition cashOut (table_id user_id : Z) (idempotency_key : string) : Db (StorageResult CashOutReceipt) :=
  if (table_id =? 0) || (user_id =? 0) || bool_decide (idempotency_key = ""%string)
     || (96 <? String.length idempotency_key)%nat
  then mret (sr_fail Storage_invalid_data "invalid cash-out")
  else
    with_lease (sr_fail Storage_unavailable "mysql is unavailable") (
      replay ← queryLedger user_id idempotency_key;
      let existing := replayCashOut replay table_id in
      if negb (bool_decide (sr_error existing = Storage_not_found)) then mret existing
      else
        ok ← begin;
        if (ok : bool) then cash_out_transaction table_id user_id idempotency_key
        else mret (sr_fail Storage_unavailable "mysql is unavailable")).

(** ** Hands *)

(** A transaction under a lease. *)
Definition with_transaction (body : Db StorageError) : Db StorageError :=
  with_lease Storage_unavailable (
    ok ← begin;
    if (ok : bool) then body else mret Storage_unavailable).

(** The loop over the players: the error it returns with, if it does. *)
Fixpoint start_players (hand : HandStartRecord) (players : list HandStartPlayer) : Db (option StorageError) :=
  match players with
  | [] => mret None
  | p :: players =>
      if (hs_user_id p =? 0) || negb (length (hs_hole_cards p) =? 2)%nat || (hs_start_stack p <? 0)
      then mret (Some Storage_invalid_data)
      else
        e ← run_all
          [sql_insert_hand_player (hsr_hand_id hand) (hs_user_id p)
             (mkHandPlayerRow (hs_seat p) (hs_start_stack p) 0 0 None (Some (encodeCards (hs_hole_cards p))) false);
           sql_mark_start (hs_start_stack p) (hsr_table_id hand) (hs_user_id p) (hs_start_stack p)];
        if changed_one e then start_players hand players else mret (Some Storage_conflict)
  end.

Definition begin_hand_transaction (hand : HandStartRecord) : Db StorageError :=
  table_waiting ← querySigned (sql_status_is Status_waiting_table (hsr_table_id hand));
  match table_waiting with
  | None => abandon Storage_not_found
  | Some waiting =>
      if waiting =? 0 then abandon Storage_conflict
      else
        inserted ← run_all [sql_insert_hand (hsr_hand_id hand)
          (mkHandRow (hsr_table_id hand) (hsr_hand_number hand) Hand_playing (hsr_dealer_seat hand) None 0)];
        if negb (was_ok inserted)
        then abandon (if was_duplicate inserted then Storage_duplicate else Storage_unavailable)
        else
          failed ← start_players hand (hsr_players hand);
          match failed with
          | Some error => abandon error
          | None =>
              playing ← run_all [sql_set_status Status_playing
                (λ t, bool_decide (pt_status t = Status_waiting_table)) (hsr_table_id hand)];
              kept ← (if changed_one playing then commit else mret false : Db bool);
              if (kept : bool) then mret Storage_ok else abandon Storage_conflict
          end
  end.

Definition beginHand (hand : HandStartRecord) : Db StorageError :=
  if (hsr_hand_id hand =? 0) || (hsr_table_id hand =? 0) || (hsr_hand_number hand =? 0)
     || (length (hsr_players hand) <? 2)%nat
  then mret Storage_invalid_data
  else with_transaction (begin_hand_transaction hand).

Definition appendAction (a : HandActionRecord) : Db StorageError :=
  with_lease Storage_unavailable (
    e ← run_all [sql_insert_action (ha_hand_id a) (ha_sequence a) (action_row a)];
    if changed_one e then mret Storage_ok
    else if was_duplicate e then
      exact ← isExactActionDuplicate a;
      mret (if (exact : bool) then Storage_duplicate else Storage_conflict)
    else mret (if was_ok e then Storage_conflict else Storage_unavailable)).

(** The loop over the players of a settlement: whether it went through. *)
Fixpoint settle_players (value : HandSettlementRecord) (players : list HandPlayerSettlement) : Db bool :=
  match players with
  | [] => mret true
  | p :: players =>
      updated ← run_all [sql_settle_player (hst_hand_id value) (hp_user_id p) (hp_start_stack p)
        (mkHandPlayerRow (hp_seat p) (hp_start_stack p) (hp_committed p) (hp_winnings p)
           (Some (hp_end_stack p)) (Some (encodeCards (hp_hole_cards p))) (hp_folded p))];
      if negb (changed_one updated) then mret false
      else
        paid ← run_all [sql_settle_seat (hp_end_stack p) (hst_table_id value) (hp_user_id p) (hp_start_stack p)];
        if negb (changed_one paid) then mret false else settle_players value players
  end.

Definition settle_transaction (value : HandSettlementRecord) : Db StorageError :=
  table_playing ← querySigned (sql_status_is Status_playing (hst_table_id value));
  match table_playing with
  | None => abandon Storage_not_found
  | Some playing =>
      if playing =? 0 then abandon Storage_conflict
      else
        settled ← run_all [sql_settle_hand (encodeCards (hst_board value)) (hst_total_pot value)
                             (hst_hand_id value) (hst_table_id value)];
        if negb (was_ok settled) then abandon Storage_unavailable
        else if negb (changed_one settled) then abandon Storage_conflict
        else
          paid ← settle_players value (hst_players value);
          if negb (paid : bool) then abandon Storage_conflict
          else
            reopened ← run_all [sql_set_status Status_waiting_table (λ _, true) (hst_table_id value)];
            kept ← (if was_ok reopened then commit else mret false : Db bool);
            if (kept : bool) then mret Storage_ok else abandon Storage_unavailable
  end.

Definition settleHand (value : HandSettlementRecord) : Db StorageError :=
  if negb (validHandSettlement value) then mret Storage_invalid_data
  else with_transaction (settle_transaction value).

(** ** Refunds *)

Definition refund_statements (table_id : Z) : list (Database → Ran) :=
  [sql_refund_wallets table_id; sql_refund_ledger table_id; sql_delete_seats table_id;
   sql_abort_hands table_id; sql_set_status Status_aborted is_closable table_id].

Definition refund_transaction (table_id : Z) : Db StorageError :=
  already_aborted ← querySigned (sql_status_is Status_aborted table_id);
  match already_aborted with
  | None => abandon Storage_not_found
  | Some aborted =>
      if negb (aborted =? 0) then abandon Storage_ok
      else
        closed ← run_all (refund_statements table_id);
        kept ← (if changed_one closed then commit else mret false : Db bool);
        if (kept : bool) then mret Storage_ok else abandon Storage_unavailable
  end.

Definition abortTableAndRefund (table_id : Z) : Db StorageError :=
  with_transaction (refund_transaction table_id).
End store.
