(* ===== verification/MySqlCalls.v ===== *)
(** * Rules for calls of the MySQL stores

    A call of a store is before its transaction, within it, or after it. [R] is
    what other clients may do to the database between the calls of the library.
    The rules take a computation over a connection through the phases; at its end
    it has changed nothing, or exactly one change was committed. *)
From S2P Require Import Prelude MySqlDatabase MySqlClient.

(** The result and the connection after a computation satisfy [Q]. *)
Definition ens {A} (m : Db A) (Q : A → Link → Prop) (l : Link) : Prop := Q (m l).1 (m l).2.

#[global] Arguments ens : simpl never.
#[global] Arguments run_all : simpl never.
#[global] Arguments select : simpl never.
#[global] Arguments fetch_row : simpl never.
#[global] Arguments with_lease : simpl never.

Lemma ens_ret {A} (a : A) Q l : Q a l → ens (mret a) Q l.
Proof. done. Qed.

Lemma ens_bind {A B} (m : Db A) (f : A → Db B) Q l :
  ens m (λ a l', ens (f a) Q l') l → ens (m ≫= f) Q l.
Proof. rw /ens /mbind /Db_bind. by destruct (m l). Qed.

Lemma ens_mono {A} (m : Db A) (Q Q' : A → Link → Prop) l :
  ens m Q l → (∀ a l', Q a l' → Q' a l') → ens m Q' l.
Proof. rw /ens. auto. Qed.

Lemma ens_result {A} (m : Db A) Q l a l' : ens m Q l → m l = (a, l') → Q a l'.
Proof. rw /ens. intros H Heq. by rw Heq in H. Qed.

(** What statements one after the other do, and the rows the last one affected. *)
Fixpoint apply_all (statements : list (Database → Ran)) (rows : nat) (db : Database) : option (nat * Database) :=
  match statements with
  | [] => Some (rows, db)
  | statement :: statements =>
      match statement db with
      | Changed rows db => apply_all statements rows db
      | Refused _ => None
      end
  end.

(** The last database known before the transaction; the database at the start of
    the transaction and the one it has made; the change that was committed. *)
Inductive Phase :=
  | Before (known : Database)
  | Within (start now : Database)
  | After (start committed : Database).

Section rules.
  Context (R : Database → Database → Prop) `{!PreOrder R} (l0 : Link).

(** Other clients keep to [R]. *)
Definition others_keep : Prop := ∀ n db, R db (wt_meanwhile (ln_weather l0 n) db).
Context (Hothers : others_keep).

Definition in_phase (p : Phase) (l : Link) : Prop :=
  ln_weather l = ln_weather l0 ∧
  match p with
  | Before d => ln_saved l = None ∧ ln_commits l = ln_commits l0 ∧ R (ln_db l0) d ∧ R d (ln_db l)
  | Within b d => ln_saved l = Some b ∧ ln_commits l = ln_commits l0 ∧ R (ln_db l0) b ∧ ln_db l = d
  | After b a =>
      ln_saved l = None ∧ ln_commits l = ln_commits l0 ++ [(b, a)] ∧ R (ln_db l0) b ∧ R a (ln_db l)
  end.

(** ** The library *)

Lemma phase_arrive p l : in_phase p l → in_phase p (arrive l).2.
Proof.
  intros [Hw Hp]. split; [done|]. destruct p; destruct Hp as (Hs & Hc & H1 & H2); cbn; rw Hs.
  - split_and!; [done..|]. etrans; [exact H2|]. rw Hw. apply Hothers.
  - done.
  - split_and!; [done..|]. etrans; [exact H2|]. rw Hw. apply Hothers.
Qed.

Lemma phase_call p l (Q : option string → Link → Prop) :
  in_phase p l → (∀ e l', in_phase p l' → Q e l') → ens call Q l.
Proof. intros Hp HQ. apply ens_bind, ens_ret, HQ. by apply phase_arrive. Qed.

Lemma phase_succeeds p l (Q : bool → Link → Prop) :
  in_phase p l → (∀ ok l', in_phase p l' → Q ok l') → ens succeeds Q l.
Proof. intros Hp HQ. apply ens_bind, (phase_call p); [done|]. intros e l' Hl. by apply ens_ret, HQ. Qed.

Lemma phase_prepare_all p n l (Q : bool → Link → Prop) :
  in_phase p l → (∀ ok l', in_phase p l' → Q ok l') → ens (prepare_all n) Q l.
Proof.
  revert l Q. induction n as [|n IH]; intros l Q Hp HQ; [by apply ens_ret, HQ|].
  apply ens_bind, (phase_succeeds p); [done|]. intros ok l' Hl.
  apply ens_bind, IH; [done|]. intros ok' l'' Hl'. by apply ens_ret, HQ.
Qed.

(** A query sees the transaction's database, or some database that others have
    come to. *)
Lemma select_within {A} (query : Database → A) b d l (Q : string + A → Link → Prop) :
  in_phase (Within b d) l → (∀ text l', in_phase (Within b d) l' → Q (inl text) l') →
  (∀ l', in_phase (Within b d) l' → Q (inr (query d)) l') → ens (select query) Q l.
Proof.
  intros Hp Hfail Hok. apply ens_bind, (phase_call (Within b d)); [done|]. intros [text|] l' Hl.
  - by apply ens_ret, Hfail.
  - specialize (Hok l' Hl). apply ens_bind, ens_ret. destruct Hl as (_ & _ & _ & _ & Hd). cbn. by rw Hd.
Qed.

Lemma select_before {A} (query : Database → A) d l (Q : string + A → Link → Prop) :
  in_phase (Before d) l → (∀ text l', in_phase (Before d) l' → Q (inl text) l') →
  (∀ d' l', in_phase (Before d') l' → Q (inr (query d')) l') → ens (select query) Q l.
Proof.
  intros Hp Hfail Hok. apply ens_bind, (phase_call (Before d)); [done|]. intros [text|] l' Hl.
  - by apply ens_ret, Hfail.
  - apply ens_bind, ens_ret. apply (Hok (ln_db l')). destruct Hl as (Hw & Hs & Hc & H1 & H2).
    split_and!; [done..|by etrans|done].
Qed.

(** A query of which only the answer matters. *)
Lemma phase_select {A} (query : Database → A) p l (Q : string + A → Link → Prop) :
  in_phase p l → (∀ r l', in_phase p l' → Q r l') → ens (select query) Q l.
Proof.
  intros Hp HQ. apply ens_bind, (phase_call p); [done|]. intros [text|] l' Hl; [by apply ens_ret, HQ|].
  by apply ens_bind, ens_ret, HQ.
Qed.

Lemma phase_fetch_row {A} (truncated : A → bool) row p l (Q : string + option A → Link → Prop) :
  in_phase p l → (∀ text l', in_phase p l' → Q (inl text) l') →
  (∀ l', in_phase p l' → Q (inr row) l') → ens (fetch_row truncated row) Q l.
Proof.
  intros Hp Hfail Hok. apply ens_bind, (phase_call p); [done|]. intros [text|] l1 H1; [by apply ens_ret, Hfail|].
  apply ens_bind, (phase_call p); [done|]. intros [text|] l2 H2; [by apply ens_ret, Hfail|].
  destruct row as [a|]; [|by apply ens_ret, Hok]. destruct (truncated a); [by apply ens_ret, Hfail|by apply ens_ret, Hok].
Qed.

(** ** Transactions *)

Lemma phase_begin d l (Q : bool → Link → Prop) :
  in_phase (Before d) l → (∀ l', in_phase (Before d) l' → Q false l') →
  (∀ b l', R d b → in_phase (Within b b) l' → Q true l') → ens autocommit_off Q l.
Proof.
  intros Hp Hfail Hok. apply ens_bind, (phase_succeeds (Before d)); [done|]. intros [] l' Hl.
  - destruct Hl as (Hw & Hs & Hc & H1 & H2). apply ens_bind, ens_ret. apply (Hok (ln_db l')); [done|].
    split_and!; [done|done|done|by etrans|done].
  - by apply ens_ret, Hfail.
Qed.

(** A transaction that is kept. *)
Lemma phase_keep b d l : in_phase (Within b d) l → in_phase (After b d) (keep_transaction l).2.
Proof.
  intros (Hw & Hs & Hc & Hb & Hd). rw /keep_transaction Hs /in_phase /=.
  split_and!; [done|done|by rw Hc Hd|done|by rw Hd].
Qed.

Lemma keep_closed p l : in_phase p l → ln_saved l = None → in_phase p (keep_transaction l).2.
Proof. intros Hp Hs. by rw /keep_transaction Hs. Qed.

Lemma phase_autocommit_on b d l (Q : unit → Link → Prop) :
  in_phase (Within b d) l → (∀ l', in_phase (Within b d) l' ∨ in_phase (After b d) l' → Q tt l') →
  ens autocommit_on Q l.
Proof.
  intros Hp HQ. apply ens_bind, (phase_succeeds (Within b d)); [done|]. intros [] l' Hl.
  - apply HQ. right. by apply phase_keep.
  - apply ens_ret, HQ. by left.
Qed.

Lemma closed_autocommit_on p l (Q : unit → Link → Prop) :
  in_phase p l → (∀ l', in_phase p l' → ln_saved l' = None) →
  (∀ l', in_phase p l' → Q tt l') → ens autocommit_on Q l.
Proof.
  intros Hp Hs HQ. apply ens_bind, (phase_succeeds p); [done|]. intros [] l' Hl; [|by apply ens_ret, HQ].
  apply HQ, keep_closed; [done|by apply Hs].
Qed.

Lemma before_closed d l : in_phase (Before d) l → ln_saved l = None.
Proof. by intros (_ & ? & _). Qed.

Lemma after_closed b a l : in_phase (After b a) l → ln_saved l = None.
Proof. by intros (_ & ? & _). Qed.

Lemma rollback_within b d l (Q : unit → Link → Prop) :
  in_phase (Within b d) l → (∀ l', in_phase (Before b) l' → Q tt l') →
  ens (mysql_rollback ;;; autocommit_on) Q l.
Proof.
  intros Hp HQ. apply ens_bind, ens_bind, (phase_call (Within b d)); [done|]. intros _ l' Hl.
  apply (closed_autocommit_on (Before b)); [|apply before_closed|done].
  destruct Hl as (Hw & Hs & Hc & Hb & Hd). rw /discard_transaction Hs /in_phase /=. by split_and!.
Qed.

Lemma rollback_closed p l (Q : unit → Link → Prop) :
  in_phase p l → (∀ l', in_phase p l' → ln_saved l' = None) → (∀ l', in_phase p l' → Q tt l') →
  ens (mysql_rollback ;;; autocommit_on) Q l.
Proof.
  intros Hp Hs HQ. apply ens_bind, ens_bind, (phase_call p); [done|]. intros _ l' Hl.
  apply (closed_autocommit_on p); [|done..]. rw /discard_transaction. by rw (Hs l' Hl).
Qed.

Lemma phase_mysql_commit b d l (Q : bool → Link → Prop) :
  in_phase (Within b d) l → (∀ l', in_phase (After b d) l' → Q true l') →
  (∀ l', in_phase (Within b d) l' ∨ in_phase (After b d) l' → Q false l') → ens mysql_commit Q l.
Proof.
  intros Hp Hok Hfail. apply ens_bind. rw /ens. destruct (arrive l) as [w l'] eqn:Ha. cbn.
  assert (in_phase (Within b d) l') as Hl by (pose proof (phase_arrive _ _ Hp) as H; by rw Ha in H).
  destruct (wt_error w) as [text|].
  - destruct (wt_carried_out w); cbn; apply Hfail; [right; by apply phase_keep|by left].
  - by apply Hok, phase_keep.
Qed.

(** ** Statements *)

Lemma execute_within s b d l (Q : Executed → Link → Prop) :
  in_phase (Within b d) l →
  (∀ e d' l', ex_ok e = false → in_phase (Within b d') l' → Q e l') →
  (∀ n d' l', s d = Changed n d' → in_phase (Within b d') l' → Q (mkExecuted true n false "") l') →
  ens (execute s) Q l.
Proof.
  intros Hp Hfail Hok. apply ens_bind. rw /ens. destruct (arrive l) as [w l'] eqn:Ha. cbn.
  assert (in_phase (Within b d) l') as Hl by (pose proof (phase_arrive _ _ Hp) as H; by rw Ha in H).
  destruct Hl as (Hw & Hs & Hc & Hb & Hd). apply ens_bind. rw {1}/ens /= Hd.
  assert (∀ d', in_phase (Within b d') (change d' l').2) as Hchange.
  { intros d'. rw /change Hs /in_phase /=. by split_and!. }
  destruct (wt_error w) as [text|], (s d) as [n d'|duplicate] eqn:Hsd; cbn.
  - destruct (wt_carried_out w); rw /ens /=; [by apply (Hfail _ d')|by apply (Hfail _ d)].
  - by apply (Hfail _ d).
  - by apply (Hok _ d').
  - by apply (Hfail _ d).
Qed.

Lemma execute_all_within ss b d last l (Q : Executed → Link → Prop) :
  ex_ok last = true → ex_duplicate last = false → ex_error last = ""%string →
  in_phase (Within b d) l →
  (∀ e d' l', ex_ok e = false → in_phase (Within b d') l' → Q e l') →
  (∀ n d' l', apply_all ss (ex_rows last) d = Some (n, d') → in_phase (Within b d') l' →
     Q (mkExecuted true n false "") l') →
  ens (execute_all ss last) Q l.
Proof.
  revert d last l. induction ss as [|s ss IH]; intros d [ok rows dup err] l; cbn; intros -> -> -> Hp Hfail Hok.
  { by apply ens_ret, (Hok rows d). }
  apply ens_bind, (execute_within s b d); [done| |].
  - intros e d' l' He Hl. rw He. apply ens_ret. by eapply Hfail.
  - intros n d' l' Hs Hl. cbn. apply (IH d'); try done. intros m d'' l'' Hm. rw Hs in Hok. by apply Hok.
Qed.

Lemma run_within ss b d l (Q : option Executed → Link → Prop) :
  in_phase (Within b d) l →
  (∀ e d' l', was_ok e = false → changed_one e = false → in_phase (Within b d') l' → Q e l') →
  (∀ n d' l', apply_all ss 0 d = Some (n, d') → in_phase (Within b d') l' →
     Q (Some (mkExecuted true n false "")) l') →
  ens (run_all ss) Q l.
Proof.
  intros Hp Hfail Hok. apply ens_bind, (phase_prepare_all (Within b d)); [done|]. intros [] l' Hl.
  - apply ens_bind, (execute_all_within ss b d); [done..| |].
    + intros e d' l'' He Hl'. apply ens_ret. eapply Hfail; [done| |done]. cbn. by rw He.
    + intros n d' l'' Hn Hl'. by apply ens_ret, (Hok n d').
  - apply ens_ret. by eapply Hfail.
Qed.

(** A statement outside of transactions. *)
Lemma run_before s d l (Q : option Executed → Link → Prop) :
  in_phase (Before d) l →
  (∀ e d' l', was_ok e = false → changed_one e = false → (was_duplicate e = true → s d' = Refused true) →
     in_phase (Before d') l' → Q e l') →
  (∀ e n b a l', was_ok e = false → changed_one e = false → was_duplicate e = false → s b = Changed n a →
     in_phase (After b a) l' → Q e l') →
  (∀ n b a l', s b = Changed n a → in_phase (After b a) l' → Q (Some (mkExecuted true n false "")) l') →
  ens (run_all [s]) Q l.
Proof.
  intros Hp Hfail Hlost Hok. apply ens_bind, (phase_prepare_all (Before d)); [done|]. intros [] l1 H1.
  2: { apply ens_ret. by eapply Hfail. }
  apply ens_bind, ens_bind. rw {1}/execute. apply ens_bind. rw {1}/ens. destruct (arrive l1) as [w l2] eqn:Ha. cbn.
  assert (in_phase (Before d) l2) as H2 by (pose proof (phase_arrive _ _ H1) as H; by rw Ha in H).
  destruct H2 as (Hw & Hs & Hc & Hd & Hd').
  assert (in_phase (Before (ln_db l2)) l2) as Hnow by (split_and!; [done..|by etrans|done]).
  assert (∀ a, in_phase (After (ln_db l2) a) (change a l2).2) as Hchange.
  { intros a. rw /change Hs /in_phase /=. split_and!; [done|done|by rw Hc|by etrans|done]. }
  cbn. apply ens_bind. rw {1}/ens /=.
  destruct (wt_error w) as [text|], (s (ln_db l2)) as [n a|duplicate] eqn:Hsd; cbn.
  - destruct (wt_carried_out w); cbn.
    + eapply Hlost; [..|exact Hsd|apply Hchange]; done.
    + by eapply Hfail.
  - by eapply Hfail.
  - by eapply Hok.
  - eapply Hfail; [done|done| |exact Hnow]. cbn. by intros ->.
Qed.

(** ** Whole calls *)

(** The call changed nothing and answered [r], or it committed one change [P] and
    answered [r]. *)
Definition outcome {A} (P : Database → Database → Prop) (Quiet : Database → A → Prop)
    (Done : Database → Database → A → Prop) (r : A) (l : Link) : Prop :=
  (∃ d, in_phase (Before d) l ∧ Quiet d r) ∨ (∃ b a, in_phase (After b a) l ∧ P b a ∧ Done b a r).

Lemma quiet {A} P Quiet Done (r : A) d l : in_phase (Before d) l → Quiet d r → outcome P Quiet Done r l.
Proof. left. by exists d. Qed.

Lemma kept {A} (P : Database → Database → Prop) Quiet (Done : Database → Database → A → Prop) r b a l :
  in_phase (After b a) l → P b a → Done b a r → outcome P Quiet Done r l.
Proof. right. by exists b, a. Qed.

Lemma ens_with_lease {A} P Quiet (Done : Database → Database → A → Prop) unavailable body d l :
  in_phase (Before d) l → Quiet d unavailable →
  (∀ l', in_phase (Before d) l' → ens body (outcome P Quiet Done) l') →
  ens (with_lease unavailable body) (outcome P Quiet Done) l.
Proof.
  intros Hp Hu Hbody. apply ens_bind, (phase_succeeds (Before d)); [done|]. intros [] l1 H1.
  2: { apply ens_ret. by eapply quiet. }
  apply ens_bind. eapply ens_mono; [by apply Hbody|]. intros r l2 [(d' & H2 & HQ)|(b & a & H2 & HP & HD)].
  - apply ens_bind, (rollback_closed (Before d')); [done|apply before_closed|]. intros l3 H3.
    apply ens_ret. by eapply quiet.
  - apply ens_bind, (rollback_closed (After b a)); [done|apply after_closed|]. intros l3 H3.
    apply ens_ret. by eapply kept.
Qed.

Lemma start_phase : ln_saved l0 = None → in_phase (Before (ln_db l0)) l0.
Proof. intros Hs. by split_and!. Qed.
End rules.
