(* ===== verification/MySqlInv.v ===== *)
(** * Commits keep the database's invariant

    Money moves between wallets and seats only, every move is in the ledger, and
    the marks on tables agree with their hands. *)
From stdpp Require Import pretty.
From S2P Require Import Prelude Card Table AccountStore GameStore GameStoreLib GameStoreInv MySqlDatabase MySqlClient MySqlGameStore MySqlCommits.

Section inv.
  Context `{!Collation}.
  Implicit Types (b a db : Database) (w : gmap Z Z) (s : gmap (Z * Z) TableSeat) (l : list LedgerRow).

(** ** Money *)

Lemma moved_app u l1 l2 : moved u (l1 ++ l2) = moved u l1 + moved u l2.
Proof. apply sumZ_app. Qed.

Lemma granted_app l1 l2 : granted (l1 ++ l2) = granted l1 + granted l2.
Proof. apply sumZ_app. Qed.

Lemma unused_has_key u k l r : existsb (has_key u k) l = false → r ∈ l → has_key u k r = false.
Proof.
  intros Hu Hr. destruct (has_key u k r) eqn:Hk; [|done]. exfalso.
  assert (existsb (has_key u k) l = true) as Hex; [|congruence].
  apply existsb_exists. exists r. split; [by apply list_elem_of_In|done].
Qed.

(** A row with a new key. *)
Lemma keys_snoc l r :
  (∀ i j x y, l !! i = Some x → l !! j = Some y → (i < j)%nat → has_key (wl_user_id y) (wl_idempotency_key y) x = false) →
  existsb (has_key (wl_user_id r) (wl_idempotency_key r)) l = false →
  ∀ i j x y, (l ++ [r]) !! i = Some x → (l ++ [r]) !! j = Some y → (i < j)%nat →
    has_key (wl_user_id y) (wl_idempotency_key y) x = false.
Proof.
  intros Hl Hr i j x y Hi Hj Hij.
  assert (i < length l)%nat as Hlen.
  { apply lookup_lt_Some in Hj. rw length_app /= in Hj. lia. }
  rw lookup_app_l // in Hi.
  apply lookup_app_Some in Hj as [Hj|[_ Hj]]; [by eapply Hl|].
  apply list_lookup_singleton_Some in Hj as [_ <-].
  by apply (unused_has_key _ _ l); [|eapply list_elem_of_lookup_2].
Qed.

(** Chips move from a wallet to seats, or back, and a row says so. *)
Lemma money_move u balance r w s s' l :
  money_ok w s l → w !! u = Some balance → wl_user_id r = u → wl_reason r ≠ "initial_grant"%string →
  0 ≤ balance + wl_delta_amount r ≤ i64_max →
  existsb (has_key (wl_user_id r) (wl_idempotency_key r)) l = false →
  (∀ t v x, s' !! (t, v) = Some x → 0 ≤ ts_stack x ∧ ts_hand_start_stack x = ts_stack x ∧ is_Some (w !! v)) →
  sumM ts_stack s' = sumM ts_stack s - wl_delta_amount r →
  money_ok (<[u := balance + wl_delta_amount r]> w) s' (l ++ [r]).
Proof.
  intros [Hw Hl Hk Hs Hc] Hu Hru Hreason Hrange Hunused Hs' Hsum.
  assert (∀ v, is_Some (w !! v) → is_Some (<[u := balance + wl_delta_amount r]> w !! v)) as Hsome.
  { intros v. apply is_Some_insert_mono. }
  split.
  - intros v x. rw moved_app /moved /= Hru. rw lookup_insert_Some. intros [[<- <-]|[Hne Hx]].
    + rw Z.eqb_refl. split; [done|]. destruct (Hw u balance Hu) as [_ ->]. rw /moved. lia.
    + destruct (Hw v x Hx) as [? ->]. rw (proj2 (Z.eqb_neq u v)) //. split; [done|]. rw /moved. lia.
  - intros x. rw elem_of_app list_elem_of_singleton. intros [Hx| ->]; [by apply Hsome, Hl|].
    rw Hru. apply Hsome. by eexists.
  - by apply keys_snoc.
  - intros t v x Hx. destruct (Hs' t v x Hx) as (? & ? & ?). split_and!; [done..|by apply Hsome].
  - rw granted_app /granted /= bool_decide_eq_false_2 // /chips (sumM_insert_old _ _ u balance) // Hsum.
    rw /chips in Hc. rw /granted in Hc. lia.
Qed.

(** ** The refund of a table *)

Definition paid_back (L : list (Z * TableSeat)) (u balance : Z) : Z :=
  balance + from_option ts_stack 0 ((list_to_map L : gmap Z TableSeat) !! u).

Lemma money_refund (t : Z) (L : list (Z * TableSeat)) rows w s l :
  NoDup L.*1 → (∀ u x, (u, x) ∈ L → s !! (t, u) = Some x) →
  Forall2 (λ e r, wl_user_id r = e.1 ∧ wl_delta_amount r = ts_stack e.2 ∧ wl_reason r = "crash_refund"%string) L rows →
  (∀ i r, rows !! i = Some r → existsb (has_key (wl_user_id r) (wl_idempotency_key r)) (l ++ take i rows) = false) →
  (∀ u balance, w !! u = Some balance → 0 ≤ paid_back L u balance ≤ i64_max) →
  money_ok w s l →
  money_ok (map_imap (λ u balance, Some (paid_back L u balance)) w)
    (filter (λ e, ¬ (e.1.1 = t ∧ e.1.2 ∈ L.*1)) s) (l ++ rows).
Proof.
  intros Hnd Hs Hrows. revert w s l Hnd Hs. induction Hrows as [|[u x] r L rows (Hu & Hd & Hr) Hrows IH];
    intros w s l Hnd Hs Hkeys Hrange Hok.
  { rw app_nil_r. cbn in *.
    assert (map_imap (λ u balance, Some (paid_back [] u balance)) w = w) as ->.
    { apply map_eq. intros v. rw map_lookup_imap. destruct (w !! v); cbn; [|done]. f_equal. rw /paid_back /= lookup_empty /=. lia. }
    rw map_filter_id //. intros [t' u'] x' _ [_ Hin]. by apply not_elem_of_nil in Hin. }
  cbn in Hnd, Hu, Hd. apply NoDup_cons in Hnd as [Hnotin Hnd].
  pose proof Hok as [Hw _ _ Hseats _]. pose proof (Hs u x (list_elem_of_here _ _)) as Hx.
  destruct (Hseats t u x Hx) as (Hx0 & _ & [balance Hb]).
  assert (list_to_map L !! u = (None : option TableSeat)) as HLu by by apply not_elem_of_list_to_map_1.
  assert (∀ v z, paid_back ((u, x) :: L) v z = if decide (v = u) then z + ts_stack x else paid_back L v z) as Hpaid.
  { intros v z. rw /paid_back /= lookup_insert. case_decide as H1; case_decide as H2; first [done|congruence]. }
  assert (money_ok (<[u := balance + wl_delta_amount r]> w) (delete (t, u) s) (l ++ [r])) as Hok'.
  { apply (money_move u balance r w s); try done.
    - by rw Hr.
    - rw Hd. specialize (Hrange u balance Hb). rw Hpaid decide_True // in Hrange.
    - specialize (Hkeys 0%nat r eq_refl). by rw app_nil_r in Hkeys.
    - intros t' v y. rw lookup_delete_Some. intros [_ Hy]. by apply Hseats in Hy.
    - rw Hd (sumM_delete ts_stack s (t, u) x) //. lia. }
  rw Hd in Hok'. specialize (λ H1 H2 H3, IH _ _ _ Hnd H1 H2 H3 Hok') as IH'. rw -app_assoc /= in IH'.
  assert (map_imap (λ v z, Some (paid_back L v z)) (<[u := balance + ts_stack x]> w) =
          map_imap (λ v z, Some (paid_back ((u, x) :: L) v z)) w) as Hw'.
  { apply map_eq. intros v. rw !map_lookup_imap lookup_insert. case_decide as Huv.
    - rw -Huv Hb /= Hpaid decide_True // /paid_back HLu /=. f_equal. lia.
    - destruct (w !! v) as [z|]; [|done]. cbn. rw Hpaid decide_False //. }
  assert (filter (λ e, ¬ (e.1.1 = t ∧ e.1.2 ∈ L.*1)) (delete (t, u) s) =
          filter (λ e, ¬ (e.1.1 = t ∧ e.1.2 ∈ ((u, x) :: L).*1)) s) as Hs'.
  { apply map_eq. intros [t' v]. apply option_eq. intros y. rw !map_lookup_filter_Some lookup_delete_Some /=.
    rw elem_of_cons. split.
    - intros [[Hne ?] Hn]. split; [done|]. intros [-> [->|?]]; naive_solver.
    - intros [? Hn]. split; [split; [|done]|naive_solver]. intros [= <- <-]. naive_solver. }
  rw -Hw' -Hs'. apply IH'.
  - intros v y Hy. rw lookup_delete_ne; [|apply Hs; by right]. intros [= <-].
    apply Hnotin, list_elem_of_fmap. by exists (u, y).
  - intros i r' Hi. rw -app_assoc. exact (Hkeys (S i) r' Hi).
  - intros v z. rw lookup_insert_Some. intros [[<- <-]|[Hne Hz]].
    + specialize (Hrange u balance Hb). rw Hpaid decide_True // in Hrange. by rw /paid_back HLu /= Z.add_0_r.
    + specialize (Hrange v z Hz). rw Hpaid decide_False // in Hrange.
Qed.

(** Other commits change no wallet and no row; stacks change by a settlement. *)
Lemma money_seats w s s' l :
  money_ok w s l →
  (∀ t v x, s' !! (t, v) = Some x → 0 ≤ ts_stack x ∧ ts_hand_start_stack x = ts_stack x ∧ is_Some (s !! (t, v))) →
  sumM ts_stack s' = sumM ts_stack s → money_ok w s' l.
Proof.
  intros [Hw Hl Hk Hs Hc] Hs' Hsum. split; [done..| |].
  - intros t v x Hx. destruct (Hs' t v x Hx) as (? & ? & [y Hy]). split_and!; [done..|]. by destruct (Hs t v y Hy) as (_ & _ & ?).
  - rw -Hc /chips. lia.
Qed.

(** ** Seats *)

Lemma seat_taken_None t n db u x :
  seat_taken t n db = false → db_seats db !! (t, u) = Some x → ts_seat_no x ≠ n.
Proof.
  rw /seat_taken. intros Hfree Hx Hn.
  assert (existsb (λ '((t', _), x), (t' =? t) && (ts_seat_no x =? n)) (map_to_list (db_seats db)) = true) as Hex; [|congruence].
  apply existsb_exists. exists ((t, u), x). split; [by apply list_elem_of_In, elem_of_map_to_list|].
  by rw Z.eqb_refl Hn Z.eqb_refl.
Qed.

Lemma seating_insert t u x s tables :
  seating_ok s tables → s !! (t, u) = None → (∃ pt, tables !! t = Some pt ∧ is_open pt = true) →
  (∀ v y, s !! (t, v) = Some y → ts_seat_no y ≠ ts_seat_no x) → seating_ok (<[(t, u) := x]> s) tables.
Proof.
  intros [Ho Hp] Hnone Hopen Hfree. split.
  - intros t' v y. rw lookup_insert_Some. intros [[[= <- <-] _]|[_ Hy]]; [done|by eapply Ho].
  - intros t' v v' y y'. rw !lookup_insert_Some. intros [[Hv <-]|[Hne Hy]] [[Hv' <-]|[Hne' Hy']] Heq; simplify_eq.
    + done.
    + by destruct (Hfree _ _ Hy').
    + by destruct (Hfree _ _ Hy).
    + by eapply Hp.
Qed.

(** Seats that keep their places. *)
Lemma seating_sub s s' tables :
  seating_ok s tables →
  (∀ k x', s' !! k = Some x' → ∃ x, s !! k = Some x ∧ ts_seat_no x' = ts_seat_no x) → seating_ok s' tables.
Proof.
  intros [Ho Hp] Hs'. split.
  - intros t v x' (x & Hx & _)%Hs'. by eapply Ho.
  - intros t v v' x x' (y & Hy & ->)%Hs' (y' & Hy' & ->)%Hs'. by eapply Hp.
Qed.

Lemma seating_tables t pt s tables :
  seating_ok s tables → (is_open pt = true ∨ ∀ u, s !! (t, u) = None) → seating_ok s (<[t := pt]> tables).
Proof.
  intros [Ho Hp] Hpt. split; [|done]. intros t' u x Hx. rw lookup_insert.
  case_decide as Ht; [|by eapply Ho]. subst t'. destruct Hpt as [?|Hnone]; [by exists pt|]. by rw Hnone in Hx.
Qed.

(** ** Tables and hands *)

Lemma hands_new_table t pt tables hands :
  hands_ok tables hands → tables !! t = None → pt_status pt = Status_waiting_table → hands_ok (<[t := pt]> tables) hands.
Proof.
  intros [Hs Hp Hd Ho] Hnone Hpt. split; [| | |done].
  - intros t' pt'. rw lookup_insert_Some. intros [[<- <-]|[_ Ht]]; [left; by rw /is_open Hpt|by eapply Hs].
  - intros h row Hh Hplay. destruct (Hp h row Hh Hplay) as (pt' & Ht & ?). exists pt'. split; [|done].
    rw lookup_insert_ne //. congruence.
  - intros t' pt'. rw lookup_insert_Some. intros [[<- <-]|[_ Ht]] Hplay; [congruence|by eapply Hd].
Qed.

(** A waiting table starts a hand. *)
Lemma hands_begin t pt h row tables hands :
  hands_ok tables hands → tables !! t = Some pt → pt_status pt = Status_waiting_table →
  hands !! h = None → hd_table_id row = t → hd_status row = Hand_playing →
  hands_ok (<[t := table_with_status Status_playing pt]> tables) (<[h := row]> hands).
Proof.
  intros [Hs Hp Hd Ho] Ht Hpt Hh Hrow Hplay.
  assert (∀ h' row', hands !! h' = Some row' → hd_table_id row' = t → hd_status row' ≠ Hand_playing) as Hidle.
  { intros h' row' Hh' <- Hplay'. destruct (Hp h' row' Hh' Hplay') as (pt' & ? & ?). congruence. }
  split.
  - intros t' pt'. rw lookup_insert_Some. intros [[<- <-]|[_ ?]]; [by left|by eapply Hs].
  - intros h' row'. rw lookup_insert_Some. intros [[<- <-]|[_ Hh']] Hplay'.
    + rw Hrow lookup_insert_eq. by eexists.
    + destruct (Hp h' row' Hh' Hplay') as (pt' & ? & ?). exists pt'. split; [|done].
      rw lookup_insert_ne //. intros Heq. by eapply Hidle.
  - intros t' pt'. rw lookup_insert_Some. intros [[<- <-]|[_ Ht']] Hplay'.
    + exists h, row. by rw lookup_insert_eq.
    + destruct (Hd t' pt' Ht' Hplay') as (h' & row' & Hh' & ? & ?). exists h', row'. split; [|done].
      rw lookup_insert_ne //. congruence.
  - intros h1 h2 r1 r2. rw !lookup_insert_Some. intros [[<- <-]|[? H1]] [[<- <-]|[? H2]] Heq Hp1 Hp2; [done| | |by eapply Ho].
    + exfalso. eapply Hidle; [exact H2| |done]. congruence.
    + exfalso. eapply Hidle; [exact H1| |done]. congruence.
Qed.

(** The hand of a playing table ends, and the table with it or not. *)
Lemma hands_settle t pt h row row' tables hands :
  hands_ok tables hands → tables !! t = Some pt → pt_status pt = Status_playing →
  hands !! h = Some row → hd_table_id row = t → hd_status row = Hand_playing →
  hd_table_id row' = t → hd_status row' = Hand_settled →
  hands_ok (<[t := table_with_status Status_waiting_table pt]> tables) (<[h := row']> hands).
Proof.
  intros [Hs Hp Hd Ho] Ht Hpt Hh Hrow Hplay Hrow' Hend. split.
  - intros t' pt'. rw lookup_insert_Some. intros [[<- <-]|[_ ?]]; [by left|by eapply Hs].
  - intros h' r. rw lookup_insert_Some. intros [[<- <-]|[Hne Hh']] Hr; [congruence|].
    destruct (Hp h' r Hh' Hr) as (pt' & ? & ?). exists pt'. split; [|done].
    rw lookup_insert_ne //. intros Heq. apply Hne. eapply Ho; [exact Hh|exact Hh'|congruence|done..].
  - intros t' pt'. rw lookup_insert_Some. intros [[<- <-]|[Hne Ht']] Hplay'; [done|].
    destruct (Hd t' pt' Ht' Hplay') as (h' & r & Hh' & ? & ?). exists h', r. split; [|done].
    rw lookup_insert_ne //. congruence.
  - intros h1 h2 r1 r2. rw !lookup_insert_Some. intros [[<- <-]|[? H1]] [[<- <-]|[? H2]] Heq Hp1 Hp2;
      [done|congruence|congruence|by eapply Ho].
Qed.

Lemma abort_hand_playing t row :
  hd_status (abort_hand t row) = Hand_playing ↔ hd_status row = Hand_playing ∧ hd_table_id row ≠ t.
Proof.
  rw /abort_hand. destruct (Z.eqb_spec (hd_table_id row) t) as [Ht|Ht]; cbn; [|tauto].
  case_bool_decide; cbn; [|tauto]. split; [done|tauto].
Qed.

Lemma abort_hand_table t row : hd_table_id (abort_hand t row) = hd_table_id row.
Proof. rw /abort_hand. by destruct (_ && _). Qed.

Lemma hands_abort t pt tables hands :
  hands_ok tables hands → tables !! t = Some pt →
  hands_ok (<[t := table_with_status Status_aborted pt]> tables) (abort_hand t <$> hands).
Proof.
  intros [Hs Hp Hd Ho] Ht. split.
  - intros t' pt'. rw lookup_insert_Some. intros [[<- <-]|[_ ?]]; [by right|by eapply Hs].
  - intros h r. rw lookup_fmap_Some. intros (row & <- & Hh) [Hr Hne]%abort_hand_playing.
    destruct (Hp h row Hh Hr) as (pt' & ? & ?). exists pt'. rw abort_hand_table lookup_insert_ne //.
  - intros t' pt'. rw lookup_insert_Some. intros [[<- <-]|[Hne Ht']] Hplay; [done|].
    destruct (Hd t' pt' Ht' Hplay) as (h & row & Hh & Hrow & Hr). exists h, (abort_hand t row).
    rw lookup_fmap Hh abort_hand_table abort_hand_playing. split_and!; [done|congruence..].
  - intros h1 h2 r1 r2. rw !lookup_fmap_Some. intros (x1 & <- & H1) (x2 & <- & H2).
    rw !abort_hand_table. intros Heq [Hp1 _]%abort_hand_playing [Hp2 _]%abort_hand_playing. by eapply Ho.
Qed.

(** ** Commits *)

(** What a commit may do: keep the invariant, grant no chips, add to the ledger. *)
Definition keeps_db b a : Prop :=
  db_ok b → db_ok a ∧ granted (db_ledger a) = granted (db_ledger b) ∧ db_ledger b `prefix_of` db_ledger a.

#[export] Instance keeps_db_preorder : PreOrder keeps_db.
Proof.
  split; [by intros db Hdb; split_and!|]. intros d1 d2 d3 H12 H23 H1.
  destruct (H12 H1) as (H2 & ? & ?). destruct (H23 H2) as (? & ? & ?).
  split_and!; [done|congruence|by etrans].
Qed.

Lemma keeps_chips b a : keeps_db b a → db_ok b → db_chips a = db_chips b.
Proof.
  intros Hk Hb. destruct (Hk Hb) as (Ha & Hg & _). rw /db_chips.
  by rw (mo_chips _ _ _ (ok_money _ Ha)) (mo_chips _ _ _ (ok_money _ Hb)).
Qed.

Lemma table_keeps t b a : table_commit t b a → keeps_db b a.
Proof.
  intros (Hnone & Hchecks & ->) [Hm Hs Hh Hb]. split; [|done].
  split; cbn; [done|apply seating_tables; [done|by left]|by apply hands_new_table|].
  apply map_Forall_insert_2; [|done]. rw /table_checks in Hchecks. by guards.
Qed.

Lemma waiting_open t : pt_status t = Status_waiting_table → is_open t = true.
Proof. intros Ht. by rw /is_open Ht. Qed.

Lemma buy_in_keeps table user seat amount key wallet b a :
  0 < amount → buy_in_commit table user seat amount key wallet b a → keeps_db b a.
Proof.
  intros Hpos [(t & [Ht Hwait] & _) Hw Henough Hfree Hplace Hunused ->] [Hm Hs Hh Hb].
  split; [split; cbn; [| |done..]|split; cbn].
  - apply (money_move user wallet (buy_in_row table user amount wallet key) _ (db_seats b)); try done; cbn.
    + destruct (mo_wallets _ _ _ Hm user wallet Hw). lia.
    + intros t' v x. rw lookup_insert_Some. intros [[[= <- <-] <-]|[_ Hx]]; [|by eapply mo_seats].
      split_and!; cbn; [lia|done|by eexists].
    + rw sumM_insert_new //=. lia.
  - apply seating_insert; [done..|exists t; split; [done|by apply waiting_open]|].
    intros v y Hy. by eapply seat_taken_None.
  - etrans; [apply granted_app|]. rw {2}/granted /=. lia.
  - by apply prefix_app_r.
Qed.

Lemma cash_out_keeps table user key wallet stack b a : cash_out_commit table user key wallet stack b a → keeps_db b a.
Proof.
  intros [_ Hw (x & Hx & Hstack) Hunused Hrange ->] [Hm Hs Hh Hb].
  split; [split; cbn; [| |done..]|split; cbn].
  - apply (money_move user wallet (cash_out_row table user stack wallet key) _ (db_seats b)); try done; cbn.
    + intros t v y. rw lookup_delete_Some. intros [_ Hy]. by eapply mo_seats.
    + rw (sumM_delete ts_stack (db_seats b) (table, user) x) //. lia.
  - eapply seating_sub; [done|]. intros k y. rw lookup_delete_Some. intros [_ ?]. by exists y.
  - etrans; [apply granted_app|]. rw {2}/granted /=. lia.
  - by apply prefix_app_r.
Qed.

(** The seats of a starting hand stay what they are. *)
Lemma each_start hand ps b d :
  (∀ t u x, db_seats b !! (t, u) = Some x → ts_hand_start_stack x = ts_stack x) →
  each (start_player hand) ps b d → ∃ m, d = set_hand_players m b.
Proof.
  intros Hstart. induction 1 as [b|p ps b d a Hp Hps IH]; [exists (db_hand_players b); by destruct b|].
  destruct Hp as (_ & _ & _ & x & Hx & Hstack & ->). cbn in IH.
  rw insert_id in IH; [|cbn in IH].
  { rw -Hstack Hx. specialize (Hstart _ _ _ Hx). destruct x; cbn in *. congruence. }
  destruct IH as [m ->]; [done|]. by exists m.
Qed.

Lemma begin_keeps hand b a : begin_hand_commit hand b a → keeps_db b a.
Proof.
  intros [(t & Ht & Hwait) Hfresh (d & t' & Heach & Ht' & ->)] [Hm Hs Hh Hb].
  apply each_start in Heach as [m ->]; [|intros t0 u x Hx; by destruct (mo_seats _ _ _ Hm t0 u x Hx) as (_ & ? & _)].
  cbn in *. simplify_eq. split; [split; cbn; [done|apply seating_tables; [done|by left]|by apply hands_begin|]|done].
  apply map_Forall_insert_2; [|done]. exact (Hb _ _ Ht).
Qed.

Lemma action_keeps x b a : action_commit x b a → keeps_db b a.
Proof. by intros [_ _ _ ->] []. Qed.

(** Players of a settlement are paid one after the other. *)
Lemma each_settle v ps b d :
  (∀ p, p ∈ ps → 0 ≤ hp_end_stack p) →
  (∀ t u x, db_seats b !! (t, u) = Some x → 0 ≤ ts_stack x ∧ ts_hand_start_stack x = ts_stack x) →
  each (settle_player v) ps b d →
  ∃ m s, d = set_seats s (set_hand_players m b) ∧
    (∀ t u x', s !! (t, u) = Some x' → 0 ≤ ts_stack x' ∧ ts_hand_start_stack x' = ts_stack x' ∧
       ∃ x, db_seats b !! (t, u) = Some x ∧ ts_seat_no x' = ts_seat_no x) ∧
    sumM ts_stack s = sumM ts_stack (db_seats b) + sumZ (λ p, hp_end_stack p - hp_start_stack p) ps.
Proof.
  intros Hend Hstart Heach. revert Hend Hstart. induction Heach as [b|p ps b d a Hp Hps IH]; intros Hend Hstart.
  { exists (db_hand_players b), (db_seats b). split_and!; [by destruct b| |cbn; lia].
    intros t u x Hx. destruct (Hstart t u x Hx). split_and!; [done..|by exists x]. }
  destruct Hp as (old & y & Hold & _ & Hy & Hyp & ->). cbn in IH.
  destruct (Hstart _ _ _ Hy) as [_ Hys].
  destruct IH as (m & s & -> & Hs & Hsum).
  { intros q Hq. apply Hend. by right. }
  { intros t u x. rw lookup_insert_Some. intros [[_ <-]|[_ Hx]]; [|by eapply Hstart].
    cbn. split; [apply Hend; left|done]. }
  exists m, s. split_and!; [done| |].
  - intros t u x' (? & ? & x & Hx & Hno)%Hs. split_and!; [done..|].
    apply lookup_insert_Some in Hx as [[[= <- <-] <-]|[_ Hx]]; [by exists y|by exists x].
  - rw Hsum (sumM_insert_old _ _ _ y) //=. lia.
Qed.

Lemma settlement_ends v : validHandSettlement v = true → ∀ p, p ∈ hst_players v → player_valid p.
Proof.
  rw /validHandSettlement. destruct (_ || _); [done|].
  destruct (add_cards _ _) as [cards|]; [|done].
  destruct (check_players _ _ _ _ _) as [[tc tw]|] eqn:Hp; [|done].
  apply check_players_spec in Hp as (Hv & _); [|done..]. intros _. by apply Forall_forall.
Qed.

Lemma sumZ_sub {A} (f g : A → Z) (l : list A) : sumZ (λ x, f x - g x) l = sumZ f l - sumZ g l.
Proof. induction l; simpl; lia. Qed.

Lemma settle_keeps v b a : settle_commit v b a → keeps_db b a.
Proof.
  intros [Hv (t & Ht & Hplay) (h & Hh & Htab & Hhand & d & t' & Heach & Ht' & ->)] [Hm Hs Hok Hb].
  pose proof (settlement_ends v Hv) as Hends. destruct (settle_sums v Hv) as [_ Hsums].
  apply each_settle in Heach as (m & s & -> & Hseats & Hsum).
  2: { intros p Hp. destruct (Hends p Hp) as (? & ? & ? & ? & ? & ? & ?). lia. }
  2: { intros t0 u x Hx. by destruct (mo_seats _ _ _ Hm t0 u x Hx) as (? & ? & _). }
  cbn in *. simplify_eq. split; [split; cbn|done].
  - eapply money_seats; [done| |].
    + intros t0 u x (? & ? & y & Hy & _)%Hseats. split_and!; [done..|by eexists].
    + rw Hsum. rw (sumZ_ext _ (λ p, hp_winnings p - hp_committed p)).
      { intros p Hp. destruct (Hends p Hp) as (_ & _ & _ & _ & _ & -> & _). lia. }
      rw sumZ_sub. lia.
  - apply seating_tables; [|by left]. eapply seating_sub; [done|]. intros [t0 u] x (_ & _ & y & Hy & ?)%Hseats. by exists y.
  - by eapply hands_settle.
  - apply map_Forall_insert_2; [|done]. exact (Hb _ _ Ht).
Qed.

(** ** The seats of one table *)

Lemma elem_of_seats_of t u x db : (u, x) ∈ seats_of t db ↔ db_seats db !! (t, u) = Some x.
Proof.
  rw /seats_of list_elem_of_omap. split.
  - intros ([[t' u'] x'] & Hin%elem_of_map_to_list & Heq). destruct (Z.eqb_spec t' t); simplify_eq. done.
  - intros Hx. exists ((t, u), x). split; [by apply elem_of_map_to_list|]. by rw Z.eqb_refl.
Qed.

Lemma seats_of_NoDup t db : NoDup (seats_of t db).*1.
Proof.
  rw /seats_of. pose proof (NoDup_fst_map_to_list (db_seats db)) as Hnd.
  induction (map_to_list (db_seats db)) as [|[[t' u'] x'] l IH]; cbn; [constructor|].
  cbn in Hnd. apply NoDup_cons in Hnd as [Hn Hnd]. destruct (Z.eqb_spec t' t) as [->|]; cbn; [|by apply IH].
  apply NoDup_cons. split; [|by apply IH]. intros ([u x] & -> & Hin)%list_elem_of_fmap. apply Hn.
  apply list_elem_of_omap in Hin as ([[t' v] y] & Hin & Heq). destruct (Z.eqb_spec t' t); simplify_eq.
  apply list_elem_of_fmap. by exists ((t, u), x).
Qed.

Lemma seats_of_lookup t u db : (list_to_map (seats_of t db) : gmap Z TableSeat) !! u = db_seats db !! (t, u).
Proof.
  apply option_eq. intros x. rw -elem_of_seats_of.
  symmetry. apply elem_of_list_to_map, seats_of_NoDup.
Qed.

Lemma refunded_lookup t u db :
  refunded_wallets t db !! u = (λ z, paid_back (seats_of t db) u z) <$> db_wallets db !! u.
Proof.
  rw /refunded_wallets map_lookup_imap. destruct (db_wallets db !! u) as [z|]; [|done]. cbn. f_equal.
  rw /refund_wallet /paid_back seats_of_lookup. destruct (db_seats db !! (t, u)); cbn; lia.
Qed.

Lemma refund_rows_match t db :
  (∀ u x, db_seats db !! (t, u) = Some x → is_Some (db_wallets db !! u)) →
  Forall2 (λ e r, wl_user_id r = e.1 ∧ wl_delta_amount r = ts_stack e.2 ∧ wl_reason r = "crash_refund"%string)
    (seats_of t db) (refund_rows t db).
Proof.
  intros Hw. rw /refund_rows.
  assert (∀ u x, (u, x) ∈ seats_of t db → is_Some (db_wallets db !! u)) as Hin.
  { intros u x Hx. by eapply Hw, elem_of_seats_of. }
  induction (seats_of t db) as [|[u x] l IH]; cbn; [constructor|].
  destruct (Hin u x) as [z ->]; [left|]. cbn. constructor; [done|]. apply IH. intros v y Hy. eapply Hin. by right.
Qed.

Lemma refund_keeps t b a : refund_commit t b a → keeps_db b a.
Proof.
  intros [(pt & Ht & Hopen & ->) Hunused Hrange] [Hm Hs Hh Hb].
  set (b' := set_wallets (refunded_wallets t b) b).
  assert (Forall2 (λ e r, wl_user_id r = e.1 ∧ wl_delta_amount r = ts_stack e.2 ∧ wl_reason r = "crash_refund"%string)
    (seats_of t b) (refund_rows t b')) as Hrows.
  { apply (refund_rows_match t b'). intros u x Hx. cbn. rw refunded_lookup.
    destruct (mo_seats _ _ _ Hm t u x Hx) as (_ & _ & [z ->]). by eexists. }
  split; [split; cbn|split].
  - assert (filter (λ e, e.1.1 ≠ t) (db_seats b) =
            filter (λ e, ¬ (e.1.1 = t ∧ e.1.2 ∈ (seats_of t b).*1)) (db_seats b)) as ->.
    { apply map_filter_strong_ext. intros [t' u] x. cbn. split; [naive_solver|].
      intros [Hn Hx]. split; [|done]. intros ->. apply Hn. split; [done|].
      apply list_elem_of_fmap. exists (u, x). by rw elem_of_seats_of. }
    assert (refunded_wallets t b = map_imap (λ u z, Some (paid_back (seats_of t b) u z)) (db_wallets b)) as Hw.
    { apply map_eq. intros u. rw refunded_lookup map_lookup_imap. by destruct (_ !! _). }
    rw {1}Hw. apply money_refund; [apply seats_of_NoDup|by intros ???%elem_of_seats_of|done|exact Hunused| |done].
    intros u z Hz. apply (Hrange u). by rw refunded_lookup Hz.
  - apply seating_tables.
    + eapply seating_sub; [done|]. intros k x [Hx _]%map_lookup_filter_Some. by exists x.
    + right. intros u. apply map_lookup_filter_None. right. cbn. by intros x _ Hne.
  - by apply hands_abort.
  - apply map_Forall_insert_2; [|done]. exact (Hb _ _ Ht).
  - etrans; [apply granted_app|]. assert (granted (refund_rows t b') = 0) as ->; [|lia].
    clear Hunused. induction Hrows as [|e r l rows (_ & _ & Hr) _ IH]; [done|].
    rw /granted /= bool_decide_eq_false_2; [by rw Hr|]. by rw -/(granted rows) IH.
  - by apply prefix_app_r.
Qed.
End inv.
