(* ===== verification/MySqlSpecs.v ===== *)
(** * Contracts of the MySQL game store

    For every method: whatever the library answers and other clients do, the call
    leaves no transaction open and commits nothing or exactly the one change of
    [MySqlCommits]; and what its answer says about the database. *)
From stdpp Require Import pretty.
From S2P Require Import Prelude Card Table AccountStore GameStore GameStoreLib GameStoreInv MySqlDatabase MySqlClient MySqlGameStore MySqlCalls MySqlCommits.

#[global] Arguments querySigned : simpl never.
#[global] Arguments queryLedger : simpl never.
#[global] Arguments abandon : simpl never.
#[global] Arguments begin : simpl never.
#[global] Arguments commit : simpl never.
#[global] Arguments rollback : simpl never.

Section specs.
  Context `{!Collation} (R : Database → Database → Prop) `{!PreOrder R} (l0 : Link).
  Context (Hothers : others_keep R l0).

Notation in_phase := (in_phase R l0).
Notation outcome := (outcome R l0).

(** ** Queries *)

Lemma querySigned_within query b d l (Q : option Z → Link → Prop) :
  in_phase (Within b d) l → (∀ l', in_phase (Within b d) l' → Q None l') →
  (∀ v l', query d = Some v → in_phase (Within b d) l' → Q (Some v) l') → ens (querySigned query) Q l.
Proof using Hothers PreOrder0.
  intros Hp Hnone Hsome. apply ens_bind. eapply phase_succeeds; [done..|]. intros [] l1 Hp1; [|by apply ens_ret, Hnone].
  apply ens_bind. eapply select_within; [done..| |].
  { intros text l2 Hp2. by apply ens_ret, Hnone. }
  intros l2 Hp2. apply ens_bind. eapply phase_fetch_row; [done..| |].
  { intros text l3 Hp3. by apply ens_ret, Hnone. }
  intros l3 Hp3. apply ens_ret. destruct (query d) as [v|] eqn:Hq; [by apply Hsome|by apply Hnone].
Qed.

(** A query before the transaction sees what others have made of the database. *)
Lemma query_before {A} (query : Database → option A) (truncated : A → bool) d l (Q : option A → Link → Prop) :
  in_phase (Before d) l → (∀ d' l', in_phase (Before d') l' → Q None l') →
  (∀ a d' l', query d' = Some a → in_phase (Before d') l' → Q (Some a) l') →
  ens (ok ← prepare;
       if (ok : bool) then
         rows ← select query;
         match rows with
         | inl _ => mret None
         | inr row => fetched ← fetch_row truncated row; mret (fetched_row fetched)
         end
       else mret None) Q l.
Proof using Hothers PreOrder0.
  intros Hp Hnone Hsome. apply ens_bind. eapply phase_succeeds; [done..|]. intros [] l1 Hp1; [|by eapply ens_ret, Hnone].
  apply ens_bind. eapply select_before; [done..| |].
  { intros text l2 Hp2. by eapply ens_ret, Hnone. }
  intros d2 l2 Hp2. apply ens_bind. eapply phase_fetch_row; [done..| |].
  { intros text l3 Hp3. by eapply ens_ret, Hnone. }
  intros l3 Hp3. apply ens_ret. destruct (query d2) as [a|] eqn:Hq; [by eapply Hsome|by eapply Hnone].
Qed.

Lemma querySigned_any query p l (Q : option Z → Link → Prop) :
  in_phase p l → (∀ v l', in_phase p l' → Q v l') → ens (querySigned query) Q l.
Proof using Hothers PreOrder0.
  intros Hp HQ. apply ens_bind. eapply phase_succeeds; [done..|]. intros [] l1 Hp1; [|by apply ens_ret, HQ].
  apply ens_bind. eapply phase_select; [done..|]. intros [text|row] l2 Hp2; [by apply ens_ret, HQ|].
  apply ens_bind. eapply phase_fetch_row; [done..| |]; [intros text|]; intros l3 Hp3; by apply ens_ret, HQ.
Qed.

Lemma queryLedger_before user key d l (Q : option LedgerReplay → Link → Prop) :
  in_phase (Before d) l → (∀ d' l', in_phase (Before d') l' → Q None l') →
  (∀ r d' l', sql_ledger user key d' = Some r → in_phase (Before d') l' → Q (Some (replay_of r)) l') →
  ens (queryLedger user key) Q l.
Proof using Hothers PreOrder0.
  intros Hp Hnone Hsome. eapply query_before; [done..|].
  intros a d' l' (r & Hr & ->)%fmap_Some Hl. by eapply Hsome.
Qed.

(** ** The end of a transaction *)

Lemma ens_abandon {A} P Quiet (Done : Database → Database → A → Prop) r b d l :
  in_phase (Within b d) l → Quiet b r → ens (abandon r) (outcome P Quiet Done) l.
Proof using Hothers PreOrder0.
  intros Hp Hq. apply ens_bind. eapply rollback_within; [done..|]. intros l' Hl.
  apply ens_ret. by eapply quiet.
Qed.

Lemma commit_within b d l (Q : bool → Link → Prop) :
  in_phase (Within b d) l → (∀ l', in_phase (After b d) l' → Q true l') →
  (∀ l', in_phase (Within b d) l' ∨ in_phase (After b d) l' → Q false l') → ens commit Q l.
Proof using Hothers PreOrder0.
  intros Hp Hok Hfail. apply ens_bind. eapply phase_mysql_commit; [done..| |].
  - intros l1 Hp1. apply ens_bind. eapply closed_autocommit_on; [done..|intros ?; apply after_closed|].
    intros l2 Hp2. by apply ens_ret, Hok.
  - intros l1 [Hp1|Hp1]; apply ens_bind.
    + eapply phase_autocommit_on; [done..|]. intros l2 Hp2. by apply ens_ret, Hfail.
    + eapply closed_autocommit_on; [done..|intros ?; apply after_closed|]. intros l2 Hp2. apply ens_ret, Hfail. by right.
Qed.

(** Commit if the last statement went well, else give up. *)
Lemma ens_finish {A} P Quiet (Done : Database → Database → A → Prop) (go : bool) good bad b d l :
  in_phase (Within b d) l → Quiet b bad → (go = true → P b d ∧ Done b d good ∧ Done b d bad) →
  ens (kept ← (if go then commit else mret false : Db bool); if (kept : bool) then mret good else abandon bad)
    (outcome P Quiet Done) l.
Proof using Hothers PreOrder0.
  intros Hp Hquiet Hgo. apply ens_bind. destruct go; [|by eapply ens_ret, ens_abandon].
  destruct Hgo as (HP & Hgood & Hbad); [done|]. eapply commit_within; [done|..].
  - intros l' Hl. apply ens_ret. by eapply kept.
  - intros l' [Hl|Hl]; [by eapply ens_abandon|].
    apply ens_bind. eapply rollback_closed; [done..|intros ?; apply after_closed|]. intros l'' Hl'.
    apply ens_ret. by eapply kept.
Qed.

Lemma sr_error_fail {A} e text : sr_error (sr_fail e text : StorageResult A) = e.
Proof. done. Qed.

(** ** Buying in *)

Definition row_says (reason : string) (table delta : Z) (r : LedgerRow) : Prop :=
  wl_reason r = reason ∧ default ""%string (wl_reference_id r) = reference table ∧ wl_delta_amount r = delta.

(** The ledger has the row a receipt is read from. *)
Definition receipt_in (user : Z) (key reason : string) (table delta balance : Z) (db : Database) : Prop :=
  ∃ r, r ∈ db_ledger db ∧ has_key user key r = true ∧ row_says reason table delta r ∧ wl_balance_after r = balance.

Definition buy_in_quiet (table user amount : Z) (key : string) (d : Database) (r : StorageResult BuyInReceipt) : Prop :=
  (sr_error r = Storage_ok → ∃ balance, r = sr_ok (mkBuyInReceipt balance amount) ∧
     receipt_in user key "table_buy_in" table (- amount) balance d) ∧
  (sr_error r = Storage_insufficient_funds → ∃ w, db_wallets d !! user = Some w ∧ w < amount).

Definition buy_in_done (user amount : Z) (b a : Database) (r : StorageResult BuyInReceipt) : Prop :=
  (∃ w, db_wallets a !! user = Some w ∧ r = sr_ok (mkBuyInReceipt w amount)) ∨ sr_error r = Storage_unavailable.

Lemma sql_ledger_row user key db r :
  sql_ledger user key db = Some r → r ∈ db_ledger db ∧ has_key user key r = true.
Proof. intros [Hin Hk]%find_some. split; [by apply list_elem_of_In|done]. Qed.

(** What a replay of a row in the ledger says. *)
Lemma replay_buy_in_quiet table user amount key d r :
  0 < amount → sql_ledger user key d = Some r →
  buy_in_quiet table user amount key d (replayBuyIn (Some (replay_of r)) table amount).
Proof.
  intros Hpos [Hin Hk]%sql_ledger_row. rw /replayBuyIn. destruct (_ || _) eqn:Hbad; [done|]. split; [|done].
  intros _. guards. cbn in *. exists (wl_balance_after r). split; [f_equal; f_equal; lia|].
  exists r. split_and!; [done..| |done]. rw /row_says. split_and!; [done..|lia].
Qed.

Lemma replay_not_found r table amount : sr_error (replayBuyIn (Some r) table amount) ≠ Storage_not_found.
Proof. rw /replayBuyIn. by destruct (_ || _). Qed.

Lemma answer_replay_spec P Done table user seat amount key d r l :
  0 < amount → in_phase (Before d) l → sql_ledger user key d = Some r →
  ens (answer_replay table user seat (replayBuyIn (Some (replay_of r)) table amount))
    (outcome P (buy_in_quiet table user amount key) Done) l.
Proof using Hothers PreOrder0.
  intros Hpos Hp Hr. pose proof (replay_buy_in_quiet table user amount key d r Hpos Hr) as Hq.
  rw /answer_replay. case_bool_decide as Hok; [|by eapply ens_ret, quiet].
  apply ens_bind. eapply querySigned_any; [done|]. intros v l' Hl. apply ens_ret.
  eapply quiet; [done|]. by case_bool_decide.
Qed.

(** The three statements of a buy-in. *)
Lemma buy_in_statements table user seat amount key w b d1 d2 a n1 n2 n3 t :
  table_waiting table t b → seat < pt_max_players t → pt_min_buy_in t ≤ amount ≤ pt_max_buy_in t →
  db_wallets b !! user = Some w → amount ≤ w →
  apply_all [sql_insert_seat table user (mkTableSeat seat amount amount)] 0 b = Some (n1, d1) →
  apply_all [sql_debit amount user] 0 d1 = Some (n2, d2) →
  apply_all [sql_insert_ledger (buy_in_row table user amount w key)] 0 d2 = Some (n3, a) →
  buy_in_commit table user seat amount key w b a ∧ db_wallets a !! user = Some (w - amount).
Proof.
  cbn. intros Ht Hseat Hrange Hw Henough.
  destruct (sql_insert_seat _ _ _ _) as [m1 e1|] eqn:H1; [|done].
  apply insert_row_Changed in H1 as (_ & Hdup & _ & -> & ->). intros [= <- <-].
  rw /sql_debit /set_balance /= Hw (proj2 (Z.leb_le _ _) Henough). destruct (balance_ok _); [|done].
  intros [= <- <-]. destruct (sql_insert_ledger _ _) as [m3 e3|] eqn:H3; [|done].
  apply insert_row_Changed in H3 as (_ & Hkey & _ & -> & ->). intros [= <- <-]. cbn in Hkey. apply orb_false_iff in Hdup as [Hfree Hplace].
  split; [|by rw /= lookup_insert_eq].
  split; try done; [by exists t|].
  rw /has bool_decide_eq_false in Hfree. by apply eq_None_not_Some.
Qed.

Lemma buy_in_transaction_spec table user seat amount key b l :
  0 < amount → in_phase (Within b b) l →
  ens (buy_in_transaction table user seat amount key)
    (outcome (λ b a, ∃ w, buy_in_commit table user seat amount key w b a)
       (buy_in_quiet table user amount key) (buy_in_done user amount)) l.
Proof using Hothers PreOrder0.
  intros Hpos Hp.
  apply ens_bind. eapply phase_succeeds; [done..|]. intros ok l1 Hp1. apply ens_bind.
  assert (∀ Q : string + option (Z * Z * Z) → Link → Prop,
    (∀ text l', in_phase (Within b b) l' → Q (inl text) l') →
    (∀ l', in_phase (Within b b) l' → Q (inr (sql_table_rules table b)) l') →
    ens (if ok then select (sql_table_rules table) else mret (inl ""%string)) Q l1) as Hrules.
  { intros Q Hl Hr. destruct ok; [by eapply select_within|by apply ens_ret, Hl]. }
  apply Hrules; clear Hrules; [intros text|]; intros l2 Hp2; [by eapply ens_abandon|].
  apply ens_bind. eapply phase_fetch_row; [done..|intros text|]; intros l3 Hp3; [by eapply ens_abandon|].
  rw {1}/sql_table_rules. destruct (db_tables b !! table) as [t|] eqn:Ht; cbn; [|by eapply ens_abandon].
  case_bool_decide as Hwait; [|by eapply ens_abandon].
  destruct (_ || _) eqn:Hrange; [by eapply ens_abandon|]. guards.
  apply ens_bind. eapply querySigned_within; [done|intros l4 Hp4; by eapply ens_abandon|]. intros w l4 Hw Hp4.
  destruct (Z.ltb_spec w amount) as [Hless|Henough].
  { eapply ens_abandon; [done|]. split; [done|]. intros _. by exists w. }
  apply ens_bind. eapply run_within; [done..| |].
  { intros e d' l5 He _ Hp5. rw He /=. apply ens_bind. eapply rollback_within; [done..|]. intros l6 Hp6.
    apply ens_bind. eapply queryLedger_before; [done|..].
    - intros d6 l7 Hp7. apply ens_ret. eapply quiet; [done|]. cbn. by destruct (was_duplicate e).
    - intros r d6 l7 Hr Hp7. apply ens_ret. eapply quiet; [done|].
      case_bool_decide as Hnf; [by destruct (replay_not_found (replay_of r) table amount)|].
      by apply replay_buy_in_quiet. }
  intros n1 d1 l5 H1' Hp5. cbn. apply ens_bind. eapply run_within; [done..| |].
  { intros e d' l6 _ He Hp6. rw He /=. by eapply ens_abandon. }
  intros n2 d2 l6 H2' Hp6. cbn. destruct (n2 =? 1)%nat; [|by eapply ens_abandon]. cbn.
  apply ens_bind. eapply run_within; [done..| |].
  { intros e d' l7 He _ Hp7. eapply ens_finish; [done..|]. by rw He. }
  intros n3 a l7 H3' Hp7. eapply ens_finish; [done..|]. intros _.
  destruct (buy_in_statements table user seat amount key w b d1 d2 a n1 n2 n3 t) as [Hc Hbal]; try done; [lia..|].
  split; [by exists w|]. split; [left; by exists (w - amount)|by right].
Qed.

Lemma reserveBuyIn_spec table user seat amount key l :
  in_phase (Before (ln_db l)) l →
  ens (reserveBuyIn table user seat amount key)
    (outcome (λ b a, 0 < amount ∧ ∃ w, buy_in_commit table user seat amount key w b a)
       (buy_in_quiet table user amount key) (buy_in_done user amount)) l.
Proof using Hothers PreOrder0.
  intros Hp. rw /reserveBuyIn. destruct (_ || _) eqn:Hbad; [by eapply ens_ret, quiet|].
  assert (0 < amount) as Hpos by (guards; lia).
  eapply ens_with_lease; [done..|]. intros l1 Hp1. apply ens_bind. eapply queryLedger_before; [done|..].
  - intros d l2 Hp2. cbn. apply ens_bind. eapply phase_begin; [done..| |].
    + intros l3 Hp3. by eapply ens_ret, quiet.
    + intros b l3 _ Hp3. eapply ens_mono; [by eapply buy_in_transaction_spec|].
      intros r l4 [?|(b' & a & ? & ? & ?)]; [by left|right]. by exists b', a.
  - intros r d l2 Hr Hp2. cbv zeta. rw bool_decide_eq_false_2; [apply replay_not_found|]. cbn [negb].
    by eapply answer_replay_spec.
Qed.

(** ** Cashing out *)

Definition cash_out_quiet (table user : Z) (key : string) (d : Database) (r : StorageResult CashOutReceipt) : Prop :=
  sr_error r = Storage_ok → ∃ balance stack, r = sr_ok (mkCashOutReceipt balance stack) ∧
    receipt_in user key "table_cash_out" table stack balance d.

Definition cash_out_done (table user : Z) (b a : Database) (r : StorageResult CashOutReceipt) : Prop :=
  (∃ w s, db_wallets a !! user = Some w ∧ db_seats b !! (table, user) = Some s ∧
     r = sr_ok (mkCashOutReceipt w (ts_stack s))) ∨ sr_error r = Storage_unavailable.

Lemma replay_cash_out_quiet table user key d r :
  sql_ledger user key d = Some r →
  cash_out_quiet table user key d (replayCashOut (Some (replay_of r)) table).
Proof.
  intros [Hin Hk]%sql_ledger_row. rw /replayCashOut. destruct (_ || _) eqn:Hbad; [done|].
  intros _. guards. cbn in *. exists (wl_balance_after r), (wl_delta_amount r). split; [done|].
  by exists r.
Qed.

Lemma cash_replay_not_found r table : sr_error (replayCashOut (Some r) table) ≠ Storage_not_found.
Proof. rw /replayCashOut. by destruct (_ || _). Qed.

Lemma cash_out_statements table user key s w b d a n1 n2 t :
  table_waiting table t b → db_seats b !! (table, user) = Some s → db_wallets b !! user = Some w →
  apply_all [sql_credit (ts_stack s) user; sql_delete_seat table user] 0 b = Some (n1, d) →
  apply_all [sql_insert_ledger (cash_out_row table user (ts_stack s) w key)] 0 d = Some (n2, a) →
  cash_out_commit table user key w (ts_stack s) b a ∧ db_wallets a !! user = Some (w + ts_stack s).
Proof.
  cbn. intros Ht Hs Hw. rw /sql_credit /set_balance Hw. destruct (balance_ok _) eqn:Hrange; [|done].
  rw /sql_delete_seat. intros [= <- <-]. destruct (sql_insert_ledger _ _) as [m3 e3|] eqn:H3; [|done].
  apply insert_row_Changed in H3 as (_ & Hkey & _ & -> & ->). intros [= <- <-].
  rw /balance_ok /bigint in Hrange. guards. split; [|by rw /= lookup_insert_eq].
  split; try done; [by exists t|by exists s].
Qed.

(** [status='...'] is one or zero. *)
Lemma status_is_one status table db v :
  sql_status_is status table db = Some v →
  ∃ t, db_tables db !! table = Some t ∧ v = (if bool_decide (pt_status t = status) then 1 else 0).
Proof. rw /sql_status_is. destruct (db_tables db !! table) as [t|]; [|done]. intros [= <-]. by exists t. Qed.

Lemma cash_out_transaction_spec table user key b l :
  in_phase (Within b b) l →
  ens (cash_out_transaction table user key)
    (outcome (λ b a, ∃ w stack, cash_out_commit table user key w stack b a)
       (cash_out_quiet table user key) (cash_out_done table user)) l.
Proof using Hothers PreOrder0.
  intros Hp.
  apply ens_bind. eapply querySigned_within; [done|intros l1 Hp1; by eapply ens_abandon|]. intros v l1 Hv Hp1.
  apply status_is_one in Hv as (t & Ht & ->). case_bool_decide as Hwait; cbn; [|by eapply ens_abandon].
  assert (∀ l', in_phase (Within b b) l' →
    ens (rollback ;;;
         replay ← queryLedger user key;
         let replay := replayCashOut replay table in
         mret (if bool_decide (sr_error replay = Storage_not_found)
               then sr_fail Storage_not_found "seat or wallet not found" else replay))
      (outcome (λ b a, ∃ w stack, cash_out_commit table user key w stack b a)
         (cash_out_quiet table user key) (cash_out_done table user)) l') as Hmissing.
  { intros l' Hl. apply ens_bind. eapply rollback_within; [done..|]. intros l2 Hp2.
    apply ens_bind. eapply queryLedger_before; [done|..].
    - intros d l3 Hp3. by eapply ens_ret, quiet.
    - intros r d l3 Hr Hp3. apply ens_ret. eapply quiet; [done|]. cbv zeta.
      rw bool_decide_eq_false_2; [apply cash_replay_not_found|]. by apply replay_cash_out_quiet. }
  apply ens_bind. eapply querySigned_within; [done|..].
  { intros l2 Hp2. apply ens_bind. eapply querySigned_any; [done|]. intros x l3 Hp3. by apply Hmissing. }
  intros stack l2 (s & Hs & ->)%fmap_Some Hp2.
  apply ens_bind. eapply querySigned_within; [done|intros l3 Hp3; by apply Hmissing|]. intros w l3 Hw Hp3.
  apply ens_bind. eapply run_within; [done..| |].
  { intros e d l4 He _ Hp4. rw He /=. by eapply ens_abandon. }
  intros n1 d l4 Hn1 Hp4. cbn. apply ens_bind. eapply run_within; [done..| |].
  { intros e d' l5 He _ Hp5. eapply ens_finish; [done..|]. by rw He. }
  intros n2 a l5 Hn2 Hp5. eapply ens_finish; [done..|]. intros _.
  destruct (cash_out_statements table user key s w b d a n1 n2 t) as [Hc Hbal]; [done..|].
  split; [by exists w, (ts_stack s)|]. split; [left; by exists (w + ts_stack s), s|by right].
Qed.

Lemma cashOut_spec table user key l :
  in_phase (Before (ln_db l)) l →
  ens (cashOut table user key)
    (outcome (λ b a, ∃ w stack, cash_out_commit table user key w stack b a)
       (cash_out_quiet table user key) (cash_out_done table user)) l.
Proof using Hothers PreOrder0.
  intros Hp. rw /cashOut. destruct (_ || _); [by eapply ens_ret, quiet|].
  eapply ens_with_lease; [done..|]. intros l1 Hp1. apply ens_bind. eapply queryLedger_before; [done|..].
  - intros d l2 Hp2. cbn. apply ens_bind. eapply phase_begin; [done..| |].
    + intros l3 Hp3. by eapply ens_ret, quiet.
    + intros b l3 _ Hp3. by eapply cash_out_transaction_spec.
  - intros r d l2 Hr Hp2. cbv zeta. rw bool_decide_eq_false_2; [apply cash_replay_not_found|]. cbn [negb].
    eapply ens_ret, quiet; [done|]. by apply replay_cash_out_quiet.
Qed.

(** ** Tables *)

Lemma createTable_spec t l :
  in_phase (Before (ln_db l)) l →
  ens (createTable t)
    (outcome (table_commit t)
       (λ d e, e ≠ Storage_ok ∧ (e = Storage_duplicate → is_Some (db_tables d !! table_id t)))
       (λ _ _ e, e = Storage_ok ∨ e = Storage_unavailable)) l.
Proof using Hothers PreOrder0.
  intros Hp. eapply ens_with_lease; [done..|]. intros l1 Hp1. apply ens_bind.
  assert (∀ n b a, sql_insert_table (table_id t) (table_row t) b = Changed n a → table_commit t b a) as Hcommit.
  { intros n b a ((_ & ?)%andb_true_iff & Hfree & _ & _ & ->)%insert_row_Changed.
    by apply bool_decide_eq_false, eq_None_not_Some in Hfree. }
  eapply run_before; [done..| | |].
  - intros e d l2 He _ Hdup Hp2. rw He. eapply ens_ret, quiet; [done|].
    destruct (was_duplicate e) eqn:Hd; [|done]. split; [done|]. intros _. specialize (Hdup eq_refl).
    by apply insert_row_duplicate, bool_decide_eq_true in Hdup.
  - intros e n b a l2 He _ Hd Hs Hp2. rw He Hd. eapply ens_ret, kept; [done|by eapply Hcommit|by right].
  - intros n b a l2 Hs Hp2. cbn. eapply ens_ret, kept; [done|by eapply Hcommit|by left].
Qed.

(** ** Hands *)

Definition refused (_ : Database) (e : StorageError) : Prop := e ≠ Storage_ok.

Lemma ens_with_transaction P Quiet Done body d l :
  in_phase (Before d) l → (∀ d, Quiet d Storage_unavailable) →
  (∀ b l', in_phase (Within b b) l' → ens body (outcome P Quiet Done) l') →
  ens (with_transaction body) (outcome P Quiet Done) l.
Proof using Hothers PreOrder0.
  intros Hp Hu Hbody. eapply ens_with_lease; [done..|]. intros l1 Hp1.
  apply ens_bind. eapply phase_begin; [done..| |].
  - intros l2 Hp2. by eapply ens_ret, quiet.
  - intros b l2 _ Hp2. by apply (Hbody b).
Qed.

Lemma start_player_statements hand p n d a :
  hs_user_id p ≠ 0 → length (hs_hole_cards p) = 2%nat →
  apply_all [sql_insert_hand_player (hsr_hand_id hand) (hs_user_id p) (start_row p);
             sql_mark_start (hs_start_stack p) (hsr_table_id hand) (hs_user_id p) (hs_start_stack p)] 0 d = Some (n, a) →
  n = 1%nat → start_player hand p d a.
Proof.
  intros Hu Hcards. cbn. destruct (sql_insert_hand_player _ _ _ _) as [m1 e1|] eqn:H1; [|done].
  apply insert_row_Changed in H1 as (_ & Hfree & _ & -> & ->). rw /sql_mark_start /=.
  destruct (db_seats d !! _) as [s|] eqn:Hs; [|by intros [= <- _]].
  destruct (Z.eqb_spec (ts_stack s) (hs_start_stack p)); [|by intros [= <- _]].
  destruct (0 <=? _); [|done]. intros [= _ <-] _.
  apply bool_decide_eq_false, eq_None_not_Some in Hfree. split_and!; [done..|]. by exists s.
Qed.

Lemma start_players_spec hand ps b d l (Q : option StorageError → Link → Prop) :
  in_phase (Within b d) l →
  (∀ e d' l', e ≠ Storage_ok → in_phase (Within b d') l' → Q (Some e) l') →
  (∀ a l', each (start_player hand) ps d a → in_phase (Within b a) l' → Q None l') →
  ens (start_players hand ps) Q l.
Proof using Hothers PreOrder0.
  revert d l Q. induction ps as [|p ps IH]; intros d l Q Hp Hfail Hok; cbn.
  { apply ens_ret, (Hok d); [constructor|done]. }
  destruct (_ || _) eqn:Hbad; [by eapply ens_ret, Hfail|]. guards.
  apply ens_bind. eapply run_within; [done..| |].
  { intros e d' l' _ He Hl. rw He. by eapply ens_ret, Hfail. }
  intros n d' l' Hn Hl. cbn. destruct (Nat.eqb_spec n 1) as [Hn1|]; [|by eapply ens_ret, Hfail].
  eapply IH; [done..|]. intros a l'' Ha Hl'. eapply Hok; [|done].
  econstructor; [|done]. by eapply start_player_statements.
Qed.

Lemma begin_hand_transaction_spec hand b l :
  in_phase (Within b b) l →
  ens (begin_hand_transaction hand)
    (outcome (begin_hand_commit hand) refused (λ _ _ e, e = Storage_ok ∨ e = Storage_conflict)) l.
Proof using Hothers PreOrder0.
  intros Hp.
  apply ens_bind. eapply querySigned_within; [done|intros l1 Hp1; by eapply ens_abandon|]. intros v l1 Hv Hp1.
  apply status_is_one in Hv as (t & Ht & ->). case_bool_decide as Hwait; cbn; [|by eapply ens_abandon].
  apply ens_bind. eapply run_within; [done..| |].
  { intros e d l2 He _ Hp2. rw He /=. eapply ens_abandon; [done|]. by destruct (was_duplicate e). }
  intros n1 d1 l2 Hn1 Hp2. cbn. apply ens_bind. eapply start_players_spec; [done| |].
  { intros e d l3 He Hp3. by eapply ens_abandon. }
  intros d2 l3 Heach Hp3. apply ens_bind. eapply run_within; [done..| |].
  { intros e d l4 _ He Hp4. eapply ens_finish; [done..|]. by rw He. }
  intros n2 a l4 Hn2 Hp4. eapply ens_finish; [done..|]. cbn. intros Hn. guards.
  split; [|split; [by left|by right]].
  cbn in Hn1. destruct (sql_insert_hand _ _ _) as [m1 e1|] eqn:H1; [|done].
  apply insert_row_Changed in H1 as (_ & Hfree & _ & -> & ->). simplify_eq. apply orb_false_iff in Hfree as [Hfree _]. apply bool_decide_eq_false, eq_None_not_Some in Hfree.
  rw /= /sql_set_status in Hn2. destruct (db_tables d2 !! _) as [t2|] eqn:Ht2; [|simplify_eq].
  destruct (bool_decide (pt_status t2 = _)); [|simplify_eq]. simplify_eq.
  split; [by exists t|done|]. by exists d2, t2.
Qed.

Lemma beginHand_spec hand l :
  in_phase (Before (ln_db l)) l →
  ens (beginHand hand) (outcome (begin_hand_commit hand) refused (λ _ _ e, e = Storage_ok ∨ e = Storage_conflict)) l.
Proof using Hothers PreOrder0.
  intros Hp. rw /beginHand. destruct (_ || _); [by eapply ens_ret, quiet|].
  eapply ens_with_transaction; [done..|]. intros b l' Hl. by eapply begin_hand_transaction_spec.
Qed.

(** ** Actions *)

Definition stored (x : HandActionRecord) (db : Database) : Prop :=
  db_hand_actions db !! (ha_hand_id x, ha_sequence x) = Some (action_row x).

Lemma exact_duplicate_spec x d l (Q : bool → Link → Prop) :
  in_phase (Before d) l → (∀ d' l', in_phase (Before d') l' → Q false l') →
  (∀ d' l', in_phase (Before d') l' → stored x d' → Q true l') → ens (isExactActionDuplicate x) Q l.
Proof using Hothers PreOrder0.
  intros Hp Hno Hyes. apply ens_bind. eapply phase_succeeds; [done..|]. intros [] l1 Hp1; [|by eapply ens_ret, Hno].
  apply ens_bind. eapply select_before; [done..| |].
  { intros text l2 Hp2. by eapply ens_ret, Hno. }
  intros d2 l2 Hp2. apply ens_bind. eapply phase_fetch_row; [done..| |].
  { intros text l3 Hp3. by eapply ens_ret, Hno. }
  intros l3 Hp3. apply ens_ret. destruct (sql_find_action _ _ _ _ d2) as [[sequence y]|] eqn:Hfind; [|by eapply Hno].
  destruct (_ && _) eqn:Hsame; [|by eapply Hno]. eapply Hyes; [done|].
  rw /sql_find_action in Hfind. destruct (List.find _ _) as [[[h s] z]|] eqn:Hf; [|done]. cbn in Hfind. simplify_eq.
  apply find_some in Hf as [Hin Hmatch]. apply list_elem_of_In, elem_of_map_to_list in Hin.
  rw /action_matches /= in Hmatch. apply andb_true_iff in Hmatch as [Hh _]. guards.
  rw /stored. replace (ha_hand_id x) with h by lia. replace (ha_sequence x) with sequence by lia. rw Hin. f_equal.
  destruct y; rw /action_row; cbn in *. f_equal; first [lia|done].
Qed.

Lemma action_statement x n b a :
  sql_insert_action (ha_hand_id x) (ha_sequence x) (action_row x) b = Changed n a →
  (n = 1%nat ∧ action_commit x b a) ∨ (n = 0%nat ∧ a = b).
Proof.
  rw /sql_insert_action. destruct (db_hands b !! _) as [h|] eqn:Hh; [|intros [= <- <-]; by right].
  case_bool_decide as Hplay; [|intros [= <- <-]; by right].
  intros (_ & Hdup & _ & -> & ->)%insert_row_Changed. left. split; [done|].
  apply orb_false_iff in Hdup as [Hfree Hreq]. apply bool_decide_eq_false, eq_None_not_Some in Hfree.
  split; [by exists h|done| |done]. intros s y Hy [Hu Hr].
  assert (existsb (action_matches (ha_hand_id x) (hc_user_id (action_row x)) (hc_request_id (action_row x)) None)
    (map_to_list (db_hand_actions b)) = true) as Hex; [|congruence].
  apply existsb_exists. exists ((ha_hand_id x, s), y). split; [by apply list_elem_of_In, elem_of_map_to_list|].
  by rw /action_matches /= Hu Hr !Z.eqb_refl.
Qed.

Lemma appendAction_spec x l :
  in_phase (Before (ln_db l)) l →
  ens (appendAction x)
    (outcome (λ b a, action_commit x b a ∨ a = b)
       (λ d e, e ≠ Storage_ok ∧ (e = Storage_duplicate → stored x d))
       (λ b a e, e ≠ Storage_duplicate ∧ (e = Storage_ok → action_commit x b a))) l.
Proof using Hothers PreOrder0.
  intros Hp. eapply ens_with_lease; [done..|]. intros l1 Hp1. apply ens_bind. eapply run_before; [done..| | |].
  - intros e d l2 Hok He _ Hp2. rw He Hok. destruct (was_duplicate e); [|by eapply ens_ret, quiet].
    apply ens_bind. eapply exact_duplicate_spec; [done|..]; intros d' l3 Hp3; [|intros Hst]; by eapply ens_ret, quiet.
  - intros e n b a l2 Hok He Hd Hs Hp2. rw He Hd Hok. eapply ens_ret, kept; [done| |done].
    destruct (action_statement x n b a Hs) as [[_ ?]|[_ ?]]; auto.
  - intros n b a l2 Hs Hp2. cbn. destruct (action_statement x n b a Hs) as [[-> ?]|[-> ->]]; cbn.
    + eapply ens_ret, kept; [done|by left|done].
    + eapply ens_ret, kept; [done|by right|done].
Qed.

(** ** Settlements *)

Lemma settle_player_statements v p n1 n2 d d1 a :
  apply_all [sql_settle_player (hst_hand_id v) (hp_user_id p) (hp_start_stack p)
    (mkHandPlayerRow (hp_seat p) (hp_start_stack p) (hp_committed p) (hp_winnings p)
       (Some (hp_end_stack p)) (Some (encodeCards (hp_hole_cards p))) (hp_folded p))] 0 d = Some (n1, d1) →
  n1 = 1%nat →
  apply_all [sql_settle_seat (hp_end_stack p) (hst_table_id v) (hp_user_id p) (hp_start_stack p)] 0 d1 = Some (n2, a) →
  n2 = 1%nat → settle_player v p d a.
Proof.
  cbn. rw /sql_settle_player. destruct (db_hand_players d !! _) as [old|] eqn:Hold; [|by intros [= <- _]].
  destruct (Z.eqb_spec (hr_start_stack old) (hp_start_stack p)) as [Hst|]; [|by intros [= <- _]].
  destruct (varbinary _ _); [|done]. intros [= _ <-] _. rw /sql_settle_seat /=.
  destruct (db_seats d !! _) as [s|] eqn:Hs; [|by intros [= <- _]].
  destruct (Z.eqb_spec (ts_hand_start_stack s) (hp_start_stack p)) as [Hss|]; [|by intros [= <- _]].
  destruct (0 <=? _); [|done]. intros [= _ <-] _. by exists old, s.
Qed.

(** What no step changes. *)
Lemma each_same {A B} (step : A → Database → Database → Prop) (f : Database → B) l b a :
  (∀ x b a, step x b a → f a = f b) → each step l b a → f a = f b.
Proof. intros Hstep. induction 1 as [|x l b d a Hx _ IH]; [done|]. rw IH. by eapply Hstep. Qed.

Lemma settle_player_tables v p b a : settle_player v p b a → db_tables a = db_tables b.
Proof. by intros (old & s & _ & _ & _ & _ & ->). Qed.

Lemma settle_players_spec v ps b d l (Q : bool → Link → Prop) :
  in_phase (Within b d) l →
  (∀ d' l', in_phase (Within b d') l' → Q false l') →
  (∀ a l', each (settle_player v) ps d a → in_phase (Within b a) l' → Q true l') →
  ens (settle_players v ps) Q l.
Proof using Hothers PreOrder0.
  revert d l Q. induction ps as [|p ps IH]; intros d l Q Hp Hfail Hok; cbn.
  { apply ens_ret, (Hok d); [constructor|done]. }
  apply ens_bind. eapply run_within; [done..| |].
  { intros e d' l' _ He Hl. rw He. by eapply ens_ret, Hfail. }
  intros n1 d1 l1 Hn1 Hp1. cbn. destruct (Nat.eqb_spec n1 1) as [Hone|]; [|by eapply ens_ret, Hfail]. cbn.
  apply ens_bind. eapply run_within; [done..| |].
  { intros e d' l' _ He Hl. rw He. by eapply ens_ret, Hfail. }
  intros n2 d2 l2 Hn2 Hp2. cbn. destruct (Nat.eqb_spec n2 1) as [Htwo|]; [|by eapply ens_ret, Hfail].
  eapply IH; [done..|]. intros a l3 Ha Hp3. eapply Hok; [|done].
  econstructor; [|done]. by eapply settle_player_statements.
Qed.

Lemma settle_transaction_spec v b l :
  validHandSettlement v = true → in_phase (Within b b) l →
  ens (settle_transaction v)
    (outcome (settle_commit v) refused (λ _ _ e, e = Storage_ok ∨ e = Storage_unavailable)) l.
Proof using Hothers PreOrder0.
  intros Hvalid Hp.
  apply ens_bind. eapply querySigned_within; [done|intros l1 Hp1; by eapply ens_abandon|]. intros x l1 Hv Hp1.
  apply status_is_one in Hv as (t & Ht & ->). case_bool_decide as Hplay; cbn; [|by eapply ens_abandon].
  apply ens_bind. eapply run_within; [done..| |].
  { intros e d l2 He _ Hp2. rw He /=. by eapply ens_abandon. }
  intros n1 d1 l2 Hn1 Hp2. cbn. destruct (Nat.eqb_spec n1 1) as [Hone|]; cbn; [|by eapply ens_abandon].
  apply ens_bind. eapply settle_players_spec; [done| |].
  { intros d l3 Hp3. by eapply ens_abandon. }
  intros d2 l3 Heach Hp3. cbn. apply ens_bind. eapply run_within; [done..| |].
  { intros e d l4 He _ Hp4. eapply ens_finish; [done..|]. by rw He. }
  intros n2 a l4 Hn2 Hp4. eapply ens_finish; [done..|]. intros _.
  split; [|split; [by left|by right]].
  rw /= /sql_settle_hand in Hn1. destruct (db_hands b !! _) as [h|] eqn:Hh; [|simplify_eq].
  destruct (_ && _) eqn:Hmatch; [|simplify_eq]. destruct (varbinary _ _); [|done]. simplify_eq. guards.
  split; [done|by exists t|]. exists h. split_and!; [done..|].
  rw /= /sql_set_status in Hn2. destruct (db_tables d2 !! _) as [t2|] eqn:Ht2; simplify_eq; [by exists d2, t2|].
  apply (each_same _ db_tables) in Heach; [|apply settle_player_tables]. cbn in Heach. by rw Heach Ht in Ht2.
Qed.

Lemma settleHand_spec v l :
  in_phase (Before (ln_db l)) l →
  ens (settleHand v) (outcome (settle_commit v) refused (λ _ _ e, e = Storage_ok ∨ e = Storage_unavailable)) l.
Proof using Hothers PreOrder0.
  intros Hp. rw /settleHand. destruct (validHandSettlement v) eqn:Hv; cbn; [|by eapply ens_ret, quiet].
  eapply ens_with_transaction; [done..|]. intros b l' Hl. by eapply settle_transaction_spec.
Qed.

(** ** Refunds *)

Lemma insert_ledger_rows_spec rows db n db' :
  insert_ledger_rows rows db = Changed n db' →
  db' = set_ledger (db_ledger db ++ rows) db ∧
  ∀ i r, rows !! i = Some r → existsb (has_key (wl_user_id r) (wl_idempotency_key r)) (db_ledger db ++ take i rows) = false.
Proof.
  revert n db. induction rows as [|r rows IH]; intros n db; cbn.
  { intros [= _ <-]. split; [by destruct db; rw /set_ledger /= app_nil_r|]. intros i r. by rw lookup_nil. }
  destruct (sql_insert_ledger r db) as [m1 e1|] eqn:H1; [|done]. apply insert_row_Changed in H1 as (_ & Hkey & _ & -> & ->).
  destruct (insert_ledger_rows rows _) as [m d|] eqn:Hrows; [|done]. intros [= _ <-].
  apply IH in Hrows as [-> Hkeys]. cbn in *. split; [by rw -app_assoc|].
  intros [|i] r' Hr; cbn in *; [simplify_eq; by rw app_nil_r|]. specialize (Hkeys i r' Hr). by rw -app_assoc in Hkeys.
Qed.

Lemma refund_statements_spec table n b a t :
  db_tables b !! table = Some t → apply_all (refund_statements table) 0 b = Some (n, a) → n = 1%nat →
  refund_commit table b a.
Proof.
  intros Ht. cbn. rw /sql_refund_wallets -/(refunded_wallets table b).
  destruct (forallb _ _) eqn:Hrange; [|done]. rw /sql_refund_ledger.
  destruct (insert_ledger_rows _ _) as [m d|] eqn:Hrows; [|done].
  apply insert_ledger_rows_spec in Hrows as [-> Hkeys]. cbn -[is_closable].
  rw /sql_set_status /= Ht. destruct (is_closable t) eqn:Hclose; [|by intros [= <- _]]. intros [= _ <-] _.
  split; [by exists t|exact Hkeys|]. intros u z Hz.
  rw forallb_forall in Hrange. specialize (Hrange (u, z)).
  rw /balance_ok /bigint /= in Hrange. assert (refunded_wallets table b !! u = Some z) as Hin by done.
  apply elem_of_map_to_list, list_elem_of_In in Hin. specialize (Hrange Hin). guards. lia.
Qed.

Definition refund_quiet (table : Z) (d : Database) (e : StorageError) : Prop :=
  e = Storage_ok → ∃ t, db_tables d !! table = Some t ∧ pt_status t = Status_aborted.

Lemma abortTable_spec table l :
  in_phase (Before (ln_db l)) l →
  ens (abortTableAndRefund table)
    (outcome (refund_commit table) (refund_quiet table) (λ _ _ e, e = Storage_ok ∨ e = Storage_unavailable)) l.
Proof using Hothers PreOrder0.
  intros Hp. eapply ens_with_transaction; [done..|]. intros b l1 Hp1.
  apply ens_bind. eapply querySigned_within; [done|intros l2 Hp2; by eapply ens_abandon|]. intros x l2 Hv Hp2.
  apply status_is_one in Hv as (t & Ht & ->). case_bool_decide as Haborted; cbn.
  { eapply ens_abandon; [done|]. intros _. by exists t. }
  apply ens_bind. eapply run_within; [done..| |].
  { intros e d l3 _ He Hp3. eapply ens_finish; [done..|]. by rw He. }
  intros n a l3 Hn Hp3. eapply ens_finish; [done..|]. cbn. intros Hone. guards.
  split; [by eapply refund_statements_spec|]. split; [by left|by right].
Qed.

(** ** Reading tables *)

Definition never (_ _ : Database) : Prop := False.

(** A query under a lease: what it answers is right for a database on the way. *)
Lemma lease_query {A B} (query : Database → A) (body : A → Db B) (failed unavailable : B) (fail : string → B)
    (Quiet : Database → B → Prop) (Done : Database → Database → B → Prop) l :
  in_phase (Before (ln_db l)) l → (∀ d, Quiet d failed) → (∀ d, Quiet d unavailable) → (∀ d text, Quiet d (fail text)) →
  (∀ d l', in_phase (Before d) l' → ens (body (query d)) (outcome never Quiet Done) l') →
  ens (with_lease unavailable (
    ok ← prepare;
    if (ok : bool) then
      rows ← select query;
      match rows with
      | inl text => mret (fail text)
      | inr row => body row
      end
    else mret failed)) (outcome never Quiet Done) l.
Proof using Hothers PreOrder0.
  intros Hp Hfailed Hunavailable Hfail Hbody. eapply ens_with_lease; [done..|]. intros l1 Hp1.
  apply ens_bind. eapply phase_succeeds; [done..|]. intros [] l2 Hp2; [|by eapply ens_ret, quiet].
  apply ens_bind. eapply select_before; [done..| |].
  - intros text l3 Hp3. by eapply ens_ret, quiet.
  - intros d l3 Hp3. by apply (Hbody d).
Qed.

Definition found_table (id : Z) (d : Database) (r : StorageResult TableRecord) : Prop :=
  (sr_error r = Storage_ok → ∃ t, db_tables d !! id = Some t ∧ is_open t = true ∧ r = sr_ok (record (id, t))) ∧
  (sr_error r = Storage_not_found → sql_find_table id d = None).

Lemma findTable_spec Done id l :
  in_phase (Before (ln_db l)) l → ens (findTable id) (outcome never (found_table id) Done) l.
Proof using Hothers PreOrder0.
  intros Hp. eapply lease_query; [done..|]. intros d l1 Hp1. apply ens_bind. eapply phase_fetch_row; [done..| |].
  - intros text l2 Hp2. by eapply ens_ret, quiet.
  - intros l2 Hp2. eapply ens_ret, quiet; [done|].
    destruct (sql_find_table id d) as [row|] eqn:Hrow; [|by rw /found_table Hrow].
    split; [intros _|done]. rw /sql_find_table in Hrow. destruct (db_tables d !! id) as [t|]; [|done]. cbn in Hrow.
    destruct (is_open t) eqn:Hopen; simplify_eq. by exists t.
Qed.

Lemma fetch_records_spec rows p l (Q : StorageResult (list TableRecord) → Link → Prop) :
  in_phase p l →
  (∀ r l', in_phase p l' → (sr_error r = Storage_ok ∧ r = sr_ok (record <$> rows) ∨ sr_error r = Storage_unavailable ∧ sr_value r = None) →
     Q r l') →
  ens (fetch_records rows) Q l.
Proof using Hothers PreOrder0.
  revert l Q. induction rows as [|row rows IH]; intros l Q Hp HQ; cbn.
  all: apply ens_bind; eapply phase_call; [done..|]; intros [text|] l1 Hp1.
  1, 2: apply ens_ret, HQ; [done|by auto].
  1: apply ens_ret, HQ; [done|by right].
  destruct (row_truncated row); [apply ens_ret, HQ; [done|by right]|].
  apply ens_bind. eapply IH; [done|]. intros r l2 Hp2 Hr. apply ens_ret, HQ; [done|].
  destruct Hr as [[_ ->]|[He Hv]]; [by left|]. rw Hv. by right.
Qed.

Lemma listOpenTables_spec Done limit l :
  in_phase (Before (ln_db l)) l →
  ens (listOpenTables limit)
    (outcome never (λ d r, sr_error r = Storage_ok →
       r = sr_ok (record <$> sql_open_tables (Z.min (Z.of_nat limit) 10000) d)) Done) l.
Proof using Hothers PreOrder0.
  intros Hp. rw /listOpenTables. destruct (limit =? 0)%nat; [by eapply ens_ret, quiet|].
  eapply lease_query; [done..|]. intros d l1 Hp1. apply ens_bind. eapply phase_call; [done..|].
  intros [text|] l2 Hp2; [by eapply ens_ret, quiet|].
  eapply fetch_records_spec; [done|]. intros r l3 Hp3 [[_ ->]|[He _]]; (eapply quiet; [done|]); [done|by rw He].
Qed.

Lemma countOpenTables_spec Done node l :
  in_phase (Before (ln_db l)) l →
  ens (countOpenTables node)
    (outcome never (λ d r, sr_error r = Storage_ok → r = sr_ok (Z.to_nat (sql_count_tables node d))) Done) l.
Proof using Hothers PreOrder0.
  intros Hp. rw /countOpenTables. case_bool_decide; [by eapply ens_ret, quiet|].
  eapply lease_query; [done..|]. intros d l1 Hp1. apply ens_bind. eapply phase_fetch_row; [done..|intros text|];
    intros l2 Hp2; by eapply ens_ret, quiet.
Qed.
End specs.
