(* ===== verification/MySqlTheorems.v ===== *)
(** * The MySQL game store as a whole

    The contracts of its methods, put together as one specification of calls; every
    commit keeps the database in order. The store is an instance of the interface
    with its laws, so the protocol service runs on it. *)
From stdpp Require Import pretty.
From S2P Require Import Prelude Card Table AccountStore GameStore GameStoreSpec MySqlDatabase MySqlClient MySqlGameStore MySqlCalls MySqlCommits MySqlInv MySqlSpecs.

(** ** Calls *)

Inductive MySqlCall :=
  | FindTable (id : Z)
  | ListOpenTables (limit : nat)
  | CountOpenTables (node : string)
  | CreateTable (table : TableRecord)
  | ReserveBuyIn (id user seat amount : Z) (key : string)
  | CashOut (id user : Z) (key : string)
  | BeginHand (hand : HandStartRecord)
  | AppendAction (action : HandActionRecord)
  | SettleHand (value : HandSettlementRecord)
  | AbortTable (id : Z).

Section theorems.
  Context `{!Collation}.

(** A call, and the error its answer carries. *)
Definition make (c : MySqlCall) : Db StorageError :=
  match c with
  | FindTable id => r ← findTable id; mret (sr_error r)
  | ListOpenTables limit => r ← listOpenTables limit; mret (sr_error r)
  | CountOpenTables node => r ← countOpenTables node; mret (sr_error r)
  | CreateTable t => createTable t
  | ReserveBuyIn id user seat amount key => r ← reserveBuyIn id user seat amount key; mret (sr_error r)
  | CashOut id user key => r ← cashOut id user key; mret (sr_error r)
  | BeginHand hand => beginHand hand
  | AppendAction x => appendAction x
  | SettleHand v => settleHand v
  | AbortTable id => abortTableAndRefund id
  end.

(** The change a call may commit. *)
Definition commits (c : MySqlCall) (b a : Database) : Prop :=
  match c with
  | FindTable _ | ListOpenTables _ | CountOpenTables _ => False
  | CreateTable t => table_commit t b a
  | ReserveBuyIn id user seat amount key => 0 < amount ∧ ∃ w, buy_in_commit id user seat amount key w b a
  | CashOut id user key => ∃ w stack, cash_out_commit id user key w stack b a
  | BeginHand hand => begin_hand_commit hand b a
  | AppendAction x => action_commit x b a ∨ a = b
  | SettleHand v => settle_commit v b a
  | AbortTable id => refund_commit id b a
  end.

(** The answers after a commit: it succeeded, or whether it did is not known; for
    two methods that is a conflict. *)
Definition committed_answer (c : MySqlCall) (e : StorageError) : Prop :=
  match c with
  | BeginHand _ => e = Storage_ok ∨ e = Storage_conflict
  | AppendAction _ => e ≠ Storage_duplicate
  | _ => e = Storage_ok ∨ e = Storage_unavailable
  end.

(** The answers without one: [ok] for a repeated call only. *)
Definition quiet_answer (c : MySqlCall) (d : Database) (e : StorageError) : Prop :=
  match c with
  | FindTable _ | ListOpenTables _ | CountOpenTables _ => True
  | ReserveBuyIn id user _ amount key =>
      e = Storage_ok → ∃ balance, receipt_in user key "table_buy_in" id (- amount) balance d
  | CashOut id user key =>
      e = Storage_ok → ∃ stack balance, receipt_in user key "table_cash_out" id stack balance d
  | AppendAction x => e ≠ Storage_ok ∧ (e = Storage_duplicate → stored x d)
  | AbortTable id => e = Storage_ok → ∃ t, db_tables d !! id = Some t ∧ pt_status t = Status_aborted
  | CreateTable _ | BeginHand _ | SettleHand _ => e ≠ Storage_ok
  end.

Section calls.
  Context (R : Database → Database → Prop) `{!PreOrder R} (l0 : Link) (Hothers : others_keep R l0).

Lemma outcome_mono {A B} (m : Db A) (f : A → B) P P' (Quiet : Database → A → Prop) (Quiet' : Database → B → Prop)
    (Done : Database → Database → A → Prop) (Done' : Database → Database → B → Prop) l :
  ens m (outcome R l0 P Quiet Done) l →
  (∀ d r, Quiet d r → Quiet' d (f r)) → (∀ b a r, P b a → Done b a r → P' b a ∧ Done' b a (f r)) →
  ens (r ← m; mret (f r)) (outcome R l0 P' Quiet' Done') l.
Proof.
  intros Hm Hq Hd. apply ens_bind. eapply ens_mono; [exact Hm|].
  intros r l' [(d & Hl & Hr)|(b & a & Hl & HP & Hr)]; apply ens_ret.
  - eapply quiet; [exact Hl|by apply Hq].
  - destruct (Hd b a r HP Hr). by eapply kept.
Qed.

Lemma outcome_weaken {A} (m : Db A) P (Quiet Quiet' : Database → A → Prop) (Done Done' : Database → Database → A → Prop) l :
  ens m (outcome R l0 P Quiet Done) l → (∀ d r, Quiet d r → Quiet' d r) → (∀ b a r, P b a → Done b a r → Done' b a r) →
  ens m (outcome R l0 P Quiet' Done') l.
Proof.
  intros Hm Hq Hd. eapply ens_mono; [exact Hm|].
  intros r l' [(d & Hl & Hr)|(b & a & Hl & HP & Hr)]; [eapply quiet|eapply kept]; eauto.
Qed.

Lemma make_spec c l :
  in_phase R l0 (Before (ln_db l)) l →
  ens (make c) (outcome R l0 (commits c) (quiet_answer c) (λ _ _ e, committed_answer c e)) l.
Proof using Hothers PreOrder0.
  intros Hp. destruct c; cbn.
  - eapply outcome_mono; [by apply (findTable_spec R l0 Hothers (λ _ _ _, True))|done|done].
  - eapply outcome_mono; [by apply (listOpenTables_spec R l0 Hothers (λ _ _ _, True))|done|done].
  - eapply outcome_mono; [by apply (countOpenTables_spec R l0 Hothers (λ _ _ _, True))|done|done].
  - eapply outcome_weaken; [by apply createTable_spec|by intros d r []|done].
  - eapply outcome_mono; [by apply reserveBuyIn_spec| |].
    + intros d r [Hok _] He. destruct (Hok He) as (balance & _ & ?). by exists balance.
    + intros b a r ? [(w & _ & ->)|?]; split; auto.
  - eapply outcome_mono; [by apply cashOut_spec| |].
    + intros d r Hok He. destruct (Hok He) as (balance & stack & _ & ?). by exists stack, balance.
    + intros b a r ? [(w & s & _ & _ & ->)|?]; split; auto.
  - eapply outcome_weaken; [by apply beginHand_spec|done|done].
  - eapply outcome_weaken; [by apply appendAction_spec|done|by intros b a r _ []].
  - eapply outcome_weaken; [by apply settleHand_spec|done|done].
  - eapply outcome_weaken; [by apply abortTable_spec|done|done].
Qed.
End calls.

(** ** Money *)

Lemma commits_keep c b a : commits c b a → keeps_db b a.
Proof.
  destruct c; cbn; [done|done|done|apply table_keeps| | |apply begin_keeps| |apply settle_keeps|apply refund_keeps].
  - intros [? [w ?]]. by eapply buy_in_keeps.
  - intros (w & stack & ?). by eapply cash_out_keeps.
  - intros [?| ->]; [by eapply action_keeps|done].
Qed.

(** ** The store as an instance of the interface *)

#[export] Instance mysql_game_store : GameStore Link := {
  gs_findTable := findTable;
  gs_listOpenTables := listOpenTables;
  gs_countOpenTables := countOpenTables;
  gs_createTable t l := let '(e, l') := createTable t l in (Ok e, l');
  gs_reserveBuyIn := reserveBuyIn;
  gs_cashOut := cashOut;
  gs_beginHand := beginHand;
  gs_appendAction := appendAction;
  gs_settleHand := settleHand;
  gs_abortTableAndRefund := abortTableAndRefund;
}.

(** An operation of the interface is one of the calls. *)
Lemma op_call (f : Link → Link) : gs_op f → ∃ c, ∀ l, f l = (make c l).2.
Proof.
  assert (∀ {A} (m : Db A) (g : A → StorageError) l, (m l).2 = ((r ← m; mret (g r) : Db StorageError) l).2) as Hbind.
  { intros A m g l. rw /mbind /Db_bind. by destruct (m l). }
  destruct 1 as [id|limit|node|t|id u seat amount key|id u key|hand|x|v|id].
  - exists (FindTable id). intros l. apply Hbind.
  - exists (ListOpenTables limit). intros l. apply Hbind.
  - exists (CountOpenTables node). intros l. apply Hbind.
  - exists (CreateTable t). intros l. cbn. by destruct (createTable t l).
  - exists (ReserveBuyIn id u seat amount key). intros l. apply Hbind.
  - exists (CashOut id u key). intros l. apply Hbind.
  - by exists (BeginHand hand).
  - by exists (AppendAction x).
  - by exists (SettleHand v).
  - by exists (AbortTable id).
Qed.
End theorems.
