(* ===== verification/MySqlAccountStore.v ===== *)
(** * The account store on MySQL

    Model of [mysql_account_store.hpp/.cpp]: its SQL statements on users, wallets
    and sessions, and every method as a computation over a connection.

    How the server reads hexadecimal digits, what a [BINARY(32)] column keeps and
    which times it knows is the class [SessionValues]. A session is kept under the
    32 bytes of its token; times in milliseconds are kept exactly by [TIMESTAMP(6)].
    The counter of [users] never goes back in the server, not even when a
    transaction is rolled back: the other clients of [wt_meanwhile] may move it. *)
From stdpp Require Import pretty.
From S2P Require Import Prelude AccountStore MySqlDatabase MySqlClient MySqlGameStore.

Class SessionValues := {
  (** [UNHEX(?)]; [None] is [NULL]. *)
  unhex : string → option string;
  (** The bytes a [BINARY(32)] column keeps of a value, if it takes it. *)
  binary32 : string → option string;
  (** Whether [FROM_UNIXTIME(? / 1000.0)] is not [NULL]. *)
  from_unixtime : Z → bool;
  (** Whether a [TIMESTAMP(6)] column takes it. *)
  timestamp6 : Z → bool;
}.

#[export] Instance SessionRow_eq_dec : EqDecision SessionRow.
Proof. solve_decision. Defined.

Section store.
  Context `{!Collation, !SessionValues}.
  Implicit Types (db : Database).

(** ** Statements on users *)

Definition named (name : string) (e : Z * UserRow) : bool := same_text (us_username e.2) name.

Definition sql_insert_user (name hash : string) db : Ran :=
  insert_row (fits_varchar 32 name && fits_varchar 255 hash && (db_next_user db <? u64_max))
    (existsb (named name) (map_to_list (db_users db))) true
    (set_users (<[db_next_user db := mkUserRow name hash false]> (db_users db)) (db_next_user db + 1) db).

Definition sql_insert_wallet (user balance : Z) db : Ran :=
  insert_row (balance_ok balance) (has user (db_wallets db)) (has user (db_users db))
    (set_wallets (<[user := balance]> (db_wallets db)) db).

(** [FROM users u JOIN wallets w ON w.user_id=u.id] *)
Definition user_record db (e : Z * UserRow) : option UserRecord :=
  balance ← db_wallets db !! e.1;
  Some (mkUser e.1 (us_username e.2) (us_password_hash e.2) balance (us_disabled e.2)).

Definition sql_user_by_name (name : string) db : option UserRecord :=
  e ← List.find (named name) (map_to_list (db_users db)); user_record db e.

Definition sql_user_by_id (user : Z) db : option UserRecord :=
  row ← db_users db !! user; user_record db (user, row).

(** ** Statements on sessions *)

Definition sql_insert_session (s : SessionRecord) db : Ran :=
  match unhex (token_hash s) ≫= binary32 with
  | None => Refused false
  | Some bytes =>
      insert_row (timestamp6 (expires_at s)) (has bytes (db_sessions db)) (has (session_user s) (db_users db))
        (set_sessions (<[bytes := mkSessionRow (session_user s) (last_client_sequence s) (expires_at s) false]>
          (db_sessions db)) db)
  end.

(** The session that [token_hash=UNHEX(?)] selects, with its key. *)
Definition session_of (token : string) db : option (string * SessionRow) :=
  bytes ← unhex token; row ← db_sessions db !! bytes; Some (bytes, row).

(** [revoked_at IS NULL AND expires_at>FROM_UNIXTIME(? / 1000.0)] *)
Definition is_live (now : Z) (row : SessionRow) : bool :=
  negb (ss_revoked row) && from_unixtime now && (now <? ss_expires_at row).

Definition sql_live_session (token : string) (now : Z) db : option SessionRow :=
  e ← session_of token db; if is_live now e.2 then Some e.2 else None.

(** [UPDATE sessions SET token_hash=UNHEX(?),... WHERE token_hash=UNHEX(?) AND user_id=? AND ...] *)
Definition sql_rotate_session (current : string) (s : SessionRecord) (now : Z) db : Ran :=
  match session_of current db with
  | Some (key, row) =>
      if (ss_user_id row =? session_user s) && is_live now row then
        match unhex (token_hash s) ≫= binary32 with
        | None => Refused false
        | Some bytes =>
            let new := mkSessionRow (ss_user_id row) (last_client_sequence s) (expires_at s) (ss_revoked row) in
            if negb (timestamp6 (expires_at s)) then Refused false
            else if negb (bool_decide (bytes = key)) && has bytes (db_sessions db) then Refused true
            else Changed (if bool_decide (bytes = key ∧ new = row) then 0%nat else 1%nat)
                   (set_sessions (<[bytes := new]> (delete key (db_sessions db))) db)
        end
      else Changed 0 db
  | None => Changed 0 db
  end.

Definition revoked_row (row : SessionRow) : SessionRow :=
  mkSessionRow (ss_user_id row) (ss_last_client_sequence row) (ss_expires_at row) true.

(** [UPDATE sessions SET revoked_at=CURRENT_TIMESTAMP(6) WHERE token_hash=UNHEX(?) AND revoked_at IS NULL] *)
Definition sql_revoke_session (token : string) db : Ran :=
  match session_of token db with
  | Some (key, row) =>
      if ss_revoked row then Changed 0 db
      else Changed 1 (set_sessions (<[key := revoked_row row]> (db_sessions db)) db)
  | None => Changed 0 db
  end.

Definition with_sequence (sequence : Z) (row : SessionRow) : SessionRow :=
  mkSessionRow (ss_user_id row) sequence (ss_expires_at row) (ss_revoked row).

(** [UPDATE sessions SET last_client_sequence=? WHERE token_hash=UNHEX(?) AND last_client_sequence=? AND ...] *)
Definition sql_update_sequence (token : string) (expected replacement : Z) db : Ran :=
  match session_of token db with
  | Some (key, row) =>
      if (ss_last_client_sequence row =? expected) && negb (ss_revoked row) then
        Changed (if replacement =? expected then 0%nat else 1%nat)
          (set_sessions (<[key := with_sequence replacement row]> (db_sessions db)) db)
      else Changed 0 db
  | None => Changed 0 db
  end.

(** ** Users *)

(** [mysql_insert_id]: the id the last insert was given; the transaction is open,
    so that no other client has been at the counter. *)
Definition mysql_insert_id : Db Z := db ← database; mret (db_next_user db - 1).

Definition initial_key (user : Z) : string := "initial:" +:+ pretty (Z.to_N user).

(** The error message of a step that failed. *)
Definition error_text (e : option Executed) : string :=
  match e with Some e => ex_error e | None => "prepare failed" end.

(** From the insertion of the user to [mysql_commit]. *)
Definition create_user_transaction (name hash : string) (initial_chips : Z) : Db (StorageResult UserRecord) :=
  inserted ← run_all [sql_insert_user name hash];
  if negb (was_ok inserted) then
    abandon (sr_fail (if was_duplicate inserted then Storage_duplicate else Storage_unavailable) (error_text inserted))
  else
    user_id ← mysql_insert_id;
    wallet ← run_all [sql_insert_wallet user_id initial_chips];
    if negb (was_ok wallet) then abandon (sr_fail Storage_unavailable (error_text wallet))
    else
      granted ← run_all [sql_insert_ledger (mkLedgerRow user_id (initial_key user_id) initial_chips initial_chips
                           "initial_grant" None)];
      kept ← (if was_ok granted then mysql_commit else mret false : Db bool);
      if (kept : bool) then autocommit_on ;;; mret (sr_ok (mkUser user_id name hash initial_chips false))
      else abandon (sr_fail Storage_unavailable (error_text granted)).

Definition createUser (name hash : string) (initial_chips : Z) : Db (StorageResult UserRecord) :=
  with_lease (sr_fail Storage_unavailable "mysql pool is exhausted") (
    error ← call;
    match error with
    | Some text => mret (sr_fail Storage_unavailable text)
    | None => open_transaction ;;; create_user_transaction name hash initial_chips
    end).

(** The buffers hold 33 and 256 bytes. *)
Definition user_truncated (u : UserRecord) : bool :=
  (33 <? String.length (username u))%nat || (256 <? String.length (password_hash u))%nat.

Definition fetchUser (query : Database → option UserRecord) : Db (StorageResult UserRecord) :=
  ok ← prepare;
  if (ok : bool) then
    rows ← select query;
    match rows with
    | inl text => mret (sr_fail Storage_unavailable text)
    | inr row =>
        fetched ← fetch_row user_truncated row;
        mret match fetched with
             | inl text => sr_fail Storage_unavailable text
             | inr None => sr_fail Storage_not_found "user not found"
             | inr (Some user) => sr_ok user
             end
    end
  else mret (sr_fail Storage_unavailable "could not prepare user query").

Definition findUserByName (name : string) : Db (StorageResult UserRecord) :=
  with_lease (sr_fail Storage_unavailable "mysql pool is exhausted") (fetchUser (sql_user_by_name name)).

Definition findUserById (user : Z) : Db (StorageResult UserRecord) :=
  with_lease (sr_fail Storage_unavailable "mysql pool is exhausted") (fetchUser (sql_user_by_id user)).

(** ** Sessions *)

Definition storeSession (session : SessionRecord) : Db StorageError :=
  with_lease Storage_unavailable (
    e ← run_all [sql_insert_session session];
    mret (if was_ok e then Storage_ok
          else if was_duplicate e then Storage_conflict else Storage_unavailable)).

Definition findSession (token : string) (now : Z) : Db (StorageResult SessionRecord) :=
  with_lease (sr_fail Storage_unavailable "mysql pool is exhausted") (
    ok ← prepare;
    if (ok : bool) then
      rows ← select (sql_live_session token now);
      match rows with
      | inl text => mret (sr_fail Storage_unavailable text)
      | inr row =>
          fetched ← fetch_row (λ _, false) row;
          mret match fetched with
               | inl text => sr_fail Storage_unavailable text
               | inr None => sr_fail Storage_not_found "session not found"
               | inr (Some row) =>
                   sr_ok (mkSession (ss_user_id row) token (ss_expires_at row) (ss_last_client_sequence row) false)
               end
      end
    else mret (sr_fail Storage_unavailable "could not prepare session query")).

Definition rotateSession (current : string) (replacement : SessionRecord) (now : Z) : Db StorageError :=
  if (session_user replacement =? 0) || bool_decide (token_hash replacement = ""%string)
     || (expires_at replacement <=? now)
  then mret Storage_invalid_data
  else
    with_lease Storage_unavailable (
      e ← run_all [sql_rotate_session current replacement now];
      mret (if was_ok e then if changed_one e then Storage_ok else Storage_not_found
            else if was_duplicate e then Storage_conflict else Storage_unavailable)).

(** One statement on a session that reports [not_found] or [conflict] when it
    changes no row. *)
Definition write_session (statement : Database → Ran) (unchanged : StorageError) : Db StorageError :=
  e ← run_all [statement];
  mret (if was_ok e then if changed_one e then Storage_ok else unchanged else Storage_unavailable).

Definition executeSessionWrite (statement : Database → Ran) : Db StorageError :=
  with_lease Storage_unavailable (write_session statement Storage_not_found).

Definition revokeSession (token : string) : Db StorageError := executeSessionWrite (sql_revoke_session token).

Definition updateSessionSequence (token : string) (expected replacement : Z) : Db StorageError :=
  with_lease Storage_unavailable (
    if negb (replacement =? u64_succ expected) then mret Storage_conflict
    else write_session (sql_update_sequence token expected replacement) Storage_conflict).
End store.
