(* ===== verification/MySqlAccounts.v ===== *)
(** * Contracts of the MySQL account store

    What each method of [MySqlAccountStore] commits, the invariant of accounts that
    every commit keeps, and, over every behaviour of the library and of other
    clients, that a call commits nothing or exactly that. *)
From stdpp Require Import pretty.
From S2P Require Import Prelude Card Table AccountStore GameStore GameStoreLib GameStoreInv MySqlDatabase MySqlClient MySqlGameStore MySqlAccountStore MySqlCalls MySqlCommits MySqlInv MySqlSpecs MySqlTheorems.

Section accounts.
  Context `{!Collation, !SessionValues}.
  Implicit Types (b a db : Database).

(** ** The changes *)

Definition grant_row (user chips : Z) : LedgerRow :=
  mkLedgerRow user (initial_key user) chips chips "initial_grant" None.

Record user_commit (name hash : string) (chips : Z) b a : Prop := {
  uc_name : existsb (named name) (map_to_list (db_users b)) = false;
  uc_next : db_next_user b < u64_max;
  uc_wallet : db_wallets b !! db_next_user b = None;
  uc_chips : 0 ≤ chips ≤ i64_max;
  uc_after : a =
    set_ledger (db_ledger b ++ [grant_row (db_next_user b) chips])
      (set_wallets (<[db_next_user b := chips]> (db_wallets b))
        (set_users (<[db_next_user b := mkUserRow name hash false]> (db_users b)) (db_next_user b + 1) b));
}.

Definition session_row (x : SessionRecord) : SessionRow :=
  mkSessionRow (session_user x) (last_client_sequence x) (expires_at x) false.

Definition store_commit (x : SessionRecord) b a : Prop :=
  ∃ bytes, unhex (token_hash x) ≫= binary32 = Some bytes ∧ db_sessions b !! bytes = None ∧
    is_Some (db_users b !! session_user x) ∧ a = set_sessions (<[bytes := session_row x]> (db_sessions b)) b.

Definition rotate_commit (current : string) (x : SessionRecord) (now : Z) b a : Prop :=
  session_user x ≠ 0 ∧ token_hash x ≠ ""%string ∧ now < expires_at x ∧
  ∃ key row bytes, session_of current b = Some (key, row) ∧ ss_user_id row = session_user x ∧
    is_live now row = true ∧ unhex (token_hash x) ≫= binary32 = Some bytes ∧
    (bytes = key ∨ db_sessions b !! bytes = None) ∧
    a = set_sessions (<[bytes := session_row x]> (delete key (db_sessions b))) b.

Definition revoke_commit (token : string) b a : Prop :=
  ∃ key row, session_of token b = Some (key, row) ∧ ss_revoked row = false ∧
    a = set_sessions (<[key := revoked_row row]> (db_sessions b)) b.

Definition sequence_commit (token : string) (expected replacement : Z) b a : Prop :=
  ∃ key row, session_of token b = Some (key, row) ∧ ss_last_client_sequence row = expected ∧
    ss_revoked row = false ∧ replacement = u64_succ expected ∧
    a = set_sessions (<[key := with_sequence replacement row]> (db_sessions b)) b.

(** ** The invariant *)

Record accounts_ok db : Prop := {
  ac_next : 0 < db_next_user db ≤ u64_max;
  ac_users : ∀ i row, db_users db !! i = Some row → 0 < i < db_next_user db;
  ac_names : ∀ i j row row', db_users db !! i = Some row → db_users db !! j = Some row' →
    same_text (us_username row) (us_username row') = true → i = j;
  ac_wallets : ∀ i, is_Some (db_wallets db !! i) → is_Some (db_users db !! i);
  ac_sessions : ∀ k row, db_sessions db !! k = Some row → is_Some (db_users db !! ss_user_id row);
}.

(** What clients of both stores may do to the database. *)
Definition keeps_stores b a : Prop :=
  db_ok b ∧ accounts_ok b →
  (db_ok a ∧ accounts_ok a) ∧ db_ledger b `prefix_of` db_ledger a ∧ db_users b ⊆ db_users a.

#[export] Instance keeps_stores_preorder : PreOrder keeps_stores.
Proof.
  split; [by intros db [? ?]; split_and!|]. intros d1 d2 d3 H12 H23 H1.
  destruct (H12 H1) as (H2 & ? & ?). destruct (H23 H2) as (? & ? & ?).
  split; [done|]. split; by etrans.
Qed.

Lemma named_false name db i row :
  existsb (named name) (map_to_list (db_users db)) = false → db_users db !! i = Some row →
  same_text (us_username row) name = false.
Proof.
  intros Hnone Hi. apply not_true_iff_false. intros Hn.
  assert (existsb (named name) (map_to_list (db_users db)) = true); [|congruence].
  apply existsb_exists. exists (i, row). split; [by apply list_elem_of_In, elem_of_map_to_list|done].
Qed.

Lemma same_text_sym x y : same_text x y = same_text y x.
Proof. rw /same_text. by apply bool_decide_ext. Qed.

(** A new user's wallet and the row for it. *)
Lemma money_grant w s l user grant :
  money_ok w s l → w !! user = None → 0 ≤ grant ≤ i64_max →
  money_ok (<[user := grant]> w) s (l ++ [grant_row user grant]).
Proof.
  intros [Hw Hl Hk Hs Hc] Hnone Hrange.
  assert (∀ r, r ∈ l → wl_user_id r ≠ user) as Hother.
  { intros r Hr Heq. destruct (Hl r Hr) as [x Hx]. congruence. }
  assert (moved user l = 0) as Hzero.
  { clear -Hother. rw /moved. induction l as [|r l IH]; [done|]. cbn.
    rw (proj2 (Z.eqb_neq _ _)); [by apply Hother; left|]. apply IH. intros x Hx. apply Hother. by right. }
  assert (∀ v, is_Some (w !! v) → is_Some (<[user := grant]> w !! v)) as Hsome.
  { intros v. apply is_Some_insert_mono. }
  split.
  - intros v x. rw moved_app {2}/moved /= lookup_insert_Some. intros [[<- <-]|[Hne Hx]].
    + rw Z.eqb_refl Hzero. split; [done|lia].
    + destruct (Hw v x Hx) as [? ->]. rw (proj2 (Z.eqb_neq user v)) //. split; [done|lia].
  - intros x. rw elem_of_app list_elem_of_singleton. intros [Hx| ->]; [by apply Hsome, Hl|].
    cbn. rw lookup_insert_eq. by eexists.
  - apply keys_snoc; [done|]. apply not_true_iff_false. intros (r & Hr & Hkey)%existsb_exists.
    apply list_elem_of_In in Hr. rw /has_key /= in Hkey. guards. by apply (Hother r).
  - intros t v x Hx. destruct (Hs t v x Hx) as (? & ? & ?). split_and!; [done..|by apply Hsome].
  - rw granted_app {2}/granted /= -Hc /chips (sumM_insert_new _ _ user) //. lia.
Qed.

Lemma user_keeps name hash chips b a :
  user_commit name hash chips b a →
  keeps_stores b a ∧ granted (db_ledger a) = granted (db_ledger b) + chips.
Proof.
  intros [Hname Hnext Hnone Hchips ->]. split; [|by rw /= granted_app {2}/granted /= Z.add_0_r].
  intros [[Hm Hs Hh Hb] [Hn Hu Hnm Hw Hse]].
  assert (db_users b !! db_next_user b = None) as Hfresh.
  { apply eq_None_not_Some. intros [row Hrow]. apply Hu in Hrow. lia. }
  assert (∀ i, is_Some (db_users b !! i) →
    is_Some (<[db_next_user b := mkUserRow name hash false]> (db_users b) !! i)) as Hsome.
  { intros i. apply is_Some_insert_mono. }
  split_and!.
  - split; cbn; [by apply money_grant|done..].
  - split; cbn; [lia| | | |].
    + intros i row. rw lookup_insert_Some. intros [[<- _]|[_ Hi]]; [lia|]. apply Hu in Hi. lia.
    + intros i j r1 r2. rw !lookup_insert_Some. intros [[<- <-]|[_ Hi]] [[<- <-]|[_ Hj]] Hsame; [done| | |by eapply Hnm].
      * rw same_text_sym (named_false _ _ _ _ Hname Hj) in Hsame. done.
      * by rw (named_false _ _ _ _ Hname Hi) in Hsame.
    + intros i [x [[<- _]|[_ Hi]]%lookup_insert_Some]; [rw lookup_insert_eq; by eexists|]. by apply Hsome, Hw; eexists.
    + intros k row Hk. by eapply Hsome, Hse.
  - by apply prefix_app_r.
  - by apply insert_subseteq.
Qed.

(** Changes of sessions. *)
Lemma sessions_keep m b :
  (∀ k row, m !! k = Some row → is_Some (db_users b !! ss_user_id row) ∨
     ∃ k' row', db_sessions b !! k' = Some row' ∧ ss_user_id row = ss_user_id row') →
  keeps_stores b (set_sessions m b) ∧ granted (db_ledger (set_sessions m b)) = granted (db_ledger b).
Proof.
  intros Hm. split; [|done]. intros [[] [Hn Hu Hnm Hw Hse]]. split_and!; [done| |done..]. split; [done..|]. cbn.
  intros k row Hk. destruct (Hm k row Hk) as [?|(k' & row' & ? & ->)]; [done|by eapply Hse].
Qed.

Lemma session_of_Some token db key row :
  session_of token db = Some (key, row) ↔ unhex token = Some key ∧ db_sessions db !! key = Some row.
Proof.
  rw /session_of. destruct (unhex token) as [k|]; cbn; [|naive_solver].
  destruct (db_sessions db !! k) as [r|] eqn:Hr; cbn; [|naive_solver congruence]. naive_solver congruence.
Qed.
End accounts.

(** ** Statements as changes *)

Section statements.
  Context `{!Collation, !SessionValues}.
  Implicit Types (b a db : Database).

Lemma insert_session_commit x n b a : sql_insert_session x b = Changed n a → store_commit x b a.
Proof.
  rw /sql_insert_session. destruct (_ ≫= _) as [bytes|] eqn:Hbytes; [|done].
  intros (_ & Hfree & Hu%bool_decide_eq_true & _ & ->)%insert_row_Changed.
  apply bool_decide_eq_false, eq_None_not_Some in Hfree.
  by exists bytes.
Qed.

Lemma rotate_session_commit current x now n b a :
  session_user x ≠ 0 → token_hash x ≠ ""%string → now < expires_at x → sql_rotate_session current x now b = Changed n a →
  (rotate_commit current x now b a ∨ a = b) ∧ (n = 1%nat → rotate_commit current x now b a).
Proof.
  intros Huser Htoken Hexpires. rw /sql_rotate_session. destruct (session_of current b) as [[key row]|] eqn:Hrow; [|intros [= <- <-]; by split; [right|]].
  destruct (_ && _) eqn:Hlive; [|intros [= <- <-]; by split; [right|]]. apply andb_true_iff in Hlive as [Hu%Z.eqb_eq Hlive].
  destruct (_ ≫= _) as [bytes|] eqn:Hbytes; [|done]. destruct (timestamp6 _); [|done]. cbn.
  destruct (negb _ && _) eqn:Hdup; [done|]. intros [= _ <-].
  assert (rotate_commit current x now b (set_sessions (<[bytes := mkSessionRow (ss_user_id row) (last_client_sequence x)
    (expires_at x) (ss_revoked row)]> (delete key (db_sessions b))) b)) as Hc; [|by auto].
  split_and!; [done..|]. exists key, row, bytes. split_and!; [done..| |].
  - apply andb_false_iff in Hdup as [Heq|Hfree]; guards; [by left|].
    right. apply bool_decide_eq_false in Hfree. by apply eq_None_not_Some.
  - rw /session_row Hu. rw /is_live in Hlive. guards. congruence.
Qed.

Lemma revoke_session_commit token n b a :
  sql_revoke_session token b = Changed n a →
  (revoke_commit token b a ∨ a = b) ∧ (n = 1%nat → revoke_commit token b a).
Proof.
  rw /sql_revoke_session. destruct (session_of token b) as [[key row]|] eqn:Hrow; [|intros [= <- <-]; by split; [right|]].
  destruct (ss_revoked row) eqn:Hr; intros [= <- <-]; [by split; [right|]|].
  assert (revoke_commit token b (set_sessions (<[key := revoked_row row]> (db_sessions b)) b)); [|by auto].
  by exists key, row.
Qed.

Lemma update_sequence_commit token expected replacement n b a :
  replacement = u64_succ expected → sql_update_sequence token expected replacement b = Changed n a →
  (sequence_commit token expected replacement b a ∨ a = b) ∧ (n = 1%nat → sequence_commit token expected replacement b a).
Proof.
  intros Hr. rw /sql_update_sequence. destruct (session_of token b) as [[key row]|] eqn:Hrow; [|intros [= <- <-]; by split; [right|]].
  destruct (_ && _) eqn:Hmatch; [|intros [= <- <-]; by split; [right|]]. guards. intros [= _ <-].
  assert (sequence_commit token expected replacement b
    (set_sessions (<[key := with_sequence replacement row]> (db_sessions b)) b)); [|by auto].
  by exists key, row.
Qed.

Lemma create_user_statements name hash chips n1 n2 n3 b d1 d2 a :
  apply_all [sql_insert_user name hash] 0 b = Some (n1, d1) →
  apply_all [sql_insert_wallet (db_next_user d1 - 1) chips] 0 d1 = Some (n2, d2) →
  apply_all [sql_insert_ledger (grant_row (db_next_user d1 - 1) chips)] 0 d2 = Some (n3, a) →
  user_commit name hash chips b a ∧ db_next_user d1 - 1 = db_next_user b.
Proof.
  cbn. destruct (sql_insert_user _ _ _) as [m1 e1|] eqn:H1; [|done].
  apply insert_row_Changed in H1 as (Hchecks & Hname & _ & -> & ->). intros [= <- <-]. cbn.
  replace (db_next_user b + 1 - 1) with (db_next_user b) by lia.
  destruct (sql_insert_wallet _ _ _) as [m2 e2|] eqn:H2; [|done].
  apply insert_row_Changed in H2 as (Hbalance & Hfree & _ & -> & ->). intros [= <- <-].
  destruct (sql_insert_ledger _ _) as [m3 e3|] eqn:H3; [|done].
  apply insert_row_Changed in H3 as (_ & Hkey & _ & -> & ->). intros [= <- <-]. split; [|done].
  apply bool_decide_eq_false, eq_None_not_Some in Hfree.
  rw /balance_ok /bigint in Hbalance. guards. split; try done; cbn in *; lia.
Qed.
End statements.

(** ** Contracts *)

#[global] Arguments mysql_insert_id : simpl never.
#[global] Arguments fetchUser : simpl never.

Section contracts.
  Context `{!Collation, !SessionValues} (R : Database → Database → Prop) `{!PreOrder R} (l0 : Link).
  Context (Hothers : others_keep R l0).

Notation in_phase := (in_phase R l0).
Notation outcome := (outcome R l0).

(** A statement of a transaction that fails on a key says so. *)
Lemma run_one_within s b d l (Q : option Executed → Link → Prop) :
  in_phase (Within b d) l →
  (∀ e d' l', was_ok e = false → (was_duplicate e = true → s d = Refused true) → in_phase (Within b d') l' → Q e l') →
  (∀ n d' l', apply_all [s] 0 d = Some (n, d') → in_phase (Within b d') l' →
     Q (Some (mkExecuted true n false "")) l') →
  ens (run_all [s]) Q l.
Proof using Hothers PreOrder0.
  intros Hp Hfail Hok. apply ens_bind. eapply phase_prepare_all; [done..|]. intros [] l1 Hp1.
  2: { apply ens_ret. by eapply Hfail. }
  apply ens_bind, ens_bind. rw {1}/execute. apply ens_bind. rw {1}/ens. destruct (arrive l1) as [w l2] eqn:Ha. cbn.
  assert (in_phase (Within b d) l2) as Hp2 by (pose proof (phase_arrive R l0 Hothers _ _ Hp1) as Har; by rw Ha in Har).
  pose proof Hp2 as (Hw & Hs & Hc & Hb & Hd). cbn. apply ens_bind. rw {1}/ens /= Hd.
  assert (∀ a, in_phase (Within b a) (change a l2).2) as Hchange.
  { intros a. rw /change Hs /in_phase /=. by split_and!. }
  cbn in Hok. destruct (wt_error w) as [text|], (s d) as [n a|duplicate] eqn:Hsd; cbn.
  - destruct (wt_carried_out w); cbn; [by eapply (Hfail _ a)|by eapply (Hfail _ d)].
  - by eapply (Hfail _ d).
  - by eapply Hok.
  - eapply (Hfail _ d); [done| |exact Hp2]. cbn. by intros ->.
Qed.

Definition name_taken (name : string) (d : Database) (r : StorageResult UserRecord) : Prop :=
  sr_error r ≠ Storage_ok ∧ (sr_error r = Storage_duplicate → ∃ i row, db_users d !! i = Some row ∧ same_text (us_username row) name = true).

Lemma insert_user_duplicate name hash d :
  sql_insert_user name hash d = Refused true → ∃ i row, db_users d !! i = Some row ∧ same_text (us_username row) name = true.
Proof.
  intros ([i row] & Hin & Hn)%insert_row_duplicate%existsb_exists. exists i, row. split; [|done].
  by apply elem_of_map_to_list, list_elem_of_In.
Qed.

Definition registered (name hash : string) (chips : Z) (b a : Database) (r : StorageResult UserRecord) : Prop :=
  r = sr_ok (mkUser (db_next_user b) name hash chips false) ∨ sr_error r = Storage_unavailable.

Lemma create_user_transaction_spec name hash chips b l :
  in_phase (Within b b) l →
  ens (create_user_transaction name hash chips)
    (outcome (user_commit name hash chips) (name_taken name) (registered name hash chips)) l.
Proof using Hothers PreOrder0.
  intros Hp. apply ens_bind. eapply run_one_within; [done|..].
  { intros e d l4 He Hdup Hp4. rw He /=. eapply ens_abandon; [done..|]. split; cbn; [by destruct (was_duplicate e)|].
    destruct (was_duplicate e); [|done]. intros _. by eapply insert_user_duplicate, Hdup. }
  intros n1 d1 l4 Hn1 Hp4. cbn. apply ens_bind. rw {1}/mysql_insert_id. apply ens_bind, ens_ret. cbn.
  pose proof Hp4 as (Hw & Hs & Hc & Hb & Hd). rw Hd.
  apply ens_bind. eapply run_within; [done..| |].
  { intros e d l5 He _ Hp5. rw He /=. by eapply ens_abandon. }
  intros n2 d2 l5 Hn2 Hp5. cbn. apply ens_bind. eapply run_within; [done..| |].
  { intros e d l6 He _ Hp6. rw He. apply ens_bind, ens_ret. by eapply ens_abandon. }
  intros n3 a l6 Hn3 Hp6. destruct (create_user_statements _ _ _ _ _ _ _ _ _ _ Hn1 Hn2 Hn3) as [Hcommit ->].
  cbn. apply ens_bind. eapply phase_mysql_commit; [done..| |].
  - intros l7 Hp7. apply ens_bind. eapply closed_autocommit_on; [done..|intros ?; apply after_closed|].
    intros l8 Hp8. eapply ens_ret, kept; [done..|by left].
  - intros l7 [Hp7|Hp7]; [by eapply ens_abandon|].
    apply ens_bind. eapply rollback_closed; [done..|intros ?; apply after_closed|]. intros l8 Hp8.
    eapply ens_ret, kept; [done..|by right].
Qed.

Lemma createUser_spec name hash chips l :
  in_phase (Before (ln_db l)) l →
  ens (createUser name hash chips)
    (outcome (user_commit name hash chips) (name_taken name) (registered name hash chips)) l.
Proof using Hothers PreOrder0.
  intros Hp. eapply ens_with_lease; [done..|]. intros l1 Hp1. apply ens_bind. eapply phase_call; [done..|].
  intros [text|] l2 Hp2; [by eapply ens_ret, quiet|]. apply ens_bind. rw {1}/ens /=.
  apply (create_user_transaction_spec name hash chips (ln_db l2)).
  destruct Hp2 as (Hw & Hs & Hc & H1 & H2). split_and!; [done..|by etrans|done].
Qed.

(** What a query for a user answers. *)
Definition found_user (query : Database → option UserRecord) (d : Database) (r : StorageResult UserRecord) : Prop :=
  (sr_error r = Storage_ok → ∃ u, query d = Some u ∧ r = sr_ok u) ∧ (sr_error r = Storage_not_found → query d = None).

Lemma fetchUser_spec Done query unavailable l :
  sr_error unavailable = Storage_unavailable → in_phase (Before (ln_db l)) l →
  ens (with_lease unavailable (fetchUser query)) (outcome never (found_user query) Done) l.
Proof using Hothers PreOrder0.
  intros Hu Hp. eapply lease_query; [done..|by intros d; rw /found_user Hu|done|].
  intros d l1 Hp1. apply ens_bind. eapply phase_fetch_row; [done..| |].
  - intros text l2 Hp2. by eapply ens_ret, quiet.
  - intros l2 Hp2. eapply ens_ret, quiet; [done|]. rw /found_user. destruct (query d) as [u|]; [|done].
    split; [intros _; by exists u|done].
Qed.

Definition found_session (token : string) (now : Z) (d : Database) (r : StorageResult SessionRecord) : Prop :=
  (sr_error r = Storage_ok → ∃ key row, session_of token d = Some (key, row) ∧ is_live now row = true ∧
     r = sr_ok (mkSession (ss_user_id row) token (ss_expires_at row) (ss_last_client_sequence row) false)) ∧
  (sr_error r = Storage_not_found → sql_live_session token now d = None).

Lemma findSession_spec Done token now l :
  in_phase (Before (ln_db l)) l → ens (findSession token now) (outcome never (found_session token now) Done) l.
Proof using Hothers PreOrder0.
  intros Hp. eapply lease_query; [done..|]. intros d l1 Hp1. apply ens_bind. eapply phase_fetch_row; [done..| |].
  - intros text l2 Hp2. by eapply ens_ret, quiet.
  - intros l2 Hp2. eapply ens_ret, quiet; [done|]. rw /found_session.
    destruct (sql_live_session token now d) as [row|] eqn:Hrow; [|done]. split; [intros _|done].
    rw /sql_live_session in Hrow. destruct (session_of token d) as [[key row']|]; [|done]. cbn in Hrow.
    destruct (is_live now row') eqn:Hlive; simplify_eq. by exists key, row.
Qed.

(** One statement outside of transactions, under a lease. *)
Lemma lease_statement (s : Database → Ran) (P : Database → Database → Prop) (answer : option Executed → StorageError) l :
  (∀ n b a, s b = Changed n a → (P b a ∨ a = b) ∧ (answer (Some (mkExecuted true n false "")) = Storage_ok → P b a)) →
  (∀ e, was_ok e = false → answer e ≠ Storage_ok) →
  in_phase (Before (ln_db l)) l →
  ens (with_lease Storage_unavailable (e ← run_all [s]; mret (answer e)))
    (outcome (λ b a, P b a ∨ a = b) refused (λ b a e, e = Storage_ok → P b a)) l.
Proof using Hothers PreOrder0.
  intros Hs Hanswer Hp. eapply ens_with_lease; [done..|]. intros l1 Hp1.
  apply ens_bind. eapply run_before; [done..| | |].
  - intros e d l2 He _ _ Hp2. eapply ens_ret, quiet; [done|]. by apply Hanswer.
  - intros e n b a l2 He _ _ Hn Hp2. destruct (Hs n b a Hn) as [? _]. eapply ens_ret, kept; [done..|].
    intros Hok. by destruct (Hanswer e He).
  - intros n b a l2 Hn Hp2. destruct (Hs n b a Hn) as [? ?]. by eapply ens_ret, kept.
Qed.

Lemma storeSession_spec x l :
  in_phase (Before (ln_db l)) l →
  ens (storeSession x) (outcome (λ b a, store_commit x b a ∨ a = b) refused (λ b a e, e = Storage_ok → store_commit x b a)) l.
Proof using Hothers PreOrder0.
  apply (lease_statement _ _ (λ e, if was_ok e then Storage_ok
    else if was_duplicate e then Storage_conflict else Storage_unavailable)).
  - intros n b a Hn%insert_session_commit. by auto.
  - intros e ->. by destruct (was_duplicate e).
Qed.

Lemma rotateSession_spec current x now l :
  in_phase (Before (ln_db l)) l →
  ens (rotateSession current x now)
    (outcome (λ b a, rotate_commit current x now b a ∨ a = b) refused
       (λ b a e, e = Storage_ok → rotate_commit current x now b a)) l.
Proof using Hothers PreOrder0.
  intros Hp. rw /rotateSession. destruct (_ || _) eqn:Hbad; [by eapply ens_ret, quiet|]. guards. revert Hp.
  apply (lease_statement _ _ (λ e, if was_ok e then if changed_one e then Storage_ok else Storage_not_found
    else if was_duplicate e then Storage_conflict else Storage_unavailable)).
  - intros n b a Hn. destruct (rotate_session_commit current x now n b a) as [? Hone]; [done..|]. split; [done|]. cbn.
    destruct (Nat.eqb_spec n 1); [by auto|done].
  - intros e ->. by destruct (was_duplicate e).
Qed.

Lemma revokeSession_spec token l :
  in_phase (Before (ln_db l)) l →
  ens (revokeSession token)
    (outcome (λ b a, revoke_commit token b a ∨ a = b) refused (λ b a e, e = Storage_ok → revoke_commit token b a)) l.
Proof using Hothers PreOrder0.
  apply (lease_statement _ _ (λ e, if was_ok e then if changed_one e then Storage_ok else Storage_not_found
    else Storage_unavailable)).
  - intros n b a [? Hone]%revoke_session_commit. split; [done|]. cbn. destruct (Nat.eqb_spec n 1); [by auto|done].
  - by intros e ->.
Qed.

Lemma updateSessionSequence_spec token expected replacement l :
  in_phase (Before (ln_db l)) l →
  ens (updateSessionSequence token expected replacement)
    (outcome (λ b a, sequence_commit token expected replacement b a ∨ a = b) refused
       (λ b a e, e = Storage_ok → sequence_commit token expected replacement b a)) l.
Proof using Hothers PreOrder0.
  intros Hp. rw /updateSessionSequence. destruct (Z.eqb_spec replacement (u64_succ expected)) as [Hr|]; cbn [negb].
  - revert Hp. apply (lease_statement _ _ (λ e, if was_ok e then if changed_one e then Storage_ok else Storage_conflict
      else Storage_unavailable)).
    + intros n b a Hn. destruct (update_sequence_commit _ _ _ _ _ _ Hr Hn) as [? Hone]. split; [done|]. cbn.
      destruct (Nat.eqb_spec n 1); [by auto|done].
    + by intros e ->.
  - eapply ens_with_lease; [done..|]. intros l1 Hp1. by eapply ens_ret, quiet.
Qed.
End contracts.
