(* ===== verification/MySqlStores.v ===== *)
(** * Both stores on one database

    The calls of the account store and of the game store, in any order and with any
    failures, by this client and by others. *)
From stdpp Require Import pretty.
From S2P Require Import Prelude Card Table AccountStore GameStore GameStoreLib GameStoreInv GameStoreSpec MySqlDatabase MySqlClient MySqlGameStore MySqlCalls MySqlCommits MySqlInv MySqlSpecs MySqlTheorems.
From S2P Require MySqlAccountStore.
From S2P Require Import MySqlAccounts.

Notation SessionValues := MySqlAccountStore.SessionValues.
Notation unhex := MySqlAccountStore.unhex.

(** ** Calls *)

Inductive AccountCall :=
  | CreateUser (name hash : string) (chips : Z)
  | FindUserByName (name : string)
  | FindUserById (user : Z)
  | StoreSession (session : SessionRecord)
  | FindSession (token : string) (now : Z)
  | RotateSession (current : string) (replacement : SessionRecord) (now : Z)
  | RevokeSession (token : string)
  | UpdateSessionSequence (token : string) (expected replacement : Z).

Inductive StoreCall :=
  | Games (c : MySqlCall)
  | Accounts (c : AccountCall).

Section stores.
  Context `{!Collation, !SessionValues}.
  Implicit Types (b a db : Database).

Definition make_account (c : AccountCall) : Db StorageError :=
  match c with
  | CreateUser name hash chips => r ← MySqlAccountStore.createUser name hash chips; mret (sr_error r)
  | FindUserByName name => r ← MySqlAccountStore.findUserByName name; mret (sr_error r)
  | FindUserById user => r ← MySqlAccountStore.findUserById user; mret (sr_error r)
  | StoreSession x => MySqlAccountStore.storeSession x
  | FindSession token now => r ← MySqlAccountStore.findSession token now; mret (sr_error r)
  | RotateSession current x now => MySqlAccountStore.rotateSession current x now
  | RevokeSession token => MySqlAccountStore.revokeSession token
  | UpdateSessionSequence token expected replacement => MySqlAccountStore.updateSessionSequence token expected replacement
  end.

Definition make_store (c : StoreCall) : Db StorageError :=
  match c with Games c => make c | Accounts c => make_account c end.

Fixpoint make_stores (calls : list StoreCall) : Db (list StorageError) :=
  match calls with
  | [] => mret []
  | c :: calls => e ← make_store c; errors ← make_stores calls; mret (e :: errors)
  end.

(** The change that an answer [ok] stands for. *)
Definition account_change (c : AccountCall) b a : Prop :=
  match c with
  | CreateUser name hash chips => user_commit name hash chips b a
  | FindUserByName _ | FindUserById _ | FindSession _ _ => False
  | StoreSession x => store_commit x b a
  | RotateSession current x now => rotate_commit current x now b a
  | RevokeSession token => revoke_commit token b a
  | UpdateSessionSequence token expected replacement => sequence_commit token expected replacement b a
  end.

Definition updates_session (c : AccountCall) : bool :=
  match c with StoreSession _ | RotateSession _ _ _ | RevokeSession _ | UpdateSessionSequence _ _ _ => true | _ => false end.

(** The change a call may commit; a statement that selects no session is a commit
    too. *)
Definition store_commits (c : StoreCall) b a : Prop :=
  match c with
  | Games c => commits c b a
  | Accounts c => account_change c b a ∨ (updates_session c = true ∧ a = b)
  end.

(** The answers after a commit. *)
Definition done_answer (c : StoreCall) b a (e : StorageError) : Prop :=
  match c with
  | Games c => committed_answer c e
  | Accounts (CreateUser _ _ _) => e = Storage_ok ∨ e = Storage_unavailable
  | Accounts c => e = Storage_ok → account_change c b a
  end.

(** The answers without one. *)
Definition still_answer (c : StoreCall) db (e : StorageError) : Prop :=
  match c with
  | Games c => quiet_answer c db e
  | Accounts (FindUserByName _ | FindUserById _ | FindSession _ _) => True
  | Accounts (CreateUser name _ _) =>
      e ≠ Storage_ok ∧
      (e = Storage_duplicate → ∃ i row, db_users db !! i = Some row ∧ same_text (us_username row) name = true)
  | Accounts _ => e ≠ Storage_ok
  end.

(** The chips a call grants. *)
Definition grants (c : StoreCall) : Z :=
  match c with Accounts (CreateUser _ _ chips) => chips | _ => 0 end.

Section calls.
  Context (R : Database → Database → Prop) `{!PreOrder R} (l0 : Link) (Hothers : others_keep R l0).

Lemma make_store_spec c l :
  in_phase R l0 (Before (ln_db l)) l →
  ens (make_store c) (outcome R l0 (store_commits c) (still_answer c) (done_answer c)) l.
Proof using Hothers PreOrder0.
  intros Hp. destruct c as [c|c]; [by apply make_spec|]. destruct c; cbn.
  - eapply outcome_mono; [by apply createUser_spec|by intros d r []|].
    intros b a r Hc [->|He]; (split; [by left|]); [by left|by right].
  - eapply outcome_mono; [by apply (fetchUser_spec R l0 Hothers (λ _ _ _, True))|done|done].
  - eapply outcome_mono; [by apply (fetchUser_spec R l0 Hothers (λ _ _ _, True))|done|done].
  - eapply ens_mono; [by apply storeSession_spec|]. intros e l' [?|(b & a & ? & Hc & ?)]; [by left|].
    right. exists b, a. split_and!; [done| |done]. destruct Hc; [by left|by right].
  - eapply outcome_mono; [by apply (findSession_spec R l0 Hothers (λ _ _ _, True))|done|done].
  - eapply ens_mono; [by apply rotateSession_spec|]. intros e l' [?|(b & a & ? & Hc & ?)]; [by left|].
    right. exists b, a. split_and!; [done| |done]. destruct Hc; [by left|by right].
  - eapply ens_mono; [by apply revokeSession_spec|]. intros e l' [?|(b & a & ? & Hc & ?)]; [by left|].
    right. exists b, a. split_and!; [done| |done]. destruct Hc; [by left|by right].
  - eapply ens_mono; [by apply updateSessionSequence_spec|]. intros e l' [?|(b & a & ? & Hc & ?)]; [by left|].
    right. exists b, a. split_and!; [done| |done]. destruct Hc; [by left|by right].
Qed.

End calls.

(** ** Runs *)

Lemma store_call_run R c l e l' :
  PreOrder R → others_keep R l → ln_saved l = None → make_store c l = (e, l') →
  ln_weather l' = ln_weather l ∧ ln_saved l' = None ∧
  ((ln_commits l' = ln_commits l ∧ R (ln_db l) (ln_db l') ∧
    ∃ db, R (ln_db l) db ∧ R db (ln_db l') ∧ still_answer c db e) ∨
   ∃ b a, ln_commits l' = ln_commits l ++ [(b, a)] ∧ R (ln_db l) b ∧ store_commits c b a ∧ R a (ln_db l') ∧
     done_answer c b a e).
Proof.
  intros HR Ho Hs Hmake.
  pose proof (ens_result _ _ _ _ _ (make_store_spec R l Ho c l (start_phase R l Hs)) Hmake) as Hout. cbv beta in Hout.
  destruct Hout as [(d & (? & ? & ? & H1 & H2) & ?)|(b & a & (? & ? & ? & ? & ?) & ? & ?)].
  - split_and!; [done..|]. left. split_and!; [done|by etrans|by exists d].
  - split_and!; [done..|]. right. by exists b, a.
Qed.

(** Calls whose commits [R] allows too. *)
Lemma stores_run R (calls : list StoreCall) l es l' :
  PreOrder R → others_keep R l → (∀ c b a, store_commits c b a → R b a) →
  ln_saved l = None → make_stores calls l = (es, l') →
  ln_weather l' = ln_weather l ∧ ln_saved l' = None ∧ R (ln_db l) (ln_db l') ∧
  ∃ log, ln_commits l' = ln_commits l ++ log ∧
    Forall (λ '(b, a), R (ln_db l) b ∧ ∃ c, c ∈ calls ∧ store_commits c b a) log.
Proof.
  intros HR Ho Hc. revert l es Ho. induction calls as [|c calls IH]; intros l es Ho Hs; cbn.
  { intros [= <- <-]. split_and!; [done..|]. exists []. by rw app_nil_r. }
  rw /mbind /Db_bind. destruct (make_store c l) as [e l1] eqn:Hmake. destruct (make_stores calls l1) as [es1 l2] eqn:Hall.
  intros [= <- <-]. destruct (store_call_run R c l e l1 HR Ho Hs Hmake) as (Hw1 & Hs1 & Hout).
  destruct (IH l1 es1) as (Hw2 & Hs2 & HR2 & log & Hlog & Hin); [intros n db; rw Hw1; apply Ho|done..|].
  assert (R (ln_db l) (ln_db l1) ∧ ∃ log1, ln_commits l1 = ln_commits l ++ log1 ∧
    Forall (λ '(b, a), R (ln_db l) b ∧ store_commits c b a) log1) as [HR1 (log1 & Hlog1 & Hin1)].
  { destruct Hout as [(Hl & H1 & _)|(b & a & Hl & H1 & Hcommit & H2 & _)].
    - split; [done|]. exists []. by rw app_nil_r.
    - split; [|exists [(b, a)]; split; [done|by constructor]]. etrans; [done|]. etrans; [|done]. by eapply Hc. }
  split_and!; [congruence|done|by etrans|]. exists (log1 ++ log). split; [by rw Hlog Hlog1 app_assoc|].
  apply Forall_app. split.
  - eapply Forall_impl; [done|]. intros [b a] [? ?]. split; [done|]. exists c. split; [by left|done].
  - eapply Forall_impl; [done|]. intros [b a] (? & c' & ? & ?). split; [by etrans|]. exists c'. split; [by right|done].
Qed.

(** ** Commits *)

Lemma each_start_users hand ps b d :
  each (start_player hand) ps b d →
  db_users d = db_users b ∧ db_next_user d = db_next_user b ∧ db_sessions d = db_sessions b ∧ db_wallets d = db_wallets b.
Proof. induction 1 as [|p ps b d a (_ & _ & _ & s & _ & _ & ->) _ IH]; [done|exact IH]. Qed.

Lemma each_settle_users v ps b d :
  each (settle_player v) ps b d →
  db_users d = db_users b ∧ db_next_user d = db_next_user b ∧ db_sessions d = db_sessions b ∧ db_wallets d = db_wallets b.
Proof. induction 1 as [|p ps b d a (old & s & _ & _ & _ & _ & ->) _ IH]; [done|exact IH]. Qed.

(** The game store leaves users and sessions alone, and makes no wallets. *)
Lemma commits_users c b a :
  commits c b a →
  db_users a = db_users b ∧ db_next_user a = db_next_user b ∧ db_sessions a = db_sessions b ∧
  dom (db_wallets a) = dom (db_wallets b).
Proof.
  assert (∀ (w : gmap Z Z) u x y, w !! u = Some x → dom (<[u := y]> w) = dom w) as Hinsert.
  { intros w u x y Hu. apply dom_insert_lookup_L. by eexists. }
  destruct c; cbn; [done|done|done|..].
  - by intros (_ & _ & ->).
  - intros [_ [w [_ Hw _ _ _ _ ->]]]. split_and!; [done..|]. by eapply Hinsert.
  - intros (w & stack & [_ Hw _ _ _ ->]). split_and!; [done..|]. by eapply Hinsert.
  - intros [_ _ (d & t & Heach & _ & ->)]. apply each_start_users in Heach as (? & ? & ? & Hw). cbn in *.
    split_and!; [done..|]. by rw Hw.
  - by intros [[_ _ _ ->]| ->].
  - intros [_ _ (h & _ & _ & _ & d & t & Heach & _ & ->)]. apply each_settle_users in Heach as (? & ? & ? & Hw). cbn in *.
    split_and!; [done..|]. by rw Hw.
  - intros [(t & _ & _ & ->) _ _]. split_and!; [done..|]. cbn. apply set_eq. intros u.
    rw !elem_of_dom /refunded_wallets map_lookup_imap. destruct (db_wallets b !! u); cbn; split; intros [x Hx]; by eexists.
Qed.

Lemma account_keeps c b a :
  account_change c b a → keeps_stores b a ∧ granted (db_ledger a) = granted (db_ledger b) + grants (Accounts c).
Proof.
  destruct c as [name hash chips| | |x|token now|current x now|token|token expected replacement]; cbn;
    [apply user_keeps|done|done| |done|..]; rw Z.add_0_r.
  - intros (bytes & _ & _ & Hu & ->). apply sessions_keep. intros k y. rw lookup_insert_Some.
    intros [[_ <-]|[_ ?]]; [by left|right; by exists k, y].
  - intros (_ & _ & _ & key & row & bytes & [_ Hrow]%session_of_Some & Hu & _ & _ & _ & ->). apply sessions_keep.
    intros k y. rw lookup_insert_Some lookup_delete_Some.
    intros [[_ <-]|[_ [_ ?]]]; [right; by exists key, row|right; by exists k, y].
  - intros (key & row & [_ Hrow]%session_of_Some & _ & ->). apply sessions_keep. intros k y. rw lookup_insert_Some.
    intros [[_ <-]|[_ ?]]; [right; by exists key, row|right; by exists k, y].
  - intros (key & row & [_ Hrow]%session_of_Some & _ & _ & _ & ->). apply sessions_keep. intros k y. rw lookup_insert_Some.
    intros [[_ <-]|[_ ?]]; [right; by exists key, row|right; by exists k, y].
Qed.

Lemma store_commits_keep c b a :
  store_commits c b a → keeps_stores b a ∧ (db_ok b → granted (db_ledger a) = granted (db_ledger b) + grants c).
Proof.
  destruct c as [c|c]; cbn [store_commits].
  - intros Hc. pose proof (commits_keep c b a Hc) as Hk. destruct (commits_users c b a Hc) as (Hu & Hn & Hs & Hw). split.
    + intros [Hdb [H1 H2 H3 H4 H5]]. destruct (Hk Hdb) as (? & _ & ?). split_and!; [done| |done|by rw Hu].
      split; rw ?Hn ?Hu ?Hs; [done..| |done]. intros i. rw -elem_of_dom Hw elem_of_dom. apply H4.
    + intros Hdb. destruct (Hk Hdb) as (_ & -> & _). cbn. lia.
  - intros [Hc|[Hsession ->]]; [|split; [done|intros _; by destruct c; cbn; rw ?Z.add_0_r]].
    destruct (account_keeps c b a Hc) as [? Hg]. by split.
Qed.

(** ** Properties *)

(** A connection at rest to a database in order, which other clients keep in order. *)
Record stores_ok (l : Link) : Prop := {
  sk_closed : ln_saved l = None;
  sk_db : db_ok (ln_db l);
  sk_accounts : accounts_ok (ln_db l);
  sk_others : others_keep keeps_stores l;
}.

Lemma stores_ok_run calls l es l' : stores_ok l → make_stores calls l = (es, l') → stores_ok l'.
Proof.
  intros [Hs Hdb Hac Ho] Hmake.
  destruct (stores_run keeps_stores calls l es l') as (Hw & Hs' & Hk & _); try done; [apply _| |].
  { intros c b a Hc. by destruct (store_commits_keep c b a Hc). }
  destruct (Hk (conj Hdb Hac)) as ([? ?] & _). split; [done..|]. intros n db. rw Hw. apply Ho.
Qed.

(** C9: calls are atomic. Whatever the library answers and other clients do, a
    call of either store ends with no transaction open and has committed nothing or
    exactly one change, the one of its method, made at once to the database it
    found. A change is committed only with the answer that it was, or with one that
    leaves this open. *)
Theorem mysql_calls_atomic (R : Database → Database → Prop) (c : StoreCall) (l l' : Link) e :
  PreOrder R → others_keep R l → ln_saved l = None → make_store c l = (e, l') →
  ln_saved l' = None ∧
  ((ln_commits l' = ln_commits l ∧ R (ln_db l) (ln_db l') ∧
    ∃ db, R (ln_db l) db ∧ R db (ln_db l') ∧ still_answer c db e) ∨
   ∃ b a, ln_commits l' = ln_commits l ++ [(b, a)] ∧ R (ln_db l) b ∧ store_commits c b a ∧ R a (ln_db l') ∧
     done_answer c b a e).
Proof. intros HR Ho Hs Hmake. by destruct (store_call_run R c l e l' HR Ho Hs Hmake) as (_ & ? & ?). Qed.

(** C10: money stays in order. Whatever calls are made of both stores, whatever fails
    and whatever other clients of the same kind do in between, every balance is the
    sum of the user's rows in the ledger, wallets and seats together hold exactly
    the chips that were granted, no row of the ledger is changed or lost, and each
    commit is the one of a call and grants what a registration grants, or nothing. *)
Theorem mysql_ledger_balances (calls : list StoreCall) (l l' : Link) errors :
  stores_ok l → make_stores calls l = (errors, l') →
  let db := ln_db l' in
  db_ok db ∧ accounts_ok db ∧ db_chips db = granted (db_ledger db) ∧
  (∀ u w, db_wallets db !! u = Some w → 0 ≤ w ∧ w = moved u (db_ledger db)) ∧
  db_ledger (ln_db l) `prefix_of` db_ledger db ∧
  ∃ log, ln_commits l' = ln_commits l ++ log ∧
    ∀ b a, (b, a) ∈ log → ∃ c, c ∈ calls ∧ store_commits c b a ∧ db_chips a = db_chips b + grants c.
Proof.
  intros [Hs Hdb Hac Ho] Hmake. cbv zeta.
  destruct (stores_run keeps_stores calls l errors l') as (_ & _ & Hk & log & Hlog & Hin); try done.
  { apply _. }
  { intros c b a Hc. by destruct (store_commits_keep c b a Hc). }
  destruct (Hk (conj Hdb Hac)) as ([Hdb' Hac'] & Hpre & _). pose proof (ok_money _ Hdb') as Hm. split_and!; [done..| | |done|].
  - apply Hm.
  - intros u w Hw. destruct (mo_wallets _ _ _ Hm u w Hw) as [[? _] ?]. by split.
  - exists log. split; [done|]. intros b a Hba. rw Forall_forall in Hin. destruct (Hin _ Hba) as [Hb (c & ? & Hc)].
    exists c. split_and!; [done..|]. destruct (Hb (conj Hdb Hac)) as ([Hdb1 Hac1] & _).
    destruct (store_commits_keep c b a Hc) as [Ha Hg]. destruct (Ha (conj Hdb1 Hac1)) as ([Hdb2 _] & _).
    by rw /db_chips (mo_chips _ _ _ (ok_money _ Hdb2)) (mo_chips _ _ _ (ok_money _ Hdb1)) Hg.
Qed.

(** ** The stores as an instance of the interfaces *)

#[export] Instance mysql_account_store : AccountStore Link := {
  createUser := MySqlAccountStore.createUser;
  findUserByName := MySqlAccountStore.findUserByName;
  findUserById := MySqlAccountStore.findUserById;
  storeSession := MySqlAccountStore.storeSession;
  findSession := MySqlAccountStore.findSession;
  rotateSession := MySqlAccountStore.rotateSession;
  revokeSession := MySqlAccountStore.revokeSession;
  updateSessionSequence := MySqlAccountStore.updateSessionSequence;
}.

(** What clients may do that open wallets with [grant] chips only. *)
Definition keeps_grants (grant : Z) b a : Prop :=
  db_ok b ∧ accounts_ok b →
  (db_ok a ∧ accounts_ok a) ∧ (size (db_wallets b) ≤ size (db_wallets a))%nat ∧
  granted (db_ledger a) = granted (db_ledger b) + grant * (Z.of_nat (size (db_wallets a)) - Z.of_nat (size (db_wallets b))).

#[export] Instance keeps_grants_preorder grant : PreOrder (keeps_grants grant).
Proof.
  split; [intros db Hdb; split_and!; [apply Hdb..|done|lia]|]. intros d1 d2 d3 H12 H23 H1.
  destruct (H12 H1) as (H2 & ? & ?). destruct (H23 H2) as (Hd3 & ? & ?). split_and!; [apply Hd3..|lia|nia].
Qed.

Definition grants_only (grant : Z) (c : StoreCall) : Prop :=
  match c with Accounts (CreateUser _ _ chips) => chips = grant | _ => True end.

Lemma account_wallets c b a :
  account_change c b a →
  match c with
  | CreateUser _ _ _ => size (db_wallets a) = S (size (db_wallets b))
  | _ => db_wallets a = db_wallets b
  end.
Proof.
  destruct c; cbn; [|done|done| |done|..].
  - intros [_ _ Hnone _ ->]. cbn. by rw map_size_insert_None.
  - by intros (? & _ & _ & _ & ->).
  - by intros (_ & _ & _ & ? & ? & ? & _ & _ & _ & _ & _ & ->).
  - by intros (? & ? & _ & _ & ->).
  - by intros (? & ? & _ & _ & _ & _ & ->).
Qed.

Lemma store_commits_grants grant c b a : grants_only grant c → store_commits c b a → keeps_grants grant b a.
Proof.
  intros Hgrant Hc Hb. destruct (store_commits_keep c b a Hc) as [Hk Hg]. destruct (Hk Hb) as (Ha & _).
  specialize (Hg (proj1 Hb)). split; [done|]. destruct c as [c|c]; cbn [store_commits] in Hc.
  - destruct (commits_users c b a Hc) as (_ & _ & _ & Hd). rw -!size_dom Hd. cbn in Hg. split; [done|lia].
  - destruct Hc as [Hc|[_ ->]]; [|split; [done|lia]]. apply account_wallets in Hc.
    destruct c; cbn in Hg, Hgrant; rw Hc; (split; [lia|]); subst; lia.
Qed.

(** A connection at rest to a database in order, whose other clients open wallets
    with [grant] chips only. *)
Record grants_ok (grant : Z) (l : Link) : Prop := {
  go_closed : ln_saved l = None;
  go_db : db_ok (ln_db l);
  go_accounts : accounts_ok (ln_db l);
  go_others : others_keep (keeps_grants grant) l;
}.

Lemma make_store_grants grant c l :
  grants_only grant c → grants_ok grant l →
  let l' := (make_store c l).2 in grants_ok grant l' ∧ keeps_grants grant (ln_db l) (ln_db l').
Proof.
  intros Hgrant [Hs Hdb Hac Ho]. cbv zeta. destruct (make_store c l) as [e l'] eqn:Hmake. cbn [snd].
  destruct (store_call_run (keeps_grants grant) c l e l') as (Hw & Hs' & Hout); try done; [apply _|].
  assert (keeps_grants grant (ln_db l) (ln_db l')) as Hk.
  { destruct Hout as [(_ & ? & _)|(b & a & _ & H1 & Hc & H2 & _)]; [done|]. etrans; [done|]. etrans; [|done].
    by eapply store_commits_grants. }
  split; [|done]. destruct (Hk (conj Hdb Hac)) as ([? ?] & _). split; [done..|]. intros n db. rw Hw. apply Ho.
Qed.

(** An operation of the interfaces is one of the calls. *)
Lemma store_op_call grant (f : Link → Link) :
  store_op grant f → ∃ c, grants_only grant c ∧ ∀ l, f l = (make_store c l).2.
Proof.
  assert (∀ {A} (m : Db A) (g : A → StorageError) l, (m l).2 = ((r ← m; mret (g r) : Db StorageError) l).2) as Hbind.
  { intros A m g l. rw /mbind /Db_bind. by destruct (m l). }
  intros [(c & Hc)%op_call|Hf]; [by exists (Games c)|].
  destruct Hf as [name hash|name|id|x|hash now|hash x now|hash|hash e r].
  - exists (Accounts (CreateUser name hash grant)). split; [done|]. intros l. apply Hbind.
  - exists (Accounts (FindUserByName name)). split; [done|]. intros l. apply Hbind.
  - exists (Accounts (FindUserById id)). split; [done|]. intros l. apply Hbind.
  - by exists (Accounts (StoreSession x)).
  - exists (Accounts (FindSession hash now)). split; [done|]. intros l. apply Hbind.
  - by exists (Accounts (RotateSession hash x now)).
  - by exists (Accounts (RevokeSession hash)).
  - by exists (Accounts (UpdateSessionSequence hash e r)).
Qed.

#[export] Program Instance mysql_laws grant : StoreLaws Link grant := {
  st_inv := grants_ok grant;
  st_chips l := db_chips (ln_db l);
  st_wallets l := Z.of_nat (size (db_wallets (ln_db l)));
}.
Next Obligation.
  intros grant f l Hf Hl. destruct (store_op_call grant f Hf) as (c & Hc & Heq). cbn in Hl. rw Heq.
  destruct (make_store_grants grant c l Hc Hl) as [Hl' Hk]. destruct (Hk (conj (go_db _ _ Hl) (go_accounts _ _ Hl))) as (_ & ? & Hg).
  split; [done|]. split; [lia|].
  by rw /db_chips (mo_chips _ _ _ (ok_money _ (go_db _ _ Hl'))) (mo_chips _ _ _ (ok_money _ (go_db _ _ Hl))).
Qed.
Next Obligation.
  intros grant t l _. cbn. destruct (createTable t l) as [e l']. by exists e, l'.
Qed.
Next Obligation.
  intros grant id t l [Hs Hdb Hac Ho]. cbn. intros Hok Ht.
  destruct (findTable id l) as [r l'] eqn:Hfind. cbn in Hok, Ht.
  pose proof (ens_result _ _ _ _ _ (findTable_spec (keeps_grants grant) l Ho (λ _ _ _, True) id l
    (start_phase (keeps_grants grant) l Hs)) Hfind) as Hout. cbv beta in Hout.
  destruct Hout as [(d & (_ & _ & _ & H1 & _) & Hfound & _)|(b & a & _ & [] & _)].
  rw /sr_bool in Hok. guards. destruct (Hfound ltac:(done)) as (row & Hrow & _ & ->). cbn in Ht. injection Ht as <-.
  destruct (H1 (conj Hdb Hac)) as ([Hd _] & _). pose proof (ok_blinds _ Hd id row Hrow) as Hfits. cbn in Hfits.
  rw /bigint in Hfits. guards. rw /blinds_fit /=. lia.
Qed.

(** ** Receipts *)

Lemma receipt_prefix user key reason table delta balance d d' :
  db_ledger d `prefix_of` db_ledger d' → receipt_in user key reason table delta balance d →
  receipt_in user key reason table delta balance d'.
Proof. intros [rest Hl] (r & Hin & ?). exists r. split; [|done]. rw Hl. apply elem_of_app. by left. Qed.

Lemma one_row_per_key db u k r r' :
  db_ok db → r ∈ db_ledger db → r' ∈ db_ledger db → has_key u k r = true → has_key u k r' = true → r = r'.
Proof.
  intros Hdb [i Hi]%list_elem_of_lookup [j Hj]%list_elem_of_lookup Hr Hr'.
  assert (∀ i j x y, db_ledger db !! i = Some x → db_ledger db !! j = Some y → has_key u k x = true →
    has_key u k y = true → ¬ (i < j)%nat) as Hlt.
  { intros i' j' x y Hx Hy Hkx Hky Hij. pose proof (mo_keys _ _ _ (ok_money _ Hdb) i' j' x y Hx Hy Hij) as Hno.
    rw /has_key /same_text in Hkx Hky. apply andb_true_iff in Hkx as [Hux Hkx], Hky as [Huy Hky].
    guards. apply not_true_iff_false in Hno. apply Hno. rw /has_key /same_text.
    apply andb_true_iff. split; [lia|]. apply bool_decide_eq_true. congruence. }
  destruct (Nat.lt_trichotomy i j) as [Hij|[->|Hij]]; [|congruence|].
  - by destruct (Hlt i j r r').
  - by destruct (Hlt j i r' r).
Qed.

(** C12: an accepted buy-in is paid exactly once. When the answer is a receipt, for a
    first call or a repeated one, the ledger has exactly one row under the key,
    which takes the amount from the user for that table and names the balance of
    the receipt; a cash-out likewise. Any other answer but that the outcome is not
    known means that nothing was committed, and a buy-in is only refused for lack
    of funds to a user who lacks them. *)
Theorem receipts_backed (table user seat amount : Z) (key : string) (l l' : Link) :
  stores_ok l →
  (∀ r, reserveBuyIn table user seat amount key l = (r, l') →
     (sr_error r = Storage_ok → ∃ balance, r = sr_ok (mkBuyInReceipt balance amount) ∧
        receipt_in user key "table_buy_in" table (- amount) balance (ln_db l')) ∧
     (sr_error r ≠ Storage_ok → sr_error r ≠ Storage_unavailable → ln_commits l' = ln_commits l) ∧
     (sr_error r = Storage_insufficient_funds → ∃ d w, keeps_stores (ln_db l) d ∧ keeps_stores d (ln_db l') ∧
        db_wallets d !! user = Some w ∧ w < amount)) ∧
  (∀ r, cashOut table user key l = (r, l') →
     (sr_error r = Storage_ok → ∃ balance stack, r = sr_ok (mkCashOutReceipt balance stack) ∧
        receipt_in user key "table_cash_out" table stack balance (ln_db l')) ∧
     (sr_error r ≠ Storage_ok → sr_error r ≠ Storage_unavailable → ln_commits l' = ln_commits l)) ∧
  (∀ x y, x ∈ db_ledger (ln_db l) → y ∈ db_ledger (ln_db l) → has_key user key x = true → has_key user key y = true →
     x = y).
Proof.
  intros [Hs Hdb Hac Ho]. pose proof (start_phase keeps_stores l Hs) as Hp. split_and!.
  - intros r Hr. pose proof (ens_result _ _ _ _ _ (reserveBuyIn_spec keeps_stores l Ho table user seat amount key l Hp) Hr) as Hout.
    cbv beta in Hout. destruct Hout as [(d & (_ & _ & Hc & H1 & H2) & Hok & Hfunds)|(b & a & (_ & _ & _ & H1 & H2) & [Hpos [w Hcommit]] & Hd)].
    + destruct (H1 (conj Hdb Hac)) as (Hok1 & _ & _). destruct (H2 Hok1) as (_ & Hpre & _). split_and!.
      * intros He. destruct (Hok He) as (balance & -> & Hrow). exists balance. split; [done|by eapply receipt_prefix].
      * done.
      * intros He. destruct (Hfunds He) as (w & ? & ?). by exists d, w.
    + destruct (H1 (conj Hdb Hac)) as (Hok1 & _ & _).
      destruct (store_commits_keep (Games (ReserveBuyIn table user seat amount key)) b a) as [Hk _]; [split; [done|by exists w]|].
      destruct (Hk Hok1) as (Hok2 & _ & _). destruct (H2 Hok2) as (_ & Hpre & _). destruct Hd as [(w' & Hw' & ->)|He]; [|by rw He].
      split_and!; [intros _|done|done]. exists w'. split; [done|]. eapply receipt_prefix; [done|].
      destruct Hcommit as [_ _ _ _ _ _ ->]. cbn in Hw'. rw lookup_insert_eq in Hw'. simplify_eq.
      exists (buy_in_row table user amount w key). split_and!; [apply elem_of_app; right; by left| |done|done].
      by rw /has_key /same_text /= Z.eqb_refl bool_decide_eq_true_2.
  - intros r Hr. pose proof (ens_result _ _ _ _ _ (cashOut_spec keeps_stores l Ho table user key l Hp) Hr) as Hout.
    cbv beta in Hout. destruct Hout as [(d & (_ & _ & Hc & H1 & H2) & Hok)|(b & a & (_ & _ & _ & H1 & H2) & (w & stack & Hcommit) & Hd)].
    + destruct (H1 (conj Hdb Hac)) as (Hok1 & _ & _). destruct (H2 Hok1) as (_ & Hpre & _). split; [|done].
      intros He. destruct (Hok He) as (balance & stack & -> & Hrow). exists balance, stack. split; [done|by eapply receipt_prefix].
    + destruct (H1 (conj Hdb Hac)) as (Hok1 & _ & _).
      destruct (store_commits_keep (Games (CashOut table user key)) b a) as [Hk _]; [by exists w, stack|].
      destruct (Hk Hok1) as (Hok2 & _ & _). destruct (H2 Hok2) as (_ & Hpre & _). destruct Hd as [(w' & s & Hw' & Hx & ->)|He]; [|by rw He].
      split; [intros _|done]. exists w', (ts_stack s). split; [done|]. eapply receipt_prefix; [done|].
      destruct Hcommit as [_ _ (s' & Hx' & Hstack) _ _ ->]. cbn in Hw'. rw lookup_insert_eq in Hw'. simplify_eq.
      exists (cash_out_row table user (ts_stack s') w key). split_and!; [apply elem_of_app; right; by left| |done|done].
      by rw /has_key /same_text /= Z.eqb_refl bool_decide_eq_true_2.
  - intros x y Hx Hy. by apply (one_row_per_key (ln_db l) user key).
Qed.


(** ** Sessions *)

(** Sessions that are revoked stay so. *)
Definition keeps_revoked b a : Prop :=
  ∀ k row, db_sessions b !! k = Some row → ss_revoked row = true →
    ∃ row', db_sessions a !! k = Some row' ∧ ss_revoked row' = true.

#[export] Instance keeps_revoked_preorder : PreOrder keeps_revoked.
Proof.
  split; [intros b k row ? ?; by exists row|]. intros d1 d2 d3 H12 H23 k row Hk Hr.
  destruct (H12 k row Hk Hr) as (row' & Hk' & Hr'). by eapply H23.
Qed.

Lemma keeps_revoked_insert b key row row' :
  db_sessions b !! key = Some row → (ss_revoked row = true → ss_revoked row' = true) →
  keeps_revoked b (set_sessions (<[key := row']> (db_sessions b)) b).
Proof.
  intros Hkey Hr k y Hk Hy. cbn. rw lookup_insert. case_decide as Heq; [|by exists y].
  subst. exists row'. split; [done|]. apply Hr. congruence.
Qed.

Lemma store_commits_revoked c b a : store_commits c b a → keeps_revoked b a.
Proof.
  destruct c as [c|c]; cbn [store_commits].
  { intros Hc. destruct (commits_users c b a Hc) as (_ & _ & Hs & _). intros k row. rw Hs. by exists row. }
  intros [Hc|[_ ->]]; [|done]. destruct c; cbn in Hc; [|done|done| |done|..].
  - destruct Hc as [_ _ _ _ ->]. intros k row. by exists row.
  - destruct Hc as (bytes & _ & Hnone & _ & ->). intros k row Hk ?. exists row. split; [|done]. cbn.
    rw lookup_insert_ne //. congruence.
  - destruct Hc as (_ & _ & _ & key & row & bytes & [_ Hrow]%MySqlAccounts.session_of_Some & _ & Hlive & _ & Hfree & ->).
    intros k y Hk Hy. exists y. split; [|done]. cbn. rw /MySqlAccountStore.is_live in Hlive. guards.
    assert (k ≠ key) by congruence.
    rw lookup_insert_ne; [destruct Hfree; congruence|]. by rw lookup_delete_ne.
  - destruct Hc as (key & row & [_ Hrow]%MySqlAccounts.session_of_Some & _ & ->). by eapply keeps_revoked_insert.
  - destruct Hc as (key & row & [_ Hrow]%MySqlAccounts.session_of_Some & _ & _ & _ & ->). by eapply keeps_revoked_insert.
Qed.

(** A revoked token never passes again. Once [revokeSession] has answered that it
    revoked a token, no lookup finds a session under it, whatever calls were made in
    between, whatever fails and whatever other clients do that do not revive
    sessions; it is also not made the token of another session. *)
Lemma revoked_stays_revoked (token : string) (calls : list StoreCall) (now : Z) (l l1 l2 l3 : Link) errors r :
  ln_saved l = None → others_keep keeps_revoked l →
  MySqlAccountStore.revokeSession token l = (Storage_ok, l1) → make_stores calls l1 = (errors, l2) →
  MySqlAccountStore.findSession token now l2 = (r, l3) →
  sr_error r ≠ Storage_ok ∧
  ∃ key row, unhex token = Some key ∧ db_sessions (ln_db l3) !! key = Some row ∧ ss_revoked row = true.
Proof.
  intros Hs Ho Hrevoke Hcalls Hfind.
  destruct (store_call_run keeps_revoked (Accounts (RevokeSession token)) l Storage_ok l1) as (Hw1 & Hs1 & Hout); try done.
  { apply _. }
  assert (others_keep keeps_revoked l1) as Ho1 by (intros n db; rw Hw1; apply Ho).
  destruct (stores_run keeps_revoked calls l1 errors l2) as (Hw2 & Hs2 & Hk & _); try done; [apply _|apply store_commits_revoked|].
  assert (others_keep keeps_revoked l2) as Ho2 by (intros n db; rw Hw2; apply Ho1).
  assert (∃ key row, unhex token = Some key ∧ db_sessions (ln_db l2) !! key = Some row ∧ ss_revoked row = true)
    as (key & row & Hkey & Hrow & Hrev).
  { destruct Hout as [(_ & _ & d & _ & _ & ?)|(b & a & _ & _ & _ & Ha & Hdone)]; [done|].
    destruct (Hdone eq_refl) as (key & row & [Hkey Hrow]%MySqlAccounts.session_of_Some & _ & ->).
    destruct (Ha key (MySqlAccountStore.revoked_row row)) as (row' & Hrow' & Hr'); [by rw /= lookup_insert_eq|done|].
    destruct (Hk key row' Hrow' Hr') as (row'' & ? & ?). by exists key, row''. }
  pose proof (ens_result _ _ _ _ _ (findSession_spec keeps_revoked l2 Ho2 (λ _ _ _, True) token now l2
    (start_phase keeps_revoked l2 Hs2)) Hfind) as Hlast. cbv beta in Hlast.
  destruct Hlast as [(d & (_ & _ & _ & H1 & H2) & Hfound & _)|(b & a & _ & [] & _)].
  destruct (H1 key row Hrow Hrev) as (row1 & Hrow1 & Hr1). destruct (H2 key row1 Hrow1 Hr1) as (row2 & ? & ?).
  split; [|by exists key, row2]. intros He. destruct (Hfound He) as (k & y & [Hk' Hy]%MySqlAccounts.session_of_Some & Hlive & _).
  rw /MySqlAccountStore.is_live in Hlive. guards. congruence.
Qed.
End stores.
