(* ===== verification/MySqlCalm.v ===== *)
(** * The MySQL stores when nothing fails

    While the library succeeds at every call and no other client is active, a call
    that can be carried out is: a change that a method may commit and whose values
    fit the columns is committed, and the answer is that it was. What was registered
    and stored is read back. *)
From stdpp Require Import pretty.
From S2P Require Import Prelude Card Table AccountStore GameStore GameStoreLib GameStoreInv MySqlDatabase MySqlClient MySqlGameStore MySqlCalls MySqlCommits MySqlInv MySqlSpecs MySqlTheorems.
From S2P Require MySqlAccountStore.
From S2P Require Import MySqlAccounts MySqlStores.

Definition calm (l : Link) : Prop :=
  ∀ n, wt_error (ln_weather l n) = None ∧ ∀ db, wt_meanwhile (ln_weather l n) db = db.

(** The connection: the open transaction, the database, the commits. *)
Definition at_point (saved : option Database) (log : list (Database * Database)) (db : Database) (l : Link) : Prop :=
  calm l ∧ ln_saved l = saved ∧ ln_commits l = log ∧ ln_db l = db.

Section rules.
  Context `{!Collation} (saved : option Database) (log : list (Database * Database)).

Lemma calm_call db l (Q : option string → Link → Prop) :
  at_point saved log db l → (∀ l', at_point saved log db l' → Q None l') → ens call Q l.
Proof.
  intros (Hcalm & Hs & Hc & Hd) HQ. destruct (Hcalm (ln_calls l)) as [He Hm].
  rw /ens /call /arrive /mbind /Db_bind /= He. apply HQ. split_and!; [done..|]. cbn. by destruct (ln_saved l); rw ?Hm.
Qed.

Lemma calm_succeeds db l (Q : bool → Link → Prop) :
  at_point saved log db l → (∀ l', at_point saved log db l' → Q true l') → ens succeeds Q l.
Proof. intros Hp HQ. apply ens_bind, (calm_call db); [done|]. intros l' Hl. by apply ens_ret, HQ. Qed.

Lemma calm_prepare_all n db l (Q : bool → Link → Prop) :
  at_point saved log db l → (∀ l', at_point saved log db l' → Q true l') → ens (prepare_all n) Q l.
Proof.
  revert l Q. induction n as [|n IH]; intros l Q Hp HQ; [by apply ens_ret, HQ|].
  apply ens_bind, (calm_succeeds db); [done|]. intros l' Hl. apply ens_bind, IH; [done|].
  intros l'' Hl'. by apply ens_ret, HQ.
Qed.

Lemma calm_select {A} (query : Database → A) db l (Q : string + A → Link → Prop) :
  at_point saved log db l → (∀ l', at_point saved log db l' → Q (inr (query db)) l') → ens (select query) Q l.
Proof.
  intros Hp HQ. apply ens_bind, (calm_call db); [done|]. intros l' Hl. apply ens_bind, ens_ret.
  specialize (HQ l' Hl). destruct Hl as (_ & _ & _ & Hd). cbn. by rw Hd.
Qed.

Lemma calm_fetch_row {A} (truncated : A → bool) row db l (Q : string + option A → Link → Prop) :
  at_point saved log db l → (∀ a, row = Some a → truncated a = false) →
  (∀ l', at_point saved log db l' → Q (inr row) l') → ens (fetch_row truncated row) Q l.
Proof.
  intros Hp Hfit HQ. apply ens_bind, (calm_call db); [done|]. intros l1 H1.
  apply ens_bind, (calm_call db); [done|]. intros l2 H2. destruct row as [a|]; apply ens_ret; [|by apply HQ].
  rw (Hfit a eq_refl). by apply HQ.
Qed.

Lemma calm_query {A} (query : Database → option A) truncated db l (Q : option A → Link → Prop) :
  at_point saved log db l → (∀ a, query db = Some a → truncated a = false) →
  (∀ l', at_point saved log db l' → Q (query db) l') →
  ens (ok ← prepare;
       if (ok : bool) then
         rows ← select query;
         match rows with
         | inl _ => mret None
         | inr row => fetched ← fetch_row truncated row; mret (fetched_row fetched)
         end
       else mret None) Q l.
Proof.
  intros Hp Hfit HQ. apply ens_bind, (calm_succeeds db); [done|]. intros l1 H1.
  apply ens_bind, (calm_select _ db); [done|]. intros l2 H2.
  apply ens_bind, (calm_fetch_row _ _ db); [done..|]. intros l3 H3. by apply ens_ret, HQ.
Qed.

Lemma calm_querySigned query db l (Q : option Z → Link → Prop) :
  at_point saved log db l → (∀ l', at_point saved log db l' → Q (query db) l') → ens (querySigned query) Q l.
Proof. intros Hp HQ. by apply (calm_query query (λ _, false) db). Qed.

Lemma calm_no_receipt user key db l (Q : option LedgerReplay → Link → Prop) :
  at_point saved log db l → unused user key db → (∀ l', at_point saved log db l' → Q None l') →
  ens (queryLedger user key) Q l.
Proof.
  intros Hp Hunused HQ.
  assert (sql_ledger user key db = None) as Hnone.
  { destruct (sql_ledger user key db) as [r|] eqn:Hr; [|done]. apply find_some in Hr as [Hin Hk].
    assert (existsb (has_key user key) (db_ledger db) = true); [|congruence]. apply existsb_exists. by exists r. }
  apply (calm_query _ _ db); [done| |]; rw Hnone; [done|exact HQ].
Qed.

End rules.

Lemma calm_autocommit_on log db l (Q : unit → Link → Prop) :
  at_point None log db l → (∀ l', at_point None log db l' → Q tt l') → ens autocommit_on Q l.
Proof.
  intros Hp HQ. apply ens_bind, (calm_succeeds None log db); [done|]. intros l' Hl. apply HQ.
  rw /keep_transaction. by rw (proj1 (proj2 Hl)).
Qed.

Lemma calm_begin log db l (Q : bool → Link → Prop) :
  at_point None log db l → (∀ l', at_point (Some db) log db l' → Q true l') → ens begin Q l.
Proof.
  intros Hp HQ. apply ens_bind, (calm_succeeds None log db); [done|]. intros l' (Hcalm & Hs & Hc & Hd).
  apply ens_bind, ens_ret, HQ. by split_and!; cbn; rw ?Hd.
Qed.

Lemma calm_arrive saved log db l :
  at_point saved log db l → wt_error (arrive l).1 = None ∧ at_point saved log db (arrive l).2.
Proof.
  intros (Hcalm & Hs & Hc & Hd). destruct (Hcalm (ln_calls l)) as [He Hm]. split; [done|].
  split_and!; [done..|]. cbn. by destruct (ln_saved l); rw ?Hm.
Qed.

Lemma calm_mysql_commit b log db l (Q : bool → Link → Prop) :
  at_point (Some b) log db l → (∀ l', at_point None (log ++ [(b, db)]) db l' → Q true l') → ens mysql_commit Q l.
Proof.
  intros Hp HQ. apply ens_bind. rw {1}/ens. destruct (calm_arrive _ _ _ _ Hp) as [He Hl].
  destruct (arrive l) as [w l1]. cbn in *. rw He. destruct Hl as (Hcalm & Hs & Hc & Hd).
  rw {1}/ens /keep_transaction /mbind /Db_bind /= Hs. apply HQ. by split_and!; cbn; rw ?Hc ?Hd.
Qed.

Lemma calm_commit b log db l (Q : bool → Link → Prop) :
  at_point (Some b) log db l → (∀ l', at_point None (log ++ [(b, db)]) db l' → Q true l') → ens commit Q l.
Proof.
  intros Hp HQ. apply ens_bind, (calm_mysql_commit b log db); [done|]. intros l1 Hp1.
  apply ens_bind, (calm_autocommit_on (log ++ [(b, db)]) db); [done|]. intros l2 Hp2. by apply ens_ret, HQ.
Qed.

(** A statement that can be carried out is. *)
Lemma calm_execute s n d saved log db l (Q : Executed → Link → Prop) :
  at_point saved log db l → s db = Changed n d →
  (∀ l', at_point saved (if saved then log else log ++ [(db, d)]) d l' → Q (mkExecuted true n false "") l') →
  ens (execute s) Q l.
Proof.
  intros Hp Hs HQ. apply ens_bind. rw {1}/ens. destruct (calm_arrive _ _ _ _ Hp) as [He Hl].
  destruct (arrive l) as [w l1]. cbn in *. destruct Hl as (Hcalm & Hsv & Hc & Hd). apply ens_bind.
  rw {1}/ens /database /= He Hd Hs. apply ens_bind, ens_ret. cbv beta. apply HQ.
  rw /change Hsv. destruct saved; split_and!; cbn; by rw ?Hc ?Hd.
Qed.

Lemma calm_run ss n d b log db l (Q : option Executed → Link → Prop) :
  at_point (Some b) log db l → apply_all ss 0 db = Some (n, d) →
  (∀ l', at_point (Some b) log d l' → Q (Some (mkExecuted true n false "")) l') → ens (run_all ss) Q l.
Proof.
  intros Hp Hss HQ. apply ens_bind, (calm_prepare_all (Some b) log _ db); [done|]. intros l1 H1. apply ens_bind.
  assert (∀ last, ex_ok last = true → ex_duplicate last = false → ex_error last = ""%string →
    apply_all ss (ex_rows last) db = Some (n, d) →
    ens (execute_all ss last) (λ e l', ens (mret (Some e) : Db (option Executed)) Q l') l1) as Hgo; [|by apply Hgo].
  clear Hp Hss. revert db l1 H1. induction ss as [|s ss IH]; intros db l1 H1 [ok rows dup err]; cbn; intros -> -> ->.
  { intros [= -> ->]. by apply ens_ret, ens_ret, HQ. }
  destruct (s db) as [m d'|] eqn:Hs; [|done]. intros Hss.
  apply ens_bind, (calm_execute s m d' (Some b) log db); [done..|]. intros l2 H2. cbn. by apply (IH d').
Qed.

(** A statement outside of transactions. *)
Lemma calm_run_one s n d log db l (Q : option Executed → Link → Prop) :
  at_point None log db l → s db = Changed n d →
  (∀ l', at_point None (log ++ [(db, d)]) d l' → Q (Some (mkExecuted true n false "")) l') → ens (run_all [s]) Q l.
Proof.
  intros Hp Hs HQ. apply ens_bind, (calm_prepare_all None log _ db); [done|]. intros l1 H1.
  apply ens_bind, ens_bind, (calm_execute s n d None log db); [done..|]. intros l2 H2. by apply ens_ret, ens_ret, HQ.
Qed.

(** The call answered [r] and left the connection at rest. *)
Definition ends {A} (r : A) (log : list (Database * Database)) (db : Database) (x : A) (l : Link) : Prop :=
  x = r ∧ at_point None log db l.

Lemma calm_lease {A} (unavailable r : A) body log log' db db' l :
  at_point None log db l → (∀ l', at_point None log db l' → ens body (ends r log' db') l') →
  ens (with_lease unavailable body) (ends r log' db') l.
Proof.
  intros Hp Hbody. apply ens_bind, (calm_succeeds None log db); [done|]. intros l1 H1.
  apply ens_bind. eapply ens_mono; [by apply Hbody|]. intros x l2 [-> H2].
  apply ens_bind, ens_bind, ens_bind, (calm_call None log' db'); [done|]. intros l3 (Hcalm & Hs & Hrest).
  rw {1}/ens /discard_transaction /= Hs. apply (calm_autocommit_on log' db'); [done|].
  intros l4 H4. by apply ens_ret.
Qed.

Lemma calm_transaction r body log log' db db' l :
  at_point None log db l → (∀ l', at_point (Some db) log db l' → ens body (ends r log' db') l') →
  ens (with_transaction body) (ends r log' db') l.
Proof.
  intros Hp Hbody. apply (calm_lease _ _ _ log _ db); [done|]. intros l1 H1.
  apply ens_bind, (calm_begin log db); [done|]. exact Hbody.
Qed.

Lemma calm_finish {A} (go : bool) (good bad : A) b log db l :
  at_point (Some b) log db l → go = true →
  ens (kept ← (if go then commit else mret false : Db bool); if (kept : bool) then mret good else abandon bad)
    (ends good (log ++ [(b, db)]) db) l.
Proof.
  intros Hp ->. apply ens_bind, (calm_commit b log db); [done|]. intros l1 H1. by apply ens_ret.
Qed.

Section calls.
  Context `{!Collation}.
  Implicit Types (b a db : Database).

(** What the guards of the methods, the keys and the ranges of columns ask for
    besides the conditions of [commits]. *)
Definition fits (c : MySqlCall) db : Prop :=
  match c with
  | FindTable _ | ListOpenTables _ | CountOpenTables _ => True
  | CreateTable t =>
      fits_varchar 64 (table_name t) = true ∧ fits_varchar 64 (node_id t) = true ∧ is_Some (db_users db !! created_by t)
  | ReserveBuyIn id user seat amount key =>
      id ≠ 0 ∧ user ≠ 0 ∧ key ≠ ""%string ∧ (String.length key ≤ 96)%nat ∧ 0 ≤ seat ≤ 255 ∧
      fits_varchar 96 key = true ∧ fits_varchar 96 (reference id) = true ∧ is_Some (db_users db !! user)
  | CashOut id user key =>
      id ≠ 0 ∧ user ≠ 0 ∧ key ≠ ""%string ∧ (String.length key ≤ 96)%nat ∧
      fits_varchar 96 key = true ∧ fits_varchar 96 (reference id) = true ∧ is_Some (db_users db !! user)
  | BeginHand hand =>
      hsr_hand_id hand ≠ 0 ∧ hsr_table_id hand ≠ 0 ∧ hsr_hand_number hand ≠ 0 ∧
      (2 ≤ length (hsr_players hand))%nat ∧ 0 ≤ hsr_dealer_seat hand ≤ 255 ∧
      number_taken (hsr_table_id hand) (hsr_hand_number hand) db = false ∧
      ∀ p, p ∈ hsr_players hand → 0 ≤ hs_seat p ≤ 255 ∧ is_Some (db_users db !! hs_user_id p)
  | AppendAction x => is_Some (db_users db !! ha_user_id x)
  | SettleHand v =>
      ∀ p old, p ∈ hst_players v → db_hand_players db !! (hst_hand_id v, hp_user_id p) = Some old → hr_end_stack old = None
  | AbortTable id =>
      fits_varchar 96 (reference id) = true ∧
      ∀ u s, db_seats db !! (id, u) = Some s → fits_varchar 96 (crash_key id u) = true ∧ is_Some (db_users db !! u)
  end.

Lemma has_true `{Countable K} {A} (k : K) (m : gmap K A) : is_Some (m !! k) → has k m = true.
Proof. intros Hk. by apply bool_decide_eq_true. Qed.

Lemma has_false `{Countable K} {A} (k : K) (m : gmap K A) : m !! k = None → has k m = false.
Proof. intros Hk. apply bool_decide_eq_false. rw Hk. by apply is_Some_None. Qed.

Lemma status_is status table t db :
  db_tables db !! table = Some t → sql_status_is status table db = Some (if bool_decide (pt_status t = status) then 1 else 0).
Proof. intros Ht. by rw /sql_status_is Ht. Qed.

Lemma bigint_true x : i64_min ≤ x ≤ i64_max → bigint x = true.
Proof. intros [? ?]. rw /bigint. apply andb_true_iff. lia. Qed.

(** ** Buying in and cashing out *)

Lemma insert_ledger_ok r db :
  unused (wl_user_id r) (wl_idempotency_key r) db → fits_varchar 96 (wl_idempotency_key r) = true →
  from_option (fits_varchar 96) true (wl_reference_id r) = true → 0 ≤ wl_balance_after r ≤ i64_max →
  i64_min ≤ wl_delta_amount r ≤ i64_max → is_Some (db_users db !! wl_user_id r) →
  sql_insert_ledger r db = Changed 1 (set_ledger (db_ledger db ++ [r]) db).
Proof.
  intros Hu Hk Href Hb Hd Huser. rw /sql_insert_ledger /ledger_checks Hu Hk Href.
  rw (bigint_true (wl_balance_after r)); [rw /i64_min; lia|]. by rw bigint_true // has_true // (proj2 (Z.leb_le _ _)); [lia|].
Qed.

Lemma insert_seat_ok table user s db :
  db_seats db !! (table, user) = None → seat_taken table (ts_seat_no s) db = false → 0 ≤ ts_seat_no s ≤ 255 →
  0 ≤ ts_stack s → 0 ≤ ts_hand_start_stack s → is_Some (db_tables db !! table) → is_Some (db_users db !! user) →
  sql_insert_seat table user s db = Changed 1 (set_seats (<[(table, user) := s]> (db_seats db)) db).
Proof.
  intros Hfree Hplace Hseat Hstack Hstart Ht Hu. rw /sql_insert_seat /tinyint_unsigned has_false // Hplace !has_true //.
  by repeat (rw (proj2 (Z.leb_le _ _)); [lia|]).
Qed.

Lemma set_balance_ok user x db :
  0 ≤ x ≤ i64_max → set_balance user x db = Changed 1 (set_wallets (<[user := x]> (db_wallets db)) db).
Proof. intros Hx. rw /set_balance /balance_ok bigint_true; [rw /i64_min; lia|]. by rw (proj2 (Z.leb_le _ _)); [lia|]. Qed.

Lemma buy_in_calm id user seat amount key w b a log l :
  db_ok b → fits (ReserveBuyIn id user seat amount key) b → 0 < amount → buy_in_commit id user seat amount key w b a →
  at_point None log b l →
  ens (reserveBuyIn id user seat amount key) (ends (sr_ok (mkBuyInReceipt (w - amount) amount)) (log ++ [(b, a)]) a) l.
Proof.
  intros Hdb (Hid & Huser & Hkey & Hlen & Hseat & Hfk & Hfr & Hu) Hpos
    [(t & [Ht Hwait] & Hmax & Hrange) Hw Henough Hfree Hplace Hunused ->] Hp.
  destruct (mo_wallets _ _ _ (ok_money _ Hdb) user w Hw) as [[? ?] _].
  rw /reserveBuyIn. pass_guard.
  apply (calm_lease _ _ _ log _ b); [done|]. intros l1 Hp1.
  apply ens_bind, (calm_no_receipt None log user key b); [done..|]. intros l2 Hp2. cbn.
  apply ens_bind, (calm_begin log b); [done|]. intros l3 Hp3.
  apply ens_bind, (calm_succeeds (Some b) log b); [done|]. intros l4 Hp4.
  apply ens_bind, (calm_select (Some b) log _ b); [done|]. intros l5 Hp5.
  apply ens_bind, (calm_fetch_row (Some b) log _ _ b); [done..|]. intros l6 Hp6.
  rw /sql_table_rules Ht /= bool_decide_eq_true_2 //. pass_guard.
  apply ens_bind, (calm_querySigned (Some b) log _ b); [done|]. intros l7 Hp7. rw /sql_balance Hw.
  rw (proj2 (Z.ltb_ge _ _)); [done|].
  apply ens_bind. eapply (calm_run _ 1 _ b log b); [done| |].
  { rw /= insert_seat_ok /=; first [done|lia|by eexists|reflexivity]. }
  intros l8 Hp8. cbn. apply ens_bind. eapply (calm_run _ 1 _ b log); [done| |].
  { rw /= /sql_debit /= Hw (proj2 (Z.leb_le _ _)) // set_balance_ok; [lia|reflexivity]. }
  intros l9 Hp9. cbn. apply ens_bind. eapply (calm_run _ 1 _ b log); [done| |].
  { rw /= insert_ledger_ok /=; first [done|lia|unfold i64_min, i64_max in *; lia|reflexivity]. }
  intros l10 Hp10. by apply calm_finish.
Qed.

Lemma cash_out_calm id user key w stack b a log l :
  db_ok b → fits (CashOut id user key) b → cash_out_commit id user key w stack b a → at_point None log b l →
  ens (cashOut id user key) (ends (sr_ok (mkCashOutReceipt (w + stack) stack)) (log ++ [(b, a)]) a) l.
Proof.
  intros Hdb (Hid & Huser & Hkey & Hlen & Hfk & Hfr & Hu) [(t & Ht & Hwait) Hw (s & Hs & <-) Hunused Hrange ->] Hp.
  destruct (mo_wallets _ _ _ (ok_money _ Hdb) user w Hw) as [[? ?] _].
  destruct (mo_seats _ _ _ (ok_money _ Hdb) id user s Hs) as (? & _ & _).
  rw /cashOut. pass_guard.
  apply (calm_lease _ _ _ log _ b); [done|]. intros l1 Hp1.
  apply ens_bind, (calm_no_receipt None log user key b); [done..|]. intros l2 Hp2. cbn.
  apply ens_bind, (calm_begin log b); [done|]. intros l3 Hp3.
  apply ens_bind, (calm_querySigned (Some b) log _ b); [done|]. intros l4 Hp4.
  rw (status_is _ _ _ _ Ht) bool_decide_eq_true_2 //=.
  apply ens_bind, (calm_querySigned (Some b) log _ b); [done|]. intros l5 Hp5.
  apply ens_bind, (calm_querySigned (Some b) log _ b); [done|]. intros l6 Hp6. rw /sql_stack Hs /sql_balance Hw /=.
  apply ens_bind. eapply (calm_run _ 1 _ b log); [done| |].
  { by rw /= /sql_credit Hw set_balance_ok //= has_true. }
  intros l7 Hp7. cbn. apply ens_bind. eapply (calm_run _ 1 _ b log); [done| |].
  { rw /= insert_ledger_ok /=; first [done|lia|unfold i64_min, i64_max in *; lia|reflexivity]. }
  intros l8 Hp8. by apply calm_finish.
Qed.

(** ** Tables and actions *)

Lemma create_calm t b a log l :
  fits (CreateTable t) b → table_commit t b a → at_point None log b l →
  ens (createTable t) (ends Storage_ok (log ++ [(b, a)]) a) l.
Proof.
  intros (Hname & Hnode & Hu) (Hnone & Hchecks & ->) Hp. apply (calm_lease _ _ _ log _ b); [done|]. intros l1 Hp1.
  apply ens_bind. eapply (calm_run_one _ 1 _ log b); [done| |].
  { rw /sql_insert_table has_false //= Hname Hnode Hchecks has_true //. }
  intros l2 Hp2. by apply ens_ret.
Qed.

Lemma append_calm x b a log l :
  fits (AppendAction x) b → action_commit x b a → at_point None log b l →
  ens (appendAction x) (ends Storage_ok (log ++ [(b, a)]) a) l.
Proof.
  intros Hu [(h & Hh & Hplay) Hfresh Hreq ->] Hp. apply (calm_lease _ _ _ log _ b); [done|]. intros l1 Hp1.
  apply ens_bind. eapply (calm_run_one _ 1 _ log b); [done| |].
  { rw /sql_insert_action Hh bool_decide_eq_true_2 // has_false //= has_true //=.
    destruct (existsb _ _) eqn:Hex; [exfalso|reflexivity].
    apply existsb_exists in Hex as ([[h' s] y] & Hin & Hm). apply list_elem_of_In, elem_of_map_to_list in Hin.
    rw /action_matches /= in Hm. guards. apply (Hreq s y); [congruence|by split]. }
  intros l2 Hp2. by apply ens_ret.
Qed.

(** ** Hands *)

Lemma encodeCards_length cards : length (encodeCards cards) = length cards.
Proof. apply length_fmap. Qed.

Lemma start_players_calm hand ps b0 b d log l (Q : option StorageError → Link → Prop) :
  each (start_player hand) ps b d → is_Some (db_hands b !! hsr_hand_id hand) →
  (∀ k s, db_seats b !! k = Some s → 0 ≤ ts_stack s) →
  (∀ p, p ∈ ps → 0 ≤ hs_seat p ≤ 255 ∧ is_Some (db_users b !! hs_user_id p)) →
  at_point (Some b0) log b l → (∀ l', at_point (Some b0) log d l' → Q None l') → ens (start_players hand ps) Q l.
Proof.
  intros Heach. revert l. induction Heach as [b|p ps b d a Hstep _ IH]; intros l Hhand Hstacks Hps Hp HQ.
  { by apply ens_ret, HQ. }
  destruct Hstep as (Hu & Hcards & Hfree & s & Hs & Hstack & ->).
  destruct (Hps p) as [Hseat Huser]; [by left|]. pose proof (Hstacks _ _ Hs) as Hpos. cbn. rw Hcards. pass_guard.
  apply ens_bind. eapply (calm_run _ 1 _ b0 log); [done| |].
  { rw /= /sql_insert_hand_player (has_false _ _ Hfree) /tinyint_unsigned /= encodeCards_length Hcards.
    rw !has_true // !(proj2 (Z.leb_le _ _)); [lia..|]. rw /= /sql_mark_start /= Hs Hstack Z.eqb_refl.
    rw (proj2 (Z.leb_le _ _)); [lia|reflexivity]. }
  intros l1 Hp1. cbn. apply IH; [done| | |by rw Hstack|done].
  - intros k x. rw /= lookup_insert_Some. intros [[<- <-]|[_ Hx]]; [cbn; lia|by eapply Hstacks].
  - intros q Hq. by apply Hps; right.
Qed.

Lemma start_player_tables hand p b a : start_player hand p b a → db_tables a = db_tables b.
Proof. by intros (_ & _ & _ & s & _ & _ & ->). Qed.

Lemma begin_calm hand b a log l :
  db_ok b → fits (BeginHand hand) b → begin_hand_commit hand b a → at_point None log b l →
  ens (beginHand hand) (ends Storage_ok (log ++ [(b, a)]) a) l.
Proof.
  intros Hdb (Hh & Hid & Hn & Hlen & Hdealer & Hnumber & Hps) [(t & Ht & Hwait) Hfresh (d & t' & Heach & Ht' & ->)] Hp.
  rw /beginHand. pass_guard. apply (calm_transaction _ _ log _ b); [done|]. intros l1 Hp1.
  apply ens_bind, (calm_querySigned (Some b) log _ b); [done|]. intros l2 Hp2.
  rw (status_is _ _ _ _ Ht) bool_decide_eq_true_2 //=.
  apply ens_bind. eapply (calm_run _ 1 _ b log); [done| |].
  { rw /= /sql_insert_hand (has_false _ _ Hfresh) Hnumber /tinyint_unsigned /= has_true //.
    rw !(proj2 (Z.leb_le _ _)); [lia..|reflexivity]. }
  intros l3 Hp3. cbn. apply ens_bind. eapply (start_players_calm hand _ b _ d log); [done| | |done|exact Hp3|].
  { rw /= lookup_insert_eq. by eexists. }
  { intros [t0 u] s Hs. by destruct (mo_seats _ _ _ (ok_money _ Hdb) t0 u s Hs). }
  intros l4 Hp4. apply (each_same _ db_tables) in Heach; [|apply start_player_tables]. cbn in Heach.
  rw Heach Ht in Ht'. simplify_eq. rw Heach. apply ens_bind. eapply (calm_run _ 1 _ b log); [done| |].
  { rw /= /sql_set_status Heach Ht bool_decide_eq_true_2 //= bool_decide_eq_false_2; [by rw Hwait|reflexivity]. }
  intros l5 Hp5. by apply calm_finish.
Qed.

Lemma settle_players_calm v ps b0 b d log l (Q : bool → Link → Prop) :
  each (settle_player v) ps b d → NoDup (hp_user_id <$> ps) → (∀ p, p ∈ ps → player_valid p) →
  (∀ p old, p ∈ ps → db_hand_players b !! (hst_hand_id v, hp_user_id p) = Some old → hr_end_stack old = None) →
  at_point (Some b0) log b l → (∀ l', at_point (Some b0) log d l' → Q true l') → ens (settle_players v ps) Q l.
Proof.
  intros Heach. revert l. induction Heach as [b|p ps b d a Hstep _ IH]; intros l Hnd Hvalid Hold Hp HQ.
  { by apply ens_ret, HQ. }
  apply NoDup_cons in Hnd as [Hnotin Hnd]. destruct Hstep as (old & s & Hplayer & Hstart & Hs & Hhand & ->).
  destruct (Hvalid p) as (_ & _ & ? & ? & Hcards & Hend & _); [by left|].
  pose proof (Hold p old (list_elem_of_here _ _) Hplayer) as Hunpaid. cbn.
  apply ens_bind. eapply (calm_run _ 1 _ b0 log); [done| |].
  { rw /= /sql_settle_player Hplayer Hstart Z.eqb_refl /= encodeCards_length Hcards.
    rw bool_decide_eq_false_2; [|reflexivity]. rw Hunpaid. by intros (_ & _ & ? & _). }
  intros l1 Hp1. cbn. apply ens_bind. eapply (calm_run _ 1 _ b0 log); [done| |].
  { rw /= /sql_settle_seat /= Hs Hhand Z.eqb_refl (proj2 (Z.leb_le _ _)); [lia|reflexivity]. }
  intros l2 Hp2. cbn. apply IH; [done|by intros q Hq; apply Hvalid; right| |by rw /settled_row Hstart|done].
  intros q x Hq. rw /= lookup_insert_Some. intros [[[= Hu] _]|[_ Hx]].
  - destruct Hnotin. rw Hu. by apply list_elem_of_fmap_2.
  - eapply Hold; [by right|done].
Qed.

Lemma settle_calm v b a log l :
  fits (SettleHand v) b → settle_commit v b a → at_point None log b l →
  ens (settleHand v) (ends Storage_ok (log ++ [(b, a)]) a) l.
Proof.
  intros Hold [Hv (t & Ht & Hplay) (h & Hh & Htab & Hhand & d & t' & Heach & Ht' & ->)] Hp.
  rw /settleHand Hv. apply (calm_transaction _ _ log _ b); [done|]. intros l1 Hp1.
  apply ens_bind, (calm_querySigned (Some b) log _ b); [done|]. intros l2 Hp2.
  rw (status_is _ _ _ _ Ht) bool_decide_eq_true_2 //=.
  apply ens_bind. eapply (calm_run _ 1 _ b log); [done| |].
  { rw /= /sql_settle_hand Hh Htab Z.eqb_refl bool_decide_eq_true_2 //= encodeCards_length.
    rw (proj2 (Nat.leb_le _ _)); [|reflexivity]. rw /validHandSettlement in Hv. destruct (_ || _) eqn:Hg; [done|]. guards. lia. }
  intros l3 Hp3. cbn. destruct (settle_sums v Hv) as [Hnd _].
  apply ens_bind. eapply (settle_players_calm v _ b _ d log); [done..|by apply settlement_ends|done|by rw /settled_hand Htab|].
  intros l4 Hp4. apply (each_same _ db_tables) in Heach; [|apply settle_player_tables]. cbn in Heach.
  rw Heach Ht in Ht'. simplify_eq. rw Heach. cbn. apply ens_bind. eapply (calm_run _ 1 _ b log); [done| |].
  { rw /= /sql_set_status Heach Ht bool_decide_eq_false_2; [by rw Hplay|reflexivity]. }
  intros l5 Hp5. by apply calm_finish.
Qed.

(** ** Refunds *)

Lemma insert_ledger_rows_ok rows db :
  (∀ i r, rows !! i = Some r → unused (wl_user_id r) (wl_idempotency_key r) (set_ledger (db_ledger db ++ take i rows) db)) →
  (∀ r, r ∈ rows → ledger_checks r = true ∧ is_Some (db_users db !! wl_user_id r)) →
  insert_ledger_rows rows db = Changed (length rows) (set_ledger (db_ledger db ++ rows) db).
Proof.
  revert db. induction rows as [|r rows IH]; intros db Hunused Hchecks; cbn.
  { rw app_nil_r. by destruct db. }
  pose proof (Hunused 0%nat r eq_refl) as Hu. rw /unused /= app_nil_r in Hu.
  destruct (Hchecks r) as [Hc Huser]; [by left|]. rw /sql_insert_ledger Hu Hc has_true //. cbn. rw IH /=; [| |by rw -app_assoc].
  - intros i x Hi. specialize (Hunused (S i) x Hi). by rw /unused /= -app_assoc in Hunused *.
  - intros x Hx. apply Hchecks. by right.
Qed.

Lemma refund_row_in table db r :
  r ∈ refund_rows table db → ∃ u s balance, db_seats db !! (table, u) = Some s ∧ db_wallets db !! u = Some balance ∧
    r = mkLedgerRow u (crash_key table u) (ts_stack s) balance "crash_refund" (Some (reference table)).
Proof.
  intros ([u s] & Hin & Hr)%list_elem_of_omap. destruct (db_wallets db !! u) as [balance|] eqn:Hb; cbn in Hr; simplify_eq.
  exists u, s, balance. split_and!; [|done|done].
  apply list_elem_of_omap in Hin as ([[t u'] s'] & Hin%elem_of_map_to_list & Hs). by case_match; simplify_eq; guards; subst.
Qed.

Lemma abort_calm id b a log l :
  db_ok b → fits (AbortTable id) b → refund_commit id b a → at_point None log b l →
  ens (abortTableAndRefund id) (ends Storage_ok (log ++ [(b, a)]) a) l.
Proof.
  intros Hdb [Href Hkeys] [(t & Ht & Hclose & ->) Hunused Hrange] Hp.
  assert (pt_status t ≠ Status_aborted) as Hst by (intros Hst; by rw /is_closable /is_open Hst in Hclose).
  apply (calm_transaction _ _ log _ b); [done|]. intros l1 Hp1.
  apply ens_bind, (calm_querySigned (Some b) log _ b); [done|]. intros l2 Hp2.
  rw (status_is _ _ _ _ Ht) bool_decide_eq_false_2 //=.
  apply ens_bind. eapply (calm_run _ 1 _ b log); [done| |].
  { rw /= /sql_refund_wallets -/(refunded_wallets id b).
    destruct (forallb _ _) eqn:Hall.
    2: { apply not_true_iff_false in Hall. destruct Hall. apply forallb_forall. intros [u x] Hin.
         apply list_elem_of_In, elem_of_map_to_list, Hrange in Hin. rw /balance_ok /= bigint_true; [rw /i64_min; lia|].
         apply Z.leb_le. lia. }
    rw /sql_refund_ledger insert_ledger_rows_ok; [exact Hunused| |].
    - intros r (u & s & x & Hs & Hx & ->)%refund_row_in. cbn in Hs, Hx. destruct (Hkeys u s Hs) as [Hfk Hu].
      destruct (mo_seats _ _ _ (ok_money _ Hdb) id u s Hs) as (? & _ & [w Hw]).
      destruct (mo_wallets _ _ _ (ok_money _ Hdb) u w Hw) as [[? ?] _]. pose proof (Hrange u x Hx) as Hr.
      rw /refunded_wallets map_lookup_imap Hw /= /refund_wallet Hs in Hx. cbn in Hx. simplify_eq.
      split; [|done]. rw /ledger_checks /= Hfk Href !bigint_true; [rw /i64_min; lia..|]. by rw (proj2 (Z.leb_le _ _)); [lia|].
    - cbn -[is_closable]. rw /sql_set_status /= Ht Hclose bool_decide_eq_false_2 //. }
  intros l3 Hp3. by apply calm_finish.
Qed.

End calls.

(** ** Accounts *)

Section accounts.
  Context `{!Collation, !SessionValues}.
  Implicit Types (b a db : Database).

Definition account_fits (c : AccountCall) db : Prop :=
  match c with
  | CreateUser name hash _ =>
      fits_varchar 32 name = true ∧ fits_varchar 255 hash = true ∧
      fits_varchar 96 (MySqlAccountStore.initial_key (db_next_user db)) = true
  | StoreSession x | RotateSession _ x _ => MySqlAccountStore.timestamp6 (expires_at x) = true
  | _ => True
  end.

Lemma create_user_calm name hash chips b a log l :
  db_ok b → account_fits (CreateUser name hash chips) b → user_commit name hash chips b a → at_point None log b l →
  ens (MySqlAccountStore.createUser name hash chips)
    (ends (sr_ok (mkUser (db_next_user b) name hash chips false)) (log ++ [(b, a)]) a) l.
Proof.
  intros Hdb (Hname & Hhash & Hkey) [Hfree Hnext Hwallet Hchips ->] Hp.
  assert (unused (db_next_user b) (MySqlAccountStore.initial_key (db_next_user b)) b) as Hunused.
  { apply not_true_iff_false. intros (r & Hr & Hk)%existsb_exists. apply list_elem_of_In in Hr.
    destruct (mo_ledger _ _ _ (ok_money _ Hdb) r Hr) as [x Hx]. rw /has_key in Hk. guards. congruence. }
  apply (calm_lease _ _ _ log _ b); [done|]. intros l1 Hp1. apply ens_bind, (calm_call None log b); [done|].
  intros l2 (Hcalm & Hs & Hc & Hd). apply ens_bind. rw {1}/ens /=.
  match goal with |- ens _ _ ?l => assert (at_point (Some b) log b l) as Hp3 by by split_and!; cbn; rw ?Hd end.
  apply ens_bind. eapply (calm_run _ 1 _ b log b); [exact Hp3| |].
  { rw /= /MySqlAccountStore.sql_insert_user Hfree Hname Hhash (proj2 (Z.ltb_lt _ _)) //. }
  intros l4 Hp4. cbn. apply ens_bind. rw {1}/MySqlAccountStore.mysql_insert_id. apply ens_bind, ens_ret. cbn.
  pose proof Hp4 as (_ & _ & _ & Hd4). rw Hd4 /=. replace (db_next_user b + 1 - 1) with (db_next_user b) by lia.
  apply ens_bind. eapply (calm_run _ 1 _ b log); [done| |].
  { rw /= /MySqlAccountStore.sql_insert_wallet has_false //= /balance_ok bigint_true; [rw /i64_min; lia|].
    rw (proj2 (Z.leb_le _ _)); [lia|]. rw has_true /= ?lookup_insert_eq; [by eexists|reflexivity]. }
  intros l5 Hp5. cbn. apply ens_bind. eapply (calm_run _ 1 _ b log); [done| |].
  { rw /= insert_ledger_ok /= ?lookup_insert_eq; first [done|lia|unfold i64_min, i64_max in *; lia|by eexists|reflexivity]. }
  intros l6 Hp6. cbn. apply ens_bind. eapply calm_mysql_commit; [exact Hp6|]. intros l7 Hp7.
  apply ens_bind. eapply calm_autocommit_on; [exact Hp7|]. intros l8 Hp8. by apply ens_ret.
Qed.

(** A statement on a session that changes it. *)
Lemma session_calm s a b log body (answer : option Executed → StorageError) l :
  (∀ l', ens (e ← run_all [s]; mret (answer e)) (ends Storage_ok (log ++ [(b, a)]) a) l' →
         ens body (ends Storage_ok (log ++ [(b, a)]) a) l') →
  s b = Changed 1 a → answer (Some (mkExecuted true 1 false "")) = Storage_ok → at_point None log b l →
  ens (with_lease Storage_unavailable body) (ends Storage_ok (log ++ [(b, a)]) a) l.
Proof.
  intros Hbody Hs Hanswer Hp. apply (calm_lease _ _ _ log _ b); [done|]. intros l1 Hp1. apply Hbody.
  apply ens_bind, (calm_run_one s 1 a log b); [done..|]. intros l2 Hp2. by apply ens_ret.
Qed.

Lemma store_session_calm x b a log l :
  account_fits (StoreSession x) b → store_commit x b a → at_point None log b l →
  ens (MySqlAccountStore.storeSession x) (ends Storage_ok (log ++ [(b, a)]) a) l.
Proof.
  intros Hfits (bytes & Hbytes & Hnone & Hu & ->).
  apply (session_calm (MySqlAccountStore.sql_insert_session x) _ _ _ _ (λ e, if was_ok e then Storage_ok
    else if was_duplicate e then Storage_conflict else Storage_unavailable)); [done| |done].
  by rw /MySqlAccountStore.sql_insert_session Hbytes /insert_row Hfits has_false // has_true.
Qed.

Lemma rotate_session_calm current x now b a log l :
  account_fits (RotateSession current x now) b → rotate_commit current x now b a → a ≠ b → at_point None log b l →
  ens (MySqlAccountStore.rotateSession current x now) (ends Storage_ok (log ++ [(b, a)]) a) l.
Proof.
  intros Hfits (Huser & Htoken & Hexpires & key & row & bytes & Hrow & Hu & Hlive & Hbytes & Hfree & ->) Hne.
  rw /MySqlAccountStore.rotateSession. pass_guard.
  apply (session_calm (MySqlAccountStore.sql_rotate_session current x now) _ _ _ _
    (λ e, if was_ok e then if changed_one e then Storage_ok else Storage_not_found
          else if was_duplicate e then Storage_conflict else Storage_unavailable)); [done| |done].
  rw /MySqlAccountStore.sql_rotate_session Hrow Hu Z.eqb_refl Hlive /= Hbytes Hfits /=.
  assert (negb (bool_decide (bytes = key)) && has bytes (db_sessions b) = false) as ->.
  { destruct Hfree as [->|Hnone]; [by rw bool_decide_eq_true_2|]. by rw has_false // andb_false_r. }
  assert (ss_revoked row = false) as Hr by (rw /MySqlAccountStore.is_live in Hlive; by guards).
  rw Hr bool_decide_eq_false_2 //. intros [-> Hsame]. apply Hne. rw /session_row Hsame insert_delete_eq insert_id.
  - by apply session_of_Some in Hrow as [_ ?].
  - by destruct b.
Qed.

Lemma revoke_session_calm token b a log l :
  revoke_commit token b a → at_point None log b l →
  ens (MySqlAccountStore.revokeSession token) (ends Storage_ok (log ++ [(b, a)]) a) l.
Proof.
  intros (key & row & Hrow & Hr & ->).
  apply (session_calm (MySqlAccountStore.sql_revoke_session token) _ _ _ _
    (λ e, if was_ok e then if changed_one e then Storage_ok else Storage_not_found else Storage_unavailable)); [done| |done].
  by rw /MySqlAccountStore.sql_revoke_session Hrow Hr.
Qed.

Lemma update_sequence_calm token expected replacement b a log l :
  sequence_commit token expected replacement b a → a ≠ b → at_point None log b l →
  ens (MySqlAccountStore.updateSessionSequence token expected replacement) (ends Storage_ok (log ++ [(b, a)]) a) l.
Proof.
  intros (key & row & Hrow & Hq & Hr & Hrep & ->) Hne.
  apply (session_calm (MySqlAccountStore.sql_update_sequence token expected replacement) _ _ _ _
    (λ e, if was_ok e then if changed_one e then Storage_ok else Storage_conflict else Storage_unavailable)); [|rw //=|done].
  - intros l' Hens. rw {1}Hrep Z.eqb_refl. exact Hens.
  - rw /MySqlAccountStore.sql_update_sequence Hrow Hq Z.eqb_refl Hr /=. destruct (Z.eqb_spec replacement expected) as [Heq|]; [|done].
    destruct Hne. apply session_of_Some in Hrow as [_ Hrow]. rw insert_id; [|by destruct b].
    rw Hrow. destruct row; rw /MySqlAccountStore.with_sequence; cbn in *. congruence.
Qed.

(** What the guards and the columns ask for. *)
Definition store_fits (c : StoreCall) db : Prop :=
  match c with Games c => fits c db | Accounts c => account_fits c db end.

Lemma make_store_calm c b a log l :
  db_ok b → store_commits c b a → a ≠ b → store_fits c b → at_point None log b l →
  ens (make_store c) (ends Storage_ok (log ++ [(b, a)]) a) l.
Proof.
  intros Hdb Hcommit Hne Hfits Hp.
  assert (∀ {A} (m : Db A) (f : A → StorageError) r, f r = Storage_ok →
    ens m (ends r (log ++ [(b, a)]) a) l → ens (x ← m; mret (f x)) (ends Storage_ok (log ++ [(b, a)]) a) l) as Hbind.
  { intros A m f r Hr Hm. apply ens_bind. eapply ens_mono; [exact Hm|]. intros x l' [-> ?]. by apply ens_ret. }
  destruct c as [c|c].
  - destruct c; cbn [store_commits commits] in Hcommit; [done|done|done|..].
    + by apply create_calm.
    + destruct Hcommit as [Hpos [w Hc]]. eapply Hbind; [|by apply buy_in_calm]. done.
    + destruct Hcommit as (w & stack & Hc). eapply Hbind; [|by apply cash_out_calm]. done.
    + by apply begin_calm.
    + destruct Hcommit as [Hc| ->]; [by apply append_calm|done].
    + by apply settle_calm.
    + by apply abort_calm.
  - destruct Hcommit as [Hcommit|[_ ->]]; [|done]. destruct c; cbn [account_change] in Hcommit; [|done|done| |done|..].
    + eapply Hbind; [|by apply create_user_calm]. done.
    + by apply store_session_calm.
    + by apply rotate_session_calm.
    + by apply revoke_session_calm.
    + by apply update_sequence_calm.
Qed.

(** C13: calls that can be carried out are. While nothing fails and no other client is
    active, a change that a method of either store may commit, with values that fit
    the columns, is committed by the call, as its only commit, and the answer is
    that it was. *)
Theorem mysql_calls_succeed (c : StoreCall) (l : Link) a :
  calm l → ln_saved l = None → db_ok (ln_db l) → store_commits c (ln_db l) a → a ≠ ln_db l → store_fits c (ln_db l) →
  ∃ l', make_store c l = (Storage_ok, l') ∧ ln_saved l' = None ∧ ln_db l' = a ∧
    ln_commits l' = ln_commits l ++ [(ln_db l, a)].
Proof.
  intros Hcalm Hs Hdb Hcommit Hne Hfits.
  assert (ens (make_store c) (ends Storage_ok (ln_commits l ++ [(ln_db l, a)]) a) l) as Hens by by apply make_store_calm.
  destruct (make_store c l) as [e l'] eqn:Hmake. destruct (ens_result _ _ _ _ _ Hens Hmake) as [-> (_ & ? & ? & ?)].
  by exists l'.
Qed.

(** ** Reading back *)

Lemma calm_others l : calm l → others_keep eq l.
Proof. intros Hcalm n db. symmetry. apply Hcalm. Qed.

Lemma find_named name db i row :
  accounts_ok db → db_users db !! i = Some row → same_text (us_username row) name = true →
  List.find (MySqlAccountStore.named name) (map_to_list (db_users db)) = Some (i, row).
Proof.
  intros Hac Hrow Hname. destruct (List.find _ _) as [[j y]|] eqn:Hfind.
  - apply find_some in Hfind as [Hin Hy]. apply list_elem_of_In, elem_of_map_to_list in Hin.
    assert (j = i) as ->; [|congruence]. eapply (ac_names _ Hac); [done..|].
    rw /MySqlAccountStore.named /= /same_text in Hy. rw /same_text in Hname *. guards. apply bool_decide_eq_true. congruence.
  - assert ((i, row) ∈ map_to_list (db_users db)) as Hin%list_elem_of_In by by apply elem_of_map_to_list.
    pose proof (find_none _ _ Hfind _ Hin) as Hno. by rw /MySqlAccountStore.named /= Hname in Hno.
Qed.

Lemma find_user_calm unavailable query u db log l :
  at_point None log db l → query db = Some u → MySqlAccountStore.user_truncated u = false →
  (with_lease unavailable (MySqlAccountStore.fetchUser query) l).1 = sr_ok u.
Proof.
  intros Hp Hq Hfit.
  assert (ens (with_lease unavailable (MySqlAccountStore.fetchUser query)) (ends (sr_ok u) log db) l) as Hens; [|by destruct Hens].
  apply (calm_lease _ _ _ log _ db); [done|]. intros l1 Hp1. apply ens_bind, (calm_succeeds None log db); [done|].
  intros l2 Hp2. apply ens_bind, (calm_select None log _ db); [done|]. intros l3 Hp3. rw Hq.
  apply ens_bind, (calm_fetch_row None log _ _ db); [done|by intros ? [= <-]|]. intros l4 Hp4. by apply ens_ret.
Qed.

(** A registration that succeeded: lookups by the id and by any spelling of the name
    that the collation takes for the same give the user as registered. *)
Lemma createUser_read_back (name hash : string) (chips : Z) (l l1 : Link) r :
  calm l → ln_saved l = None → db_ok (ln_db l) → accounts_ok (ln_db l) →
  MySqlAccountStore.createUser name hash chips l = (r, l1) → sr_error r = Storage_ok →
  (String.length name ≤ 33)%nat → (String.length hash ≤ 256)%nat →
  calm l1 ∧ ln_saved l1 = None ∧ db_ok (ln_db l1) ∧ accounts_ok (ln_db l1) ∧
  ∃ u, r = sr_ok u ∧ username u = name ∧ password_hash u = hash ∧ wallet_balance u = chips ∧
    (MySqlAccountStore.findUserById (user_id u) l1).1 = sr_ok u ∧
    (∀ spelling, same_text name spelling = true → (MySqlAccountStore.findUserByName spelling l1).1 = sr_ok u).
Proof.
  intros Hcalm Hs Hdb Hac Hcreate Hok Hn Hh.
  pose proof (ens_result _ _ _ _ _ (createUser_spec eq l (calm_others l Hcalm) name hash chips l (start_phase eq l Hs)) Hcreate)
    as Hout. cbv beta in Hout.
  destruct Hout as [(d & _ & [? _])|(b & a & (Hw & Hs1 & Hc1 & <- & Ha) & Hcommit & [->|He])]; [done| |congruence].
  destruct (user_keeps _ _ _ _ _ Hcommit) as [Hk _]. destruct (Hk (conj Hdb Hac)) as ([Hdb' Hac'] & _).
  destruct Hcommit as [_ _ _ _ Hafter].
  assert (calm l1) as Hcalm1 by (intros n; rw Hw; apply Hcalm).
  assert (at_point None (ln_commits l1) a l1) as Hp by by split_and!.
  set (id := db_next_user (ln_db l)) in *. set (row := mkUserRow name hash false).
  assert (db_users a !! id = Some row) as Hrow by (rw Hafter /=; apply lookup_insert_eq).
  assert (MySqlAccountStore.user_record a (id, row) = Some (mkUser id name hash chips false)) as Hrecord.
  { by rw /MySqlAccountStore.user_record Hafter /= lookup_insert_eq. }
  assert (MySqlAccountStore.user_truncated (mkUser id name hash chips false) = false) as Hfit.
  { rw /MySqlAccountStore.user_truncated. apply orb_false_iff. by split; apply Nat.ltb_ge. }
  rw -Ha. split_and!; [done..|]. eexists. split_and!; [done..| |].
  - eapply find_user_calm; [done| |done]. by rw /MySqlAccountStore.sql_user_by_id /= Hrow.
  - intros spelling Hsame. eapply find_user_calm; [done| |done].
    rw /MySqlAccountStore.sql_user_by_name (find_named _ _ id row) //.
Qed.

(** A session that was stored is in the table under its key, which was free. *)
Lemma storeSession_stored (x : SessionRecord) (l l1 : Link) :
  calm l → ln_saved l = None → MySqlAccountStore.storeSession x l = (Storage_ok, l1) →
  calm l1 ∧ ln_saved l1 = None ∧
  ∃ bytes, unhex (token_hash x) ≫= MySqlAccountStore.binary32 = Some bytes ∧
    db_sessions (ln_db l) !! bytes = None ∧
    ln_db l1 = set_sessions (<[bytes := session_row x]> (db_sessions (ln_db l))) (ln_db l).
Proof.
  intros Hcalm Hs Hstore.
  pose proof (ens_result _ _ _ _ _ (storeSession_spec eq l (calm_others l Hcalm) x l (start_phase eq l Hs)) Hstore)
    as Hout. cbv beta in Hout.
  destruct Hout as [(d & _ & ?)|(b & a & (Hw & Hs1 & Hc1 & <- & Ha) & _ & Hdone)]; [done|].
  destruct (Hdone eq_refl) as (bytes & Hbytes & Hfree & _ & Hafter).
  split; [intros n; rw Hw; apply Hcalm|]. split; [done|]. exists bytes. by rw -Ha.
Qed.

(** A lookup of a session, whatever it finds. *)
Lemma findSession_calm token now (l : Link) :
  calm l → ln_saved l = None →
  (MySqlAccountStore.findSession token now l).1 =
    match MySqlAccountStore.sql_live_session token now (ln_db l) with
    | Some row => sr_ok (mkSession (ss_user_id row) token (ss_expires_at row) (ss_last_client_sequence row) false)
    | None => sr_fail Storage_not_found "session not found"
    end.
Proof.
  intros Hcalm Hs. assert (at_point None (ln_commits l) (ln_db l) l) as Hp by by split_and!.
  set (answer := match _ with Some row => _ | None => _ end).
  assert (ens (MySqlAccountStore.findSession token now) (ends answer (ln_commits l) (ln_db l)) l) as Hens; [|by destruct Hens].
  apply (calm_lease _ _ _ (ln_commits l) _ (ln_db l)); [done|]. intros l1 Hp1.
  apply ens_bind, (calm_succeeds None (ln_commits l) (ln_db l)); [done|].
  intros l2 Hp2. apply ens_bind, (calm_select None (ln_commits l) _ (ln_db l)); [done|]. intros l3 Hp3.
  apply ens_bind, (calm_fetch_row None (ln_commits l) _ _ (ln_db l)); [done..|]. intros l4 Hp4. apply ens_ret.
  split; [|done]. rw /answer. by destruct (MySqlAccountStore.sql_live_session _ _ _).
Qed.
End accounts.
