(* ===== verification/MySqlRefinement.v ===== *)
(** * The MySQL game store against the in-memory one

    The in-memory store is the specification: a database represents one of its
    states when both have the same wallets, tables, seats, hands, actions and used
    keys, and what a MySQL call commits is what the in-memory call does. *)
From stdpp Require Import pretty.
From S2P Require Import Prelude Card Table AccountStore GameStore GameStoreLib GameStoreInv MySqlDatabase MySqlClient.
From S2P Require MySqlGameStore.
From S2P Require Import MySqlCommits MySqlInv MySqlTheorems.

Notation record := MySqlGameStore.record.
Notation action_row := MySqlGameStore.action_row.
Notation table_row := MySqlGameStore.table_row.

Definition seat_of (user : Z) (s : TableSeat) : SeatRecord := mkSeat user (ts_seat_no s) (ts_stack s).

Record represents_table (seats : gmap (Z * Z) TableSeat) (id : Z) (t : StoredTable) (pt : PokerTable) : Prop := {
  rt_record : st_record t = record (id, pt);
  rt_aborted : st_aborted t = bool_decide (pt_status pt = Status_aborted);
  rt_playing : st_hand_in_progress t = bool_decide (pt_status pt = Status_playing);
  rt_seats : ∀ u, st_seats t !! u = seat_of u <$> seats !! (id, u);
  rt_occupied : ∀ n u, st_occupied t !! n = Some u ↔ ∃ s, seats !! (id, u) = Some s ∧ ts_seat_no s = n;
}.

Record represents (db : Database) (g : InMemoryGameStore) : Prop := {
  rp_wallets : wallets g = db_wallets db;
  rp_tables : ∀ id, option_Forall2 (represents_table (db_seats db) id) (tables g !! id) (db_tables db !! id);
  rp_ledger : ∀ u k, 0 ≤ u → is_Some (ledger g !! ledgerKey u k) →
    ∃ r, r ∈ db_ledger db ∧ wl_user_id r = u ∧ wl_idempotency_key r = k;
  rp_hands : ∀ h, is_Some (hand_starts g !! h) ↔ is_Some (db_hands db !! h);
  rp_settled : ∀ h, is_Some (settlements g !! h) ↔ ∃ row, db_hands db !! h = Some row ∧ hd_status row = Hand_settled;
  rp_actions : ∀ k, option_Forall2 (λ a row, k = (ha_hand_id a, ha_sequence a) ∧ row = action_row a)
    (actions g !! k) (db_hand_actions db !! k);
}.

(** The in-memory call. *)
Definition memory_call (c : MySqlCall) (g : InMemoryGameStore) : result StorageError * InMemoryGameStore :=
  match c with
  | FindTable id => (Ok (sr_error (findTable id g)), g)
  | ListOpenTables limit => (Ok (sr_error (listOpenTables limit g)), g)
  | CountOpenTables node => (Ok (sr_error (countOpenTables node g)), g)
  | CreateTable t => createTable t g
  | ReserveBuyIn id user seat amount key =>
      let '(r, g) := reserveBuyIn id user seat amount key g in (Ok (sr_error r), g)
  | CashOut id user key => let '(r, g) := cashOut id user key g in (Ok (sr_error r), g)
  | BeginHand hand => let '(e, g) := beginHand hand g in (Ok e, g)
  | AppendAction x => let '(e, g) := appendAction x g in (Ok e, g)
  | SettleHand v => let '(e, g) := settleHand v g in (Ok e, g)
  | AbortTable id => let '(e, g) := abortTableAndRefund id g in (Ok e, g)
  end.

(** What the MySQL store leaves to its clients: ids are positive, new tables ask
    for two players at least and have names, the seats of hands are the players',
    a hand has two players, no action is repeated in another hand's name. *)
Definition proper (c : MySqlCall) (db : Database) : Prop :=
  match c with
  | FindTable _ | ListOpenTables _ | CountOpenTables _ => True
  | CreateTable t =>
      table_id t ≠ 0 ∧ created_by t ≠ 0 ∧ table_name t ≠ ""%string ∧ node_id t ≠ ""%string ∧
      min_players (table_config t) = 2%nat
  | ReserveBuyIn id user seat amount key =>
      id ≠ 0 ∧ 0 < user ∧ 0 ≤ seat ∧ key ≠ ""%string ∧ (String.length key ≤ 96)%nat
  | CashOut id user key => id ≠ 0 ∧ 0 < user ∧ key ≠ ""%string ∧ (String.length key ≤ 96)%nat
  | BeginHand hand =>
      hsr_hand_id hand ≠ 0 ∧ hsr_table_id hand ≠ 0 ∧ hsr_hand_number hand ≠ 0 ∧ (2 ≤ length (hsr_players hand))%nat ∧
      ∀ p s, p ∈ hsr_players hand → db_seats db !! (hsr_table_id hand, hs_user_id p) = Some s → ts_seat_no s = hs_seat p
  | AppendAction x => ha_hand_id x ≠ 0 ∧ ha_sequence x ≠ 0 ∧ ha_request_id x ≠ 0 ∧ ha_user_id x ≠ 0
  | SettleHand v =>
      ∀ p s, p ∈ hst_players v → db_seats db !! (hst_table_id v, hp_user_id p) = Some s → ts_seat_no s = hp_seat p
  | AbortTable _ => True
  end.

Section refinement.
  Context `{!Collation}.
  Implicit Types (b a : Database) (g : InMemoryGameStore).

Lemma lookup_insert_pair {A} (m : gmap (Z * Z) A) t u u' x :
  <[(t, u) := x]> m !! (t, u') = if decide (u = u') then Some x else m !! (t, u').
Proof. rw lookup_insert. destruct (decide (u = u')), (decide ((t, u) = (t, u'))); congruence. Qed.

(** ** Tables *)

Lemma represented_table b g id pt :
  represents b g → db_tables b !! id = Some pt →
  ∃ t, tables g !! id = Some t ∧ represents_table (db_seats b) id t pt.
Proof. intros Hr Hpt. destruct (rp_tables _ _ Hr id) as [t pt' Ht|]; simplify_eq. by exists t. Qed.

Lemma represented_none b g id : represents b g → db_tables b !! id = None → tables g !! id = None.
Proof. intros Hr Hpt. by destruct (rp_tables _ _ Hr id). Qed.

(** One table changes, with its seats. *)
Lemma represents_update b g id t pt seats :
  represents b g → represents_table seats id t pt → (∀ i u, i ≠ id → seats !! (i, u) = db_seats b !! (i, u)) →
  ∀ i, option_Forall2 (represents_table seats i) (<[id := t]> (tables g) !! i) (<[id := pt]> (db_tables b) !! i).
Proof.
  intros Hr Ht Hseats i. rw !lookup_insert. case_decide as Hi; [subst; by constructor|].
  destruct (rp_tables _ _ Hr i) as [t' pt' Ht'|]; constructor.
  destruct Ht' as [Hrec Hab Hpl Hs Ho]. split; [done..| |].
  - intros u. by rw Hs Hseats.
  - intros n u. by rw Ho Hseats.
Qed.

(** A key that is unused in the database is unused in memory. *)
Lemma unused_in_memory b g u k : represents b g → 0 ≤ u → unused u k b → ledger g !! ledgerKey u k = None.
Proof.
  intros Hr Hu Hunused. destruct (ledger g !! ledgerKey u k) as [x|] eqn:Hx; [|done]. exfalso.
  destruct (rp_ledger _ _ Hr u k Hu) as (r & Hin & Hru & Hrk); [by eexists|].
  pose proof (unused_has_key u k _ r Hunused Hin) as Hno.
  by rw /has_key /same_text Hru Hrk Z.eqb_refl bool_decide_eq_true_2 in Hno.
Qed.

(** A row is added for a new key. *)
Lemma ledger_snoc b g u k x r :
  represents b g → 0 ≤ u → wl_user_id r = u → wl_idempotency_key r = k →
  ∀ u' k', 0 ≤ u' → is_Some (<[ledgerKey u k := x]> (ledger g) !! ledgerKey u' k') →
    ∃ r', r' ∈ db_ledger b ++ [r] ∧ wl_user_id r' = u' ∧ wl_idempotency_key r' = k'.
Proof.
  intros Hr Hu Hru Hrk u' k' Hu'. rw lookup_insert. case_decide as Heq.
  - apply ledgerKey_inj in Heq as [<- <-]; [|done..]. intros _. exists r. split; [|done]. apply elem_of_app. right. by left.
  - intros Hsome. destruct (rp_ledger _ _ Hr u' k' Hu' Hsome) as (r' & ? & ?). exists r'. split; [|done].
    apply elem_of_app. by left.
Qed.

Definition implements (c : MySqlCall) b a : Prop :=
  ∀ g, represents b g → ∃ g', memory_call c g = (Ok Storage_ok, g') ∧ represents a g'.

Lemma waiting_flags t pt seats id :
  represents_table seats id t pt → pt_status pt = Status_waiting_table →
  st_aborted t = false ∧ st_hand_in_progress t = false.
Proof. by intros [? -> -> _ _] ->. Qed.

Lemma playing_flags t pt seats id :
  represents_table seats id t pt → pt_status pt = Status_playing →
  st_aborted t = false ∧ st_hand_in_progress t = true.
Proof. by intros [? -> -> _ _] ->. Qed.

Lemma buy_in_implements id user seat amount key w b a :
  proper (ReserveBuyIn id user seat amount key) b → 0 < amount →
  buy_in_commit id user seat amount key w b a → implements (ReserveBuyIn id user seat amount key) b a.
Proof.
  intros (Hid & Huser & Hseat & Hkey & Hlen) Hpos [(pt & [Hpt Hwait] & Hmax & Hrange) Hw Henough Hfree Hplace Hunused ->] g Hr.
  destruct (represented_table b g id pt Hr Hpt) as (t & Ht & Hrt).
  destruct (waiting_flags _ _ _ _ Hrt Hwait) as [Haborted Hplaying].
  eexists. split.
  - rw /= /reserveBuyIn. pass_guard.
    rw (unused_in_memory b g) //; [lia|]. rw Ht (rp_wallets _ _ Hr) Hw Haborted Hplaying.
    rw (rt_record _ _ _ _ Hrt) /=. pass_guard.
    assert (st_seats t !! user = None) as Hnone by by rw (rt_seats _ _ _ _ Hrt) Hfree.
    assert (st_occupied t !! seat = None) as Hvacant.
    { destruct (st_occupied t !! seat) as [u|] eqn:Hu; [|done]. exfalso.
      apply (rt_occupied _ _ _ _ Hrt) in Hu as (s & Hs & Hno). by apply (seat_taken_None id seat b u s). }
    do 2 pass_guard. reflexivity.
  - split; cbn; [done| |by eapply ledger_snoc; [|lia|..]|apply Hr..].
    intros i. rw -(insert_id (db_tables b) id pt) //. eapply represents_update; [done| |].
    + destruct Hrt as [Hrec Hab Hpl Hs Ho]. split; [done..| |]; cbn.
      * intros u. rw lookup_insert lookup_insert_pair Hs. by destruct (decide (user = u)) as [<-|].
      * intros n u. rw lookup_insert_Some Ho lookup_insert_pair. destruct (decide (user = u)) as [<-|Hu].
        -- split; [intros [[<- _]|[_ (s & ? & _)]]; [by eexists|congruence]|]. intros (s & [= <-] & <-). by left.
        -- split; [intros [[_ <-]|[_ ?]]; done|]. intros (s & Hx & <-). right. split; [|by exists s].
           intros Heq. by apply (seat_taken_None id seat b u s).
    + intros i' u Hi. rw lookup_insert_ne //. congruence.
Qed.

Lemma cash_out_implements id user key w stack b a :
  proper (CashOut id user key) b → cash_out_commit id user key w stack b a → implements (CashOut id user key) b a.
Proof.
  intros (Hid & Huser & Hkey & Hlen) [(pt & Hpt & Hwait) Hw (s & Hs & Hstack) Hunused Hrange ->] g Hr.
  destruct (represented_table b g id pt Hr Hpt) as (t & Ht & Hrt).
  destruct (waiting_flags _ _ _ _ Hrt Hwait) as [Haborted Hplaying].
  assert (st_seats t !! user = Some (seat_of user s)) as Hseat by by rw (rt_seats _ _ _ _ Hrt) Hs.
  eexists. split.
  - rw /= /cashOut. pass_guard. rw (unused_in_memory b g) //; [lia|].
    rw Ht (rp_wallets _ _ Hr) Hw Hplaying Hseat /= Hstack. reflexivity.
  - split; cbn; [done| |by eapply ledger_snoc; [|lia|..]|apply Hr..].
    intros i. rw -(insert_id (db_tables b) id pt) //. eapply represents_update; [done| |].
    + destruct Hrt as [Hrec Hab Hpl Hs' Ho]. split; [done..| |]; cbn.
      * intros u. rw lookup_delete. destruct (decide (user = u)) as [<-|Hu]; [by rw lookup_delete_eq|].
        rw lookup_delete_ne //. congruence.
      * intros n u. rw lookup_delete_Some Ho. split.
        -- intros [Hn (x & Hx & Hxn)]. exists x. split; [|done]. rw lookup_delete_ne //. congruence.
        -- intros (x & [Hne Hx]%lookup_delete_Some & Hxn). split; [|by exists x].
           intros Heq. assert (st_occupied t !! n = Some u) as H1 by (apply Ho; by exists x).
           assert (st_occupied t !! n = Some user) as H2 by (apply Ho; exists s; by split).
           congruence.
    + intros i' u Hi. rw lookup_delete_ne //. congruence.
Qed.

Lemma table_implements t b a : db_ok b → proper (CreateTable t) b → table_commit t b a → implements (CreateTable t) b a.
Proof.
  intros Hdb (Hid & Hby & Hname & Hnode & Hmin) (Hnone & Hchecks & ->) g Hr.
  rw /table_checks /= in Hchecks. guards.
  eexists. split.
  - rw /= /createTable. pass_guard. rw /i64 -/(bigint _). rw (_ : bigint _ = true) //.
    pass_guard. rw (represented_none b g _ Hr Hnone). reflexivity.
  - split; cbn; try apply Hr. intros i. rw !lookup_insert. case_decide as Hi; [|apply Hr]. subst i. constructor.
    assert (∀ u, db_seats b !! (table_id t, u) = None) as Hempty.
    { intros u. destruct (db_seats b !! (table_id t, u)) as [s|] eqn:Hs; [|done].
      destruct (so_open _ _ (ok_seating _ Hdb) _ _ _ Hs) as (pt & ? & _). congruence. }
    split; cbn; try done.
    + destruct t as [id name node [mn mx sb bb mi ma] by_]. rw /MySqlGameStore.record /=. cbn in *. rw Nat2Z.id. by rw Hmin.
    + intros u. by rw lookup_empty Hempty.
    + intros n u. rw lookup_empty. split; [done|]. intros (s & Hs & _). by rw Hempty in Hs.
Qed.

(** The players of a starting hand have the seats and stacks it names. *)
Lemma each_start_players hand ps b d :
  (∀ t u x, db_seats b !! (t, u) = Some x → ts_hand_start_stack x = ts_stack x) →
  each (start_player hand) ps b d →
  ∀ p, p ∈ ps → length (hs_hole_cards p) = 2%nat ∧
    ∃ s, db_seats b !! (hsr_table_id hand, hs_user_id p) = Some s ∧ ts_stack s = hs_start_stack p.
Proof.
  intros Hstart. induction 1 as [b|p ps b d a Hp Hps IH]; [by intros p ?%not_elem_of_nil|].
  destruct Hp as (_ & Hcards & _ & x & Hx & Hstack & ->). cbn in IH.
  rw insert_id in IH; [|cbn in IH].
  { rw -Hstack Hx. specialize (Hstart _ _ _ Hx). destruct x; cbn in *. congruence. }
  intros q [->|Hq]%elem_of_cons; [|by apply IH]. split; [done|]. by exists x.
Qed.

Lemma begin_hand_implements hand b a :
  db_ok b → proper (BeginHand hand) b → begin_hand_commit hand b a → implements (BeginHand hand) b a.
Proof.
  intros Hdb (Hid & Htid & Hnum & Hlen & Hplaces) [(pt & Hpt & Hwait) Hfresh (d & pt' & Heach & Hpt' & ->)] g Hr.
  destruct (represented_table b g _ pt Hr Hpt) as (t & Ht & Hrt).
  destruct (waiting_flags _ _ _ _ Hrt Hwait) as [Haborted Hplaying].
  assert (∀ t u x, db_seats (set_hands (<[hsr_hand_id hand := new_hand hand]> (db_hands b)) b) !! (t, u) = Some x →
    ts_hand_start_stack x = ts_stack x) as Hstart.
  { intros t0 u x Hx. by destruct (mo_seats _ _ _ (ok_money _ Hdb) t0 u x Hx) as (_ & ? & _). }
  pose proof (each_start_players _ _ _ _ Hstart Heach) as Hplayers.
  apply each_start in Heach as [m ->]; [|done]. cbn in *. simplify_eq.
  assert (hand_starts g !! hsr_hand_id hand = None) as Hnone.
  { apply eq_None_not_Some. by rw (rp_hands _ _ Hr) Hfresh -eq_None_not_Some. }
  assert (settlements g !! hsr_hand_id hand = None) as Hunsettled.
  { apply eq_None_not_Some. rw (rp_settled _ _ Hr). intros (row & Hrow & _). congruence. }
  eexists. split.
  - rw /beginHand. do 2 pass_guard. rw Ht Haborted Hplaying.
    assert (forallb (start_player_ok t) (hsr_players hand) = true) as ->; [|reflexivity].
    apply forallb_forall. intros p Hp%list_elem_of_In. destruct (Hplayers p Hp) as (Hcards & s & Hs & Hst).
    rw /start_player_ok (rt_seats _ _ _ _ Hrt) Hs /= Hst (Hplaces p s Hp Hs) Hcards. by rw !Z.eqb_refl.
  - split; cbn; try apply Hr.
    + eapply represents_update; [done| |done].
      destruct Hrt as [Hrec Hab Hpl Hs Ho]. by split.
    + intros h. rw !lookup_insert. case_decide; [|apply Hr]. split; by eexists.
    + intros h. rw (rp_settled _ _ Hr). split.
      * intros (row & Hrow & ?). exists row. split; [|done]. rw lookup_insert_ne //. congruence.
      * intros (row & [[_ <-]|[_ Hrow]]%lookup_insert_Some & ?); [done|by exists row].
Qed.

Lemma action_implements x b a : proper (AppendAction x) b → action_commit x b a → implements (AppendAction x) b a.
Proof.
  intros (Hh & Hs & Hq & Hu) [(row & Hrow & Hplay) Hfresh Hreq ->] g Hr.
  assert (actions g !! (ha_hand_id x, ha_sequence x) = None) as Hnone.
  { destruct (rp_actions _ _ Hr (ha_hand_id x, ha_sequence x)); congruence. }
  destruct (proj2 (rp_hands _ _ Hr (ha_hand_id x))) as [hand Hhand]; [by eexists|].
  assert (settlements g !! ha_hand_id x = None) as Hunsettled.
  { apply eq_None_not_Some. rw (rp_settled _ _ Hr). intros (row' & ? & ?). congruence. }
  assert (List.find (same_request x) (merge_sort action_key_le (map_to_list (actions g))) = None) as Hfind.
  { destruct (List.find _ _) as [[k y]|] eqn:Hf; [exfalso|done]. apply find_some in Hf as [Hin Hsame].
    apply list_elem_of_In in Hin. rw merge_sort_Permutation elem_of_map_to_list in Hin.
    rw /same_request /= in Hsame. guards.
    pose proof (rp_actions _ _ Hr k) as Hk. rw Hin in Hk.
    inversion Hk as [y' r' [-> ->] Hy Hr'|]; subst.
    apply (Hreq (ha_sequence y) (action_row y)); [|done]. congruence. }
  eexists. split.
  - rw /= /appendAction. pass_guard. rw Hhand Hunsettled Hnone Hfind /=. reflexivity.
  - split; cbn; try apply Hr. intros k. rw !lookup_insert. case_decide; [|apply Hr]. subst k. by constructor.
Qed.

(** Paying the players one after the other, in the database and in memory. *)
Lemma each_settle_seats v ps b d (S : gmap Z SeatRecord) :
  each (settle_player v) ps b d → (∀ u, S !! u = seat_of u <$> db_seats b !! (hst_table_id v, u)) →
  (∀ u, foldl pay_seat S ps !! u = seat_of u <$> db_seats d !! (hst_table_id v, u)) ∧
  (∀ i u, i ≠ hst_table_id v → db_seats d !! (i, u) = db_seats b !! (i, u)) ∧
  (∀ k, ts_seat_no <$> db_seats d !! k = ts_seat_no <$> db_seats b !! k).
Proof.
  intros Heach. revert S. induction Heach as [b|p ps b d a Hp Hps IH]; intros S HS; [done|].
  destruct Hp as (old & s & _ & _ & Hs & _ & ->). cbn in IH.
  destruct (IH (pay_seat S p)) as (H1 & H2 & H3).
  { intros u. rw pay_seat_lookup lookup_insert_pair HS.
    destruct (decide (u = hp_user_id p)) as [->|Hu].
    - by rw decide_True // Hs.
    - by rw decide_False. }
  split_and!; [done| |].
  - intros i u Hi. rw H2 // lookup_insert_ne //. congruence.
  - intros k. rw H3 lookup_insert. destruct (decide _) as [<-|]; [|done]. by rw Hs.
Qed.

(** Each player of a settlement has the seat and stack it names. *)
Lemma each_settle_players v ps b d :
  NoDup (hp_user_id <$> ps) → each (settle_player v) ps b d →
  ∀ p, p ∈ ps → ∃ s, db_seats b !! (hst_table_id v, hp_user_id p) = Some s ∧ ts_hand_start_stack s = hp_start_stack p.
Proof.
  intros Hnd Heach. induction Heach as [b|p ps b d a Hp Hps IH]; [by intros p ?%not_elem_of_nil|].
  apply NoDup_cons in Hnd as [Hnotin Hnd]. destruct Hp as (old & s & _ & _ & Hs & Hst & ->). cbn in IH.
  intros q [->|Hq]%elem_of_cons; [by exists s|]. destruct (IH Hnd q Hq) as (x & Hx & ?). exists x. split; [|done].
  rw lookup_insert_ne // in Hx. intros [= Heq]. apply Hnotin. rw Heq. by apply list_elem_of_fmap_2.
Qed.

Lemma settle_player_keeps v p b a :
  settle_player v p b a →
  db_wallets a = db_wallets b ∧ db_hands a = db_hands b ∧ db_hand_actions a = db_hand_actions b ∧ db_ledger a = db_ledger b.
Proof. by intros (old & s & _ & _ & _ & _ & ->). Qed.

Lemma each_settle_keeps v ps b d :
  each (settle_player v) ps b d →
  db_tables d = db_tables b ∧ db_wallets d = db_wallets b ∧ db_hands d = db_hands b ∧
  db_hand_actions d = db_hand_actions b ∧ db_ledger d = db_ledger b.
Proof.
  induction 1 as [|p ps b d a Hp _ IH]; [done|].
  destruct (settle_player_keeps _ _ _ _ Hp) as (<- & <- & <- & <-).
  by rw -(MySqlSpecs.settle_player_tables _ _ _ _ Hp).
Qed.

Lemma settle_implements v b a :
  db_ok b → proper (SettleHand v) b → settle_commit v b a → implements (SettleHand v) b a.
Proof.
  intros Hdb Hplaces [Hv (pt & Hpt & Hplay) (h & Hh & Htab & Hhand & d & pt' & Heach & Hpt' & ->)] g Hr.
  destruct (represented_table b g _ pt Hr Hpt) as (t & Ht & Hrt).
  destruct (playing_flags _ _ _ _ Hrt Hplay) as [Haborted Hplaying].
  destruct (settle_sums v Hv) as [Hnd _].
  pose proof (each_settle_players _ _ _ _ Hnd Heach) as Hplayers.
  destruct (each_settle_seats v _ _ _ (st_seats t) Heach (rt_seats _ _ _ _ Hrt)) as (Hpaid & Hothers & Hnos).
  destruct (each_settle_keeps _ _ _ _ Heach) as (Htables & Hwallets & Hhands & Hactions & Hledger). cbn in *.
  rw Htables in Hpt'. simplify_eq.
  assert (settlements g !! hst_hand_id v = None) as Hunsettled.
  { apply eq_None_not_Some. rw (rp_settled _ _ Hr). intros (row & ? & ?). congruence. }
  destruct (proj2 (rp_hands _ _ Hr (hst_hand_id v))) as [start Hstart]; [by eexists|].
  eexists. split.
  - rw /settleHand Hv /= Hunsettled Hstart Ht Haborted Hplaying /=.
    assert (forallb (settle_player_ok t) (hst_players v) = true) as ->; [|reflexivity].
    apply forallb_forall. intros p Hp%list_elem_of_In. destruct (Hplayers p Hp) as (s & Hs & Hst).
    destruct (mo_seats _ _ _ (ok_money _ Hdb) _ _ _ Hs) as (_ & Hsame & _).
    destruct (settlement_ends v Hv p Hp) as (_ & _ & Hcom & Hwin & _ & Hend & _).
    rw /settle_player_ok (rt_seats _ _ _ _ Hrt) Hs /= (Hplaces p s Hp Hs) -Hsame Hst Hend !Z.eqb_refl /=.
    apply negb_true_iff. guard_false.
  - split; cbn.
    + by rw Hwallets (rp_wallets _ _ Hr).
    + rw Htables. eapply represents_update; [done| |done].
      destruct Hrt as [Hrec Hab Hpl Hs Ho]. split; [done|done|done|done|]. cbn.
      intros n u. rw Ho. specialize (Hnos (hst_table_id v, u)).
      destruct (db_seats d !! (hst_table_id v, u)), (db_seats b !! (hst_table_id v, u)); cbn in Hnos; naive_solver.
    + rw Hledger. apply Hr.
    + intros h'. rw Hhands (rp_hands _ _ Hr) lookup_insert. destruct (decide _) as [<-|]; [|done].
      rw Hh. split; by eexists.
    + intros h'. rw Hhands !lookup_insert. destruct (decide _) as [<-|]; [|apply Hr]. split; [by eexists|by eexists].
    + rw Hactions. apply Hr.
Qed.

Lemma refund_implements id b a : db_ok b → refund_commit id b a → implements (AbortTable id) b a.
Proof.
  intros Hdb [(pt & Hpt & Hclose & ->) _ _] g Hr.
  destruct (represented_table b g _ pt Hr Hpt) as (t & Ht & Hrt).
  assert (st_aborted t = false) as Haborted.
  { rw (rt_aborted _ _ _ _ Hrt). apply bool_decide_eq_false_2. intros Hst. by rw /is_closable /is_open Hst in Hclose. }
  assert (∀ u s, (u, s) ∈ map_to_list (st_seats t) → ∃ x z, db_seats b !! (id, u) = Some x ∧ s = seat_of u x ∧
    0 ≤ ts_stack x ∧ db_wallets b !! u = Some z) as Hseats.
  { intros u s Hs%elem_of_map_to_list. rw (rt_seats _ _ _ _ Hrt) in Hs. apply fmap_Some in Hs as (x & Hx & ->).
    destruct (mo_seats _ _ _ (ok_money _ Hdb) _ _ _ Hx) as (? & _ & [z ?]). by exists x, z. }
  destruct (refund_seats_spec (map_to_list (st_seats t)) (db_wallets b)) as (w' & Hw' & _ & _ & _ & Hout & Hin).
  { apply NoDup_fst_map_to_list. }
  { intros u s (x & z & _ & -> & ? & Hz)%Hseats. split; [by eexists|done]. }
  { intros u z Hz. by destruct (mo_wallets _ _ _ (ok_money _ Hdb) u z Hz) as [[? _] _]. }
  eexists. split.
  - rw /= /abortTableAndRefund Ht Haborted (rp_wallets _ _ Hr) Hw'. reflexivity.
  - split; cbn; try apply Hr.
    + apply map_eq. intros u. rw refunded_lookup.
      destruct (db_seats b !! (id, u)) as [x|] eqn:Hx.
      * assert ((u, seat_of u x) ∈ map_to_list (st_seats t)) as Hu.
        { apply elem_of_map_to_list. by rw (rt_seats _ _ _ _ Hrt) Hx. }
        destruct (Hseats u _ Hu) as (x' & z & _ & _ & _ & Hz).
        rw (Hin u (seat_of u x) z) // Hz /=. f_equal. by rw /paid_back seats_of_lookup Hx.
      * rw Hout.
        { intros ([u' s] & -> & (x & z & Hx' & _)%Hseats)%list_elem_of_fmap. cbn in Hx. congruence. }
        destruct (db_wallets b !! u) as [z|]; [|done]. cbn. f_equal. rw /paid_back seats_of_lookup Hx /=. lia.
    + eapply represents_update; [done| |].
      * split; cbn; [by rw (rt_record _ _ _ _ Hrt)|done|done| |].
        -- intros u. rw lookup_empty. destruct (filter _ _ !! _) as [x|] eqn:Hx; [|done].
           by apply map_lookup_filter_Some in Hx as [_ ?].
        -- intros n u. rw lookup_empty. split; [done|]. by intros (x & [_ ?]%map_lookup_filter_Some & _).
      * intros i u Hi. apply option_eq. intros x. rw map_lookup_filter_Some. cbn. naive_solver.
    + intros u k Hu Hk. destruct (rp_ledger _ _ Hr u k Hu Hk) as (r & ? & ?). exists r. split; [|done].
      apply elem_of_app. by left.
    + intros h. by rw (rp_hands _ _ Hr) lookup_fmap fmap_is_Some.
    + intros h. rw (rp_settled _ _ Hr) lookup_fmap. split.
      * intros (row & Hrow & Hst). exists (abort_hand id row). rw Hrow. split; [done|].
        rw /abort_hand Hst bool_decide_eq_false_2 // andb_false_r //.
      * intros (row' & (row & Hrow & ->)%fmap_Some & Hst). exists row. split; [done|].
        rw /abort_hand in Hst. by destruct (_ && _).
Qed.

Lemma commits_implement c b a : db_ok b → proper c b → commits c b a → a = b ∨ implements c b a.
Proof.
  intros Hdb Hproper. destruct c; cbn [commits]; [done|done|done|..].
  - intros Hc. right. by apply table_implements.
  - intros [Hpos [w Hc]]. right. by eapply buy_in_implements.
  - intros (w & stack & Hc). right. by eapply cash_out_implements.
  - intros Hc. right. by apply begin_hand_implements.
  - intros [Hc|Heq]; [|by left]. right. by apply action_implements.
  - intros Hc. right. by apply settle_implements.
  - intros Hc. right. by apply refund_implements.
Qed.
End refinement.
