(* ===== verification/MySqlStoresRefinement.v ===== *)
(** * The MySQL stores against the in-memory ones

    What a call of either store commits is what the same call does in memory. *)
From stdpp Require Import pretty.
From S2P Require Import Prelude Card Table AccountStore GameStore GameStoreLib GameStoreInv GameStoreSpec MySqlDatabase MySqlClient MySqlCommits MySqlInv MySqlTheorems MySqlRefinement.
From S2P Require MySqlAccountStore.
From S2P Require Import MySqlAccounts MySqlStores.

Section refinement.
  Context `{!Collation, !SessionValues} (spelled : string → string).
  Implicit Types (b a : Database) (s : InMemoryAccountStore) (g : InMemoryGameStore).

(** Tokens as clients write them: 32 bytes, with one spelling. *)
Definition canonical (token key : string) : Prop :=
  MySqlAccountStore.unhex token = Some key ∧ MySqlAccountStore.binary32 key = Some key ∧ spelled key = token.

Definition session_with (token : string) (row : SessionRow) : SessionRecord :=
  mkSession (ss_user_id row) token (ss_expires_at row) (ss_last_client_sequence row) (ss_revoked row).

Record represents_accounts (db : Database) (s : InMemoryAccountStore) : Prop := {
  ra_next : next_user_id s = db_next_user db;
  ra_users : ∀ i, option_Forall2 (λ u row, user_id u = i ∧ username u = us_username row ∧
    password_hash u = us_password_hash row ∧ disabled u = us_disabled row) (users s !! i) (db_users db !! i);
  ra_names : ∀ name i, usernames s !! name = Some i ↔ ∃ row, db_users db !! i = Some row ∧ us_username row = name;
  ra_sessions : ∀ token key, canonical token key →
    option_Forall2 (λ x row, x = session_with token row) (sessions s !! token) (db_sessions db !! key);
}.

Definition proper_account (c : AccountCall) : Prop :=
  match c with
  | CreateUser name hash _ => name ≠ ""%string ∧ hash ≠ ""%string
  | FindUserByName _ | FindUserById _ | FindSession _ _ => True
  | StoreSession x =>
      (∃ key, canonical (token_hash x) key) ∧ token_hash x ≠ ""%string ∧ session_user x ≠ 0 ∧ 0 < expires_at x ∧ revoked x = false
  | RotateSession current x _ => (∃ key, canonical current key) ∧ (∃ key, canonical (token_hash x) key) ∧ revoked x = false
  | RevokeSession token | UpdateSessionSequence token _ _ => ∃ key, canonical token key
  end.

(** The account call in memory; a registration opens the wallet in the game store. *)
Definition memory_account (c : AccountCall) (sg : InMemoryAccountStore * InMemoryGameStore)
    : StorageError * (InMemoryAccountStore * InMemoryGameStore) :=
  let '(s, g) := sg in
  match c with
  | CreateUser name hash chips =>
      let '(r, sg) := memory_createUser name hash chips sg in (sr_error r, sg)
  | FindUserByName name => (sr_error (mem_findUserByName name s), sg)
  | FindUserById user => (sr_error (mem_findUserById user s), sg)
  | StoreSession x => let '(e, s') := mem_storeSession x s in (e, (s', g))
  | FindSession token now => (sr_error (mem_findSession token now s), sg)
  | RotateSession current x now => let '(e, s') := mem_rotateSession current x now s in (e, (s', g))
  | RevokeSession token => let '(e, s') := mem_revokeSession token s in (e, (s', g))
  | UpdateSessionSequence token expected replacement =>
      let '(e, s') := mem_updateSessionSequence token expected replacement s in (e, (s', g))
  end.

Definition represents_stores (db : Database) (sg : InMemoryAccountStore * InMemoryGameStore) : Prop :=
  represents_accounts db sg.1 ∧ represents db sg.2.

Definition account_implements (c : AccountCall) b a : Prop :=
  ∀ sg, represents_stores b sg → ∃ sg', memory_account c sg = (Storage_ok, sg') ∧ represents_stores a sg'.

(** Sessions are no part of what the game store represents. *)
Lemma represents_sessions m b g : represents b g → represents (set_sessions m b) g.
Proof. by intros []. Qed.

Lemma canonical_key token key token' : canonical token key → canonical token' key → token = token'.
Proof. intros (_ & _ & <-) (_ & _ & <-). done. Qed.

Lemma canonical_bytes token key : canonical token key → MySqlAccountStore.unhex token ≫= MySqlAccountStore.binary32 = Some key.
Proof. by intros (-> & ? & _). Qed.

Lemma represented_session b s token key row :
  represents_accounts b s → canonical token key → db_sessions b !! key = Some row →
  sessions s !! token = Some (session_with token row).
Proof. intros Hr Hc Hrow. destruct (ra_sessions _ _ Hr token key Hc); simplify_eq. done. Qed.

Lemma represented_no_session b s token key :
  represents_accounts b s → canonical token key → db_sessions b !! key = None → sessions s !! token = None.
Proof. intros Hr Hc Hrow. by destruct (ra_sessions _ _ Hr token key Hc). Qed.

(** One session changes. *)
Lemma represents_session b s token key row x :
  represents_accounts b s → canonical token key → x = session_with token row →
  represents_accounts (set_sessions (<[key := row]> (db_sessions b)) b) (with_sessions (<[token := x]> (sessions s)) s).
Proof.
  intros [Hn Hu Hnm Hs] Hc ->. split; [done..|]. intros t k Htk. cbn. rw !lookup_insert.
  case_decide as Ht; case_decide as Hk; subst; [by constructor| | |by apply Hs].
  - destruct Htk as (H1 & _), Hc as (H2 & _). congruence.
  - destruct Ht. by eapply canonical_key.
Qed.

Lemma represents_no_session b s token key :
  represents_accounts b s → canonical token key →
  represents_accounts (set_sessions (delete key (db_sessions b)) b) (with_sessions (delete token (sessions s)) s).
Proof.
  intros [Hn Hu Hnm Hs] Hc. split; [done..|]. intros t k Htk. cbn. rw !lookup_delete.
  case_decide as Ht; case_decide as Hk; subst; [by constructor| | |by apply Hs].
  - destruct Htk as (H1 & _), Hc as (H2 & _). congruence.
  - destruct Ht. by eapply canonical_key.
Qed.

(** ** Account calls *)

Lemma create_user_implements name hash chips b a :
  accounts_ok b → name ≠ ""%string → hash ≠ ""%string → user_commit name hash chips b a →
  account_implements (CreateUser name hash chips) b a.
Proof.
  intros Hac Hname Hhash [Hfree Hnext Hwallet Hchips ->] [s g] [Hs Hg]. cbn in Hs, Hg. pose proof (ac_next _ Hac) as Hpos.
  assert (db_users b !! db_next_user b = None) as Hfresh.
  { apply eq_None_not_Some. intros [row Hrow]. apply (ac_users _ Hac) in Hrow. lia. }
  assert (users s !! db_next_user b = None) as Hsfresh.
  { destruct (ra_users _ _ Hs (db_next_user b)) as [u row|]; [congruence|done]. }
  assert (usernames s !! name = None) as Hunnamed.
  { apply eq_None_not_Some. intros [i (row & Hrow & Hn)%(ra_names _ _ Hs)].
    pose proof (named_false _ _ _ _ Hfree Hrow) as Hno. by rw Hn /same_text bool_decide_eq_true_2 in Hno. }
  eexists. split.
  - rw /= /memory_createUser /= /mem_createUser. pass_guard. rw Hunnamed bool_decide_eq_false_2; [by apply is_Some_None|]. cbn.
    rw (ra_next _ _ Hs) Hsfresh /seedWallet (rp_wallets _ _ Hg) Hwallet. pass_guard. reflexivity.
  - split; cbn.
    + split; cbn.
      * apply u64_small. rw /fits_u64. lia.
      * intros i. rw !lookup_insert. case_decide as Hi; [by constructor|apply Hs].
      * intros n i. rw !lookup_insert. case_decide as Hn; case_decide as Hi; subst.
        -- split; [intros _; by eexists|done].
        -- split; [congruence|]. intros (row & Hrow & Hname').
           pose proof (named_false _ _ _ _ Hfree Hrow) as Hno. by rw Hname' /same_text bool_decide_eq_true_2 in Hno.
        -- split; [|intros (row & [= <-] & ?); done]. rw (ra_names _ _ Hs). intros (row & Hrow & _). congruence.
        -- apply Hs.
      * apply Hs.
    + split; cbn; try apply Hg.
      * done.
      * intros u k Hu Hk. destruct (rp_ledger _ _ Hg u k Hu Hk) as (r & Hr & ?). exists r. split; [|done].
        apply elem_of_app. by left.
Qed.

Lemma account_commits_implement c b a :
  accounts_ok b → proper_account c → account_change c b a → account_implements c b a.
Proof.
  intros Hac Hproper Hc. destruct c as [name hash chips| | |x|token now|current x now|token|token expected replacement];
    cbn in Hc, Hproper; [|done|done| |done|..].
  - destruct Hproper. by apply create_user_implements.
  - destruct Hproper as ([key Hkey] & Htoken & Huser & Hexpires & Hrev), Hc as (bytes & Hbytes & Hnone & Hu & ->).
    rw (canonical_bytes _ _ Hkey) in Hbytes. simplify_eq. intros [s g] [Hs Hg]. cbn in Hs, Hg.
    assert (is_Some (users s !! session_user x)) as Hsu.
    { destruct Hu as [row Hrow]. destruct (ra_users _ _ Hs (session_user x)); [by eexists|congruence]. }
    pose proof (represented_no_session _ _ _ _ Hs Hkey Hnone) as Hsnone. eexists. split.
    + rw /= /mem_storeSession. pass_guard. rw bool_decide_eq_true_2 //= bool_decide_eq_false_2 ?Hsnone; [by apply is_Some_None|].
      reflexivity.
    + split; [|by apply represents_sessions]. cbn. eapply represents_session; [done..|].
      destruct x as [us tok ex seq rev]; rw /session_with /session_row; cbn in *. by rw Hrev.
  - destruct Hproper as ([key Hkey] & [key' Hkey'] & Hrev).
    destruct Hc as (Huser & Htoken & Hexpires & k & row & bytes & [Hk Hrow]%session_of_Some & Hu & Hlive & Hbytes & Hfree & ->).
    rw (canonical_bytes _ _ Hkey') in Hbytes. assert (k = key) as -> by (destruct Hkey; congruence). simplify_eq.
    intros [s g] [Hs Hg]. cbn in Hs, Hg. pose proof (represented_session _ _ _ _ _ Hs Hkey Hrow) as Hsession.
    assert (ss_revoked row = false ∧ now < ss_expires_at row) as [Hr Hexp].
    { rw /MySqlAccountStore.is_live in Hlive. guards. by split. }
    eexists. split.
    + rw /= /mem_rotateSession. pass_guard. rw Hsession /= Hr Hu Z.eqb_refl. pass_guard.
      destruct (negb _ && _) eqn:Hdup; [exfalso|reflexivity]. apply andb_true_iff in Hdup as [Hne Htaken].
      apply negb_true_iff, bool_decide_eq_false in Hne. apply bool_decide_eq_true in Htaken as [y Hy].
      destruct Hfree as [->|Hnone]; [by destruct Hne; eapply canonical_key|].
      by rw (represented_no_session _ _ _ _ Hs Hkey' Hnone) in Hy.
    + split; [|by apply represents_sessions]. cbn.
      assert ((if bool_decide (token_hash x = current) then <[token_hash x := x]> (sessions s)
               else delete current (<[token_hash x := x]> (sessions s))) =
              <[token_hash x := x]> (delete current (sessions s))) as ->.
      { case_bool_decide as Heq; [by rw -Heq insert_delete_eq|by rw delete_insert_ne]. }
      pose proof (represents_session (set_sessions (delete key (db_sessions b)) b)
        (with_sessions (delete current (sessions s)) s) (token_hash x) bytes (session_row x) x) as Hset.
      apply Hset; [by apply represents_no_session|done|].
      destruct x as [us tok ex seq rev]; rw /session_with /session_row; cbn in *. by rw Hrev.
  - destruct Hproper as [key Hkey], Hc as (k & row & [Hk Hrow]%session_of_Some & Hr & ->).
    assert (k = key) as -> by (destruct Hkey; congruence).
    intros [s g] [Hs Hg]. cbn in Hs, Hg. pose proof (represented_session _ _ _ _ _ Hs Hkey Hrow) as Hsession.
    eexists. split; [by rw /= /mem_revokeSession Hsession|]. split; [|by apply represents_sessions].
    by eapply represents_session.
  - destruct Hproper as [key Hkey], Hc as (k & row & [Hk Hrow]%session_of_Some & Hq & Hr & Hrep & ->).
    assert (k = key) as -> by (destruct Hkey; congruence).
    intros [s g] [Hs Hg]. cbn in Hs, Hg. pose proof (represented_session _ _ _ _ _ Hs Hkey Hrow) as Hsession.
    eexists. split.
    + rw /= /mem_updateSessionSequence Hsession /=. rw Hr Hq Hrep !Z.eqb_refl. reflexivity.
    + split; [|by apply represents_sessions]. eapply represents_session; [done..|]. by rw /session_with /= Hr Hrep.
Qed.

(** ** Both stores *)

Definition memory_store (c : StoreCall) (sg : InMemoryAccountStore * InMemoryGameStore)
    : result StorageError * (InMemoryAccountStore * InMemoryGameStore) :=
  match c with
  | Games c => let '(e, g) := memory_call c sg.2 in (e, (sg.1, g))
  | Accounts c => let '(e, sg) := memory_account c sg in (Ok e, sg)
  end.

Definition proper_store (c : StoreCall) b : Prop :=
  match c with Games c => proper c b | Accounts c => proper_account c end.

Lemma games_accounts c b a s : represents_accounts b s → commits c b a → represents_accounts a s.
Proof.
  intros [Hn Hu Hnm Hs] (Husers & Hnext & Hsessions & _)%commits_users.
  split; by rw ?Husers ?Hnext ?Hsessions.
Qed.

Lemma store_commits_implement c b a :
  db_ok b → accounts_ok b → proper_store c b → store_commits c b a →
  a = b ∨ ∀ sg, represents_stores b sg → ∃ sg', memory_store c sg = (Ok Storage_ok, sg') ∧ represents_stores a sg'.
Proof.
  intros Hdb Hac Hproper. destruct c as [c|c]; cbn [store_commits].
  - intros Hc. destruct (commits_implement c b a Hdb Hproper Hc) as [?|Himpl]; [by left|right].
    intros [s g] [Hs Hg]. destruct (Himpl g Hg) as (g' & Hcall & Hg'). exists (s, g'). rw /= Hcall.
    split; [done|]. split; [by eapply games_accounts|done].
  - intros [Hc|[_ ->]]; [right|by left]. intros sg Hsg.
    destruct (account_commits_implement c b a Hac Hproper Hc sg Hsg) as (sg' & Hcall & ?). exists sg'. by rw /= Hcall.
Qed.

(** C11: on the calls that both take, the MySQL stores implement the in-memory stores.
    These are the calls of [proper_store]: names, ids, hashes and keys are not empty, a
    new table asks for two players at least, tokens are spelled in one way, and a hand
    that begins or is settled names the seats its players have; MySQL does not check
    this and the in-memory stores do, and refuse (see [misplaced_seat] in MySqlDemo).
    For such a call, whatever fails and whatever other clients do, the change that it
    commits is nothing (a statement that selects no row) or what the same call does in
    memory: on every pair of in-memory stores that the database represents before,
    that call succeeds, and the database represents its result afterwards. *)
Theorem mysql_refines_memory (c : StoreCall) (l l' : Link) e b a :
  stores_ok l → make_store c l = (e, l') → ln_commits l' = ln_commits l ++ [(b, a)] → proper_store c b →
  keeps_stores (ln_db l) b ∧ keeps_stores a (ln_db l') ∧
  (a = b ∨ ∀ sg, represents_stores b sg → ∃ sg', memory_store c sg = (Ok Storage_ok, sg') ∧ represents_stores a sg').
Proof.
  intros [Hs Hdb Hac Ho] Hmake Hlog Hproper.
  destruct (store_call_run keeps_stores c l e l') as (_ & _ & Hout); try done; [apply _|].
  destruct Hout as [(Hc & _)|(b' & a' & Hc & H1 & Hcommit & H2 & _)]; rw Hc in Hlog.
  - apply (f_equal length) in Hlog. rw length_app /= in Hlog. lia.
  - apply app_inv_head in Hlog. simplify_eq. split_and!; [done..|]. destruct (H1 (conj Hdb Hac)) as ([? ?] & _).
    by apply store_commits_implement.
Qed.
End refinement.
