(* ===== verification/MySqlDemo.v ===== *)
(** * The MySQL stores at work

    The parameters of the server instantiated, and runs computed on them: a hand
    played from registration to cashing out, an answer that is lost, a refund. They
    show that the hypotheses of the properties of the MySQL stores can hold. *)
From stdpp Require Import pretty.
From Stdlib Require Import Ascii.
From S2P Require Import Prelude Card Table AccountStore GameStore GameStoreLib GameStoreInv MySqlDatabase MySqlClient MySqlGameStore MySqlCalls MySqlCommits MySqlInv MySqlSpecs MySqlTheorems.
From S2P Require MySqlAccountStore.
From S2P Require Import MySqlAccounts MySqlStores MySqlCalm MySqlRefinement MySqlStoresRefinement.

Module StoresDemo.

(** ** A server *)

Definition lower (c : ascii) : ascii :=
  let n := nat_of_ascii c in if ((65 <=? n)%nat && (n <=? 90)%nat) then ascii_of_nat (n + 32) else c.

Fixpoint lower_case (s : string) : string :=
  match s with
  | EmptyString => EmptyString
  | String c s => String (lower c) (lower_case s)
  end.

(** Texts are compared without regard to case, and all characters have one byte. *)
#[export] Instance case_insensitive : Collation := {
  weight_string := lower_case;
  fits_varchar := λ n s, (String.length s <=? n)%nat;
}.

Definition hex_digit (c : ascii) : option nat :=
  let n := nat_of_ascii (lower c) in
  if ((48 <=? n)%nat && (n <=? 57)%nat) then Some (n - 48)%nat
  else if ((97 <=? n)%nat && (n <=? 102)%nat) then Some (n - 87)%nat else None.

Fixpoint hex_bytes (s : string) : option string :=
  match s with
  | EmptyString => Some EmptyString
  | String a (String b s) =>
      x ← hex_digit a; y ← hex_digit b; rest ← hex_bytes s; Some (String (ascii_of_nat (16 * x + y)) rest)
  | String a EmptyString => x ← hex_digit a; Some (String (ascii_of_nat x) EmptyString)
  end.

#[export] Instance utc_server : SessionValues := {
  MySqlAccountStore.unhex := hex_bytes;
  MySqlAccountStore.binary32 := λ s, if (String.length s =? 32)%nat then Some s else None;
  MySqlAccountStore.from_unixtime := λ ms, 0 <=? ms;
  MySqlAccountStore.timestamp6 := λ ms, (1000 <=? ms) && (ms <=? 2147483647499);
}.

(** ** Connections *)

Definition fine : Weather := mkWeather None false (λ db, db).

(** At the [k]-th call the answer is lost, but it is carried out. *)
Definition lost (k : nat) : nat → Weather :=
  λ n, if (n =? k)%nat then mkWeather (Some "Lost connection to MySQL server during query"%string) true (λ db, db) else fine.

Definition no_rows : Database := mkDatabase ∅ 1 ∅ ∅ ∅ ∅ ∅ ∅ ∅ [].
Definition connect (weather : nat → Weather) : Link := mkLink no_rows None weather 0 [].

Lemma no_rows_ok : db_ok no_rows ∧ accounts_ok no_rows.
Proof.
  split; [split; [| | |apply map_Forall_empty]|]; split; cbn; try done; try (intros *; by rw lookup_empty);
    try (intros; by apply not_elem_of_nil in H).
Qed.

(** ** A hand from registration to cashing out *)

Definition token : string := "00112233445566778899aabbccddeeffFF112233445566778899aabbccddeeff".

Definition session : SessionRecord := mkSession 1 token 1700000000000 0 false.

Definition table7 : TableRecord := mkTableRecord 7 "Felt" "node-a" (mkConfig 2 6 50 100 200 2000) 1.

Definition pair (r1 r2 : Rank) (s : Suit) : list Card := [mkCard r1 s; mkCard r2 s].

Definition hand : HandStartRecord := mkHandStart 77 7 1 0
  [mkStartPlayer 1 0 500 (pair 14 13 0); mkStartPlayer 2 1 500 (pair 2 3 1)].

Definition raise : HandActionRecord := mkActionRecord 77 1 9 1 Street_preflop Action_raise 200.

Definition result : HandSettlementRecord := mkSettlement 77 7 1 0 [] 300
  [mkPlayerSettlement 1 0 500 200 300 600 (pair 14 13 0) false;
   mkPlayerSettlement 2 1 500 100 0 400 (pair 2 3 1) true].

Definition opening : list StoreCall :=
  [Accounts (CreateUser "Alice" "hash-a" 1000); Accounts (CreateUser "Bob" "hash-b" 1000);
   Accounts (CreateUser "ALICE" "hash-c" 1000); Accounts (StoreSession session); Games (CreateTable table7)].

Definition seats_taken : list StoreCall :=
  [Games (ReserveBuyIn 7 1 0 500 "buy-1"); Games (ReserveBuyIn 7 2 0 500 "buy-2"); Games (ReserveBuyIn 7 2 1 500 "buy-2");
   Games (ReserveBuyIn 7 1 0 500 "BUY-1")].

Definition one_hand : list StoreCall :=
  [Games (BeginHand hand); Games (CashOut 7 1 "out-1"); Games (AppendAction raise); Games (AppendAction raise);
   Games (SettleHand result); Games (SettleHand result); Games (CashOut 7 1 "out-1"); Games (CashOut 7 1 "out-1");
   Games (AbortTable 7); Games (AbortTable 7)].

Definition story : list StoreCall := opening ++ seats_taken ++ one_hand.

(** A name is taken in any spelling, a seat is taken once, a key pays once in any
    spelling, nobody leaves during a hand, a hand is settled once. *)
Example story_answers :
  (make_stores story (connect (λ _, fine))).1 =
  [Storage_ok; Storage_ok; Storage_duplicate; Storage_ok; Storage_ok;
   Storage_ok; Storage_conflict; Storage_ok; Storage_ok;
   Storage_ok; Storage_conflict; Storage_ok; Storage_duplicate; Storage_ok; Storage_conflict; Storage_ok; Storage_ok;
   Storage_ok; Storage_ok].
Proof. vm_compute. reflexivity. Qed.

Example story_wallets :
  let db := ln_db (make_stores story (connect (λ _, fine))).2 in
  (db_wallets db !! 1, db_wallets db !! 2, db_chips db, granted (db_ledger db)) = (Some 1100, Some 900, 2000, 2000).
Proof. vm_compute. reflexivity. Qed.

(** Where the stores differ: a hand that names another seat than the player's is
    refused in memory and stored by MySQL. *)
Definition misplaced : HandStartRecord := mkHandStart 77 7 1 0
  [mkStartPlayer 1 5 500 (pair 14 13 0); mkStartPlayer 2 1 500 (pair 2 3 1)].

Definition in_memory (calls : list StoreCall) (sg : InMemoryAccountStore * InMemoryGameStore) :=
  foldl (λ sg c, (memory_store c sg).2) sg calls.

Example misplaced_seat :
  last (make_stores (opening ++ seats_taken ++ [Games (BeginHand misplaced)]) (connect (λ _, fine))).1 = Some Storage_ok ∧
  (memory_store (Games (BeginHand misplaced)) (in_memory (opening ++ seats_taken) (Accounts_new, Games_new))).1 =
    Ok Storage_conflict.
Proof. vm_compute. by split. Qed.

(** ** Failures *)

Definition retried : list StoreCall :=
  opening ++ [Games (ReserveBuyIn 7 1 0 500 "buy-1"); Games (ReserveBuyIn 7 1 0 500 "buy-1")].

(** Whichever call of the library the first attempt loses, the second one leaves the
    player with one seat, paid for once. *)
Example lost_answers :
  forallb (λ k,
    let db := ln_db (make_stores retried (connect (lost k))).2 in
    bool_decide ((db_wallets db !! 1, length (db_ledger db), ts_stack <$> db_seats db !! (7, 1)) = (Some 500, 3%nat, Some 500)))
    (seq 42 40) = true.
Proof. vm_compute. reflexivity. Qed.

(** The answers when the answer of [mysql_commit] is lost, and when a look at the
    seat fails during the second attempt. *)
Example lost_commit :
  drop 5 (make_stores retried (connect (lost 62))).1 = [Storage_unavailable; Storage_ok] ∧
  drop 5 (make_stores retried (connect (lost 71))).1 = [Storage_ok; Storage_conflict].
Proof. vm_compute. by split. Qed.

(** A table that is given up during a hand: the stacks of its start are refunded. *)
Example crash_refund :
  let '(es, l) := make_stores (opening ++ seats_taken ++ [Games (BeginHand hand); Games (AbortTable 7); Games (CashOut 7 1 "out-1")])
                    (connect (λ _, fine)) in
  (drop 9 es, db_wallets (ln_db l) !! 1, db_wallets (ln_db l) !! 2, db_chips (ln_db l)) =
  ([Storage_ok; Storage_ok; Storage_conflict], Some 1000, Some 1000, 2000).
Proof. vm_compute. reflexivity. Qed.

(** ** Witnesses *)

Lemma connect_ok weather : (∀ n db, wt_meanwhile (weather n) db = db) → stores_ok (connect weather).
Proof. intros Hw. destruct no_rows_ok. split; [done..|]. intros n db. by rw /= Hw. Qed.

Lemma connect_grants grant weather : (∀ n db, wt_meanwhile (weather n) db = db) → grants_ok grant (connect weather).
Proof. intros Hw. destruct no_rows_ok. split; [done..|]. intros n db. by rw /= Hw. Qed.

Lemma lost_no_change k n db : wt_meanwhile (lost k n) db = db.
Proof. rw /lost. by case_match. Qed.

(** The connection after calls in fine weather. *)
Definition after (calls : list StoreCall) : Link := (make_stores calls (connect (λ _, fine))).2.

Lemma after_ok calls : stores_ok (after calls).
Proof.
  eapply stores_ok_run; [by apply (connect_ok (λ _, fine))|]. apply surjective_pairing.
Qed.

Lemma after_weather calls n : ln_weather (after calls) n = fine.
Proof.
  pose proof (connect_ok (λ _, fine) (λ _ _, eq_refl)) as [Hs _ _ Ho].
  destruct (stores_run keeps_stores calls (connect (λ _, fine)) (make_stores calls (connect (λ _, fine))).1 (after calls))
    as (Hw & _); try done; [apply _| |apply surjective_pairing|by rw Hw].
  intros c b a Hc. by destruct (store_commits_keep c b a Hc).
Qed.

Lemma mysql_calls_atomic_witness :
  let l := connect (lost 8) in
  ∃ b a, ln_commits (make_store (Accounts (CreateUser "Alice" "hash-a" 1000)) l).2 = [(b, a)] ∧
    user_commit "Alice" "hash-a" 1000 b a.
Proof.
  cbv zeta. set (l := connect (lost 8)).
  destruct (make_store (Accounts (CreateUser "Alice" "hash-a" 1000)) l) as [e l'] eqn:Hmake.
  destruct (mysql_calls_atomic keeps_stores (Accounts (CreateUser "Alice" "hash-a" 1000)) l l' e)
    as [_ [(Hlog & _)|(b & a & Hlog & _ & [Hcommit|[? _]] & _)]]; [apply _| |done|exact Hmake| | |done].
  - apply (sk_others l), connect_ok, lost_no_change.
  - exfalso. apply (f_equal (λ r, length (ln_commits r.2))) in Hmake. cbn [snd] in Hmake. rewrite Hlog in Hmake.
    vm_compute in Hmake. discriminate Hmake.
  - exists b, a. split; [rewrite Hlog; reflexivity|exact Hcommit].
Defined.

(** The answer to the registration is lost, and the answer is right about it. *)
Lemma mysql_ledger_balances_witness :
  let l := connect (lost 62) in
  let db := ln_db (make_stores retried l).2 in
  stores_ok l ∧ db_ok db ∧ db_chips db = granted (db_ledger db) ∧ db_chips db = 2000.
Proof.
  cbv zeta. assert (stores_ok (connect (lost 62))) as Hl by apply connect_ok, lost_no_change.
  destruct (make_stores retried (connect (lost 62))) as [es l'] eqn:Hmake.
  destruct (mysql_ledger_balances retried (connect (lost 62)) l' es Hl Hmake) as (? & _ & ? & _).
  split_and!; [done..|]. apply (f_equal (λ r, db_chips (ln_db r.2))) in Hmake. cbn [snd] in *. rewrite -Hmake.
  vm_compute. reflexivity.
Defined.

(** A first buy-in, its repetition, and another with too few chips. *)
Lemma receipts_backed_witness :
  let l := after opening in
  stores_ok l ∧
  (let r := reserveBuyIn 7 1 0 500 "buy-1" l in
   sr_error r.1 = Storage_ok ∧ receipt_in 1 "buy-1" "table_buy_in" 7 (- 500) 500 (ln_db r.2)) ∧
  (let r := reserveBuyIn 7 1 0 2000 "buy-1" l in
   sr_error r.1 = Storage_insufficient_funds ∧ ln_commits r.2 = ln_commits l).
Proof.
  cbv zeta. pose proof (after_ok opening) as Hl. split; [done|]. split.
  - destruct (reserveBuyIn 7 1 0 500 "buy-1" (after opening)) as [r l'] eqn:Hr.
    destruct (receipts_backed 7 1 0 500 "buy-1" (after opening) l' Hl) as (Hbuy & _ & _).
    destruct (Hbuy r Hr) as (Hok & _ & _). cbn [fst snd].
    assert (sr_error r = Storage_ok ∧ sr_value r = Some (mkBuyInReceipt 500 500)) as [He Hv].
    { replace r with (fst (r, l')) by reflexivity. rewrite -Hr. vm_compute. by split. }
    split; [done|]. destruct (Hok He) as (balance & -> & ?). by injection Hv as ->.
  - destruct (reserveBuyIn 7 1 0 2000 "buy-1" (after opening)) as [r l'] eqn:Hr.
    destruct (receipts_backed 7 1 0 2000 "buy-1" (after opening) l' Hl) as (Hbuy & _ & _).
    destruct (Hbuy r Hr) as (_ & Hquiet & _). cbn [fst snd].
    assert (sr_error r = Storage_insufficient_funds) as He.
    { replace r with (fst (r, l')) by reflexivity. rewrite -Hr. vm_compute. reflexivity. }
    split; [done|]. apply Hquiet; by rewrite He.
Defined.

Lemma revoked_stays_revoked_witness :
  let l := after opening in
  (MySqlAccountStore.findSession token 5 l).1 = sr_ok session ∧
  sr_error (MySqlAccountStore.findSession token 5
    (make_stores [Accounts (StoreSession session); Accounts (RotateSession token session 5)]
      (MySqlAccountStore.revokeSession token l).2).2).1 ≠ Storage_ok.
Proof.
  cbv zeta. split; [vm_compute; reflexivity|].
  destruct (MySqlAccountStore.revokeSession token (after opening)) as [e l1] eqn:Hrevoke.
  assert (e = Storage_ok) as -> by (replace e with (fst (e, l1)) by reflexivity; rewrite -Hrevoke; vm_compute; reflexivity).
  destruct (make_stores [Accounts (StoreSession session); Accounts (RotateSession token session 5)] l1) as [es l2] eqn:Hcalls.
  destruct (MySqlAccountStore.findSession token 5 l2) as [r l3] eqn:Hfind. cbn [fst snd].
  rewrite Hcalls. cbn [snd]. rewrite Hfind.
  refine (proj1 (revoked_stays_revoked token _ 5 (after opening) l1 l2 l3 es r _ _ Hrevoke Hcalls Hfind)).
  - apply (sk_closed (after opening)), after_ok.
  - intros n db. rewrite after_weather. exact (reflexivity db).
Defined.

Lemma empty_represented : represents_stores (λ key, key) no_rows (Accounts_new, Games_new).
Proof.
  split.
  - split; cbn; [done|intros i; rw !lookup_empty; constructor| |intros t k _; rw !lookup_empty; constructor].
    intros name i. rw lookup_empty. split; [done|]. intros (row & Hrow & _). by rw lookup_empty in Hrow.
  - split; cbn; [done|intros i; rw !lookup_empty; constructor| | | |intros k; rw !lookup_empty; constructor].
    + intros u k _. by rw lookup_empty; intros [].
    + intros h. rw !lookup_empty. by split; intros [].
    + intros h. rw lookup_empty. split; [by intros []|]. intros (row & Hrow & _). by rw lookup_empty in Hrow.
Qed.

Lemma mysql_refines_memory_witness :
  let l := connect (lost 8) in
  let a := ln_db (make_store (Accounts (CreateUser "Alice" "hash-a" 1000)) l).2 in
  ∃ sg, memory_store (Accounts (CreateUser "Alice" "hash-a" 1000)) (Accounts_new, Games_new) = (Ok Storage_ok, sg) ∧
    represents_stores (λ key, key) a sg.
Proof.
  cbv zeta. assert (stores_ok (connect (lost 8))) as Hl by apply connect_ok, lost_no_change.
  destruct (make_store (Accounts (CreateUser "Alice" "hash-a" 1000)) (connect (lost 8))) as [e l'] eqn:Hmake. cbn [snd].
  assert (ln_commits l' = ln_commits (connect (lost 8)) ++ [(no_rows, ln_db l')]) as Hlog.
  { replace l' with (snd (e, l')) by reflexivity. rewrite -Hmake. vm_compute. reflexivity. }
  assert (ln_db l' ≠ no_rows) as Hne.
  { replace l' with (snd (e, l')) by reflexivity. rewrite -Hmake. intros Heq. apply (f_equal db_next_user) in Heq.
    vm_compute in Heq. discriminate Heq. }
  destruct (mysql_refines_memory (λ key, key) (Accounts (CreateUser "Alice" "hash-a" 1000)) (connect (lost 8)) l' e
    no_rows (ln_db l') Hl Hmake Hlog) as (_ & _ & [Heq|Hsim]).
  - split; discriminate.
  - exfalso. exact (Hne Heq).
  - exact (Hsim (Accounts_new, Games_new) empty_represented).
Defined.

Definition bought_in : Database :=
  let b := ln_db (after opening) in
  set_ledger (db_ledger b ++ [buy_in_row 7 1 500 1000 "buy-1"])
    (set_wallets (<[1 := 1000 - 500]> (db_wallets b)) (set_seats (<[(7, 1) := mkTableSeat 0 500 500]> (db_seats b)) b)).

Lemma bought_in_commit : buy_in_commit 7 1 0 500 "buy-1" 1000 (ln_db (after opening)) bought_in.
Proof.
  split; [|vm_compute; reflexivity|lia|vm_compute; reflexivity|vm_compute; reflexivity|vm_compute; reflexivity|reflexivity].
  exists (table_row table7). split; [split; vm_compute; reflexivity|]. cbn. lia.
Qed.

Lemma mysql_calls_succeed_witness :
  ∃ l', make_store (Games (ReserveBuyIn 7 1 0 500 "buy-1")) (after opening) = (Storage_ok, l') ∧ ln_db l' = bought_in.
Proof.
  destruct (mysql_calls_succeed (Games (ReserveBuyIn 7 1 0 500 "buy-1")) (after opening) bought_in)
    as (l' & Hmake & _ & Hdb & _).
  - intros n. rewrite after_weather. by split.
  - apply (sk_closed (after opening)), after_ok.
  - apply (sk_db (after opening)), after_ok.
  - cbn [store_commits commits]. split; [lia|]. exists 1000. exact bought_in_commit.
  - intros Heq. apply (f_equal (λ db, length (db_ledger db))) in Heq. vm_compute in Heq. discriminate Heq.
  - cbn [store_fits fits]. split_and!; first [lia|discriminate|vm_compute; reflexivity|idtac].
    + vm_compute. lia.
    + vm_compute. by eexists.
  - exists l'. split; [exact Hmake|exact Hdb].
Defined.

End StoresDemo.
