(* ===== verification/SodiumProvider.v ===== *)
(** * The cryptography of libsodium

    Model of [include/poker/security/sodium_crypto_provider.hpp] and
    [src/poker/infrastructure/sodium_crypto_provider.cpp]. The library is a
    parameter: its functions and constants are the class [Sodium], what its manual
    says of them is [SodiumLaws]. The provider is an instance of the interface that
    the authentication service and the router use, and of its laws. An array of
    characters is the list of its bytes. *)
From Stdlib Require Import Ascii.
From S2P Require Import Prelude AccountStore Auth.

(** ** The library *)

Class Sodium (C : Type) := {
  sodium_init : C → Z * C;
  crypto_pwhash_PASSWD_MAX : Z;
  crypto_pwhash_STRBYTES : nat;
  crypto_hash_sha256_BYTES : nat;
  (** With the interactive limits and Argon2id: the array it fills, or that it
      does not return zero. *)
  crypto_pwhash_str_alg : string → C → option (list Z) * C;
  (** Whether it returns zero for this encoding and password. *)
  crypto_pwhash_str_verify : string → string → bool;
  randombytes_buf : nat → C → list Z * C;
  sodium_bin2hex : list Z → list Z;
  crypto_hash_sha256 : string → list Z;
}.

(** ** Characters and bytes *)

Definition byte_of (ch : ascii) : Z := Z.of_nat (nat_of_ascii ch).
Definition char_of (b : Z) : ascii := ascii_of_nat (Z.to_nat b).
Definition bytes_of (s : string) : list Z := byte_of <$> String.list_ascii_of_string s.
Definition text_of (l : list Z) : string := String.string_of_list_ascii (char_of <$> l).

(** A text of C ends at its first zero byte; [return encoded.data()] makes a string
    of it. An array without a zero would be read beyond its end. *)
Fixpoint c_str (l : list Z) : list Z :=
  match l with
  | [] => []
  | b :: l => if b =? 0 then [] else b :: c_str l
  end.

Definition is_terminated (l : list Z) : bool := existsb (Z.eqb 0) l.

Definition hex_digit (n : Z) : Z := if n <? 10 then 48 + n else 87 + n.

(** The digits of bytes, two for each, in lower case. *)
Definition hex (bytes : list Z) : list Z :=
  flat_map (λ b, [hex_digit (b / 16); hex_digit (b mod 16)]) bytes.

Definition is_byte (b : Z) : Prop := 0 ≤ b < 256.

(** ** What its manual says *)

Class SodiumLaws (C : Type) `{!Sodium C} := {
  passwd_max : crypto_pwhash_PASSWD_MAX = 4294967295;
  str_bytes : crypto_pwhash_STRBYTES = 128%nat;
  sha256_bytes : crypto_hash_sha256_BYTES = 32%nat;
  (** The encoding is a text of ASCII, ended by a zero within the array, and
      verifies its password. *)
  pwhash_str p c encoded c' : crypto_pwhash_str_alg p c = (Some encoded, c') →
    length encoded = crypto_pwhash_STRBYTES ∧ is_terminated encoded = true ∧ c_str encoded ≠ [] ∧
    Forall (λ b, 0 ≤ b < 128) encoded ∧ crypto_pwhash_str_verify (text_of (c_str encoded)) p = true;
  randombytes n c : length (randombytes_buf n c).1 = n ∧ Forall is_byte (randombytes_buf n c).1;
  bin2hex bytes : Forall is_byte bytes → sodium_bin2hex bytes = hex bytes ++ [0];
  sha256 t : length (crypto_hash_sha256 t) = crypto_hash_sha256_BYTES ∧ Forall is_byte (crypto_hash_sha256 t);
}.

(** ** The provider *)

Section provider.
  Context {C : Type} `{!Sodium C}.

Definition SodiumCryptoProvider_new : M C unit := λ c,
  let '(status, c) := sodium_init c in
  (if status <? 0 then Throw (runtime_error "libsodium initialization failed") else Ok tt, c).

Definition hashPassword (password : string) (c : C) : result string * C :=
  if bool_decide (password = ""%string) || (crypto_pwhash_PASSWD_MAX <? Z.of_nat (String.length password))
  then (Throw (invalid_argument "password length is outside libsodium limits"), c)
  else match crypto_pwhash_str_alg password c with
  | (Some encoded, c) => (if is_terminated encoded then Ok (text_of (c_str encoded)) else Undef, c)
  | (None, c) => (Throw (runtime_error "Argon2id password hashing failed"), c)
  end.

(** [terminated_hash.c_str()] ends at a zero in the text. *)
Definition verifyPassword (password encoded_hash : string) : bool :=
  if bool_decide (encoded_hash = ""%string) || (crypto_pwhash_STRBYTES <=? String.length encoded_hash)%nat
  then false
  else crypto_pwhash_str_verify (text_of (c_str (bytes_of encoded_hash))) password.

Definition generateSessionToken (c : C) : string * C :=
  let '(bytes, c) := randombytes_buf 32 c in (text_of (c_str (sodium_bin2hex bytes)), c).

Definition hashSessionToken (raw_token : string) : string :=
  text_of (c_str (sodium_bin2hex (crypto_hash_sha256 raw_token))).

#[export] Instance SodiumCryptoProvider : CryptoProvider C := {
  Auth.hashPassword := hashPassword;
  Auth.verifyPassword := verifyPassword;
  Auth.generateSessionToken := generateSessionToken;
  Auth.hashSessionToken := hashSessionToken;
}.
End provider.

(** ** Texts *)

Lemma byte_of_char b : is_byte b → byte_of (char_of b) = b.
Proof. intros Hb. rw /byte_of /char_of nat_ascii_embedding; [rw /is_byte in Hb; lia|]. rw /is_byte in Hb. lia. Qed.

Lemma bytes_of_text l : Forall is_byte l → bytes_of (text_of l) = l.
Proof.
  rw /bytes_of /text_of String.list_ascii_of_string_of_list_ascii. induction 1 as [|b l Hb _ IH]; [done|].
  cbn. by rw byte_of_char // IH.
Qed.

Lemma length_text l : String.length (text_of l) = length l.
Proof. rw /text_of. induction l as [|b l IH]; cbn; [done|]. by rw IH. Qed.

Lemma text_of_inj l l' : Forall is_byte l → Forall is_byte l' → text_of l = text_of l' → l = l'.
Proof. intros H H' Heq. by rw -(bytes_of_text l H) Heq bytes_of_text. Qed.

Lemma c_str_app l l' : Forall (λ b, b ≠ 0) l → c_str (l ++ 0 :: l') = l.
Proof. induction 1 as [|b l Hb _ IH]; [done|]. cbn. destruct (Z.eqb_spec b 0); [done|]. by rw IH. Qed.

Lemma c_str_idemp l : c_str (c_str l) = c_str l.
Proof. induction l as [|b l IH]; [done|]. cbn. destruct (Z.eqb_spec b 0) as [|Hb]; [done|]. cbn. apply Z.eqb_neq in Hb. by rw Hb IH. Qed.

Lemma c_str_shorter l : is_terminated l = true → (length (c_str l) < length l)%nat.
Proof.
  rw /is_terminated. induction l as [|b l IH]; [done|]. cbn [existsb c_str]. rw Z.eqb_sym. destruct (b =? 0); cbn; [lia|].
  intros H%IH. lia.
Qed.

Lemma c_str_forall (P : Z → Prop) l : Forall P l → Forall P (c_str l).
Proof. induction 1 as [|b l Hb _ IH]; [done|]. cbn. destruct (b =? 0); by constructor. Qed.

Lemma hex_digit_range n : 0 ≤ n < 16 → 48 ≤ hex_digit n < 103.
Proof. intros Hn. rw /hex_digit. destruct (Z.ltb_spec n 10); lia. Qed.

Lemma hex_digit_inj n m : 0 ≤ n < 16 → 0 ≤ m < 16 → hex_digit n = hex_digit m → n = m.
Proof. intros Hn Hm. rw /hex_digit. destruct (Z.ltb_spec n 10), (Z.ltb_spec m 10); lia. Qed.

Lemma byte_nibbles b : is_byte b → 0 ≤ b / 16 < 16 ∧ 0 ≤ b mod 16 < 16 ∧ b = 16 * (b / 16) + b mod 16.
Proof. rw /is_byte. intros Hb. pose proof (Z_div_mod_eq_full b 16). pose proof (Z.mod_pos_bound b 16). lia. Qed.

Lemma hex_range bytes : Forall is_byte bytes → Forall (λ b, 48 ≤ b < 103) (hex bytes).
Proof.
  induction 1 as [|b l Hb _ IH]; [constructor|]. destruct (byte_nibbles b Hb) as (? & ? & _).
  cbn. repeat constructor; [by apply hex_digit_range..|done].
Qed.

Lemma length_hex bytes : length (hex bytes) = (2 * length bytes)%nat.
Proof. rw /hex. induction bytes as [|b l IH]; cbn [flat_map length app]; [done|]. rw IH. lia. Qed.

Lemma hex_inj l l' : Forall is_byte l → Forall is_byte l' → hex l = hex l' → l = l'.
Proof.
  intros H. revert l'. induction H as [|b l Hb _ IH]; intros [|b' l'] H'; cbn; [done..|].
  inversion_clear H' as [|? ? Hb' Hl']. intros [= H1 H2 H3].
  destruct (byte_nibbles b Hb) as (? & ? & Hbe), (byte_nibbles b' Hb') as (? & ? & Hbe').
  apply hex_digit_inj in H1; [|done..]. apply hex_digit_inj in H2; [|done..]. f_equal; [lia|by apply IH].
Qed.

(** ** Correctness *)

Section theorems.
  Context {C : Type} `{!Sodium C, !SodiumLaws C}.

(** The provider's texts of digits. *)
Definition digits (bytes : list Z) : string := text_of (hex bytes).

Lemma bin2hex_text bytes : Forall is_byte bytes → text_of (c_str (sodium_bin2hex bytes)) = digits bytes.
Proof.
  intros Hb. rw bin2hex // c_str_app //. eapply Forall_impl; [by apply hex_range|]. cbn. lia.
Qed.

Lemma digits_inj l l' : Forall is_byte l → Forall is_byte l' → digits l = digits l' → l = l'.
Proof.
  intros H H' Heq. apply hex_inj; [done..|]. apply text_of_inj; [..|done]; (eapply Forall_impl; [by apply hex_range|]);
    rw /is_byte /=; lia.
Qed.

Lemma length_digits l : String.length (digits l) = (2 * length l)%nat.
Proof. by rw length_text length_hex. Qed.

(** A hash fits the array, is not empty and verifies its password. *)
Lemma hashPassword_ok p c h c' :
  hashPassword p c = (Ok h, c') →
  (0 < String.length h < crypto_pwhash_STRBYTES)%nat ∧ verifyPassword p h = true.
Proof.
  rw /hashPassword. destruct (_ || _); [done|]. destruct (crypto_pwhash_str_alg p c) as [[encoded|] c1] eqn:He; [|done].
  destruct (pwhash_str _ _ _ _ He) as (Hlen & Hterm & Hne & Hascii & Hver). rw Hterm. intros [= <- <-].
  pose proof (c_str_shorter _ Hterm) as Hshort. rw Hlen in Hshort.
  assert (Forall is_byte (c_str encoded)) as Hbytes.
  { apply c_str_forall. eapply Forall_impl; [done|]. rw /is_byte /=. lia. }
  assert (0 < length (c_str encoded))%nat as Hpos by (destruct (c_str encoded); [done|cbn; lia]).
  rw /verifyPassword length_text bytes_of_text // c_str_idemp Hver. split; [lia|].
  rw (proj2 (Nat.leb_gt _ _)); [lia|]. rw bool_decide_eq_false_2 //. intros Heq%(f_equal String.length).
  rw length_text in Heq. cbn in Heq. lia.
Qed.

(** What it refuses, and when it gives up. *)
Lemma hashPassword_throws p c :
  (String.length p = 0%nat ∨ crypto_pwhash_PASSWD_MAX < Z.of_nat (String.length p) →
   hashPassword p c = (Throw (invalid_argument "password length is outside libsodium limits"), c)) ∧
  (1 ≤ Z.of_nat (String.length p) ≤ crypto_pwhash_PASSWD_MAX → (crypto_pwhash_str_alg p c).1 = None →
   (hashPassword p c).1 = Throw (runtime_error "Argon2id password hashing failed")).
Proof.
  rw /hashPassword. split.
  - intros [Hp|Hp].
    + destruct p; [|done]. by rw bool_decide_eq_true_2.
    + by rw (proj2 (Z.ltb_lt _ _) Hp) orb_true_r.
  - intros Hp. rw bool_decide_eq_false_2; [by intros ->; cbn in Hp; lia|]. rw (proj2 (Z.ltb_ge _ _)); [lia|]. cbn.
    by destruct (crypto_pwhash_str_alg p c) as [[?|] ?].
Qed.

Lemma generateSessionToken_digits c :
  ∃ bytes, length bytes = 32%nat ∧ Forall is_byte bytes ∧
    generateSessionToken c = (digits bytes, (randombytes_buf 32 c).2) ∧ bytes = (randombytes_buf 32 c).1.
Proof.
  pose proof (randombytes 32 c) as [Hlen Hb]. exists (randombytes_buf 32 c).1. rw /generateSessionToken.
  destruct (randombytes_buf 32 c) as [bytes c']. by rw bin2hex_text.
Qed.

Lemma hashSessionToken_digits t : hashSessionToken t = digits (crypto_hash_sha256 t).
Proof. rw /hashSessionToken bin2hex_text //. apply sha256. Qed.

Lemma hashSessionToken_inj t t' :
  hashSessionToken t = hashSessionToken t' → crypto_hash_sha256 t = crypto_hash_sha256 t'.
Proof. rw !hashSessionToken_digits. apply digits_inj; apply sha256. Qed.

(** The laws that the service relies on. *)
#[export] Instance sodium_crypto_laws : CryptoLaws C.
Proof.
  split.
  - intros p c h c' Hh. by apply (hashPassword_ok p c h c').
  - intros c Heq%(f_equal String.length). destruct (generateSessionToken_digits c) as (bytes & Hlen & _ & Htok & _).
    cbn in Heq. rw Htok /= length_digits Hlen in Heq. done.
  - intros t Heq%(f_equal String.length). cbn in Heq. rw hashSessionToken_digits length_digits in Heq.
    rw (proj1 (sha256 t)) sha256_bytes in Heq. done.
Qed.

(** While there is memory for it, the service's passwords are hashed. *)
Lemma sodium_returns :
  (∀ p c, is_Some (crypto_pwhash_str_alg p c).1) → CryptoReturns C.
Proof.
  intros Hmem p c Hp. rw /validPassword in Hp. apply andb_true_iff in Hp as [Hlo Hhi]. apply Nat.leb_le in Hlo, Hhi.
  cbn. rw /hashPassword. rw bool_decide_eq_false_2; [by intros ->; cbn in Hlo; lia|].
  rw (proj2 (Z.ltb_ge _ _)); [rw passwd_max; lia|]. destruct (Hmem p c) as [encoded He].
  destruct (crypto_pwhash_str_alg p c) as [o c'] eqn:Ho. cbn in He |- *. subst o.
  destruct (pwhash_str _ _ _ _ Ho) as (_ & -> & _). by eexists _, _.
Qed.
End theorems.
