(* ===== verification/SodiumTheorems.v ===== *)
(** * Accounts as the server keeps them: libsodium over MySQL

    The hashes of [SodiumProvider] are what the columns of [users] and [sessions]
    take, so that accounts and sessions are found again by what their users present. *)
From stdpp Require Import pretty.
From Stdlib Require Import Ascii.
From S2P Require Import Prelude Card Table AccountStore Auth GameStore GameStoreLib GameStoreInv MySqlDatabase MySqlClient MySqlGameStore MySqlCalls MySqlCommits MySqlInv MySqlSpecs MySqlTheorems.
From S2P Require MySqlAccountStore.
From S2P Require Import MySqlAccounts MySqlStores MySqlCalm MySqlRefinement MySqlStoresRefinement MySqlDemo SodiumProvider.

(** What the server does with hexadecimal digits and 32 bytes. *)
Class HexLaws `{!SessionValues} := {
  unhex_hex bytes : Forall is_byte bytes → unhex (digits bytes) = Some (text_of bytes);
  binary32_keeps s : String.length s = 32%nat → MySqlAccountStore.binary32 s = Some s;
}.

Section sessions.
  Context `{!Collation, !SessionValues, !HexLaws} {C : Type} `{!Sodium C, !SodiumLaws C}.

(** The key of a token in the table of sessions. *)
Definition token_key (token : string) : string := text_of (crypto_hash_sha256 token).

Lemma token_key_bytes token :
  unhex (hashSessionToken token) = Some (token_key token) ∧
  MySqlAccountStore.binary32 (token_key token) = Some (token_key token).
Proof.
  pose proof (sha256 token) as [Hlen Hb]. rw hashSessionToken_digits unhex_hex //. split; [done|].
  apply binary32_keeps. by rw /token_key length_text Hlen sha256_bytes.
Qed.

Lemma token_key_inj token token' : token_key token = token_key token' → crypto_hash_sha256 token = crypto_hash_sha256 token'.
Proof. apply text_of_inj; apply sha256. Qed.

(** C36: accounts are found by what their users present. With libsodium for hashes and
    tokens, while nothing fails and no other client is active: after a registration
    that the account store accepted, the user is found by id and by every spelling
    of the name that the collation takes for the same, with the wallet as granted and
    a hash that verifies the password; and after a session was stored under a
    token, the token finds it, as it was stored, until it expires and never later,
    while tokens with other digests find what they found before. *)
Theorem sodium_accounts_found name password chips (c c1 : C) h (l l1 : Link) r :
  calm l → ln_saved l = None → db_ok (ln_db l) → accounts_ok (ln_db l) →
  validUsername name = true → hashPassword password c = (Ok h, c1) →
  MySqlAccountStore.createUser name h chips l = (r, l1) → sr_error r = Storage_ok →
  ∃ u, r = sr_ok u ∧ username u = name ∧ wallet_balance u = chips ∧
    verifyPassword password (password_hash u) = true ∧
    (MySqlAccountStore.findUserById (user_id u) l1).1 = sr_ok u ∧
    (∀ spelling, same_text name spelling = true → (MySqlAccountStore.findUserByName spelling l1).1 = sr_ok u) ∧
    ∀ token expiry l2 now, let x := mkSession (user_id u) (hashSessionToken token) expiry 0 false in
      MySqlAccountStore.storeSession x l1 = (Storage_ok, l2) → MySqlAccountStore.from_unixtime now = true →
      (MySqlAccountStore.findSession (hashSessionToken token) now l2).1 =
        (if now <? expiry then sr_ok x else sr_fail Storage_not_found "session not found") ∧
      ∀ other, crypto_hash_sha256 other ≠ crypto_hash_sha256 token →
        (MySqlAccountStore.findSession (hashSessionToken other) now l2).1 =
        (MySqlAccountStore.findSession (hashSessionToken other) now l1).1.
Proof.
  intros Hcalm Hs Hdb Hac Hname Hhash Hcreate Hok.
  destruct (hashPassword_ok _ _ _ _ Hhash) as [[_ Hlen] Hver]. rw str_bytes in Hlen.
  assert (String.length name ≤ 33)%nat as Hn.
  { rw /validUsername in Hname. destruct ((_ <? 3) || (32 <? _))%nat eqn:Hb; [done|].
    apply orb_false_iff in Hb as [_ Hb]. apply Nat.ltb_ge in Hb. lia. }
  destruct (createUser_read_back name h chips l l1 r) as (Hcalm1 & Hs1 & _ & _ & u & -> & <- & <- & <- & Hid & Hnames);
    [done..|lia|].
  exists u. split_and!; [done..|]. intros token expiry l2 now x Hstore Hnow.
  destruct (storeSession_stored x l1 l2 Hcalm1 Hs1 Hstore) as (Hcalm2 & Hs2 & bytes & Hbytes & _ & Hdb2).
  destruct (token_key_bytes token) as [Hunhex Hbin]. rw Hunhex /= Hbin in Hbytes. injection Hbytes as <-.
  split.
  - rw findSession_calm // /MySqlAccountStore.sql_live_session /MySqlAccountStore.session_of Hunhex Hdb2 /= lookup_insert_eq /=.
    rw /MySqlAccountStore.is_live /= Hnow /=. by destruct (now <? expiry).
  - intros other Hne. rw !findSession_calm // /MySqlAccountStore.sql_live_session /MySqlAccountStore.session_of.
    rw (proj1 (token_key_bytes other)) Hdb2 /= lookup_insert_ne //. intros Heq. by apply Hne, token_key_inj.
Qed.
End sessions.

(** ** A library, and an account *)

Module SodiumDemo.
Import StoresDemo.

Definition checksum (s : string) : Z := sumZ (λ b, b) (bytes_of s) mod 256.

(** A toy that has the shape of the real functions: the encoding is a sign and a
    digit, the digest one byte and zeros, the random bytes count up. *)
Definition toy_encoding (p : string) : list Z := [36; 48 + checksum p mod 10] ++ repeat 0 126.

#[export] Instance toy_sodium : Sodium Z := {
  sodium_init c := (0, c);
  crypto_pwhash_PASSWD_MAX := 4294967295;
  crypto_pwhash_STRBYTES := 128;
  crypto_hash_sha256_BYTES := 32;
  crypto_pwhash_str_alg p c := (Some (toy_encoding p), c);
  crypto_pwhash_str_verify h p := String.eqb h (text_of (c_str (toy_encoding p)));
  randombytes_buf n c := (repeat (c mod 256) n, c + 1);
  sodium_bin2hex bytes := hex bytes ++ [0];
  crypto_hash_sha256 t := checksum t :: repeat 0 31;
}.

Lemma repeat_bytes b n : is_byte b → Forall is_byte (repeat b n).
Proof. intros Hb. induction n; cbn; by constructor. Qed.

#[export] Instance toy_laws : SodiumLaws Z.
Proof.
  split; [done..| | |done|].
  - intros p c encoded c' [= <- <-]. pose proof (Z.mod_pos_bound (checksum p) 10 eq_refl) as Hr. cbn [toy_encoding].
    split_and!; [done|by rw /toy_encoding /is_terminated existsb_app /= orb_true_r|done| |by apply String.eqb_refl].
    rw /toy_encoding. repeat constructor; cbn; lia.
  - intros n c. cbn. rw repeat_length. split; [done|]. apply repeat_bytes, Z.mod_pos_bound. lia.
  - intros t. split; [done|]. constructor; [|by apply repeat_bytes]. rw /is_byte /checksum.
    pose proof (Z.mod_pos_bound (sumZ (λ b, b) (bytes_of t)) 256). lia.
Qed.

Lemma toy_memory : CryptoReturns Z.
Proof. apply sodium_returns. intros p c. by eexists. Qed.

Lemma read_digit n : 0 ≤ n < 16 → StoresDemo.hex_digit (char_of (SodiumProvider.hex_digit n)) = Some (Z.to_nat n).
Proof.
  intros Hn. assert (n ∈ seqZ 0 16) as Hin by (apply elem_of_seqZ; lia). clear Hn.
  cut (Forall (λ n, StoresDemo.hex_digit (char_of (SodiumProvider.hex_digit n)) = Some (Z.to_nat n)) (seqZ 0 16)).
  - by rw Forall_forall; intros H; apply H.
  - repeat constructor.
Qed.

#[export] Instance toy_hex : HexLaws.
Proof.
  split; [|by intros s Hs; cbn; rw Hs].
  induction 1 as [|b l Hb _ IH]; [done|]. destruct (byte_nibbles b Hb) as (H1 & H2 & Hbe).
  cbn [unhex utc_server] in IH |- *.
  change (digits (b :: l)) with (String (char_of (SodiumProvider.hex_digit (b / 16)))
    (String (char_of (SodiumProvider.hex_digit (b mod 16))) (digits l))).
  cbn [hex_bytes]. rw !read_digit //= IH /=. do 2 f_equal.
  change (text_of (b :: l)) with (String (char_of b) (text_of l)). rw /char_of. do 2 f_equal. lia.
Qed.

(** Alice registers and signs in; her token finds her session for a minute. *)
Definition alice_hash : string := text_of (c_str (toy_encoding "correct horse")).
Definition registered : Link := (MySqlAccountStore.createUser "Alice" alice_hash 1000 (connect (λ _, fine))).2.
Definition raw_token : string := (generateSessionToken 5).1.
Definition signed_in : SessionRecord := mkSession 1 (hashSessionToken raw_token) 1700000060000 0 false.
Definition with_session : Link := (MySqlAccountStore.storeSession signed_in registered).2.

Example token_of_digits : String.length raw_token = 64%nat ∧ String.prefix "050505" raw_token = true.
Proof. vm_compute. by split. Qed.

Lemma sodium_accounts_found_witness :
  ∃ u, (MySqlAccountStore.findUserByName "aLICe" registered).1 = sr_ok u ∧
    verifyPassword "correct horse" (password_hash u) = true ∧
    (MySqlAccountStore.findSession (hashSessionToken raw_token) 1700000059999 with_session).1 = sr_ok signed_in ∧
    (MySqlAccountStore.findSession (hashSessionToken "guess") 1700000059999 with_session).1 =
    (MySqlAccountStore.findSession (hashSessionToken "guess") 1700000059999 registered).1.
Proof.
  destruct (MySqlAccountStore.createUser "Alice" alice_hash 1000 (connect (λ _, fine))) as [r l1] eqn:Hcreate.
  assert (registered = l1) as Hl1 by (unfold registered; rewrite Hcreate; reflexivity).
  assert (r = sr_ok (mkUser 1 "Alice" alice_hash 1000 false)) as ->.
  { replace r with (fst (r, l1)) by reflexivity. rewrite -Hcreate. vm_compute. reflexivity. }
  destruct (MySqlAccountStore.storeSession signed_in registered) as [e l2] eqn:Hstore.
  assert (with_session = l2) as Hl2 by (unfold with_session; rewrite Hstore; reflexivity).
  assert (e = Storage_ok) as ->.
  { replace e with (fst (e, l2)) by reflexivity. rewrite -Hstore. vm_compute. reflexivity. }
  rewrite Hl1 in Hstore.
  destruct (sodium_accounts_found "Alice" "correct horse" 1000 (0 : Z) 0 alice_hash (connect (λ _, fine)) l1
    (sr_ok (mkUser 1 "Alice" alice_hash 1000 false))) as (u & Hu & _ & _ & Hver & _ & Hname & Hsession).
  - by split.
  - reflexivity.
  - apply no_rows_ok.
  - apply no_rows_ok.
  - vm_compute. reflexivity.
  - vm_compute. reflexivity.
  - exact Hcreate.
  - reflexivity.
  - injection Hu as <-. exists (mkUser 1 "Alice" alice_hash 1000 false). rewrite Hl1 Hl2.
    split; [refine (Hname "aLICe"%string _); vm_compute; reflexivity|]. split; [exact Hver|].
    destruct (Hsession raw_token 1700000060000 l2 1700000059999 Hstore) as [Hfind Hothers]; [vm_compute; reflexivity|].
    split; [exact Hfind|]. apply Hothers. vm_compute. discriminate.
Defined.
End SodiumDemo.
