(* ===== verification/RedisServer.v ===== *)
(** * The Redis server and its client library

    What the node registry uses of Redis: the commands it sends, their replies,
    and scripts. The server is a parameter: [RedisServer] is the interface of an
    implementation, [RedisLaws] what the documentation of the commands says of
    keys, values and expiry. A command on its way may be refused, or its reply
    be lost, with the command carried out or not. *)
From stdpp Require Import pretty.
From S2P Require Import Prelude ServerConfig.

(** ** Commands and replies *)

Inductive Reply :=
  | Reply_status
  | Reply_error (text : string)
  | Reply_nil
  | Reply_string (s : string)
  | Reply_integer (n : Z)
  | Reply_array (elements : list Reply).

(** The commands with the arguments the registry varies; [SET] is with [EX], and
    [SET_NX] with [EX] and [NX]; [ZRANGE] asks for all members. *)
Inductive Command :=
  | PING
  | SET (key value : string) (ttl_seconds : Z)
  | SET_NX (key value : string) (ttl_seconds : Z)
  | GET (key : string)
  | GETDEL (key : string)
  | INCR (key : string)
  | ZADD (key : string) (score : Z) (member : string)
  | ZINCRBY (key : string) (increment : Z) (member : string)
  | ZREM (key member : string)
  | ZRANGE (key : string).

Definition command_key (c : Command) : option string :=
  match c with
  | PING => None
  | SET k _ _ | SET_NX k _ _ | GET k | GETDEL k | INCR k | ZADD k _ _ | ZINCRBY k _ _ | ZREM k _
  | ZRANGE k => Some k
  end.

(** What is stored under a key; a sorted set is the list of its members. *)
Inductive RedisValue :=
  | RString (s : string)
  | RSorted (members : list string).

(** ** The server *)

(** [holds s t k] is the value of the key at the time [t] (in milliseconds) if no
    command comes after [s]; a command is executed at the time given to it. *)
Class RedisServer (S : Type) := {
  redis_call : Z → Command → S → Reply * S;
  holds : S → Z → string → option RedisValue;
}.

Definition decimal (n : Z) : string := pretty (Z.to_N n).

Section laws.
  Context {S : Type} `{!RedisServer S}.
  Implicit Types (s : S) (now t : Z) (k : string).

(** The key holds [v] from [now] on for [ttl] seconds. *)
Definition holds_for s now k (v : string) (ttl : Z) : Prop :=
  ∀ t, now ≤ t → holds s t k = if t <? now + ttl * 1000 then Some (RString v) else None.

(** Nothing changes for the key. *)
Definition same_at s s' now k : Prop := ∀ t, now ≤ t → holds s' t k = holds s t k.

Definition is_error (r : Reply) : bool := match r with Reply_error _ => true | _ => false end.

(** The key holds a sorted set, or nothing, and goes on to do so. *)
Definition sorted_key s now k : Prop :=
  ∀ t, now ≤ t → match holds s t k with Some (RString _) => False | _ => True end.

(** The documentation of the commands, for keys that hold what the registry
    stores under them. *)
Class RedisLaws : Prop := {
  other_keys : ∀ now c s k, command_key c ≠ Some k → same_at s (redis_call now c s).2 now k;
  ping_status : ∀ now s, (redis_call now PING s).1 = Reply_status;
  set_stores : ∀ now k v ttl s, 0 < ttl →
    (redis_call now (SET k v ttl) s).1 = Reply_status ∧
    holds_for (redis_call now (SET k v ttl) s).2 now k v ttl;
  set_nx_taken : ∀ now k v ttl s, is_Some (holds s now k) →
    (redis_call now (SET_NX k v ttl) s).1 = Reply_nil ∧
    same_at s (redis_call now (SET_NX k v ttl) s).2 now k;
  set_nx_free : ∀ now k v ttl s, 0 < ttl → holds s now k = None →
    (redis_call now (SET_NX k v ttl) s).1 = Reply_status ∧
    holds_for (redis_call now (SET_NX k v ttl) s).2 now k v ttl;
  get_same : ∀ now k s, same_at s (redis_call now (GET k) s).2 now k;
  get_nil : ∀ now k s, holds s now k = None → (redis_call now (GET k) s).1 = Reply_nil;
  get_string : ∀ now k s v, holds s now k = Some (RString v) →
    (redis_call now (GET k) s).1 = Reply_string v;
  getdel_nil : ∀ now k s, holds s now k = None →
    (redis_call now (GETDEL k) s).1 = Reply_nil ∧ same_at s (redis_call now (GETDEL k) s).2 now k;
  getdel_string : ∀ now k s v, holds s now k = Some (RString v) →
    (redis_call now (GETDEL k) s).1 = Reply_string v ∧
    ∀ t, now ≤ t → holds (redis_call now (GETDEL k) s).2 t k = None;
  incr_new : ∀ now k s, holds s now k = None →
    (redis_call now (INCR k) s).1 = Reply_integer 1 ∧
    ∀ t, now ≤ t → holds (redis_call now (INCR k) s).2 t k = Some (RString (decimal 1));
  (** The counter of a key without expiry, below the largest 64-bit integer. *)
  incr_next : ∀ now k s n, 0 < n < i64_max →
    (∀ t, now ≤ t → holds s t k = Some (RString (decimal n))) →
    (redis_call now (INCR k) s).1 = Reply_integer (n + 1) ∧
    ∀ t, now ≤ t → holds (redis_call now (INCR k) s).2 t k = Some (RString (decimal (n + 1)));
  incr_full : ∀ now k s,
    (∀ t, now ≤ t → holds s t k = Some (RString (decimal i64_max))) →
    is_error (redis_call now (INCR k) s).1 = true ∧ same_at s (redis_call now (INCR k) s).2 now k;
  (** Commands on sorted sets leave a sorted set, and do not fail on one. *)
  sorted_kept : ∀ now c k s,
    match c with ZADD k' _ _ | ZINCRBY k' _ _ | ZREM k' _ | ZRANGE k' => k' = k | _ => False end →
    sorted_key s now k →
    is_error (redis_call now c s).1 = false ∧ sorted_key (redis_call now c s).2 now k;
}.
End laws.
Arguments RedisLaws S {_}.

(** ** Scripts *)

(** A script: its calls of [redis.call], and the integer it returns. *)
Inductive Script :=
  | Return (n : Z)
  | RedisCall (c : Command) (k : Reply → Script).

(** What a client asks for. *)
Inductive Req :=
  | Cmd (c : Command)
  | EVAL (script : Script).

Section execute.
  Context {S : Type} `{!RedisServer S}.
  Implicit Types (s : S) (now : Z).

(** A script runs without interruption; an error of a command ends it. *)
Fixpoint run_script now (p : Script) s : Reply * S :=
  match p with
  | Return n => (Reply_integer n, s)
  | RedisCall c k =>
      let '(r, s) := redis_call now c s in
      if is_error r then (r, s) else run_script now (k r) s
  end.

Definition execute_req now (r : Req) s : Reply * S :=
  match r with
  | Cmd c => redis_call now c s
  | EVAL script => run_script now script s
  end.
End execute.

(** ** The connection *)

Inductive Fate :=
  | Answered
  (** The server replies with an error and does nothing. *)
  | Refused (error : string)
  (** The connection breaks before the reply comes. *)
  | Lost (carried_out : bool).

(** What happens at a command: the outcome of [redisConnectWithTimeout] and the
    replies to [AUTH] and [SELECT], should the client connect, and the fate of
    the command. *)
Record RedisWeather := mkRedisWeather {
  rw_connects : bool;
  rw_auth : option Reply;
  rw_select : option Reply;
  rw_fate : Fate;
}.

Definition good_reply (r : option Reply) : bool :=
  match r with Some r => negb (is_error r) | None => false end.

Section client.
  Context {S : Type} `{!RedisServer S} (config_ : RedisConfig).
  Implicit Types (s : S) (now : Z) (w : RedisWeather).

(** Whether there is a context afterwards; every failure frees it. *)
Definition connectLocked w : bool :=
  if negb (rw_connects w) then false
  else if negb (bool_decide (rd_password config_ = ""%string)) && negb (good_reply (rw_auth w)) then false
  else if negb (rd_database config_ =? 0) && negb (good_reply (rw_select w)) then false
  else true.

(** The reply, whether there is a context afterwards, and the server. *)
Definition commandLocked w now (r : Req) (connected : bool) s : option Reply * bool * S :=
  if negb connected && negb (connectLocked w) then (None, false, s)
  else match rw_fate w with
  | Answered => let '(reply, s) := execute_req now r s in (Some reply, true, s)
  | Refused error => (Some (Reply_error error), true, s)
  | Lost carried_out => (None, false, if carried_out then (execute_req now r s).2 else s)
  end.
End client.

(** ** Programs of commands *)

(** What an operation still does: it has its answer, or sends a request and goes
    on with the reply. *)
Inductive Prog (A : Type) :=
  | Done (a : A)
  | Ask (r : Req) (k : option Reply → Prog A).
Arguments Done {A}.
Arguments Ask {A}.

Definition command (c : Command) : Prog (option Reply) := Ask (Cmd c) Done.
Definition eval (script : Script) : Prog (option Reply) := Ask (EVAL script) Done.

#[export] Instance Prog_ret : MRet Prog := @Done.

#[export] Instance Prog_bind : MBind Prog := λ A B f,
  fix bind p := match p with Done a => f a | Ask r k => Ask r (λ o, bind (k o)) end.

#[export] Instance Prog_fmap : FMap Prog := λ A B f p, p ≫= λ a, mret (f a).
