(* ===== verification/HiredisNodeRegistry.v ===== *)
(** * The Redis node registry

    Model of [include/poker/cluster/hiredis_node_registry.hpp] and
    [src/poker/infrastructure/hiredis_node_registry.cpp]. An operation is a program
    of commands; [run_prog] runs one over a connection and makes the registry an
    instance of the interface of [Cluster]. *)
From stdpp Require Import pretty.
From Stdlib Require Import Ascii.
From S2P Require Import Prelude Table AccountStore ServerConfig Cluster RedisServer.

(** ** Keys *)

Definition nodeKey (node_id : string) : string := "poker:node:" +:+ node_id.
Definition roomKey (table_id : Z) : string := "poker:room:" +:+ decimal table_id.
Definition ticketKey (token_hash : string) : string := "poker:ticket:" +:+ token_hash.
Definition load_key : string := "poker:nodes:load".
Definition counter_key : string := "poker:ids:table".

(** ** Strings of the Standard Library *)

Implicit Types (l : list Ascii.ascii).

(** The first position of a character. *)
Fixpoint find_char (c : Ascii.ascii) l : option nat :=
  match l with
  | [] => None
  | x :: l => if Ascii.eqb x c then Some O else S <$> find_char c l
  end.

(** The last position of a character. *)
Fixpoint rfind_char (c : Ascii.ascii) l : option nat :=
  match l with
  | [] => None
  | x :: l =>
      match rfind_char c l with
      | Some i => Some (S i)
      | None => if Ascii.eqb x c then Some O else None
      end
  end.

Definition find (c : Ascii.ascii) (s : string) : option nat :=
  find_char c (String.list_ascii_of_string s).

(** [rfind(c, pos)]: the last position up to [pos]; [None] is [npos]. *)
Definition rfind (c : Ascii.ascii) (pos : option nat) (s : string) : option nat :=
  let l := String.list_ascii_of_string s in
  rfind_char c (match pos with Some p => firstn (S p) l | None => l end).

(** [substr(pos, count)] with [pos] at most the size. *)
Definition substr (pos : nat) (count : option nat) (s : string) : string :=
  let l := skipn pos (String.list_ascii_of_string s) in
  String.string_of_list_ascii (match count with Some n => firstn n l | None => l end).

(** [std::stoull]: a minus sign negates the number modulo 2^64. *)
Definition stoull (s : string) : result Z :=
  let '(_, l) := skip_spaces (String.list_ascii_of_string s) in
  let '(sign, _, l) := read_sign l in
  let '(v, digits) := read_digits 0 l in
  if (digits =? 0)%nat then Throw (invalid_argument "stoull")
  else if u64_max <? v then Throw (out_of_range "stoull")
  else Ok (u64 (sign * v)).

(** ** Values *)

Definition node_value (node : NodeInfo) : string :=
  ni_endpoint node +:+ "|" +:+ decimal (ni_active_tables node) +:+ "|" +:+ decimal (ni_connections node).

Definition node_score (node : NodeInfo) : Z :=
  u64 (ni_active_tables node * 1000000 + ni_connections node).

(** [catch (...)] around a parser. *)
Definition caught {A} (r : result A) : option A := match r with Ok a => Some a | _ => None end.

(** [first - 1]: below zero it is [npos]. *)
Definition before (first : nat) : option nat :=
  match first with O => None | S n => Some n end.

(** [first - second - 1]: below zero it is [npos]. *)
Definition between (second first : nat) : option nat :=
  if (second <? first)%nat then Some (first - second - 1)%nat else None.

Definition parseNode (node_id value : string) : option NodeInfo :=
  match rfind "|" None value with
  | None => None
  | Some first =>
      match rfind "|" (before first) value with
      | None => None
      | Some second =>
          caught (
            active_tables ← stoull (substr (S second) (between second first) value);
            connections ← stoull (substr (S first) None value);
            Ok (mkNode node_id (substr 0 (Some second) value) active_tables connections))
      end
  end.

Definition ticket_value (ticket : JoinTicket) : string :=
  decimal (jt_user_id ticket) +:+ ":" +:+ decimal (jt_table_id ticket).

Definition parse_ticket (value : string) : option JoinTicket :=
  match find ":" value with
  | None => None
  | Some separator =>
      caught (
        user_id ← stoull (substr 0 (Some separator) value);
        table_id ← stoull (substr (S separator) None value);
        Ok (mkTicket user_id table_id))
  end.

(** ** Operations *)

Definition is_status (r : option Reply) : bool :=
  match r with Some Reply_status => true | _ => false end.

Definition is_integer (r : option Reply) : bool :=
  match r with Some (Reply_integer _) => true | _ => false end.

Definition ping_prog : Prog bool := is_status <$> command PING.

Definition heartbeat_prog (node : NodeInfo) (ttl_seconds : Z) : Prog bool :=
  if negb (heartbeat_valid node ttl_seconds) then Done false
  else
    stored ← command (SET (nodeKey (ni_node_id node)) (node_value node) ttl_seconds);
    indexed ← command (ZADD load_key (node_score node) (ni_node_id node));
    mret (is_status stored && (is_integer indexed || is_status indexed)).

(** The loop over the members of the index. *)
Fixpoint collect_nodes (members : list Reply) (result : list NodeInfo) : Prog (list NodeInfo) :=
  match members with
  | [] => Done result
  | Reply_string node_id :: members =>
      value ← command (GET (nodeKey node_id));
      match value with
      | None | Some Reply_nil =>
          command (ZREM load_key node_id) ≫= λ _, collect_nodes members result
      | Some (Reply_string v) =>
          collect_nodes members
            (match parseNode node_id v with Some node => result ++ [node] | None => result end)
      | _ => collect_nodes members result
      end
  | _ :: members => collect_nodes members result
  end.

Definition healthyNodes_prog : Prog (list NodeInfo) :=
  ids ← command (ZRANGE load_key);
  match ids with
  | Some (Reply_array members) => collect_nodes members []
  | _ => Done []
  end.

Definition new_id (reply : option Reply) : option Z :=
  match reply with
  | Some (Reply_integer n) => if (n <=? 0) || (u32_max <? n) then None else Some n
  | _ => None
  end.

Definition allocateTableId_prog : Prog (option Z) := new_id <$> command (INCR counter_key).

(** The script of [assignRoom], with its key and arguments. *)
Definition assign_script (key node_id : string) (ttl_seconds : Z) : Script :=
  RedisCall (GET key) (λ current,
    match current with
    | Reply_nil =>
        RedisCall (SET key node_id ttl_seconds) (λ _,
        RedisCall (ZINCRBY load_key 1000000 node_id) (λ _, Return 1))
    | Reply_string owner =>
        if bool_decide (owner = node_id)
        then RedisCall (SET key node_id ttl_seconds) (λ _, Return 1)
        else Return 0
    | _ => Return 0
    end).

Definition assigned (reply : option Reply) : bool :=
  match reply with Some (Reply_integer n) => n =? 1 | _ => false end.

Definition assignRoom_valid (table_id : Z) (node_id : string) (ttl_seconds : Z) : bool :=
  negb ((table_id =? 0) || bool_decide (node_id = ""%string) || (ttl_seconds =? 0)).

Definition assignRoom_prog (table_id : Z) (node_id : string) (ttl_seconds : Z) : Prog bool :=
  if negb (assignRoom_valid table_id node_id ttl_seconds) then Done false
  else assigned <$> eval (assign_script (roomKey table_id) node_id ttl_seconds).

Definition string_of (reply : option Reply) : option string :=
  match reply with Some (Reply_string s) => Some s | _ => None end.

Definition roomOwner_prog (table_id : Z) : Prog (option string) :=
  string_of <$> command (GET (roomKey table_id)).

Definition storeJoinTicket_prog (token_hash : string) (ticket : JoinTicket) (ttl_seconds : Z) : Prog bool :=
  if negb (ticket_valid token_hash ticket ttl_seconds) then Done false
  else is_status <$> command (SET_NX (ticketKey token_hash) (ticket_value ticket) ttl_seconds).

Definition consumed (reply : option Reply) : option JoinTicket := string_of reply ≫= parse_ticket.

Definition consumeJoinTicket_prog (token_hash : string) : Prog (option JoinTicket) :=
  consumed <$> command (GETDEL (ticketKey token_hash)).

(** ** The registry as an instance of the interface *)

Section registry.
  Context {S : Type} `{!RedisServer S} (config_ : RedisConfig).

(** What happens around a command of a registry: the time it takes to arrive,
    and what other clients ask for in the meantime. *)
Record Surroundings := mkSurroundings {
  su_elapsed : N;
  su_others : list Req;
  su_weather : RedisWeather;
}.

Record HiredisNodeRegistry := mkHiredis {
  context_ : bool;
  hr_server : S;
  hr_now : Z;
  hr_surroundings : nat → Surroundings;
  hr_commands : nat;
}.

Definition send (r : Req) (h : HiredisNodeRegistry) : option Reply * HiredisNodeRegistry :=
  let around := hr_surroundings h (hr_commands h) in
  let now := hr_now h + Z.of_N (su_elapsed around) in
  let server := foldl (λ s r, (execute_req now r s).2) (hr_server h) (su_others around) in
  let '(reply, connected, server) :=
    commandLocked config_ (su_weather around) now r (context_ h) server in
  (reply, mkHiredis connected server now (hr_surroundings h) (Datatypes.S (hr_commands h))).

Fixpoint run_prog {A} (p : Prog A) (h : HiredisNodeRegistry) : A * HiredisNodeRegistry :=
  match p with
  | Done a => (a, h)
  | Ask r k => let '(reply, h) := send r h in run_prog (k reply) h
  end.

Definition HiredisNodeRegistry_new (server : S) (now : Z) (around : nat → Surroundings)
    : HiredisNodeRegistry :=
  mkHiredis (connectLocked config_ (su_weather (around O))) server now around 1.

#[export] Instance hiredis_registry : NodeRegistry HiredisNodeRegistry := {
  ping := run_prog ping_prog;
  heartbeat node ttl := run_prog (heartbeat_prog node ttl);
  healthyNodes := run_prog healthyNodes_prog;
  allocateTableId := run_prog allocateTableId_prog;
  assignRoom id node ttl := run_prog (assignRoom_prog id node ttl);
  roomOwner id := run_prog (roomOwner_prog id);
  storeJoinTicket hash ticket ttl := run_prog (storeJoinTicket_prog hash ticket ttl);
  consumeJoinTicket hash := run_prog (consumeJoinTicket_prog hash);
}.
End registry.
Arguments HiredisNodeRegistry : clear implicits.
