(* ===== verification/RedisValues.v ===== *)
(** * Keys and values of the Redis registry

    What is written under a key reads back, and the keys of nodes, rooms, tickets,
    the load index and the counter do not collide. *)
From stdpp Require Import pretty.
From Stdlib Require Import Ascii.
From S2P Require Import Prelude Table AccountStore ServerConfig Cluster RedisServer HiredisNodeRegistry.

Implicit Types (l : list Ascii.ascii).

(** ** Lists of characters *)

Lemma chars_app s s' :
  String.list_ascii_of_string (s +:+ s') = String.list_ascii_of_string s ++ String.list_ascii_of_string s'.
Proof. induction s as [|c s IH]; [done|]. exact (f_equal (cons c) IH). Qed.

Lemma find_char_app c l l' : c ∉ l → find_char c (l ++ c :: l') = Some (length l).
Proof.
  induction l as [|x l IH]; cbn; intros Hin.
  - by rw Ascii.eqb_refl.
  - apply not_elem_of_cons in Hin as [Hx Hl]. destruct (Ascii.eqb_spec x c); [congruence|]. by rw IH.
Qed.

Lemma rfind_char_None c l : c ∉ l → rfind_char c l = None.
Proof.
  induction l as [|x l IH]; cbn; intros Hin; [done|]. apply not_elem_of_cons in Hin as [Hx Hl].
  rw IH //. destruct (Ascii.eqb_spec x c); [congruence|done].
Qed.

Lemma rfind_char_app c l l' : c ∉ l' → rfind_char c (l ++ c :: l') = Some (length l).
Proof.
  intros Hl'. induction l as [|x l IH]; cbn; [|by rw IH]. by rw rfind_char_None // Ascii.eqb_refl.
Qed.

Lemma drop_separator (x : Ascii.ascii) l l' : drop (S (length l)) (l ++ x :: l') = l'.
Proof. by induction l. Qed.

(** ** Numbers *)

Definition is_digit (c : Ascii.ascii) : Prop := is_Some (digit c).

Lemma decimal_digits n :
  0 ≤ n → ∃ c l, String.list_ascii_of_string (decimal n) = c :: l ∧ Forall is_digit (c :: l) ∧
    read_digits 0 (c :: l) = (n, S (length l)).
Proof.
  intros Hn. rw /decimal /pretty /pretty_N. case_decide as Hz.
  { exists "0"%char, []. split_and!; [done|by constructor; [by eexists|]|]. cbn -[Z.mul]. f_equal. change (0 = n). lia. }
  destruct (pretty_go_digits (Z.to_N n) "") as (l & Hl & Hd & Hne & Hr). rw app_nil_r in Hl. rw Hl.
  destruct l as [|c l]; [by destruct Hne; [lia|]|]. exists c, l. split_and!; [done|done|].
  rw Hr. f_equal. lia.
Qed.

Lemma digits_other c l : Forall is_digit l → digit c = None → c ∉ l.
Proof. intros Hl Hc Hin. rw Forall_forall in Hl. destruct (Hl _ Hin). congruence. Qed.

Lemma stoull_digits c l v :
  is_digit c → read_digits 0 (c :: l) = (v, S (length l)) → 0 ≤ v ≤ u64_max →
  stoull (String.string_of_list_ascii (c :: l)) = Ok v.
Proof.
  intros Hc Hr Hv. rw /stoull String.list_ascii_of_string_of_list_ascii skip_spaces_digit // read_sign_digit // Hr.
  cbn [Nat.eqb]. destruct (Z.ltb_spec u64_max v); [lia|]. rw Z.mul_1_l u64_small //.
Qed.

Lemma decimal_inj n n' : 0 ≤ n → 0 ≤ n' → decimal n = decimal n' → n = n'.
Proof. rw /decimal. intros Hn Hn' H. apply (inj pretty) in H. lia. Qed.

(** ** Values read back *)

Lemma between_lt i j : (i < j)%nat → between i j = Some (j - i - 1)%nat.
Proof. intros H. rw /between. destruct (Nat.ltb_spec i j); [done|lia]. Qed.

Lemma parse_ticket_value t :
  fits_u64 (jt_user_id t) → fits_u64 (jt_table_id t) → parse_ticket (ticket_value t) = Some t.
Proof.
  intros Hu Ht. rw /parse_ticket /ticket_value /find /substr !chars_app /=.
  destruct (decimal_digits (jt_user_id t)) as (c1 & l1 & Hc1 & Hd1 & Hr1); [apply Hu|].
  destruct (decimal_digits (jt_table_id t)) as (c2 & l2 & Hc2 & Hd2 & Hr2); [apply Ht|].
  rw Hc1 Hc2 find_char_app; [by eapply digits_other|].
  rw take_app_length (stoull_digits c1 l1 (jt_user_id t)) //=; [by inversion Hd1|].
  rw drop_separator (stoull_digits c2 l2 (jt_table_id t)) //=; [by inversion Hd2|]. by destruct t.
Qed.

Lemma parseNode_value node :
  fits_u64 (ni_active_tables node) → fits_u64 (ni_connections node) →
  parseNode (ni_node_id node) (node_value node) = Some node.
Proof.
  intros Ha Hc. rw /parseNode /node_value /rfind /substr !chars_app /=.
  destruct (decimal_digits (ni_active_tables node)) as (c1 & l1 & Hc1 & Hd1 & Hr1); [apply Ha|].
  destruct (decimal_digits (ni_connections node)) as (c2 & l2 & Hc2 & Hd2 & Hr2); [apply Hc|].
  rw Hc1 Hc2. set (e := String.list_ascii_of_string (ni_endpoint node)).
  set (value := e ++ "|"%char :: c1 :: l1 ++ "|"%char :: c2 :: l2).
  assert (value = (e ++ "|"%char :: c1 :: l1) ++ "|"%char :: c2 :: l2) as Hv by by rw /value -app_assoc.
  assert ("|"%char ∉ c1 :: l1) by by eapply digits_other.
  assert ("|"%char ∉ c2 :: l2) by by eapply digits_other.
  assert (rfind_char "|" value = Some (length e + S (S (length l1)))%nat) as Hfirst.
  { rw Hv rfind_char_app // length_app //. }
  change (e ++ "|"%char :: (c1 :: l1) ++ "|"%char :: c2 :: l2) with value. rw Hfirst.
  replace (before (length e + S (S (length l1)))) with (Some (length e + S (length l1))%nat);
    last by rewrite [X in before X]Nat.add_succ_r.
  replace (firstn (S (length e + S (length l1))) value) with (e ++ "|"%char :: c1 :: l1); last first.
  { rw Hv take_app_le; [rw length_app /=; lia|]. rw firstn_all2 //. rw length_app /=. lia. }
  rw rfind_char_app // between_lt; [lia|].
  replace (skipn (S (length e)) value) with (c1 :: l1 ++ "|"%char :: c2 :: l2); last first.
  { by rw /value drop_separator. }
  replace (length e + S (S (length l1)) - length e - 1)%nat with (length (c1 :: l1)) by (cbn; lia).
  change (c1 :: l1 ++ "|"%char :: c2 :: l2) with ((c1 :: l1) ++ "|"%char :: c2 :: l2).
  rw take_app_length (stoull_digits c1 l1 (ni_active_tables node)) //=; [by inversion Hd1|].
  replace (length e + S (S (length l1)))%nat with (length (e ++ "|"%char :: c1 :: l1)) by by rw length_app.
  rw Hv drop_separator.
  rw (stoull_digits c2 l2 (ni_connections node)) //=; [by inversion Hd2|].
  rw -Hv /value take_app_length /e String.string_of_list_ascii_of_string. by destruct node.
Qed.

(** ** Keys are apart *)

#[export] Instance nodeKey_inj : Inj (=) (=) nodeKey.
Proof. intros a b. by rw /nodeKey => /(inj (String.append _)). Qed.

#[export] Instance ticketKey_inj : Inj (=) (=) ticketKey.
Proof. intros a b. by rw /ticketKey => /(inj (String.append _)). Qed.

Lemma roomKey_inj a b : 0 ≤ a → 0 ≤ b → roomKey a = roomKey b → a = b.
Proof. rw /roomKey => Ha Hb /(inj (String.append _)). by apply decimal_inj. Qed.

(** The kinds of keys are told apart by their prefixes. *)
Lemma keys_apart n id h :
  nodeKey n ≠ roomKey id ∧ nodeKey n ≠ ticketKey h ∧ nodeKey n ≠ load_key ∧ nodeKey n ≠ counter_key ∧
  roomKey id ≠ ticketKey h ∧ roomKey id ≠ load_key ∧ roomKey id ≠ counter_key ∧
  ticketKey h ≠ load_key ∧ ticketKey h ≠ counter_key ∧ load_key ≠ counter_key.
Proof. rw /nodeKey /roomKey /ticketKey /load_key /counter_key. split_and!; done. Qed.
