(* ===== verification/RedisWorld.v ===== *)
(** * Registries that share a Redis server

    The registries of all processes of the cluster, each in the middle of at most
    one operation (its mutex), send commands one at a time in any order; processes
    start and die at any time, commands are refused and replies are lost. The log
    keeps the commands that decide an operation, in the order the server carried
    them out; [due] is what the operation has to answer after such a history. *)
From stdpp Require Import pretty.
From S2P Require Import Prelude Table AccountStore ServerConfig Cluster ClusterTheorems RedisServer HiredisNodeRegistry RedisValues.

(** ** What a history says *)

Definition lease_event (id : Z) (ev : RegEvent) (o : option (Expiring string)) : option (Expiring string) :=
  match ev_call ev, ev_answer ev with
  | AssignRoom id' node ttl, Yes_no true =>
      if bool_decide (id' = id) then Some (mkExpiring node (expiry (ev_time ev) ttl)) else o
  | _, _ => o
  end.

Definition beat_event (n : string) (ev : RegEvent) (o : option (Expiring NodeInfo))
    : option (Expiring NodeInfo) :=
  match ev_call ev, ev_answer ev with
  | Heartbeat node ttl, Yes_no true =>
      if bool_decide (ni_node_id node = n) then Some (mkExpiring node (expiry (ev_time ev) ttl)) else o
  | _, _ => o
  end.

Definition live_at {T} (t : Z) (o : option (Expiring T)) : option T :=
  match o with
  | Some e => if t <? expires_at_ms e then Some (ex_value e) else None
  | None => None
  end.

Definition is_allocation (ev : RegEvent) : bool :=
  match ev_call ev with AllocateTableId => true | _ => false end.

Definition allocations (evs : list RegEvent) : Z :=
  Z.min (Z.of_nat (length (filter (λ ev, is_allocation ev = true) evs))) i64_max.

(** The answer of a call at a time after a history. *)
Definition due (evs : list RegEvent) (now : Z) (c : RegCall) : RegAnswer :=
  match c with
  | Heartbeat _ _ => Yes_no true
  | HealthyNodes => Nodes []
  | AllocateTableId => NewId (if allocations evs <? u32_max then Some (allocations evs + 1) else None)
  | AssignRoom id node _ =>
      Yes_no (match live_at now (history (lease_event id) evs) with
              | Some owner => bool_decide (owner = node)
              | None => true
              end)
  | RoomOwner id => Owner (live_at now (history (lease_event id) evs))
  | StoreJoinTicket h _ _ =>
      Yes_no (match live_at now (history (ticket_event h) evs) with Some _ => false | None => true end)
  | ConsumeJoinTicket h => Ticket (live_at now (history (ticket_event h) evs))
  end.

(** ** Operations in progress *)

Definition prog_of (c : RegCall) : Prog RegAnswer :=
  match c with
  | Heartbeat node ttl => Yes_no <$> heartbeat_prog node ttl
  | HealthyNodes => Nodes <$> healthyNodes_prog
  | AllocateTableId => NewId <$> allocateTableId_prog
  | AssignRoom id node ttl => Yes_no <$> assignRoom_prog id node ttl
  | RoomOwner id => Owner <$> roomOwner_prog id
  | StoreJoinTicket h t ttl => Yes_no <$> storeJoinTicket_prog h t ttl
  | ConsumeJoinTicket h => Ticket <$> consumeJoinTicket_prog h
  end.

(** What a call answers when nothing is known to have happened. *)
Definition failure (c : RegCall) : RegAnswer :=
  match c with
  | Heartbeat _ _ | AssignRoom _ _ _ | StoreJoinTicket _ _ _ => Yes_no false
  | HealthyNodes => Nodes []
  | AllocateTableId => NewId None
  | RoomOwner _ => Owner None
  | ConsumeJoinTicket _ => Ticket None
  end.

(** The answer the reply to the deciding command stands for. *)
Definition answer_in (c : RegCall) (reply : Reply) : RegAnswer :=
  match c with
  | Heartbeat _ _ | StoreJoinTicket _ _ _ => Yes_no (is_status (Some reply))
  | HealthyNodes => Nodes []
  | AllocateTableId => NewId (new_id (Some reply))
  | AssignRoom _ _ _ => Yes_no (assigned (Some reply))
  | RoomOwner _ => Owner (string_of (Some reply))
  | ConsumeJoinTicket _ => Ticket (consumed (Some reply))
  end.

Definition decides (c : RegCall) (r : Req) : bool :=
  match c, r with
  | HealthyNodes, _ => false
  | Heartbeat _ _, Cmd (SET _ _ _) => true
  | Heartbeat _ _, _ => false
  | _, _ => true
  end.

(** The arguments have the types of the source. *)
Definition typed_call (c : RegCall) : Prop :=
  match c with
  | Heartbeat node ttl => fits_u64 (ni_active_tables node) ∧ fits_u64 (ni_connections node) ∧ 0 ≤ ttl
  | AssignRoom id _ ttl => fits_u64 id ∧ 0 ≤ ttl
  | RoomOwner id => fits_u64 id
  | StoreJoinTicket _ t ttl => fits_u64 (jt_user_id t) ∧ fits_u64 (jt_table_id t) ∧ 0 ≤ ttl
  | _ => True
  end.

(** ** The world *)

(** A deciding command the server carried out: whose it was, when it came, the
    answer it stands for, and whether the client got the reply. *)
Record Entry := mkEntry { en_client : nat; en_event : RegEvent; en_delivered : bool }.

Definition events (log : list Entry) : list RegEvent := en_event <$> log.

(** An operation: its call, the length of the log and the time when it began, and
    what it still does. *)
Record Running := mkRunning {
  ru_call : RegCall;
  ru_since : nat;
  ru_began : Z;
  ru_prog : Prog RegAnswer;
}.

Record Client := mkClient { cl_connected : bool; cl_running : option Running }.

Section world.
  Context {S : Type} `{!RedisServer S} (config_ : RedisConfig).

Record World := mkWorld {
  wd_server : S;
  wd_now : Z;
  wd_clients : gmap nat Client;
  wd_log : list Entry;
}.

Definition reaches (weather : RedisWeather) (connected : bool) : bool :=
  connected || connectLocked config_ weather.

Definition carries_out (weather : RedisWeather) (connected : bool) : bool :=
  reaches weather connected &&
  match rw_fate weather with Answered => true | Refused _ => false | Lost b => b end.

Definition entry_of (w : World) (weather : RedisWeather) (connected : bool) (i : nat) (c : RegCall)
    (r : Req) : list Entry :=
  if carries_out weather connected && decides c r
  then [mkEntry i (mkEvent (wd_now w) c (answer_in c (execute_req (wd_now w) r (wd_server w)).1))
          (match rw_fate weather with Answered => true | _ => false end)]
  else [].

(** The next command of a client. *)
Definition request (w : World) (weather : RedisWeather) (i : nat) (cl : Client) (ru : Running)
    (r : Req) (k : option Reply → Prog RegAnswer) : World :=
  let '(reply, connected, server) :=
    commandLocked config_ weather (wd_now w) r (cl_connected cl) (wd_server w) in
  mkWorld server (wd_now w)
    (<[i := mkClient connected (Some (mkRunning (ru_call ru) (ru_since ru) (ru_began ru) (k reply)))]>
       (wd_clients w))
    (wd_log w ++ entry_of w weather (cl_connected cl) i (ru_call ru) r).

Inductive world_step : World → World → Prop :=
  | step_time w (n : N) :
      world_step w (mkWorld (wd_server w) (wd_now w + Z.of_N n) (wd_clients w) (wd_log w))
  | step_start w i weather :
      wd_clients w !! i = None →
      world_step w (mkWorld (wd_server w) (wd_now w)
        (<[i := mkClient (connectLocked config_ weather) None]> (wd_clients w)) (wd_log w))
  | step_stop w i :
      world_step w (mkWorld (wd_server w) (wd_now w) (delete i (wd_clients w)) (wd_log w))
  | step_call w i connected c :
      wd_clients w !! i = Some (mkClient connected None) → typed_call c →
      world_step w (mkWorld (wd_server w) (wd_now w)
        (<[i := mkClient connected (Some (mkRunning c (length (wd_log w)) (wd_now w) (prog_of c)))]>
           (wd_clients w)) (wd_log w))
  | step_request w weather i cl ru r k :
      wd_clients w !! i = Some cl → cl_running cl = Some ru → ru_prog ru = Ask r k →
      world_step w (request w weather i cl ru r k)
  | step_return w i connected ru a :
      wd_clients w !! i = Some (mkClient connected (Some ru)) → ru_prog ru = Done a →
      world_step w (mkWorld (wd_server w) (wd_now w)
        (<[i := mkClient connected None]> (wd_clients w)) (wd_log w)).

(** From an empty server, without clients. *)
Definition reachable (s0 : S) (t0 : Z) : World → Prop := rtc world_step (mkWorld s0 t0 ∅ []).
End world.
Arguments World : clear implicits.
