(* ===== verification/RedisInv.v ===== *)
(** * What the server holds after a history

    Each kind of key is a slot with the value the history gives it. A command of
    the registry changes its own slot the way its event changes the history, and
    its reply is the one due. *)
From stdpp Require Import pretty.
From S2P Require Import Prelude Table AccountStore ServerConfig Cluster ClusterTheorems RedisServer HiredisNodeRegistry RedisValues RedisWorld.

Inductive Slot := SNode (n : string) | SRoom (id : Z) | STicket (h : string) | SCounter.

Definition slot_key (sl : Slot) : string :=
  match sl with
  | SNode n => nodeKey n
  | SRoom id => roomKey id
  | STicket h => ticketKey h
  | SCounter => counter_key
  end.

Definition slot_valid (sl : Slot) : Prop := match sl with SRoom id => 0 ≤ id | _ => True end.

(** The string a slot holds at a time. *)
Definition slot_value (evs : list RegEvent) (sl : Slot) (t : Z) : option string :=
  match sl with
  | SNode n => node_value <$> live_at t (history (beat_event n) evs)
  | SRoom id => live_at t (history (lease_event id) evs)
  | STicket h => ticket_value <$> live_at t (history (ticket_event h) evs)
  | SCounter => if allocations evs =? 0 then None else Some (decimal (allocations evs))
  end.

Lemma slot_key_inj sl sl' :
  slot_valid sl → slot_valid sl' → slot_key sl = slot_key sl' → sl = sl'.
Proof.
  intros Hv Hv' Heq. destruct sl as [n|id|h|], sl' as [n'|id'|h'|]; cbn [slot_key] in Heq; try done.
  - by apply (inj nodeKey) in Heq as ->.
  - f_equal. by apply roomKey_inj.
  - by apply (inj ticketKey) in Heq as ->.
Qed.

Lemma slot_not_load sl : slot_key sl ≠ load_key.
Proof. by destruct sl. Qed.

(** The slot and the events of a call. *)
Definition call_slot (c : RegCall) : option Slot :=
  match c with
  | Heartbeat node _ => Some (SNode (ni_node_id node))
  | HealthyNodes => None
  | AllocateTableId => Some SCounter
  | AssignRoom id _ _ | RoomOwner id => Some (SRoom id)
  | StoreJoinTicket h _ _ | ConsumeJoinTicket h => Some (STicket h)
  end.

(** An event leaves the slots of other calls. *)
Lemma slot_other evs ev sl t :
  call_slot (ev_call ev) ≠ Some sl → slot_value (evs ++ [ev]) sl t = slot_value evs sl t.
Proof.
  intros Hne. destruct sl as [n|id|h|]; cbn [slot_value]; rw ?history_snoc.
  - destruct ev as [now [node ttl| | | | | |] a]; try done. rw /beat_event /=.
    destruct a as [[]| | | |]; try done. case_bool_decide; [by subst|done].
  - destruct ev as [now [| | |id' node ttl| | |] a]; try done. rw /lease_event /=.
    destruct a as [[]| | | |]; try done. case_bool_decide; [by subst|done].
  - destruct ev as [now [| | | | |h' tk ttl|h'] a]; try done; rw /ticket_event /=.
    + destruct a as [[]| | | |]; try done. case_bool_decide; [by subst|done].
    + case_bool_decide; [by subst|done].
  - rw /allocations filter_app length_app. destruct ev as [now [] a]; try done; cbn; by rw Nat.add_0_r.
Qed.

(** The requests a call makes. *)
Definition asks (c : RegCall) (r : Req) : Prop :=
  match c with
  | Heartbeat node ttl =>
      heartbeat_valid node ttl = true ∧
      (r = Cmd (SET (nodeKey (ni_node_id node)) (node_value node) ttl) ∨
       r = Cmd (ZADD load_key (node_score node) (ni_node_id node)))
  | HealthyNodes =>
      r = Cmd (ZRANGE load_key) ∨ ∃ n, r = Cmd (GET (nodeKey n)) ∨ r = Cmd (ZREM load_key n)
  | AllocateTableId => r = Cmd (INCR counter_key)
  | AssignRoom id node ttl =>
      assignRoom_valid id node ttl = true ∧ r = EVAL (assign_script (roomKey id) node ttl)
  | RoomOwner id => r = Cmd (GET (roomKey id))
  | StoreJoinTicket h t ttl =>
      ticket_valid h t ttl = true ∧ r = Cmd (SET_NX (ticketKey h) (ticket_value t) ttl)
  | ConsumeJoinTicket h => r = Cmd (GETDEL (ticketKey h))
  end.

(** Tickets a history remembers have values of their types. *)
Lemma ticket_history_typed h evs e :
  Forall (λ ev, typed_call (ev_call ev)) evs → history (ticket_event h) evs = Some e →
  fits_u64 (jt_user_id (ex_value e)) ∧ fits_u64 (jt_table_id (ex_value e)).
Proof.
  intros Hty. revert e. induction evs as [|ev evs IH] using rev_ind; intros e; [done|].
  apply Forall_app in Hty as [Hty [Hev _]%Forall_cons]. rw history_snoc /ticket_event.
  destruct ev as [now c a]; cbn in Hev |- *.
  destruct c as [| | | | |h' tk ttl|h']; try (by apply IH).
  - destruct a as [[]| | | |]; try (by apply IH). case_bool_decide; [|by apply IH].
    intros [= <-]. cbn in Hev |- *. tauto.
  - case_bool_decide; [done|by apply IH].
Qed.

Lemma node_history_typed n evs e :
  Forall (λ ev, typed_call (ev_call ev)) evs → history (beat_event n) evs = Some e →
  ni_node_id (ex_value e) = n ∧ fits_u64 (ni_active_tables (ex_value e)) ∧
  fits_u64 (ni_connections (ex_value e)).
Proof.
  intros Hty. revert e. induction evs as [|ev evs IH] using rev_ind; intros e; [done|].
  apply Forall_app in Hty as [Hty [Hev _]%Forall_cons]. rw history_snoc /beat_event.
  destruct ev as [now c a]; cbn in Hev |- *.
  destruct c as [node ttl| | | | | |]; try (by apply IH).
  destruct a as [[]| | | |]; try (by apply IH). case_bool_decide; [|by apply IH].
  intros [= <-]. cbn in Hev |- *. tauto.
Qed.

Lemma allocations_range evs : 0 ≤ allocations evs ≤ i64_max.
Proof. rw /allocations /i64_max. lia. Qed.

Lemma allocations_snoc evs now a :
  allocations (evs ++ [mkEvent now AllocateTableId a]) = Z.min (allocations evs + 1) i64_max.
Proof. rw /allocations filter_app length_app /=. lia. Qed.

Section keys.
  Context {S : Type} `{!RedisServer S, !RedisLaws S}.
  Implicit Types (s : S) (now t : Z) (evs : list RegEvent).

Definition slot_ok evs s now (sl : Slot) : Prop :=
  ∀ t, now ≤ t → holds s t (slot_key sl) = RString <$> slot_value evs sl t.

Record keyspace_ok evs s now : Prop := {
  ko_slots : ∀ sl, slot_valid sl → slot_ok evs s now sl;
  ko_load : sorted_key s now load_key;
}.

Lemma keyspace_later evs s now now' : now ≤ now' → keyspace_ok evs s now → keyspace_ok evs s now'.
Proof.
  intros Hle [Hs Hl]. split.
  - intros sl Hv t Ht. apply Hs; [done|lia].
  - intros t Ht. apply Hl. lia.
Qed.

Lemma sorted_same s s' now k : same_at s s' now k → sorted_key s now k → sorted_key s' now k.
Proof. intros Hsame Hk t Ht. rw Hsame //. by apply Hk. Qed.

(** What a change of one slot has to show. *)
Lemma keyspace_change evs s now s' ev sl :
  keyspace_ok evs s now → slot_valid sl → call_slot (ev_call ev) = Some sl →
  (∀ k, slot_key sl ≠ k → k ≠ load_key → same_at s s' now k) →
  sorted_key s' now load_key →
  slot_ok (evs ++ [ev]) s' now sl →
  keyspace_ok (evs ++ [ev]) s' now.
Proof.
  intros [Hs Hl] Hv Hc Hother Hload Hsl. split; [|done]. intros sl' Hv' t Ht.
  destruct (decide (slot_key sl = slot_key sl')) as [Heq|Hne].
  { apply slot_key_inj in Heq as <-; [|done..]. by apply Hsl. }
  rw Hother //; [apply slot_not_load|]. rw slot_other; [|by apply Hs].
  rw Hc. intros [= ->]. done.
Qed.

(** A command on one slot leaves the index. *)
Lemma command_load now c s k :
  command_key c = Some k → k ≠ load_key → sorted_key s now load_key →
  sorted_key (redis_call now c s).2 now load_key.
Proof. intros Hc Hk. apply sorted_same, other_keys. rw Hc. by intros [= ->]. Qed.

(** A command on the index leaves the slots. *)
Lemma load_command_ok evs s now c :
  match c with ZADD k' _ _ | ZINCRBY k' _ _ | ZREM k' _ | ZRANGE k' => k' = load_key | _ => False end →
  keyspace_ok evs s now →
  is_error (redis_call now c s).1 = false ∧ keyspace_ok evs (redis_call now c s).2 now.
Proof.
  intros Hc [Hs Hl]. destruct (sorted_kept now c load_key s Hc Hl) as [He Hl']. split; [done|].
  split; [|done]. intros sl Hv t Ht. rw other_keys //; [|by apply Hs].
  intros Heq. apply (slot_not_load sl). by destruct c; simplify_eq/=.
Qed.

Lemma get_ok evs s now k : keyspace_ok evs s now → keyspace_ok evs (redis_call now (GET k) s).2 now.
Proof.
  intros [Hs Hl].
  assert (∀ k', same_at s (redis_call now (GET k) s).2 now k') as Hsame.
  { intros k'. destruct (decide (k = k')) as [->|Hne]; [apply get_same|].
    apply other_keys. cbn. congruence. }
  split; [|by apply (sorted_same s)]. intros sl Hv t Ht. rw Hsame //. by apply Hs.
Qed.

(** The reply to a [GET] of a slot. *)
Definition got (o : option string) : Reply :=
  match o with Some v => Reply_string v | None => Reply_nil end.

Lemma get_reply evs s now sl :
  keyspace_ok evs s now → slot_valid sl →
  (redis_call now (GET (slot_key sl)) s).1 = got (slot_value evs sl now).
Proof.
  intros [Hs _] Hv. pose proof (Hs sl Hv now ltac:(lia)) as Hh.
  destruct (slot_value evs sl now) as [v|]; cbn in Hh |- *; [by apply get_string|by apply get_nil].
Qed.
(** ** The deciding commands *)

(** The outcome of a request that decides the call [c]. *)
Definition decided evs s now (c : RegCall) (r : Req) : Prop :=
  let a := answer_in c (execute_req now r s).1 in
  a = due evs now c ∧ keyspace_ok (evs ++ [mkEvent now c a]) (execute_req now r s).2 now.

(** A command on the slot of the call, whose reply and effect are known. *)
Lemma decided_command evs s now c cmd sl :
  keyspace_ok evs s now → slot_valid sl → call_slot c = Some sl → command_key cmd = Some (slot_key sl) →
  answer_in c (redis_call now cmd s).1 = due evs now c →
  slot_ok (evs ++ [mkEvent now c (due evs now c)]) (redis_call now cmd s).2 now sl →
  decided evs s now c (Cmd cmd).
Proof.
  intros Hok Hv Hsl Hcmd Hdue Hslot. split; [done|]. cbn [execute_req]. rw Hdue.
  apply (keyspace_change evs s now _ _ sl); try done.
  - intros k Hk _. apply other_keys. rw Hcmd. congruence.
  - eapply command_load; [done|apply slot_not_load|apply Hok].
Qed.

Lemma holds_for_slot s now sl v ttl evs :
  holds_for s now (slot_key sl) v ttl →
  (∀ t, slot_value evs sl t = if t <? expiry now ttl then Some v else None) → slot_ok evs s now sl.
Proof. intros Hh Hv t Ht. rw Hh // Hv /expiry. by destruct (t <? _). Qed.

Lemma decided_heartbeat evs s now node ttl :
  keyspace_ok evs s now → typed_call (Heartbeat node ttl) → heartbeat_valid node ttl = true →
  decided evs s now (Heartbeat node ttl) (Cmd (SET (nodeKey (ni_node_id node)) (node_value node) ttl)).
Proof.
  intros Hok (_ & _ & Httl) Hvalid. assert (0 < ttl) as Hpos.
  { rw /heartbeat_valid in Hvalid. guards. lia. }
  destruct (set_stores now (nodeKey (ni_node_id node)) (node_value node) ttl s Hpos) as [Hr Hh].
  apply (decided_command _ _ _ _ _ (SNode (ni_node_id node))); try done; [by rw Hr|].
  eapply holds_for_slot; [done|]. intros t. cbn [slot_value]. rw history_snoc /beat_event /=.
  rw bool_decide_eq_true_2 //=. by destruct (t <? _).
Qed.

Lemma decided_allocate evs s now :
  keyspace_ok evs s now → decided evs s now AllocateTableId (Cmd (INCR counter_key)).
Proof.
  intros Hok. pose proof (ko_slots _ _ _ Hok SCounter I) as Hs. rw /slot_ok /= in Hs.
  pose proof (allocations_range evs) as Hrange. rw /i64_max in Hrange.
  apply (decided_command _ _ _ _ _ SCounter); try done.
  - cbn. f_equal. destruct (Z.eqb_spec (allocations evs) 0) as [Hz|Hnz].
    { destruct (incr_new now counter_key s (Hs now ltac:(lia))) as [-> _]. by rw Hz. }
    destruct (decide (allocations evs = i64_max)) as [Hfull|Hn].
    + rw Hfull in Hs |- *. destruct (incr_full now counter_key s Hs) as [He _].
      by destruct (redis_call now (INCR counter_key) s).1.
    + rw /i64_max in Hn. destruct (incr_next now counter_key s (allocations evs)) as [-> _];
        [rw /i64_max; lia|done|]. cbn. rw /u32_max.
      destruct (Z.leb_spec (allocations evs + 1) 0); [lia|]. cbn [orb].
      destruct (Z.ltb_spec (2 ^ 32 - 1) (allocations evs + 1)), (Z.ltb_spec (allocations evs) (2 ^ 32 - 1));
        done || lia.
  - intros t Ht. cbn [slot_value slot_key]. rw allocations_snoc.
    destruct (Z.eqb_spec (allocations evs) 0) as [Hz|Hnz].
    { destruct (incr_new now counter_key s (Hs now ltac:(lia))) as [_ ->]; [|done]. by rw Hz. }
    destruct (decide (allocations evs = i64_max)) as [Hfull|Hn].
    + rw Hfull in Hs |- *. destruct (incr_full now counter_key s Hs) as [_ ->]; [|done]. by rw Hs.
    + rw /i64_max in Hn. destruct (incr_next now counter_key s (allocations evs)) as [_ ->]; try done.
      { rw /i64_max. lia. }
      rw Z.min_l; [rw /i64_max; lia|]. destruct (Z.eqb_spec (allocations evs + 1) 0); [lia|done].
Qed.

Lemma decided_owner evs s now id :
  keyspace_ok evs s now → 0 ≤ id → decided evs s now (RoomOwner id) (Cmd (GET (roomKey id))).
Proof.
  intros Hok Hid. apply (decided_command _ _ _ _ _ (SRoom id)); try done.
  - cbn [answer_in due]. rw (get_reply evs s now (SRoom id)) //=. by destruct (live_at _ _).
  - intros t Ht. cbn [slot_value]. rw history_snoc.
    rw (ko_slots _ _ _ (get_ok _ _ _ (roomKey id) Hok) (SRoom id)) //.
Qed.

Lemma decided_store evs s now h tk ttl :
  keyspace_ok evs s now → typed_call (StoreJoinTicket h tk ttl) → ticket_valid h tk ttl = true →
  decided evs s now (StoreJoinTicket h tk ttl) (Cmd (SET_NX (ticketKey h) (ticket_value tk) ttl)).
Proof.
  intros Hok (_ & _ & Httl) Hvalid. assert (0 < ttl) as Hpos.
  { rw /ticket_valid in Hvalid. guards. lia. }
  pose proof (ko_slots _ _ _ Hok (STicket h) I) as Hs. pose proof (Hs now ltac:(lia)) as Hnow.
  cbn [slot_value slot_key] in Hs, Hnow.
  destruct (live_at now (history (ticket_event h) evs)) as [tk'|] eqn:Hlive; cbn in Hnow.
  - destruct (set_nx_taken now (ticketKey h) (ticket_value tk) ttl s) as [Hr Hsame]; [by rw Hnow|].
    apply (decided_command _ _ _ _ _ (STicket h)); try done; cbn [due]; rw Hlive; [by rw Hr|].
    intros t Ht. cbn [slot_value slot_key]. rw Hsame // history_snoc. by apply Hs.
  - destruct (set_nx_free now (ticketKey h) (ticket_value tk) ttl s Hpos Hnow) as [Hr Hh].
    apply (decided_command _ _ _ _ _ (STicket h)); try done; cbn [due]; rw Hlive; [by rw Hr|].
    eapply holds_for_slot; [done|]. intros t. cbn [slot_value]. rw history_snoc /ticket_event /=.
    rw bool_decide_eq_true_2 //=. by destruct (t <? _).
Qed.

Lemma decided_consume evs s now h :
  keyspace_ok evs s now → Forall (λ ev, typed_call (ev_call ev)) evs →
  decided evs s now (ConsumeJoinTicket h) (Cmd (GETDEL (ticketKey h))).
Proof.
  intros Hok Hty. pose proof (ko_slots _ _ _ Hok (STicket h) I now ltac:(lia)) as Hnow.
  cbn [slot_value slot_key] in Hnow.
  assert (∀ t a, slot_value (evs ++ [mkEvent now (ConsumeJoinTicket h) a]) (STicket h) t = None) as Hgone.
  { intros t a. cbn [slot_value]. rw history_snoc /ticket_event /=. by rw bool_decide_eq_true_2. }
  destruct (live_at now (history (ticket_event h) evs)) as [tk|] eqn:Hlive; cbn in Hnow.
  - destruct (getdel_string now (ticketKey h) s _ Hnow) as [Hr Hh].
    apply (decided_command _ _ _ _ _ (STicket h)); try done; cbn [due answer_in]; rw Hlive.
    + rw Hr /consumed /= parse_ticket_value //;
        (destruct (history (ticket_event h) evs) as [e|] eqn:Hhist; [|done]; cbn in Hlive;
         destruct (now <? expires_at_ms e); [|done]; injection Hlive as <-;
         destruct (ticket_history_typed _ _ _ Hty Hhist); done).
    + intros t Ht. by rw Hgone Hh.
  - destruct (getdel_nil now (ticketKey h) s Hnow) as [Hr Hsame].
    apply (decided_command _ _ _ _ _ (STicket h)); try done; cbn [due answer_in]; rw Hlive; [by rw Hr|].
    intros t Ht. rw Hgone Hsame //.
    rw (ko_slots _ _ _ Hok (STicket h)) //=.
    destruct (history (ticket_event h) evs) as [e|]; [|done]. cbn in Hlive |- *.
    destruct (Z.ltb_spec now (expires_at_ms e)); [done|]. by destruct (Z.ltb_spec t (expires_at_ms e)); [lia|].
Qed.
(** The script: it takes or renews a lease that is free or the node's own. *)
Lemma decided_assign evs s now id node ttl :
  keyspace_ok evs s now → typed_call (AssignRoom id node ttl) → assignRoom_valid id node ttl = true →
  decided evs s now (AssignRoom id node ttl) (EVAL (assign_script (roomKey id) node ttl)).
Proof.
  intros Hok [Hid Httl] Hvalid. assert (0 < ttl) as Hpos.
  { rw /assignRoom_valid in Hvalid. guards. lia. }
  assert (slot_valid (SRoom id)) as Hv by apply Hid.
  rw /decided. cbn [execute_req assign_script run_script due].
  pose proof (get_reply evs s now (SRoom id) Hok Hv) as Hget. cbn [slot_key slot_value] in Hget.
  pose proof (get_ok evs s now (roomKey id) Hok) as Hok1.
  destruct (redis_call now (GET (roomKey id)) s) as [r1 s1]. cbn [fst snd] in Hget, Hok1. subst r1.
  destruct (set_stores now (roomKey id) node ttl s1 Hpos) as [Hr Hh].
  assert (∀ s', (∀ k, k ≠ load_key → same_at (redis_call now (SET (roomKey id) node ttl) s1).2 s' now k) →
    sorted_key s' now load_key →
    keyspace_ok (evs ++ [mkEvent now (AssignRoom id node ttl) (Yes_no true)]) s' now) as Hset.
  { intros s' Hsame Hload. apply (keyspace_change evs s1 now _ _ (SRoom id)); try done.
    - intros k Hk Hkl t Ht. rw Hsame // other_keys //. intros [= Heq]. by apply Hk.
    - intros t Ht. rw Hsame //. revert t Ht.
      eapply holds_for_slot; [done|]. intros t. cbn [slot_value]. rw history_snoc /lease_event /=.
      rw bool_decide_eq_true_2 //=. }
  assert (sorted_key (redis_call now (SET (roomKey id) node ttl) s1).2 now load_key) as Hl2.
  { eapply command_load; [done|apply (slot_not_load (SRoom id))|apply Hok1]. }
  destruct (live_at now (history (lease_event id) evs)) as [owner|] eqn:Hlive; cbn [got is_error].
  - case_bool_decide as Hown; cbn [run_script].
    + destruct (redis_call now (SET (roomKey id) node ttl) s1) as [r2 s2]. cbn [fst snd] in Hr, Hset, Hl2.
      subst r2. split; [done|]. by apply Hset.
    + split; [done|]. destruct Hok1 as [Hs Hl]. split; [|done]. intros sl Hsl t Ht. rw Hs //.
      destruct sl; cbn [slot_value]; rw ?history_snoc //. by rw /allocations filter_app app_nil_r.
  - cbn [run_script].
    destruct (redis_call now (SET (roomKey id) node ttl) s1) as [r2 s2]. cbn [fst snd] in Hr, Hset, Hl2.
    subst r2. cbn [is_error].
    destruct (sorted_kept now (ZINCRBY load_key 1000000 node) load_key s2) as [He Hl3]; [done..|].
    pose proof (λ k, other_keys now (ZINCRBY load_key 1000000 node) s2 k) as Hz.
    destruct (redis_call now (ZINCRBY load_key 1000000 node) s2) as [r3 s3]. cbn [fst snd] in He, Hl3, Hz.
    rw He. split; [done|]. apply Hset; [|done]. intros k Hk. apply Hz. cbn. congruence.
Qed.

(** Every deciding request of a call is answered as due. *)
Lemma decided_all evs s now c r :
  keyspace_ok evs s now → Forall (λ ev, typed_call (ev_call ev)) evs →
  typed_call c → asks c r → decides c r = true → decided evs s now c r.
Proof.
  intros Hok Hevs Hty Hasks Hdec.
  destruct c as [node ttl| | |id node ttl|id|h tk ttl|h]; cbn [asks] in Hasks; try done.
  - destruct Hasks as [Hvalid [-> | ->]]; [|done]. by apply decided_heartbeat.
  - subst. by apply decided_allocate.
  - destruct Hasks as [Hvalid ->]. by apply decided_assign.
  - subst. apply decided_owner; [done|]. apply Hty.
  - destruct Hasks as [Hvalid ->]. by apply decided_store.
  - subst. by apply decided_consume.
Qed.

(** The other requests leave everything the history speaks of. *)
Lemma undecided_ok evs s now c r :
  keyspace_ok evs s now → asks c r → decides c r = false →
  keyspace_ok evs (execute_req now r s).2 now ∧
  ∀ n, r = Cmd (GET (nodeKey n)) → (execute_req now r s).1 = got (slot_value evs (SNode n) now).
Proof.
  intros Hok Hasks Hdec. destruct c as [node ttl| | |id node ttl|id|h tk ttl|h]; cbn [asks] in Hasks.
  all: try (by destruct Hasks as [_ ->]); try (by subst).
  - destruct Hasks as [_ [-> | ->]]; [done|]. by split; [apply (load_command_ok evs s now)|].
  - destruct Hasks as [->|(n & [-> | ->])]; cbn [execute_req].
    + by split; [apply (load_command_ok evs s now)|].
    + split; [by apply get_ok|]. intros n' Heq.
      assert (nodeKey n = nodeKey n') as <-%(inj nodeKey) by congruence.
      by apply (get_reply evs s now (SNode n)).
    + by split; [apply (load_command_ok evs s now)|].
Qed.
End keys.
