(* ===== verification/RedisTheorems.v ===== *)
(** * What the Redis registry guarantees

    In every world the registries can reach, whatever commands were refused and
    whatever replies were lost, the answers are those due after the history, a
    ticket is redeemed at most once, a table is leased to one node at a time, and
    table ids are distinct. *)
From stdpp Require Import pretty.
From S2P Require Import Prelude Table AccountStore ServerConfig Cluster ClusterTheorems RedisServer HiredisNodeRegistry RedisValues RedisWorld RedisInv.

(** ** What an answer rests on *)

Section justified.
  Implicit Types (i since : nat) (c : RegCall) (began now : Z) (log : list Entry) (a : RegAnswer).

(** The node was live with these values at a moment between [began] and [now]. *)
Definition heard log began now (node : NodeInfo) : Prop :=
  ∃ log1 t, log1 `prefix_of` log ∧ began ≤ t ≤ now ∧
    live_at t (history (beat_event (ni_node_id node)) (events log1)) = Some node.

(** The answer is the one for failures, or the client's own command, carried out
    during the call, stands for it. *)
Definition backed i c since began log now a : Prop :=
  a = failure c ∨
  ∃ e, e ∈ drop since log ∧ en_client e = i ∧ en_delivered e = true ∧
    ev_call (en_event e) = c ∧ ev_answer (en_event e) = a ∧ began ≤ ev_time (en_event e) ≤ now.

(** Nodes are all heard during the call. *)
Definition justified i c since began log now a : Prop :=
  match c, a with
  | HealthyNodes, Nodes l => ∀ node, node ∈ l → heard log began now node
  | HealthyNodes, _ => False
  | _, _ => backed i c since began log now a
  end.

(** What is known of a reply when it comes: the log was [log0] before the command,
    and is [log] after it. *)
Definition replied i c (r : Req) log0 log now (o : option Reply) : Prop :=
  match o with
  | None | Some (Reply_error _) => True
  | Some reply =>
      if decides c r then log = log0 ++ [mkEntry i (mkEvent now c (answer_in c reply)) true]
      else ∀ n, r = Cmd (GET (nodeKey n)) → reply = got (slot_value (events log) (SNode n) now)
  end.

Fixpoint safe i c since began (p : Prog RegAnswer) log now : Prop :=
  match p with
  | Done a => justified i c since began log now a
  | Ask r k => asks c r ∧
      ∀ log0 log' now' o, log `prefix_of` log0 → log0 `prefix_of` log' → now ≤ now' →
        Forall (λ ev, typed_call (ev_call ev)) (events log') →
        replied i c r log0 log' now' o → safe i c since began (k o) log' now'
  end.

Lemma heard_later log log' began now now' node :
  log `prefix_of` log' → now ≤ now' → heard log began now node → heard log' began now' node.
Proof. intros Hp Hle (log1 & t & ? & ? & ?). exists log1, t. split_and!; [by etrans|lia|lia|done]. Qed.

Lemma backed_later i c since began log log' now now' a :
  log `prefix_of` log' → now ≤ now' → backed i c since began log now a → backed i c since began log' now' a.
Proof.
  intros [l ->] Hle [?|(e & He & ? & ? & ? & ? & ?)]; [by left|]. right. exists e.
  split_and!; try done; try lia. rw drop_app. apply elem_of_app. by left.
Qed.

Lemma justified_later i c since began log log' now now' a :
  log `prefix_of` log' → now ≤ now' → justified i c since began log now a → justified i c since began log' now' a.
Proof.
  intros Hp Hle. destruct c; cbn [justified]; try (by apply backed_later). destruct a; try done.
  intros Hall node Hin. eapply heard_later; [done..|]. by apply Hall.
Qed.

Lemma safe_later i c since began p log log' now now' :
  log `prefix_of` log' → now ≤ now' → safe i c since began p log now → safe i c since began p log' now'.
Proof.
  destruct p as [a|r k]; cbn; intros Hp Hle; [by apply justified_later|].
  intros [Hasks Hk]. split; [done|]. intros log0 log1 now1 o ?? ?. apply Hk; [by etrans|done|lia].
Qed.
(** ** The programs are safe *)

(** The deciding command of a call and what its answer is made of. *)
Lemma decided_backed i c since began r log log0 log' now o :
  since = length log → log `prefix_of` log0 → began ≤ now → decides c r = true →
  replied i c r log0 log' now o →
  match o with
  | None | Some (Reply_error _) => True
  | Some reply => backed i c since began log' now (answer_in c reply)
  end.
Proof.
  intros -> Hp Hbegan Hdec Hr. rw /replied Hdec in Hr.
  assert (∀ reply, log' = log0 ++ [mkEntry i (mkEvent now c (answer_in c reply)) true] →
    backed i c (length log) began log' now (answer_in c reply)) as Hback.
  { intros reply ->. right. exists (mkEntry i (mkEvent now c (answer_in c reply)) true).
    split_and!; try done. destruct Hp as [l ->]. rw -app_assoc drop_app_length. apply elem_of_app. right. by left. }
  destruct o as [[]|]; try done; by apply Hback.
Qed.

(** A call of one command. *)
Lemma safe_single i c began r (f : option Reply → RegAnswer) log now :
  asks c r → decides c r = true → began ≤ now → c ≠ HealthyNodes →
  f None = failure c → (∀ text, f (Some (Reply_error text)) = failure c) →
  (∀ reply, is_error reply = false → f (Some reply) = answer_in c reply) →
  safe i c (length log) began (Ask r (λ o, Done (f o))) log now.
Proof.
  intros Hasks Hdec Hbegan Hc Hnone Herr Hf. split; [done|]. intros log0 log' now' o Hp _ Hle _ Hr.
  pose proof (decided_backed i c _ began r log log0 log' now' o eq_refl Hp ltac:(lia) Hdec Hr) as Hb.
  assert (backed i c (length log) began log' now' (f o)) as Hback.
  { destruct o as [reply|]; [|by left]. destruct (is_error reply) eqn:He.
    - destruct reply; try done. left. apply Herr.
    - rw Hf //. by destruct reply. }
  by destruct c.
Qed.

Lemma safe_fails i c since began log now :
  c ≠ HealthyNodes → safe i c since began (Done (failure c)) log now.
Proof. intros Hc. by destruct c; try done; left. Qed.

(** A node that was heard: what its key held reads back. *)
Lemma got_heard log began now n v node :
  Forall (λ ev, typed_call (ev_call ev)) (events log) → began ≤ now →
  Reply_string v = got (slot_value (events log) (SNode n) now) → parseNode n v = Some node →
  heard log began now node.
Proof.
  intros Hty Hle Hgot Hparse. cbn [slot_value] in Hgot.
  destruct (live_at now (history (beat_event n) (events log))) as [node'|] eqn:Hlive; [|done].
  injection Hgot as ->. pose proof Hlive as Hlive'.
  destruct (history (beat_event n) (events log)) as [e|] eqn:Hhist; [|done]. cbn in Hlive'.
  destruct (now <? expires_at_ms e); [|done]. injection Hlive' as <-.
  destruct (node_history_typed _ _ _ Hty Hhist) as (Hname & Ha & Hc).
  rw -Hname parseNode_value // in Hparse. injection Hparse as <-.
  exists log, now. split_and!; [done|lia|lia|]. by rw Hname Hhist.
Qed.

Lemma safe_collect i since began members result log now :
  began ≤ now → (∀ node, node ∈ result → heard log began now node) →
  safe i HealthyNodes since began (Nodes <$> collect_nodes members result) log now.
Proof.
  revert result log now. induction members as [|m members IH]; intros result log now Hbegan Hres; [done|].
  destruct m as [| | |node_id| |]; try (by apply IH).
  change (Nodes <$> collect_nodes (Reply_string node_id :: members) result)
    with (Ask (Cmd (GET (nodeKey node_id))) (λ o, Nodes <$> match o with
      | None | Some Reply_nil => command (ZREM load_key node_id) ≫= λ _, collect_nodes members result
      | Some (Reply_string v) => collect_nodes members
          (match parseNode node_id v with Some node => result ++ [node] | None => result end)
      | _ => collect_nodes members result
      end)).
  split; [right; eexists; by left|]. intros log0 log' now' o Hp Hp' Hle Hty Hr.
  assert (∀ node, node ∈ result → heard log' began now' node) as Hres'.
  { intros node Hin. apply (heard_later log _ _ now); [by etrans|done|by apply Hres]. }
  assert (safe i HealthyNodes since began
    (Nodes <$> (command (ZREM load_key node_id) ≫= λ _, collect_nodes members result)) log' now') as Hrem.
  { split; [right; eexists; by right|]. intros log1 log2 now2 o2 Hp2 Hp2' Hle2 _ _. apply IH; [lia|].
    intros node Hin. apply (heard_later log' _ _ now'); [by etrans|done|by apply Hres']. }
  destruct o as [[]|]; try done; try (apply IH; [lia|done]).
  apply IH; [lia|]. destruct (parseNode node_id s) as [node|] eqn:Hparse; [|done].
  intros node' [?| ->%list_elem_of_singleton]%elem_of_app; [by apply Hres'|].
  eapply (got_heard log' began now' node_id); [done|lia| |done]. by apply Hr.
Qed.

Lemma safe_start i c log now : safe i c (length log) now (prog_of c) log now.
Proof.
  destruct c as [node ttl| | |id node ttl|id|h tk ttl|h].
  - cbn [prog_of]. rw /heartbeat_prog. destruct (heartbeat_valid node ttl) eqn:Hv; [|by apply safe_fails].
    split; [split; [done|by left]|]. intros log0 log' now' stored Hp Hp' Hle _ Hr.
    split; [split; [done|by right]|]. intros log1 log2 now2 indexed Hp2 Hp2' Hle2 _ _.
    pose proof (decided_backed i (Heartbeat node ttl) _ now (Cmd (SET _ _ _)) log log0 log' now' stored
      eq_refl Hp ltac:(lia) eq_refl Hr) as Hb.
    destruct (is_status stored) eqn:Hst; [|by left]. destruct stored as [[]|]; try done.
    change (safe i (Heartbeat node ttl) (length log) now
      (Done (Yes_no (is_integer indexed || is_status indexed))) log2 now2). destruct (is_integer indexed || is_status indexed); [|by left].
    apply (backed_later _ _ _ _ log' log2 now' now2); [by etrans|done|exact Hb].
  - split; [by left|]. intros log0 log' now' o Hp Hp' Hle _ Hr.
    destruct o as [[]|]; try (by intros ? ?%not_elem_of_nil).
    by apply safe_collect; [lia|intros ? ?%not_elem_of_nil].
  - apply (safe_single i AllocateTableId now _ (λ o, NewId (new_id o))); try done.
  - cbn [prog_of]. rw /assignRoom_prog. destruct (assignRoom_valid id node ttl) eqn:Hv; [|by apply safe_fails].
    by apply (safe_single i (AssignRoom id node ttl) now _ (λ o, Yes_no (assigned o))).
  - by apply (safe_single i (RoomOwner id) now _ (λ o, Owner (string_of o))).
  - cbn [prog_of]. rw /storeJoinTicket_prog. destruct (ticket_valid h tk ttl) eqn:Hv; [|by apply safe_fails].
    by apply (safe_single i (StoreJoinTicket h tk ttl) now _ (λ o, Yes_no (is_status o))).
  - by apply (safe_single i (ConsumeJoinTicket h) now _ (λ o, Ticket (consumed o))).
Qed.
End justified.

(** ** The invariant of a world *)

Section worlds.
  Context {S : Type} `{!RedisServer S, !RedisLaws S} (config_ : RedisConfig).
  Implicit Types (w : World S).

(** Every entry carries the answer due after the entries before it. *)
Definition all_due (log : list Entry) : Prop :=
  ∀ l1 e l2, log = l1 ++ e :: l2 →
    ev_answer (en_event e) = due (events l1) (ev_time (en_event e)) (ev_call (en_event e)).

Record world_ok w : Prop := {
  wo_keys : keyspace_ok (events (wd_log w)) (wd_server w) (wd_now w);
  wo_typed : Forall (λ ev, typed_call (ev_call ev)) (events (wd_log w));
  wo_due : all_due (wd_log w);
  wo_times : StronglySorted Z.le (ev_time <$> events (wd_log w));
  wo_past : Forall (λ ev, ev_time ev ≤ wd_now w) (events (wd_log w));
  wo_clients : ∀ i cl ru, wd_clients w !! i = Some cl → cl_running cl = Some ru →
    typed_call (ru_call ru) ∧
    safe i (ru_call ru) (ru_since ru) (ru_began ru) (ru_prog ru) (wd_log w) (wd_now w);
}.

Lemma all_due_snoc log e :
  all_due log → ev_answer (en_event e) = due (events log) (ev_time (en_event e)) (ev_call (en_event e)) →
  all_due (log ++ [e]).
Proof.
  intros Hall He l1 e' l2 Heq. destruct l2 as [|x l2 _] using rev_ind.
  - by apply app_inj_tail in Heq as [-> ->].
  - change (e' :: l2 ++ [x]) with ((e' :: l2) ++ [x]) in Heq. rw app_assoc in Heq.
    apply app_inj_tail in Heq as [-> _]. by eapply Hall.
Qed.

Lemma sorted_snoc (l : list Z) x : StronglySorted Z.le l → Forall (λ y, y ≤ x) l → StronglySorted Z.le (l ++ [x]).
Proof.
  intros Hs Hl. induction Hs as [|y l Hs IH Hy]; cbn; [by repeat constructor|].
  apply Forall_cons in Hl as [Hle Hl]. constructor; [by apply IH|].
  apply Forall_app. split; [done|]. by constructor.
Qed.

(** The clients after one of them has moved. *)
Lemma clients_insert w log now i cl :
  world_ok w → wd_log w `prefix_of` log → wd_now w ≤ now →
  (∀ ru, cl_running cl = Some ru → typed_call (ru_call ru) ∧
     safe i (ru_call ru) (ru_since ru) (ru_began ru) (ru_prog ru) log now) →
  ∀ j cl' ru, <[i := cl]> (wd_clients w) !! j = Some cl' → cl_running cl' = Some ru →
    typed_call (ru_call ru) ∧ safe j (ru_call ru) (ru_since ru) (ru_began ru) (ru_prog ru) log now.
Proof.
  intros Hok Hp Hle Hcl j cl' ru [[<- <-]|[_ Hj]]%lookup_insert_Some Hru; [by apply Hcl|].
  destruct (wo_clients _ Hok _ _ _ Hj Hru) as [Hty Hsafe]. split; [done|]. by eapply safe_later.
Qed.

Lemma events_snoc log e : events (log ++ [e]) = events log ++ [en_event e].
Proof. by rw /events fmap_app. Qed.

(** The server and the log fit together. *)
Record kept (server : S) (now : Z) (log : list Entry) : Prop := {
  kp_keys : keyspace_ok (events log) server now;
  kp_typed : Forall (λ ev, typed_call (ev_call ev)) (events log);
  kp_due : all_due log;
  kp_times : StronglySorted Z.le (ev_time <$> events log);
  kp_past : Forall (λ ev, ev_time ev ≤ now) (events log);
}.

Lemma world_kept w : world_ok w → kept (wd_server w) (wd_now w) (wd_log w).
Proof. intros []. by split. Qed.

Lemma world_update w server now log i cl :
  world_ok w → kept server now log → wd_log w `prefix_of` log → wd_now w ≤ now →
  (∀ ru, cl_running cl = Some ru → typed_call (ru_call ru) ∧
     safe i (ru_call ru) (ru_since ru) (ru_began ru) (ru_prog ru) log now) →
  world_ok (mkWorld server now (<[i := cl]> (wd_clients w)) log).
Proof. intros Hok [] Hp Hle Hcl. split; try done. by apply (clients_insert w). Qed.

(** The entry of a request that is carried out. *)
Definition carried_log w i c r (delivered : bool) : list Entry :=
  wd_log w ++
  if decides c r
  then [mkEntry i (mkEvent (wd_now w) c (answer_in c (execute_req (wd_now w) r (wd_server w)).1)) delivered]
  else [].

Lemma carried_kept w i c r delivered :
  world_ok w → typed_call c → asks c r →
  kept (execute_req (wd_now w) r (wd_server w)).2 (wd_now w) (carried_log w i c r delivered).
Proof.
  intros Hok Hty Hasks. rw /carried_log. destruct (decides c r) eqn:Hdec; last first.
  { rw app_nil_r. destruct (undecided_ok _ _ _ _ _ (wo_keys _ Hok) Hasks Hdec) as [Hkeys _].
    destruct Hok. by split. }
  destruct (decided_all _ _ _ _ _ (wo_keys _ Hok) (wo_typed _ Hok) Hty Hasks Hdec) as [Hdue Hkeys].
  destruct Hok. split; rw ?events_snoc; [done| | | |].
  - apply Forall_app. split; [done|by constructor].
  - by apply all_due_snoc.
  - rw fmap_app. apply sorted_snoc; [done|]. by apply Forall_fmap.
  - apply Forall_app. split; [done|]. by constructor.
Qed.

(** The reply of a request that is carried out. *)
Lemma carried_replied w i c r :
  world_ok w → asks c r →
  replied i c r (wd_log w) (carried_log w i c r true) (wd_now w)
    (Some (execute_req (wd_now w) r (wd_server w)).1).
Proof.
  intros Hok Hasks. rw /carried_log /replied. destruct (decides c r) eqn:Hdec.
  { by destruct (execute_req (wd_now w) r (wd_server w)).1. }
  destruct (undecided_ok _ _ _ _ _ (wo_keys _ Hok) Hasks Hdec) as [_ Hget]. rw app_nil_r.
  destruct (execute_req (wd_now w) r (wd_server w)).1 eqn:He; try done; intros n Hn; rw -(Hget n Hn); done.
Qed.

Lemma request_ok w weather i cl ru r k :
  world_ok w → wd_clients w !! i = Some cl → cl_running cl = Some ru → ru_prog ru = Ask r k →
  world_ok (request config_ w weather i cl ru r k).
Proof.
  intros Hok Hi Hru Hprog. destruct (wo_clients _ Hok _ _ _ Hi Hru) as [Hty Hsafe].
  rw Hprog in Hsafe. destruct Hsafe as [Hasks Hk].
  assert (∀ reply connected server log, kept server (wd_now w) log → wd_log w `prefix_of` log →
    replied i (ru_call ru) r (wd_log w) log (wd_now w) reply →
    world_ok (mkWorld server (wd_now w)
      (<[i := mkClient connected (Some (mkRunning (ru_call ru) (ru_since ru) (ru_began ru) (k reply)))]>
         (wd_clients w)) log)) as Hstep.
  { intros reply connected server log Hkept Hp Hr. apply world_update; try done.
    intros ? [= <-]. split; [done|]. by apply (Hk (wd_log w)); [done..|apply Hkept|]. }
  assert (wd_log w = wd_log w ++ []) as Hsame by by rw app_nil_r.
  rw /request /commandLocked /entry_of /carries_out /reaches.
  replace (negb (cl_connected cl) && negb (connectLocked config_ weather))
    with (negb (cl_connected cl || connectLocked config_ weather)) by apply negb_orb.
  destruct (cl_connected cl || connectLocked config_ weather); cbn [negb andb]; last first.
  { apply Hstep; rw -?Hsame; [by apply world_kept|done|done]. }
  destruct (rw_fate weather) as [|text|[]]; cbn [andb].
  - destruct (execute_req (wd_now w) r (wd_server w)) as [reply server] eqn:He.
    pose proof (carried_kept w i (ru_call ru) r true Hok Hty Hasks) as Hkept.
    pose proof (carried_replied w i (ru_call ru) r Hok Hasks) as Hreplied.
    rw /carried_log He /= in Hkept Hreplied. apply Hstep; [done|by eexists|done].
  - apply Hstep; rw -?Hsame; [by apply world_kept|done|done].
  - pose proof (carried_kept w i (ru_call ru) r false Hok Hty Hasks) as Hkept.
    apply Hstep; [exact Hkept|by eexists|done].
  - apply Hstep; rw -?Hsame; [by apply world_kept|done|done].
Qed.

Lemma world_step_ok w w' : world_ok w → world_step config_ w w' → world_ok w'.
Proof.
  intros Hok Hstep. destruct Hstep as [w n|w i weather Hi|w i|w i connected c Hi Hty|w weather i cl ru r k Hi Hru Hp|w i connected ru a Hi Hp].
  - destruct Hok as [Hkeys ? ? ? Hpast Hcl]. split; try done.
    + eapply keyspace_later; [|done]. cbn. lia.
    + eapply Forall_impl; [done|]. cbn. intros ev Hev. lia.
    + intros i cl ru Hi Hru. destruct (Hcl i cl ru Hi Hru) as [? Hsafe]. split; [done|].
      eapply safe_later; [done| |done]. cbn. lia.
  - apply world_update; try done. by apply world_kept.
  - destruct Hok as [? ? ? ? ? Hcl]. split; try done.
    intros j cl ru Hj. cbn in Hj. apply lookup_delete_Some in Hj as [_ Hj]. by apply Hcl.
  - apply world_update; try done; [by apply world_kept|]. intros ru [= <-]. split; [done|]. apply safe_start.
  - by eapply request_ok.
  - apply world_update; try done. by apply world_kept.
Qed.

Lemma reachable_ok s0 t0 w :
  (∀ t k, holds s0 t k = None) → reachable config_ s0 t0 w → world_ok w.
Proof.
  intros Hempty Hr. assert (world_ok (mkWorld s0 t0 ∅ [])) as Hinit.
  { split; cbn; try (by constructor).
    - split; [|by intros t _; rw Hempty]. intros sl _ t _. rw Hempty. by destruct sl.
    - by intros []. }
  revert Hinit. induction Hr as [|w1 w2 w3 Hstep _ IH]; [done|]. intros Hok. by eapply IH, world_step_ok.
Qed.

(** ** Reading the history *)

Lemma ticket_history_live h evs now t :
  live_at now (history (ticket_event h) evs) = Some t ↔
  ∃ a ev ttl b, evs = a ++ ev :: b ∧ stores h t ttl ev ∧ now < expiry (ev_time ev) ttl ∧
    ∀ ev', ev' ∈ b → ¬ touches h ev'.
Proof.
  assert (live_at now (history (ticket_event h) evs) = Some t ↔
    ∃ exp, history (ticket_event h) evs = Some (mkExpiring t exp) ∧ now < exp) as ->.
  { destruct (history (ticket_event h) evs) as [[t' exp]|]; cbn.
    - destruct (Z.ltb_spec now exp); naive_solver lia.
    - naive_solver. }
  split.
  - intros (exp & Hh & Hlt). apply (history_Some _ _ _ (ticket_event_decisive h)) in Hh
      as (a & ev & b & -> & (ttl & Hst & ->)%ticket_event_set & Hb).
    exists a, ev, ttl, b. split_and!; try done. intros ev' Hin. apply ticket_event_keep. by apply Hb.
  - intros (a & ev & ttl & b & -> & Hst & Hlt & Hb). exists (expiry (ev_time ev) ttl). split; [|done].
    apply (history_Some _ _ _ (ticket_event_decisive h)). exists a, ev, b. split_and!; [done| |].
    + apply ticket_event_set. by exists ttl.
    + intros ev' Hin. apply ticket_event_keep. by apply Hb.
Qed.

Lemma lease_event_keep id ev o : (∀ n ttl, ¬ grants id n ttl ev) → lease_event id ev o = o.
Proof.
  rw /grants /lease_event. intros Hno. destruct (ev_call ev) as [| | |id' n ttl| | |] eqn:Hc; try done.
  destruct (ev_answer ev) as [[]| | | |] eqn:Ha; try done. case_bool_decide; [|done].
  destruct (Hno n ttl). by subst.
Qed.

Lemma lease_history_last id n ttl evs ev mid :
  grants id n ttl ev → (∀ ev', ev' ∈ mid → ∀ n ttl, ¬ grants id n ttl ev') →
  history (lease_event id) (evs ++ ev :: mid) = Some (mkExpiring n (expiry (ev_time ev) ttl)).
Proof.
  intros [Hc Ha] Hmid. induction mid as [|ev' mid IH] using rev_ind.
  - rw history_snoc /lease_event Hc Ha. by rw bool_decide_eq_true_2.
  - change (ev :: mid ++ [ev']) with ((ev :: mid) ++ [ev']). rw app_assoc history_snoc.
    rw lease_event_keep; [apply Hmid; apply elem_of_app; right; by left|].
    apply IH. intros ev1 Hin. apply Hmid, elem_of_app. by left.
Qed.

Lemma allocations_mono evs1 evs2 : allocations evs1 ≤ allocations (evs1 ++ evs2).
Proof. rw /allocations filter_app length_app. lia. Qed.

(** ** The theorems *)

Context (s0 : S) (t0 : Z).

(** C14: The Redis registry answers as a registry kept in one place would: the
    commands of all registries that the server carried out, in their order in
    time, have the answers due after the commands before them, and an operation
    that ends answers what its own command stood for, reports a failure, or, for
    the list of nodes, names nodes that were live during the operation with the
    values of their last heartbeat. This holds whatever commands were refused,
    whatever replies were lost, and whatever processes died. *)
Theorem redis_registry_answers w :
  (∀ t k, holds s0 t k = None) → reachable config_ s0 t0 w →
  all_due (wd_log w) ∧ StronglySorted Z.le (ev_time <$> events (wd_log w)) ∧
  ∀ i cl ru a, wd_clients w !! i = Some cl → cl_running cl = Some ru → ru_prog ru = Done a →
    justified i (ru_call ru) (ru_since ru) (ru_began ru) (wd_log w) (wd_now w) a.
Proof.
  intros Hempty Hr. pose proof (reachable_ok _ _ _ Hempty Hr) as Hok. split_and!; [apply Hok..|].
  intros i cl ru a Hi Hru Hp. destruct (wo_clients _ Hok _ _ _ Hi Hru) as [_ Hsafe]. by rw Hp in Hsafe.
Qed.

(** C15: A join ticket kept in Redis is redeemed at most once and only in time,
    whichever of the cluster's processes ask for it and whatever replies are
    lost: asking for a hash takes a ticket out exactly when that ticket was stored
    under the hash, nobody took it since, and it has not expired. *)
Theorem redis_tickets_redeemed_once w l1 e h o l2 t :
  (∀ t k, holds s0 t k = None) → reachable config_ s0 t0 w →
  wd_log w = l1 ++ e :: l2 → ev_call (en_event e) = ConsumeJoinTicket h →
  ev_answer (en_event e) = Ticket o →
  o = Some t ↔
    ∃ a ev ttl b, events l1 = a ++ ev :: b ∧ stores h t ttl ev ∧
      ev_time (en_event e) < expiry (ev_time ev) ttl ∧ ∀ ev', ev' ∈ b → ¬ touches h ev'.
Proof.
  intros Hempty Hr Hlog Hc Ha. pose proof (wo_due _ (reachable_ok _ _ _ Hempty Hr) _ _ _ Hlog) as Hdue.
  rw Ha Hc /= in Hdue. injection Hdue as ->. by apply ticket_history_live.
Qed.

(** C16: A table is leased to one node at a time by the registries that share a
    Redis server: when a node is granted the lease of a table and the next lease
    goes to another node, the first one had expired. *)
Theorem redis_leased_to_one_node w l1 e1 mid e2 l2 id n1 ttl1 n2 ttl2 :
  (∀ t k, holds s0 t k = None) → reachable config_ s0 t0 w →
  wd_log w = l1 ++ e1 :: mid ++ e2 :: l2 →
  grants id n1 ttl1 (en_event e1) → grants id n2 ttl2 (en_event e2) → n1 ≠ n2 →
  (∀ ev, ev ∈ events mid → ∀ n ttl, ¬ grants id n ttl ev) →
  expiry (ev_time (en_event e1)) ttl1 ≤ ev_time (en_event e2).
Proof.
  intros Hempty Hr Hlog Hg1 [Hc2 Ha2] Hne Hmid.
  assert (wd_log w = (l1 ++ e1 :: mid) ++ e2 :: l2) as Hlog' by by rw Hlog -app_assoc.
  pose proof (wo_due _ (reachable_ok _ _ _ Hempty Hr) _ _ _ Hlog') as Hdue.
  rw Ha2 Hc2 /= /events fmap_app fmap_cons (lease_history_last id n1 ttl1) //= in Hdue.
  destruct (Z.ltb_spec (ev_time (en_event e2)) (expiry (ev_time (en_event e1)) ttl1)); [|done].
  by rw bool_decide_eq_false_2 in Hdue.
Qed.

(** The table ids the registries allocate are distinct: of two allocations the
    later one got the larger id, and both are positive and fit 32 bits. *)
Lemma redis_ids_distinct w l1 e1 mid e2 l2 n1 n2 :
  (∀ t k, holds s0 t k = None) → reachable config_ s0 t0 w →
  wd_log w = l1 ++ e1 :: mid ++ e2 :: l2 →
  ev_call (en_event e1) = AllocateTableId → ev_call (en_event e2) = AllocateTableId →
  ev_answer (en_event e1) = NewId (Some n1) → ev_answer (en_event e2) = NewId (Some n2) →
  0 < n1 < n2 ∧ n2 ≤ u32_max.
Proof.
  intros Hempty Hr Hlog Hc1 Hc2 Ha1 Ha2. pose proof (reachable_ok _ _ _ Hempty Hr) as Hok.
  assert (wd_log w = (l1 ++ e1 :: mid) ++ e2 :: l2) as Hlog' by by rw Hlog -app_assoc.
  pose proof (wo_due _ Hok _ _ _ Hlog) as Hd1. pose proof (wo_due _ Hok _ _ _ Hlog') as Hd2.
  rw Hc1 Ha1 /= in Hd1. rw Hc2 Ha2 /= in Hd2.
  pose proof (allocations_range (events l1)) as Hrange.
  destruct (Z.ltb_spec (allocations (events l1)) u32_max); [|done].
  destruct (Z.ltb_spec (allocations (events (l1 ++ e1 :: mid))) u32_max); [|done].
  injection Hd1 as ->. injection Hd2 as ->.
  assert (events (l1 ++ e1 :: mid) = events (l1 ++ [e1]) ++ events mid) as Heq.
  { by rw /events -fmap_app -app_assoc. }
  pose proof (allocations_mono (events (l1 ++ [e1])) (events mid)) as Hmono. rw -Heq in Hmono.
  destruct e1 as [i1 [now1 c1 a1] d1]. cbn in Hc1. subst c1. rw events_snoc allocations_snoc in Hmono.
  rw /i64_max in Hmono Hrange. rw /u32_max in H H0 |- *. lia.
Qed.
End worlds.
