(* ===== verification/RedisDemo.v ===== *)
(** * The Redis registry at work

    A server that keeps the laws, registries that share it, and the theorems at
    concrete histories. *)
From stdpp Require Import pretty.
From S2P Require Import Prelude Table AccountStore Auth GameStore ServerConfig Cluster ClusterTheorems RedisServer HiredisNodeRegistry RedisValues RedisWorld RedisInv RedisTheorems.

Module RedisDemo.

(** ** A server *)

Inductive Stored := KString (s : string) | KSorted (members : list (Z * string)).

(** A value and its deadline. *)
Definition Keyspace := gmap string (Stored * option Z).

Definition alive_at (t : Z) (deadline : option Z) : bool :=
  match deadline with Some d => t <? d | None => true end.

Definition live (ks : Keyspace) (t : Z) (k : string) : option (Stored * option Z) :=
  match ks !! k with
  | Some (v, d) => if alive_at t d then Some (v, d) else None
  | None => None
  end.

Definition value_of (v : Stored) : RedisValue :=
  match v with KString s => RString s | KSorted l => RSorted l.*2 end.

(** Members by their scores. *)
Fixpoint place (score : Z) (member : string) (l : list (Z * string)) : list (Z * string) :=
  match l with
  | [] => [(score, member)]
  | (s, m) :: l' => if score <? s then (score, member) :: l else (s, m) :: place score member l'
  end.

Definition without (member : string) (l : list (Z * string)) : list (Z * string) :=
  filter (λ x, x.2 ≠ member) l.

Definition score_of (member : string) (l : list (Z * string)) : Z :=
  match List.find (λ x, bool_decide (x.2 = member)) l with Some x => x.1 | None => 0 end.

Definition wrong_type : Reply := Reply_error "WRONGTYPE".

Definition set_string (now : Z) (k v : string) (ttl : Z) (ks : Keyspace) : Reply * Keyspace :=
  if ttl <=? 0 then (Reply_error "invalid expire time", ks)
  else (Reply_status, <[k := (KString v, Some (now + ttl * 1000))]> ks).

(** A command on a sorted set: its reply and the members it leaves. *)
Definition on_sorted (now : Z) (k : string) (f : list (Z * string) → Reply * list (Z * string))
    (ks : Keyspace) : Reply * Keyspace :=
  match live ks now k with
  | Some (KString _, _) => (wrong_type, ks)
  | Some (KSorted l, d) => let '(r, l) := f l in (r, <[k := (KSorted l, d)]> ks)
  | None => let '(r, l) := f [] in (r, <[k := (KSorted l, None)]> ks)
  end.

Definition run_command (now : Z) (c : Command) (ks : Keyspace) : Reply * Keyspace :=
  match c with
  | PING => (Reply_status, ks)
  | SET k v ttl => set_string now k v ttl ks
  | SET_NX k v ttl =>
      match live ks now k with Some _ => (Reply_nil, ks) | None => set_string now k v ttl ks end
  | GET k =>
      (match live ks now k with
       | Some (KString v, _) => Reply_string v
       | Some _ => wrong_type
       | None => Reply_nil
       end, ks)
  | GETDEL k =>
      match live ks now k with
      | Some (KString v, _) => (Reply_string v, delete k ks)
      | Some _ => (wrong_type, ks)
      | None => (Reply_nil, ks)
      end
  | INCR k =>
      match live ks now k with
      | None => (Reply_integer 1, <[k := (KString (decimal 1), None)]> ks)
      | Some (KString v, d) =>
          match stoull v with
          | Ok n => if n <? i64_max
                    then (Reply_integer (n + 1), <[k := (KString (decimal (n + 1)), d)]> ks)
                    else (Reply_error "increment or decrement would overflow", ks)
          | _ => (Reply_error "value is not an integer", ks)
          end
      | Some _ => (wrong_type, ks)
      end
  | ZADD k score m => on_sorted now k (λ l, (Reply_integer 1, place score m (without m l))) ks
  | ZINCRBY k by_ m =>
      on_sorted now k (λ l, (Reply_string "", place (score_of m l + by_) m (without m l))) ks
  | ZREM k m => on_sorted now k (λ l, (Reply_integer 1, without m l)) ks
  | ZRANGE k => on_sorted now k (λ l, (Reply_array (Reply_string <$> l.*2), l)) ks
  end.

#[export] Instance keyspace_server : RedisServer Keyspace := {
  redis_call := run_command;
  holds ks t k := value_of ∘ fst <$> live ks t k;
}.

Lemma live_insert ks t k k' e :
  live (<[k := e]> ks) t k' =
  if decide (k = k') then (if alive_at t e.2 then Some e else None) else live ks t k'.
Proof. rw /live lookup_insert. case_decide; [|done]. by destruct e. Qed.

Lemma live_delete ks t k k' : live (delete k ks) t k' = if decide (k = k') then None else live ks t k'.
Proof. rw /live lookup_delete. by case_decide. Qed.

Lemma set_string_holds now k v ttl ks :
  0 < ttl → (set_string now k v ttl ks).1 = Reply_status ∧ holds_for (set_string now k v ttl ks).2 now k v ttl.
Proof.
  intros Hpos. rw /set_string. destruct (Z.leb_spec ttl 0); [lia|]. split; [done|].
  intros t Ht. rw /holds /= live_insert decide_True //=. by destruct (t <? _).
Qed.

Lemma stoull_decimal n : fits_u64 n → stoull (decimal n) = Ok n.
Proof.
  intros Hn. destruct (decimal_digits n) as (c & l & Hc & Hd & Hr); [apply Hn|].
  rw -(String.string_of_list_ascii_of_string (decimal n)) Hc. apply stoull_digits; [by inversion Hd|done|done].
Qed.

Lemma on_sorted_kept now k f ks :
  (∀ l, is_error (f l).1 = false) → sorted_key ks now k →
  is_error (on_sorted now k f ks).1 = false ∧ sorted_key (on_sorted now k f ks).2 now k.
Proof.
  intros Hf Hk. pose proof (Hk now ltac:(lia)) as Hnow. rw /holds /= in Hnow. rw /on_sorted.
  destruct (live ks now k) as [[[s|l] d]|]; cbn in Hnow; [done| |].
  - pose proof (Hf l). destruct (f l) as [r l']. split; [done|]. intros t Ht. rw /holds /= live_insert decide_True //=.
    by destruct (alive_at t d).
  - pose proof (Hf []). destruct (f []) as [r l']. split; [done|]. intros t Ht. by rw /holds /= live_insert decide_True.
Qed.

Lemma on_sorted_other now k k' f ks : k ≠ k' → same_at ks (on_sorted now k f ks).2 now k'.
Proof.
  intros Hne t Ht. rw /on_sorted. destruct (live ks now k) as [[[s|l] d]|]; [done| |];
    destruct (f _) as [r l']; by rw /holds /= live_insert decide_False.
Qed.

Lemma set_string_other now k k' v ttl ks : k ≠ k' → same_at ks (set_string now k v ttl ks).2 now k'.
Proof.
  intros Hne t Ht. rw /set_string. destruct (ttl <=? 0); [done|]. by rw /holds /= live_insert decide_False.
Qed.

#[export] Instance keyspace_laws : RedisLaws Keyspace.
Proof.
  assert (∀ ks now k v, holds ks now k = Some (RString v) → ∃ d, live ks now k = Some (KString v, d)) as Hstr.
  { intros ks now k v. rw /holds /=. destruct (live ks now k) as [[[s|l] d]|]; try done.
    intros [= ->]. by exists d. }
  assert (∀ ks now k, holds ks now k = None → live ks now k = None) as Hnone.
  { intros ks now k. rw /holds /=. by destruct (live ks now k). }
  split.
  - intros now c ks k Hk. assert (∀ k', command_key c = Some k' → k' ≠ k) as Hne by congruence.
    destruct c; try (by intros t Ht); cbn [redis_call keyspace_server run_command];
      try (by apply on_sorted_other, Hne); try (by apply set_string_other, Hne).
    + destruct (live ks now key); [by intros t Ht|]. by apply set_string_other, Hne.
    + destruct (live ks now key) as [[[] ?]|]; try (by intros t Ht).
      intros t Ht. rw /holds /= live_delete decide_False //. by apply Hne.
    + destruct (live ks now key) as [[[v|] ?]|]; try (by intros t Ht).
      * destruct (stoull v) as [n| |]; try (by intros t Ht). destruct (n <? i64_max); [|by intros t Ht].
        intros t Ht. rw /holds /= live_insert decide_False //. by apply Hne.
      * intros t Ht. rw /holds /= live_insert decide_False //. by apply Hne.
  - done.
  - intros now k v ttl ks. apply set_string_holds.
  - intros now k v ttl ks [x Hx]. cbn in Hx |- *. by destruct (live ks now k).
  - intros now k v ttl ks Hpos Hn%Hnone. cbn. rw Hn. by apply set_string_holds.
  - by intros now k ks t Ht.
  - intros now k ks Hn%Hnone. cbn. by rw Hn.
  - intros now k ks v (d & Hl)%Hstr. cbn. by rw Hl.
  - intros now k ks Hn%Hnone. cbn. by rw Hn.
  - intros now k ks v (d & Hl)%Hstr. cbn. rw Hl. split; [done|]. intros t Ht. by rw /= live_delete decide_True.
  - intros now k ks Hn%Hnone. cbn. rw Hn. split; [done|]. intros t Ht. by rw /= live_insert decide_True.
  - intros now k ks n Hn Hall. pose proof (Hall now ltac:(lia)) as (d & Hl)%Hstr. cbn. rw Hl.
    rw /i64_max in Hn. rw stoull_decimal; [rw /fits_u64 /u64_max; lia|].
    destruct (Z.ltb_spec n i64_max) as [_|Hge]; [|rw /i64_max in Hge; lia]. split; [done|].
    intros t Ht. rw /= live_insert decide_True //=. pose proof (Hall t Ht) as Ht'.
    rw /holds /= /live in Ht'. rw /live in Hl. destruct (ks !! k) as [[v' d']|]; [|done].
    destruct (alive_at now d'); [|done]. injection Hl as -> ->. by destruct (alive_at t d).
  - intros now k ks Hall. pose proof (Hall now ltac:(lia)) as (d & Hl)%Hstr. cbn. rw Hl.
    rw stoull_decimal; [rw /fits_u64 /u64_max /i64_max; lia|]. by rw Z.ltb_irrefl.
  - intros now c k ks Hc Hk. destruct c; try done; cbn in Hc; subst; by apply on_sorted_kept.
Qed.

(** ** Worlds step by step *)

Definition config : RedisConfig := mkRedis "redis" 6379 "secret" 1 2000.

Definition sunny : RedisWeather := mkRedisWeather true (Some Reply_status) (Some Reply_status) Answered.
Definition lost (carried_out : bool) : RedisWeather :=
  mkRedisWeather true (Some Reply_status) (Some Reply_status) (Lost carried_out).
Definition refused : RedisWeather :=
  mkRedisWeather true (Some (Reply_error "WRONGPASS")) None (Refused "LOADING").

Inductive Act :=
  | Wait (n : N)
  | Join (i : nat)
  | Crash (i : nat)
  | Begin (i : nat) (c : RegCall)
  | Next (i : nat) (weather : RedisWeather).

Definition with_client (w : World Keyspace) (i : nat) (cl : Client) : World Keyspace :=
  mkWorld (wd_server w) (wd_now w) (<[i := cl]> (wd_clients w)) (wd_log w).

(** What an act does where it is possible. *)
Definition act (a : Act) (w : World Keyspace) : World Keyspace :=
  match a with
  | Wait n => mkWorld (wd_server w) (wd_now w + Z.of_N n) (wd_clients w) (wd_log w)
  | Join i =>
      match wd_clients w !! i with
      | None => with_client w i (mkClient (connectLocked config sunny) None)
      | Some _ => w
      end
  | Crash i => mkWorld (wd_server w) (wd_now w) (delete i (wd_clients w)) (wd_log w)
  | Begin i c =>
      match wd_clients w !! i with
      | Some (mkClient connected None) =>
          with_client w i (mkClient connected
            (Some (mkRunning c (length (wd_log w)) (wd_now w) (prog_of c))))
      | _ => w
      end
  | Next i weather =>
      match wd_clients w !! i with
      | Some (mkClient connected (Some ru)) =>
          match ru_prog ru with
          | Ask r k => request config w weather i (mkClient connected (Some ru)) ru r k
          | Done _ => with_client w i (mkClient connected None)
          end
      | _ => w
      end
  end.

Definition acts_typed (acts : list Act) : Prop :=
  Forall (λ a, match a with Begin _ c => typed_call c | _ => True end) acts.

Definition play (acts : list Act) (w : World Keyspace) : World Keyspace := foldl (λ w a, act a w) w acts.

Lemma act_steps a w :
  match a with Begin _ c => typed_call c | _ => True end → rtc (world_step config) w (act a w).
Proof.
  intros Hty. destruct a as [n|i|i|i c|i weather]; cbn [act].
  - apply rtc_once, step_time.
  - destruct (wd_clients w !! i) eqn:Hi; [done|]. by apply rtc_once, step_start.
  - apply rtc_once, step_stop.
  - destruct (wd_clients w !! i) as [[connected [ru|]]|] eqn:Hi; try done. by apply rtc_once, step_call.
  - destruct (wd_clients w !! i) as [[connected [ru|]]|] eqn:Hi; try done.
    destruct (ru_prog ru) as [a|r k] eqn:Hp.
    + by eapply rtc_once, step_return.
    + by eapply rtc_once, step_request.
Qed.

Definition dawn : World Keyspace := mkWorld (∅ : Keyspace) 0 ∅ [].

Lemma play_reachable acts : acts_typed acts → reachable config (∅ : Keyspace) 0 (play acts dawn).
Proof.
  rw /reachable -/dawn. generalize dawn. induction acts as [|a acts IH]; intros w; [done|].
  intros [Ha Hacts]%Forall_cons. etrans; [by apply act_steps|]. by apply IH.
Qed.

Lemma dawn_empty t k : holds (∅ : Keyspace) t k = None.
Proof. done. Qed.

(** A ticket for user 7 is stored by the lobby, and asked for by a game node,
    whose first attempt is lost before the server sees it; a second node asks for
    it as well, and the game node again. *)
Definition ticket7 : JoinTicket := mkTicket 7 1.

Definition redeeming : list Act :=
  [Join 0; Join 1; Join 2;
   Begin 0 (StoreJoinTicket "h" ticket7 30); Next 0 sunny; Next 0 sunny; Wait 1000;
   Begin 1 (ConsumeJoinTicket "h"); Next 1 (lost false); Next 1 sunny;
   Begin 1 (ConsumeJoinTicket "h"); Begin 2 (ConsumeJoinTicket "h"); Next 1 sunny; Next 2 sunny].

Example redeeming_log :
  wd_log (play redeeming dawn) =
  [mkEntry 0 (mkEvent 0 (StoreJoinTicket "h" ticket7 30) (Yes_no true)) true;
   mkEntry 1 (mkEvent 1000 (ConsumeJoinTicket "h") (Ticket (Some ticket7))) true;
   mkEntry 2 (mkEvent 1000 (ConsumeJoinTicket "h") (Ticket None)) true].
Proof. vm_compute. reflexivity. Qed.

(** The room of table 1 goes from node a, which crashes, to node b. *)
Definition leasing : list Act :=
  [Join 0; Join 1; Begin 0 (AssignRoom 1 "a" 30); Next 0 (lost true); Crash 0; Wait 20000;
   Begin 1 (AssignRoom 1 "b" 30); Next 1 sunny; Next 1 sunny; Wait 10000;
   Begin 1 (AssignRoom 1 "b" 30); Next 1 sunny].

Example leasing_log :
  wd_log (play leasing dawn) =
  [mkEntry 0 (mkEvent 0 (AssignRoom 1 "a" 30) (Yes_no true)) false;
   mkEntry 1 (mkEvent 20000 (AssignRoom 1 "b" 30) (Yes_no false)) true;
   mkEntry 1 (mkEvent 30000 (AssignRoom 1 "b" 30) (Yes_no true)) true].
Proof. vm_compute. reflexivity. Qed.

Definition allocating : list Act :=
  [Join 0; Join 1; Begin 0 AllocateTableId; Begin 1 AllocateTableId; Next 1 sunny; Next 0 sunny].

Example allocating_log :
  wd_log (play allocating dawn) =
  [mkEntry 1 (mkEvent 0 AllocateTableId (NewId (Some 1))) true;
   mkEntry 0 (mkEvent 0 AllocateTableId (NewId (Some 2))) true].
Proof. vm_compute. reflexivity. Qed.

Ltac typed_acts :=
  repeat (apply Forall_cons; split; [try exact I; cbn; rewrite /fits_u64 /u64_max; lia|]); apply Forall_nil; exact I.

Lemma redeeming_typed : acts_typed redeeming.
Proof. rw /acts_typed /redeeming. typed_acts. Qed.

Lemma leasing_typed : acts_typed leasing.
Proof. rw /acts_typed /leasing. typed_acts. Qed.

Lemma allocating_typed : acts_typed allocating.
Proof. rw /acts_typed /allocating. typed_acts. Qed.

Lemma redis_registry_answers_witness :
  all_due (wd_log (play redeeming dawn)) ∧ length (wd_log (play redeeming dawn)) = 3%nat.
Proof.
  split; [|by rewrite redeeming_log].
  exact (proj1 (redis_registry_answers config (∅ : Keyspace) 0 _ dawn_empty (play_reachable _ redeeming_typed))).
Defined.

Lemma redis_tickets_redeemed_once_witness :
  Some ticket7 = Some ticket7 ↔
    ∃ a ev ttl b, [mkEvent 0 (StoreJoinTicket "h" ticket7 30) (Yes_no true)] = a ++ ev :: b ∧
      stores "h" ticket7 ttl ev ∧ 1000 < expiry (ev_time ev) ttl ∧ ∀ ev', ev' ∈ b → ¬ touches "h" ev'.
Proof.
  exact (redis_tickets_redeemed_once config (∅ : Keyspace) 0 _
    [mkEntry 0 (mkEvent 0 (StoreJoinTicket "h" ticket7 30) (Yes_no true)) true]
    (mkEntry 1 (mkEvent 1000 (ConsumeJoinTicket "h") (Ticket (Some ticket7))) true) "h" _ _ ticket7
    dawn_empty (play_reachable _ redeeming_typed) redeeming_log eq_refl eq_refl).
Defined.

Lemma redis_leased_to_one_node_witness : expiry 0 30 ≤ 30000.
Proof.
  refine (redis_leased_to_one_node config (∅ : Keyspace) 0 _ []
    (mkEntry 0 (mkEvent 0 (AssignRoom 1 "a" 30) (Yes_no true)) false)
    [mkEntry 1 (mkEvent 20000 (AssignRoom 1 "b" 30) (Yes_no false)) true]
    (mkEntry 1 (mkEvent 30000 (AssignRoom 1 "b" 30) (Yes_no true)) true) [] 1 "a" 30 "b" 30
    dawn_empty (play_reachable _ leasing_typed) leasing_log (conj eq_refl eq_refl) (conj eq_refl eq_refl) _ _).
  - discriminate.
  - intros ev Hev n ttl [_ Ha]. apply list_elem_of_singleton in Hev as ->. discriminate Ha.
Defined.

Lemma redis_ids_distinct_witness : 0 < 1 < 2 ∧ 2 ≤ u32_max.
Proof.
  exact (redis_ids_distinct config (∅ : Keyspace) 0 _ []
    (mkEntry 1 (mkEvent 0 AllocateTableId (NewId (Some 1))) true) []
    (mkEntry 0 (mkEvent 0 AllocateTableId (NewId (Some 2))) true) [] 1 2
    dawn_empty (play_reachable _ allocating_typed) allocating_log eq_refl eq_refl eq_refl eq_refl).
Defined.

(** ** A router over Redis *)

Definition quiet (n : nat) : Surroundings := mkSurroundings 0 [] sunny.

Definition registry0 : HiredisNodeRegistry Keyspace := HiredisNodeRegistry_new config ∅ 0 quiet.

#[local] Instance redis : NodeRegistry (HiredisNodeRegistry Keyspace) := hiredis_registry config.

#[local] Instance demo_crypto : CryptoProvider nat := {
  hashPassword p c := (Ok ("h" +:+ p)%string, c);
  verifyPassword p h := String.eqb h ("h" +:+ p);
  generateSessionToken c := (("t" +:+ pretty c)%string, Datatypes.S c);
  hashSessionToken t := ("k" +:+ t)%string;
}.

Definition node_a : NodeInfo := mkNode "a" "host-a:6000" 3 40.
Definition node_b : NodeInfo := mkNode "b" "host|b:6000" 1 900.

Definition two_nodes (h : HiredisNodeRegistry Keyspace) : HiredisNodeRegistry Keyspace :=
  (heartbeat node_b 6 (heartbeat node_a 6 h).2).2.

(** The less loaded node comes first, with the values it reported. *)
Example nodes_by_load : (healthyNodes (two_nodes registry0)).1 = [node_b; node_a].
Proof. vm_compute. reflexivity. Qed.

(** The router gives the first table to it, with a ticket that Redis redeems. *)
Definition routed : option RouteAssignment * (HiredisNodeRegistry Keyspace * nat) :=
  let '(o, h) := allocateTableId (two_nodes registry0) in
  assignNewTable LobbyRouter_default (default 0 o) 7 (h, 0%nat).

Example routed_to_b : routed.1 = Some (mkRoute node_b "t0").
Proof. vm_compute. reflexivity. Qed.

Example redis_ticket_redeemed :
  let '(first, h) := consumeJoinTicket "kt0" routed.2.1 in
  (first, (consumeJoinTicket "kt0" h).1, (roomOwner 1 h).1) = (Some (mkTicket 7 1), None, Some "b").
Proof. vm_compute. reflexivity. Qed.

(** A refused password leaves the registry without a connection, and without
    answers. *)
Example wrong_password :
  (allocateTableId (HiredisNodeRegistry_new config ∅ 0 (λ _, mkSurroundings 0 [] refused))).1 = None.
Proof. vm_compute. reflexivity. Qed.

(** ** A lost reply unlists a live node *)

(** The third command of [healthyNodes], the [GET] of the second node, loses its
    reply. *)
Definition lossy (n : nat) : Surroundings :=
  mkSurroundings 0 [] (if decide (n = 7%nat) then lost true else sunny).

Definition after_loss : list NodeInfo * HiredisNodeRegistry Keyspace :=
  healthyNodes (two_nodes (HiredisNodeRegistry_new config ∅ 0 lossy)).

(** The node whose value was not received is removed from the load index, though
    its heartbeat is live: no later list names it until it beats again. *)
Example lost_get_unlists_node :
  let '(nodes, h) := after_loss in
  nodes = [node_b] ∧ (healthyNodes h).1 = [node_b] ∧
  holds (hr_server h) (hr_now h) (nodeKey "a") = Some (RString (node_value node_a)) ∧
  (healthyNodes (heartbeat node_a 6 h).2).1 = [node_b; node_a].
Proof. vm_compute. done. Qed.

End RedisDemo.
