(* ===== verification/ProtocolService.v ===== *)
(** * The protocol service

    Model of [apps/server/protocol_service.hpp/.cpp]: the composition of all
    components behind the network connections. Every lambda the source hands to
    an executor, a room or the timer is a constructor of a type of closures,
    with the captured values as arguments; the body of a lambda is the branch
    of the function that runs closures of that type. [Send] objects are named by
    the number of the request they belong to, sessions and table operations are
    shared objects in heaps, and what is sent, pushed and scheduled is logged.

    A [TableOperation] is shared by the closures of one command and releases its
    table when [finish] is called or the last closure is destroyed. A closure is
    passed on at most once, so the end of a body that does not pass it on is the
    place where it is destroyed: [drop_operation] there. *)
From stdpp Require Import pretty.
From S2P Require Import Prelude Card Deck HandEvaluator Metrics ServerConfig Table TableLib TableInv AccountStore Auth GameStore GameStoreSpec IdempotencyCache RoomExecutor RoomManager BlockingExecutor Cluster Protocol.

(** ** Data *)

Record ConnectionSession := mkConnection {
  cs_user_id : option Z;
  cs_username : string;
  cs_raw_token : string;
  cs_expires_at : Z;
  cs_table_id : option Z;
  cs_authenticating : bool;
}.

Definition ConnectionSession_new : ConnectionSession := mkConnection None "" "" 0 None false.

(** References: [send] objects, sessions, operations. *)
Notation SendRef := nat (only parsing).
Notation SessionRef := nat (only parsing).
Notation OperationRef := nat (only parsing).

(** [owner_] is null once finished. *)
Record TableOperation := mkOperation { op_live : bool; op_table_id : Z }.

(** Lambdas posted to the storage executor. *)
Inductive StorageTask :=
  | TaskRegister (request : Envelope) (username password : string) (send : SendRef)
  | TaskLogin (request : Envelope) (username password : string) (session : SessionRef) (send : SendRef)
  | TaskAuthenticate (request : Envelope) (raw_token : string) (session : SessionRef) (send : SendRef)
  | TaskReconnect (request : Envelope) (raw_token : string) (session : SessionRef) (send : SendRef)
  | TaskLogout (token : string) (table_id : option Z) (user_id : Z) (request : Envelope)
      (session : SessionRef) (send : SendRef)
  | TaskRefresh (token : string) (user_id : Z) (request : Envelope) (session : SessionRef) (send : SendRef)
  | TaskCreateTable (user_id : Z) (name : string) (config : TableConfig) (request : Envelope) (send : SendRef)
  | TaskListTables (user_id : Z) (limit : nat) (request : Envelope) (send : SendRef)
  | TaskJoinTable (user_id table_id : Z) (request : Envelope) (send : SendRef)
  | TaskSitDown (user_id : Z) (b : SitDownRequest) (request : Envelope) (session : SessionRef)
      (send : SendRef) (operation : OperationRef)
  | TaskRollback (table_id user_id : Z) (rollback_key : string) (operation : OperationRef)
  | TaskBeginHand (user_id : Z) (b : ReadyRequest) (request : Envelope) (send : SendRef)
      (start : HandStartRecord) (operation : OperationRef)
  | TaskPersist (user_id : Z) (b : ActionRequest) (request : Envelope) (send : SendRef)
      (view audit : TableSnapshot) (action : HandActionRecord)
      (settlement : option HandSettlementRecord) (operation : OperationRef)
  | TaskCashOut (table_id user_id : Z) (cash_key : string) (request : Envelope)
      (session : SessionRef) (send : SendRef) (operation : OperationRef)
  | TaskRefund (table_id hand_id server_sequence : Z) (users : list Z) (attempt : nat)
  | TaskTimeoutPersist (table_id : Z) (action : HandActionRecord)
      (settlement : option HandSettlementRecord) (after audit : TableSnapshot)
      (operation : OperationRef).

(** Callbacks given to rooms. *)
Inductive Continuation :=
  | OnConnected (table_id : Z)
  | OnDisconnected (table_id : Z)
  | OnBroadcast (table_id user_id : Z)
  | OnCurrent (table_id user_id : Z) (request : Envelope) (send : SendRef) (arm_timeout : bool)
  | OnSeated (user_id : Z) (b : SitDownRequest) (request : Envelope) (session : SessionRef)
      (send : SendRef) (operation : OperationRef)
  | OnSeatSnapshot (user_id : Z) (b : SitDownRequest) (request : Envelope) (send : SendRef)
      (operation : OperationRef)
  | OnReady (user_id : Z) (b : ReadyRequest) (request : Envelope) (send : SendRef) (operation : OperationRef)
  | OnStarted (user_id : Z) (b : ReadyRequest) (request : Envelope) (send : SendRef) (operation : OperationRef)
  | OnAudit (user_id : Z) (b : ReadyRequest) (request : Envelope) (send : SendRef) (operation : OperationRef)
  | OnActed (user_id : Z) (b : ActionRequest) (request : Envelope) (send : SendRef) (operation : OperationRef)
  | OnSnapshot (user_id : Z) (request : Envelope) (send : SendRef)
  | OnReconnected (user_id table_id : Z) (request : Envelope) (send : SendRef)
  | OnLeaveReady (table_id user_id : Z) (request : Envelope) (session : SessionRef) (send : SendRef)
      (operation : OperationRef)
  | OnRemoved (table_id user_id : Z) (request : Envelope) (session : SessionRef) (send : SendRef)
      (operation : OperationRef)
  | OnTimeoutAudit (table_id acting_player expected_sequence : Z) (action : ActionType)
  | OnTimeoutActed (table_id acting_player expected_sequence : Z) (action : ActionType)
      (operation : OperationRef).

(** Lambdas given to the timer. *)
Inductive Timer :=
  | TimerRefund (table_id hand_id server_sequence : Z) (users : list Z) (attempt : nat)
  | TimerTimeout (table_id acting_player expected_sequence : Z) (action : ActionType).

(** The service's own members, and the heaps of shared objects. *)
Record ServiceState := mkService {
  idempotency_ : IdempotencyCache;
  metrics_ : MetricsRegistry;
  active_table_operations_ : gset Z;
  latest_timeout_sequences_ : gmap Z Z;
  sessions_heap : gmap nat ConnectionSession;
  operations_heap : gmap nat TableOperation;
  continuations : gmap nat Continuation;
  next_ref : nat;
}.

(** What has left the service, and the number of requests received. *)
Record Output := mkOutput {
  sent : list (nat * Envelope);
  pushed : list (Z * Envelope);
  timers : list (Z * Timer);
  requests : nat;
}.

(** [stores] is the state behind the account store and the game store. *)
Record Server (W C R K : Type) := mkServer {
  stores : W;
  crypto : C;
  registry : R;
  clock : K;
  rooms : RoomManager;
  storage : BlockingExecutor StorageTask;
  own : ServiceState;
  out : Output;
}.
Arguments mkServer {W C R K}.
Arguments stores {W C R K}.
Arguments crypto {W C R K}.
Arguments registry {W C R K}.
Arguments clock {W C R K}.
Arguments rooms {W C R K}.
Arguments storage {W C R K}.
Arguments own {W C R K}.
Arguments out {W C R K}.

(** What the constructor is given and never changes; the last two say whether
    the [push] and [schedule] functions are set. *)
Record Settings := mkSettings {
  config : ServerConfig;
  auth : AuthService;
  router : LobbyRouter;
  push_set : bool;
  schedule_set : bool;
}.

(** ** Field updates *)

Definition with_idempotency v o := mkService v (metrics_ o) (active_table_operations_ o)
  (latest_timeout_sequences_ o) (sessions_heap o) (operations_heap o) (continuations o) (next_ref o).
Definition with_metrics v o := mkService (idempotency_ o) v (active_table_operations_ o)
  (latest_timeout_sequences_ o) (sessions_heap o) (operations_heap o) (continuations o) (next_ref o).
Definition with_active v ops n o := mkService (idempotency_ o) (metrics_ o) v
  (latest_timeout_sequences_ o) (sessions_heap o) ops (continuations o) n.
Definition with_timeouts v o := mkService (idempotency_ o) (metrics_ o) (active_table_operations_ o)
  v (sessions_heap o) (operations_heap o) (continuations o) (next_ref o).
Definition with_sessions_heap v o := mkService (idempotency_ o) (metrics_ o)
  (active_table_operations_ o) (latest_timeout_sequences_ o) v (operations_heap o)
  (continuations o) (next_ref o).
Definition with_continuations v n o := mkService (idempotency_ o) (metrics_ o)
  (active_table_operations_ o) (latest_timeout_sequences_ o) (sessions_heap o) (operations_heap o) v n.

Definition log_sent send e o := mkOutput (sent o ++ [(send, e)]) (pushed o) (timers o) (requests o).
Definition log_pushed u e o := mkOutput (sent o) (pushed o ++ [(u, e)]) (timers o) (requests o).
Definition log_timer delay t o := mkOutput (sent o) (pushed o) (timers o ++ [(delay, t)]) (requests o).

Section service.
  Context {W C R K : Type} `{!AccountStore W, !GameStore W, !CryptoProvider C, !NodeRegistry R}.
  Context `{!Clock K, !EnvelopeCodec}.
  Context (settings : Settings).
  Implicit Types (s : Server W C R K).

Notation Server := (Server W C R K).

Definition with_stores w c s : Server :=
  mkServer w c (registry s) (clock s) (rooms s) (storage s) (own s) (out s).
Definition with_registry r c s : Server :=
  mkServer (stores s) c r (clock s) (rooms s) (storage s) (own s) (out s).
Definition with_clock k s : Server :=
  mkServer (stores s) (crypto s) (registry s) k (rooms s) (storage s) (own s) (out s).
Definition with_rooms m s : Server :=
  mkServer (stores s) (crypto s) (registry s) (clock s) m (storage s) (own s) (out s).
Definition with_storage e s : Server :=
  mkServer (stores s) (crypto s) (registry s) (clock s) (rooms s) e (own s) (out s).
Definition with_own o s : Server :=
  mkServer (stores s) (crypto s) (registry s) (clock s) (rooms s) (storage s) o (out s).
Definition with_out o s : Server :=
  mkServer (stores s) (crypto s) (registry s) (clock s) (rooms s) (storage s) (own s) o.

(** [if (b) { m }] *)
Definition when (b : bool) (m : M Server unit) : M Server unit := if b then m else mret tt.

(** ** Calls of the collaborators *)

(** Run a method of the authentication service. *)
Definition on_auth {X} (m : M (W * C) X) : M Server X := λ s,
  let '(r, (w, c)) := m (stores s, crypto s) in (r, with_stores w c s).

Definition on_registry {X} (f : R → X * R) : M Server X := λ s,
  let '(x, r) := f (registry s) in (Ok x, with_registry r (crypto s) s).

Definition on_router {X} (f : R * C → X * (R * C)) : M Server X := λ s,
  let '(x, (r, c)) := f (registry s, crypto s) in (Ok x, with_registry r c s).

Definition on_games {X} (f : W → X * W) : M Server X := λ s,
  let '(x, w) := f (stores s) in (Ok x, with_stores w (crypto s) s).

(** A method that need not return. *)
Definition on_games_result {X} (f : M W X) : M Server X := λ s,
  let '(r, w) := f (stores s) in (r, with_stores w (crypto s) s).

Definition nowUnixMs : M Server Z := λ s,
  let '(now, k) := clock_now (clock s) in (Ok now, with_clock k s).

Definition on_own (f : ServiceState → ServiceState) : M Server unit := mmodify (λ s, with_own (f (own s)) s).

Definition on_metrics (f : MetricsRegistry → MetricsRegistry) : M Server unit :=
  on_own (λ o, with_metrics (f (metrics_ o)) o).

Definition on_cache {X} (f : IdempotencyCache → X * IdempotencyCache) : M Server X := λ s,
  let '(x, c) := f (idempotency_ (own s)) in (Ok x, with_own (with_idempotency c (own s)) s).

(** [storage_executor_.post] *)
Definition post_storage (task : StorageTask) : M Server bool := λ s,
  let '(b, e) := blocking_post (Some task) (storage s) in (Ok b, with_storage e s).

(** A call of a room with a callback; what it returns is ignored. *)
Definition room_call (table_id : Z) (op : RoomOp) (k : Continuation) : M Server unit := λ s,
  let n := next_ref (own s) in
  let m := (call table_id op (Some n) (rooms s)).2 in
  (Ok tt, with_rooms m (with_own (with_continuations (<[n := k]> (continuations (own s))) (S n) (own s)) s)).

(** A call without a callback. *)
Definition room_call_silent (table_id : Z) (op : RoomOp) : M Server unit :=
  mmodify (λ s, with_rooms (call table_id op None (rooms s)).2 s).

Definition on_rooms {X} (f : RoomManager → X * RoomManager) : M Server X := λ s,
  let '(x, m) := f (rooms s) in (Ok x, with_rooms m s).

Definition send_out (send : SendRef) (e : Envelope) : M Server unit :=
  mmodify (λ s, with_out (log_sent send e (out s)) s).

Definition push_out (user_id : Z) (e : Envelope) : M Server unit :=
  mmodify (λ s, with_out (log_pushed user_id e (out s)) s).

Definition schedule_out (delay : Z) (t : Timer) : M Server unit :=
  mmodify (λ s, with_out (log_timer delay t (out s)) s).

(** Sessions: reading and writing under their mutex. *)
Definition read_session (r : SessionRef) : M Server ConnectionSession := λ s,
  match sessions_heap (own s) !! r with
  | Some x => (Ok x, s)
  | None => (Undef, s)
  end.

Definition update_session (r : SessionRef) (f : ConnectionSession → ConnectionSession) : M Server unit :=
  on_own (λ o, with_sessions_heap (alter f r (sessions_heap o)) o).

(** ** Table operations *)

Definition beginTableOperation (table_id : Z) : M Server (option OperationRef) := λ s,
  let o := own s in
  if table_id =? 0 then (Ok None, s)
  else if bool_decide (table_id ∈ active_table_operations_ o) then (Ok None, s)
  else
    let n := next_ref o in
    (Ok (Some n),
     with_own (with_active ({[table_id]} ∪ active_table_operations_ o)
                 (<[n := mkOperation true table_id]> (operations_heap o)) (S n) o) s).

Definition finishTableOperation (table_id : Z) (o : ServiceState) : ServiceState :=
  with_active (active_table_operations_ o ∖ {[table_id]}) (operations_heap o) (next_ref o) o.

(** [TableOperation::finish] *)
Definition finish_operation (n : OperationRef) (o : ServiceState) : ServiceState :=
  match operations_heap o !! n with
  | Some (mkOperation true table_id) =>
      finishTableOperation table_id
        (with_active (active_table_operations_ o)
           (<[n := mkOperation false table_id]> (operations_heap o)) (next_ref o) o)
  | _ => o
  end.

Definition finish (n : OperationRef) : M Server unit := on_own (finish_operation n).

(** The destructor calls [finish]. *)
Definition drop_operation (n : OperationRef) : M Server unit := finish n.

(** ** Answering *)

Definition reply (user_id : Z) (request response : Envelope) (send : SendRef) : M Server unit :=
  let response := answering (request_id request) response in
  on_cache (cache_complete user_id (request_id request) (SerializeToString response)) ;;
  send_out send response.

Definition fail (request : Envelope) (code : ErrorCode) (text : string) (send : SendRef)
    (user_id : option Z) : M Server unit :=
  on_metrics rejectedRequest ;;
  when (bool_decide (code = SERVICE_UNAVAILABLE)) (on_metrics storageFailure) ;;
  let response := answering (request_id request)
    (message ERROR_RESPONSE (Error_response code text (request_id request))) in
  match user_id with
  | Some u => reply u request response send
  | None => send_out send response
  end.

Definition acknowledge (user_id : Z) (request : Envelope) (text : string) (send : SendRef)
    : M Server unit :=
  reply user_id request (message COMMAND_ACK (Command_ack true text)) send.

(** The message and code of a refusal by the cache. *)
Definition refusal_of (status : RequestStatus) : ErrorCode * string :=
  match status with
  | Req_in_flight => (CONFLICT, "request is already being processed")
  | Req_capacity_exceeded => (RATE_LIMITED, "too many requests are still awaiting cached responses")
  | _ => (OUT_OF_SEQUENCE, "client sequence is stale or contains a gap")
  end%string.

Definition beginRequest (user_id : Z) (request : Envelope) (send : SendRef) : M Server bool :=
  decision ← on_cache (cache_begin user_id (request_id request) (client_sequence request));
  if bool_decide (rd_status decision = Req_accepted) then mret true
  else
    let cached := if bool_decide (rd_status decision = Req_duplicate)
                  then response ← rd_cached decision; ParseFromArray response else None in
    match cached with
    | Some response => send_out send response ;; mret false
    | None =>
        let '(code, text) := refusal_of (rd_status decision) in
        fail request code text send None ;; mret false
    end.

(** What the callbacks of a room receive. *)
Definition error_of (r : Reply) : TableError :=
  match r with
  | ErrorReply e => e
  | SnapshotReply e _ => e
  | ActionReply res _ _ => res_error res
  end.

Definition view_of (r : Reply) : TableSnapshot :=
  match r with
  | ErrorReply _ => TableSnapshot_default
  | SnapshotReply _ v => v
  | ActionReply _ v _ => v
  end.

Definition audit_of (r : Reply) : TableSnapshot :=
  match r with ActionReply _ _ a => a | _ => TableSnapshot_default end.

Definition result_of (r : Reply) : ActionResult :=
  match r with
  | ActionReply res _ _ => res
  | _ => mkResult (error_of r) "" 0 [] Street_waiting
  end.

(** ** Snapshots to everyone *)

Definition broadcastSnapshot (table_id : Z) (source : TableSnapshot) : M Server unit :=
  mfor (snap_players source)
    (λ p, room_call table_id (OpSnapshot (Some (view_id p))) (OnBroadcast table_id (view_id p))).

Definition replyWithCurrentSnapshot (table_id user_id : Z) (request : Envelope) (send : SendRef)
    (arm_timeout : bool) : M Server unit :=
  room_call table_id (OpSnapshot (Some user_id)) (OnCurrent table_id user_id request send arm_timeout).

Definition pushTableEvent (table_id hand_id server_sequence : Z) (users : list Z)
    (event_type text : string) : M Server unit :=
  if push_set settings then
    mfor users (λ u, push_out u
      (mkEnvelope 1 0 0 TABLE_EVENT "" 0 0 0
         (Table_event table_id hand_id server_sequence event_type text)))
  else mret tt.

(** ** Refunds *)

Definition max_attempts : nat := 8.

(** Milliseconds before an attempt. *)
Definition retry_delay (attempt : nat) : Z :=
  let exponent := Nat.min (attempt - 1) 5 in Z.shiftl 1 (Z.of_nat exponent) * 1000.

Definition retryRefund (table_id hand_id server_sequence : Z) (users : list Z) (attempt : nat)
    : M Server unit :=
  if negb (schedule_set settings) || (max_attempts <? attempt)%nat
  then pushTableEvent table_id hand_id server_sequence users "table_refund_requires_reconciliation"
         "automatic stack refund retries were exhausted; operator reconciliation is required"
  else schedule_out (retry_delay attempt) (TimerRefund table_id hand_id server_sequence users attempt).

Definition abortTableAndNotify (table_id : Z) (audit : TableSnapshot) (reason : string)
    (attempt_refund : bool) : M Server unit :=
  let users := view_id <$> snap_players audit in
  on_rooms (closeTable table_id) ;;
  refunded ← (if attempt_refund then on_games (gs_abortTableAndRefund table_id)
              else mret Storage_unavailable : M Server StorageError);
  if bool_decide (refunded = Storage_ok)
  then pushTableEvent table_id (snap_hand_id audit) (snap_server_sequence audit) users
         "table_aborted_refunded" (reason +:+ "; all table stacks were refunded")
  else
    on_metrics storageFailure ;;
    pushTableEvent table_id (snap_hand_id audit) (snap_server_sequence audit) users
      "table_aborted_refund_pending" (reason +:+ "; stack refund is pending") ;;
    retryRefund table_id (snap_hand_id audit) (snap_server_sequence audit) users 1.

(** ** Timeouts *)

(** Whether the sequence number is not behind the latest one scheduled for the
    table, and the table of latest numbers with it. *)
Definition note_timeout (table_id expected : Z) (latest : gmap Z Z) : option (gmap Z Z) :=
  match latest !! table_id with
  | Some position => if expected <? position then None else Some (<[table_id := expected]> latest)
  | None => Some (<[table_id := expected]> latest)
  end.

Definition timeout_action (snapshot : TableSnapshot) (acting_player : Z) : ActionType :=
  match view_with_id acting_player snapshot with
  | Some actor =>
      if view_street_commitment actor =? snap_current_bet snapshot then Action_check else Action_fold
  | None => Action_fold
  end.

Definition scheduleTimeout (table_id : Z) (snapshot : TableSnapshot) : M Server unit :=
  if negb (schedule_set settings) then mret tt
  else
    let expected := snap_server_sequence snapshot in
    s ← mget;
    match note_timeout table_id expected (latest_timeout_sequences_ (own s)) with
    | None => mret tt
    | Some latest =>
        on_own (with_timeouts latest) ;;
        match snap_acting_player snapshot with
        | None => mret tt
        | Some acting_player =>
            schedule_out (sc_action_timeout_ms (config settings))
              (TimerTimeout table_id acting_player expected (timeout_action snapshot acting_player))
        end
    end.

(** ** Sessions *)

(** The session's fields after a login or an authentication. *)
Definition signed_in (user_id : Z) (name token : string) (expires : Z) (x : ConnectionSession) :=
  mkConnection (Some user_id) name token expires (cs_table_id x) false.

(** [user_id.reset()], [raw_token.clear()], ... *)
Definition signed_out (x : ConnectionSession) : ConnectionSession :=
  mkConnection None (cs_username x) "" 0 None (cs_authenticating x).

Definition with_authenticating b (x : ConnectionSession) : ConnectionSession :=
  mkConnection (cs_user_id x) (cs_username x) (cs_raw_token x) (cs_expires_at x) (cs_table_id x) b.

Definition with_table table (x : ConnectionSession) : ConnectionSession :=
  mkConnection (cs_user_id x) (cs_username x) (cs_raw_token x) (cs_expires_at x) table
    (cs_authenticating x).

(** The block that login, authentication and reconnection share, under the
    session's mutex: whether the connection is authenticated already, and
    whether another authentication is running. *)
Definition claim_session (session : SessionRef) : M Server (bool * bool) :=
  x ← read_session session;
  already ← (match cs_user_id x with
             | Some _ => now ← nowUnixMs; mret (now <? cs_expires_at x)
             | None => mret false
             end : M Server bool);
  when (negb already && bool_decide (is_Some (cs_user_id x))) (update_session session signed_out) ;;
  if (already : bool) then mret (true, false)
  else
    update_session session (with_authenticating true) ;;
    mret (false, cs_authenticating x).

Definition release_session (session : SessionRef) : M Server unit :=
  update_session session (with_authenticating false).

Definition auth_code (e : AuthError) : ErrorCode :=
  if bool_decide (e = Auth_storage_unavailable) then SERVICE_UNAVAILABLE else UNAUTHENTICATED.

Definition register_code (e : AuthError) : ErrorCode :=
  if bool_decide (e = Auth_username_taken) then CONFLICT
  else if bool_decide (e = Auth_storage_unavailable) then SERVICE_UNAVAILABLE
  else INVALID_MESSAGE.

(** A session's disconnection from its table. *)
Definition disconnect_from (table_id user_id : Z) (k : Continuation) : M Server unit :=
  room_call table_id (OpSetConnected user_id false) k.

Definition authorize (request : Envelope) (session : SessionRef) (send : SendRef)
    : M Server (option Z) :=
  x ← read_session session;
  expired ← (match cs_user_id x with
             | Some _ => now ← nowUnixMs; mret (cs_expires_at x <=? now)
             | None => mret false
             end : M Server bool);
  when expired (update_session session signed_out) ;;
  (match (expired : bool), cs_table_id x, cs_user_id x with
   | true, Some table_id, Some u => disconnect_from table_id u (OnConnected table_id)
   | _, _, _ => mret tt
   end : M Server unit) ;;
  match (if (expired : bool) then None else cs_user_id x) with
  | None =>
      fail request UNAUTHENTICATED
        (if (expired : bool) then "session expired; login again"
         else "login or reconnect is required before this command") send None ;;
      mret None
  | Some u =>
      accepted ← beginRequest u request send;
      mret (if (accepted : bool) then Some u else None)
  end.

(** ** Bodies of the storage tasks *)

Definition run_register (request : Envelope) (username password : string) (send : SendRef)
    : M Server unit :=
  registered ← on_auth (registerUser (auth settings) username password);
  match ar_get registered with
  | None => fail request (register_code (ar_error registered)) (ar_message registered) send None
  | Some u =>
      send_out send (answering (request_id request)
        (message REGISTER_RESPONSE (Register_response (user_id u))))
  end.

(** A failed authentication: the session is free again. *)
Definition auth_failed (request : Envelope) (session : SessionRef) (send : SendRef) (e : AuthError)
    (text : string) : M Server unit :=
  release_session session ;; fail request (auth_code e) text send None.

Definition run_login (request : Envelope) (username password : string) (session : SessionRef)
    (send : SendRef) : M Server unit :=
  now ← nowUnixMs;
  logged_in ← on_auth (login (auth settings) username password now);
  match ar_get logged_in with
  | None => auth_failed request session send (ar_error logged_in) (ar_message logged_in)
  | Some a =>
      update_session session
        (signed_in (as_user_id a) (as_username a) (as_raw_token a) (as_expires_at a)) ;;
      on_cache (λ c, (tt, cache_reset (as_user_id a) c)) ;;
      send_out send (answering (request_id request)
        (message LOGIN_RESPONSE (Login_response (as_user_id a) (as_raw_token a) (as_wallet_balance a)
                                   (as_expires_at a))))
  end.

(** The part [run_authenticate] and [run_reconnect] share: [Some] on success. *)
Definition sign_in_with (request : Envelope) (raw_token : string) (session : SessionRef)
    (send : SendRef) : M Server (option AuthenticatedSession) :=
  now ← nowUnixMs;
  authenticated ← on_auth (authenticate raw_token now);
  match ar_get authenticated with
  | None =>
      auth_failed request session send (ar_error authenticated) (ar_message authenticated) ;; mret None
  | Some a =>
      update_session session (signed_in (as_user_id a) (as_username a) raw_token (as_expires_at a)) ;;
      on_cache (λ c, (tt, cache_reset (as_user_id a) c)) ;;
      mret (Some a)
  end.

Definition run_authenticate (request : Envelope) (raw_token : string) (session : SessionRef)
    (send : SendRef) : M Server unit :=
  authenticated ← sign_in_with request raw_token session send;
  match authenticated with
  | None => mret tt
  | Some a =>
      send_out send (answering (request_id request)
        (message AUTHENTICATE_SESSION_RESPONSE
           (Authenticate_session_response (as_user_id a) (as_username a) (as_wallet_balance a)
              (as_expires_at a))))
  end.

Definition run_logout (token : string) (table_id : option Z) (user_id : Z) (request : Envelope)
    (session : SessionRef) (send : SendRef) : M Server unit :=
  error ← on_auth (logout token);
  if negb (bool_decide (error = Auth_ok))
  then fail request (auth_code error) (AuthError_toString error) send (Some user_id)
  else
    update_session session signed_out ;;
    on_cache (λ c, (tt, cache_reset user_id c)) ;;
    (match table_id with
     | Some id => disconnect_from id user_id (OnConnected id)
     | None => mret tt
     end : M Server unit) ;;
    acknowledge user_id request "logged out" send.

Definition run_refresh (token : string) (user_id : Z) (request : Envelope) (session : SessionRef)
    (send : SendRef) : M Server unit :=
  now ← nowUnixMs;
  refreshed ← on_auth (refresh (auth settings) token now);
  match ar_get refreshed with
  | None => fail request (auth_code (ar_error refreshed)) (ar_message refreshed) send (Some user_id)
  | Some a =>
      x ← read_session session;
      let identity_changed := negb (bool_decide (cs_user_id x = Some user_id))
                              || negb (bool_decide (cs_raw_token x = token)) in
      when (negb identity_changed)
        (update_session session (λ x, mkConnection (cs_user_id x) (cs_username x) (as_raw_token a)
                                        (as_expires_at a) (cs_table_id x) (cs_authenticating x))) ;;
      if identity_changed
      then fail request CONFLICT "connection identity changed while refreshing" send (Some user_id)
      else reply user_id request
             (message REFRESH_SESSION_RESPONSE
                (Refresh_session_response (as_raw_token a) (as_expires_at a))) send
  end.

Definition summary (id : Z) (name : string) (c : TableConfig) (node : string) : TableSummary :=
  mkSummary id name 0 (u32 (Z.of_nat (max_players c))) (small_blind c) (big_blind c) node.

(** [std::to_string] of an unsigned number. *)
Definition to_string (n : Z) : string := pretty (Z.to_N n).

Definition run_create_table (user_id : Z) (name : string) (c : TableConfig) (request : Envelope)
    (send : SendRef) : M Server unit :=
  allocated ← on_registry allocateTableId;
  match allocated with
  | None => fail request SERVICE_UNAVAILABLE "could not allocate a global table id" send (Some user_id)
  | Some id =>
      assignment ← on_router (assignNewTable (router settings) id user_id);
      match assignment with
      | None => fail request SERVICE_UNAVAILABLE "no healthy game node is available" send (Some user_id)
      | Some a =>
          let name := if bool_decide (name = ""%string) then "Table " +:+ to_string id else name in
          let node := ni_node_id (ra_node a) in
          stored ← on_games_result (gs_createTable (mkTableRecord id name node c user_id));
          if negb (bool_decide (stored = Storage_ok))
          then fail request (map_storage_error stored) "table metadata could not be stored" send
                 (Some user_id)
          else
            created ← (if bool_decide (node = sc_node_id (config settings))
                       then on_rooms (room_createTable id c) else mret Error_ok : M Server TableError);
            if negb (bool_decide (created = Error_ok))
            then fail request SERVICE_UNAVAILABLE "local room could not be created" send (Some user_id)
            else reply user_id request
                   (message CREATE_TABLE_RESPONSE
                      (Create_table_response (summary id name c node) (ni_endpoint (ra_node a))
                         (ra_join_ticket a))) send
      end
  end.

Definition run_list_tables (user_id : Z) (limit : nat) (request : Envelope) (send : SendRef)
    : M Server unit :=
  tables ← on_games (gs_listOpenTables limit);
  match sr_get tables with
  | None => fail request (map_storage_error (sr_error tables)) (sr_message tables) send (Some user_id)
  | Some l =>
      reply user_id request
        (message LIST_TABLES_RESPONSE (List_tables_response
           ((λ t, summary (table_id t) (table_name t) (table_config t) (node_id t)) <$> l))) send
  end.

Definition run_join_table (user_id id : Z) (request : Envelope) (send : SendRef) : M Server unit :=
  table ← on_games (gs_findTable id);
  match sr_get table with
  | None => fail request (map_storage_error (sr_error table)) (sr_message table) send (Some user_id)
  | Some t =>
      assignment ← on_router (routeExistingTable (router settings) id user_id (node_id t));
      match assignment with
      | None => fail request SERVICE_UNAVAILABLE "table owner is unavailable" send (Some user_id)
      | Some a =>
          if negb (bool_decide (ni_node_id (ra_node a) = node_id t))
          then fail request SERVICE_UNAVAILABLE "table owner is unavailable" send (Some user_id)
          else reply user_id request
                 (message JOIN_TABLE_RESPONSE
                    (Join_table_response (ni_endpoint (ra_node a)) (ra_join_ticket a))) send
      end
  end.

Definition key (prefix : string) (table_id request_id : Z) : string :=
  prefix +:+ to_string table_id +:+ ":" +:+ to_string request_id.

(** The checks of a request to sit down, up to the reservation: the failure to
    report, or the amount reserved. *)
Definition reserve_seat (user_id : Z) (b : SitDownRequest) (request : Envelope)
    : M Server (ErrorCode * string + Z) :=
  ticket ← on_registry (consumeJoinTicket (hashSessionToken (sd_join_ticket b)));
  if negb (bool_decide (ticket = Some (mkTicket user_id (sd_table_id b))))
  then mret (inl (FORBIDDEN, "join ticket is invalid or already used"%string))
  else
    table ← on_games (gs_findTable (sd_table_id b));
    match sr_get table with
    | None => mret (inl (map_storage_error (sr_error table), sr_message table))
    | Some t =>
        if negb (bool_decide (node_id t = sc_node_id (config settings)))
        then mret (inl (FORBIDDEN, "this game node does not own the table"%string))
        else
          present ← on_rooms (λ m, (hasTable (sd_table_id b) m, m));
          created ← (if (present : bool) then mret Error_ok
                     else on_rooms (room_createTable (sd_table_id b) (table_config t)) : M Server TableError);
          if negb (bool_decide (created = Error_ok))
          then mret (inl (SERVICE_UNAVAILABLE, "room could not be activated"%string))
          else
            reserved ← on_games (gs_reserveBuyIn (sd_table_id b) user_id (sd_seat b) (sd_buy_in b)
                                   (key "buy:" (sd_table_id b) (request_id request)));
            mret (match sr_get reserved with
                  | None => inl (map_storage_error (sr_error reserved), sr_message reserved)
                  | Some receipt => inr (bi_table_stack receipt)
                  end)
    end.

Definition run_sit_down (user_id : Z) (b : SitDownRequest) (request : Envelope)
    (session : SessionRef) (send : SendRef) (operation : OperationRef) : M Server unit :=
  outcome ← reserve_seat user_id b request;
  match outcome with
  | inl (code, text) => fail request code text send (Some user_id) ;; drop_operation operation
  | inr stack =>
      room_call (sd_table_id b) (OpSeatPlayer user_id (Z.to_nat (sd_seat b)) stack)
        (OnSeated user_id b request session send operation)
  end.

(** The audit snapshot made up for one affected player. *)
Definition affected (user_id : Z) : TableSnapshot :=
  mkSnapshot Street_waiting 0 0 None None 0 0 0 []
    [mkPlayerView user_id 0 0 0 0 Status_waiting false true []].

Definition run_rollback (id user_id : Z) (rollback_key : string) (operation : OperationRef)
    : M Server unit :=
  rolled_back ← on_games (gs_cashOut id user_id rollback_key);
  when (negb (sr_bool rolled_back))
    (abortTableAndNotify id (affected user_id) "reserved buy-in could not be rolled back" true) ;;
  drop_operation operation.

Definition run_begin_hand (user_id : Z) (b : ReadyRequest) (request : Envelope) (send : SendRef)
    (start : HandStartRecord) (operation : OperationRef) : M Server unit :=
  stored ← on_games (gs_beginHand start);
  if negb (bool_decide (stored = Storage_ok)) && negb (bool_decide (stored = Storage_duplicate))
  then
    room_call_silent (rr_table_id b) OpAbortHand ;;
    fail request (map_storage_error stored) "hand start could not be persisted" send (Some user_id) ;;
    drop_operation operation
  else
    finish operation ;;
    replyWithCurrentSnapshot (rr_table_id b) user_id request send true.

(** The two writes of an action, and the reason for an abort if one fails. *)
Definition persist (action : HandActionRecord) (settlement : option HandSettlementRecord)
    : M Server (option bool) :=
  action_stored ← on_games (gs_appendAction action);
  if negb (bool_decide (action_stored = Storage_ok)) && negb (bool_decide (action_stored = Storage_duplicate))
  then mret (Some false)
  else match settlement with
  | None => mret None
  | Some value =>
      settled ← on_games (gs_settleHand value);
      mret (if negb (bool_decide (settled = Storage_ok)) && negb (bool_decide (settled = Storage_duplicate))
            then Some true else None)
  end.

Definition run_persist (user_id : Z) (b : ActionRequest) (request : Envelope) (send : SendRef)
    (view audit : TableSnapshot) (action : HandActionRecord)
    (settlement : option HandSettlementRecord) (operation : OperationRef) : M Server unit :=
  failure ← persist action settlement;
  match failure with
  | Some in_settlement =>
      on_metrics storageFailure ;;
      abortTableAndNotify (ar_table_id b) audit
        (if (in_settlement : bool) then "settlement could not be committed"
         else "action history could not be persisted") true ;;
      fail request SERVICE_UNAVAILABLE
        (if (in_settlement : bool) then "settlement failed; the table was safely aborted"
         else "action persistence failed; the table was safely aborted") send (Some user_id) ;;
      drop_operation operation
  | None =>
      scheduleTimeout (ar_table_id b) view ;;
      finish operation ;;
      reply user_id request (snapshotEnvelope request view) send ;;
      broadcastSnapshot (ar_table_id b) view
  end.

Definition run_cash_out (id user_id : Z) (cash_key : string) (request : Envelope)
    (session : SessionRef) (send : SendRef) (operation : OperationRef) : M Server unit :=
  cashed_out ← on_games (gs_cashOut id user_id cash_key);
  if negb (sr_bool cashed_out)
  then
    fail request (map_storage_error (sr_error cashed_out)) (sr_message cashed_out) send (Some user_id) ;;
    drop_operation operation
  else room_call id (OpRemovePlayer user_id) (OnRemoved id user_id request session send operation).

Definition run_refund (id hand_id server_sequence : Z) (users : list Z) (attempt : nat) : M Server unit :=
  result ← on_games (gs_abortTableAndRefund id);
  if bool_decide (result = Storage_ok)
  then pushTableEvent id hand_id server_sequence users "table_refund_completed"
         "the deferred table-stack refund completed"
  else
    on_metrics storageFailure ;;
    retryRefund id hand_id server_sequence users (attempt + 1).

Definition run_timeout_persist (id : Z) (action : HandActionRecord)
    (settlement : option HandSettlementRecord) (after audit : TableSnapshot)
    (operation : OperationRef) : M Server unit :=
  failure ← persist action settlement;
  match failure with
  | Some in_settlement =>
      on_metrics storageFailure ;;
      abortTableAndNotify id audit
        (if (in_settlement : bool) then "timeout settlement could not be committed"
         else "timeout action history could not be persisted") true ;;
      drop_operation operation
  | None =>
      scheduleTimeout id after ;;
      finish operation ;;
      broadcastSnapshot id after
  end.

(** ** Bodies of the callbacks *)

Definition table_failed (user_id : Z) (request : Envelope) (error : TableError) (send : SendRef)
    : M Server unit :=
  fail request (map_table_error error) (TableError_toString error) send (Some user_id).

Definition on_connected (id : Z) (r : Reply) : M Server unit :=
  when (bool_decide (error_of r = Error_ok)) (broadcastSnapshot id (view_of r)).

Definition on_disconnected (id : Z) (r : Reply) : M Server unit :=
  when (bool_decide (error_of r = Error_ok))
    (broadcastSnapshot id (view_of r) ;; scheduleTimeout id (view_of r)).

Definition on_broadcast (id user_id : Z) (r : Reply) : M Server unit :=
  when (bool_decide (error_of r = Error_ok) && push_set settings)
    (push_out user_id (pushSnapshotEnvelope id (view_of r))).

Definition on_current (id user_id : Z) (request : Envelope) (send : SendRef) (arm_timeout : bool)
    (r : Reply) : M Server unit :=
  if negb (bool_decide (error_of r = Error_ok)) then table_failed user_id request (error_of r) send
  else
    reply user_id request (snapshotEnvelope request (view_of r)) send ;;
    broadcastSnapshot id (view_of r) ;;
    when arm_timeout (scheduleTimeout id (view_of r)).

Definition on_seated (user_id : Z) (b : SitDownRequest) (request : Envelope) (session : SessionRef)
    (send : SendRef) (operation : OperationRef) (r : Reply) : M Server unit :=
  if negb (bool_decide (error_of r = Error_ok)) then
    queued ← post_storage (TaskRollback (sd_table_id b) user_id
                             (key "rollback:" (sd_table_id b) (request_id request)) operation);
    if negb queued then
      abortTableAndNotify (sd_table_id b) (affected user_id) "buy-in rollback queue is full" false ;;
      fail request SERVICE_UNAVAILABLE "buy-in rollback was deferred and the table was closed" send
        (Some user_id) ;;
      drop_operation operation
    else table_failed user_id request (error_of r) send
  else
    update_session session (with_table (Some (sd_table_id b))) ;;
    room_call (sd_table_id b) (OpSnapshot (Some user_id)) (OnSeatSnapshot user_id b request send operation).

Definition on_seat_snapshot (user_id : Z) (b : SitDownRequest) (request : Envelope) (send : SendRef)
    (operation : OperationRef) (r : Reply) : M Server unit :=
  (if negb (bool_decide (error_of r = Error_ok)) then table_failed user_id request (error_of r) send
   else
     reply user_id request (snapshotEnvelope request (view_of r)) send ;;
     broadcastSnapshot (sd_table_id b) (view_of r)) ;;
  drop_operation operation.

Definition on_ready (user_id : Z) (b : ReadyRequest) (request : Envelope) (send : SendRef)
    (operation : OperationRef) (r : Reply) : M Server unit :=
  if negb (bool_decide (error_of r = Error_ok))
  then table_failed user_id request (error_of r) send ;; drop_operation operation
  else if negb (rr_ready b)
  then finish operation ;; replyWithCurrentSnapshot (rr_table_id b) user_id request send false
  else room_call (rr_table_id b) OpStartHand (OnStarted user_id b request send operation).

Definition on_started (user_id : Z) (b : ReadyRequest) (request : Envelope) (send : SendRef)
    (operation : OperationRef) (r : Reply) : M Server unit :=
  let error := error_of r in
  if negb (bool_decide (error = Error_ok)) && negb (bool_decide (error = Error_not_enough_players))
     && negb (bool_decide (error = Error_hand_in_progress))
  then table_failed user_id request error send ;; drop_operation operation
  else if negb (bool_decide (error = Error_ok))
  then finish operation ;; replyWithCurrentSnapshot (rr_table_id b) user_id request send true
  else room_call (rr_table_id b) OpAuditSnapshot (OnAudit user_id b request send operation).

Definition on_audit (user_id : Z) (b : ReadyRequest) (request : Envelope) (send : SendRef)
    (operation : OperationRef) (r : Reply) : M Server unit :=
  if negb (bool_decide (error_of r = Error_ok)) then
    room_call_silent (rr_table_id b) OpAbortHand ;;
    table_failed user_id request (error_of r) send ;;
    drop_operation operation
  else
    queued ← post_storage (TaskBeginHand user_id b request send (handStart (rr_table_id b) (view_of r))
                             operation);
    when (negb queued)
      (room_call_silent (rr_table_id b) OpAbortHand ;;
       fail request SERVICE_UNAVAILABLE "storage queue is full" send (Some user_id) ;;
       drop_operation operation).

Definition settlement_of (id : Z) (audit : TableSnapshot) (awards : list PotAward)
    : option HandSettlementRecord :=
  if bool_decide (snap_street audit = Street_settled) then Some (handSettlement id audit awards) else None.

Definition on_acted (user_id : Z) (b : ActionRequest) (request : Envelope) (send : SendRef)
    (operation : OperationRef) (r : Reply) : M Server unit :=
  let result := result_of r in
  let audit := audit_of r in
  if negb (bool_decide (res_error result = Error_ok)) then
    on_metrics actionRejected ;;
    fail request (map_table_error (res_error result)) (res_message result) send (Some user_id) ;;
    drop_operation operation
  else
    on_metrics actionAccepted ;;
    let action := mkActionRecord (persistentHandId (ar_table_id b) (snap_hand_id audit))
                    (res_server_sequence result) (request_id request) user_id
                    (res_action_street result) (map_action (ar_action b)) (ar_target b) in
    queued ← post_storage (TaskPersist user_id b request send (view_of r) audit action
                             (settlement_of (ar_table_id b) audit (res_awards result)) operation);
    when (negb queued)
      (abortTableAndNotify (ar_table_id b) audit "storage queue is full" false ;;
       fail request SERVICE_UNAVAILABLE "storage queue is full; the table was safely aborted" send
         (Some user_id) ;;
       drop_operation operation).

Definition on_snapshot (user_id : Z) (request : Envelope) (send : SendRef) (r : Reply) : M Server unit :=
  if negb (bool_decide (error_of r = Error_ok)) then table_failed user_id request (error_of r) send
  else reply user_id request (snapshotEnvelope request (view_of r)) send.

Definition on_reconnected (user_id id : Z) (request : Envelope) (send : SendRef) (r : Reply)
    : M Server unit :=
  if negb (bool_decide (error_of r = Error_ok)) then table_failed user_id request (error_of r) send
  else
    reply user_id request (snapshotEnvelope request (view_of r)) send ;;
    broadcastSnapshot id (view_of r) ;;
    scheduleTimeout id (view_of r).

Definition on_leave_ready (id user_id : Z) (request : Envelope) (session : SessionRef)
    (send : SendRef) (operation : OperationRef) (r : Reply) : M Server unit :=
  if negb (bool_decide (error_of r = Error_ok))
  then table_failed user_id request (error_of r) send ;; drop_operation operation
  else
    queued ← post_storage (TaskCashOut id user_id (key "cash:" id (request_id request)) request
                             session send operation);
    when (negb queued)
      (fail request SERVICE_UNAVAILABLE "storage queue is full" send (Some user_id) ;;
       drop_operation operation).

Definition on_removed (id user_id : Z) (request : Envelope) (session : SessionRef) (send : SendRef)
    (operation : OperationRef) (r : Reply) : M Server unit :=
  (if negb (bool_decide (error_of r = Error_ok)) then table_failed user_id request (error_of r) send
   else
     update_session session (with_table None) ;;
     acknowledge user_id request "left table" send ;;
     room_call id (OpSnapshot None) (OnConnected id)) ;;
  drop_operation operation.

Definition on_timeout_audit (id acting_player expected : Z) (action : ActionType) (r : Reply)
    : M Server unit :=
  let current := view_of r in
  if negb (bool_decide (error_of r = Error_ok)) || negb (snap_server_sequence current =? expected)
     || negb (bool_decide (snap_acting_player current = Some acting_player))
  then mret tt
  else
    operation ← beginTableOperation id;
    match operation with
    | None => mret tt
    | Some operation =>
        room_call id (OpActionTimeout acting_player expected)
          (OnTimeoutActed id acting_player expected action operation)
    end.

Definition on_timeout_acted (id acting_player expected : Z) (timeout_action : ActionType)
    (operation : OperationRef) (r : Reply) : M Server unit :=
  let result := result_of r in
  let audit := audit_of r in
  if negb (bool_decide (res_error result = Error_ok)) then drop_operation operation
  else
    let action := mkActionRecord (persistentHandId id (snap_hand_id audit))
                    (res_server_sequence result) (Z.lor (2 ^ 63) expected) acting_player
                    (res_action_street result) timeout_action 0 in
    queued ← post_storage (TaskTimeoutPersist id action (settlement_of id audit (res_awards result))
                             (view_of r) audit operation);
    when (negb queued)
      (abortTableAndNotify id audit "storage queue is full after timeout action" false ;;
       finish operation).

Definition run_continuation (k : Continuation) (r : Reply) : M Server unit :=
  match k with
  | OnConnected id => on_connected id r
  | OnDisconnected id => on_disconnected id r
  | OnBroadcast id u => on_broadcast id u r
  | OnCurrent id u request send arm => on_current id u request send arm r
  | OnSeated u b request session send operation => on_seated u b request session send operation r
  | OnSeatSnapshot u b request send operation => on_seat_snapshot u b request send operation r
  | OnReady u b request send operation => on_ready u b request send operation r
  | OnStarted u b request send operation => on_started u b request send operation r
  | OnAudit u b request send operation => on_audit u b request send operation r
  | OnActed u b request send operation => on_acted u b request send operation r
  | OnSnapshot u request send => on_snapshot u request send r
  | OnReconnected u id request send => on_reconnected u id request send r
  | OnLeaveReady id u request session send operation => on_leave_ready id u request session send operation r
  | OnRemoved id u request session send operation => on_removed id u request session send operation r
  | OnTimeoutAudit id p expected action => on_timeout_audit id p expected action r
  | OnTimeoutActed id p expected action operation => on_timeout_acted id p expected action operation r
  end.

(** ** Bodies of the timers *)

Definition fire (t : Timer) : M Server unit :=
  match t with
  | TimerRefund id hand_id sequence users attempt =>
      queued ← post_storage (TaskRefund id hand_id sequence users attempt);
      when (negb queued) (retryRefund id hand_id sequence users (attempt + 1))
  | TimerTimeout id acting_player expected action =>
      s ← mget;
      when (bool_decide (latest_timeout_sequences_ (own s) !! id = Some expected))
        (room_call id OpAuditSnapshot (OnTimeoutAudit id acting_player expected action))
  end.

(** ** Requests *)

(** Post a task; a full queue is reported. *)
Definition post_or_fail (task : StorageTask) (request : Envelope) (send : SendRef)
    (user_id : option Z) : M Server unit :=
  queued ← post_storage task;
  when (negb queued) (fail request SERVICE_UNAVAILABLE "storage queue is full" send user_id).

(** The same for an authentication, which also frees the session. *)
Definition post_authentication (task : StorageTask) (request : Envelope) (session : SessionRef)
    (send : SendRef) : M Server unit :=
  queued ← post_storage task;
  when (negb queued)
    (release_session session ;; fail request SERVICE_UNAVAILABLE "storage queue is full" send None).

Definition handle_register (request : Envelope) (send : SendRef) : M Server unit :=
  match body request with
  | Register_request name password =>
      post_or_fail (TaskRegister request name password send) request send None
  | _ => fail request INVALID_MESSAGE "register body is missing" send None
  end.

(** Claim the session, then post the authentication. *)
Definition begin_authentication (task : StorageTask) (request : Envelope) (session : SessionRef)
    (send : SendRef) : M Server unit :=
  claimed ← claim_session session;
  match claimed with
  | (true, _) => fail request CONFLICT "this connection is already authenticated" send None
  | (false, true) => fail request CONFLICT "another authentication request is already running" send None
  | (false, false) => post_authentication task request session send
  end.

Definition handle_login (request : Envelope) (session : SessionRef) (send : SendRef) : M Server unit :=
  match body request with
  | Login_request name password =>
      begin_authentication (TaskLogin request name password session send) request session send
  | _ => fail request INVALID_MESSAGE "login body is missing" send None
  end.

Definition handle_authenticate (request : Envelope) (session : SessionRef) (send : SendRef) : M Server unit :=
  match body request with
  | Authenticate_session_request token =>
      begin_authentication (TaskAuthenticate request token session send) request session send
  | _ => fail request INVALID_MESSAGE "authenticate-session body is missing" send None
  end.

Definition handle_heartbeat (request : Envelope) (send : SendRef) : M Server unit :=
  now ← nowUnixMs;
  let client_time := match body request with Heartbeat_body t _ => t | _ => 0 end in
  send_out send (answering (request_id request) (message HEARTBEAT (Heartbeat_body client_time now))).

(** ** Commands of an authenticated user *)

Definition handle_logout (user_id : Z) (request : Envelope) (session : SessionRef) (send : SendRef)
    : M Server unit :=
  x ← read_session session;
  let token := if bool_decide (cs_raw_token x = ""%string) then session_token request
               else cs_raw_token x in
  post_or_fail (TaskLogout token (cs_table_id x) user_id request session send) request send (Some user_id).

Definition handle_refresh (user_id : Z) (request : Envelope) (session : SessionRef) (send : SendRef)
    : M Server unit :=
  match body request with
  | Refresh_session_request token =>
      if bool_decide (token = ""%string)
      then fail request INVALID_MESSAGE "refresh-session token is missing" send (Some user_id)
      else
        x ← read_session session;
        if negb (bool_decide (cs_raw_token x = token))
        then fail request FORBIDDEN "refresh token does not belong to this connection" send (Some user_id)
        else post_or_fail (TaskRefresh token user_id request session send) request send (Some user_id)
  | _ => fail request INVALID_MESSAGE "refresh-session token is missing" send (Some user_id)
  end.

Definition requested_config (b : CreateTableRequest) : TableConfig :=
  mkConfig (min_players TableConfig_default) (Z.to_nat (ct_max_players b)) (ct_small_blind b)
    (ct_big_blind b) (ct_min_buy_in b) (ct_max_buy_in b).

Definition handle_create_table (user_id : Z) (request : Envelope) (send : SendRef) : M Server unit :=
  match body request with
  | Create_table_request b =>
      let c := requested_config b in
      valid ← mlift (validConfig c);
      if negb valid || (64 <? String.length (ct_name b))%nat
      then fail request INVALID_MESSAGE "invalid table configuration" send (Some user_id)
      else post_or_fail (TaskCreateTable user_id (ct_name b) c request send) request send (Some user_id)
  | _ => fail request INVALID_MESSAGE "create-table body is missing" send (Some user_id)
  end.

Definition list_limit (requested : Z) : nat := if requested =? 0 then 50%nat else Z.to_nat (Z.min requested 100).

Definition handle_list_tables (user_id : Z) (request : Envelope) (send : SendRef) : M Server unit :=
  match body request with
  | List_tables_request page_size "" =>
      post_or_fail (TaskListTables user_id (list_limit page_size) request send) request send (Some user_id)
  | _ => fail request INVALID_MESSAGE "list-tables body is missing or page token is unsupported" send
           (Some user_id)
  end.

Definition handle_join_table (user_id : Z) (request : Envelope) (send : SendRef) : M Server unit :=
  match body request with
  | Join_table_request id =>
      post_or_fail (TaskJoinTable user_id id request send) request send (Some user_id)
  | _ => fail request INVALID_MESSAGE "join-table body is missing" send (Some user_id)
  end.

(** The fence of the commands that write to the store: one per table. *)
Definition with_operation (table_id user_id : Z) (request : Envelope) (send : SendRef)
    (k : OperationRef → M Server unit) : M Server unit :=
  operation ← beginTableOperation table_id;
  match operation with
  | None => fail request CONFLICT "another table command is awaiting persistence" send (Some user_id)
  | Some operation => k operation
  end.

Definition handle_sit_down (user_id : Z) (request : Envelope) (session : SessionRef) (send : SendRef)
    : M Server unit :=
  match body request with
  | Sit_down_request b =>
      with_operation (sd_table_id b) user_id request send (λ operation,
        queued ← post_storage (TaskSitDown user_id b request session send operation);
        when (negb queued)
          (fail request SERVICE_UNAVAILABLE "storage queue is full" send (Some user_id) ;;
           drop_operation operation))
  | _ => fail request INVALID_MESSAGE "sit-down body is missing" send (Some user_id)
  end.

Definition handle_ready (user_id : Z) (request : Envelope) (send : SendRef) : M Server unit :=
  match body request with
  | Ready_request b =>
      with_operation (rr_table_id b) user_id request send (λ operation,
        room_call (rr_table_id b) (OpSetReady user_id (rr_ready b))
          (OnReady user_id b request send operation))
  | _ => fail request INVALID_MESSAGE "ready body is missing" send (Some user_id)
  end.

Definition handle_action (user_id : Z) (request : Envelope) (send : SendRef) : M Server unit :=
  match body request with
  | Action_request b =>
      if bool_decide (ar_action b = ACTION_TYPE_UNSPECIFIED)
      then fail request INVALID_MESSAGE "action body is missing or invalid" send (Some user_id)
      else
        with_operation (ar_table_id b) user_id request send (λ operation,
          room_call (ar_table_id b)
            (OpAct (ar_hand_id b) (mkCommand user_id (map_action (ar_action b)) (ar_target b)))
            (OnActed user_id b request send operation))
  | _ => fail request INVALID_MESSAGE "action body is missing or invalid" send (Some user_id)
  end.

Definition handle_snapshot (user_id : Z) (request : Envelope) (send : SendRef) : M Server unit :=
  match body request with
  | Snapshot_request id _ =>
      room_call id (OpSnapshot (Some user_id)) (OnSnapshot user_id request send)
  | _ => fail request INVALID_MESSAGE "snapshot body is missing" send (Some user_id)
  end.

Definition handle_reconnect (user_id : Z) (request : Envelope) (session : SessionRef) (send : SendRef)
    : M Server unit :=
  match body request with
  | Reconnect_request id _ _ =>
      update_session session (with_table (Some id)) ;;
      room_call id (OpSetConnected user_id true) (OnReconnected user_id id request send)
  | _ => fail request INVALID_MESSAGE "reconnect body is missing" send (Some user_id)
  end.

Definition handle_leave (user_id : Z) (request : Envelope) (session : SessionRef) (send : SendRef)
    : M Server unit :=
  match body request with
  | Leave_table_request id =>
      with_operation id user_id request send (λ operation,
        room_call id (OpSetReady user_id false) (OnLeaveReady id user_id request session send operation))
  | _ => fail request INVALID_MESSAGE "leave-table body is missing" send (Some user_id)
  end.

Definition lobby_command (type : MessageType) : bool :=
  match type with CREATE_TABLE_REQUEST | LIST_TABLES_REQUEST | JOIN_TABLE_REQUEST => true | _ => false end.

Definition game_command (type : MessageType) : bool :=
  match type with
  | SIT_DOWN_REQUEST | READY_REQUEST | ACTION_REQUEST | SNAPSHOT_REQUEST | RECONNECT_REQUEST
  | LEAVE_TABLE_REQUEST => true
  | _ => false
  end.

(** A command this kind of node does not serve. *)
Definition misdirected (type : MessageType) : bool :=
  bool_decide (sc_role (config settings) = Role_game) && lobby_command type
  || bool_decide (sc_role (config settings) = Role_lobby) && game_command type.

(** The [switch] of [handle]. *)
Definition dispatch (user_id : Z) (request : Envelope) (session : SessionRef) (send : SendRef)
    : M Server unit :=
  match message_type request with
  | LOGOUT_REQUEST => handle_logout user_id request session send
  | REFRESH_SESSION_REQUEST => handle_refresh user_id request session send
  | CREATE_TABLE_REQUEST => handle_create_table user_id request send
  | LIST_TABLES_REQUEST => handle_list_tables user_id request send
  | JOIN_TABLE_REQUEST => handle_join_table user_id request send
  | SIT_DOWN_REQUEST => handle_sit_down user_id request session send
  | READY_REQUEST => handle_ready user_id request send
  | ACTION_REQUEST => handle_action user_id request send
  | SNAPSHOT_REQUEST => handle_snapshot user_id request send
  | RECONNECT_REQUEST => handle_reconnect user_id request session send
  | LEAVE_TABLE_REQUEST => handle_leave user_id request session send
  | _ => fail request INVALID_MESSAGE "unsupported message type" send (Some user_id)
  end.

(** From [authorize] on. *)
Definition handle_command (request : Envelope) (session : SessionRef) (send : SendRef) : M Server unit :=
  authorized ← authorize request session send;
  match authorized with
  | None => mret tt
  | Some u =>
      if misdirected (message_type request)
      then fail request FORBIDDEN
             (if lobby_command (message_type request) then "this command must be sent to a lobby node"
              else "this command must be sent to the assigned game node") send (Some u)
      else dispatch u request session send
  end.

(** A reconnection first authenticates a connection that is not. *)
Definition handle_reconnection (request : Envelope) (session : SessionRef) (send : SendRef)
    : M Server unit :=
  match body request with
  | Reconnect_request _ token _ =>
      claimed ← claim_session session;
      match claimed with
      | (true, _) => handle_command request session send
      | (false, true) =>
          fail request CONFLICT "another authentication request is already running" send None
      | (false, false) =>
          let raw_token := if bool_decide (token = ""%string) then session_token request else token in
          post_authentication (TaskReconnect request raw_token session send) request session send
      end
  | _ => fail request INVALID_MESSAGE "reconnect body is missing" send None
  end.

Definition handle (request : Envelope) (session : SessionRef) (send : SendRef) : M Server unit :=
  if negb (protocol_version request =? 1) || (request_id request =? 0) || (i64_max <? request_id request)
  then fail request INVALID_MESSAGE "protocol version and request id are required" send None
  else match message_type request with
  | REGISTER_REQUEST => handle_register request send
  | LOGIN_REQUEST => handle_login request session send
  | AUTHENTICATE_SESSION_REQUEST => handle_authenticate request session send
  | HEARTBEAT => handle_heartbeat request send
  | RECONNECT_REQUEST => handle_reconnection request session send
  | _ => handle_command request session send
  end.

(** The task of a reconnection calls [handle] again once authenticated. *)
Definition run_reconnect (request : Envelope) (raw_token : string) (session : SessionRef)
    (send : SendRef) : M Server unit :=
  authenticated ← sign_in_with request raw_token session send;
  match authenticated with
  | None => mret tt
  | Some _ => handle request session send
  end.

Definition run_storage_task (task : StorageTask) : M Server unit :=
  match task with
  | TaskRegister request name password send => run_register request name password send
  | TaskLogin request name password session send => run_login request name password session send
  | TaskAuthenticate request token session send => run_authenticate request token session send
  | TaskReconnect request token session send => run_reconnect request token session send
  | TaskLogout token id u request session send => run_logout token id u request session send
  | TaskRefresh token u request session send => run_refresh token u request session send
  | TaskCreateTable u name c request send => run_create_table u name c request send
  | TaskListTables u limit request send => run_list_tables u limit request send
  | TaskJoinTable u id request send => run_join_table u id request send
  | TaskSitDown u b request session send operation => run_sit_down u b request session send operation
  | TaskRollback id u rollback_key operation => run_rollback id u rollback_key operation
  | TaskBeginHand u b request send start operation => run_begin_hand u b request send start operation
  | TaskPersist u b request send view audit action settlement operation =>
      run_persist u b request send view audit action settlement operation
  | TaskCashOut id u cash_key request session send operation =>
      run_cash_out id u cash_key request session send operation
  | TaskRefund id hand_id sequence users attempt => run_refund id hand_id sequence users attempt
  | TaskTimeoutPersist id action settlement after audit operation =>
      run_timeout_persist id action settlement after audit operation
  end.

Definition onDisconnect (session : SessionRef) : M Server unit :=
  x ← read_session session;
  match cs_user_id x, cs_table_id x with
  | Some u, Some id => disconnect_from id u (OnDisconnected id)
  | _, _ => mret tt
  end.

(** ** Runs *)

Definition receive s : Server :=
  with_out (mkOutput (sent (out s)) (pushed (out s)) (timers (out s)) (S (requests (out s)))) s.

(** The callback leaves the table of those waiting when it is called. *)
Definition take_continuation (n : nat) s : Server :=
  with_own (with_continuations (delete n (continuations (own s))) (next_ref (own s)) (own s)) s.

Definition take_timer (i : nat) s : Server :=
  with_out (mkOutput (sent (out s)) (pushed (out s)) (delete i (timers (out s))) (requests (out s))) s.

(** A new connection, with its own session. *)
Definition connect s : Server :=
  let o := own s in
  with_own (mkService (idempotency_ o) (metrics_ o) (active_table_operations_ o)
    (latest_timeout_sequences_ o) (<[next_ref o := ConnectionSession_new]> (sessions_heap o))
    (operations_heap o) (continuations o) (S (next_ref o))) s.

(** One body runs at a time: a request, the end of a connection, a storage task,
    a room's task, a room's callback, or a timer. Other nodes use the registry
    and the stores in between, with accounts like those of this node, and the executors
    may be stopped. A callback may
    run any time after its room's task, in any order, which includes what the
    source does, calling it at the end of the task. [inner_step] is what happens
    without the network server. *)
Inductive inner_step : Server → Server → Prop :=
  | step_storage w task rest e s s' e' :
      be_tasks (storage s) = task :: rest → worker_step w (storage s) = Some e →
      run_storage_task task (with_storage e s) = (Ok tt, s') →
      finish_task w (storage s') = Some e' → inner_step s (with_storage e' s')
  | step_return w e s :
      be_tasks (storage s) = [] → worker_step w (storage s) = Some e → inner_step s (with_storage e s)
  | step_room i deck m s :
      good_deck deck → next_ deck = 0%nat → run_one i deck (rooms s) = Some m →
      inner_step s (with_rooms m s)
  | step_callback n r k s s' :
      (n, r) ∈ replies (rooms s) → continuations (own s) !! n = Some k →
      run_continuation k r (take_continuation n s) = (Ok tt, s') → inner_step s s'
  | step_timer i delay t s s' :
      timers (out s) !! i = Some (delay, t) → fire t (take_timer i s) = (Ok tt, s') → inner_step s s'
  | step_other_registry r s : inner_step s (with_registry r (crypto s) s)
  | step_other_stores f s :
      store_op (initial_chips (auth settings)) f → inner_step s (with_stores (f (stores s)) (crypto s) s)
  | step_stop_storage s : inner_step s (with_storage (blocking_stop (storage s)) s)
  | step_stop_rooms i s :
      inner_step s (with_rooms (with_executor (stop_shard i (executor_ (rooms s))) (rooms s)) s).

Inductive service_step : Server → Server → Prop :=
  | step_connect s : service_step s (connect s)
  | step_request request session s s' :
      is_Some (sessions_heap (own s) !! session) →
      handle request session (requests (out s)) (receive s) = (Ok tt, s') → service_step s s'
  | step_disconnect session s s' :
      is_Some (sessions_heap (own s) !! session) →
      onDisconnect session s = (Ok tt, s') → service_step s s'
  | step_inner s s' : inner_step s s' → service_step s s'.

Inductive service_run s0 : Server → Prop :=
  | run_start : service_run s0 s0
  | run_next s s' : service_run s0 s → service_step s s' → service_run s0 s'.

(** A service just constructed. *)
Definition fresh_own (cache : IdempotencyCache) : ServiceState :=
  mkService cache Metrics_new ∅ ∅ ∅ ∅ ∅ 0.

Definition fresh_out : Output := mkOutput [] [] [] 0.
End service.
