(* ===== verification/ProtocolInv.v ===== *)
(** * The service's invariant

    What the service owes is counted: the requests received are those still held
    by a running body, waiting in a closure, or answered; the live table
    operations are those held by a running body or a waiting closure, and they
    are exactly the fenced tables. A body is described by a triple that says
    which of these it holds before and after; the rules below are those of a
    small program logic, and one tactic applies them. *)
From S2P Require Import Prelude Card Deck HandEvaluator Metrics ServerConfig Table TableLib TableInv TableBetting TablePots TableAdvance TableAct TableDeal TableStart TableChips TableLife TableTheorems AccountStore Auth GameStore GameStoreSpec IdempotencyCache RoomExecutor RoomManager RoomTheorems BlockingExecutor Cluster Protocol ProtocolService.

(** ** What closures hold *)

Definition task_sends (t : StorageTask) : list nat :=
  match t with
  | TaskRegister _ _ _ send | TaskLogin _ _ _ _ send | TaskAuthenticate _ _ _ send
  | TaskReconnect _ _ _ send | TaskLogout _ _ _ _ _ send | TaskRefresh _ _ _ _ send
  | TaskCreateTable _ _ _ _ send | TaskListTables _ _ _ send | TaskJoinTable _ _ _ send
  | TaskSitDown _ _ _ _ send _ | TaskBeginHand _ _ _ send _ _ | TaskPersist _ _ _ send _ _ _ _ _
  | TaskCashOut _ _ _ _ _ send _ => [send]
  | TaskRollback _ _ _ _ | TaskRefund _ _ _ _ _ | TaskTimeoutPersist _ _ _ _ _ _ => []
  end.

Definition task_ops (t : StorageTask) : list nat :=
  match t with
  | TaskSitDown _ _ _ _ _ op | TaskRollback _ _ _ op | TaskBeginHand _ _ _ _ _ op
  | TaskPersist _ _ _ _ _ _ _ _ op | TaskCashOut _ _ _ _ _ _ op | TaskTimeoutPersist _ _ _ _ _ op => [op]
  | _ => []
  end.

Definition task_sessions (t : StorageTask) : list nat :=
  match t with
  | TaskLogin _ _ _ r _ | TaskAuthenticate _ _ r _ | TaskReconnect _ _ r _ | TaskLogout _ _ _ _ r _
  | TaskRefresh _ _ _ r _ | TaskSitDown _ _ _ r _ _ | TaskCashOut _ _ _ _ r _ _ => [r]
  | _ => []
  end.

Definition cont_sends (k : Continuation) : list nat :=
  match k with
  | OnCurrent _ _ _ send _ | OnSeated _ _ _ _ send _ | OnSeatSnapshot _ _ _ send _
  | OnReady _ _ _ send _ | OnStarted _ _ _ send _ | OnAudit _ _ _ send _ | OnActed _ _ _ send _
  | OnSnapshot _ _ send | OnReconnected _ _ _ send | OnLeaveReady _ _ _ _ send _
  | OnRemoved _ _ _ _ send _ => [send]
  | OnConnected _ | OnDisconnected _ | OnBroadcast _ _ | OnTimeoutAudit _ _ _ _
  | OnTimeoutActed _ _ _ _ _ => []
  end.

Definition cont_ops (k : Continuation) : list nat :=
  match k with
  | OnSeated _ _ _ _ _ op | OnSeatSnapshot _ _ _ _ op | OnReady _ _ _ _ op | OnStarted _ _ _ _ op
  | OnAudit _ _ _ _ op | OnActed _ _ _ _ op | OnLeaveReady _ _ _ _ _ op | OnRemoved _ _ _ _ _ op
  | OnTimeoutActed _ _ _ _ op => [op]
  | _ => []
  end.

Definition cont_sessions (k : Continuation) : list nat :=
  match k with
  | OnSeated _ _ _ r _ _ | OnLeaveReady _ _ _ r _ _ | OnRemoved _ _ _ r _ _ => [r]
  | _ => []
  end.

(** The room operations the service uses: hands are aborted only without a
    callback, decks are random. *)
Definition service_op (op : RoomOp) (callback : option nat) : Prop :=
  match op with
  | OpStartHandWithDeck _ => False
  | OpAbortHand => callback = None
  | _ => True
  end.

(** A timer: a refund attempt within its bound, with the delay of its number. *)
Definition timer_ok (settings : Settings) (d : Z * Timer) : Prop :=
  match d.2 with
  | TimerRefund _ _ _ _ attempt => (1 ≤ attempt ≤ max_attempts)%nat ∧ d.1 = retry_delay attempt
  | TimerTimeout _ _ _ _ => d.1 = sc_action_timeout_ms (config settings)
  end.

(** A task: a refund attempt within its bound, a table whose blinds were checked, a
    reconnection that will be handled as one. *)
Definition task_ok (t : StorageTask) : Prop :=
  match t with
  | TaskRefund _ _ _ _ attempt => (1 ≤ attempt ≤ max_attempts)%nat
  | TaskCreateTable _ _ c _ _ => blinds_fit c
  | TaskReconnect request _ _ _ => message_type request = RECONNECT_REQUEST
  | _ => True
  end.

(** ** Calls of rooms *)

Lemma rooms_inv_call N m sub id op cb :
  rooms_inv N (configured blinds_fit) (mkSystem m [] sub) → rooms_inv N (configured blinds_fit) (mkSystem (call id op cb m).2 [] (sub ++ tags cb)).
Proof.
  intros Hinv. rw /call. destruct (findRoom id m) as [r|] eqn:Hr.
  - pose proof (rooms_inv_find N _ id op cb r m [] sub Hinv Hr) as Hfind.
    exact (rooms_inv_post N _ id (mkTask r op cb) m [] [] _ Hfind).
  - by apply rooms_inv_missing.
Qed.

Lemma call_queued id op cb m t :
  t ∈ queued (executor_ (call id op cb m).2) →
  t ∈ queued (executor_ m) ∨ tk_op t = op ∧ tk_callback t = cb.
Proof.
  assert (∀ reply m, executor_ (answer cb reply m) = executor_ m) as Hans.
  { intros reply m0. by destruct (answer_fields cb reply m0) as (_ & _ & _ & -> & _). }
  rw /call. destruct (findRoom id m) as [r|]; [|cbn; rw Hans; by left].
  rw /post_task. destruct (post id (Some (mkTask r op cb)) (executor_ m)) as [[] e] eqn:Hp;
    cbn [snd executor_ with_executor tk_callback]; [|rw Hans; by left].
  apply post_true in Hp as (t' & sh & [= <-] & Hsh & _ & _ & ->).
  destruct (queued_set_shard _ sh (mkShard (sh_tasks sh ++ [mkTask r op cb]) false) _ Hsh)
    as (l1 & l2 & Hq & ->). rw Hq. cbn [sh_tasks]. rw !elem_of_app list_elem_of_singleton.
  intros [?|[[?| ->]|?]]; [tauto|tauto|by right|tauto].
Qed.

Lemma close_executor id m : executor_ (closeTable id m).2 = executor_ m.
Proof. rw /closeTable. by destruct (rooms_ m !! id). Qed.

Lemma create_executor id c m : executor_ (room_createTable id c m).2 = executor_ m.
Proof. rw /room_createTable. destruct (id =? 0); [done|]. by destruct (bool_decide _). Qed.

Lemma map_to_list_insert_values `{Countable K} {A} (m : gmap K A) i x :
  m !! i = None → (map_to_list (<[i:=x]> m)).*2 ≡ₚ x :: (map_to_list m).*2.
Proof. intros Hi. by rw (map_to_list_insert m i x Hi). Qed.

Section invariant.
  Context {W C R K : Type} `{!AccountStore W, !GameStore W, !CryptoProvider C, !NodeRegistry R}.
  Context `{!Clock K, !EnvelopeCodec}.
  Context (settings : Settings) `{!StoreLaws W (initial_chips (auth settings))} (N : nat) (w0 : W).
  Implicit Types (s : Server W C R K) (D : gset nat).

Notation Server := (Server W C R K).

Definition waiting_conts s : list Continuation := (map_to_list (continuations (own s))).*2.

Definition waiting_sends s : list nat :=
  (be_tasks (storage s) ≫= task_sends) ++ (waiting_conts s ≫= cont_sends).
Definition waiting_ops s : list nat :=
  (be_tasks (storage s) ≫= task_ops) ++ (waiting_conts s ≫= cont_ops).

Record service_inv D s (L O : list nat) : Prop := {
  si_sends : seq 0 (requests (out s)) ≡ₚ L ++ waiting_sends s ++ (sent (out s)).*1;
  si_ops : NoDup (O ++ waiting_ops s);
  si_live : ∀ n, n ∈ O ++ waiting_ops s ↔ ∃ t, operations_heap (own s) !! n = Some (mkOperation true t);
  si_active : ∀ t, t ∈ active_table_operations_ (own s) ↔
    ∃ n, operations_heap (own s) !! n = Some (mkOperation true t);
  si_unique : ∀ n n' t, operations_heap (own s) !! n = Some (mkOperation true t) →
    operations_heap (own s) !! n' = Some (mkOperation true t) → n = n';
  si_refs : ∀ n, is_Some (operations_heap (own s) !! n) ∨ is_Some (continuations (own s) !! n) ∨ n ∈ D →
    (n < next_ref (own s))%nat;
  si_dom : dom (sessions_heap (own s)) = D;
  si_tasks : ∀ t, t ∈ be_tasks (storage s) → task_ok t ∧ ∀ r, r ∈ task_sessions t → r ∈ D;
  si_conts : ∀ n k, continuations (own s) !! n = Some k → ∀ r, r ∈ cont_sessions k → r ∈ D;
  si_rooms : ∃ sub, rooms_inv N (configured blinds_fit) (mkSystem (rooms s) [] sub) ∧
    ∀ n, is_Some (continuations (own s) !! n) → n ∈ sub;
  si_queue : ∀ t, t ∈ queued (executor_ (rooms s)) → service_op (tk_op t) (tk_callback t);
  si_stores : st_inv (stores s) ∧ only_grants (initial_chips (auth settings)) w0 (stores s);
  si_timers : ∀ d, d ∈ timers (out s) → timer_ok settings d;
}.

(** ** Triples *)

(** From a state where the body holds [L] and [O], it returns normally, and
    with result [x] it holds [L' x] and [O' x]. *)
Definition triple {X} D (L O : list nat) (m : M Server X) (L' O' : X → list nat) : Prop :=
  ∀ s, service_inv D s L O → wp m (λ x s', service_inv D s' (L' x) (O' x)) s.

Lemma triple_ret {X} D (x : X) L' O' : triple D (L' x) (O' x) (mret x) L' O'.
Proof. intros s Hs. by apply wp_ret. Qed.

Lemma triple_bind {X Y} D L O (m : M Server X) (f : X → M Server Y) L1 O1 L2 O2 :
  triple D L O m L1 O1 → (∀ x, triple D (L1 x) (O1 x) (f x) L2 O2) → triple D L O (m ≫= f) L2 O2.
Proof.
  intros Hm Hf s Hs. apply wp_bind. eapply wp_mono; [|by apply Hm]. intros x s' Hs'. by apply Hf.
Qed.

Lemma triple_when D L O b m :
  triple D L O m (λ _, L) (λ _, O) → triple D L O (when b m) (λ _, L) (λ _, O).
Proof. intros Hm. destruct b; [done|]. exact (triple_ret D tt (λ _, L) (λ _, O)). Qed.

Lemma triple_for {X} D L O (l : list X) body :
  (∀ x, triple D L O (body x) (λ _, L) (λ _, O)) → triple D L O (mfor l body) (λ _, L) (λ _, O).
Proof.
  intros Hb s Hs. apply (wp_for body (λ _ s', service_inv D s' L O)); [|done].
  intros done x s' _ Hs'. by apply Hb.
Qed.

Lemma triple_get D L O : triple D L O mget (λ _, L) (λ _, O).
Proof. intros s Hs. by apply wp_get. Qed.

(** ** Steps that change nothing that is counted *)

Record same_counts s s' : Prop := {
  sm_own : operations_heap (own s') = operations_heap (own s) ∧
    active_table_operations_ (own s') = active_table_operations_ (own s) ∧
    continuations (own s') = continuations (own s) ∧ next_ref (own s') = next_ref (own s) ∧
    dom (sessions_heap (own s')) = dom (sessions_heap (own s));
  sm_storage : be_tasks (storage s') = be_tasks (storage s);
  sm_rooms : rooms s' = rooms s;
  sm_out : sent (out s') = sent (out s) ∧ timers (out s') = timers (out s) ∧
    requests (out s') = requests (out s);
  sm_stores : only_grants (initial_chips (auth settings)) (stores s) (stores s');
}.

Lemma service_inv_same D s s' L O : service_inv D s L O → same_counts s s' → service_inv D s' L O.
Proof.
  intros Hinv [(E1 & E2 & E3 & E4 & E5) E6 E7 (E8 & E9 & E10) E11].
  assert (waiting_sends s' = waiting_sends s) as Ws by by rw /waiting_sends /waiting_conts E3 E6.
  assert (waiting_ops s' = waiting_ops s) as Wo by by rw /waiting_ops /waiting_conts E3 E6.
  destruct Hinv as [H1 H2 H3 H4 H5 H6 H7 H8 H9 H10 H11 [Hg Hc] H13].
  split; rw ?E1 ?E2 ?E3 ?E4 ?E5 ?E6 ?E7 ?E8 ?E9 ?E10 ?Ws ?Wo //.
  split; [by apply (og_inv _ _ _ E11)|by etrans].
Qed.

Lemma triple_same {X} D L O (m : M Server X) :
  (∀ s, ∃ x s', m s = (Ok x, s') ∧ same_counts s s') → triple D L O m (λ _, L) (λ _, O).
Proof.
  intros Hm s Hs. destruct (Hm s) as (x & s' & Heq & Hsame). rw /wp Heq. by eapply service_inv_same.
Qed.

Lemma same_refl s : same_counts s s.
Proof. by split. Qed.

Lemma triple_now D L O : triple D L O (nowUnixMs (W := W) (C := C) (R := R)) (λ _, L) (λ _, O).
Proof.
  apply triple_same. intros s. rw /nowUnixMs. destruct (clock_now (clock s)) as [now k].
  eexists _, _. split; [done|]. by split.
Qed.

Lemma triple_registry {X} D L O (f : R → X * R) : triple D L O (on_registry f) (λ _, L) (λ _, O).
Proof.
  apply triple_same. intros s. rw /on_registry. destruct (f (registry s)) as [x r].
  eexists _, _. split; [done|]. by split.
Qed.

Lemma triple_router {X} D L O (f : R * C → X * (R * C)) : triple D L O (on_router f) (λ _, L) (λ _, O).
Proof.
  apply triple_same. intros s. rw /on_router. destruct (f (registry s, crypto s)) as [x [r c]].
  eexists _, _. split; [done|]. by split.
Qed.

Lemma same_stores (w : W) c s :
  only_grants (initial_chips (auth settings)) (stores s) w → same_counts s (with_stores w c s).
Proof. by split. Qed.

Lemma triple_games {X} D L O (f : W → X * W) :
  gs_op (λ w, (f w).2) → triple D L O (on_games f) (λ _, L) (λ _, O).
Proof.
  intros Hf. apply triple_same. intros s. rw /on_games. destruct (f (stores s)) as [x w] eqn:Hw.
  eexists _, _. split; [done|]. apply same_stores.
  pose proof (gs_op_grants (initial_chips (auth settings)) _ (stores s) Hf) as Hg. cbv beta in Hg. by rw Hw in Hg.
Qed.

(** A table whose blinds fit is made or refused. *)
Lemma triple_store_table D L O t :
  blinds_fit (table_config t) → triple D L O (on_games_result (gs_createTable t)) (λ _, L) (λ _, O).
Proof.
  intros Hfit. apply triple_same. intros s. rw /on_games_result.
  destruct (st_create (grant := initial_chips (auth settings)) t (stores s) Hfit) as (e & w & Hw). rw Hw.
  eexists _, _. split; [done|]. apply same_stores.
  pose proof (gs_op_grants (initial_chips (auth settings)) _ (stores s) (op_createTable t)) as Hg. cbv beta in Hg.
  by rw Hw in Hg.
Qed.

(** The blinds of a table that was found fit. *)
Lemma triple_find_table {X} D L O id (f : StorageResult TableRecord → M Server X) L' O' :
  (∀ r, (∀ t, sr_get r = Some t → blinds_fit (table_config t)) → triple D L O (f r) L' O') →
  triple D L O (on_games (gs_findTable id) ≫= f) L' O'.
Proof.
  intros Hf s Hs. apply wp_bind. pose proof (triple_games D L O (gs_findTable id) (op_findTable id) s Hs) as Hfind.
  revert Hfind. rw /wp /on_games. destruct (gs_findTable id (stores s)) as [r w] eqn:Hr. intros Hs'. apply Hf; [|done].
  intros t. rw /sr_get. destruct (sr_bool r) eqn:Hb; [|done]. intros Ht.
  eapply (st_blinds id t (stores s)); [exact (proj1 (si_stores _ _ _ _ Hs))|by rw Hr..].
Qed.

Lemma triple_own_same D L O f :
  (∀ o, operations_heap (f o) = operations_heap o ∧
     active_table_operations_ (f o) = active_table_operations_ o ∧
     continuations (f o) = continuations o ∧ next_ref (f o) = next_ref o ∧
     dom (sessions_heap (f o)) = dom (sessions_heap o)) →
  triple D L O (on_own f) (λ _, L) (λ _, O).
Proof.
  intros Hf. apply triple_same. intros s. eexists _, _. split; [done|]. split; try done. apply Hf.
Qed.

Lemma triple_metrics D L O f : triple D L O (on_metrics f) (λ _, L) (λ _, O).
Proof. by apply triple_own_same. Qed.

Lemma triple_cache {X} D L O (f : IdempotencyCache → X * IdempotencyCache) :
  triple D L O (on_cache f) (λ _, L) (λ _, O).
Proof.
  apply triple_same. intros s. rw /on_cache. destruct (f (idempotency_ (own s))) as [x c].
  eexists _, _. split; [done|]. by split.
Qed.

Lemma triple_update_session D L O r f : triple D L O (update_session r f) (λ _, L) (λ _, O).
Proof. apply triple_own_same. intros o. cbn. by rw dom_alter_L. Qed.

Lemma triple_push D L O u e : triple D L O (push_out u e) (λ _, L) (λ _, O).
Proof. apply triple_same. intros s. eexists _, _. split; [done|]. by split. Qed.

Lemma triple_read_session D L O r :
  r ∈ D → triple D L O (read_session r) (λ _, L) (λ _, O).
Proof.
  intros Hr s Hs. rw /wp /read_session. rw -(si_dom _ _ _ _ Hs) in Hr.
  apply elem_of_dom in Hr as [x ->]. done.
Qed.

(** ** Rooms *)

Lemma triple_rooms {X} D L O (f : RoomManager → X * RoomManager) :
  (∀ m sub, rooms_inv N (configured blinds_fit) (mkSystem m [] sub) → rooms_inv N (configured blinds_fit) (mkSystem (f m).2 [] sub)) →
  (∀ m, executor_ (f m).2 = executor_ m) →
  triple D L O (on_rooms f) (λ _, L) (λ _, O).
Proof.
  intros Hf He s Hs. destruct Hs as [H1 H2 H3 H4 H5 H6 H7 H8 H9 (sub & Hr & Hsub) H11 H12 H13].
  rw /wp /on_rooms. destruct (f (rooms s)) as [x m] eqn:Hm.
  assert ((f (rooms s)).2 = m) as Hm' by by rw Hm. split; cbn; try done.
  - exists sub. split; [|done]. rw -Hm'. by apply Hf.
  - by rw -Hm' He.
Qed.

Lemma triple_close D L O id : triple D L O (on_rooms (closeTable id)) (λ _, L) (λ _, O).
Proof. apply triple_rooms; [intros m sub; apply rooms_inv_close|apply close_executor]. Qed.

Lemma triple_create D L O id c : blinds_fit c → triple D L O (on_rooms (room_createTable id c)) (λ _, L) (λ _, O).
Proof. intros Hc. apply triple_rooms; [intros m sub; by apply rooms_inv_create, configured_new|apply create_executor]. Qed.

Lemma triple_has_table D L O id :
  triple D L O (on_rooms (λ m, (hasTable id m, m))) (λ _, L) (λ _, O).
Proof. by apply triple_rooms. Qed.

(** A callback is handed over: the room holds what it holds. *)
Lemma triple_room_call D L O id op k :
  service_op op (Some 0%nat) → (∀ r, r ∈ cont_sessions k → r ∈ D) →
  triple D (cont_sends k ++ L) (cont_ops k ++ O) (room_call id op k) (λ _, L) (λ _, O).
Proof.
  intros Hop Hk s [H1 H2 H3 H4 H5 H6 H7 H8 H9 (sub & Hr & Hsub) H11 H12 H13].
  rw /wp /room_call. set (n := next_ref (own s)).
  assert (continuations (own s) !! n = None) as Hn.
  { apply eq_None_not_Some. intros Hn. assert (n < next_ref (own s))%nat; [|lia].
    apply H6. right. by left. }
  set (s' := with_rooms _ _). cbn in s'.
  assert (waiting_conts s' ≡ₚ k :: waiting_conts s) as Hw by by apply map_to_list_insert_values.
  assert (waiting_sends s' ≡ₚ cont_sends k ++ waiting_sends s) as Hws.
  { rw /waiting_sends Hw. cbn. solve_Permutation. }
  assert (waiting_ops s' ≡ₚ cont_ops k ++ waiting_ops s) as Hwo.
  { rw /waiting_ops Hw. cbn. solve_Permutation. }
  assert (O ++ waiting_ops s' ≡ₚ (cont_ops k ++ O) ++ waiting_ops s) as Ho by (rw Hwo; solve_Permutation).
  split.
  - cbn [out with_rooms with_own s']. rw Hws. cbn. rw H1. solve_Permutation.
  - by rw Ho.
  - intros m. rw Ho. apply H3.
  - done.
  - done.
  - intros m. cbn. rw lookup_insert. intros Hm. case_decide; [subst; lia|].
    assert (m < next_ref (own s))%nat; [by apply H6|lia].
  - done.
  - done.
  - intros m k'. cbn. rw lookup_insert_Some. intros [[_ <-]|[_ Hm]]; [done|by eapply H9].
  - exists (sub ++ [n]). split; [exact (rooms_inv_call N (rooms s) sub id op (Some n) Hr)|].
    intros m. cbn. rw elem_of_app list_elem_of_singleton lookup_insert. case_decide; [by right|].
    intros Hm. left. by apply Hsub.
  - intros t Ht. cbn in Ht. apply call_queued in Ht as [Ht|[-> ->]]; [by apply H11|].
    by destruct op.
  - done.
  - done.
Qed.

Lemma triple_call_silent D L O id op :
  service_op op None → triple D L O (room_call_silent id op) (λ _, L) (λ _, O).
Proof.
  intros Hop s [H1 H2 H3 H4 H5 H6 H7 H8 H9 (sub & Hr & Hsub) H11 H12 H13].
  apply wp_modify. split; try done.
  - exists sub. split; [|done]. rw -(app_nil_r sub). exact (rooms_inv_call N (rooms s) sub id op None Hr).
  - intros t Ht. cbn in Ht. apply call_queued in Ht as [Ht|[-> ->]]; [by apply H11|done].
Qed.

(** ** Closures and answers *)

Lemma triple_post D L O t :
  task_ok t → (∀ r, r ∈ task_sessions t → r ∈ D) →
  triple D (task_sends t ++ L) (task_ops t ++ O) (post_storage t)
    (λ b, if b then L else task_sends t ++ L) (λ b, if b then O else task_ops t ++ O).
Proof.
  intros Hok Ht s Hs. rw /wp /post_storage /blocking_post. destruct (_ || _); [by destruct s|].
  destruct Hs as [H1 H2 H3 H4 H5 H6 H7 H8 H9 H10 H11 H12 H13].
  set (s' := with_storage _ _).
  assert (waiting_sends s' ≡ₚ task_sends t ++ waiting_sends s) as Hws.
  { rw /waiting_sends /s' /= bind_app. cbn. solve_Permutation. }
  assert (O ++ waiting_ops s' ≡ₚ (task_ops t ++ O) ++ waiting_ops s) as Hwo.
  { rw /waiting_ops /s' /= bind_app. cbn. solve_Permutation. }
  split; try done.
  - rw Hws. cbn. rw H1. solve_Permutation.
  - by rw Hwo.
  - intros n. rw Hwo. apply H3.
  - intros t'. cbn. rw elem_of_app list_elem_of_singleton. intros [?| ->]; [by apply H8|done].
Qed.

Lemma triple_send D L O send e : triple D (send :: L) O (send_out send e) (λ _, L) (λ _, O).
Proof.
  intros s [H1 H2 H3 H4 H5 H6 H7 H8 H9 H10 H11 H12 H13]. apply wp_modify. split; try done.
  cbn. rw fmap_app /= H1 /waiting_sends. solve_Permutation.
Qed.

Lemma triple_schedule D L O d t :
  timer_ok settings (d, t) → triple D L O (schedule_out d t) (λ _, L) (λ _, O).
Proof.
  intros Hok s [H1 H2 H3 H4 H5 H6 H7 H8 H9 H10 H11 H12 H13]. apply wp_modify. split; try done.
  intros d'. cbn. rw elem_of_app list_elem_of_singleton. intros [?| ->]; [by apply H13|done].
Qed.

(** ** The fence *)

Lemma triple_begin D L O id :
  triple D L O (beginTableOperation id) (λ _, L) (λ r, match r with Some n => n :: O | None => O end).
Proof.
  intros s Hs. rw /wp /beginTableOperation. destruct (id =? 0); [done|]. case_bool_decide as Hin; [done|].
  destruct Hs as [H1 H2 H3 H4 H5 H6 H7 H8 H9 H10 H11 H12 H13].
  set (n := next_ref (own s)).
  assert (operations_heap (own s) !! n = None) as Hn.
  { apply eq_None_not_Some. intros Hn. assert (n < next_ref (own s))%nat; [|lia]. apply H6. by left. }
  assert (n ∉ O ++ waiting_ops s) as Hfresh.
  { rw H3. intros (t & Ht). congruence. }
  assert (∀ t, operations_heap (own s) !! t = Some (mkOperation true id) → False) as Hid.
  { intros t Ht. apply Hin, H4. by exists t. }
  split; try done; cbn.
  - by apply NoDup_cons.
  - intros m. rw elem_of_cons lookup_insert H3. case_decide as Hm.
    + subst m. split; [intros _; by eexists|by left].
    + split; [intros [?|?]; [congruence|done]|by right].
  - intros t. rw elem_of_union elem_of_singleton H4. split.
    + intros [->|(m & Hm)]; [exists n; by rw lookup_insert_eq|]. exists m.
      rw lookup_insert_ne //. congruence.
    + intros (m & Hm). rw lookup_insert_Some in Hm. destruct Hm as [[_ [= ->]]|[_ Hm]]; [by left|].
      right. by exists m.
  - intros m m' t. rw !lookup_insert_Some.
    intros [[<- Ht]|[? Hm]] [[<- Ht']|[? Hm']]; [done|..|by eapply H5].
    + injection Ht as <-. by destruct (Hid m').
    + injection Ht' as <-. by destruct (Hid m).
  - intros m. rw lookup_insert. case_decide; [lia|]. intros Hm.
    assert (m < next_ref (own s))%nat; [by apply H6|lia].
Qed.

Lemma triple_finish D L O n : triple D L (n :: O) (finish n) (λ _, L) (λ _, O).
Proof.
  intros s Hs. apply wp_modify. destruct Hs as [H1 H2 H3 H4 H5 H6 H7 H8 H9 H10 H11 H12 H13].
  assert (n ∈ (n :: O) ++ waiting_ops s) as Hn by left.
  apply H3 in Hn as (t & Ht). rw /finish_operation Ht.
  cbn [app] in H2. apply NoDup_cons in H2 as [Hnot Hnd].
  split; try done; cbn.
  - intros m. rw lookup_insert. case_decide as Hm.
    + subst m. split; [intros ?; by destruct Hnot|by intros (? & ?)].
    + rw -H3 /= elem_of_cons. naive_solver.
  - intros t'. rw elem_of_difference elem_of_singleton H4. split.
    + intros [(m & Hm) Hne]. exists m. rw lookup_insert_ne //. congruence.
    + intros (m & Hm). apply lookup_insert_Some in Hm as [[_ ?]|[Hne Hm]]; [done|].
      split; [by exists m|]. intros ->. by destruct (H5 n m t Ht Hm).
  - intros m m' t'. rw !lookup_insert_Some. intros [[_ ?]|[_ ?]] [[_ ?]|[_ ?]]; try done. by eapply H5.
  - intros m. rw lookup_insert. case_decide; [|by apply H6]. subst. intros _. apply H6. left. by eexists.
Qed.
End invariant.
