(* ===== verification/ProtocolBodies.v ===== *)
(** * The bodies of the protocol service keep its invariant

    A triple for every function of the service, from the refund and timeout
    helpers to [handle] and the bodies of all closures: each keeps the
    invariant, returns normally, and accounts for the requests and table
    operations it was given. *)
From S2P Require Import Prelude Card Deck HandEvaluator Metrics ServerConfig Table AccountStore Auth GameStore GameStoreSpec IdempotencyCache RoomExecutor RoomManager RoomTheorems BlockingExecutor Cluster Protocol ProtocolService ProtocolInv.

(** ** The authentication service always answers *)

Definition total {W C X} `{!AccountStore W, !GameStore W} grant `{!StoreLaws W grant} (m : M (W * C) X) : Prop :=
  ∀ s, ∃ x s', m s = (Ok x, s') ∧ only_grants grant s.1 s'.1.

Section rules.
  Context {W C : Type} `{!AccountStore W, !GameStore W} (grant : Z) `{!StoreLaws W grant}.

Lemma total_ret {X} (x : X) : total grant (mret x : M (W * C) X).
Proof. intros s. by eexists _, _. Qed.

Lemma total_bind {X Y} (m : M (W * C) X) (f : X → M (W * C) Y) :
  total grant m → (∀ x, total grant (f x)) → total grant (m ≫= f).
Proof.
  intros Hm Hf s. destruct (Hm s) as (x & s' & Heq & H1). destruct (Hf x s') as (y & s'' & Heq' & H2).
  exists y, s''. rw /mbind /M_bind Heq. split; [done|by etrans].
Qed.

Lemma total_lift {X} (r : result X) x : r = Ok x → total grant (mlift r : M (W * C) X).
Proof. intros -> s. by eexists _, _. Qed.

Lemma total_on_store {X} (f : W → X * W) :
  account_op grant (λ w, (f w).2) → total grant (on_store (C := C) f).
Proof.
  intros Hf s. pose proof (account_op_grants grant _ s.1 Hf) as Hg. cbv beta in Hg.
  rw /on_store. destruct (f s.1). by eexists _, _.
Qed.
End rules.

Create HintDb total discriminated.
#[export] Hint Resolve total_ret total_on_store : total.
#[export] Hint Constructors account_op : total.

Ltac total := repeat first [progress cbv zeta | case_match | eapply total_bind; [|intros ?] | solve [eauto with total]].

Section authentication.
  Context {W C : Type} `{!AccountStore W, !GameStore W, !CryptoProvider C, !CryptoReturns C}.
  Context (grant : Z) `{!StoreLaws W grant}.
  Implicit Types (svc : AuthService).

Lemma total_on_crypto {X} (f : C → X * C) : total grant (on_crypto (S := W) f).
Proof. intros s. rw /on_crypto. destruct (f s.2). by eexists _, _. Qed.

Lemma total_hash password :
  validPassword password = true → total grant (call_crypto (S := W) (hashPassword password)).
Proof.
  intros Hp s. rw /call_crypto. destruct (hash_returns password s.2 Hp) as (h & c' & ->). by eexists _, _.
Qed.

Lemma total_expiry svc now :
  now + session_ttl_seconds svc * 1000 ≤ i64_max → total grant (mlift (session_expiry svc now) : M (W * C) Z).
Proof. intros Hle. eapply total_lift. rw /session_expiry. by rw bool_decide_eq_true_2. Qed.
#[local] Hint Resolve total_on_crypto total_expiry : total.

Lemma total_registerUser svc name password :
  initial_chips svc = grant → total grant (registerUser (S := W) (C := C) svc name password).
Proof.
  intros Hgrant. rw /registerUser Hgrant. destruct (validPassword password) eqn:Hp; cbn [negb]; [|total].
  pose proof (total_hash password Hp). total.
Qed.

Lemma total_login svc name password now :
  now + session_ttl_seconds svc * 1000 ≤ i64_max → total grant (login (S := W) (C := C) svc name password now).
Proof. intros Hle. rw /login. total. Qed.

Lemma total_authenticate token now : total grant (authenticate (S := W) (C := C) token now).
Proof. rw /authenticate. total. Qed.
#[local] Hint Resolve total_authenticate : total.

Lemma total_refresh svc token now :
  now + session_ttl_seconds svc * 1000 ≤ i64_max → total grant (refresh (S := W) (C := C) svc token now).
Proof. intros Hle. rw /refresh. total. Qed.

Lemma total_logout token : total grant (logout (S := W) (C := C) token).
Proof. rw /logout. total. Qed.
End authentication.
#[export] Hint Resolve total_registerUser total_login total_authenticate total_refresh total_logout : total.

Section bodies.
  Context {W C R K : Type} `{!AccountStore W, !GameStore W, !CryptoProvider C, !CryptoReturns C, !NodeRegistry R}.
  Context `{!Clock K, !EnvelopeCodec}.
  Context (settings : Settings) `{!StoreLaws W (initial_chips (auth settings))} (N : nat) (w0 : W) (D : gset nat).
  Context (clock_in_range : ∀ k : K, (clock_now k).1 + session_ttl_seconds (auth settings) * 1000 ≤ i64_max).
  Implicit Types (s : Server W C R K) (session send operation : nat).

Notation Server := (Server W C R K).
Notation triple := (triple (W := W) (C := C) (R := R) (K := K) settings N w0 D).

(** ** More rules *)

Lemma triple_auth {X} L O (m : M (W * C) X) :
  total (initial_chips (auth settings)) m → triple L O (on_auth m) (λ _, L) (λ _, O).
Proof.
  intros Hm. apply triple_same. intros s. rw /on_auth.
  destruct (Hm (stores s, crypto s)) as (x & [w c] & -> & Hg). eexists _, _. split; [done|]. by apply same_stores.
Qed.

Lemma triple_bind_now {X} L O (f : Z → M Server X) L' O' :
  (∀ now, now + session_ttl_seconds (auth settings) * 1000 ≤ i64_max → triple L O (f now) L' O') →
  triple L O (nowUnixMs ≫= f) L' O'.
Proof.
  intros Hf s Hs. apply wp_bind. pose proof (clock_in_range (clock s)) as Hr.
  pose proof (triple_now settings N w0 D L O s Hs) as Hnow. revert Hnow Hr.
  rw /wp /nowUnixMs. destruct (clock_now (clock s)) as [now k]. cbn [fst]. intros Hs' Hr. by apply Hf.
Qed.

(** Rules with the held lists as equations. *)
Lemma triple_room_call_eq L0 O0 L O id op k :
  service_op op (Some 0%nat) → (∀ r, r ∈ cont_sessions k → r ∈ D) →
  L0 = cont_sends k ++ L → O0 = cont_ops k ++ O →
  triple L0 O0 (room_call id op k) (λ _, L) (λ _, O).
Proof. intros Hop Hk -> ->. by apply triple_room_call. Qed.

Lemma triple_post_eq L0 O0 L O t :
  task_ok t → (∀ r, r ∈ task_sessions t → r ∈ D) →
  L0 = task_sends t ++ L → O0 = task_ops t ++ O →
  triple L0 O0 (post_storage t) (λ b : bool, if b then L else L0) (λ b : bool, if b then O else O0).
Proof. intros Hok Ht -> ->. by apply triple_post. Qed.

(** A part that leaves what is held alone. *)
Lemma triple_keep {X} L O (m : M Server X) :
  triple L O m (λ _, L) (λ _, O) → triple L O m (λ _, L) (λ _, O).
Proof. done. Qed.

(** A part that answers the request. *)
Lemma triple_answer {X} n L O (m : M Server X) :
  triple (n :: L) O m (λ _, L) (λ _, O) → triple (n :: L) O m (λ _, L) (λ _, O).
Proof. done. Qed.
End bodies.

Create HintDb triple discriminated.
#[export] Hint Resolve triple_metrics triple_cache triple_registry triple_router triple_close
  triple_create triple_has_table triple_push triple_update_session triple_read_session triple_send
  triple_begin triple_finish triple_get : triple.

(** What is left of a rule after its shape is matched: closures and tasks are
    admissible, their sessions are known. *)
Ltac held := first
  [ assumption | reflexivity | exact I
  | cbn; set_solver ].

(** A body: take it apart along its binds and branches and apply the rule of
    each part. *)
Ltac triple_part := first
  [ solve [eauto 2 with triple nocore]
  | eapply triple_room_call_eq; [held..]
  | eapply triple_post_eq; [held..]
  | eapply triple_call_silent; reflexivity
  | eapply triple_games; constructor
  | eapply triple_auth; solve [eauto with total] ].

Ltac body_step := lazymatch goal with
  | |- ProtocolInv.triple _ _ _ _ (match ?x with _ => _ end) _ _ _ _ => destruct x; cbv beta iota delta [negb when]
  | |- ProtocolInv.triple _ _ _ _ _ _ (mret ?x) ?P ?Q => exact (triple_ret _ _ _ _ x P Q)
  | |- ProtocolInv.triple _ _ _ _ _ _ (nowUnixMs ≫= _) _ _ => eapply triple_bind_now; [eassumption|]; intros ? ?
  | |- ProtocolInv.triple _ _ _ _ _ _ (_ ≫= _) _ _ =>
      eapply triple_bind; [first [triple_part | eapply triple_keep; solve [body] | eapply triple_answer; solve [body]]|intros ?; cbv beta iota zeta]
  | |- ProtocolInv.triple _ _ _ _ _ _ (let _ := _ in _) _ _ => cbv zeta
  | |- ProtocolInv.triple _ _ _ _ _ _ (when _ _) _ _ => unfold when; cbn [negb]
  | |- ProtocolInv.triple _ _ _ _ _ _ (mfor _ _) _ _ => eapply triple_for; intros ?
  | |- ProtocolInv.triple _ _ _ _ _ _ (match ?x with _ => _ end) _ _ => destruct x eqn:?
  | |- _ => triple_part
  end
with body := repeat body_step.

Section bodies.
  Context {W C R K : Type} `{!AccountStore W, !GameStore W, !CryptoProvider C, !CryptoReturns C, !NodeRegistry R}.
  Context `{!Clock K, !EnvelopeCodec}.
  Context (settings : Settings) `{!StoreLaws W (initial_chips (auth settings))} (N : nat) (w0 : W) (D : gset nat).
  Context (clock_in_range : ∀ k : K, (clock_now k).1 + session_ttl_seconds (auth settings) * 1000 ≤ i64_max).

Notation Server := (Server W C R K).
Notation triple := (triple (W := W) (C := C) (R := R) (K := K) settings N w0 D).
Notation framed m := (∀ L O, triple L O m (λ _, L) (λ _, O)) (only parsing).
(** The request is answered, or passed on. *)
Notation answers send m := (∀ L O, triple (send :: L) O m (λ _, L) (λ _, O)) (only parsing).
Notation answers_and_finishes send op m := (triple [send] [op] m (λ _, []) (λ _, [])) (only parsing).

(** ** Answers *)

Lemma triple_reply u request response send : answers send (reply u request response send).
Proof. intros L O. rw /reply. body. Qed.
#[local] Hint Resolve triple_reply : triple.

Lemma triple_fail request code text send user : answers send (fail request code text send user).
Proof. intros L O. rw /fail. body. Qed.
#[local] Hint Resolve triple_fail : triple.

Lemma triple_acknowledge u request text send : answers send (acknowledge u request text send).
Proof. intros L O. rw /acknowledge. body. Qed.
#[local] Hint Resolve triple_acknowledge : triple.

Lemma triple_beginRequest u request send L O :
  triple (send :: L) O (beginRequest u request send) (λ b : bool, if b then send :: L else L) (λ _, O).
Proof. rw /beginRequest. body. Qed.
#[local] Hint Resolve triple_beginRequest : triple.

(** ** Snapshots, refunds and timeouts *)

Lemma triple_broadcast id source : framed (broadcastSnapshot id source).
Proof. intros L O. rw /broadcastSnapshot. body. Qed.
#[local] Hint Resolve triple_broadcast : triple.

Lemma triple_current id u request send arm : answers send (replyWithCurrentSnapshot id u request send arm).
Proof. intros L O. rw /replyWithCurrentSnapshot. body. Qed.
#[local] Hint Resolve triple_current : triple.

Lemma triple_event id hand_id sequence l type text : framed (pushTableEvent settings id hand_id sequence l type text).
Proof. intros L O. rw /pushTableEvent. body. Qed.
#[local] Hint Resolve triple_event : triple.

Lemma triple_retryRefund id hand_id sequence l attempt :
  (1 ≤ attempt)%nat → framed (retryRefund settings id hand_id sequence l attempt).
Proof.
  intros Ha L O. rw /retryRefund. destruct (_ || _) eqn:Hb; [body|]. guards.
  apply triple_schedule. split; [|done]. lia.
Qed.

Lemma triple_abort id audit reason refund : framed (abortTableAndNotify settings id audit reason refund).
Proof.
  intros L O. rw /abortTableAndNotify. body.
  apply triple_retryRefund. lia.
Qed.
#[local] Hint Resolve triple_abort : triple.

Lemma triple_set_timeouts latest : framed (on_own (with_timeouts latest)).
Proof. intros L O. by apply triple_own_same. Qed.
#[local] Hint Resolve triple_set_timeouts : triple.

Lemma triple_scheduleTimeout id snapshot : framed (scheduleTimeout settings id snapshot).
Proof. intros L O. rw /scheduleTimeout. body. by apply triple_schedule. Qed.
#[local] Hint Resolve triple_scheduleTimeout : triple.

(** ** Sessions *)

Lemma triple_claim session L O : session ∈ D → triple L O (claim_session session) (λ _, L) (λ _, O).
Proof. intros Hd. rw /claim_session. body. Qed.
#[local] Hint Resolve triple_claim : triple.

Lemma triple_disconnect id u k :
  cont_sends k = [] → cont_ops k = [] → cont_sessions k = [] → framed (disconnect_from id u k).
Proof.
  intros H1 H2 H3 L O. eapply triple_room_call_eq; [done| |by rw H1|by rw H2]. rw H3. set_solver.
Qed.

Lemma triple_release session : framed (release_session session).
Proof. intros L O. apply triple_update_session. Qed.
#[local] Hint Resolve triple_release : triple.

Lemma triple_authorize request session send L O :
  session ∈ D →
  triple (send :: L) O (authorize request session send)
    (λ r, match r with Some _ => send :: L | None => L end) (λ _, O).
Proof.
  intros Hd. rw /authorize. body.
Qed.
#[local] Hint Resolve triple_authorize : triple.

(** ** Bodies of the storage tasks *)

Lemma triple_run_register request username password send : answers send (run_register settings request username password send).
Proof. intros L O. rw /run_register. body. Qed.
#[local] Hint Resolve triple_run_register : triple.

Lemma triple_auth_failed request session send e text : answers send (auth_failed request session send e text).
Proof. intros L O. rw /auth_failed. body. Qed.
#[local] Hint Resolve triple_auth_failed : triple.

Lemma triple_run_login request username password session send : answers send (run_login settings request username password session send).
Proof. intros L O. rw /run_login. body. Qed.
#[local] Hint Resolve triple_run_login : triple.

Lemma triple_sign_in_with request token session send L O :
  triple (send :: L) O (sign_in_with request token session send)
    (λ r, match r with Some _ => send :: L | None => L end) (λ _, O).
Proof. rw /sign_in_with. body. Qed.
#[local] Hint Resolve triple_sign_in_with : triple.

Lemma triple_run_authenticate request token session send : answers send (run_authenticate request token session send).
Proof. intros L O. rw /run_authenticate. body. Qed.
#[local] Hint Resolve triple_run_authenticate : triple.

Lemma triple_run_logout token table u request session send : answers send (run_logout token table u request session send).
Proof. intros L O. rw /run_logout. body. Qed.
#[local] Hint Resolve triple_run_logout : triple.

Lemma triple_run_refresh token u request session send : session ∈ D → answers send (run_refresh settings token u request session send).
Proof. intros Hd L O. rw /run_refresh. body. Qed.
#[local] Hint Resolve triple_run_refresh : triple.

Lemma triple_run_create_table u name c request send :
  blinds_fit c → answers send (run_create_table settings u name c request send).
Proof.
  intros Hfit L O. rw /run_create_table.
  assert (∀ L O id name node, triple L O (on_games_result (gs_createTable (mkTableRecord id name node c u))) (λ _, L) (λ _, O))
    as Hstore by (intros; by apply triple_store_table). body.
Qed.
#[local] Hint Resolve triple_run_create_table : triple.

Lemma triple_run_list_tables u limit request send : answers send (run_list_tables u limit request send).
Proof. intros L O. rw /run_list_tables. body. Qed.
#[local] Hint Resolve triple_run_list_tables : triple.

Lemma triple_run_join_table u id request send : answers send (run_join_table settings u id request send).
Proof. intros L O. rw /run_join_table. body. Qed.
#[local] Hint Resolve triple_run_join_table : triple.

Lemma triple_reserve_seat u b request : framed (reserve_seat settings u b request).
Proof.
  intros L O. rw /reserve_seat. eapply triple_bind; [triple_part|]. intros ticket.
  destruct (negb _); [body|]. apply triple_find_table. intros r Hfits.
  destruct (sr_get r) as [t|]; [specialize (Hfits t eq_refl)|]; body.
Qed.
#[local] Hint Resolve triple_reserve_seat : triple.

Lemma triple_run_sit_down u b request session send operation : session ∈ D → answers_and_finishes send operation (run_sit_down settings u b request session send operation).
Proof. intros Hd. rw /run_sit_down. body. Qed.
#[local] Hint Resolve triple_run_sit_down : triple.

Lemma triple_run_begin_hand u b request send start operation : answers_and_finishes send operation (run_begin_hand u b request send start operation).
Proof. intros. rw /run_begin_hand. body. Qed.
#[local] Hint Resolve triple_run_begin_hand : triple.

Lemma triple_persist action settlement : framed (persist action settlement).
Proof. intros L O. rw /persist. body. Qed.
#[local] Hint Resolve triple_persist : triple.

Lemma triple_run_persist u b request send view audit action settlement operation : answers_and_finishes send operation (run_persist settings u b request send view audit action settlement operation).
Proof. intros. rw /run_persist. body. Qed.
#[local] Hint Resolve triple_run_persist : triple.

Lemma triple_run_cash_out id u cash_key request session send operation : session ∈ D → answers_and_finishes send operation (run_cash_out id u cash_key request session send operation).
Proof. intros Hd. rw /run_cash_out. body. Qed.
#[local] Hint Resolve triple_run_cash_out : triple.

Lemma triple_run_rollback id u rollback_key operation :
  triple [] [operation] (run_rollback settings id u rollback_key operation) (λ _, []) (λ _, []).
Proof. rw /run_rollback. body. Qed.

Lemma triple_run_refund id hand_id sequence l attempt :
  triple [] [] (run_refund settings id hand_id sequence l attempt) (λ _, []) (λ _, []).
Proof. rw /run_refund. body. apply triple_retryRefund. lia. Qed.

Lemma triple_run_timeout_persist id action settlement after audit operation :
  triple [] [operation] (run_timeout_persist settings id action settlement after audit operation)
    (λ _, []) (λ _, []).
Proof. rw /run_timeout_persist. body. Qed.

(** ** Bodies of the callbacks *)

Lemma triple_table_failed u request error send : answers send (table_failed u request error send).
Proof. intros L O. rw /table_failed. body. Qed.
#[local] Hint Resolve triple_table_failed : triple.

Lemma triple_on_connected id r : framed (on_connected id r).
Proof. intros L O. rw /on_connected. body. Qed.
#[local] Hint Resolve triple_on_connected : triple.

Lemma triple_on_disconnected id r : framed (on_disconnected settings id r).
Proof. intros L O. rw /on_disconnected. body. Qed.
#[local] Hint Resolve triple_on_disconnected : triple.

Lemma triple_on_broadcast id u r : framed (on_broadcast settings id u r).
Proof. intros L O. rw /on_broadcast. body. Qed.
#[local] Hint Resolve triple_on_broadcast : triple.

Lemma triple_on_current id u request send arm r : answers send (on_current settings id u request send arm r).
Proof. intros L O. rw /on_current. body. Qed.
#[local] Hint Resolve triple_on_current : triple.

Lemma triple_on_seated u b request session send operation r : session ∈ D → answers_and_finishes send operation (on_seated settings u b request session send operation r).
Proof. intros Hd. rw /on_seated. body. Qed.
#[local] Hint Resolve triple_on_seated : triple.

Lemma triple_on_seat_snapshot u b request send operation r : answers_and_finishes send operation (on_seat_snapshot u b request send operation r).
Proof. intros. rw /on_seat_snapshot. body. Qed.
#[local] Hint Resolve triple_on_seat_snapshot : triple.

Lemma triple_on_ready u b request send operation r : answers_and_finishes send operation (on_ready u b request send operation r).
Proof. intros. rw /on_ready. body. Qed.
#[local] Hint Resolve triple_on_ready : triple.

Lemma triple_on_started u b request send operation r : answers_and_finishes send operation (on_started u b request send operation r).
Proof. intros. rw /on_started. body. Qed.
#[local] Hint Resolve triple_on_started : triple.

Lemma triple_on_audit u b request send operation r : answers_and_finishes send operation (on_audit u b request send operation r).
Proof. intros. rw /on_audit. body. Qed.
#[local] Hint Resolve triple_on_audit : triple.

Lemma triple_on_acted u b request send operation r : answers_and_finishes send operation (on_acted settings u b request send operation r).
Proof. intros. rw /on_acted. body. Qed.
#[local] Hint Resolve triple_on_acted : triple.

Lemma triple_on_snapshot u request send r : answers send (on_snapshot u request send r).
Proof. intros L O. rw /on_snapshot. body. Qed.
#[local] Hint Resolve triple_on_snapshot : triple.

Lemma triple_on_reconnected u id request send r : answers send (on_reconnected settings u id request send r).
Proof. intros L O. rw /on_reconnected. body. Qed.
#[local] Hint Resolve triple_on_reconnected : triple.

Lemma triple_on_leave_ready id u request session send operation r : session ∈ D → answers_and_finishes send operation (on_leave_ready id u request session send operation r).
Proof. intros Hd. rw /on_leave_ready. body. Qed.
#[local] Hint Resolve triple_on_leave_ready : triple.

Lemma triple_on_removed id u request session send operation r : answers_and_finishes send operation (on_removed id u request session send operation r).
Proof. intros. rw /on_removed. body. Qed.
#[local] Hint Resolve triple_on_removed : triple.

Lemma triple_on_timeout_audit id p expected action r :
  triple [] [] (on_timeout_audit id p expected action r) (λ _, []) (λ _, []).
Proof. rw /on_timeout_audit. body. Qed.

Lemma triple_on_timeout_acted id p expected action operation r :
  triple [] [operation] (on_timeout_acted settings id p expected action operation r) (λ _, []) (λ _, []).
Proof. rw /on_timeout_acted. body. Qed.
#[local] Hint Resolve triple_on_timeout_audit triple_on_timeout_acted triple_run_rollback
  triple_run_refund triple_run_timeout_persist : triple.

Lemma triple_run_continuation k r :
  (∀ session, session ∈ cont_sessions k → session ∈ D) →
  triple (cont_sends k) (cont_ops k) (run_continuation settings k r) (λ _, []) (λ _, []).
Proof.
  intros Hd. destruct k; try (assert (session ∈ D) by (apply Hd; by left)); clear Hd; cbn;
    eauto 3 with triple.
Qed.

(** ** Timers and requests *)

Lemma triple_fire d t : timer_ok settings (d, t) → triple [] [] (fire settings t) (λ _, []) (λ _, []).
Proof.
  intros Ht. destruct t; cbn; [destruct Ht as [Ha _]; cbn [snd] in Ha|]; body.
  apply triple_retryRefund. lia.
Qed.

Lemma triple_post_or_fail t request send user L :
  task_ok t → (∀ r, r ∈ task_sessions t → r ∈ D) → task_sends t = [send] → task_ops t = [] →
  triple (send :: L) [] (post_or_fail t request send user) (λ _, L) (λ _, []).
Proof.
  intros Hok Hd Hs Ho. rw /post_or_fail.
  eapply triple_bind; [apply (triple_post_eq settings N w0 D (send :: L) [] L []); [done|done|by rw Hs|by rw Ho]|].
  intros queued. body.
Qed.

#[local] Hint Extern 1 (ProtocolInv.triple _ _ _ _ _ _ (post_or_fail _ _ _ _) _ _) =>
  eapply triple_post_or_fail; held : triple.

Lemma triple_post_authentication t request session send L :
  task_ok t → (∀ r, r ∈ task_sessions t → r ∈ D) → task_sends t = [send] → task_ops t = [] →
  triple (send :: L) [] (post_authentication t request session send) (λ _, L) (λ _, []).
Proof.
  intros Hok Hd Hs Ho. rw /post_authentication.
  eapply triple_bind; [apply (triple_post_eq settings N w0 D (send :: L) [] L []); [done|done|by rw Hs|by rw Ho]|].
  intros queued. body.
Qed.
#[local] Hint Extern 1 (ProtocolInv.triple _ _ _ _ _ _ (post_authentication _ _ _ _) _ _) =>
  eapply triple_post_authentication; held : triple.

Lemma triple_handle_register request send :
  triple [send] [] (handle_register request send)
    (λ _, []) (λ _, []).
Proof. rw /handle_register. body. Qed.
#[local] Hint Resolve triple_handle_register : triple.

Lemma triple_handle_login request session send :
  session ∈ D → triple [send] [] (handle_login request session send)
    (λ _, []) (λ _, []).
Proof. intros Hd. rw /handle_login /begin_authentication. body. Qed.
#[local] Hint Resolve triple_handle_login : triple.

Lemma triple_handle_authenticate request session send :
  session ∈ D → triple [send] [] (handle_authenticate request session send)
    (λ _, []) (λ _, []).
Proof. intros Hd. rw /handle_authenticate /begin_authentication. body. Qed.
#[local] Hint Resolve triple_handle_authenticate : triple.

Lemma triple_handle_heartbeat request send :
  triple [send] [] (handle_heartbeat request send)
    (λ _, []) (λ _, []).
Proof. rw /handle_heartbeat. body. Qed.
#[local] Hint Resolve triple_handle_heartbeat : triple.

Lemma triple_handle_logout u request session send :
  session ∈ D → triple [send] [] (handle_logout u request session send)
    (λ _, []) (λ _, []).
Proof. intros Hd. rw /handle_logout. body. Qed.
#[local] Hint Resolve triple_handle_logout : triple.

Lemma triple_handle_refresh u request session send :
  session ∈ D → triple [send] [] (handle_refresh u request session send)
    (λ _, []) (λ _, []).
Proof. intros Hd. rw /handle_refresh. body. Qed.
#[local] Hint Resolve triple_handle_refresh : triple.

(** The blinds a request to open a table asks for fit. *)
Definition blinds_requested (request : Envelope) : Prop :=
  match body request with Create_table_request b => blinds_fit (requested_config b) | _ => True end.

Lemma triple_lift {X} L O (r : result X) x : r = Ok x → triple L O (mlift r) (λ _, L) (λ _, O).
Proof. intros -> s Hs. exact Hs. Qed.

Lemma triple_handle_create_table u request send :
  blinds_requested request → triple [send] [] (handle_create_table u request send) (λ _, []) (λ _, []).
Proof.
  rw /blinds_requested /handle_create_table. case_match; intros Hfit; try solve [body].
  destruct (validConfig_returns _ Hfit) as [valid Hvalid].
  eapply triple_bind; [by eapply triple_lift|]. intros v. body.
Qed.
#[local] Hint Resolve triple_handle_create_table : triple.

Lemma triple_handle_list_tables u request send :
  triple [send] [] (handle_list_tables u request send)
    (λ _, []) (λ _, []).
Proof. rw /handle_list_tables. body. Qed.
#[local] Hint Resolve triple_handle_list_tables : triple.

Lemma triple_handle_join_table u request send :
  triple [send] [] (handle_join_table u request send)
    (λ _, []) (λ _, []).
Proof. rw /handle_join_table. body. Qed.
#[local] Hint Resolve triple_handle_join_table : triple.

Lemma triple_with_operation id u request send k :
  (∀ operation, triple [send] [operation] (k operation) (λ _, []) (λ _, [])) →
  triple [send] [] (with_operation id u request send k) (λ _, []) (λ _, []).
Proof. intros Hk. rw /with_operation. eapply triple_bind; [apply triple_begin|]. intros [n|]; body. Qed.

Lemma triple_handle_sit_down u request session send :
  session ∈ D → triple [send] [] (handle_sit_down u request session send)
    (λ _, []) (λ _, []).
Proof. intros Hd. rw /handle_sit_down. body. apply triple_with_operation. intros op. body. Qed.
#[local] Hint Resolve triple_handle_sit_down : triple.

Lemma triple_handle_ready u request send :
  triple [send] [] (handle_ready u request send)
    (λ _, []) (λ _, []).
Proof. rw /handle_ready. body. apply triple_with_operation. intros op. body. Qed.
#[local] Hint Resolve triple_handle_ready : triple.

Lemma triple_handle_action u request send :
  triple [send] [] (handle_action u request send)
    (λ _, []) (λ _, []).
Proof. rw /handle_action. body. apply triple_with_operation. intros op. body. Qed.
#[local] Hint Resolve triple_handle_action : triple.

Lemma triple_handle_snapshot u request send :
  triple [send] [] (handle_snapshot u request send)
    (λ _, []) (λ _, []).
Proof. rw /handle_snapshot. body. Qed.
#[local] Hint Resolve triple_handle_snapshot : triple.

Lemma triple_handle_reconnect u request session send :
  triple [send] [] (handle_reconnect u request session send)
    (λ _, []) (λ _, []).
Proof. rw /handle_reconnect. body. Qed.
#[local] Hint Resolve triple_handle_reconnect : triple.

Lemma triple_handle_leave u request session send :
  session ∈ D → triple [send] [] (handle_leave u request session send)
    (λ _, []) (λ _, []).
Proof. intros Hd. rw /handle_leave. body. apply triple_with_operation. intros op. body. Qed.
#[local] Hint Resolve triple_handle_leave : triple.

(** A request that the service answers: its blinds fit if they are looked at. *)
Definition answerable (request : Envelope) : Prop :=
  message_type request = CREATE_TABLE_REQUEST → blinds_requested request.

Lemma answerable_other request : message_type request ≠ CREATE_TABLE_REQUEST → answerable request.
Proof. by intros ? ?. Qed.

Lemma triple_dispatch u request session send :
  session ∈ D → answerable request → triple [send] [] (dispatch u request session send) (λ _, []) (λ _, []).
Proof.
  intros Hd Hans. rw /dispatch. destruct (message_type request) eqn:Ht; try solve [body].
  by apply triple_handle_create_table, Hans.
Qed.
#[local] Hint Resolve triple_dispatch : triple.

Lemma triple_handle_command request session send :
  session ∈ D → answerable request → triple [send] [] (handle_command settings request session send) (λ _, []) (λ _, []).
Proof. intros Hd Hans. rw /handle_command. body. Qed.
#[local] Hint Resolve triple_handle_command : triple.

Lemma triple_handle_reconnection request session send :
  session ∈ D → message_type request = RECONNECT_REQUEST →
  triple [send] [] (handle_reconnection settings request session send) (λ _, []) (λ _, []).
Proof.
  intros Hd Ht. assert (answerable request) by (apply answerable_other; by rw Ht). rw /handle_reconnection. body.
Qed.
#[local] Hint Resolve triple_handle_reconnection : triple.

Lemma triple_handle request session send :
  session ∈ D → answerable request → triple [send] [] (handle settings request session send) (λ _, []) (λ _, []).
Proof. intros Hd Hans. rw /handle. destruct (_ || _); [body|]. destruct (message_type request) eqn:Ht; body. Qed.
#[local] Hint Resolve triple_handle : triple.

Lemma triple_run_reconnect request token session send :
  session ∈ D → message_type request = RECONNECT_REQUEST →
  triple [send] [] (run_reconnect settings request token session send) (λ _, []) (λ _, []).
Proof.
  intros Hd Ht. assert (answerable request) by (apply answerable_other; by rw Ht). rw /run_reconnect. body.
Qed.
#[local] Hint Resolve triple_run_reconnect : triple.

Lemma triple_run_storage_task t :
  task_ok t → (∀ session, session ∈ task_sessions t → session ∈ D) →
  triple (task_sends t) (task_ops t) (run_storage_task settings t) (λ _, []) (λ _, []).
Proof.
  intros Hok Hd. destruct t; try (assert (session ∈ D) by (apply Hd; by left)); clear Hd; cbn in Hok |- *;
    eauto 3 with triple.
Qed.

(** ** Requests that may be left undefined *)

(** A request to open a table, the check of whose blinds overflows. *)
Definition overflowing (request : Envelope) : Prop :=
  message_type request = CREATE_TABLE_REQUEST ∧
  ∃ b, body request = Create_table_request b ∧ validConfig (requested_config b) = Undef.

(** The body accounts for what it was given, or is undefined for the reason [U]. *)
Definition unless {X} (U : Prop) L O (m : M Server X) (L' O' : X → list nat) : Prop :=
  ∀ s, service_inv settings N w0 D s L O →
    wp_unless U m (λ x s', service_inv settings N w0 D s' (L' x) (O' x)) s.

Lemma triple_unless {X} U L O (m : M Server X) L' O' : triple L O m L' O' → unless U L O m L' O'.
Proof. intros Hm s Hs. left. by apply Hm. Qed.

Lemma unless_bind {X Y} U L O (m : M Server X) (f : X → M Server Y) L1 O1 L2 O2 :
  triple L O m L1 O1 → (∀ x, unless U (L1 x) (O1 x) (f x) L2 O2) → unless U L O (m ≫= f) L2 O2.
Proof.
  intros Hm Hf s Hs. apply wp_unless_bind. eapply wp_mono, Hm, Hs. intros x s1. apply Hf.
Qed.

Lemma create_table_unless u request send :
  message_type request = CREATE_TABLE_REQUEST →
  unless (overflowing request) [send] [] (handle_create_table u request send) (λ _, []) (λ _, []).
Proof.
  intros Ht. destruct (body request) eqn:Hb;
    try by apply triple_unless, triple_handle_create_table; rw /blinds_requested Hb.
  destruct (validConfig_cases (requested_config request0)) as [[[] Hv]|[Hv _]].
  - apply triple_unless, triple_handle_create_table. rw /blinds_requested Hb. by apply validConfig_true.
  - intros s Hs. left. rw /handle_create_table Hb /mbind /M_bind /mlift /wp Hv /=.
    by apply (triple_fail _ _ _ _ _ [] []).
  - intros s Hs. right. rw /handle_create_table Hb /mbind /M_bind /mlift Hv. split; [done|split; [done|by exists request0]].
Qed.

Lemma dispatch_unless u request session send :
  session ∈ D → unless (overflowing request) [send] [] (dispatch u request session send) (λ _, []) (λ _, []).
Proof.
  intros Hd. destruct (decide (message_type request = CREATE_TABLE_REQUEST)) as [Ht|Ht].
  - rw /dispatch Ht. by apply create_table_unless.
  - by apply triple_unless, triple_dispatch, answerable_other.
Qed.

Lemma handle_unless request session send :
  session ∈ D → unless (overflowing request) [send] [] (handle settings request session send) (λ _, []) (λ _, []).
Proof.
  intros Hd. destruct (decide (message_type request = CREATE_TABLE_REQUEST)) as [Ht|Ht].
  2: by apply triple_unless, triple_handle, answerable_other.
  rw /handle. destruct (_ || _); [by apply triple_unless, (triple_fail _ _ _ _ _ [] [])|]. rw Ht /handle_command.
  eapply unless_bind; [triple_part|]. intros [u|]; [|apply triple_unless; body].
  cbv beta iota. destruct (misdirected _ _); [by apply triple_unless, (triple_fail _ _ _ _ _ [] [])|].
  by apply dispatch_unless.
Qed.

Lemma handle_if_returns request session send (s s' : Server) :
  session ∈ D → service_inv settings N w0 D s [send] [] →
  handle settings request session send s = (Ok tt, s') → service_inv settings N w0 D s' [] [].
Proof.
  intros Hd Hs. exact (wp_unless_result _ _ _ _ _ _ (handle_unless request session send Hd s Hs)).
Qed.

Lemma triple_onDisconnect session :
  session ∈ D → triple [] [] (onDisconnect session) (λ _, []) (λ _, []).
Proof. intros Hd. rw /onDisconnect. body. Qed.
End bodies.
