(* ===== verification/ProtocolRuns.v ===== *)
(** * Runs of the protocol service keep its invariant

    Each kind of step, taken from a state where no body is running, leads to
    one where no body is running, with the invariant of [ProtocolInv] kept. *)
From S2P Require Import Prelude Card Deck HandEvaluator Metrics ServerConfig Table TableLife AccountStore Auth GameStore GameStoreSpec IdempotencyCache RoomExecutor RoomManager RoomTheorems BlockingExecutor Cluster Protocol ProtocolService ProtocolInv ProtocolBodies.

Lemma set_shard_queued i (sh sh' : Shard RoomTask) e t :
  shards_ e !! i = Some sh → (∀ x, x ∈ sh_tasks sh' → x ∈ sh_tasks sh) →
  t ∈ queued (set_shard i sh' e) → t ∈ queued e.
Proof.
  intros Hi Hsub. destruct (queued_set_shard i sh sh' e Hi) as (l1 & l2 & -> & ->).
  rewrite !elem_of_app. intros [?|[?|?]]; auto.
Qed.

Lemma take_task_queued i task e (m : RoomManager) :
  take_task i (executor_ m) = Some (task, e) →
  task ∈ queued (executor_ m) ∧ ∀ t, t ∈ queued e → t ∈ queued (executor_ m).
Proof.
  intros (rest & b & Hsh & ->)%take_task_Some.
  destruct (queued_set_shard i _ (mkShard rest b) _ Hsh) as (l1 & l2 & -> & ->). cbn.
  split; [|intros t]; rewrite !elem_of_app ?elem_of_cons ?elem_of_app; tauto.
Qed.

Lemma run_task_executor deck task m m' : run_task deck task m = Some m' → executor_ m' = executor_ m.
Proof.
  assert (∀ cb reply m, executor_ (answer cb reply m) = executor_ m) as Hans.
  { intros cb reply m0. by destruct (answer_fields cb reply m0) as (_ & _ & _ & -> & _). }
  rw /run_task. destruct (heap m !! tk_room task) as [room|]; [|by intros [= <-]].
  destruct (room_closed room); [intros [= <-]; by rw Hans|].
  destruct (run_op _ _ _ _) as [[[r|]| |] t]; intros [= <-]; rw ?Hans //.
Qed.

Lemma stop_shard_queued i (m : RoomManager) t :
  t ∈ queued (stop_shard i (executor_ m)) → t ∈ queued (executor_ m).
Proof.
  rw /stop_shard. destruct (shards_ (executor_ m) !! i) as [sh|] eqn:Hsh; [|done].
  by apply (set_shard_queued i sh).
Qed.

Section runs.
  Context {W C R K : Type} `{!AccountStore W, !GameStore W, !CryptoProvider C, !CryptoReturns C, !NodeRegistry R}.
  Context `{!Clock K, !EnvelopeCodec}.
  Context (settings : Settings) `{!StoreLaws W (initial_chips (auth settings))} (N : nat) (w0 : W).
  Context (clock_in_range : ∀ k : K, (clock_now k).1 + session_ttl_seconds (auth settings) * 1000 ≤ i64_max).
  Implicit Types (s : Server W C R K) (D : gset nat).

Notation Server := (Server W C R K).
Notation sinv := (service_inv settings N w0).

(** Between bodies. *)
Definition idle s : Prop := ∃ D, sinv D s [] [].

Lemma idle_fresh c r k m (e : BlockingExecutor StorageTask) cache max :
  st_inv w0 → RoomManager_new N max = Ok m → be_tasks e = [] →
  idle (mkServer w0 c r k m e (fresh_own cache) fresh_out).
Proof.
  intros Hg Hm He. exists ∅.
  pose proof (rooms_inv_new N (configured blinds_fit) max m Hm) as Hrooms.
  assert (∀ s : Server, be_tasks (storage s) = [] → own s = fresh_own cache →
    waiting_sends s = [] ∧ waiting_ops s = []) as Hw.
  { intros s He' Ho. by rw /waiting_sends /waiting_ops /waiting_conts He' Ho. }
  destruct (Hw (mkServer w0 c r k m e (fresh_own cache) fresh_out) He eq_refl) as [Hs Ho].
  split; cbn; rw ?Hs ?Ho //.
  - constructor.
  - intros n. split; [by intros ?%elem_of_nil|]. intros (t & Ht). by rw lookup_empty in Ht.
  - intros t. split; [by intros ?%elem_of_empty|]. intros (n & Hn). by rw lookup_empty in Hn.
  - intros n. rw !lookup_empty. intros [[? ?]|[[? ?]|?%elem_of_empty]]; done.
  - intros t. rw He. by intros ?%elem_of_nil.
  - exists []. split; [done|]. intros n. rw lookup_empty. by intros [? ?].
  - intros t Ht. exfalso. revert Hm Ht. rw /RoomManager_new /RoomExecutor_new.
    destruct (_ || _); [done|]. intros [= <-]. cbn. clear. induction N as [|n IH]; cbn; [by intros ?%elem_of_nil|done].
  - by intros d ?%elem_of_nil.
Qed.

(** What a body does from a state prepared for it. *)
Lemma idle_body {X} D (m : M Server X) s x s' L O :
  sinv D s L O → triple settings N w0 D L O m (λ _, []) (λ _, []) → m s = (Ok x, s') → sinv D s' [] [].
Proof. intros Hs Hm Heq. exact (wp_result _ _ _ _ _ (Hm s Hs) Heq). Qed.

(** ** Preparing the state for a body *)

Lemma idle_connect s : idle s → idle (connect s).
Proof.
  intros (D & [H1 H2 H3 H4 H5 H6 H7 H8 H9 H10 H11 H12 H13]).
  exists ({[next_ref (own s)]} ∪ D). split; try done; cbn.
  - intros n. rw elem_of_union elem_of_singleton. intros Hn.
    assert (n = next_ref (own s) ∨ n < next_ref (own s))%nat; [|lia].
    destruct Hn as [Hn|[Hn|[Hn|Hn]]]; [right..|by left|right]; apply H6; naive_solver.
  - by rw dom_insert_L H7.
  - intros t Ht. destruct (H8 t Ht) as [Hok Hd]. split; [done|]. intros r Hr. apply elem_of_union. right.
    by apply Hd.
  - intros n k Hk r Hr. apply elem_of_union. right. by eapply H9.
Qed.

Lemma inv_receive D s : sinv D s [] [] → sinv D (receive s) [requests (out s)] [].
Proof.
  intros [H1 H2 H3 H4 H5 H6 H7 H8 H9 H10 H11 H12 H13]. split; try done.
  cbn [receive out with_out requests sent]. rw seq_S H1 /=. solve_Permutation.
Qed.

Lemma inv_take_task D w t rest e s :
  sinv D s [] [] → be_tasks (storage s) = t :: rest → worker_step w (storage s) = Some e →
  be_tasks e = rest ∧ sinv D (with_storage e s) (task_sends t) (task_ops t).
Proof.
  intros [H1 H2 H3 H4 H5 H6 H7 H8 H9 H10 H11 H12 H13] Ht Hw.
  apply worker_step_Some in Hw as [_ [(t' & rest' & Ht' & He)|[? _]]]; [|congruence].
  rw Ht in Ht'. injection Ht' as <- <-. assert (be_tasks e = rest) as Hrest by by rw He.
  split; [done|]. clear He.
  assert (waiting_sends s = task_sends t ++ waiting_sends (with_storage e s)) as Hws.
  { rw /waiting_sends Ht Hrest /= app_assoc //. }
  assert (waiting_ops s = task_ops t ++ waiting_ops (with_storage e s)) as Hwo.
  { rw /waiting_ops Ht Hrest /= app_assoc //. }
  split; cbn [with_storage own out storage rooms stores]; try done.
  - rw H1 Hws /= -app_assoc //.
  - by rw -Hwo.
  - by rw -Hwo.
  - intros t' Hin. apply H8. rw Ht. right. by rw -Hrest.
Qed.

Lemma inv_workers D s e L O : sinv D s L O → be_tasks e = be_tasks (storage s) → sinv D (with_storage e s) L O.
Proof. intros Hs He. eapply service_inv_same; [done|]. by split. Qed.

Lemma inv_take_continuation D n k s :
  sinv D s [] [] → continuations (own s) !! n = Some k →
  sinv D (take_continuation n s) (cont_sends k) (cont_ops k).
Proof.
  intros [H1 H2 H3 H4 H5 H6 H7 H8 H9 (sub & Hr & Hsub) H11 H12 H13] Hk.
  assert (waiting_conts s ≡ₚ k :: waiting_conts (take_continuation n s)) as Hw.
  { rw /waiting_conts /take_continuation /=. by rw -{1}(insert_delete_id _ _ _ Hk) map_to_list_insert_values ?lookup_delete_eq. }
  assert (waiting_sends s ≡ₚ cont_sends k ++ waiting_sends (take_continuation n s)) as Hws.
  { rw /waiting_sends Hw /=. solve_Permutation. }
  assert (waiting_ops s ≡ₚ cont_ops k ++ waiting_ops (take_continuation n s)) as Hwo.
  { rw /waiting_ops Hw /=. solve_Permutation. }
  split; cbn [take_continuation with_own with_continuations own out storage rooms stores operations_heap
    active_table_operations_ continuations next_ref sessions_heap]; try done.
  - rw H1 Hws /=. solve_Permutation.
  - by rw -Hwo.
  - intros m. rw -Hwo. apply H3.
  - intros m Hm. apply H6. destruct Hm as [?|[[? [_ ?]%lookup_delete_Some]|?]]; [by left|right; left; by eexists|tauto].
  - intros m k' [_ Hm]%lookup_delete_Some. by eapply H9.
  - exists sub. split; [done|]. intros m [? [_ Hm]%lookup_delete_Some]. apply Hsub. by eexists.
Qed.

Lemma inv_take_timer D i s : sinv D s [] [] → sinv D (take_timer i s) [] [].
Proof.
  intros [H1 H2 H3 H4 H5 H6 H7 H8 H9 H10 H11 H12 H13]. split; try done.
  intros d Hd. apply H13. cbn in Hd. by apply list_elem_of_lookup in Hd as (j & Hj); apply list_elem_of_lookup;
    rewrite list_lookup_delete in Hj; case_decide; eexists.
Qed.

(** Rooms that change by themselves. *)
Lemma inv_rooms D m s :
  sinv D s [] [] → (∀ sub, rooms_inv N (configured blinds_fit) (mkSystem (rooms s) [] sub) → rooms_inv N (configured blinds_fit) (mkSystem m [] sub)) →
  (∀ t, t ∈ queued (executor_ m) → t ∈ queued (executor_ (rooms s))) → sinv D (with_rooms m s) [] [].
Proof.
  intros [H1 H2 H3 H4 H5 H6 H7 H8 H9 (sub & Hr & Hsub) H11 H12 H13] Hm Hq. split; try done.
  - exists sub. split; [by apply Hm|done].
  - intros t Ht. by apply H11, Hq.
Qed.

Lemma inv_run_one D i deck m s :
  sinv D s [] [] → good_deck deck → next_ deck = 0%nat → run_one i deck (rooms s) = Some m →
  sinv D (with_rooms m s) [] [].
Proof.
  intros Hs Hg Hn Hm. apply inv_rooms; [done| |].
  - intros sub Hr. eapply rooms_inv_run; [done..|]. intros task e room Ht _ Hroom. apply run_op_configured; [done..|].
    apply take_task_queued in Ht as [Hq _]. pose proof (si_queue _ _ _ _ _ _ _ Hs _ Hq) as Hop.
    destruct (tk_op task); try done. cbn in Hop. by rw Hop.
  - intros t. revert Hm. rw /run_one. destruct (take_task i _) as [[task e]|] eqn:Ht; [|done].
    intros Hrun%run_task_executor. rw Hrun /=. apply (take_task_queued _ _ _ _ Ht).
Qed.

(** ** Steps *)

Lemma idle_inner D s s' : sinv D s [] [] → inner_step settings s s' → sinv D s' [] [].
Proof.
  intros Hs Hstep. destruct Hstep as [w t rest e s s' e' Ht Hw Hb Hf
    |w e s Ht Hw|i deck m s Hg Hn Hm|n r k s s' Hr Hk Hb|i d t s s' Ht Hb|r s|f s Hf|s|i s].
  - destruct (inv_take_task D w t rest e s Hs Ht Hw) as [_ Hs'].
    assert (sinv D s' [] []) as Hs''.
    { destruct (si_tasks _ _ _ _ _ _ _ Hs t) as [Hok Hd]; [rw Ht; by left|].
      eapply idle_body; [done|by apply triple_run_storage_task|done]. }
    apply inv_workers; [done|]. revert Hf. rw /finish_task.
    by destruct (be_workers _ !! w) as [[|?|]|]; try done; intros [= <-].
  - apply inv_workers; [done|]. apply worker_step_Some in Hw as [_ [(? & ? & ? & ?)|(_ & _ & ->)]]; [congruence|].
    by rw Ht.
  - by eapply inv_run_one.
  - eapply idle_body; [by apply inv_take_continuation|apply triple_run_continuation|done]; [done|].
    intros session. by apply (si_conts _ _ _ _ _ _ _ Hs n k).
  - eapply idle_body; [by apply inv_take_timer|eapply (triple_fire settings N w0 D clock_in_range d)|done].
    apply (si_timers _ _ _ _ _ _ _ Hs). by eapply list_elem_of_lookup_2.
  - eapply service_inv_same; [done|]. by split.
  - eapply service_inv_same; [done|]. by apply same_stores, store_op_grants.
  - by apply inv_workers.
  - apply inv_rooms; [done|intros sub; apply rooms_inv_stop|apply stop_shard_queued].
Qed.

Lemma idle_request D s request session s' :
  sinv D s [] [] → session ∈ D →
  handle settings request session (requests (out s)) (receive s) = (Ok tt, s') → sinv D s' [] [].
Proof.
  intros Hs Hd Heq. by eapply (handle_if_returns settings N w0 D clock_in_range request session _ _ _ Hd), Heq; apply inv_receive.
Qed.

Lemma idle_disconnect D s session s' :
  sinv D s [] [] → session ∈ D → onDisconnect session s = (Ok tt, s') → sinv D s' [] [].
Proof. intros Hs Hd. eapply idle_body; [done|by apply triple_onDisconnect]. Qed.

Lemma idle_step s s' : idle s → service_step settings s s' → idle s'.
Proof.
  intros Hs Hstep. destruct Hstep as [s|request session s s' Hd Hb|session s s' Hd Hb|s s' Hstep];
    [by apply idle_connect|destruct Hs as [D Hs]; exists D..].
  - rw -elem_of_dom (si_dom _ _ _ _ _ _ _ Hs) in Hd. by eapply idle_request.
  - rw -elem_of_dom (si_dom _ _ _ _ _ _ _ Hs) in Hd. by eapply idle_disconnect.
  - by eapply idle_inner.
Qed.

Lemma idle_run s s' : idle s → service_run settings s s' → idle s'.
Proof. intros Hs. induction 1; [done|by eapply idle_step]. Qed.
End runs.
