(* ===== verification/ProtocolTheorems.v ===== *)
(** * Properties of the protocol service

    What holds of every state a service can reach from its construction, under
    every interleaving of requests, storage tasks, rooms, callbacks, timers and
    other nodes. *)
From S2P Require Import Prelude Card Deck HandEvaluator Metrics ServerConfig Table TableInv TableLife AccountStore Auth GameStore GameStoreSpec IdempotencyCache RoomExecutor RoomManager RoomTheorems BlockingExecutor Cluster Protocol ProtocolService ProtocolInv ProtocolBodies ProtocolRuns.

(** A service just constructed, with empty queues, a well-formed store and [N]
    shards of rooms. *)
Record fresh_service `{!AccountStore W, !GameStore W} (settings : Settings)
    `{!StoreLaws W (initial_chips (auth settings))} {C R K} (N max : nat)
    (s : Server W C R K) : Prop := {
  fresh_stores : st_inv (stores s);
  fresh_rooms : RoomManager_new N max = Ok (rooms s);
  fresh_tasks : be_tasks (storage s) = [];
  fresh_state : ∃ cache, own s = fresh_own cache;
  fresh_output : out s = fresh_out;
}.

Section theorems.
  Context {W C R K : Type} `{!AccountStore W, !GameStore W, !CryptoProvider C, !CryptoReturns C, !NodeRegistry R}.
  Context `{!Clock K, !EnvelopeCodec}.
  Context (settings : Settings) `{!StoreLaws W (initial_chips (auth settings))} (N max : nat).
  Context (clock_in_range : ∀ k : K, (clock_now k).1 + session_ttl_seconds (auth settings) * 1000 ≤ i64_max).
  Implicit Types (s : Server W C R K) (D : gset nat).

Notation Server := (Server W C R K).

Lemma run_idle s0 s :
  fresh_service settings N max s0 → service_run settings s0 s → idle settings N (stores s0) s.
Proof.
  intros [H1 H2 H3 [cache H4] H5] Hrun. eapply idle_run; [done| |done].
  destruct s0; cbn in *; subst. by eapply idle_fresh.
Qed.

(** Telling users something is one push for each. *)
Lemma pushTableEvent_ok id hand_id sequence l type text s :
  ∃ s', pushTableEvent settings id hand_id sequence l type text s = (Ok tt, s') ∧
    stores s' = stores s ∧ timers (out s') = timers (out s) ∧
    (pushed (out s')).*1 = (pushed (out s)).*1 ++ (if push_set settings then l else []).
Proof.
  rw /pushTableEvent. destruct (push_set settings); [|by eexists; rw app_nil_r].
  revert s. induction l as [|u l IH]; intros s; cbn [mfor].
  { eexists. by rw app_nil_r. }
  rw /mbind /M_bind /push_out /mmodify. set (s1 := with_out _ s).
  destruct (IH s1) as (s' & Heq & Hg & Ht & Hp).
  exists s'. rw Heq. split_and!; [done..|]. rw Hp /= fmap_app -app_assoc //.
Qed.

Lemma run_refund_ok id hand_id sequence l attempt e w' s :
  gs_abortTableAndRefund id (stores s) = (e, w') →
  ∃ s', run_refund settings id hand_id sequence l attempt s = (Ok tt, s') ∧ stores s' = w' ∧
    timers (out s') = timers (out s) ++
      (if bool_decide (e = Storage_ok) || negb (schedule_set settings) || (7 <? attempt)%nat then []
       else [(retry_delay (attempt + 1), TimerRefund id hand_id sequence l (attempt + 1))]) ∧
    (pushed (out s')).*1 = (pushed (out s)).*1 ++
      (if push_set settings && (bool_decide (e = Storage_ok) || negb (schedule_set settings) || (7 <? attempt)%nat)
       then l else []).
Proof.
  intros Hg. rw /run_refund /mbind /M_bind /on_games Hg. case_bool_decide as He.
  { destruct (pushTableEvent_ok id hand_id sequence l "table_refund_completed"
      "the deferred table-stack refund completed" (with_stores w' (crypto s) s)) as (s' & -> & H1 & H2 & H3).
    exists s'. cbn in *. by rw andb_true_r app_nil_r. }
  rw /on_metrics /on_own /mmodify /retryRefund. set (s1 := with_own _ _).
  assert ((max_attempts <? attempt + 1)%nat = (7 <? attempt)%nat) as ->.
  { rw /max_attempts. destruct (Nat.ltb_spec 8 (attempt + 1)), (Nat.ltb_spec 7 attempt); lia || done. }
  cbn [orb]. destruct (negb (schedule_set settings) || (7 <? attempt)%nat).
  - destruct (pushTableEvent_ok id hand_id sequence l "table_refund_requires_reconciliation"
      "automatic stack refund retries were exhausted; operator reconciliation is required" s1)
      as (s' & -> & H1 & H2 & H3).
    exists s'. cbn in *. by rw andb_true_r app_nil_r.
  - eexists. split; [done|]. cbn. by rw andb_false_r app_nil_r.
Qed.

(** C4: no request is lost and none is answered twice. In every state the service
    can reach, each request received has been answered at most once; if it has
    not been answered yet, it is held by a task of the storage queue or by a
    callback; a callback in turn is kept by its room, in a queued task or ready
    to be called; so once all queues are empty every request has exactly one
    answer. *)
Theorem requests_answered_once s0 s :
  fresh_service settings N max s0 → service_run settings s0 s →
  NoDup (sent (out s)).*1 ∧
  (∀ n, n ∈ (sent (out s)).*1 → (n < requests (out s))%nat) ∧
  (∀ n, (n < requests (out s))%nat → n ∉ (sent (out s)).*1 → n ∈ waiting_sends s) ∧
  (∀ n k, continuations (own s) !! n = Some k →
     n ∈ task_tags (queued (executor_ (rooms s))) ∨ ∃ r, (n, r) ∈ replies (rooms s)) ∧
  (be_tasks (storage s) = [] → continuations (own s) = ∅ →
     (sent (out s)).*1 ≡ₚ seq 0 (requests (out s))).
Proof.
  intros Hf Hrun. destruct (run_idle s0 s Hf Hrun) as (D & Hs).
  pose proof (si_sends _ _ _ _ _ _ _ Hs) as Hsends. rw app_nil_l in Hsends.
  assert (NoDup (waiting_sends s ++ (sent (out s)).*1)) as Hnd.
  { rw -Hsends. apply NoDup_seq. }
  assert (∀ n, n ∈ waiting_sends s ++ (sent (out s)).*1 ↔ (n < requests (out s))%nat) as Hin.
  { intros n. rw -Hsends elem_of_seq. lia. }
  split_and!.
  - by apply NoDup_app in Hnd as (_ & _ & ?).
  - intros n Hn. apply Hin, elem_of_app. by right.
  - intros n Hn Hno. by apply Hin, elem_of_app in Hn as [?|?].
  - intros n k Hk. destruct (si_rooms _ _ _ _ _ _ _ Hs) as (sub & Hr & Hsub).
    pose proof (Hsub n (mk_is_Some _ _ Hk)) as Hn. pose proof (ri_tags _ _ _ Hr) as Htags.
    cbn in Htags. rw Htags in Hn. apply elem_of_app in Hn as [Hn|([? r] & -> & Hn)%list_elem_of_fmap]; [by left|].
    right. by exists r.
  - intros Ht Hc. rw Hsends /waiting_sends /waiting_conts Ht Hc. done.
Qed.

(** C23: commands are not left half done by an exception or undefined behaviour.
    In every state the service can reach, the end of a connection, the body of the
    storage task about to run, of every callback that can be called, of every timer
    and of the task a room would run next return normally. [handle] on a
    connection's session returns normally too, or it is undefined because the
    request is to open a table and twice its small blind is more than a signed 64-bit
    integer holds; a request that opens no table, or one with blinds that fit,
    always returns. *)
Theorem bodies_return s0 s :
  fresh_service settings N max s0 → service_run settings s0 s →
  (∀ request session, is_Some (sessions_heap (own s) !! session) →
     let outcome := handle settings request session (requests (out s)) (receive s) in
     (∃ s', outcome = (Ok tt, s')) ∨ (outcome.1 = Undef ∧ overflowing request)) ∧
  (∀ session, is_Some (sessions_heap (own s) !! session) → ∃ s', onDisconnect session s = (Ok tt, s')) ∧
  (∀ task rest w e, be_tasks (storage s) = task :: rest → worker_step w (storage s) = Some e →
     ∃ s', run_storage_task settings task (with_storage e s) = (Ok tt, s')) ∧
  (∀ n k r, continuations (own s) !! n = Some k →
     ∃ s', run_continuation settings k r (take_continuation n s) = (Ok tt, s')) ∧
  (∀ i d t, timers (out s) !! i = Some (d, t) → ∃ s', fire settings t (take_timer i s) = (Ok tt, s')) ∧
  (∀ i deck task e, good_deck deck → next_ deck = 0%nat → take_task i (executor_ (rooms s)) = Some (task, e) →
     ∃ m, run_one i deck (rooms s) = Some m).
Proof.
  intros Hf Hrun. destruct (run_idle s0 s Hf Hrun) as (D & Hs).
  assert (∀ (m : M Server unit) s L O, service_inv settings N (stores s0) D s L O →
    triple settings N (stores s0) D L O m (λ _, []) (λ _, []) → ∃ s', m s = (Ok tt, s')) as Hret.
  { intros m s1 L O Hs1 Hm. destruct (wp_inv _ _ _ (Hm s1 Hs1)) as ([] & s' & Heq & _). by exists s'. }
  assert (∀ session, is_Some (sessions_heap (own s) !! session) → session ∈ D) as Hd.
  { intros session. rw -elem_of_dom. by rw (si_dom _ _ _ _ _ _ _ Hs). }
  split_and!.
  - intros request session Hse. cbv zeta.
    destruct (handle_unless settings N (stores s0) D clock_in_range request session _ (Hd _ Hse) _ (inv_receive _ _ _ _ _ Hs))
      as [Hwp|Hu]; [left|by right].
    destruct (wp_inv _ _ _ Hwp) as ([] & s' & Heq & _). by exists s'.
  - intros session Hse. eapply Hret; [done|]. apply triple_onDisconnect; [done|by apply Hd].
  - intros task rest w e Ht Hw. destruct (inv_take_task _ _ _ _ _ _ _ _ _ Hs Ht Hw) as [_ Hs'].
    destruct (si_tasks _ _ _ _ _ _ _ Hs task) as [Hok Hin]; [rw Ht; by left|].
    eapply Hret; [done|]. by apply triple_run_storage_task.
  - intros n k r Hk. eapply Hret; [by apply inv_take_continuation|]. apply triple_run_continuation; [done|].
    by apply (si_conts _ _ _ _ _ _ _ Hs n k).
  - intros i d t Ht. eapply Hret; [by apply inv_take_timer|]. apply (triple_fire _ _ _ _ clock_in_range d).
    apply (si_timers _ _ _ _ _ _ _ Hs). by eapply list_elem_of_lookup_2.
  - intros i deck task e Hg Hn Ht. destruct (si_rooms _ _ _ _ _ _ _ Hs) as (sub & Hr & _).
    eapply run_one_returns; try done. intros room _.
    apply take_task_queued in Ht as [Hq _]. pose proof (si_queue _ _ _ _ _ _ _ Hs _ Hq) as Hop.
    destruct (tk_op task); try done. cbn in Hop. by rw Hop.
Qed.

(** C22: at most one command that writes to the store is under way per table. The
    tables marked active are exactly those of the operations that waiting tasks
    and callbacks hold, each held once; two of them never share a table; when
    nothing waits no table is marked, so no command stays locked out; and a
    command for a marked table is answered with a conflict and does nothing
    else. *)
Theorem table_fence s0 s :
  fresh_service settings N max s0 → service_run settings s0 s →
  let table n := op_table_id <$> operations_heap (own s) !! n in
  NoDup (waiting_ops s) ∧
  (∀ id, id ∈ active_table_operations_ (own s) ↔ ∃ n, n ∈ waiting_ops s ∧ table n = Some id) ∧
  (∀ n n', n ∈ waiting_ops s → n' ∈ waiting_ops s → table n = table n' → n = n') ∧
  (be_tasks (storage s) = [] → continuations (own s) = ∅ → active_table_operations_ (own s) = ∅) ∧
  (∀ id u request send k, id ∈ active_table_operations_ (own s) →
     with_operation id u request send k s =
     fail request CONFLICT "another table command is awaiting persistence" send (Some u) s).
Proof.
  intros Hf Hrun table. destruct (run_idle s0 s Hf Hrun) as (D & Hs).
  assert (∀ n, n ∈ waiting_ops s ↔ ∃ t, operations_heap (own s) !! n = Some (mkOperation true t)) as Hlive.
  { exact (si_live _ _ _ _ _ _ _ Hs). }
  assert (∀ id, id ∈ active_table_operations_ (own s) ↔ ∃ n, n ∈ waiting_ops s ∧ table n = Some id) as Hact.
  { intros id. rw (si_active _ _ _ _ _ _ _ Hs id). split.
    - intros (n & Hn). exists n. rw Hlive /table Hn. split; [by exists id|done].
    - intros (n & Hn & Ht). exists n. apply Hlive in Hn as (t & Hn). rw /table Hn in Ht. by injection Ht as <-. }
  split_and!.
  - exact (si_ops _ _ _ _ _ _ _ Hs).
  - exact Hact.
  - intros n n' (t & Hn)%Hlive (t' & Hn')%Hlive. rw /table Hn Hn'. intros [= <-].
    exact (si_unique _ _ _ _ _ _ _ Hs n n' t Hn Hn').
  - intros Ht Hc. apply set_eq. intros id. rw Hact /waiting_ops /waiting_conts Ht Hc.
    split; [|by intros ?%elem_of_empty]. intros (n & Hn & _). by apply elem_of_nil in Hn.
  - intros id u request send k Hid. rw /with_operation /mbind /M_bind /beginTableOperation.
    destruct (Z.eqb_spec id 0) as [|_]; [done|]. by rw bool_decide_eq_true_2.
Qed.

(** C7: the components keep their own promises inside the service. Whatever runs
    here and at the other users of the stores, the stores stay well formed, no wallet
    disappears, and the chips in wallets and on tables are those of the beginning and
    what each wallet opened since was granted on registration; the table of every
    room is one that table operations can reach from a configuration with
    blinds that fit, so the theorems on reachable tables apply to it; and no room is
    asked to abort a hand in a way that could run, or given a deck. *)
Theorem components_kept s0 s :
  fresh_service settings N max s0 → service_run settings s0 s →
  st_inv (stores s) ∧ st_wallets (stores s0) ≤ st_wallets (stores s) ∧
  st_chips (stores s) =
    st_chips (stores s0) + initial_chips (auth settings) * (st_wallets (stores s) - st_wallets (stores s0)) ∧
  (∀ r room, heap (rooms s) !! r = Some room →
     (∃ table_config, reachable table_config (room_table room) ∧ blinds_fit table_config) ∧ inv (room_table room)) ∧
  (∀ t, t ∈ queued (executor_ (rooms s)) → service_op (tk_op t) (tk_callback t)).
Proof.
  intros Hf Hrun. destruct (run_idle s0 s Hf Hrun) as (D & Hs).
  destruct (si_stores _ _ _ _ _ _ _ Hs) as [Hg Hc]. pose proof (fresh_stores _ _ _ _ Hf) as H0.
  split_and!; [done|by apply (og_wallets _ _ _ Hc)|by apply (og_chips _ _ _ Hc)| |exact (si_queue _ _ _ _ _ _ _ Hs)].
  intros r room Hr. destruct (si_rooms _ _ _ _ _ _ _ Hs) as (sub & Hrooms & _).
  destruct (ri_heap _ _ _ Hrooms r room Hr) as (_ & Hconf). split; [|by eapply configured_inv].
  destruct Hconf as (c & Hfit & Hreach). by exists c.
Qed.

(** The seconds before the attempts of a deferred refund. *)
Definition refund_delays : list Z := [1; 2; 4; 8; 16; 32; 32; 32].

(** Deferred refunds are tried at most eight times, after 1, 2, 4, 8, 16, 32,
    32 and 32 seconds, in every state the service can reach; every other timer
    waits the action timeout. A failed attempt schedules the next one, and after
    the last one (or without a scheduler) each affected player is told that an
    operator has to step in. *)
Lemma refunds_bounded s0 s :
  fresh_service settings N max s0 → service_run settings s0 s →
  (∀ d id hand_id sequence l attempt, (d, TimerRefund id hand_id sequence l attempt) ∈ timers (out s) →
     (1 ≤ attempt)%nat ∧ refund_delays !! (attempt - 1)%nat = Some (d / 1000) ∧ d `mod` 1000 = 0) ∧
  (∀ d id p expected action, (d, TimerTimeout id p expected action) ∈ timers (out s) →
     d = sc_action_timeout_ms (config settings)) ∧
  (∀ id hand_id sequence l attempt e w', gs_abortTableAndRefund id (stores s) = (e, w') →
     ∃ s', run_refund settings id hand_id sequence l attempt s = (Ok tt, s') ∧ stores s' = w' ∧
       timers (out s') = timers (out s) ++
         (if bool_decide (e = Storage_ok) || negb (schedule_set settings) || (7 <? attempt)%nat then []
          else [(retry_delay (attempt + 1), TimerRefund id hand_id sequence l (attempt + 1))]) ∧
       (pushed (out s')).*1 = (pushed (out s)).*1 ++
         (if push_set settings && (bool_decide (e = Storage_ok) || negb (schedule_set settings) || (7 <? attempt)%nat)
          then l else [])).
Proof.
  intros Hf Hrun. destruct (run_idle s0 s Hf Hrun) as (D & Hs).
  pose proof (si_timers _ _ _ _ _ _ _ Hs) as Hok. split_and!.
  - intros * Hin. destruct (Hok _ Hin) as [Ha Hd]. cbn in Hd. subst d.
    do 9 (destruct attempt as [|attempt]; [first [lia|split_and!; [lia|by vm_compute..]]|]).
    rw /max_attempts in Ha. lia.
  - intros * Hin. exact (Hok _ Hin).
  - intros *. intros Hg. exact (run_refund_ok id hand_id sequence l attempt e w' s Hg).
Qed.

(** A message that needs an authenticated connection, other than a
    reconnection. *)
Definition is_command (type : MessageType) : bool :=
  match type with
  | REGISTER_REQUEST | LOGIN_REQUEST | AUTHENTICATE_SESSION_REQUEST | HEARTBEAT | RECONNECT_REQUEST => false
  | _ => true
  end.

(** Nothing has happened but one answer; [m] are the rooms afterwards. *)
Definition only_answered (send : nat) (e : Envelope) (m : RoomManager) s s' : Prop :=
  sent (out s') = sent (out s) ++ [(send, e)] ∧ pushed (out s') = pushed (out s) ∧
  timers (out s') = timers (out s) ∧ stores s' = stores s ∧ crypto s' = crypto s ∧
  registry s' = registry s ∧ rooms s' = m ∧ storage s' = storage s ∧
  operations_heap (own s') = operations_heap (own s) ∧
  active_table_operations_ (own s') = active_table_operations_ (own s).

Definition error_answer (request : Envelope) (code : ErrorCode) (text : string) : Envelope :=
  answering (request_id request) (message ERROR_RESPONSE (Error_response code text (request_id request))).

Lemma fail_only request code text send s :
  ∃ s', fail request code text send None s = (Ok tt, s') ∧
    only_answered send (error_answer request code text) (rooms s) s s'.
Proof. rw /fail. destruct (bool_decide _); (eexists; split; [done|]); by split_and!. Qed.

(** What a refused request is answered with. *)
Definition refusal_answer (request : Envelope) (d : RequestDecision) : Envelope :=
  default (error_answer request (refusal_of (rd_status d)).1 (refusal_of (rd_status d)).2)
    (if bool_decide (rd_status d = Req_duplicate) then response ← rd_cached d; ParseFromArray response
     else None).

Lemma beginRequest_refused u request send d c s :
  cache_begin u (request_id request) (client_sequence request) (idempotency_ (own s)) = (d, c) →
  rd_status d ≠ Req_accepted →
  ∃ s', beginRequest u request send s = (Ok false, s') ∧
    only_answered send (refusal_answer request d) (rooms s) s s'.
Proof.
  intros Hb Hd. rw /beginRequest /mbind /M_bind /on_cache Hb. rw bool_decide_eq_false_2 //.
  rw /refusal_answer. destruct (if bool_decide _ then _ else _) as [e|]; cbn [default].
  - eexists. split; [done|]. by split_and!.
  - destruct (refusal_of (rd_status d)) as [code text]. cbn [fst snd].
    set (s1 := with_own _ s). destruct (fail_only request code text send s1) as (s' & -> & H').
    by exists s'.
Qed.

Lemma handle_is_command request session send s :
  protocol_version request = 1 → 0 < request_id request ≤ i64_max → is_command (message_type request) = true →
  handle settings request session send s = handle_command settings request session send s.
Proof.
  intros Hv Hr Ht. rw /handle Hv /=. destruct (Z.eqb_spec (request_id request) 0) as [|_]; [lia|].
  destruct (Z.ltb_spec i64_max (request_id request)) as [|_]; [lia|]. cbn [orb].
  by destruct (message_type request).
Qed.

(** C25: nothing happens on behalf of a connection that may not ask for it. A
    command over a connection without a user, or whose session has expired, is
    answered with one authentication error; one whose number the cache does not
    accept is answered with the response already given, or with the reason; and
    in all these cases the accounts, the registry, the store, the rooms and the
    queues are left alone, but for an expired user being marked as
    disconnected. *)
Theorem commands_gated request session send x s :
  protocol_version request = 1 → 0 < request_id request ≤ i64_max →
  is_command (message_type request) = true → sessions_heap (own s) !! session = Some x →
  let answered e m := ∃ s', handle settings request session send s = (Ok tt, s') ∧ only_answered send e m s s' in
  (cs_user_id x = None →
     answered (error_answer request UNAUTHENTICATED "login or reconnect is required before this command")
       (rooms s)) ∧
  (∀ u, cs_user_id x = Some u → cs_expires_at x ≤ (clock_now (clock s)).1 →
     answered (error_answer request UNAUTHENTICATED "session expired; login again")
       (match cs_table_id x with
        | Some id => (call id (OpSetConnected u false) (Some (next_ref (own s))) (rooms s)).2
        | None => rooms s
        end)) ∧
  (∀ u d c, cs_user_id x = Some u → (clock_now (clock s)).1 < cs_expires_at x →
     cache_begin u (request_id request) (client_sequence request) (idempotency_ (own s)) = (d, c) →
     rd_status d ≠ Req_accepted → answered (refusal_answer request d) (rooms s)).
Proof.
  intros Hv Hr Ht Hx. cbv zeta. rw handle_is_command // /handle_command /authorize.
  rw /mbind /M_bind /read_session Hx. split_and!.
  - intros ->. cbn [when mret M_ret].
    destruct (fail_only request UNAUTHENTICATED "login or reconnect is required before this command" send s)
      as (s' & Hf & Ho). rw /mret /M_ret Hf. by exists s'.
  - intros u -> Hle. rw /nowUnixMs. destruct (clock_now (clock s)) as [now k]. cbn [fst] in Hle.
    rw /mret /M_ret. replace (cs_expires_at x <=? now) with true by (symmetry; lia). cbn [when].
    rw /update_session /on_own /mmodify. destruct (cs_table_id x) as [id|].
    + rw /disconnect_from /room_call. set (s1 := with_rooms _ _).
      destruct (fail_only request UNAUTHENTICATED "session expired; login again" send s1) as (s' & -> & Ho).
      by exists s'.
    + set (s1 := with_own _ _).
      destruct (fail_only request UNAUTHENTICATED "session expired; login again" send s1) as (s' & -> & Ho).
      by exists s'.
  - intros u d c -> Hlt Hb Hd. rw /nowUnixMs. destruct (clock_now (clock s)) as [now k]. cbn [fst] in Hlt.
    rw /mret /M_ret. replace (cs_expires_at x <=? now) with false by (symmetry; lia). cbn [when].
    destruct (beginRequest_refused u request send d c (with_clock k s) Hb Hd) as (s' & Hbr & Ho).
    rw /mret /M_ret Hbr. by exists s'.
Qed.
End theorems.
