(* ===== verification/ProtocolDemo.v ===== *)
(** * A run of the whole service

    The in-memory components put together, and two users who register, log in,
    open a table, sit down, play a hand and leave, computed step by step; the
    theorems of [ProtocolTheorems] applied to what comes out. *)
From S2P Require Import Prelude Card Deck HandEvaluator Metrics ServerConfig Table TableInv TableLife TableTheorems AccountStore Auth GameStore GameStoreLib GameStoreInv GameStoreSpec GameStoreTheorems IdempotencyCache RoomExecutor RoomManager RoomTheorems BlockingExecutor Cluster Protocol ProtocolService ProtocolInv ProtocolBodies ProtocolRuns ProtocolTheorems.

Module ProtocolDemo.
(** ** The parameters *)

(** A clock that stops at last; tokens that count up; a wire format that keeps
    the number of the request and knows two requests of clients. *)
#[local] Instance slow : Clock Z := λ k, (Z.min k 1000000, k + 1).
#[local] Instance demo_crypto : CryptoProvider nat := {
  hashPassword p c := (Ok ("h" ++ p)%string, c);
  verifyPassword p h := String.eqb ("h" ++ p) h;
  generateSessionToken c := (String.String (Ascii.ascii_of_nat (65 + c)) "", Datatypes.S c);
  hashSessionToken t := ("k" ++ t)%string;
}.
#[local] Instance demo_returns : CryptoReturns nat.
Proof. intros p c _. by eexists _, _. Qed.
#[local] Instance demo_codec : EnvelopeCodec := {
  SerializeToString e := [request_id e];
  ParseFromArray l :=
    match l with
    | [r] => Some (answering r (message COMMAND_ACK (Command_ack true "again")))
    | [r; 1] => Some (mkEnvelope 1 r 0 REGISTER_REQUEST "" 0 0 0 (Register_request "carol" "correct horse"))
    | [r; 2] => Some (mkEnvelope 1 r 0 HEARTBEAT "" 0 0 0 (Heartbeat_body 5 0))
    | _ => None
    end;
}.

Definition node : ServerConfig :=
  mkServerConfig Role_standalone "game-1" "127.0.0.1:7000" "0.0.0.0" 7000 "0.0.0.0" 9100 4 1 20000 45000
    15000 1048576 4194304 100 200 3600 (mkMySql "127.0.0.1" 3306 "poker" "x" "poker" 8 5)
    (mkRedis "127.0.0.1" 6379 "" 0 2000).
Definition demo : Settings :=
  mkSettings node (mkAuthService 3600 5000 "hnot-a-real-user-password") LobbyRouter_default true true.

Notation DemoServer := (Server MemoryStores nat (InMemoryNodeRegistry Z) Z).

Lemma slow_in_range (k : Z) : (clock_now k).1 + session_ttl_seconds (auth demo) * 1000 ≤ i64_max.
Proof. cbn. rw /i64_max. lia. Qed.

Definition s0 : DemoServer :=
  mkServer (Accounts_new, Games_new) 0%nat
    (heartbeat (mkNode "game-1" "127.0.0.1:7000" 0 0) 100000 (Registry_new 0)).2 0
    (mkManager ∅ ∅ 0 (mkExecutor 64 [mkShard [] false]) [])
    (mkBlocking 64 [] [Waiting] false) (fresh_own (mkCache 64 ∅)) fresh_out.

Lemma s0_fresh : fresh_service demo 1 64 s0.
Proof. split; [apply (GamesDemo.games_after_inv [])|done|done|by eexists|done]. Qed.

(** ** Schedules *)

Inductive Move :=
  | Connect
  | Request (e : Envelope) (session : nat)
  | Storage
  | Rooms
  | Callback
  | TimerAt (i : nat).

Definition ok_state (r : result () * DemoServer) : option DemoServer :=
  match r with (Ok tt, s) => Some s | _ => None end.

(** The first callback that is ready. *)
Definition ready_callback (s : DemoServer) : option (nat * Reply * Continuation) :=
  head (omap (λ '(n, r), k ← continuations (own s) !! n; Some (n, r, k)) (replies (rooms s))).

Definition move (m : Move) (s : DemoServer) : option DemoServer :=
  match m with
  | Connect => Some (connect s)
  | Request e session =>
      match sessions_heap (own s) !! session with
      | Some _ => ok_state (handle demo e session (requests (out s)) (receive s))
      | None => None
      end
  | Storage =>
      match be_tasks (storage s), worker_step 0 (storage s) with
      | task :: _, Some e =>
          s' ← ok_state (run_storage_task demo task (with_storage e s));
          e' ← finish_task 0 (storage s'); Some (with_storage e' s')
      | _, _ => None
      end
  | Rooms => m ← run_one 0 Demo.deck (rooms s); Some (with_rooms m s)
  | Callback =>
      '(n, r, k) ← ready_callback s; ok_state (run_continuation demo k r (take_continuation n s))
  | TimerAt i => '(d, t) ← timers (out s) !! i; ok_state (fire demo t (take_timer i s))
  end.

Lemma ok_state_Some r s : ok_state r = Some s → r = (Ok tt, s).
Proof. by destruct r as [[[]| |] s']; intros [= ->]. Qed.

Definition is_inner (m : Move) : Prop := match m with Connect | Request _ _ => False | _ => True end.

Lemma move_inner_step m s s' : is_inner m → move m s = Some s' → inner_step demo s s'.
Proof.
  destruct m; cbn; intros Hm; try done.
  - destruct (be_tasks (storage s)) as [|task rest] eqn:Ht; [done|].
    destruct (worker_step 0 (storage s)) as [e|] eqn:Hw; [|done].
    intros (s1 & Hs1%ok_state_Some & (e' & He & [= <-])%bind_Some)%bind_Some. by eapply step_storage.
  - intros (r & Hr & [= <-])%bind_Some. eapply step_room; [apply Demo.deck_good|done|done].
  - intros ([[n r] k] & Hr & Hs%ok_state_Some)%bind_Some. rw /ready_callback in Hr.
    apply head_Some_elem_of in Hr. apply list_elem_of_omap in Hr as ([n' r'] & Hin & Hk).
    apply bind_Some in Hk as (k' & Hk & [= <- <- <-]). by eapply step_callback.
  - intros ([d t] & Ht & Hs%ok_state_Some)%bind_Some. by eapply step_timer.
Qed.

Lemma move_step m s s' : move m s = Some s' → service_step demo s s'.
Proof.
  intros Hs. assert (is_inner m → service_step demo s s') as Hinner.
  { intros Hm. by apply step_inner, (move_inner_step m). }
  destruct m as [|e session| | | |i]; try by apply Hinner.
  - injection Hs as <-. apply step_connect.
  - cbn in Hs. destruct (sessions_heap (own s) !! session) eqn:Hse; [|done]. apply ok_state_Some in Hs.
    by eapply step_request.
Qed.

Fixpoint moves (ms : list Move) (s : DemoServer) : option DemoServer :=
  match ms with
  | [] => Some s
  | m :: ms => s' ← move m s; moves ms s'
  end.

Lemma run_trans s1 s2 s3 : service_run demo s1 s2 → service_run demo s2 s3 → service_run demo s1 s3.
Proof. intros H12. induction 1; [done|by eapply run_next]. Qed.

Lemma moves_run ms s s' : moves ms s = Some s' → service_run demo s s'.
Proof.
  revert s. induction ms as [|m ms IH]; intros s; cbn; [intros [= <-]; apply run_start|].
  intros (s1 & H1%move_step & H2%IH)%bind_Some. eapply run_trans; [|done].
  eapply run_next; [apply run_start|done].
Qed.

(** Everything that can run without a request or a timer. *)
Fixpoint settle (fuel : nat) (s : DemoServer) : DemoServer :=
  match fuel with
  | O => s
  | S fuel =>
      match move Storage s with
      | Some s' => settle fuel s'
      | None => match move Rooms s with
                | Some s' => settle fuel s'
                | None => match move Callback s with Some s' => settle fuel s' | None => s end
                end
      end
  end.

Lemma settle_run fuel s : service_run demo s (settle fuel s).
Proof.
  revert s. induction fuel as [|fuel IH]; intros s; cbn [settle]; [apply run_start|].
  assert (∀ m s', move m s = Some s' → service_run demo s (settle fuel s')) as Hm.
  { intros m s' Hs'. eapply run_trans; [|apply IH]. eapply run_next; [apply run_start|by eapply move_step]. }
  repeat case_match; by eauto using run_start.
Qed.

(** A message, after which the service settles. *)
Definition ask (e : Envelope) (session : nat) (s : DemoServer) : DemoServer :=
  settle 60 (default s (move (Request e session) s)).

Lemma ask_run e session s : service_run demo s (ask e session s).
Proof.
  rw /ask. destruct (move _ s) as [s'|] eqn:Hm; cbn [default]; [|apply settle_run].
  eapply run_trans; [|apply settle_run]. eapply run_next; [apply run_start|by eapply move_step].
Qed.

Definition command (id sequence : Z) (type : MessageType) (b : Body) : Envelope :=
  mkEnvelope 1 id sequence type "" 0 0 0 b.

(** A fold of steps that a preorder relates is related. *)
Lemma foldl_related {X Y} (P : Y → Y → Prop) (f : Y → X → Y) :
  (∀ y, P y y) → (∀ y1 y2 y3, P y1 y2 → P y2 y3 → P y1 y3) → (∀ y x, P y (f y x)) →
  ∀ l y, P y (foldl f y l).
Proof. intros Hr Ht Hf l. induction l as [|x l IH]; intros y; cbn; [done|]. exact (Ht _ _ _ (Hf y x) (IH _)). Qed.

Definition ask_one (s : DemoServer) (q : Envelope * nat) : DemoServer := ask q.1 q.2 s.
Definition after (l : list (Envelope * nat)) (s : DemoServer) : DemoServer := foldl ask_one s l.

Lemma after_run l s : service_run demo s (after l s).
Proof.
  refine (foldl_related (service_run demo) ask_one _ run_trans _ l s); [exact (run_start demo)|].
  intros y x. exact (ask_run x.1 x.2 y).
Qed.

(** ** The script *)

Definition opened : DemoServer := connect (connect s0).

(** Alice and Bobby register and log in, Alice opens a table, both sit down and
    are ready, and Alice calls. *)
Definition arriving : list (Envelope * nat) :=
  [(command 1 0 REGISTER_REQUEST (Register_request "alice" "correct horse"), 0%nat);
   (command 1 0 REGISTER_REQUEST (Register_request "bobby" "battery staple"), 1%nat);
   (command 2 0 LOGIN_REQUEST (Login_request "alice" "correct horse"), 0%nat);
   (command 2 0 LOGIN_REQUEST (Login_request "bobby" "battery staple"), 1%nat);
   (command 3 1 CREATE_TABLE_REQUEST (Create_table_request (mkCreateTable "" 6 50 100 1000 5000)), 0%nat);
   (command 3 1 JOIN_TABLE_REQUEST (Join_table_request 1000), 1%nat)].
Definition sit : Envelope := command 4 2 SIT_DOWN_REQUEST (Sit_down_request (mkSitDown 1000 0 2000 "C")).
Definition playing : list (Envelope * nat) :=
  [(sit, 0%nat);
   (command 4 2 SIT_DOWN_REQUEST (Sit_down_request (mkSitDown 1000 1 2000 "D")), 1%nat);
   (command 5 3 READY_REQUEST (Ready_request (mkReady 1000 true)), 0%nat);
   (command 5 3 READY_REQUEST (Ready_request (mkReady 1000 true)), 1%nat);
   (command 6 4 ACTION_REQUEST (Action_request (mkActionRequest 1000 1 CALL 0)), 0%nat)].
Definition fold_by_bobby : Envelope :=
  command 6 4 ACTION_REQUEST (Action_request (mkActionRequest 1000 1 FOLD 0)).
(** Bobby folds, and sends the same request again; both leave. *)
Definition leaving : list (Envelope * nat) :=
  [(fold_by_bobby, 1%nat);
   (fold_by_bobby, 1%nat);
   (command 7 5 LEAVE_TABLE_REQUEST (Leave_table_request 1000), 0%nat);
   (command 7 5 LEAVE_TABLE_REQUEST (Leave_table_request 1000), 1%nat)].

Definition arrived : DemoServer := Eval vm_compute in after arriving opened.
Definition called : DemoServer := Eval vm_compute in after playing arrived.
(** Bobby does not answer in time: the second timer fires. *)
Definition timed_out : DemoServer := Eval vm_compute in settle 60 (default called (move (TimerAt 1) called)).
Definition left_table : DemoServer := Eval vm_compute in after leaving timed_out.

Lemma arrived_run : service_run demo s0 arrived.
Proof.
  assert (arrived = after arriving opened) as -> by by vm_compute.
  eapply run_trans; [|apply after_run]. eapply run_next; [|apply step_connect].
  eapply run_next; [apply run_start|apply step_connect].
Qed.

Lemma called_run : service_run demo s0 called.
Proof.
  assert (called = after playing arrived) as -> by by vm_compute.
  eapply run_trans; [apply arrived_run|apply after_run].
Qed.

Lemma timed_out_run : service_run demo s0 timed_out.
Proof.
  eapply run_trans; [apply called_run|].
  assert (timed_out = settle 60 (default called (move (TimerAt 1) called))) as -> by by vm_compute.
  eapply run_trans; [|apply settle_run].
  destruct (move (TimerAt 1) called) as [s'|] eqn:Hm; cbn [default]; [|apply run_start].
  eapply run_next; [apply run_start|by eapply move_step].
Qed.

Lemma left_run : service_run demo s0 left_table.
Proof.
  assert (left_table = after leaving timed_out) as -> by by vm_compute.
  eapply run_trans; [apply timed_out_run|apply after_run].
Qed.

(** The kinds of the answers, in order; the hand went to Alice. *)
Example answers :
  (λ '(n, e), (n, message_type e)) <$> sent (out left_table) =
  [(0%nat, REGISTER_RESPONSE); (1%nat, REGISTER_RESPONSE); (2%nat, LOGIN_RESPONSE);
   (3%nat, LOGIN_RESPONSE); (4%nat, CREATE_TABLE_RESPONSE); (5%nat, JOIN_TABLE_RESPONSE);
   (6%nat, TABLE_SNAPSHOT); (7%nat, TABLE_SNAPSHOT); (8%nat, TABLE_SNAPSHOT); (9%nat, TABLE_SNAPSHOT);
   (10%nat, TABLE_SNAPSHOT); (11%nat, TABLE_SNAPSHOT); (12%nat, COMMAND_ACK); (13%nat, COMMAND_ACK);
   (14%nat, COMMAND_ACK)] ∧
  wallets (stores left_table).2 !! 1 = Some 5100 ∧ wallets (stores left_table).2 !! 2 = Some 4900.
Proof. by vm_compute. Qed.

(** Alice comes back over a new connection, and her client counts its requests
    from the start. Sitting down with number 4 is refused, because the ledger
    knows the key of her first buy-in; with number 5 she is seated; but her
    leaving with number 7 replays the first payment: she is told that she left,
    and her second stack stays in the store. *)
Definition reconnected : DemoServer := Eval vm_compute in connect left_table.
Definition returning (session : nat) : list (Envelope * nat) :=
  [(command 2 0 LOGIN_REQUEST (Login_request "alice" "correct horse"), session);
   (command 3 1 JOIN_TABLE_REQUEST (Join_table_request 1000), session);
   (command 4 2 SIT_DOWN_REQUEST (Sit_down_request (mkSitDown 1000 0 2000 "F")), session);
   (command 5 3 JOIN_TABLE_REQUEST (Join_table_request 1000), session);
   (command 6 4 SIT_DOWN_REQUEST (Sit_down_request (mkSitDown 1000 0 2000 "G")), session);
   (command 7 5 LEAVE_TABLE_REQUEST (Leave_table_request 1000), session)].
Definition returned : DemoServer := Eval vm_compute in after (returning (next_ref (own left_table))) reconnected.

Example request_numbers_reused :
  (λ '(n, e), body e) <$> sent (out returned) !! 17%nat =
    Some (Error_response CONFLICT "idempotent buy-in does not match the active seat" 4) ∧
  (λ '(n, e), body e) <$> last (sent (out returned)) = Some (Command_ack true "left table") ∧
  wallets (stores returned).2 !! 1 = Some 3100 ∧ seatStack 1000 1 (stores returned).2 = Some 2000.
Proof. vm_compute. done. Qed.

(** ** Applying the theorems *)

Lemma requests_answered_once_witness :
  fresh_service demo 1 64 s0 ∧ service_run demo s0 left_table ∧
  (sent (out left_table)).*1 ≡ₚ seq 0 15.
Proof.
  split; [exact s0_fresh|]. split; [exact left_run|].
  destruct (requests_answered_once demo 1 64 slow_in_range s0 left_table s0_fresh left_run)
    as (_ & _ & _ & _ & Hall).
  exact (Hall ltac:(by vm_compute) ltac:(by vm_compute)).
Defined.

(** Alice asks for a table with blinds that have no double: the check of the request
    is undefined. *)
Definition huge_blinds : Envelope :=
  command 8 6 CREATE_TABLE_REQUEST (Create_table_request (mkCreateTable "" 6 (2 ^ 62) 100 1000 5000)).

Example blinds_overflow :
  overflowing huge_blinds ∧
  (handle demo huge_blinds 0 (requests (out left_table)) (receive left_table)).1 = Undef.
Proof. split; [split; [done|by eexists]|by vm_compute]. Qed.

Lemma bodies_return_witness :
  timers (out called) !! 1%nat = Some (20000, TimerTimeout 1000 2 6 Action_check) ∧
  ∃ s', fire demo (TimerTimeout 1000 2 6 Action_check) (take_timer 1 called) = (Ok tt, s').
Proof.
  split; [by vm_compute|].
  destruct (bodies_return demo 1 64 slow_in_range s0 called s0_fresh called_run) as (_ & _ & _ & _ & Ht & _).
  exact (Ht 1%nat 20000 _ ltac:(by vm_compute)).
Defined.

(** Alice's request to sit down has been handled, its task is still queued. *)
Definition sitting : DemoServer := Eval vm_compute in default arrived (move (Request sit 0) arrived).

Lemma sitting_run : service_run demo s0 sitting.
Proof.
  eapply run_next; [apply arrived_run|]. apply (move_step (Request sit 0)). by vm_compute.
Qed.

Lemma table_fence_witness :
  1000 ∈ active_table_operations_ (own sitting) ∧
  with_operation 1000 2 sit 9 (λ _, mret tt) sitting =
  fail sit CONFLICT "another table command is awaiting persistence" 9 (Some 2) sitting.
Proof.
  assert (1000 ∈ active_table_operations_ (own sitting)) as Hin by by vm_compute.
  split; [exact Hin|].
  destruct (table_fence demo 1 64 slow_in_range s0 sitting s0_fresh sitting_run) as (_ & _ & _ & _ & Hf).
  exact (Hf 1000 2 sit 9%nat (λ _, mret tt) Hin).
Defined.

(** Two users were registered, with 5,000 chips each. *)
Lemma components_kept_witness :
  fresh_service demo 1 64 s0 ∧ service_run demo s0 left_table ∧
  size (wallets (stores left_table).2) = 2%nat ∧ store_chips (stores left_table).2 = 10000.
Proof.
  split; [exact s0_fresh|]. split; [exact left_run|].
  assert (size (wallets (stores left_table).2) = 2%nat) as Hsize by by vm_compute.
  split; [exact Hsize|].
  destruct (components_kept demo 1 64 slow_in_range s0 left_table s0_fresh left_run) as (_ & _ & Hc & _).
  cbn [st_chips st_wallets memory_laws] in Hc. rewrite Hsize in Hc. rewrite Hc. by vm_compute.
Defined.

(** The storage executor is stopped after Alice's call; Bobby's action cannot be
    stored, so the table is closed and a refund is scheduled. *)
Definition stopped : DemoServer := with_storage (blocking_stop (storage called)) called.
Definition refunding : DemoServer :=
  Eval vm_compute in ask (command 6 4 ACTION_REQUEST (Action_request (mkActionRequest 1000 1 CHECK 0))) 1 stopped.

Lemma refunding_run : service_run demo s0 refunding.
Proof.
  assert (refunding = ask (command 6 4 ACTION_REQUEST (Action_request (mkActionRequest 1000 1 CHECK 0))) 1
    stopped) as -> by by vm_compute.
  eapply run_trans; [|apply ask_run]. eapply run_next; [apply called_run|apply step_inner, step_stop_storage].
Qed.

Lemma refunds_bounded_witness :
  timers (out refunding) !! 2%nat = Some (1000, TimerRefund 1000 1 7 [1; 2] 1) ∧
  refund_delays !! 0%nat = Some (1000 / 1000).
Proof.
  assert (timers (out refunding) !! 2%nat = Some (1000, TimerRefund 1000 1 7 [1; 2] 1)) as Ht by by vm_compute.
  split; [exact Ht|].
  destruct (refunds_bounded demo 1 64 slow_in_range s0 refunding s0_fresh refunding_run) as (Hr & _).
  destruct (Hr 1000 1000 1 7 [1; 2] 1%nat (list_elem_of_lookup_2 _ _ _ Ht)) as (_ & Hd & _). exact Hd.
Defined.

(** Bobby's fold again, with its number: the cached answer is sent again. *)
Lemma commands_gated_witness :
  ∃ x, sessions_heap (own left_table) !! 1%nat = Some x ∧ cs_user_id x = Some 2 ∧
  ∃ s', handle demo fold_by_bobby 1 15 left_table = (Ok tt, s') ∧
    only_answered 15 (answering 6 (message COMMAND_ACK (Command_ack true "again"))) (rooms left_table) left_table s'.
Proof.
  eexists. split; [by vm_compute|]. split; [by vm_compute|].
  destruct (commands_gated demo fold_by_bobby 1 15 _ left_table ltac:(done) ltac:(by vm_compute)
    ltac:(done) ltac:(by vm_compute)) as (_ & _ & Hdup).
  exact (Hdup 2 (mkDecision Req_duplicate (Some [6])) _ ltac:(by vm_compute) ltac:(by vm_compute)
    ltac:(by vm_compute) ltac:(done)).
Defined.
End ProtocolDemo.
