(* ===== verification/ProtocolOutput.v ===== *)
(** * What the service sends only gets more

    Every body of the protocol service appends to the logs of what was sent and
    pushed and leaves the number of requests alone, whatever its outcome. *)
From S2P Require Import Prelude Card Deck HandEvaluator Metrics ServerConfig Table AccountStore Auth GameStore IdempotencyCache RoomExecutor RoomManager BlockingExecutor Cluster Protocol ProtocolService.

Definition out_grows (o o' : Output) : Prop :=
  sent o `prefix_of` sent o' ∧ pushed o `prefix_of` pushed o' ∧ requests o' = requests o.

#[export] Instance out_grows_preorder : PreOrder out_grows.
Proof.
  split; [by intros o; split_and!|]. intros o1 o2 o3 (H1 & H2 & H3) (H1' & H2' & H3').
  split_and!; [by etrans..|congruence].
Qed.

Section appends.
  Context {W C R K : Type} `{!AccountStore W, !GameStore W, !CryptoProvider C, !NodeRegistry R}.
  Context `{!Clock K, !EnvelopeCodec}.
  Context (settings : Settings).
  Implicit Types (s : Server W C R K).

Notation Server := (Server W C R K).

Definition appends {X} (m : M Server X) : Prop := ∀ s r s', m s = (r, s') → out_grows (out s) (out s').

Lemma appends_same {X} (m : M Server X) : (∀ s, out (m s).2 = out s) → appends m.
Proof. intros Hm s r s' Heq. specialize (Hm s). rw Heq /= in Hm. by rw Hm. Qed.

Lemma appends_ret {X} (x : X) : appends (mret x).
Proof. by apply appends_same. Qed.

Lemma appends_bind {X Y} (m : M Server X) (f : X → M Server Y) :
  appends m → (∀ x, appends (f x)) → appends (m ≫= f).
Proof.
  intros Hm Hf s r s'. rw /mbind /M_bind. destruct (m s) as [[x|e|] s1] eqn:Heq; [|intros [= <- <-]; by apply (Hm _ _ _ Heq)..].
  intros Hr. etrans; [by apply (Hm _ _ _ Heq)|by apply (Hf x _ _ _ Hr)].
Qed.

Lemma appends_when b m : appends m → appends (when b m).
Proof. destruct b; [done|]. intros _. apply appends_ret. Qed.

Lemma appends_for {X} (l : list X) body : (∀ x, appends (body x)) → appends (mfor l body).
Proof. intros Hb. induction l as [|x l IH]; cbn; [apply appends_ret|by apply appends_bind]. Qed.

Lemma appends_get : appends mget.
Proof. by apply appends_same. Qed.
Lemma appends_auth {X} (m : M (W * C) X) : appends (on_auth m).
Proof. apply appends_same. intros s. rw /on_auth. by destruct (m _) as [r [a c]]. Qed.
Lemma appends_registry {X} (f : R → X * R) : appends (on_registry f).
Proof. apply appends_same. intros s. rw /on_registry. by destruct (f _). Qed.
Lemma appends_router {X} (f : R * C → X * (R * C)) : appends (on_router f).
Proof. apply appends_same. intros s. rw /on_router. by destruct (f _) as [x [r c]]. Qed.
Lemma appends_games {X} (f : W → X * W) : appends (on_games f).
Proof. apply appends_same. intros s. rw /on_games. by destruct (f _). Qed.
Lemma appends_games_result {X} (f : M W X) : appends (on_games_result f).
Proof. apply appends_same. intros s. rw /on_games_result. by destruct (f _). Qed.
Lemma appends_lift {X} (r : result X) : appends (mlift r).
Proof. by apply appends_same. Qed.
Lemma appends_now : appends nowUnixMs.
Proof. apply appends_same. intros s. rw /nowUnixMs. by destruct (clock_now _). Qed.
Lemma appends_own f : appends (on_own f).
Proof. by apply appends_same. Qed.
Lemma appends_cache {X} (f : IdempotencyCache → X * IdempotencyCache) : appends (on_cache f).
Proof. apply appends_same. intros s. rw /on_cache. by destruct (f _). Qed.
Lemma appends_post task : appends (post_storage task).
Proof. apply appends_same. intros s. rw /post_storage. by destruct (blocking_post _ _). Qed.
Lemma appends_room_call id op k : appends (room_call id op k).
Proof. by apply appends_same. Qed.
Lemma appends_room_silent id op : appends (room_call_silent id op).
Proof. by apply appends_same. Qed.
Lemma appends_rooms {X} (f : RoomManager → X * RoomManager) : appends (on_rooms f).
Proof. apply appends_same. intros s. rw /on_rooms. by destruct (f _). Qed.
Lemma appends_send n e : appends (send_out n e).
Proof. intros s r s' [= <- <-]. split_and!; [by eexists|done|done]. Qed.
Lemma appends_push u e : appends (push_out u e).
Proof. intros s r s' [= <- <-]. split_and!; [done|by eexists|done]. Qed.
Lemma appends_schedule d t : appends (schedule_out d t).
Proof. by intros s r s' [= <- <-]. Qed.
Lemma appends_read r : appends (read_session r).
Proof. apply appends_same. intros s. rw /read_session. by destruct (_ !! _). Qed.
Lemma appends_begin id : appends (beginTableOperation id).
Proof. apply appends_same. intros s. rw /beginTableOperation. destruct (id =? 0); [done|]. by case_bool_decide. Qed.
End appends.

Create HintDb appends discriminated.
#[export] Hint Resolve appends_ret appends_get appends_auth appends_registry appends_router appends_games appends_games_result appends_lift appends_now
  appends_own appends_cache appends_post appends_room_call appends_room_silent appends_rooms appends_send appends_push
  appends_schedule appends_read appends_begin : appends.

(** A body is taken apart; a function that no rule covers is unfolded. *)
Ltac unfold_head m :=
  lazymatch m with
  | ?f _ => unfold_head f
  | ?f => unfold f
  end.
Ltac appends_step :=
  first [progress cbv zeta | solve [auto 2 with appends nocore] | case_match | eapply appends_bind; [|intros ?]
        | apply appends_when | apply appends_for; intros ?
        | lazymatch goal with |- appends ?m => unfold_head m end].
Ltac appends := repeat appends_step.

Section bodies.
  Context {W C R K : Type} `{!AccountStore W, !GameStore W, !CryptoProvider C, !NodeRegistry R}.
  Context `{!Clock K, !EnvelopeCodec}.
  Context (settings : Settings).

Notation Server := (Server W C R K).

Lemma appends_fail request code text send user : appends (fail request code text send user : M Server _).
Proof. appends. Qed.
Lemma appends_reply u request response send : appends (reply u request response send : M Server _).
Proof. appends. Qed.
#[local] Hint Resolve appends_fail appends_reply : appends.

Lemma appends_event id hand_id sequence l type text :
  appends (pushTableEvent settings id hand_id sequence l type text : M Server _).
Proof. appends. Qed.
#[local] Hint Resolve appends_event : appends.
Lemma appends_abort id audit reason refund : appends (abortTableAndNotify settings id audit reason refund : M Server _).
Proof. appends. Qed.
Lemma appends_scheduleTimeout id snapshot : appends (scheduleTimeout settings id snapshot : M Server _).
Proof. appends. Qed.
#[local] Hint Resolve appends_abort appends_scheduleTimeout : appends.

Lemma appends_dispatch u request session send : appends (dispatch u request session send : M Server _).
Proof. appends. Qed.
#[local] Hint Resolve appends_dispatch : appends.
Lemma appends_command request session send : appends (handle_command settings request session send : M Server _).
Proof. appends. Qed.
#[local] Hint Resolve appends_command : appends.
Lemma appends_handle request session send : appends (handle settings request session send : M Server _).
Proof. appends. Qed.
#[local] Hint Resolve appends_handle : appends.
Lemma appends_onDisconnect session : appends (onDisconnect session : M Server _).
Proof. appends. Qed.
Lemma appends_storage task : appends (run_storage_task settings task : M Server _).
Proof. appends. Qed.
Lemma appends_continuation k r : appends (run_continuation settings k r : M Server _).
Proof. appends. Qed.
Lemma appends_fire t : appends (fire settings t : M Server _).
Proof. appends. Qed.

Lemma inner_grows (s s' : Server) : inner_step settings s s' → out_grows (out s) (out s').
Proof.
  intros Hstep. destruct Hstep as [w t rest e s s' e' _ _ Hb _|w e s _ _|i deck m s _ _ _|n r k s s' _ _ Hb|i d t s s' _ Hb
    |r s|f s _|s|i s]; try done.
  - exact (appends_storage t _ _ _ Hb).
  - exact (appends_continuation k r _ _ _ Hb).
  - exact (appends_fire t _ _ _ Hb).
Qed.
End bodies.
