(* ===== verification/ServerStack.v ===== *)
(** * The network server over the protocol service

    [apps/server/main.cpp] puts [PokerTcpServer] on top of [ProtocolService]. Here
    the protocol service is shown to keep what the TCP server relies on, so that the
    properties of [TcpTheorems] hold of the real service, and the promises of both
    are put together: a request is answered exactly once, on its own connection. *)
From S2P Require Import Prelude Card Deck HandEvaluator Metrics ServerConfig Table AccountStore Auth GameStore GameStoreSpec IdempotencyCache RoomExecutor RoomManager RoomTheorems BlockingExecutor Cluster Codec TokenBucket Protocol ProtocolService ProtocolInv ProtocolBodies ProtocolRuns ProtocolTheorems ProtocolOutput TcpServer TcpInv TcpDelivery TcpTheorems ProtocolDemo.

Section stack.
  Context {W C R K : Type} `{!AccountStore W, !GameStore W, !CryptoProvider C, !CryptoReturns C, !NodeRegistry R}.
  Context `{!Clock K, !EnvelopeCodec}.
  Context (settings : Settings) `{!StoreLaws W (initial_chips (auth settings))}.
  Implicit Types (s : Server W C R K).

Notation Server := (Server W C R K).

(** What [PokerTcpServer] uses of the service: the sessions it makes and reads,
    [handle], [onDisconnect] and the metrics they share. *)
#[export] Instance protocol_service : SessionService Server := {
  sv_connect s := (next_ref (own s), ProtocolService.connect s);
  sv_user session s := sessions_heap (own s) !! session ≫= cs_user_id;
  sv_requests s := requests (out s);
  sv_handle request session := λ s, handle settings request session (requests (out s)) (receive s);
  sv_disconnect := onDisconnect;
  sv_metrics f s := with_own (with_metrics (f (metrics_ (own s))) (own s)) s;
  sv_sent s := sent (out s);
  sv_pushed s := pushed (out s);
  sv_step := inner_step settings;
}.

Context (N : nat) (stores0 : W).
Context (clock_in_range : ∀ k : K, (clock_now k).1 + session_ttl_seconds (auth settings) * 1000 ≤ i64_max).

Definition known_session (session : nat) (s : Server) : Prop := is_Some (sessions_heap (own s) !! session).

Lemma out_grows_service D s s' :
  service_inv settings N stores0 D s [] [] → service_inv settings N stores0 D s' [] [] →
  out_grows (out s) (out s') → grows known_session s s'.
Proof.
  intros Hs Hs' (H1 & H2 & H3). split_and!; [done|done|cbn; lia|]. intros session.
  rw /known_session -!elem_of_dom (si_dom _ _ _ _ _ _ _ Hs) (si_dom _ _ _ _ _ _ _ Hs') //.
Qed.

#[export] Program Instance protocol_laws : SessionServiceLaws Server := {
  sv_ok := idle settings N stores0;
  sv_known := known_session;
  sv_undefined := overflowing;
}.
Next Obligation.
  intros s session s' Hs [= <- <-]. split; [by apply idle_connect|]. destruct Hs as [D Hs].
  assert (¬ known_session (next_ref (own s)) s) as Hnew.
  { intros Hk. rw /known_session -elem_of_dom (si_dom _ _ _ _ _ _ _ Hs) in Hk.
    assert (next_ref (own s) < next_ref (own s))%nat; [|lia]. apply (si_refs _ _ _ _ _ _ _ Hs). auto. }
  split_and!; [|by rw /known_session /= lookup_insert_eq|done|by rw /= lookup_insert_eq].
  split_and!; [done..|]. intros r Hr. rw /known_session /= lookup_insert_is_Some.
  destruct (decide (next_ref (own s) = r)); [by left|by right].
Qed.
Next Obligation.
  intros s session request [D Hs] Hk. cbn.
  assert (session ∈ D) as Hd by by rw -(si_dom _ _ _ _ _ _ _ Hs) elem_of_dom.
  pose proof (inv_receive _ _ _ _ _ Hs) as Hr.
  destruct (ProtocolBodies.handle_unless settings N stores0 D clock_in_range request session _ Hd _ Hr)
    as [([] & s' & Heq & Hs')%wp_inv|Hu]; [left|by right].
  rw /wp Heq. split; [by exists D|].
  destruct (appends_handle settings request session (requests (out s)) _ _ _ Heq) as (H1 & H2 & H3). cbn in H1, H2, H3.
  split; [|lia]. split_and!; [done|done|cbn; lia|]. intros r.
  rw /known_session -!elem_of_dom (si_dom _ _ _ _ _ _ _ Hs) (si_dom _ _ _ _ _ _ _ Hs') //.
Qed.
Next Obligation.
  intros s session [D Hs] Hk. assert (session ∈ D) as Hd by by rw -(si_dom _ _ _ _ _ _ _ Hs) elem_of_dom.
  destruct (wp_inv _ _ _ (ProtocolBodies.triple_onDisconnect settings N stores0 D clock_in_range session Hd _ Hs))
    as ([] & s' & Heq & Hs').
  exists s'. split; [done|]. split; [by exists D|].
  exact (out_grows_service D s s' Hs Hs' (appends_onDisconnect session _ _ _ Heq)).
Qed.
Next Obligation.
  intros s f [D Hs]. assert (service_inv settings N stores0 D (with_own (with_metrics (f (metrics_ (own s))) (own s)) s) [] []) as Hs'.
  { eapply service_inv_same; [done|]. by split. }
  split; [by exists D|]. exact (out_grows_service D s _ Hs Hs' (reflexivity _)).
Qed.
Next Obligation.
  intros s s' [D Hs] Hstep. pose proof (idle_inner settings N stores0 clock_in_range D s s' Hs Hstep) as Hs'.
  split; [by exists D|]. exact (out_grows_service D s s' Hs Hs' (inner_grows settings s s' Hstep)).
Qed.
Next Obligation.
  intros s [D Hs]. pose proof (si_sends _ _ _ _ _ _ _ Hs) as Hp. rw app_nil_l in Hp.
  assert (NoDup (waiting_sends s ++ (sent (out s)).*1)) as Hnd by (rw -Hp; apply NoDup_seq).
  by apply NoDup_app in Hnd as (_ & _ & ?).
Qed.

(** ** The stack *)

(** The service has nothing left to do, and the network server has passed on what
    it was given. *)
Definition at_rest (w : TcpWorld Server) : Prop :=
  be_tasks (storage (tw_service w)) = [] ∧ continuations (own (tw_service w)) = ∅ ∧
  tw_activities w = [] ∧ tw_answered w = length (sent (out (tw_service w))).

(** At rest, every request received on a connection was answered. *)
Lemma asked_answered w c n :
  world_ok (config settings) w → at_rest w → asked c n w → ∃ e, (n, e) ∈ sent (out (tw_service w)).
Proof.
  intros Hi (Ht & Hk & _ & _) (l & Hl & _). destruct (ti_lambdas _ _ _ Hi n l Hl) as (Hn & _ & _).
  destruct (ti_service _ _ _ Hi) as [D Hs]. pose proof (si_sends _ _ _ _ _ _ _ Hs) as Hp.
  rw /waiting_sends /waiting_conts Ht Hk map_to_list_empty /= in Hp.
  assert (n ∈ (sent (out (tw_service w))).*1) as Hin by (rw -Hp; apply elem_of_seq; cbn in Hn; lia).
  apply list_elem_of_fmap in Hin as ([m e] & -> & Hin). by exists e.
Qed.

Lemma sent_once s n e e' : idle settings N stores0 s → (n, e) ∈ sent (out s) → (n, e') ∈ sent (out s) → e = e'.
Proof.
  intros Hs He He'. pose proof (sv_answers s Hs) as Hnd. cbn in Hnd.
  apply list_elem_of_lookup in He as [i Hi]. apply list_elem_of_lookup in He' as [j Hj].
  assert (i = j) as <-; [|congruence]. eapply NoDup_lookup; [exact Hnd|..]; by rw list_lookup_fmap ?Hi ?Hj.
Qed.

Lemma answer_origin (w : TcpWorld Server) : world_ok (config settings) w →
  ∀ c x n e, tw_connections w !! c = Some x → (Answer n, e) ∈ conn_log x →
    asked c n w ∧ (n, e) ∈ sent (out (tw_service w)).
Proof.
  intros Hi c x n e Hx Hin. destruct (ti_connections _ _ _ Hi c x Hx) as (_ & _ & Hlog & _). exact (Hlog _ _ Hin).
Qed.
End stack.

Section theorems.
  Context {W C R K : Type} `{!AccountStore W, !GameStore W, !CryptoProvider C, !CryptoReturns C, !NodeRegistry R}.
  Context `{!Clock K, !EnvelopeCodec}.
  Context (settings : Settings) `{!StoreLaws W (initial_chips (auth settings))} (N max : nat).
  Context (clock_in_range : ∀ k : K, (clock_now k).1 + session_ttl_seconds (auth settings) * 1000 ≤ i64_max).
  Context (Hconfig : config_ok (config settings)).
  Implicit Types (s : Server W C R K).

#[local] Instance the_service : SessionService (Server W C R K) := protocol_service settings.

(** C5: a request gets one answer, where it came from. Under every interleaving of
    connections, messages, threads of the network server, storage tasks, rooms,
    callbacks, timers and other nodes: an answer sent on a connection is the
    service's answer to a request received on that connection, and over all
    connections each is sent at most once; and when nothing is left to do, every
    request received on a connection that is still up, and was not asked to close,
    has been answered on it, once, and nowhere else. *)
Theorem requests_answered_on_their_connections s0 (w : TcpWorld (Server W C R K)) :
  fresh_service settings N max s0 → tcp_run (config settings) (Tcp_new s0) w →
  NoDup (tw_connections w ≫= log_tags) ∧
  (∀ c x n e, tw_connections w !! c = Some x → (Answer n, e) ∈ conn_log x →
     asked c n w ∧ (n, e) ∈ sent (out (tw_service w))) ∧
  (at_rest w → ∀ c n x, asked c n w → tw_connections w !! c = Some x →
     conn_connected x = true → conn_shutdown x = false →
     ∃ e, (Answer n, e) ∈ conn_log x ∧
       ∀ d y e', tw_connections w !! d = Some y → (Answer n, e') ∈ conn_log y → d = c ∧ e' = e).
Proof.
  intros Hf Hrun. pose proof (run_idle settings N max clock_in_range s0 s0 Hf (run_start settings s0)) as Hok.
  set (laws := protocol_laws settings N (stores s0) clock_in_range).
  assert (sv_sent s0 = []) as Hsent by (cbn; by rw (fresh_output _ _ _ _ Hf)).
  pose proof (run_ok (config settings) Hconfig s0 w Hok Hrun) as Hi.
  destruct (ti_service _ _ _ Hi) as [D Hs].
  pose proof (answer_origin settings N (stores s0) clock_in_range w Hi) as Horigin.
  split_and!; [by eapply answers_once|exact Horigin|].
  intros Hrest c n x Hasked Hx Hup Hopen.
  destruct (asked_answered settings N (stores s0) clock_in_range w c n Hi Hrest Hasked) as [e He].
  destruct Hrest as (_ & _ & Hacts & Hall).
  destruct (answers_delivered (SessionServiceLaws0 := laws) (config settings) Hconfig s0 w n e Hok Hsent Hrun Hacts Hall He) as (l & Hl & y & Hy & Hor).
  destruct Hasked as (l' & Hl' & <-). rw Hl in Hl'. injection Hl' as <-. rw Hx in Hy. injection Hy as <-.
  destruct Hor as [Hin|[Hd|Hd]]; [|congruence..]. exists e. split; [done|].
  intros d y e' Hy Hin'. destruct (Horigin d y n e' Hy Hin') as [(l' & Hl' & <-) He']. rw Hl in Hl'. injection Hl' as <-.
  split; [done|]. symmetry. apply (sent_once settings N (stores s0) clock_in_range (tw_service w) n); [by exists D|done..].
Qed.
End theorems.

(** ** A registration and a heartbeat over TCP *)

Module StackDemo.
#[local] Existing Instances ProtocolDemo.slow ProtocolDemo.demo_crypto ProtocolDemo.demo_returns ProtocolDemo.demo_codec.
#[local] Instance demo_service : SessionService ProtocolDemo.DemoServer := protocol_service ProtocolDemo.demo.

Notation World := (TcpWorld ProtocolDemo.DemoServer).

Definition inner (k : nat) (s : ProtocolDemo.DemoServer) : option ProtocolDemo.DemoServer :=
  ProtocolDemo.move (match k with 0 => ProtocolDemo.Storage | 1 => ProtocolDemo.Rooms | _ => ProtocolDemo.Callback end)%nat s.

Lemma inner_ok k s s' : inner k s = Some s' → sv_step s s'.
Proof. apply ProtocolDemo.move_inner_step. by destruct k as [|[|k]]. Qed.

Lemma demo_config_ok : config_ok (config ProtocolDemo.demo).
Proof. split; by vm_compute. Qed.

Definition frame (id kind : Z) : list Z := [0; 0; 0; 2; id; kind].

(** Two connections; the first one registers an account, the second one sends a
    heartbeat, which is answered first. *)
Definition talk : list Move :=
  [Accept; Accept; Receive 0 (frame 3 1); Run 0; Run 0; Run 0; Run 0; Run 0;
   Receive 1 (frame 4 2); Run 0; Run 0; Run 0; Run 0; Run 0;
   Respond; Run 0; Run 0; Run 0; Run 0; Service 0; Respond; Run 0; Run 0; Run 0; Run 0].

Definition w0 : World := Tcp_new ProtocolDemo.s0.
Definition w1 : World := default w0 (moves ProtocolDemo.node inner talk w0).

Lemma talk_run : tcp_run ProtocolDemo.node w0 w1.
Proof. apply (run_moves ProtocolDemo.node inner inner_ok talk). vm_compute. reflexivity. Qed.

Definition log_types (w : World) : list (list (Origin * MessageType)) :=
  (λ x, (λ e, (e.1, message_type e.2)) <$> conn_log x) <$> tw_connections w.
Example talk_logs : log_types w1 = [[(Answer 0, REGISTER_RESPONSE)]; [(Answer 1, HEARTBEAT)]].
Proof. vm_compute. reflexivity. Qed.

(** The registration was answered on the first connection, the heartbeat on the second. *)
Lemma requests_answered_on_their_connections_witness :
  fresh_service ProtocolDemo.demo 1 64 ProtocolDemo.s0 ∧ tcp_run ProtocolDemo.node w0 w1 ∧ at_rest w1 ∧ asked 1 1 w1 ∧
  ∃ x e, tw_connections w1 !! 1%nat = Some x ∧ (Answer 1, e) ∈ conn_log x ∧
    ∀ d y e', tw_connections w1 !! d = Some y → (Answer 1, e') ∈ conn_log y → d = 1%nat ∧ e' = e.
Proof.
  assert (at_rest w1) as Hrest by by vm_compute.
  assert (asked 1 1 w1) as Hasked by (eexists; by split; [vm_compute|]).
  split; [exact ProtocolDemo.s0_fresh|]. split; [exact talk_run|]. split; [exact Hrest|]. split; [exact Hasked|].
  destruct (requests_answered_on_their_connections ProtocolDemo.demo 1 64 ProtocolDemo.slow_in_range demo_config_ok
    ProtocolDemo.s0 w1 ProtocolDemo.s0_fresh talk_run) as (_ & _ & Hall).
  destruct (tw_connections w1 !! 1%nat) as [x|] eqn:Hx; [|exfalso; revert Hx; by vm_compute].
  destruct (Hall Hrest 1%nat 1%nat x Hasked Hx) as (e & He & Hone);
    [revert Hx; vm_compute; by intros [= <-]..|].
  exists x, e. exact (conj eq_refl (conj He Hone)).
Defined.
End StackDemo.
