(* ===== verification/ServerMain.v ===== *)
(** * The server process

    Model of [apps/server/main.cpp] and [apps/server/health_http_server.*]: what a
    node does to the tables it left behind before it serves, the timers that
    report its health and sweep for failed nodes, the two flags they set, and the
    health endpoint. The registry and the game store are used through their
    interfaces; the outcome of [mysql_pool.ping()] and the list [rooms.tableIds()]
    are what those components answer at the time. *)
From stdpp Require Import pretty.
From Stdlib Require Import Ascii.
From S2P Require Import Prelude Card Table AccountStore GameStore GameStoreLib GameStoreInv GameStoreSpec Cluster ServerConfig Metrics BlockingExecutor.

(** ** Exit codes *)

Definition exn_what (e : exn) : string :=
  match e with
  | invalid_argument what | out_of_range what | length_error what | logic_error what
  | runtime_error what => what
  | bad_optional_access => "bad_optional_access"
  end.

(** The lines on the error output and the exit code; [serve] is the [try] block,
    which returns when the event loop ends. *)
Definition main (loaded : ConfigResult) (serve : ServerConfig → result unit)
    : result (list string * Z) :=
  match cr_bool loaded, cr_value loaded with
  | true, Some config =>
      match serve config with
      | Ok _ => Ok ([], 0)
      | Throw e => Ok (["fatal server error: " +:+ exn_what e], 1)
      | Undef => Undef
      end
  | _, _ => Ok ((λ e, "configuration error: " +:+ e) <$> cr_errors loaded, 2)
  end.

(** ** Start-up *)

Section startup.
  Context {R G : Type} `{!NodeRegistry R, !GameStore G}.

Record Backends := mkBackends { bk_registry : R; bk_games : G }.

Definition with_registry {A} (f : R → A * R) : M Backends A := λ b,
  let '(a, r) := f (bk_registry b) in (Ok a, mkBackends r (bk_games b)).

Definition with_games {A} (f : G → A * G) : M Backends A := λ b,
  let '(a, g) := f (bk_games b) in (Ok a, mkBackends (bk_registry b) g).

(** The loop over the open tables; the tables refunded are logged. *)
Fixpoint refund_stale (node : string) (stale : list TableRecord) : M Backends (list Z) :=
  match stale with
  | [] => mret []
  | table :: stale =>
      if negb (bool_decide (node_id table = node)) then refund_stale node stale
      else
        error ← with_games (gs_abortTableAndRefund (table_id table));
        if negb (bool_decide (error = Storage_ok))
        then mthrow (runtime_error ("could not refund stale table " +:+ pretty (Z.to_N (table_id table))))
        else
          refunded ← refund_stale node stale;
          mret (table_id table :: refunded)
  end.

Definition start_up (config : ServerConfig) : M Backends (list Z) :=
  if bool_decide (sc_role config = Role_lobby) then mret []
  else
    nodes ← with_registry healthyNodes;
    if existsb (λ node, bool_decide (ni_node_id node = sc_node_id config)) nodes
    then mthrow (runtime_error "POKER_NODE_ID is already registered; wait for its heartbeat TTL or choose a unique id")
    else
      stale ← with_games (gs_listOpenTables (Z.to_nat 10000));
      if negb (sr_bool stale)
      then mthrow (runtime_error "could not inspect stale tables during node startup")
      else refund_stale (sc_node_id config) (default [] (sr_value stale)).
End startup.
Arguments Backends : clear implicits.

(** ** The timers *)

(** What is posted to the coordination executor. *)
Inductive CoordinationTask := Beat | Sweep.

Section process.
  Context {R G K : Type} `{!NodeRegistry R, !GameStore G, !Clock K} (config : ServerConfig).

Record Process := mkProcess {
  pr_registry : R;
  pr_games : G;
  pr_reaper : NodeFailureReaper K;
  pr_metrics : MetricsRegistry;
  coordination_healthy : bool;
  database_healthy : bool;
}.
Implicit Types (p : Process).

Definition with_flags (coordination database : bool) p : Process :=
  mkProcess (pr_registry p) (pr_games p) (pr_reaper p) (pr_metrics p) coordination database.

(** A heartbeat up to the store of [database_healthy]: whether MySQL is healthy
    and the number of tables to report. *)
Definition check_database (mysql_ping : bool) (table_ids : list Z) p : bool * nat * Process :=
  let '(mysql_healthy, table_count, games) :=
    if mysql_ping && negb (bool_decide (sc_role config = Role_lobby))
    then
      let '(owned, games) := gs_countOpenTables (sc_node_id config) (pr_games p) in
      if sr_bool owned then (true, default O (sr_value owned), games)
      else (false, length table_ids, games)
    else (mysql_ping, length table_ids, pr_games p) in
  (mysql_healthy, table_count,
   mkProcess (pr_registry p) games (pr_reaper p) (pr_metrics p) (coordination_healthy p) mysql_healthy).

(** [healthy = registry.assignRoom(...) && healthy] for every room. *)
Fixpoint renew_leases (table_ids : list Z) (healthy : bool) (r : R) : bool * R :=
  match table_ids with
  | [] => (healthy, r)
  | table_id :: table_ids =>
      let '(assigned, r) := assignRoom table_id (sc_node_id config) 30 r in
      renew_leases table_ids (assigned && healthy) r
  end.

Definition report (mysql_healthy : bool) (table_count : nat) (connections : Z) (r : R) : bool * R :=
  if negb mysql_healthy then (false, r)
  else if bool_decide (sc_role config = Role_lobby) then ping r
  else heartbeat (mkNode (sc_node_id config) (sc_public_endpoint config) (Z.of_nat table_count) connections) 6 r.

(** The rest of the heartbeat. *)
Definition coordinate (table_ids : list Z) (mysql_healthy : bool) (table_count : nat) p : Process :=
  let metrics := setTables (Z.of_nat table_count) (pr_metrics p) in
  let '(healthy, r) := report mysql_healthy table_count (activeConnections metrics) (pr_registry p) in
  let '(healthy, r) :=
    if healthy && negb (bool_decide (sc_role config = Role_lobby)) then renew_leases table_ids healthy r
    else (healthy, r) in
  mkProcess r (pr_games p) (pr_reaper p) metrics healthy (database_healthy p).

(** The sweep of a lobby, every five seconds. *)
Definition run_sweep p : Process :=
  let '(result, (reaper, r, g)) := sweep (pr_reaper p) (pr_registry p) (pr_games p) in
  mkProcess r g reaper
    (match failed_tables result with [] => pr_metrics p | _ => storageFailure (pr_metrics p) end)
    (coordination_healthy p) (database_healthy p).

(** The timer of the heartbeat, every two seconds. *)
Definition heartbeat_timer p (e : BlockingExecutor CoordinationTask)
    : Process * BlockingExecutor CoordinationTask :=
  let '(posted, e) := blocking_post (Some Beat) e in
  (if posted then p else with_flags false false p, e).

Definition sweep_timer p (e : BlockingExecutor CoordinationTask)
    : Process * BlockingExecutor CoordinationTask :=
  let '(posted, e) := blocking_post (Some Sweep) e in
  (if posted then p
   else mkProcess (pr_registry p) (pr_games p) (pr_reaper p) (storageFailure (pr_metrics p))
          (coordination_healthy p) (database_healthy p), e).

(** The readiness the health endpoint asks for. *)
Definition readiness p : bool := database_healthy p && coordination_healthy p.
End process.
Arguments Process : clear implicits.

(** ** The health endpoint *)

Record HttpResponse := mkResponse {
  rs_close : bool;
  rs_status : Z;
  rs_message : string;
  rs_content_type : string;
  rs_body : string;
}.

Definition newline : string := String (Ascii.ascii_of_nat 10) EmptyString.

(** A string with its apostrophes turned into quotation marks. *)
Fixpoint quoted (s : string) : string :=
  match s with
  | EmptyString => EmptyString
  | String c s => String (if Ascii.eqb c "'"%char then Ascii.ascii_of_nat 34 else c) (quoted s)
  end.

Definition json : string := "application/json; charset=utf-8".

(** [readiness_] is empty ([None]) or answers at the time it is called. *)
Definition handle (path : string) (readiness_ : option bool) (metrics : string) : HttpResponse :=
  if bool_decide (path = "/health/live"%string)
  then mkResponse true 200 "OK" json (quoted "{'status':'live'}" +:+ newline)
  else if bool_decide (path = "/health/ready"%string) then
    let ready := match readiness_ with Some ready => ready | None => false end in
    mkResponse true (if ready then 200 else 503) (if ready then "OK" else "Service Unavailable") json
      (quoted (if ready then "{'status':'ready'}" else "{'status':'not_ready'}") +:+ newline)
  else if bool_decide (path = "/metrics"%string)
  then mkResponse true 200 "OK" "text/plain; version=0.0.4; charset=utf-8" metrics
  else mkResponse true 404 "Not Found" "text/plain; charset=utf-8" ("not found" +:+ newline).
