(* ===== verification/ServerMainTheorems.v ===== *)
(** * What the server process guarantees

    A node that starts gives back everything it had left behind and touches
    nothing else; a node that calls itself ready has lately reported its health. *)
From stdpp Require Import pretty.
From S2P Require Import Prelude Card Table AccountStore GameStore GameStoreLib GameStoreInv GameStoreSpec Cluster ServerConfig Metrics BlockingExecutor ServerMain.

(** ** Start-up *)

Section startup.
  Context {R : Type} `{!NodeRegistry R}.
  Implicit Types (g : InMemoryGameStore) (r : R).

Definition closed (t : StoredTable) : StoredTable := mkStored (st_record t) true false ∅ ∅.

(** An open table with this record. *)
Definition is_open g (rec : TableRecord) : Prop :=
  ∃ t, tables g !! table_id rec = Some t ∧ st_record t = rec ∧ st_aborted t = false.

Lemma abort_open g rec :
  games_inv g → is_open g rec →
  ∃ g', abortTableAndRefund (table_id rec) g = (Storage_ok, g') ∧ games_inv g' ∧
    store_chips g' = store_chips g ∧ tables g' = alter closed (table_id rec) (tables g).
Proof.
  intros Hg (t & Ht & Hrec & Hab). pose proof (abortTable_keeps (table_id rec) g Hg) as (Hinv & Hchips & _).
  destruct (gi_tables g Hg _ t Ht) as [_ Hseat _ _].
  destruct (refund_seats_spec (map_to_list (st_seats t)) (wallets g)) as (w' & Hw' & _).
  { apply NoDup_fst_map_to_list. }
  { intros u s Hus%elem_of_map_to_list. by destruct (Hseat u s Hus) as (? & ? & ? & _). }
  { apply Hg. }
  rw /abortTableAndRefund Ht Hab Hw' in Hinv Hchips |- *. eexists. split_and!; [done|done|cbn in Hchips |- *; lia|].
  cbn. apply map_eq. intros id. rw lookup_insert lookup_alter. case_decide as Hd; [subst id|done].
  by rw Ht.
Qed.

Lemma refund_stale_spec node stale r g :
  games_inv g → Forall (is_open g) stale → NoDup (table_id <$> stale) →
  let ids := table_id <$> filter (λ rec, node_id rec = node) stale in
  ∃ g', refund_stale node stale (mkBackends r g) = (Ok ids, mkBackends r g') ∧
    games_inv g' ∧ store_chips g' = store_chips g ∧
    ∀ id, tables g' !! id = if decide (id ∈ ids) then closed <$> tables g !! id else tables g !! id.
Proof.
  revert g. induction stale as [|rec stale IH]; intros g Hg Hopen Hnd; cbn [fmap list_fmap].
  { exists g. by split_and!. }
  apply Forall_cons in Hopen as [Hrec Hopen]. apply NoDup_cons in Hnd as [Hnin Hnd].
  cbn [refund_stale]. rw filter_cons. case_bool_decide as Hnode; cbn [negb]; last first.
  { rw decide_False //. by apply IH. }
  rw decide_True //. destruct (abort_open g rec Hg Hrec) as (g1 & Habort & Hg1 & Hchips1 & Htables1).
  rw /mbind /M_bind /with_games. cbn [gs_abortTableAndRefund mem_game_store bk_games bk_registry].
  rw Habort (bool_decide_eq_true_2 (Storage_ok = Storage_ok)) //=.
  assert (∀ id, id ≠ table_id rec → tables g1 !! id = tables g !! id) as Hother.
  { intros id Hne. rw Htables1 lookup_alter decide_False //. }
  destruct (IH g1) as (g2 & Hrest & Hg2 & Hchips2 & Htables2); [done| |done|].
  { apply Forall_forall. intros x Hx. rw Forall_forall in Hopen. destruct (Hopen x Hx) as (t & Ht & ?).
    exists t. rw Hother; [|done]. intros Heq. destruct Hnin. rw -Heq. by apply list_elem_of_fmap_2. }
  rw Hrest. exists g2. split_and!; [done|done|lia|]. intros id. rw Htables2.
  assert (table_id rec ∉ table_id <$> filter (λ rec, node_id rec = node) stale) as Hnin'.
  { intros (x & Heq & [_ Hx]%list_elem_of_filter)%list_elem_of_fmap. destruct Hnin. rw Heq.
    by apply list_elem_of_fmap_2. }
  destruct (decide (id = table_id rec)) as [->|Hne].
  - rw decide_False // decide_True; [by left|]. by rw Htables1 lookup_alter decide_True.
  - rw Hother //. case_decide as Hin; [rw decide_True //; by right|].
    rw decide_False //. by intros [?|?]%elem_of_cons.
Qed.

Lemma open_records_spec g rec : games_inv g → rec ∈ open_records g ↔ is_open g rec.
Proof.
  intros Hg. rw /open_records /is_open list_elem_of_omap. split.
  - intros ([id t] & Ht%elem_of_map_to_list & Hr). cbn in Hr. destruct (st_aborted t) eqn:Hab; [done|].
    injection Hr as <-. exists t. by rw (ti_id _ _ _ (gi_tables g Hg _ _ Ht)).
  - intros (t & Ht & <- & Hab). exists (table_id (st_record t), t). by rw elem_of_map_to_list /= Hab.
Qed.

Lemma open_records_ids g : games_inv g → NoDup (table_id <$> open_records g).
Proof.
  intros Hg. rw /open_records. pose proof (NoDup_fst_map_to_list (tables g)) as Hnd.
  assert (∀ e, e ∈ map_to_list (tables g) → table_id (st_record e.2) = e.1) as Hid.
  { intros [id t] Ht%elem_of_map_to_list. apply (gi_tables g Hg _ _ Ht). }
  induction (map_to_list (tables g)) as [|e l IH]; [constructor|]. cbn in Hnd |- *.
  apply NoDup_cons in Hnd as [Hnin Hnd].
  assert (NoDup (table_id <$> omap (λ e : Z * StoredTable,
    if st_aborted e.2 then None else Some (st_record e.2)) l)) as Hrest.
  { apply IH; [done|]. intros e' He'. apply Hid. by right. }
  destruct (st_aborted e.2); [done|]. cbn. constructor; [|done].
  intros (rec & Heq & (e' & He' & Hr)%list_elem_of_omap)%list_elem_of_fmap. destruct Hnin.
  destruct (st_aborted e'.2); [done|]. injection Hr as <-.
  rw (Hid e) in Heq; [by left|].
  rw Heq Hid; [by right|]. by apply list_elem_of_fmap_2.
Qed.

(** Tables aborted one after the other, each with success. *)
Fixpoint aborted `{!GameStore G} (ids : list Z) (w w' : G) : Prop :=
  match ids with
  | [] => w' = w
  | id :: ids => ∃ w1, gs_abortTableAndRefund id w = (Storage_ok, w1) ∧ aborted ids w1 w'
  end.

Definition own_tables (node : string) (stale : list TableRecord) : list Z :=
  table_id <$> filter (λ rec, node_id rec = node) stale.

(** The loop over any store: it aborts the node's own tables in order, up to the first
    one that is not refunded. *)
Lemma refund_stale_calls `{!GameStore G} node stale r (w : G) :
  ∃ refunded left w', own_tables node stale = refunded ++ left ∧ aborted refunded w w' ∧
    match left with
    | [] => refund_stale node stale (mkBackends r w) = (Ok refunded, mkBackends r w')
    | id :: _ => ∃ e w2 x, gs_abortTableAndRefund id w' = (e, w2) ∧ e ≠ Storage_ok ∧
        refund_stale node stale (mkBackends r w) = (Throw x, mkBackends r w2)
    end.
Proof.
  revert w. induction stale as [|rec stale IH]; intros w; cbn [refund_stale].
  { by exists [], [], w. }
  rw /own_tables filter_cons. case_bool_decide as Hnode; cbn [negb]; last first.
  { by rw decide_False. }
  rw decide_True // /mbind /M_bind /with_games. cbn [bk_games bk_registry fmap list_fmap].
  destruct (gs_abortTableAndRefund (table_id rec) w) as [e w1] eqn:Ha.
  case_bool_decide as He; cbn [negb]; last first.
  { exists [], (table_id rec :: own_tables node stale), w. split_and!; [done..|]. by eexists e, w1, _. }
  subst e. destruct (IH w1) as (refunded & left & w' & Hsplit & Hdone & Hrest).
  exists (table_id rec :: refunded), left, w'.
  split_and!; [by rw -/(own_tables node stale) Hsplit|by exists w1|].
  destruct left as [|id left]; [by rw Hrest|]. destruct Hrest as (e & w2 & x & ? & ? & Hrest).
  exists e, w2, x. by rw Hrest.
Qed.

(** In memory each of them is refunded, and nothing else happens. *)
Lemma start_up_in_memory config r g :
  games_inv g → sc_role config ≠ Role_lobby →
  existsb (λ node, bool_decide (ni_node_id node = sc_node_id config)) (healthyNodes r).1 = false →
  ∃ ids g', start_up config (mkBackends r g) = (Ok ids, mkBackends (healthyNodes r).2 g') ∧
    (∀ id, id ∈ ids ↔ ∃ rec, rec ∈ take (Z.to_nat 10000) (merge_sort by_table_id (open_records g)) ∧
       node_id rec = sc_node_id config ∧ table_id rec = id) ∧
    (∀ id, tables g' !! id = if decide (id ∈ ids) then closed <$> tables g !! id else tables g !! id) ∧
    games_inv g' ∧ store_chips g' = store_chips g.
Proof.
  intros Hg Hrole Hfree. rw /start_up bool_decide_eq_false_2 //.
  rw /mbind /M_bind /with_registry. cbn [bk_registry]. destruct (healthyNodes r) as [nodes r']. cbn [fst snd] in *.
  rw Hfree /with_games. cbn [bk_games bk_registry gs_listOpenTables mem_game_store]. rw /listOpenTables.
  destruct (Nat.eqb_spec (Z.to_nat 10000) 0); [lia|].
  rw /sr_ok /sr_bool. cbn [sr_error sr_value]. rw !bool_decide_eq_true_2 //. cbn [andb negb default].
  set (stale := take _ _).
  assert (open_records g ≡ₚ stale ++ drop (Z.to_nat 10000) (merge_sort by_table_id (open_records g))) as Hperm.
  { rw /stale take_drop. symmetry. apply merge_sort_Permutation. }
  assert (∀ rec, rec ∈ stale → rec ∈ open_records g) as Hsub.
  { intros rec Hrec. rw Hperm. apply elem_of_app. by left. }
  destruct (refund_stale_spec (sc_node_id config) stale r' g) as (g' & Hrun & Hg' & Hchips & Htables).
  { done. }
  { apply Forall_forall. intros rec Hrec. by apply open_records_spec, Hsub. }
  { pose proof (open_records_ids g Hg) as Hnd. rewrite Hperm fmap_app in Hnd. by apply NoDup_app in Hnd as [? _]. }
  eexists _, g'. split; [exact Hrun|]. split_and!; [|exact Htables|done..].
  intros id. rw list_elem_of_fmap. split.
  - intros (rec & -> & [? Hrec]%list_elem_of_filter). by exists rec.
  - intros (rec & Hrec & ? & <-). exists rec. split; [done|]. by apply list_elem_of_filter.
Qed.

(** C17: A node that starts gives back what it had left behind. Over any store: a lobby
    asks for nothing; a game node whose name a live node uses refuses to start and
    leaves the store alone; any other aborts, in order, those of the first 10,000 open
    tables listed that are its own, and starts when all of them were refunded, or stops
    with an exception at the first that was not. In the in-memory store every one of
    them is refunded: the node starts, tables of other nodes (and its own beyond the
    first 10,000 open ones) are untouched, no chip is lost or made, and with at most
    10,000 open tables in the cluster the node has none left. *)
Theorem startup_settles `{!GameStore G} config r (w : G) g :
  let nodes := (healthyNodes r).1 in
  let r' := (healthyNodes r).2 in
  let taken := existsb (λ node, bool_decide (ni_node_id node = sc_node_id config)) nodes in
  (sc_role config = Role_lobby → start_up config (mkBackends r w) = (Ok [], mkBackends r w)) ∧
  (sc_role config ≠ Role_lobby → taken = true →
     ∃ e, start_up config (mkBackends r w) = (Throw e, mkBackends r' w)) ∧
  (sc_role config ≠ Role_lobby → taken = false →
     let '(listed, w1) := gs_listOpenTables (Z.to_nat 10000) w in
     if sr_bool listed then
       ∃ refunded left w2,
         own_tables (sc_node_id config) (default [] (sr_value listed)) = refunded ++ left ∧
         aborted refunded w1 w2 ∧
         match left with
         | [] => start_up config (mkBackends r w) = (Ok refunded, mkBackends r' w2)
         | id :: _ => ∃ e w3 x, gs_abortTableAndRefund id w2 = (e, w3) ∧ e ≠ Storage_ok ∧
             start_up config (mkBackends r w) = (Throw x, mkBackends r' w3)
         end
     else ∃ e, start_up config (mkBackends r w) = (Throw e, mkBackends r' w1)) ∧
  (games_inv g → sc_role config ≠ Role_lobby → taken = false →
     ∃ ids g', start_up config (mkBackends r g) = (Ok ids, mkBackends r' g') ∧
       (∀ id, id ∈ ids ↔ ∃ rec, rec ∈ take (Z.to_nat 10000) (merge_sort by_table_id (open_records g)) ∧
          node_id rec = sc_node_id config ∧ table_id rec = id) ∧
       (∀ id, tables g' !! id = if decide (id ∈ ids) then closed <$> tables g !! id else tables g !! id) ∧
       games_inv g' ∧ store_chips g' = store_chips g ∧
       ((length (open_records g) ≤ Z.to_nat 10000)%nat → sc_node_id config ≠ ""%string →
          countOpenTables (sc_node_id config) g' = sr_ok O)).
Proof.
  cbv zeta. split_and!.
  - intros Hrole. by rw /start_up bool_decide_eq_true_2.
  - intros Hrole Htaken. rw /start_up bool_decide_eq_false_2 // /mbind /M_bind /with_registry. cbn [bk_registry].
    destruct (healthyNodes r) as [nodes r']. cbn [fst snd] in *. rw Htaken. by eexists.
  - intros Hrole Hfree. rw /start_up bool_decide_eq_false_2 // /mbind /M_bind /with_registry. cbn [bk_registry].
    destruct (healthyNodes r) as [nodes r']. cbn [fst snd] in *. rw Hfree /with_games. cbn [bk_games bk_registry].
    destruct (gs_listOpenTables _ w) as [listed w1]. destruct (sr_bool listed); cbn [negb]; [|by eexists].
    apply refund_stale_calls.
  - intros Hg Hrole Hfree. destruct (start_up_in_memory config r g Hg Hrole Hfree) as (ids & g' & Hrun & Hids & Htables & Hg' & Hchips).
    exists ids, g'. split_and!; [done..|]. intros Hlen Hname.
    rw /countOpenTables bool_decide_eq_false_2 //.
    enough (filter (λ rec, node_id rec = sc_node_id config) (open_records g') = []) as -> by done.
    apply elem_of_nil_inv. intros rec [Hnode Hrec]%list_elem_of_filter.
    apply open_records_spec in Hrec as (t & Ht & Hr & Hab); [|done]. rw Htables in Ht. case_decide as Hin.
    + destruct (tables g !! table_id rec); [|done]. by injection Ht as <-.
    + apply Hin, Hids. exists rec. split_and!; [|done|done].
      rewrite firstn_all2; [rewrite (Permutation_length (merge_sort_Permutation _ _)) //|].
      rewrite merge_sort_Permutation. apply open_records_spec; [done|by exists t].
Qed.
End startup.

(** ** Readiness *)

Section readiness.
  Context {R G K : Type} `{!NodeRegistry R, !GameStore G, !Clock K} (config : ServerConfig).
  Context (show_metrics : MetricsRegistry → string).

(** What a heartbeat was given: the rooms of the node, the outcome of the check
    of the database, the number of tables, and the process at the time. *)
Record BeatInput := mkBeat {
  bt_ids : list Z;
  bt_mysql : bool;
  bt_count : nat;
  bt_process : Process R G K;
}.

(** The process with its executor; a heartbeat stops between the check of the
    database and the rest. For the statements: the firings of the timer since a
    heartbeat last ended, and what that heartbeat was given. *)
Record Node := mkNodeState {
  nd_process : Process R G K;
  nd_executor : BlockingExecutor CoordinationTask;
  nd_between : option (list Z * bool * nat);
  nd_since : nat;
  nd_last : option BeatInput;
}.

Definition is_running (e : BlockingExecutor CoordinationTask) (t : CoordinationTask) : Prop :=
  be_workers e !! O = Some (Running t).

Inductive node_step : Node → Node → Prop :=
  | node_outside n r g m :
      let p := nd_process n in
      node_step n (mkNodeState (mkProcess r g (pr_reaper p) m (coordination_healthy p) (database_healthy p))
        (nd_executor n) (nd_between n) (nd_since n) (nd_last n))
  | node_heartbeat_timer n p e :
      heartbeat_timer (nd_process n) (nd_executor n) = (p, e) →
      node_step n (mkNodeState p e (nd_between n) (S (nd_since n)) (nd_last n))
  | node_sweep_timer n p e :
      sc_role config = Role_lobby → sweep_timer (nd_process n) (nd_executor n) = (p, e) →
      node_step n (mkNodeState p e (nd_between n) (nd_since n) (nd_last n))
  | node_work n e :
      worker_step O (nd_executor n) = Some e →
      node_step n (mkNodeState (nd_process n) e None (nd_since n) (nd_last n))
  | node_check n mysql_ping ids mysql count p :
      is_running (nd_executor n) Beat → nd_between n = None →
      check_database config mysql_ping ids (nd_process n) = (mysql, count, p) →
      node_step n (mkNodeState p (nd_executor n) (Some (ids, mysql, count)) (nd_since n) (nd_last n))
  | node_coordinate n ids mysql count e :
      is_running (nd_executor n) Beat → nd_between n = Some (ids, mysql, count) →
      finish_task O (nd_executor n) = Some e →
      node_step n (mkNodeState (coordinate config ids mysql count (nd_process n)) e None O
        (Some (mkBeat ids mysql count (nd_process n))))
  | node_sweep n e :
      is_running (nd_executor n) Sweep → finish_task O (nd_executor n) = Some e →
      node_step n (mkNodeState (run_sweep (nd_process n)) e None (nd_since n) (nd_last n))
  | node_stop n :
      node_step n (mkNodeState (nd_process n) (blocking_stop (nd_executor n)) (nd_between n)
        (nd_since n) (nd_last n)).

Definition node_start (n : Node) : Prop :=
  BlockingExecutor_new 1 1 = Ok (nd_executor n) ∧ nd_between n = None ∧
  coordination_healthy (nd_process n) = false ∧ database_healthy (nd_process n) = false.

(** Every lease is granted, one after the other. *)
Fixpoint all_leased (ids : list Z) (r : R) : Prop :=
  match ids with
  | [] => True
  | id :: ids => (assignRoom id (sc_node_id config) 30 r).1 = true ∧
                 all_leased ids (assignRoom id (sc_node_id config) 30 r).2
  end.

(** MySQL answered, the registry took the report, and a game node has the leases
    of its rooms. *)
Definition good_beat (b : BeatInput) : Prop :=
  let reported := report config true (bt_count b)
    (activeConnections (pr_metrics (bt_process b))) (pr_registry (bt_process b)) in
  bt_mysql b = true ∧ reported.1 = true ∧
  (sc_role config ≠ Role_lobby → all_leased (bt_ids b) reported.2).

Lemma renew_leases_true ids healthy r :
  (renew_leases config ids healthy r).1 = true → healthy = true ∧ all_leased ids r.
Proof.
  revert healthy r. induction ids as [|id ids IH]; intros healthy r; cbn; [done|].
  destruct (assignRoom id (sc_node_id config) 30 r) as [assigned r']. intros [Hb Hall]%IH.
  apply andb_true_iff in Hb as [-> ->]. done.
Qed.

Lemma coordinate_good ids mysql count p :
  coordination_healthy (coordinate config ids mysql count p) = true → good_beat (mkBeat ids mysql count p).
Proof.
  rw /coordinate /good_beat. cbn [bt_ids bt_mysql bt_count bt_process].
  change (activeConnections (setTables (Z.of_nat count) (pr_metrics p))) with (activeConnections (pr_metrics p)).
  destruct mysql; [|by rw /report /=]. destruct (report _ _ _ _ _) as [healthy r] eqn:Hrep. cbn [fst snd].
  destruct healthy; [|done]. cbn [andb]. case_bool_decide as Hrole; cbn [negb]; [done|].
  destruct (renew_leases config ids true r) as [healthy r'] eqn:Hren. cbn. intros ->.
  split_and!; try done. intros _. apply (renew_leases_true ids true). by rw Hren.
Qed.

(** The heartbeats the executor still has. *)
Definition is_beat (t : CoordinationTask) : Z := match t with Beat => 1 | Sweep => 0 end.
Definition running_beat (w : WorkerState CoordinationTask) : Z :=
  match w with Running t => is_beat t | _ => 0 end.
Definition beats (e : BlockingExecutor CoordinationTask) : Z :=
  sumZ is_beat (be_tasks e) + sumZ running_beat (be_workers e).

Record node_ok (n : Node) : Prop := {
  no_workers : length (be_workers (nd_executor n)) = 1%nat;
  no_max : be_max_pending (nd_executor n) = 1%nat;
  no_queue : (length (be_tasks (nd_executor n)) ≤ 1)%nat;
  no_since : coordination_healthy (nd_process n) = true → Z.of_nat (nd_since n) ≤ beats (nd_executor n);
  no_last : coordination_healthy (nd_process n) = true → ∃ b, nd_last n = Some b ∧ good_beat b;
}.

Lemma beats_bound n : node_ok n → beats (nd_executor n) ≤ 2.
Proof.
  intros [Hw _ Hq _ _]. rw /beats. destruct (nd_executor n) as [? tasks workers ?]. cbn in Hw, Hq |- *.
  destruct workers as [|w [|]]; try done. destruct tasks as [|t [|]]; [| |cbn in Hq; lia]; cbn;
    destruct w as [|[]|]; try destruct t; cbn; lia.
Qed.

Lemma post_beats t e posted e' :
  blocking_post (Some t) e = (posted, e') →
  be_workers e' = be_workers e ∧ be_max_pending e' = be_max_pending e ∧
  beats e' = beats e + (if posted then is_beat t else 0) ∧
  ((length (be_tasks e) ≤ be_max_pending e)%nat → (length (be_tasks e') ≤ be_max_pending e)%nat).
Proof.
  rw /blocking_post. destruct (_ || _) eqn:Hfull; intros [= <- <-].
  - split_and!; [done|done|lia|done].
  - guards. split_and!; [done|done| |rw length_app /=; lia].
    rw /beats. cbn [be_tasks be_workers]. rw sumZ_app /=. lia.
Qed.

Lemma worker_beats e e' :
  worker_step O e = Some e' →
  length (be_workers e') = length (be_workers e) ∧ be_max_pending e' = be_max_pending e ∧
  beats e' = beats e ∧ (length (be_tasks e') ≤ length (be_tasks e))%nat.
Proof.
  intros [Hw [(t & rest & Ht & ->)|(Ht & _ & ->)]]%worker_step_Some; rw /beats Ht;
    cbn [be_tasks be_workers be_max_pending];
    rw length_insert (sumZ_insert running_beat _ _ _ _ Hw) /=; split_and!; lia || done.
Qed.

Lemma finish_beats t e e' :
  is_running e t → finish_task O e = Some e' →
  length (be_workers e') = length (be_workers e) ∧ be_max_pending e' = be_max_pending e ∧
  beats e' = beats e - is_beat t ∧ be_tasks e' = be_tasks e.
Proof.
  rw /is_running /finish_task. intros Hw. rw Hw. intros [= <-]. rw /beats.
  cbn [be_tasks be_workers be_max_pending].
  rw length_insert (sumZ_insert running_beat _ _ _ _ Hw) /=. split_and!; lia || done.
Qed.

Lemma beats_nonneg e : 0 ≤ beats e.
Proof.
  rw /beats. assert (0 ≤ sumZ is_beat (be_tasks e)) by (apply sumZ_nonneg; by intros []).
  assert (0 ≤ sumZ running_beat (be_workers e)) by (apply sumZ_nonneg; by intros [|[]|]). lia.
Qed.

Lemma node_step_ok n n' : node_ok n → node_step n n' → node_ok n'.
Proof.
  intros Hok Hstep. destruct Hok as [Hw Hm Hq Hs Hl].
  destruct Hstep as [n r g m p|n p e Ht|n p e _ Ht|n e He|n ping ids mysql count p Hrun _ Hc|n ids mysql count e Hrun _ He|n e Hrun He|n].
  - by split.
  - rw /heartbeat_timer in Ht. destruct (blocking_post (Some Beat) (nd_executor n)) as [posted e'] eqn:Hp.
    injection Ht as <- <-. apply post_beats in Hp as (Hw' & Hm' & Hb & Hq'). rw Hm in Hm' Hq'.
    split; cbn; [by rw Hw'|done|by apply Hq'| |]; destruct posted; try done.
    intros Hc. specialize (Hs Hc). cbn in Hb. lia.
  - rw /sweep_timer in Ht. destruct (blocking_post (Some Sweep) (nd_executor n)) as [posted e'] eqn:Hp.
    injection Ht as <- <-. apply post_beats in Hp as (Hw' & Hm' & Hb & Hq'). rw Hm in Hm' Hq'.
    assert (beats e' = beats (nd_executor n)) as Hb' by (destruct posted; cbn in Hb; lia).
    split; cbn; [by rw Hw'|done|by apply Hq'|rw Hb'|]; by destruct posted.
  - apply worker_beats in He as (Hw' & Hm' & Hb & Hq'). split; cbn; [congruence|congruence|lia|by rw Hb|done].
  - assert (coordination_healthy p = coordination_healthy (nd_process n)) as Hsame.
    { rw /check_database in Hc. destruct (ping && _); [destruct (gs_countOpenTables _ _) as [owned g]|].
      - destruct (sr_bool owned); by injection Hc as _ _ <-.
      - by injection Hc as _ _ <-. }
    split; cbn; rw ?Hsame; done.
  - apply (finish_beats Beat) in He as (Hw' & Hm' & Hb & Hq'); [|done].
    split; cbn; [congruence|congruence|by rw Hq'| |].
    + intros _. apply beats_nonneg.
    + intros Hc. eexists. split; [done|]. by apply coordinate_good.
  - apply (finish_beats Sweep) in He as (Hw' & Hm' & Hb & Hq'); [|done]. cbn in Hb.
    assert (coordination_healthy (run_sweep (nd_process n)) = coordination_healthy (nd_process n)) as Hsame.
    { rw /run_sweep. by destruct (sweep _ _ _) as [? [[? ?] ?]]. }
    split; cbn; rw ?Hsame; [congruence|congruence|by rw Hq'| |done]. intros Hc. specialize (Hs Hc). lia.
  - by split.
Qed.

(** C18: A node calls itself ready only when it is: if the health endpoint answers
    200 to [/health/ready], the last heartbeat that ended found MySQL healthy, was
    taken by the registry and, on a game node, renewed the leases of all rooms;
    and the timer has fired at most twice since, so that a heartbeat that hangs
    makes the node unready by the third firing. *)
Theorem readiness_honest n0 n :
  node_start n0 → rtc node_step n0 n →
  rs_status (handle "/health/ready" (Some (readiness (nd_process n))) (show_metrics (pr_metrics (nd_process n)))) = 200 →
  (nd_since n ≤ 2)%nat ∧ ∃ b, nd_last n = Some b ∧ good_beat b.
Proof.
  intros (Hnew & _ & Hc & _) Hrun Hready.
  assert (node_ok n) as Hok.
  { assert (node_ok n0) as Hok0.
    { injection Hnew as Hnew. split; rw -?Hnew; cbn; try done; try lia; congruence. }
    clear Hc Hnew. induction Hrun as [|n1 n2 n3 Hstep _ IH]; [done|]. by eapply IH, node_step_ok. }
  assert (coordination_healthy (nd_process n) = true) as Hco.
  { rw /handle /= /readiness in Hready. destruct (database_healthy (nd_process n)); [|done].
    by destruct (coordination_healthy (nd_process n)). }
  split; [|by apply no_last]. pose proof (no_since n Hok Hco). pose proof (beats_bound n Hok). lia.
Qed.
End readiness.

(** ** A node at work *)

Module MainDemo.
#[local] Instance seconds : Clock Z := λ k, (k, k + 1000).

Definition node : ServerConfig :=
  mkServerConfig Role_game "a" "host-a:7000" "0.0.0.0" 7000 "0.0.0.0" 9100 4 4 20000 45000 15000
    1048576 4194304 100 200 86400 (mkMySql "127.0.0.1" 3306 "poker" "secret" "poker" 8 5)
    (mkRedis "127.0.0.1" 6379 "" 0 2000).

Definition cfg : TableConfig := mkConfig 2 6 50 100 2000 20000.

(** Tables of nodes "a" and "b", with a stack each. *)
Definition left_behind : InMemoryGameStore :=
  games_after [SeedWallet 7 9000; SeedWallet 8 9000;
    CreateTable (mkTableRecord 1000 "t" "a" cfg 7); CreateTable (mkTableRecord 1001 "u" "b" cfg 8);
    ReserveBuyIn 1000 7 0 5000 "k"; ReserveBuyIn 1001 8 0 4000 "k"] Games_new.

Lemma left_behind_inv : games_inv left_behind.
Proof. apply games_after_keeps, games_inv_new. Qed.

Definition empty_registry : InMemoryNodeRegistry Z := Registry_new 0.

(** The table of "a" is refunded; "b" still has its table. *)
Example start_up_refunds :
  (λ '(r, b), (r, walletBalance 7 (bk_games b), walletBalance 8 (bk_games b)))
    (start_up node (mkBackends empty_registry left_behind)) = (Ok [1000], Some 9000, Some 5000).
Proof. vm_compute. reflexivity. Qed.

(** While "a" is alive a second process of that name does not start. *)
Example start_up_refuses :
  (start_up node (mkBackends (heartbeat (mkNode "a" "host-a:7000" 0 0) 6 empty_registry).2 left_behind)).1 =
  Throw (runtime_error "POKER_NODE_ID is already registered; wait for its heartbeat TTL or choose a unique id").
Proof. vm_compute. reflexivity. Qed.

Lemma startup_settles_witness :
  ∃ ids g', start_up node (mkBackends empty_registry left_behind) =
      (Ok ids, mkBackends (healthyNodes empty_registry).2 g') ∧
    countOpenTables "a" g' = sr_ok O ∧ store_chips g' = store_chips left_behind.
Proof.
  destruct (startup_settles node empty_registry left_behind left_behind) as (_ & _ & _ & H).
  destruct (H left_behind_inv) as (ids & g' & H1 & _ & _ & _ & H2 & H3).
  - discriminate.
  - vm_compute. reflexivity.
  - exists ids, g'. split; [exact H1|]. split; [|exact H2]. apply H3; [|discriminate].
    apply Nat.leb_le. vm_compute. reflexivity.
Defined.

Definition process0 : Process (InMemoryNodeRegistry Z) InMemoryGameStore Z :=
  mkProcess empty_registry Games_new (mkReaper 15000 0 ∅) Metrics_new false false.

Definition executor0 : BlockingExecutor CoordinationTask := mkBlocking 1 [] [Waiting] false.
Definition executor1 : BlockingExecutor CoordinationTask := mkBlocking 1 [Beat] [Waiting] false.
Definition executor2 : BlockingExecutor CoordinationTask := mkBlocking 1 [] [Running Beat] false.

Definition node0 : Node := mkNodeState process0 executor0 None 0 None.
Definition process1 := (check_database node true [1001] process0).2.
Definition node3 : Node :=
  mkNodeState (coordinate node [1001] true 0 process1) executor0 None 0 (Some (mkBeat [1001] true 0 process1)).

Lemma node0_start : node_start node0.
Proof. by split_and!. Qed.

Lemma node3_reached : rtc (node_step node) node0 node3.
Proof.
  eapply rtc_l; [exact (node_heartbeat_timer node node0 process0 executor1 eq_refl)|].
  eapply rtc_l; [exact (node_work node (mkNodeState process0 executor1 None 1 None) executor2 eq_refl)|].
  eapply rtc_l; [exact (node_check node (mkNodeState process0 executor2 None 1 None) true [1001] true 0
    process1 eq_refl eq_refl eq_refl)|].
  eapply rtc_l; [|apply rtc_refl].
  exact (node_coordinate node (mkNodeState process1 executor2 (Some ([1001], true, O)) 1 None) [1001] true 0
    executor0 eq_refl eq_refl eq_refl).
Qed.

Lemma readiness_honest_witness :
  (nd_since node3 ≤ 2)%nat ∧ ∃ b, nd_last node3 = Some b ∧ good_beat node b.
Proof.
  apply (readiness_honest node (renderPrometheus (λ _, "0")) node0 node3 node0_start node3_reached).
  vm_compute. reflexivity.
Defined.

(** Three firings while a heartbeat hangs: the node is not ready any more. *)
Example hanging_beat_unready :
  let tick '(p, e) := heartbeat_timer p e in
  let ready p := rs_status (handle "/health/ready" (Some (readiness p)) "") in
  let hung := (nd_process node3, executor2) in
  (ready hung.1, ready (tick hung).1, ready (tick (tick hung)).1) = (200, 200, 503).
Proof. vm_compute. reflexivity. Qed.
End MainDemo.
