(* ===== verification/NetworkClient.v ===== *)
(** * The desktop client's network side

    Model of [apps/client/network_client.hpp] and [network_client.cpp]. The
    program calls the public methods at any time; the socket and the timers call
    the slots. The state of the socket is part of the model, as the code reads it;
    what the Qt library does with text, and whether aborting a socket emits
    [disconnected], are parameters. Signals to the user interface change no state
    of the client and are left out. The conversions between [QString] and
    [std::string] are the identity, as both are the same UTF-8 text here. *)
From stdpp Require Import pretty.
From Stdlib Require Import Ascii.
From S2P Require Import Prelude Card Table AccountStore GameStore Protocol Codec.

(** ** Qt *)

(** [QAbstractSocket::SocketState]. *)
Inductive SocketState :=
  UnconnectedState | HostLookupState | ConnectingState | ConnectedState | ClosingState.

#[export] Instance SocketState_eq_dec : EqDecision SocketState.
Proof. solve_decision. Defined.

Class Qt := {
  trimmed : string → string;
  toLower : string → string;
  (** [QString::toUShort]: the value when the text is a number of 16 bits. *)
  toUShort : string → option Z;
  (** Whether [abort] emits [disconnected] in this state. *)
  abort_emits : SocketState → bool;
}.

(** ** State *)

(** The socket, the timers and the decoder; a running [reconnect_timer_] is its
    interval. *)
Record Connection := mkConnection {
  socket_ : SocketState;
  reconnect_timer_ : option Z;
  heartbeat_timer_ : bool;
  codec_ : LengthFieldCodec;
  intentional_disconnect_ : bool;
  reconnect_attempt_ : Z;
}.

Record Routing := mkRouting {
  lobby_host_ : string;
  lobby_port_ : Z;
  game_host_ : string;
  game_port_ : Z;
  routing_to_game_ : bool;
  authenticate_on_connect_ : bool;
  reconnect_after_auth_ : bool;
}.

Record Identity := mkIdentity {
  session_token_ : string;
  pending_ticket_ : string;
  authenticated_ : bool;
  user_id_ : Z;
  wallet_chips_ : Z;
}.

Record Numbers := mkNumbers {
  next_request_id_ : Z;
  client_sequence_ : Z;
  lobby_sequence_ : Z;
  game_sequence_ : Z;
}.

(** The items of [tables_] and [players_]. *)
Record TableItem := mkTableItem {
  ti_tableId : Z; ti_name : string; ti_players : Z; ti_maxPlayers : Z; ti_blinds : string; ti_node : string;
}.

Record PlayerItem := mkPlayerItem {
  pi_userId : Z; pi_seat : Z; pi_stack : Z; pi_commitment : Z; pi_status : string;
  pi_ready : bool; pi_connected : bool; pi_cards : string;
}.

(** What the client shows of its table. *)
Record TableView := mkTableView {
  seated_ : bool;
  cl_table_id_ : Z;
  cl_hand_id_ : Z;
  server_sequence_ : Z;
  acting_user_id_ : Z;
  cl_street_ : string;
  cl_pot_ : Z;
  cl_current_bet_ : Z;
  minimum_raise_ : Z;
  players_ : list PlayerItem;
  board_ : list string;
}.

(** For the statements: what the client did, newest last. An envelope that is
    not written is [Dropped]; [Renumbered] marks that the answer to an
    authentication restarted the numbers, [Forgot] that the session was given up. *)
Inductive Effect :=
  | Wrote (e : Envelope)
  | Dropped (e : Envelope)
  | Opened (host : string) (port : Z)
  | Renumbered
  | Forgot.

Record NetworkClient := mkNetworkClient {
  cl_status : string;
  cl_connection : Connection;
  cl_routing : Routing;
  cl_identity : Identity;
  cl_numbers : Numbers;
  cl_tables : list TableItem;
  cl_view : TableView;
  cl_effects : list Effect;
}.

Implicit Types (c : NetworkClient).

Definition on_connection f c := mkNetworkClient (cl_status c) (f (cl_connection c)) (cl_routing c)
  (cl_identity c) (cl_numbers c) (cl_tables c) (cl_view c) (cl_effects c).
Definition on_routing f c := mkNetworkClient (cl_status c) (cl_connection c) (f (cl_routing c))
  (cl_identity c) (cl_numbers c) (cl_tables c) (cl_view c) (cl_effects c).
Definition on_identity f c := mkNetworkClient (cl_status c) (cl_connection c) (cl_routing c)
  (f (cl_identity c)) (cl_numbers c) (cl_tables c) (cl_view c) (cl_effects c).
Definition on_numbers f c := mkNetworkClient (cl_status c) (cl_connection c) (cl_routing c)
  (cl_identity c) (f (cl_numbers c)) (cl_tables c) (cl_view c) (cl_effects c).
Definition on_view f c := mkNetworkClient (cl_status c) (cl_connection c) (cl_routing c)
  (cl_identity c) (cl_numbers c) (cl_tables c) (f (cl_view c)) (cl_effects c).
Definition with_tables_shown tables c := mkNetworkClient (cl_status c) (cl_connection c) (cl_routing c)
  (cl_identity c) (cl_numbers c) tables (cl_view c) (cl_effects c).
Definition setStatus (value : string) c := mkNetworkClient value (cl_connection c) (cl_routing c)
  (cl_identity c) (cl_numbers c) (cl_tables c) (cl_view c) (cl_effects c).
Definition effect (e : Effect) c := mkNetworkClient (cl_status c) (cl_connection c) (cl_routing c)
  (cl_identity c) (cl_numbers c) (cl_tables c) (cl_view c) (cl_effects c ++ [e]).

Definition set_socket s k := mkConnection s (reconnect_timer_ k) (heartbeat_timer_ k) (codec_ k)
  (intentional_disconnect_ k) (reconnect_attempt_ k).
Definition set_reconnect_timer t k := mkConnection (socket_ k) t (heartbeat_timer_ k) (codec_ k)
  (intentional_disconnect_ k) (reconnect_attempt_ k).
Definition set_heartbeat_timer b k := mkConnection (socket_ k) (reconnect_timer_ k) b (codec_ k)
  (intentional_disconnect_ k) (reconnect_attempt_ k).
Definition set_codec codec k := mkConnection (socket_ k) (reconnect_timer_ k) (heartbeat_timer_ k) codec
  (intentional_disconnect_ k) (reconnect_attempt_ k).
Definition set_intentional b k := mkConnection (socket_ k) (reconnect_timer_ k) (heartbeat_timer_ k)
  (codec_ k) b (reconnect_attempt_ k).
Definition set_attempt n k := mkConnection (socket_ k) (reconnect_timer_ k) (heartbeat_timer_ k)
  (codec_ k) (intentional_disconnect_ k) n.

Definition set_authenticated b i :=
  mkIdentity (session_token_ i) (pending_ticket_ i) b (user_id_ i) (wallet_chips_ i).

Definition set_flags routing on_connect after_auth r :=
  mkRouting (lobby_host_ r) (lobby_port_ r) (game_host_ r) (game_port_ r) routing on_connect after_auth.

Definition set_table_id (tableId : Z) (v : TableView) : TableView :=
  mkTableView (seated_ v) tableId (cl_hand_id_ v) (server_sequence_ v) (acting_user_id_ v) (cl_street_ v)
    (cl_pot_ v) (cl_current_bet_ v) (minimum_raise_ v) (players_ v) (board_ v).

(** The members' initialisers. *)
Definition NetworkClient_new : NetworkClient :=
  mkNetworkClient "Disconnected"
    (mkConnection UnconnectedState None false (mkCodec default_max_frame_size [] 0 false) false 0)
    (mkRouting "127.0.0.1" 6000 "" 0 false false false)
    (mkIdentity "" "" false 0 0) (mkNumbers 1 0 0 0) []
    (mkTableView false 0 0 0 0 "Waiting" 0 0 0 [] []) [].

Definition nonempty_text (s : string) : bool := negb (bool_decide (s = ""%string)).

(** ** Text *)

Definition ranks : list string :=
  ["?"; "?"; "2"; "3"; "4"; "5"; "6"; "7"; "8"; "9"; "T"; "J"; "Q"; "K"; "A"]%string.
Definition suits : list string := ["♣"; "♦"; "♥"; "♠"]%string.

(** The rank and the suit are unsigned. *)
Definition cardText (card : ProtoCard) : string :=
  default "?"%string (ranks !! Z.to_nat (pc_rank card)) +:+
  default "?"%string (suits !! Z.to_nat (pc_suit card)).

Definition streetText (value : ProtoStreet) : string :=
  match value with
  | WAITING => "Waiting"
  | PREFLOP => "Preflop"
  | FLOP => "Flop"
  | TURN => "Turn"
  | RIVER => "River"
  | SHOWDOWN => "Showdown"
  | SETTLED => "Settled"
  | STREET_UNSPECIFIED => "Unknown"
  end.

(** ** Sending *)

Section client.
  Context `{!Qt, !EnvelopeCodec}.

Definition connected c : bool := bool_decide (socket_ (cl_connection c) = ConnectedState).

(** The next envelope; a sequenced one takes the next number of the endpoint. *)
Definition envelope (type : MessageType) (b : Body) (sequenced : bool) c : Envelope * NetworkClient :=
  let n := cl_numbers c in
  let sequence := u64_succ (client_sequence_ n) in
  let e := mkEnvelope 1 (next_request_id_ n) (if sequenced then sequence else 0) type "" 0 0 0 b in
  (e, on_numbers (λ _,
    if sequenced
    then mkNumbers (u64_succ (next_request_id_ n)) sequence
           (if routing_to_game_ (cl_routing c) then lobby_sequence_ n else sequence)
           (if routing_to_game_ (cl_routing c) then sequence else game_sequence_ n)
    else mkNumbers (u64_succ (next_request_id_ n)) (client_sequence_ n) (lobby_sequence_ n) (game_sequence_ n))
    c).

(** Serialisation does not fail; [encode] may throw. *)
Definition send (e : Envelope) c : NetworkClient :=
  if negb (connected c) then setStatus "Not connected" (effect (Dropped e) c)
  else match encode (SerializeToString e) default_max_frame_size with
  | Ok _ => effect (Wrote e) c
  | Throw (invalid_argument what) | Throw (length_error what) => setStatus what (effect (Dropped e) c)
  | _ => effect (Dropped e) c
  end.

Definition request (type : MessageType) (b : Body) (sequenced : bool) c : NetworkClient :=
  let '(e, c) := envelope type b sequenced c in send e c.

(** ** The socket *)

(** A socket that is in use ignores the call; looking up the host and connecting
    go on by themselves. *)
Definition connectToHost (host : string) (port : Z) c : NetworkClient :=
  match socket_ (cl_connection c) with
  | UnconnectedState => effect (Opened host port) (on_connection (set_socket HostLookupState) c)
  | _ => c
  end.

Definition scheduleReconnect c : NetworkClient :=
  let k := cl_connection c in
  match reconnect_timer_ k with
  | Some _ => c
  | None =>
      let shift := Z.min (reconnect_attempt_ k) 4 in
      let delay_ms := Z.min 10000 (500 * Z.shiftl 1 shift) in
      setStatus ("Connection lost; retrying in " +:+ pretty delay_ms +:+ " ms")
        (on_connection (λ k, set_reconnect_timer (Some delay_ms) (set_attempt (reconnect_attempt_ k + 1) k)) c)
  end.

(** The client is routed to a game node, has a session and a table. *)
Definition wants_game c : bool :=
  routing_to_game_ (cl_routing c) && nonempty_text (session_token_ (cl_identity c))
  && negb (cl_table_id_ (cl_view c) =? 0).

Definition onDisconnected c : NetworkClient :=
  let c := on_identity (set_authenticated false) (on_connection (set_heartbeat_timer false) c) in
  if intentional_disconnect_ (cl_connection c) then on_connection (set_intentional false) c
  else if wants_game c
  then scheduleReconnect (on_routing (λ r, set_flags (routing_to_game_ r) (authenticate_on_connect_ r)
                                             (seated_ (cl_view c)) r) c)
  else setStatus "Disconnected" c.

(** [abort]: the signal is handled before it returns. *)
Definition abort_socket c : NetworkClient :=
  let state := socket_ (cl_connection c) in
  let c := on_connection (set_socket UnconnectedState) c in
  if abort_emits state then onDisconnected c else c.

(** [disconnectFromHost]: the signal comes later. *)
Definition disconnectFromHost c : NetworkClient :=
  on_connection (λ k, match socket_ k with
                      | UnconnectedState => k
                      | _ => set_socket ClosingState k
                      end) c.

(** [intentional_disconnect_ = ...; socket_.abort(); setStatus(...);
    socket_.connectToHost(...)] *)
Definition reopen (status host : string) (port : Z) c : NetworkClient :=
  let c := on_connection (λ k, set_intentional (negb (bool_decide (socket_ k = UnconnectedState)))
                                 (set_codec (codec_reset (codec_ k)) k)) c in
  connectToHost host port (setStatus status (abort_socket c)).

Definition connectToLobby (host : string) (port : Z) c : NetworkClient :=
  let host := trimmed host in
  let host := if nonempty_text host then host else "127.0.0.1"%string in
  let c := on_connection (λ k, set_attempt 0 (set_reconnect_timer None k)) c in
  let c := on_numbers (λ n, mkNumbers (next_request_id_ n) (lobby_sequence_ n) (lobby_sequence_ n)
             (if routing_to_game_ (cl_routing c) then client_sequence_ n else game_sequence_ n)) c in
  let c := on_routing (λ r, mkRouting host port (game_host_ r) (game_port_ r) false
             (nonempty_text (session_token_ (cl_identity c))) false) c in
  reopen "Connecting to lobby…" host port (on_identity (set_authenticated false) c).

(** The last position of a colon, and the text around it. *)
Fixpoint split_last_colon (s : string) : option (string * string) :=
  match s with
  | EmptyString => None
  | String ch rest =>
      match split_last_colon rest with
      | Some (before, after) => Some (String ch before, after)
      | None => if Ascii.eqb ch ":"%char then Some (EmptyString, rest) else None
      end
  end.

Definition routeToGame (endpoint ticket : string) (tableId : Z) c : NetworkClient :=
  match split_last_colon endpoint with
  | None | Some (EmptyString, _) => setStatus "Invalid game-node endpoint" c
  | Some (host, port) =>
      match toUShort port with
      | None => setStatus "Invalid game-node port" c
      | Some port =>
          let c := on_numbers (λ n, mkNumbers (next_request_id_ n) (game_sequence_ n) (client_sequence_ n)
                     (game_sequence_ n)) c in
          let c := on_view (set_table_id tableId) c in
          let c := on_identity (λ i, mkIdentity (session_token_ i) ticket false (user_id_ i)
                     (wallet_chips_ i)) c in
          let c := on_routing (λ r, mkRouting (lobby_host_ r) (lobby_port_ r) host port true true false) c in
          let c := on_connection (λ k, set_attempt 0 (set_reconnect_timer None k)) c in
          reopen "Routing to assigned game node…" host port c
      end
  end.

(** ** Commands of the program *)

Definition registerAccount (username password : string) : NetworkClient → NetworkClient :=
  request REGISTER_REQUEST (Register_request username password) false.

Definition login (username password : string) : NetworkClient → NetworkClient :=
  request LOGIN_REQUEST (Login_request username password) false.

Definition logout : NetworkClient → NetworkClient := request LOGOUT_REQUEST Logout_request true.

Definition refreshTables : NetworkClient → NetworkClient :=
  request LIST_TABLES_REQUEST (List_tables_request 100 "") true.

Definition createTable (name : string) (maxPlayers smallBlind bigBlind minimumBuyIn maximumBuyIn : Z)
    : NetworkClient → NetworkClient :=
  request CREATE_TABLE_REQUEST
    (Create_table_request (mkCreateTable name (Z.max 2 (Z.min maxPlayers 6)) smallBlind bigBlind
       minimumBuyIn maximumBuyIn)) true.

Definition joinTable (tableId : Z) c : NetworkClient :=
  request JOIN_TABLE_REQUEST (Join_table_request tableId) true (on_view (set_table_id tableId) c).

Definition sitDown (seat buyIn : Z) c : NetworkClient :=
  request SIT_DOWN_REQUEST
    (Sit_down_request (mkSitDown (cl_table_id_ (cl_view c)) (Z.max 0 seat) buyIn
       (pending_ticket_ (cl_identity c)))) true c.

Definition setReady (ready : bool) c : NetworkClient :=
  request READY_REQUEST (Ready_request (mkReady (cl_table_id_ (cl_view c)) ready)) true c.

Definition action_named (normalized : string) : option ProtoAction :=
  if bool_decide (normalized = "fold"%string) then Some FOLD
  else if bool_decide (normalized = "check"%string) then Some CHECK
  else if bool_decide (normalized = "call"%string) then Some CALL
  else if bool_decide (normalized = "bet"%string) then Some BET
  else if bool_decide (normalized = "raise"%string) then Some RAISE
  else if bool_decide (normalized = "all_in"%string) then Some ALL_IN
  else None.

(** The envelope takes its number before the action is looked at. *)
Definition act (action : string) (targetCommitment : Z) c : NetworkClient :=
  let named := action_named (toLower (trimmed action)) in
  let '(e, c) := envelope ACTION_REQUEST
    (Action_request (mkActionRequest (cl_table_id_ (cl_view c)) (cl_hand_id_ (cl_view c))
       (default ACTION_TYPE_UNSPECIFIED named) targetCommitment)) true c in
  match named with
  | Some _ => send e c
  | None => setStatus "Unknown action" (effect (Dropped e) c)
  end.

Definition leaveTable c : NetworkClient :=
  request LEAVE_TABLE_REQUEST (Leave_table_request (cl_table_id_ (cl_view c))) true c.

(** ** Timers and the socket's signals *)

(** The lambda connected to [reconnect_timer_], a single-shot timer. *)
Definition reconnect_timeout c : NetworkClient :=
  let c := on_connection (set_reconnect_timer None) c in
  let r := cl_routing c in
  if negb (routing_to_game_ r) || negb (nonempty_text (game_host_ r)) || (game_port_ r =? 0) then c
  else
    let c := on_connection (λ k, set_codec (codec_reset (codec_ k)) k) c in
    let c := on_routing (λ r, set_flags (routing_to_game_ r) true (reconnect_after_auth_ r) r) c in
    connectToHost (game_host_ r) (game_port_ r) (setStatus "Reconnecting to game node…" c).

(** The lambda connected to [heartbeat_timer_]. *)
Definition heartbeat_timeout (now_ms : Z) c : NetworkClient :=
  if negb (connected c) then c else request HEARTBEAT (Heartbeat_body now_ms 0) false c.

Definition onConnected c : NetworkClient :=
  let c := on_connection (λ k, set_heartbeat_timer true (set_reconnect_timer None k)) c in
  let c := setStatus (if routing_to_game_ (cl_routing c) then "Connected to game node" else "Connected to lobby") c in
  let token := session_token_ (cl_identity c) in
  if authenticate_on_connect_ (cl_routing c) && nonempty_text token
  then request AUTHENTICATE_SESSION_REQUEST (Authenticate_session_request token) false c
  else c.

Definition onSocketError (text : string) c : NetworkClient :=
  let c := setStatus text c in
  if negb (intentional_disconnect_ (cl_connection c))
     && bool_decide (socket_ (cl_connection c) = UnconnectedState) && wants_game c
  then scheduleReconnect c else c.
End client.
