(* ===== verification/ClientMessages.v ===== *)
(** * What the desktop client does with the server's messages

    [processSnapshot], [process] and [onReadyRead] of
    [apps/client/network_client.cpp], and the client as a transition system: its
    commands, timers and socket in any order. *)
From stdpp Require Import pretty.
From S2P Require Import Prelude Card Table AccountStore GameStore Protocol Codec NetworkClient.

Section messages.
  Context `{!Qt, !EnvelopeCodec}.
  Implicit Types (c : NetworkClient).

(** ** Snapshots *)

Definition player_item (p : PlayerState) : PlayerItem :=
  mkPlayerItem (ps_user_id p) (ps_seat p) (ps_stack p) (ps_street_commitment p) (ps_status p) (ps_ready p)
    (ps_connected p) (String.concat " " (cardText <$> ps_visible_hole_cards p)).

Definition processSnapshot (s : ProtoSnapshot) c : NetworkClient :=
  let user := user_id_ (cl_identity c) in
  let c := on_view (λ _, mkTableView (existsb (λ p, ps_user_id p =? user) (pn_players s)) (pn_table_id s)
             (pn_hand_id s) (pn_server_sequence s) (pn_acting_user_id s) (streetText (pn_street s)) (pn_pot s)
             (pn_current_bet s) (pn_minimum_raise s) (player_item <$> pn_players s)
             (cardText <$> pn_board s)) c in
  setStatus (if pn_acting_user_id s =? user then "Your turn" else "Table synchronized") c.

(** ** The parts of the state that end with a session or a table *)

(** The session, the table and the numbers are forgotten. *)
Definition forget_session c : NetworkClient :=
  let c := on_identity (λ i, mkIdentity "" (pending_ticket_ i) false 0 0) c in
  let c := on_routing (λ r, set_flags (routing_to_game_ r) false false r) c in
  let c := effect Forgot (on_numbers (λ n, mkNumbers (next_request_id_ n) 0 0 0) c) in
  on_view (λ v, mkTableView false 0 0 0 0 (cl_street_ v) (cl_pot_ v) (cl_current_bet_ v) (minimum_raise_ v)
                  [] []) c.

(** The table is forgotten; [acting] is the acting player afterwards. *)
Definition forget_table (acting : Z) c : NetworkClient :=
  on_view (λ v, mkTableView false 0 0 (server_sequence_ v) acting (cl_street_ v) (cl_pot_ v)
                  (cl_current_bet_ v) (minimum_raise_ v) [] []) c.

Definition back_to_lobby c : NetworkClient :=
  connectToLobby (lobby_host_ (cl_routing c)) (lobby_port_ (cl_routing c)) c.

(** ** One function per kind of message *)

(** [message.login_response()]: a body of another kind reads as the default. *)
Definition process_login (b : Body) c : NetworkClient :=
  let '(user, token, wallet) :=
    match b with Login_response u t w _ => (u, t, w) | _ => (0, ""%string, 0) end in
  let c := on_identity (λ i, mkIdentity token (pending_ticket_ i) true user wallet) c in
  let c := on_numbers (λ n, mkNumbers (next_request_id_ n) 0 0 (game_sequence_ n)) c in
  refreshTables (setStatus "Signed in" (effect Renumbered c)).

Definition process_authenticated (b : Body) c : NetworkClient :=
  let '(user, wallet) := match b with Authenticate_session_response u _ w _ => (u, w) | _ => (0, 0) end in
  let routing := routing_to_game_ (cl_routing c) in
  let after_auth := reconnect_after_auth_ (cl_routing c) in
  let c := on_identity (λ i, mkIdentity (session_token_ i) (pending_ticket_ i) true user wallet) c in
  let c := on_routing (set_flags routing false after_auth) c in
  let c := on_connection (set_attempt 0) c in
  let c := on_numbers (λ n, mkNumbers (next_request_id_ n) 0
             (if routing then lobby_sequence_ n else 0) (if routing then 0 else game_sequence_ n)) c in
  let c := setStatus (if routing then "Game node authenticated" else "Lobby session restored")
             (effect Renumbered c) in
  if routing && after_auth then
    let '(e, c) := envelope RECONNECT_REQUEST
      (Reconnect_request (cl_table_id_ (cl_view c)) (session_token_ (cl_identity c))
         (server_sequence_ (cl_view c))) true c in
    send e (on_routing (set_flags routing false false) c)
  else if negb routing then refreshTables c else c.

Definition process_refreshed (b : Body) c : NetworkClient :=
  let token := match b with Refresh_session_response t _ => t | _ => ""%string end in
  setStatus "Session refreshed"
    (on_identity (λ i, mkIdentity token (pending_ticket_ i) (authenticated_ i) (user_id_ i) (wallet_chips_ i)) c).

Definition table_item (t : TableSummary) : TableItem :=
  mkTableItem (ts_table_id t) (ts_name t) (ts_seated_players t) (ts_max_players t)
    (pretty (ts_small_blind t) +:+ " / " +:+ pretty (ts_big_blind t)) (ts_game_node_id t).

Definition process_tables (b : Body) c : NetworkClient :=
  let tables := match b with List_tables_response l => l | _ => [] end in
  setStatus "Lobby refreshed" (with_tables_shown (table_item <$> tables) c).

Definition process_created (b : Body) c : NetworkClient :=
  match b with
  | Create_table_response table endpoint ticket => routeToGame endpoint ticket (ts_table_id table) c
  | _ => routeToGame "" "" 0 c
  end.

Definition process_joined (b : Body) c : NetworkClient :=
  match b with
  | Join_table_response endpoint ticket => routeToGame endpoint ticket (cl_table_id_ (cl_view c)) c
  | _ => routeToGame "" "" (cl_table_id_ (cl_view c)) c
  end.

Definition process_ack (b : Body) c : NetworkClient :=
  let text := match b with Command_ack _ m => m | _ => ""%string end in
  let c := setStatus text c in
  if bool_decide (text = "logged out"%string) then
    let was_on_game_node := routing_to_game_ (cl_routing c) in
    let c := forget_session (on_connection (set_reconnect_timer None) c) in
    if was_on_game_node then back_to_lobby c else c
  else if bool_decide (text = "left table"%string)
  then back_to_lobby (forget_table (acting_user_id_ (cl_view c)) c)
  else c.

Definition process_error (b : Body) c : NetworkClient :=
  let '(code, text) := match b with Error_response k m _ => (k, m) | _ => (ERROR_CODE_OK, ""%string) end in
  let c :=
    if bool_decide (code = UNAUTHENTICATED) then
      let was_on_game_node := routing_to_game_ (cl_routing c) in
      let c := forget_session (on_connection (λ k, set_heartbeat_timer false (set_reconnect_timer None k)) c) in
      if was_on_game_node then back_to_lobby c else c
    else c in
  setStatus ("Error: " +:+ text) c.

Definition process_event (b : Body) c : NetworkClient :=
  let '(kind, payload) := match b with Table_event _ _ _ k p => (k, p) | _ => (""%string, ""%string) end in
  let c := setStatus payload c in
  if bool_decide (kind = "session_replaced"%string) then
    let c := on_connection (λ k, set_heartbeat_timer false (set_reconnect_timer None k)) c in
    let c := forget_session (on_routing (λ r, set_flags false false false r) c) in
    let c := on_connection (λ k, set_intentional (negb (bool_decide (socket_ k = UnconnectedState))) k) c in
    disconnectFromHost c
  else if bool_decide (kind = "table_aborted_refunded"%string)
          || bool_decide (kind = "table_aborted_refund_pending"%string)
  then back_to_lobby (forget_table 0 c)
  else c.

Definition process (e : Envelope) c : NetworkClient :=
  let b := body e in
  match message_type e with
  | REGISTER_RESPONSE => setStatus "Account created. Sign in now." c
  | LOGIN_RESPONSE => process_login b c
  | AUTHENTICATE_SESSION_RESPONSE => process_authenticated b c
  | REFRESH_SESSION_RESPONSE => process_refreshed b c
  | LIST_TABLES_RESPONSE => process_tables b c
  | CREATE_TABLE_RESPONSE => process_created b c
  | JOIN_TABLE_RESPONSE => process_joined b c
  | TABLE_SNAPSHOT =>
      processSnapshot (match b with
                       | Table_snapshot s => s
                       | _ => mkProtoSnapshot 0 0 0 STREET_UNSPECIFIED 0 0 0 0 0 [] []
                       end) c
  | COMMAND_ACK => process_ack b c
  | ERROR_RESPONSE => process_error b c
  | TABLE_EVENT => process_event b c
  | HEARTBEAT => c
  | _ => setStatus "Unsupported server response" c
  end.

(** ** Bytes from the socket *)

Definition process_frame (frame : list Z) c : NetworkClient :=
  match ParseFromArray frame with
  | Some e => process e c
  | None => setStatus "Invalid server message" c
  end.

(** The frames decoded from one read are all processed, whatever the first ones
    do to the connection. *)
Definition onReadyRead (bytes : list Z) c : NetworkClient :=
  match feed bytes (codec_ (cl_connection c)) with
  | (Ok decoded, codec) =>
      let c := on_connection (set_codec codec) c in
      match dr_error decoded with
      | Codec_none => foldl (λ c frame, process_frame frame c) c (dr_frames decoded)
      | _ => abort_socket (setStatus "Protocol framing error" c)
      end
  | (_, codec) => on_connection (set_codec codec) c
  end.

(** ** The client as a transition system *)

Inductive Command :=
  | Connect_to_lobby (host : string) (port : Z)
  | Register_account (username password : string)
  | Log_in (username password : string)
  | Log_out
  | Refresh_tables
  | Create_table (name : string) (seats small big low high : Z)
  | Join_table (id : Z)
  | Sit_down (seat buyIn : Z)
  | Set_ready (ready : bool)
  | Take_action (action : string) (target : Z)
  | Leave_table.

Definition run_command (m : Command) : NetworkClient → NetworkClient :=
  match m with
  | Connect_to_lobby host port => connectToLobby host port
  | Register_account u p => registerAccount u p
  | Log_in u p => login u p
  | Log_out => logout
  | Refresh_tables => refreshTables
  | Create_table name seats small big low high => createTable name seats small big low high
  | Join_table id => joinTable id
  | Sit_down seat buyIn => sitDown seat buyIn
  | Set_ready ready => setReady ready
  | Take_action action target => act action target
  | Leave_table => leaveTable
  end.

Inductive client_step : NetworkClient → NetworkClient → Prop :=
  | client_command m c : client_step c (run_command m c)
  | client_connected c :
      socket_ (cl_connection c) = ConnectingState →
      client_step c (onConnected (on_connection (set_socket ConnectedState) c))
  | client_disconnected c :
      socket_ (cl_connection c) ≠ UnconnectedState →
      client_step c (onDisconnected (on_connection (set_socket UnconnectedState) c))
  | client_error text state c :
      state = socket_ (cl_connection c) ∨ state = UnconnectedState →
      client_step c (onSocketError text (on_connection (set_socket state) c))
  | client_looked_up c :
      socket_ (cl_connection c) = HostLookupState →
      client_step c (on_connection (set_socket ConnectingState) c)
  | client_read bytes c : client_step c (onReadyRead bytes c)
  | client_retry c :
      is_Some (reconnect_timer_ (cl_connection c)) → client_step c (reconnect_timeout c)
  | client_beat now_ms c :
      heartbeat_timer_ (cl_connection c) = true → client_step c (heartbeat_timeout now_ms c).

Definition client_reachable : NetworkClient → Prop := rtc client_step NetworkClient_new.
End messages.
