(* ===== verification/ClientTheorems.v ===== *)
(** * What the desktop client guarantees

    The numbers of its commands are the ones the server's idempotency cache waits
    for, and a session that ended leaves nothing behind. *)
From stdpp Require Import pretty.
From S2P Require Import Prelude Card Table AccountStore GameStore Protocol Codec IdempotencyCache NetworkClient ClientMessages.

(** ** Numbered messages *)

(** The numbered messages written since the numbers were restarted, unless a
    numbered message was dropped, the connection replaced or the session given up
    since. *)
Definition number_effect (o : option (list Envelope)) (x : Effect) : option (list Envelope) :=
  match x with
  | Wrote e => if client_sequence e =? 0 then o else (λ es, es ++ [e]) <$> o
  | Dropped e => if client_sequence e =? 0 then o else None
  | Opened _ _ | Forgot => None
  | Renumbered => Some []
  end.

Definition numbered (l : list Effect) : option (list Envelope) := foldl number_effect None l.

Lemma numbered_snoc l x : numbered (l ++ [x]) = number_effect (numbered l) x.
Proof. by rw /numbered foldl_app. Qed.

(** Numbers from 1 on, with increasing request ids below [next]. *)
Record counted (next : Z) (es : list Envelope) : Prop := {
  cn_numbers : ∀ i e, es !! i = Some e → client_sequence e = Z.of_nat i + 1;
  cn_requests : ∀ i j e e', es !! i = Some e → es !! j = Some e' → (i < j)%nat → request_id e < request_id e';
  cn_range : ∀ e, e ∈ es → 0 < request_id e < next;
}.

Definition numbers_ok (n : Numbers) (l : list Effect) : Prop :=
  Z.of_nat (length l) < u64_max →
  1 ≤ next_request_id_ n ≤ 1 + Z.of_nat (length l) ∧
  match numbered l with
  | Some es => client_sequence_ n = Z.of_nat (length es) ∧ (length es ≤ length l)%nat ∧
               counted (next_request_id_ n) es
  | None => True
  end.

Lemma counted_next next next' es : next ≤ next' → counted next es → counted next' es.
Proof. intros Hle [H1 H2 H3]. split; [done|done|]. intros e He. pose proof (H3 e He). lia. Qed.

Lemma counted_snoc next es e :
  counted next es → client_sequence e = Z.of_nat (length es) + 1 → request_id e = next → 0 < next →
  counted (next + 1) (es ++ [e]).
Proof.
  intros [H1 H2 H3] Hseq Hid Hpos.
  assert (∀ i x, (es ++ [e]) !! i = Some x → es !! i = Some x ∨ (i = length es ∧ x = e)) as Hcase.
  { intros i x. rw lookup_app_Some. intros [?|[Hi Hx]]; [by left|]. right.
    apply list_lookup_singleton_Some in Hx as [Hx ->]. split; [lia|done]. }
  split.
  - intros i x [Hx|[-> ->]]%Hcase; [by apply H1|done].
  - intros i j x y [Hx|[-> ->]]%Hcase [Hy|[-> ->]]%Hcase Hlt; [by eapply H2| | |lia].
    + apply list_elem_of_lookup_2, H3 in Hx. lia.
    + apply lookup_lt_Some in Hy. lia.
  - intros x [Hx| ->%list_elem_of_singleton]%elem_of_app; [apply H3 in Hx|]; lia.
Qed.

Section client.
  Context `{!Qt, !EnvelopeCodec}.
  Implicit Types (c : NetworkClient).

Definition client_ok c : Prop := numbers_ok (cl_numbers c) (cl_effects c).

Lemma client_same c c' :
  cl_numbers c' = cl_numbers c → cl_effects c' = cl_effects c → client_ok c → client_ok c'.
Proof. rw /client_ok. by intros -> ->. Qed.

(** A number outside of any sequence. *)
Lemma numbers_closed n n' l x :
  numbers_ok n l → next_request_id_ n' = next_request_id_ n → number_effect (numbered l) x = None →
  numbers_ok n' (l ++ [x]).
Proof.
  intros Hok Hn Hx Hlen. rw length_app /= in Hlen. destruct Hok as [? _]; [lia|].
  rw numbered_snoc Hx length_app Hn /=. split; [lia|done].
Qed.

Lemma numbers_restarted n n' l :
  numbers_ok n l → next_request_id_ n' = next_request_id_ n → client_sequence_ n' = 0 →
  numbers_ok n' (l ++ [Renumbered]).
Proof.
  intros Hok Hn Hs Hlen. rw length_app /= in Hlen. destruct Hok as [? _]; [lia|].
  rw numbered_snoc length_app Hn /=. split_and!; [lia|lia|done|cbn; lia|].
  split; [by intros i e|by intros i j e e'|by intros e ?%not_elem_of_nil].
Qed.

(** An envelope, written or dropped. *)
Lemma envelope_ok type b sequenced c :
  client_ok c →
  let '(e, c') := envelope type b sequenced c in
  client_ok (effect (Wrote e) c') ∧ client_ok (effect (Dropped e) c').
Proof.
  intros Hok. rw /envelope. set (n := cl_numbers c) in *.
  assert (∀ x, (Z.of_nat (length (cl_effects c ++ [x])) < u64_max) →
    1 ≤ next_request_id_ n ≤ 1 + Z.of_nat (length (cl_effects c)) ∧
    u64_succ (next_request_id_ n) = next_request_id_ n + 1 ∧
    match numbered (cl_effects c) with
    | Some es => client_sequence_ n = Z.of_nat (length es) ∧ (length es ≤ length (cl_effects c))%nat ∧
                 counted (next_request_id_ n) es ∧ u64_succ (client_sequence_ n) = client_sequence_ n + 1
    | None => True
    end) as Hfacts.
  { intros x Hlen. rw length_app /= in Hlen. destruct Hok as [Hnext Hes]; [lia|]. fold n in Hnext, Hes.
    split_and!; [lia|lia|apply u64_small; rw /fits_u64; lia|].
    destruct (numbered (cl_effects c)) as [es|]; [|done]. destruct Hes as (Hs & Hl & Hc).
    split_and!; [done|done|done|apply u64_small; rw /fits_u64; lia]. }
  split; intros Hlen; cbn [cl_effects effect on_numbers cl_numbers] in Hlen |- *;
    destruct (Hfacts _ Hlen) as (Hnext & Hsucc & Hes); rw numbered_snoc length_app /=; clear Hfacts Hlen.
  - destruct sequenced; cbn [next_request_id_ client_sequence_ Z.eqb]; rw ?Hsucc; (split; [lia|]).
    + destruct (numbered (cl_effects c)) as [es|]; cbn; [|by destruct (_ =? _)].
      destruct Hes as (Hs & Hl & Hc & Hsucc'). rw Hsucc'. destruct (Z.eqb_spec (client_sequence_ n + 1) 0); [lia|].
      cbn. rw length_app /=. split_and!; [lia|lia|].
      apply counted_snoc; [done|cbn; lia|done|lia].
    + destruct (numbered (cl_effects c)) as [es|]; [|done]. destruct Hes as (Hs & Hl & Hc & _).
      split_and!; [done|lia|]. eapply counted_next; [|done]. lia.
  - destruct sequenced; cbn [next_request_id_ client_sequence_ Z.eqb]; rw ?Hsucc; (split; [lia|]).
    + destruct (numbered (cl_effects c)) as [es|]; cbn; [|by destruct (_ =? _)].
      destruct Hes as (Hs & Hl & Hc & Hsucc'). rw Hsucc'. by destruct (Z.eqb_spec (client_sequence_ n + 1) 0); [lia|].
    + destruct (numbered (cl_effects c)) as [es|]; [|done]. destruct Hes as (Hs & Hl & Hc & _).
      split_and!; [done|lia|]. eapply counted_next; [|done]. lia.
Qed.
Lemma send_ok e c :
  client_ok (effect (Wrote e) c) → client_ok (effect (Dropped e) c) → client_ok (send e c).
Proof.
  intros Hw Hd. rw /send. destruct (connected c); cbn [negb]; [|done].
  by destruct (encode _ _) as [|[]|].
Qed.

Lemma client_request_ok type b sequenced c : client_ok c → client_ok (request type b sequenced c).
Proof.
  intros Hok. pose proof (envelope_ok type b sequenced c Hok) as Hwd. rw /request.
  destruct (envelope type b sequenced c) as [e c']. destruct Hwd. by apply send_ok.
Qed.

(** ** The socket *)

(** What does not touch the numbers. *)
Definition quiet (f : NetworkClient → NetworkClient) : Prop :=
  ∀ c, cl_numbers (f c) = cl_numbers c ∧ cl_effects (f c) = cl_effects c ∧
       socket_ (cl_connection (f c)) = socket_ (cl_connection c).

Lemma scheduleReconnect_quiet : quiet scheduleReconnect.
Proof. intros c. rw /scheduleReconnect. by destruct (reconnect_timer_ _). Qed.

Lemma onDisconnected_quiet : quiet onDisconnected.
Proof.
  intros c. rw /onDisconnected. destruct (intentional_disconnect_ _); [done|].
  destruct (wants_game _); [|done].
  match goal with |- cl_numbers (scheduleReconnect ?x) = _ ∧ _ => apply (scheduleReconnect_quiet x) end.
Qed.

Lemma abort_socket_closed c :
  cl_numbers (abort_socket c) = cl_numbers c ∧ cl_effects (abort_socket c) = cl_effects c ∧
  socket_ (cl_connection (abort_socket c)) = UnconnectedState.
Proof.
  rw /abort_socket. destruct (abort_emits _); [|done].
  apply (onDisconnected_quiet (on_connection (set_socket UnconnectedState) c)).
Qed.

Lemma reopen_opens status host port c :
  cl_numbers (reopen status host port c) = cl_numbers c ∧
  cl_effects (reopen status host port c) = cl_effects c ++ [Opened host port].
Proof.
  rw /reopen /connectToHost. set (c' := on_connection _ c). cbn [cl_connection setStatus].
  destruct (abort_socket_closed c') as (Hn & He & Hs). rw Hs. cbn [cl_numbers cl_effects effect on_connection setStatus].
  by rw Hn He.
Qed.

(** Replacing the connection, after whatever was done to the numbers. *)
Lemma reopen_ok status host port c c0 :
  client_ok c0 → next_request_id_ (cl_numbers c) = next_request_id_ (cl_numbers c0) →
  cl_effects c = cl_effects c0 → client_ok (reopen status host port c).
Proof.
  intros Hok Hn He. destruct (reopen_opens status host port c) as [Hn' He']. rw /client_ok Hn' He' He.
  by apply (numbers_closed (cl_numbers c0)).
Qed.

Lemma connectToLobby_ok host port c : client_ok c → client_ok (connectToLobby host port c).
Proof. intros Hok. by apply (reopen_ok _ _ _ _ c). Qed.

Lemma routeToGame_ok endpoint ticket id c : client_ok c → client_ok (routeToGame endpoint ticket id c).
Proof.
  intros Hok. rw /routeToGame. destruct (split_last_colon endpoint) as [[[|ch host] port]|]; [done| |done].
  destruct (toUShort port); [|done]. by apply (reopen_ok _ _ _ _ c).
Qed.

Lemma connectToHost_ok host port c : client_ok c → client_ok (connectToHost host port c).
Proof.
  intros Hok. rw /connectToHost. destruct (socket_ (cl_connection c)); try done.
  by apply (numbers_closed (cl_numbers c)).
Qed.

(** ** Messages *)

Lemma forget_session_ok c : client_ok c → client_ok (forget_session c).
Proof. intros Hok. by apply (numbers_closed (cl_numbers c)). Qed.

Lemma process_login_ok b c : client_ok c → client_ok (process_login b c).
Proof.
  intros Hok. rw /process_login. destruct (match b with Login_response u t w _ => _ | _ => _ end) as [[user token] wallet].
  apply client_request_ok. by apply (numbers_restarted (cl_numbers c)).
Qed.

Lemma process_authenticated_ok b c : client_ok c → client_ok (process_authenticated b c).
Proof.
  intros Hok. rw /process_authenticated.
  destruct (match b with Authenticate_session_response u _ w _ => _ | _ => _ end) as [user wallet].
  set (c' := setStatus _ _).
  assert (client_ok c') as Hok' by by apply (numbers_restarted (cl_numbers c)).
  destruct (routing_to_game_ (cl_routing c) && reconnect_after_auth_ (cl_routing c)).
  - pose proof (envelope_ok RECONNECT_REQUEST (Reconnect_request (cl_table_id_ (cl_view c'))
      (session_token_ (cl_identity c')) (server_sequence_ (cl_view c'))) true c' Hok') as Hwd.
    destruct (envelope _ _ _ c') as [e c'']. destruct Hwd as [Hw Hd]. by apply send_ok.
  - destruct (routing_to_game_ (cl_routing c)); cbn [negb]; [done|]. by apply client_request_ok.
Qed.

Lemma process_ack_ok b c : client_ok c → client_ok (process_ack b c).
Proof.
  intros Hok. rw /process_ack. set (text := match b with Command_ack _ m => m | _ => _ end).
  case_bool_decide; [|case_bool_decide; [|done]].
  - assert (client_ok (forget_session (on_connection (set_reconnect_timer None) (setStatus text c)))) as H'.
    { by apply forget_session_ok. }
    destruct (routing_to_game_ _); [|done]. by apply connectToLobby_ok.
  - by apply connectToLobby_ok.
Qed.

Lemma process_error_ok b c : client_ok c → client_ok (process_error b c).
Proof.
  intros Hok. rw /process_error. destruct (match b with Error_response k m _ => _ | _ => _ end) as [code text].
  case_bool_decide; [|done]. set (c' := forget_session _).
  assert (client_ok c') as H' by by apply forget_session_ok.
  destruct (routing_to_game_ _); [|done]. by apply (client_same (back_to_lobby c')), connectToLobby_ok.
Qed.

Lemma process_event_ok b c : client_ok c → client_ok (process_event b c).
Proof.
  intros Hok. rw /process_event. destruct (match b with Table_event _ _ _ k p => _ | _ => _ end) as [kind payload].
  case_bool_decide; [|destruct (_ || _); [|done]].
  - apply (client_same (forget_session c)); [done|done|]. by apply forget_session_ok.
  - by apply connectToLobby_ok.
Qed.

Lemma process_ok e c : client_ok c → client_ok (process e c).
Proof.
  intros Hok. rw /process. destruct (message_type e); try done.
  - by apply process_login_ok.
  - by apply process_authenticated_ok.
  - by destruct (body e); apply routeToGame_ok.
  - by destruct (body e); apply routeToGame_ok.
  - by apply process_event_ok.
  - by apply process_ack_ok.
  - by apply process_error_ok.
Qed.

Lemma onReadyRead_ok bytes c : client_ok c → client_ok (onReadyRead bytes c).
Proof.
  intros Hok. rw /onReadyRead. destruct (feed bytes _) as [[decoded| |] codec]; [|done..].
  set (c' := on_connection (set_codec codec) c). assert (client_ok c') as Hok' by done.
  destruct (dr_error decoded); last first.
  all: try (destruct (abort_socket_closed (setStatus "Protocol framing error" c')) as (Hn & He & _);
            by apply (client_same c')).
  clearbody c'. generalize dependent c'. induction (dr_frames decoded) as [|frame frames IH]; intros c' Hok'; [done|].
  apply IH. rw /process_frame. destruct (ParseFromArray frame); [by apply process_ok|done].
Qed.

Lemma client_act_ok action target c : client_ok c → client_ok (act action target c).
Proof.
  intros Hok. rw /act. set (b := Action_request _). pose proof (envelope_ok ACTION_REQUEST b true c Hok) as Hwd.
  destruct (envelope ACTION_REQUEST b true c) as [e c']. destruct Hwd.
  destruct (action_named _); [by apply send_ok|done].
Qed.

Lemma client_step_ok c c' : client_ok c → client_step c c' → client_ok c'.
Proof.
  intros Hok Hstep. destruct Hstep as [m c|c _|c _|text state c _|c _|bytes c|c _|now_ms c _].
  - destruct m; try by apply client_request_ok.
    + by apply connectToLobby_ok.
    + by apply client_act_ok.
  - rw /onConnected. destruct (_ && _); [|done]. by apply client_request_ok.
  - destruct (onDisconnected_quiet (on_connection (set_socket UnconnectedState) c)) as (Hn & He & _).
    by apply (client_same c).
  - rw /onSocketError. destruct (_ && _); [|done].
    set (c' := setStatus _ _). destruct (scheduleReconnect_quiet c') as (Hn & He & _). by apply (client_same c').
  - done.
  - by apply onReadyRead_ok.
  - rw /reconnect_timeout. destruct (_ || _); [done|]. by apply connectToHost_ok.
  - rw /heartbeat_timeout. destruct (negb _); [done|]. by apply client_request_ok.
Qed.

Lemma client_reachable_ok c : client_reachable c → client_ok c.
Proof.
  assert (client_ok NetworkClient_new) as Hinit by (intros _; split; [cbn; lia|done]).
  intros Hr. revert Hinit. rw /client_reachable in Hr.
  induction Hr as [|c1 c2 c3 Hstep _ IH]; [done|]. intros Hok. by eapply IH, client_step_ok.
Qed.
End client.

(** ** The server's side *)

(** A cache that was reset for a user, has since accepted these messages of the
    user, in this order, and completed some of them, while it served others. *)
Inductive serves (user : Z) : list Envelope → IdempotencyCache → Prop :=
  | serves_reset cache : cache_inv cache → serves user [] (cache_reset user cache)
  | serves_arrival es cache e d cache' :
      serves user es cache → cache_begin user (request_id e) (client_sequence e) cache = (d, cache') →
      rd_status d = Req_accepted → serves user (es ++ [e]) cache'
  | serves_complete es cache v r x :
      serves user es cache → serves user es (cache_complete v r x cache).2
  | serves_other es cache v r q :
      serves user es cache → v ≠ user → 0 < v → 0 < r → 0 < q →
      serves user es (cache_begin v r q cache).2.

Lemma served_cache user next es cache :
  0 < user → counted next es → serves user es cache →
  cache_inv cache ∧ last_sequence (user_state cache user) = Z.of_nat (length es) ∧
  ∀ r, is_Some (entries (user_state cache user) !! r) → ∃ e, e ∈ es ∧ request_id e = r.
Proof.
  intros Hu Hcount Hs. induction Hs as [cache Hc|es cache e d cache' Hs IH Hb Hd|es cache v r x Hs IH|es cache v r q Hs IH Hv Hv0 Hr0 Hq0].
  - assert (∀ v, user_state (cache_reset user cache) v = if decide (v = user) then UserState_default else user_state cache v) as Hst.
    { intros v. rw /user_state /= lookup_delete. case_decide as H1; case_decide as H2; congruence || done. }
    split_and!.
    + split; [apply Hc|]. intros v. rw Hst. case_decide; [apply user_inv_default|apply Hc].
    + by rw Hst decide_True.
    + intros r. rw Hst decide_True //=. rw lookup_empty. by intros [].
  - assert (counted next es) as Hes.
    { destruct Hcount as [H1 H2 H3]. split.
      - intros i x Hx. apply H1. by apply lookup_app_l_Some.
      - intros i j x y Hx Hy. apply (H2 i j); by apply lookup_app_l_Some.
      - intros x Hx. apply H3. apply elem_of_app. by left. }
    destruct (IH Hes) as (Hc & Hlast & Hent).
    assert (e ∈ es ++ [e]) as He by (apply elem_of_app; right; by left).
    assert (client_sequence e = Z.of_nat (length es) + 1) as Hseq.
    { apply (cn_numbers _ _ Hcount). by rw lookup_app_r // Nat.sub_diag. }
    pose proof (cn_range _ _ Hcount e He) as Hid.
    destruct (begin_correct user (request_id e) (client_sequence e) cache cache' d) as (Hc' & _ & Hacc & _ & _ & _);
      [done|done|lia|lia|done|].
    rw bool_decide_eq_true_2 // in Hacc. destruct Hacc as [Hl He'].
    split_and!; [done|rw Hl Hseq length_app /=; lia|].
    intros r [x Hx]. destruct (decide (r = request_id e)) as [->|Hne]; [by exists e|].
    destruct (Hent r) as (e0 & ? & ?); [|exists e0; split; [|done]; apply elem_of_app; by left].
    rw cache_begin_inv // in Hb; [lia|lia|].
    destruct (begin_user _ _ _ _) as [d0 s0] eqn:Hb0. injection Hb as <- <-.
    rw user_state_set decide_True // in Hx. eexists.
    eapply begin_user_entries; [apply Hc|done|done|by left].
  - destruct (IH Hcount) as (Hc & Hlast & Hent). destruct (cache_complete_spec v r x cache Hc) as (Hc' & Hl & He).
    split_and!; [done|by rw Hl|]. intros k [y Hy]. destruct (He user k y Hy) as (e0 & Hk & _). apply Hent. by exists e0.
  - destruct (IH Hcount) as (Hc & Hlast & Hent). destruct (cache_begin v r q cache) as [d c'] eqn:Hb.
    destruct (begin_correct v r q cache c' d) as (Hc' & _ & _ & _ & _ & Hother); [done..|].
    cbn [snd]. by rw Hother.
Qed.

(** C19: As long as it drops none, the server's idempotency cache accepts the numbers
    of the client's commands: of the numbered messages written since the answer to
    an authentication, with none dropped, no new connection opened and the session
    not given up since, each is accepted when it is the next to arrive, unless the
    cache is full of unanswered requests. So none of these is refused as stale, out
    of sequence or a duplicate. A numbered message that is dropped, such as
    [act] with an unknown action, uses its number up, and what is written after it
    is out of scope until the next authentication ([unknown_action_leaves_gap]). *)
Theorem client_numbers_accepted `{!Qt, !EnvelopeCodec} c user a e b cache :
  client_reachable c → Z.of_nat (length (cl_effects c)) < u64_max →
  numbered (cl_effects c) = Some (a ++ e :: b) →
  0 < user → serves user a cache →
  let d := (cache_begin user (request_id e) (client_sequence e) cache).1 in
  (rd_status d = Req_accepted ∨ rd_status d = Req_capacity_exceeded) ∧
  ((base.size (entries (user_state cache user)) < max_requests_per_user_ cache)%nat →
   rd_status d = Req_accepted).
Proof.
  intros Hr Hlen Hnum Hu Hserves. destruct (client_reachable_ok c Hr Hlen) as [_ Hok]. rw Hnum in Hok.
  destruct Hok as (_ & Hle & [H1 H2 H3]).
  assert (counted (next_request_id_ (cl_numbers c)) a) as Hcount.
  { split.
    - intros i x Hx. apply H1. by apply lookup_app_l_Some.
    - intros i j x y Hx Hy. apply (H2 i j); by apply lookup_app_l_Some.
    - intros x Hx. apply H3. apply elem_of_app. by left. }
  destruct (served_cache user _ a cache Hu Hcount Hserves) as (Hc & Hlast & Hent).
  assert ((a ++ e :: b) !! length a = Some e) as He by by rw lookup_app_r // Nat.sub_diag.
  pose proof (H1 _ _ He) as Hseq. pose proof (H3 e (list_elem_of_lookup_2 _ _ _ He)) as Hid.
  rw length_app /= in Hle.
  assert (entries (user_state cache user) !! request_id e = None) as Hfresh.
  { apply eq_None_not_Some. intros (x & Hx & Heq)%Hent.
    apply list_elem_of_lookup in Hx as [i Hi]. pose proof (lookup_lt_Some _ _ _ Hi) as Hlt.
    pose proof (H2 i (length a) x e (lookup_app_l_Some _ _ _ _ Hi) He Hlt). lia. }
  rw cache_begin_inv //; [lia|lia|].
  pose proof (begin_user_spec (max_requests_per_user_ cache) (request_id e) (client_sequence e)
    (user_state cache user) (proj1 Hc) (proj2 Hc user) ltac:(lia)) as Hspec.
  destruct (begin_user _ _ _ _) as [d s'] eqn:Hb. cbn [fst]. split.
  - rw /begin_user Hfresh in Hb. destruct (Z.leb_spec (client_sequence e) (last_sequence (user_state cache user))); [lia|].
    rw Hlast /u64_succ u64_small in Hb; [rw /fits_u64; lia|].
    destruct (Z.eqb_spec (client_sequence e) (Z.of_nat (length a) + 1)); [|lia]. cbn [negb] in Hb.
    destruct (_ <=? _)%nat; injection Hb as <- _; [by right|by left].
  - intros Hroom. apply Hspec. split_and!; [done|lia|lia|by left].
Qed.

(** ** A client at work *)

Module ClientDemo.
(** Qt as it is: aborting a socket that is still connecting emits nothing. *)
#[local] Instance demo_qt : Qt := {
  trimmed s := s;
  toLower s := s;
  toUShort s := if bool_decide (s = "7000"%string) then Some 7000 else None;
  abort_emits s := match s with ConnectedState | ClosingState => true | _ => false end;
}.

Definition from_server (type : MessageType) (b : Body) : Envelope := answering 0 (message type b).

(** A wire format for the messages of the story, by their first byte. *)
#[local] Instance demo_codec : EnvelopeCodec := {
  SerializeToString e := [client_sequence e + 1];
  ParseFromArray bytes :=
    match bytes with
    | [1] => Some (from_server LOGIN_RESPONSE (Login_response 7 "token" 1000 0))
    | [2] => Some (from_server JOIN_TABLE_RESPONSE (Join_table_response "host-a:7000" "ticket"))
    | [3] => Some (from_server AUTHENTICATE_SESSION_RESPONSE (Authenticate_session_response 7 "u" 1000 0))
    | _ => None
    end;
}.

Definition frame (byte : Z) : list Z := [0; 0; 0; 1; byte].
Definition connect c := onConnected (on_connection (set_socket ConnectedState) c).
Definition lose c := onDisconnected (on_connection (set_socket UnconnectedState) c).

Definition dialing : NetworkClient := run_command (Connect_to_lobby "lobby" 6000) NetworkClient_new.
(** The host is looked up, then connected to. *)
Definition looked_up : NetworkClient := on_connection (set_socket ConnectingState) dialing.
Definition dialed : NetworkClient := connect looked_up.
Definition asking : NetworkClient := run_command (Log_in "u" "p") dialed.
Definition signed_in : NetworkClient := onReadyRead (frame 1) asking.

(** The table list was asked for at once; then a table is joined. *)
Definition joining : NetworkClient := run_command (Join_table 5) signed_in.

Definition numbers_of c : option (list Z) := (λ es : list Envelope, client_sequence <$> es) <$> numbered (cl_effects c).

Example joining_numbers : numbers_of joining = Some [1; 2].
Proof. vm_compute. reflexivity. Qed.

(** The game node starts again from 1, and the lobby's numbers are kept aside. *)
Definition at_game : NetworkClient := onReadyRead (frame 3) (connect (onReadyRead (frame 2) joining)).
Definition seating : NetworkClient := setReady true (sitDown 2 500 at_game).

Example seating_numbers :
  (numbers_of seating, lobby_sequence_ (cl_numbers seating), game_sequence_ (cl_numbers seating)) =
  (Some [1; 2], 2, 2).
Proof. vm_compute. reflexivity. Qed.

(** An action the client does not know uses up a number: the next command comes
    with one the server does not expect. *)
Example unknown_action_leaves_gap :
  (client_sequence_ (cl_numbers (act "dance" 0 seating)), numbers_of (act "dance" 0 seating)) = (3, None).
Proof. vm_compute. reflexivity. Qed.

(** A lost game node is tried again after half a second, a second, and so on up to
    eight; the ten seconds of the code are not reached. *)
Fixpoint losses (n : nat) c : list (option Z) :=
  match n with
  | O => []
  | S n =>
      let c := onSocketError "refused" (on_connection (set_socket UnconnectedState) c) in
      reconnect_timer_ (cl_connection c) :: losses n (reconnect_timeout c)
  end.

Example reconnect_delays :
  losses 7 (reconnect_timeout (lose seating)) =
  [Some 1000; Some 2000; Some 4000; Some 8000; Some 8000; Some 8000; Some 8000].
Proof. vm_compute. reflexivity. Qed.

(** Joining twice: both answers come in one read. The second one finds the socket
    connecting, so aborting it emits nothing and [intentional_disconnect_] stays
    set; when the game node is lost later, that is taken for an intended
    disconnection and no retry is started. *)
Definition joined_twice : NetworkClient :=
  sitDown 2 500 (onReadyRead (frame 3) (connect (onReadyRead (frame 2 ++ frame 2) (joinTable 5 joining)))).

Example stale_intention_blocks_retry :
  (wants_game joined_twice, reconnect_timer_ (cl_connection (lose joined_twice)),
   wants_game seating, reconnect_timer_ (cl_connection (lose seating))) =
  (true, None, true, Some 500).
Proof. vm_compute. reflexivity. Qed.

Lemma dialing_socket : socket_ (cl_connection dialing) = HostLookupState.
Proof. vm_compute. reflexivity. Qed.

Lemma joining_reachable : client_reachable joining.
Proof.
  assert (client_step NetworkClient_new dialing) as H1 by (rw /dialing; apply client_command).
  assert (client_step dialing looked_up) as H0 by (rw /looked_up; apply client_looked_up, dialing_socket).
  assert (client_step looked_up dialed) as H2 by (rw /dialed /connect; by apply client_connected).
  assert (client_step dialed asking) as H3 by (rw /asking; apply client_command).
  assert (client_step asking signed_in) as H4 by (rw /signed_in; apply client_read).
  assert (client_step signed_in joining) as H5 by (rw /joining; apply client_command).
  exact (rtc_l _ _ _ _ H1 (rtc_l _ _ _ _ H0 (rtc_l _ _ _ _ H2 (rtc_l _ _ _ _ H3 (rtc_l _ _ _ _ H4 (rtc_once _ _ H5)))))).
Qed.

Definition empty_cache : IdempotencyCache := mkCache 8 ∅.
Definition first_message : Envelope := mkEnvelope 1 2 1 LIST_TABLES_REQUEST "" 0 0 0 (List_tables_request 100 "").
Definition second_message : Envelope := mkEnvelope 1 3 2 JOIN_TABLE_REQUEST "" 0 0 0 (Join_table_request 5).
Definition cache_after : IdempotencyCache :=
  (cache_begin 7 2 1 (cache_reset 7 empty_cache)).2.

Lemma client_numbers_accepted_witness :
  rd_status (cache_begin 7 3 2 cache_after).1 = Req_accepted.
Proof.
  assert (serves 7 [first_message] cache_after) as Hserves.
  { exact (serves_arrival 7 [] (cache_reset 7 empty_cache) first_message (mkDecision Req_accepted None) cache_after
      (serves_reset 7 empty_cache (cache_inv_new 8 empty_cache eq_refl)) eq_refl eq_refl). }
  destruct (client_numbers_accepted joining 7 [first_message] second_message [] cache_after
    joining_reachable) as [_ H].
  - vm_compute. reflexivity.
  - vm_compute. reflexivity.
  - lia.
  - exact Hserves.
  - apply H. apply Nat.ltb_lt. vm_compute. reflexivity.
Defined.
End ClientDemo.
